(* ===== verification/_CoqProject ===== *)
-Q . S2P
Prelude.v
CoreTypes.v
StakingPool.v
StakingSlashing.v
StakingManager.v
StakingSystem.v
Emission.v
ThirdParty.v
GovProposals.v
GovVoting.v
GovPolling.v
Governance.v
GovernanceSystem.v
Crypto.v
Vrf.v
Committee.v
CommitteeSelection.v
Blocks.v
BlockProduction.v
Engine.v
EngineSafety.v
Streamlet.v
StreamletSafety.v
Ieee.v
Gas.v
Sandbox.v
HostFunctions.v
WasmModule.v
Interp.v
InterpSafety.v
InterpTermination.v
InterpPrivacy.v
WasmParse.v
VmRuntime.v
Vm.v
VmTheorems.v
Merkle.v
StateStore.v
StateDb.v
Pruning.v
PruningManager.v
Ledger.v
LedgerAccounts.v
LedgerTheorems.v
LedgerSamples.v
PolTypes.v
PolZk.v
Mempool.v
Validation.v
Keystore.v
Recovery.v
Nfc.v
Wallet.v
WalletTheorems.v
WalletSamples.v
BodyBinding.v
ChainSync.v
NetSync.v
Sharding.v
ShardedConsensus.v
PolCollector.v
PolTrust.v
PolManager.v
LuxStore.v
LuxFeed.v
LuxModeration.v
LuxFees.v
Reputation.v
Gossip.v
GsSyntax.v
GsLexer.v
GsParser.v
GsTypes.v
GsCodegen.v
GsFrontend.v
GsScope.v
GsModule.v
GsLoad.v
GsRun.v
GsSamples.v
