(* ===== verification/Prelude.v ===== *)
(** * Gratia protocol: a verification library

    Gratia is a mobile-first proof-of-life blockchain written in Rust (the workspace
    [src/crates/]).  This library models its protocol core: the token economy, the
    one-phone-one-vote governance, the consensus layer, the contract VM, the ledger and
    its storage, the mempool, the wallet, Proof of Life, block sync and gossip, the
    social layer Lux and the compiler of the contract language GratiaScript.

    ** The parts and how they interact

    - [gratia-core] holds the shared types, the configuration, the emission schedule,
      the mempool and the hash and signature helpers.
    - [gratia-staking] keeps the stake of every node.  The [StakingManager] splits a
      commitment into the effective stake (up to a cap per node) and an overflow that
      goes to the Network Security Pool, runs the unstake cooldown, and applies slashes;
      the pool distributes yield; [rewards.rs] distributes block rewards.
    - [gratia-governance] keeps proposals, ballots, emergency proposals and polls behind
      a [GovernanceManager] whose [tick] moves proposals through their lifecycle.
    - [gratia-consensus] selects validator committees with a VRF, produces, validates and
      finalizes blocks ([ConsensusEngine], [validation.rs]), resolves forks
      ([ForkResolver]) and runs Streamlet.
    - [gratia-vm] parses a WASM module, checks it against a sandbox policy and interprets
      its functions with gas metering and host functions guarded by permissions.
    - [gratiascript] compiles contract sources to the modules [gratia-vm] runs.
    - [gratia-state] applies blocks to accounts in a key-value store, reverts and prunes
      them, and commits to the accounts with a Merkle tree.
    - [gratia-wallet] keeps a key, builds and signs transactions, recovers a lost wallet
      and speaks the tap-to-pay protocol.  A transaction it signs goes through the
      mempool, block validation and the engine to the ledger.
    - [gratia-pol] collects sensor events into a day and decides whether the day proves a
      life; [gratia-network] gossips and syncs blocks between peers it scores;
      [gratia-lux] stores, shows and moderates posts and charges for them.
    - [gratia-zk] proves the daily Proof of Life parameters in zero knowledge.

    ** Files

    - [Prelude]: results and early returns, machine integers, tactics, sums over finite
      maps, quorum intersection, transition systems.
    - [CoreTypes]: time, bytes and the configuration ([gratia-core/src/types.rs],
      [config.rs]).  [ThirdParty]: what the repository only calls, as classes.
    - [StakingPool] ([pool.rs]), [StakingSlashing] ([slashing.rs]), [StakingManager]
      ([gratia-staking/src/lib.rs]), [StakingSystem]: runs of the manager and their
      properties.  The pool promises the manager the interface [OverflowLedger].
    - [Emission]: [gratia-core/src/emission.rs] (Module [Emission]) and
      [gratia-staking/src/rewards.rs] (Module [Rewards]).
    - [GovProposals] ([proposals.rs]), [GovVoting] ([voting.rs]), [GovPolling]
      ([polling.rs]), [Governance] ([gratia-governance/src/lib.rs]) and
      [GovernanceSystem]: runs and properties.
    - [Crypto] ([gratia-core/src/crypto.rs], [error.rs]), [Vrf] ([vrf.rs]), [Committee]
      ([committee.rs]) and [CommitteeSelection]: its properties.
    - [Blocks] (the block types of [types.rs]), [BlockProduction]
      ([block_production.rs]), [Engine] ([gratia-consensus/src/lib.rs]) and
      [EngineSafety]: runs and properties.
    - [Streamlet] ([streamlet.rs]) and [StreamletSafety]: runs and properties.
    - [Ieee]: the binary32 and binary64 operations the interpreter uses.  [Gas]
      ([gas.rs]), [Sandbox] ([sandbox.rs]), [HostFunctions] ([host_functions.rs]),
      [WasmModule] and [WasmParse] (the module format and the parser of
      [interpreter.rs]), [Interp] (its execution loop), [InterpSafety],
      [InterpTermination] and [InterpPrivacy] (lemmas by aspect), [VmRuntime]
      ([runtime.rs]), [Vm] ([gratia-vm/src/lib.rs]) and [VmTheorems].
    - [Merkle] ([merkle.rs]), [StateStore] (the trait [StateStore] as a class with its
      specification, and [InMemoryStore], of [db.rs]), [StateDb] (its typed accessors),
      [Pruning] and [PruningManager] ([pruning.rs]), [Ledger] ([gratia-state/src/lib.rs]),
      [LedgerAccounts] (accounts as a finite map), [LedgerTheorems] and [LedgerSamples].
      The ledger is proved against the class [StoreSpec]; the in-memory store discharges it.
    - [Mempool] ([mempool.rs]), [Validation] ([validation.rs]), [BodyBinding]: what header
      and signatures say about the body of a block.
    - [PolTypes] (the Proof of Life records of [types.rs]), [PolZk]
      ([gratia-zk/src/bulletproofs.rs]).
    - [Keystore] ([keystore.rs]; the trait as a class, its two implementations as the
      Modules [Software] and [File]), [Recovery] ([recovery.rs]), [Nfc] ([nfc.rs]),
      [Wallet] ([transactions.rs], [gratia-wallet/src/lib.rs]), [WalletTheorems] and
      [WalletSamples].
    - [ChainSync] ([gratia-consensus/src/sync.rs]) and [NetSync]
      ([gratia-network/src/sync.rs]): answering and asking for missing blocks.
    - [Sharding] ([sharding.rs]) and [ShardedConsensus] ([sharded_consensus.rs]).
    - [PolCollector] ([gratia-pol/src/collector.rs], Module [Collector], and
      [validator.rs], Module [Validator]), [PolTrust] ([scoring.rs] and the trust levels)
      and [PolManager] ([gratia-pol/src/lib.rs]).
    - [LuxStore] ([gratia-lux/src/store.rs], [types.rs]), [LuxFeed] ([feed.rs] and the
      store's queries), [LuxModeration] ([moderation.rs]) and [LuxFees] ([fees.rs]).
    - [Reputation] ([gratia-network/src/reputation.rs]) and [Gossip] ([gossip.rs] and the
      admission of gossip messages in the event loop).
    - GratiaScript ([gratiascript/src/]): [GsSyntax] ([token.rs], [ast.rs], [error.rs]),
      [GsLexer] ([lexer.rs]), [GsParser] ([parser.rs]), [GsTypes] ([typechecker.rs]),
      [GsCodegen] ([codegen.rs]) and [GsFrontend] ([lib.rs], and that the compiler is
      total).  [GsScope]: the code generator follows the checker.  [GsModule] and
      [GsLoad]: the parser of [gratia-vm] reads the generated module.  [GsRun]: its
      interpreter runs the generated code.  [GsSamples]: concrete contracts.

    A struct is a [Record] with the source's fields (prefixed where two structs share a
    name), an enum an [Inductive] with the source's variants, a method a function that
    returns the new state, also on error paths, since an early return does not undo
    earlier mutations.  A loop body that a proof needs to name is a definition of its
    own.  [HashMap] is [gmap]; code that iterates over one folds over [map_to_list], and
    [advance_all_order_independent] shows that the order does not matter where the
    program does so.  [Utc::now()] is an argument.

    ** Integers, bounds and fuel

    Integers are [Z] with their width written out: the release profile has no overflow
    checks, so [+], [-] and [*] are [wadd], [wsub], [wmul]; [checked_], [saturating_] and
    [as] forms are the functions of that name.  Theorems state the ranges they need.
    Few loops are not structural.  [merkle_root] and [build_loop] pass over a level at
    most as many times as there are hashes ([merkle_root_total] and the Merkle theorems);
    [check_finality] scans exactly the heights of the source's range, so its counter is no
    fuel.  The interpreter has fuel; [interpreter_terminates] shows that gas bounds it, so
    fuel derived from the gas limit always suffices, and [contract_calls_return] states the
    result for whole calls.  The request
    loop of [NetSync] has fuel 4, one more than the number of requests the source allows in
    flight; the [search] of [partition_point] has the length of the list as fuel, since
    every step halves the interval; cutting a byte string into chunks has its length.
    The lexer has one more unit of fuel than characters are left and the parser as much as
    there are tokens; [compiler_answers] shows that neither runs out.  A LEB128 encoder has
    one round per seven bits of its integer, 5 or 10.  Everything else recurses on its data.  Panics
    (division by zero, index out of bounds) are [None] or an error value of their own.

    ** What the theorems show

    - Staking: an accounting invariant over all runs, solvency (what was released plus
      what is owed never exceeds what was staked), refinement of a ledger of accounts that
      fixes the answer, the releases and the commitment after every operation, the
      canonical split of stake and overflow, the cap, the cooldown round trip, slashing
      and escalation, permanence of a ban, and that a full unstake is never released.
    - Pool and rewards: conservation and exact shares of a yield round; all block
      rewards stay within the mining supply; the reward loop equals its closed form.
    - Governance: an invariant over all runs, and that a call panics exactly when it
      computes a date that [chrono] cannot hold; one phone one vote with exact tallies, the
      timed lifecycle of a proposal as a relation that every call refines,
      termination of proposals, executed proposals won their vote, emergency
      supermajority and deadline, poll audits, independence of map order.
    - Consensus: completeness of the VRF, agreement on and optimality of the committee,
      quorum intersection for every network size, rotation of producers, certification
      of finalized blocks by the committee in force when each signature came in, checks of
      accepted blocks, convergence of the fork choice; for Streamlet, a block is notarized
      exactly with the votes of two thirds of the names (nobody checks who they are),
      conflicting quorums intersect, at most one block is notarized per epoch, and the
      finality rule is exact and monotone.
    - Contracts: the parser is total and yields well-formed modules or an error, the
      interpreter keeps memory, tables and globals well formed, terminates within its gas,
      and shows a contract only the data its permissions grant; a call returns a result
      whose gas, events and storage writes are accounted for.
    - Ledger: a block burns exactly its fees and creates no value, reverting it restores
      the accounts, an applied transaction cannot be applied again, pruning keeps
      accounts and recent blocks; a Merkle proof verifies exactly for leaves of the tree
      unless SHA-256 collides.
    - Mempool, validation and wallet: the mempool is bounded, authentic, free of
      duplicates and first-in first-out; [validate_block] decides its specification; a
      payment of the wallet settles on the ledger as the wallet accounted for it; a frozen
      wallet signs nothing; keys survive restarts and failed saves, the temporary file
      included; seed words restore the key; a recovery
      claim is verified only after seven days of matching behaviour.
    - Sync and sharding: a node that asks its peer reaches the peer's tip, ranges asked
      for in parallel are disjoint, a shard's committee finalizes only with honest members
      present, a cross-shard receipt verifies exactly when the source block contains it.
    - Proof of Life: the daily collector keeps exactly what the sensors reported, the days
      of a phone farm are invalid, the manager's eligibility refines the count of valid
      days, and the manager never attaches a proof.
    - Lux and network: a moderation verdict follows the votes of the jury; a post is
      stored without its signature being checked; the rate limiter counts exactly the
      events of its window; in any history of gossip messages a ban is served, as
      long as the peer was active in the last day; an admitted announcement or validator
      signature is signed by the node it names, and a node named in a forged block inherits
      the ban of the sender.
    - GratiaScript: the compiler answers every text with a module or an error; a contract
      the checker accepts compiles; the VM parses a compiled module back into the functions,
      globals, exports and strings of the contract; a compiled function that returns an
      integer or boolean expression computes the value the source semantics gives it.
      Outside that fragment the generator miscompiles: a call between functions of a
      contract runs the first one, whatever its name (for every contract, in [GsRun]); and
      on small contracts in [GsSamples], a local that shadows a field is
      the field, i64 arithmetic traps, [&&] is bitwise, emitting a value shifts the
      arguments of the event, a negative initializer is zero.
    - Some theorems document behaviour the source's comments deny: a valid VRF proof
      disqualifies its node, finality ignores parent links, a full unstake is lost, header
      and signatures do not bind the body of a block, a range proof does not bind the
      thresholds it was made for, a long poll panics, a committee change while a block is
      pending mixes the signatures of two committees, and an inherited ban can be evicted
      before its end.

    ** Not modelled

    Third-party code (SHA-2, Ed25519, Ristretto, bulletproofs, AES-GCM, BIP39, bincode,
    JSON, hex, libm, the range of chrono's dates) is a parameter; its laws are hypotheses
    with concrete instances that satisfy them.  Wasmer, RocksDB and libp2p are not modelled, nor is the native stack, of
    the interpreter on nested blocks or of the recursive-descent parser of GratiaScript on
    nested expressions, nor the payload of NaNs.  Log output and file formats of
    whole-database dumps are not modelled.  Outside governance, additions of dates that
    leave chrono's range are not modelled.

    ** Plan

    Left: the sensor clustering, anomaly and TEE checks of [gratia-pol], the mesh and the
    transport of [gratia-network], the Groth16 circuits of [gratia-zk]; the FFI and mobile
    bindings are glue around what is modelled. *)

From stdpp Require Import base gmap strings list fin_maps pretty sorting.
From Stdlib Require Import ZArith Lia Permutation.

Declare Scope gratia_scope.
Delimit Scope gratia_scope with gratia.
Global Open Scope Z_scope.

(** ** Results and early returns

    A Rust method [fn op(&mut self, ..) -> Result<A, E>] becomes a function that
    returns the new state together with a [result]: an error does not undo the
    mutations made before it, so the state is returned on both paths. *)

Inductive result (E A : Type) : Type :=
| Ok (a : A)
| Err (e : E).
Arguments Ok {E A} a.
Arguments Err {E A} e.

Definition is_ok {E A} (r : result E A) : bool :=
  match r with Ok _ => true | Err _ => false end.

(** [ok_or]: an [Option] turned into a [Result]. *)
Definition ok_or {E A} (o : option A) (e : E) : result E A :=
  match o with Some a => Ok a | None => Err e end.

(** The [?] operator at a program point whose current state is [s]. *)
Notation "'let?' x := r 'at' s 'in' k" :=
  (match r with Ok x => k | Err e => (s, Err e) end)
  (at level 10, x name, r at level 100, s at level 100, k at level 200) : gratia_scope.

(** The [?] operator in a function without state. *)
Notation "'let??' x := r 'in' k" :=
  (match r with Ok x => k | Err e => Err e end)
  (at level 10, x name, r at level 100, k at level 200) : gratia_scope.

Global Open Scope gratia_scope.

(** ** Machine integers

    A [w]-bit unsigned integer is a [Z] in [0 .. 2^w - 1].  The plain operators
    of the release profile wrap; the [checked_], [saturating_] and [as] forms
    are the functions of the same name of the standard library. *)

Definition in_range (w x : Z) : Prop := 0 <= x < 2 ^ w.

#[export] Instance in_range_dec w x : Decision (in_range w x).
Proof. unfold in_range. apply _. Defined.

Definition max_val (w : Z) : Z := 2 ^ w - 1.
Definition wrap (w x : Z) : Z := x mod 2 ^ w.
Definition wadd (w a b : Z) : Z := wrap w (a + b).
Definition wsub (w a b : Z) : Z := wrap w (a - b).
Definition wmul (w a b : Z) : Z := wrap w (a * b).
Definition checked_add (w a b : Z) : option Z :=
  if decide (a + b < 2 ^ w) then Some (a + b) else None.
Definition checked_mul (w a b : Z) : option Z :=
  if decide (a * b < 2 ^ w) then Some (a * b) else None.
Definition saturating_add (w a b : Z) : Z := Z.min (a + b) (max_val w).
Definition saturating_mul (w a b : Z) : Z := Z.min (a * b) (max_val w).
Definition saturating_sub (a b : Z) : Z := Z.max 0 (a - b).

(** [x as i64] of a [u64]. *)
Definition as_i64 (x : Z) : Z :=
  let y := x mod 2 ^ 64 in if decide (y < 2 ^ 63) then y else y - 2 ^ 64.

Abbreviation u64 := (in_range 64) (only parsing).
Abbreviation u32 := (in_range 32) (only parsing).

Lemma wrap_small w x : in_range w x -> wrap w x = x.
Proof. apply Z.mod_small. Qed.

Lemma wadd_small w a b : in_range w (a + b) -> wadd w a b = a + b.
Proof. apply wrap_small. Qed.

Lemma wsub_small w a b : 0 <= b <= a -> in_range w a -> wsub w a b = a - b.
Proof. unfold in_range. intros. apply wrap_small. unfold in_range. lia. Qed.

Lemma wrap_range w x : 0 <= w -> in_range w (wrap w x).
Proof. intros. apply Z.mod_pos_bound. lia. Qed.

Lemma wadd_wrap w x y : wadd w (wrap w x) y = wrap w (x + y).
Proof. unfold wadd, wrap. by rewrite Zplus_mod_idemp_l. Qed.

Lemma saturating_sub_le a b : 0 <= b -> 0 <= a -> 0 <= saturating_sub a b <= a.
Proof. unfold saturating_sub. lia. Qed.

(** ** Proof automation *)

Create HintDb gratia.

(** [destruct_ops]: split every [if] and [match] of a hypothesis that equates the
    body of an operation with a pair of a state and a result. *)
Ltac destruct_ops :=
  repeat match goal with
  | H : context [ match ?x with _ => _ end ] |- _ =>
      lazymatch type of H with
      | _ = _ => destruct x eqn:?; try discriminate H; simplify_eq/=
      end
  end.

(** [destruct_goal]: the same for the goal. *)
Ltac destruct_goal :=
  repeat match goal with
  | |- context [ match ?x with _ => _ end ] => destruct x eqn:?; simplify_eq/=
  end.

Ltac unfold_ints :=
  unfold in_range, saturating_sub, saturating_add, saturating_mul, max_val in *.

(** Evaluate a decidable proposition. *)
Ltac decide_now :=
  match goal with |- ?P => refine (bool_decide_eq_true_1 P _) end; vm_compute; reflexivity.

(** Linear arithmetic with the integer operations unfolded. *)
Ltac ulia := unfold_ints; lia.

(** ** Lists *)

Lemma list_alter_insert {A} (f : A -> A) (l : list A) i x :
  l !! i = Some x -> alter f i l = <[i := f x]> l.
Proof.
  revert i. induction l as [|y l IH]; intros [|i] H; simplify_eq/=; [done..|].
  f_equal. by apply IH.
Qed.

Lemma sorted_impl {A} (R R' : A -> A -> Prop) (l : list A) :
  (forall a b, R a b -> R' a b) -> StronglySorted R l -> StronglySorted R' l.
Proof.
  intros HR. induction 1 as [|x l _ IH Hx]; constructor; [done|].
  eapply Forall_impl; [exact Hx|]. eauto.
Qed.

(** [slice::sort_by], a stable sort; [le a b] is [cmp(a, b) != Greater]. *)

Section sort_by.
Context {A : Type} (le : A -> A -> bool).

Fixpoint insert_by (x : A) (l : list A) : list A :=
  match l with
  | [] => [x]
  | y :: l => if le x y then x :: y :: l else y :: insert_by x l
  end.

Definition sort_by (l : list A) : list A := foldr insert_by [] l.

Lemma insert_by_perm x l : insert_by x l ≡ₚ x :: l.
Proof. induction l as [|y l IH]; [done|]. cbn. destruct (le x y); [done|]. rewrite IH. apply Permutation_swap. Qed.

Lemma sort_by_perm l : sort_by l ≡ₚ l.
Proof. induction l as [|x l IH]; [done|]. cbn. by rewrite insert_by_perm, IH. Qed.

Lemma elem_of_sort_by x l : x ∈ sort_by l <-> x ∈ l.
Proof. by rewrite sort_by_perm. Qed.

Context (Htrans : forall a b c, le a b = true -> le b c = true -> le a c = true)
        (Htotal : forall a b, le a b = true \/ le b a = true).

Lemma insert_by_sorted x l : StronglySorted le l -> StronglySorted le (insert_by x l).
Proof using Htrans Htotal.
  induction 1 as [|y l Hs IH Hy]; [repeat constructor|]. cbn. rewrite Forall_forall in Hy.
  destruct (le x y) eqn:E; (constructor; [|apply Forall_forall; intros z Hz]).
  - constructor; [done|by apply Forall_forall].
  - apply elem_of_cons in Hz as [->|Hz]; [by rewrite E|]. specialize (Hy z Hz).
    apply Is_true_true in Hy. apply Is_true_true. eauto.
  - done.
  - rewrite insert_by_perm in Hz. apply elem_of_cons in Hz as [->|Hz]; [|by apply Hy].
    apply Is_true_true. destruct (Htotal x y) as [H|H]; [congruence|done].
Qed.

Lemma sort_by_sorted l : StronglySorted le (sort_by l).
Proof using Htrans Htotal. induction l as [|x l IH]; [constructor|by apply insert_by_sorted]. Qed.
End sort_by.

(** [slice::partition_point]: the binary search of the standard library over [l], the
    window being [base .. base + size].  Each round halves the window, so [length l]
    rounds are enough. *)

Section partition_point.
Context {A : Type} (pred : A -> bool) (l : list A).

Definition pred_at (i : nat) : bool := match l !! i with Some x => pred x | None => false end.

Fixpoint search (fuel base size : nat) : nat :=
  match fuel with
  | O => base
  | S fuel =>
      if decide (size <= 1)%nat then base
      else let half := Nat.div2 size in
           search fuel (if pred_at (base + half) then base + half else base)%nat (size - half)
  end.

Definition partition_point : nat :=
  match l with
  | [] => 0
  | _ => let base := search (length l) 0 (length l) in if pred_at base then S base else base
  end.

Lemma pred_at_app l1 l2 i :
  l = l1 ++ l2 -> Forall pred l1 -> Forall (fun x => negb (pred x)) l2 ->
  (i < length l)%nat -> pred_at i = bool_decide (i < length l1)%nat.
Proof.
  intros Hl H1 H2 Hi. unfold pred_at. rewrite Hl. rewrite Hl, length_app in Hi.
  destruct (decide (i < length l1)%nat) as [Hlt|Hge].
  - rewrite lookup_app_l, bool_decide_true by done.
    destruct (lookup_lt_is_Some_2 l1 i Hlt) as [x Hx]. rewrite Hx.
    rewrite Forall_lookup in H1. by apply Is_true_true, (H1 i).
  - rewrite lookup_app_r, bool_decide_false by lia.
    destruct (lookup_lt_is_Some_2 l2 (i - length l1)) as [x Hx]; [lia|]. rewrite Hx.
    rewrite Forall_lookup in H2. specialize (H2 _ _ Hx). by apply negb_True, Is_true_false in H2.
Qed.

Lemma search_spec l1 l2 fuel base size :
  l = l1 ++ l2 -> Forall pred l1 -> Forall (fun x => negb (pred x)) l2 ->
  (size <= fuel)%nat -> (1 <= size)%nat -> (base + size <= length l)%nat ->
  (base = 0 \/ base < length l1)%nat -> (length l1 <= base + size)%nat ->
  let b := search fuel base size in
  (b < length l)%nat /\ (b = 0 \/ b < length l1)%nat /\ (length l1 <= b + 1)%nat.
Proof.
  intros Hl H1 H2. revert base size. induction fuel as [|fuel IH]; intros base size Hf Hs Hb H0 Hle;
    [lia|]. cbn [search]. case_decide as Hsz; [cbn; lia|].
  assert (1 <= Nat.div2 size /\ 2 * Nat.div2 size <= size)%nat as Hd.
  { rewrite Nat.div2_div. pose proof (Nat.div_mod_eq size 2). pose proof (Nat.mod_upper_bound size 2). lia. }
  rewrite (pred_at_app l1 l2) by (done || lia).
  destruct (bool_decide (base + Nat.div2 size < length l1)%nat) eqn:E;
    [apply bool_decide_eq_true in E|apply bool_decide_eq_false in E]; apply IH; lia.
Qed.

(** On a partitioned slice the result is the length of its first part. *)
Lemma partition_point_eq l1 l2 :
  l = l1 ++ l2 -> Forall pred l1 -> Forall (fun x => negb (pred x)) l2 ->
  partition_point = length l1.
Proof.
  intros Hl H1 H2. unfold partition_point. destruct l as [|x l'] eqn:El.
  - by symmetry in Hl; apply app_nil in Hl as [-> ->].
  - rewrite <-El in *. assert (1 <= length l)%nat by (rewrite El; cbn; lia).
    destruct (search_spec l1 l2 (length l) 0 (length l)) as (Hb & H0 & Hle); try done; try lia.
    { rewrite Hl, length_app. lia. }
    cbn zeta. rewrite (pred_at_app l1 l2) by done. case_bool_decide; lia.
Qed.
End partition_point.

(** ** Sums over finite maps *)

Section map_sum.
Context {K V : Type} `{Countable K}.

Definition map_sum (f : V -> Z) (m : gmap K V) : Z :=
  map_fold (fun _ v acc => f v + acc) 0 m.

Lemma map_sum_empty f : map_sum f ∅ = 0.
Proof. apply map_fold_empty. Qed.

Lemma map_sum_insert_None f m i x :
  m !! i = None -> map_sum f (<[i := x]> m) = f x + map_sum f m.
Proof.
  intros. unfold map_sum.
  apply (map_fold_insert_L (fun _ v acc => f v + acc) 0 i x); [|done]. intros. lia.
Qed.

Lemma map_sum_delete_Some f m i x :
  m !! i = Some x -> map_sum f m = f x + map_sum f (delete i m).
Proof.
  intros. unfold map_sum.
  apply (map_fold_delete_L (fun _ v acc => f v + acc) 0 i x); [|done].
  intros. lia.
Qed.

Lemma map_sum_delete f m i :
  map_sum f (delete i m) = map_sum f m - from_option f 0 (m !! i).
Proof.
  destruct (m !! i) as [x|] eqn:E; simpl.
  - rewrite (map_sum_delete_Some f m i x E). lia.
  - rewrite delete_id by done. lia.
Qed.

Lemma map_sum_insert f m i x :
  map_sum f (<[i := x]> m) = f x + map_sum f m - from_option f 0 (m !! i).
Proof.
  rewrite <-insert_delete_eq, map_sum_insert_None by apply lookup_delete_eq.
  rewrite map_sum_delete. lia.
Qed.

Lemma map_sum_nonneg f m :
  (forall i x, m !! i = Some x -> 0 <= f x) -> 0 <= map_sum f m.
Proof.
  induction m as [|i x m Hi IH] using map_ind; intros Hf.
  - rewrite map_sum_empty. lia.
  - rewrite map_sum_insert_None by done.
    pose proof (Hf i x ltac:(by rewrite lookup_insert_eq)).
    assert (0 <= map_sum f m); [|lia].
    apply IH. intros j y Hj. apply (Hf j y).
    rewrite lookup_insert_ne; [done|]. intros ->. congruence.
Qed.

Lemma map_sum_lookup_le f m i x :
  (forall i x, m !! i = Some x -> 0 <= f x) -> m !! i = Some x -> f x <= map_sum f m.
Proof.
  intros Hf Hi. rewrite (map_sum_delete_Some f m i x Hi).
  assert (0 <= map_sum f (delete i m)); [|lia].
  apply map_sum_nonneg. intros j y Hj. apply lookup_delete_Some in Hj as [_ Hj]. eauto.
Qed.

(** The sum over a duplicate-free list of keys is at most the whole sum. *)
Lemma map_sum_list_le f m (l : list K) :
  (forall i x, m !! i = Some x -> 0 <= f x) -> NoDup l ->
  foldr (fun k acc => from_option f 0 (m !! k) + acc) 0 l <= map_sum f m.
Proof.
  revert m. induction l as [|k l IH]; intros m Hf Hl; simpl.
  - by apply map_sum_nonneg.
  - apply NoDup_cons in Hl as [Hk Hl].
    replace (map_sum f m) with (from_option f 0 (m !! k) + map_sum f (delete k m))
      by (rewrite map_sum_delete; lia).
    assert (foldr (fun k acc => from_option f 0 (m !! k) + acc) 0 l
            = foldr (fun k' acc => from_option f 0 (delete k m !! k') + acc) 0 l) as ->.
    { clear IH. induction l as [|k' l IH']; simpl; [done|].
      apply NoDup_cons in Hl as [? ?].
      rewrite not_elem_of_cons in Hk. destruct Hk.
      rewrite IH' by done. by rewrite lookup_delete_ne. }
    assert (foldr (fun k' acc => from_option f 0 (delete k m !! k') + acc) 0 l
            <= map_sum f (delete k m)); [|lia].
    apply IH; [|done]. intros j y Hj. apply lookup_delete_Some in Hj as [_ Hj]. eauto.
Qed.
End map_sum.

(** ** Quorums *)

Section quorums.
Context {K : Type} `{Countable K}.

Lemma size_union_inter (X Y : gset K) :
  (size (X ∪ Y) + size (X ∩ Y) = size X + size Y)%nat.
Proof.
  assert (X ∩ Y = Y ∩ X) as -> by set_solver.
  pose proof (size_union_alt X Y). pose proof (size_difference_alt Y X).
  pose proof (subseteq_size (Y ∩ X) Y (intersection_subseteq_l Y X)). lia.
Qed.

(** Two subsets of at least [t] of at most [n] elements share at least [2t - n]. *)
Lemma quorums_intersect (U X Y : gset K) n t :
  Z.of_nat (size U) <= n -> X ⊆ U -> Y ⊆ U ->
  t <= Z.of_nat (size X) -> t <= Z.of_nat (size Y) ->
  2 * t - n <= Z.of_nat (size (X ∩ Y)).
Proof.
  intros Hn Hx Hy Htx Hty. pose proof (size_union_inter X Y).
  pose proof (subseteq_size (X ∪ Y) U (union_least X Y U Hx Hy)). lia.
Qed.
End quorums.

(** ** Transition systems

    A component is an initial-state predicate and a step relation; [StepInvariant]
    states that a predicate is inductive, and [reachable_invariant] lifts it to
    every reachable state. *)

Section transition_system.
Context {S : Type} (init : S -> Prop) (step : S -> S -> Prop).

Inductive reachable : S -> Prop :=
| reachable_init s : init s -> reachable s
| reachable_step s s' : reachable s -> step s s' -> reachable s'.

Class StepInvariant (I : S -> Prop) : Prop := {
  inv_init : forall s, init s -> I s;
  inv_step : forall s s', I s -> step s s' -> I s'
}.

Lemma reachable_invariant I `{!StepInvariant I} s : reachable s -> I s.
Proof. induction 1; [by apply inv_init|by eapply inv_step]. Qed.
End transition_system.
