(* ===== verification/CoreTypes.v ===== *)
(** * gratia-core: types and configuration

    The data of [crates/gratia-core/src/types.rs] and
    [crates/gratia-core/src/config.rs] that the modelled components exchange.

    - A byte array ([NodeId], [BlockHash], [Vec<u8>], ...) is a list of [Z].
    - A [chrono::DateTime<Utc>] is a [Z]: nanoseconds since the Unix epoch; a
      [chrono::Duration] is a [Z] in nanoseconds.  [num_seconds] truncates toward
      zero and [timestamp_millis] rounds down, as chrono does.  Dates outside
      chrono's range (about 262,000 years) are not modelled. *)

From stdpp Require Import base gmap strings list fin_maps pretty.
From Stdlib Require Import ZArith Lia.
From S2P Require Import Prelude.
Local Open Scope Z_scope.

Abbreviation bytes := (list Z) (only parsing).
Abbreviation NodeId := (list Z) (only parsing).
Abbreviation Address := (list Z) (only parsing).
Abbreviation Hash := (list Z) (only parsing).
Abbreviation Lux := Z (only parsing).
Abbreviation DateTime := Z (only parsing).
Abbreviation Duration := Z (only parsing).

(** ** Time *)

Definition NANOS : Z := 1000000000.
Definition duration_seconds (s : Z) : Duration := s * NANOS.
Definition num_seconds (d : Duration) : Z := Z.quot d NANOS.
Definition num_hours (d : Duration) : Z := Z.quot d (3600 * NANOS).
Definition timestamp (t : DateTime) : Z := t / NANOS.
Definition timestamp_millis (t : DateTime) : Z := t / 1000000.

(** [(now - since).num_seconds().max(0) as u64] *)
Definition elapsed_secs (now since : DateTime) : Z := Z.max 0 (num_seconds (now - since)).

Lemma elapsed_secs_nonneg now since : 0 <= elapsed_secs now since.
Proof. unfold elapsed_secs. lia. Qed.

Lemma elapsed_secs_plus since s :
  0 <= s -> elapsed_secs (since + duration_seconds s) since = s.
Proof.
  intros Hs. unfold elapsed_secs, num_seconds, duration_seconds, NANOS.
  replace (since + s * 1000000000 - since) with (s * 1000000000) by lia.
  rewrite Z.quot_mul by lia. lia.
Qed.

(** Elapsed seconds grow with the clock. *)
Lemma elapsed_secs_mono now now' since :
  now <= now' -> elapsed_secs now since <= elapsed_secs now' since.
Proof.
  intros H. unfold elapsed_secs, num_seconds, NANOS.
  pose proof (Z.quot_le_mono (now - since) (now' - since) 1000000000). lia.
Qed.

Lemma elapsed_secs_ge now since s :
  0 < s -> s <= elapsed_secs now since <-> since + duration_seconds s <= now.
Proof.
  intros Hs. unfold elapsed_secs, num_seconds, duration_seconds, NANOS. split; intros H.
  - assert (0 <= now - since).
    { destruct (decide (0 <= now - since)); [done|].
      pose proof (Z.quot_le_mono (now - since) 0 1000000000). 
      rewrite Z.quot_0_l in * by lia. lia. }
    rewrite Z.quot_div_nonneg in H by lia.
    pose proof (Z.mul_div_le (now - since) 1000000000). nia.
  - rewrite Z.quot_div_nonneg by lia.
    assert (s <= (now - since) / 1000000000); [|lia].
    apply Z.div_le_lower_bound; lia.
Qed.

(** ** Bytes *)

(** A byte-string literal [b"..."]. *)
Definition str_bytes (s : string) : bytes :=
  map (fun a => Z.of_N (Ascii.N_of_ascii a)) (String.list_ascii_of_string s).

(** [to_le_bytes] of an [n]-byte integer. *)
Fixpoint le_bytes (n : nat) (x : Z) : bytes :=
  match n with
  | O => []
  | S n => x mod 256 :: le_bytes n (x / 256)
  end.

(** [from_le_bytes] of an unsigned integer. *)
Fixpoint of_le_bytes (l : bytes) : Z :=
  match l with
  | [] => 0
  | b :: l => b + 256 * of_le_bytes l
  end.

Definition byte_ok (b : Z) : Prop := 0 <= b < 256.

#[export] Instance byte_ok_dec b : Decision (byte_ok b).
Proof. unfold byte_ok. apply _. Defined.

Lemma of_le_bytes_range l :
  Forall byte_ok l -> 0 <= of_le_bytes l < 256 ^ Z.of_nat (length l).
Proof.
  unfold byte_ok. induction 1 as [|b l Hb _ IH]; cbn [of_le_bytes length]; [lia|].
  rewrite Nat2Z.inj_succ, Z.pow_succ_r by lia. lia.
Qed.

Lemma le_bytes_ok n x : Forall byte_ok (le_bytes n x).
Proof.
  revert x. induction n as [|n IH]; intros x; simpl; constructor; [|apply IH].
  unfold byte_ok. apply Z.mod_pos_bound. lia.
Qed.

Lemma le_bytes_length n x : length (le_bytes n x) = n.
Proof. revert x. induction n as [|n IH]; intros x; simpl; [done|]. by rewrite IH. Qed.

Lemma of_le_bytes_le_bytes n x : of_le_bytes (le_bytes n x) = x mod 256 ^ Z.of_nat n.
Proof.
  revert x. induction n as [|n IH]; intros x; cbn [le_bytes of_le_bytes].
  - by rewrite Z.mod_1_r.
  - rewrite IH, Nat2Z.inj_succ, Z.pow_succ_r by lia. rewrite Z.rem_mul_r by lia. done.
Qed.

Lemma le_bytes_of_le_bytes l : Forall byte_ok l -> le_bytes (length l) (of_le_bytes l) = l.
Proof.
  unfold byte_ok. induction 1 as [|b l Hb _ IH]; cbn [of_le_bytes length le_bytes]; [done|].
  rewrite (Z.mul_comm 256), Z.mod_add, Z.div_add by lia.
  rewrite (Z.mod_small b), (Z.div_small b) by lia. by rewrite Z.add_0_l, IH.
Qed.

(** ** Token units and configuration *)

Definition LUX_PER_GRAT : Lux := 1000000.

Record StakingConfig := mkStakingConfig {
  minimum_stake : Lux;
  activated_minimum_stake : Lux;
  staking_activation_threshold : Z;
  staking_activation_grace_secs : Z;
  per_node_cap : Lux;
  unstake_cooldown_secs : Z;
  slash_rate_bps : Z
}.

Definition default_StakingConfig : StakingConfig := {|
  minimum_stake := 0;
  activated_minimum_stake := 50 * LUX_PER_GRAT;
  staking_activation_threshold := 1000;
  staking_activation_grace_secs := 7 * 24 * 3600;
  per_node_cap := 1000 * LUX_PER_GRAT;
  unstake_cooldown_secs := 7 * 24 * 3600;
  slash_rate_bps := 1000
|}.

Record GovernanceConfig := mkGovernanceConfig {
  min_proposer_history_days : Z;
  discussion_period_secs : Z;
  voting_period_secs : Z;
  implementation_delay_secs : Z;
  passage_threshold_bps : Z;
  quorum_bps : Z;
  emergency_threshold_bps : Z;
  emergency_ratification_secs : Z;
  poll_creation_fee : Lux
}.

Definition default_GovernanceConfig : GovernanceConfig := {|
  min_proposer_history_days := 90;
  discussion_period_secs := 14 * 24 * 3600;
  voting_period_secs := 7 * 24 * 3600;
  implementation_delay_secs := 30 * 24 * 3600;
  passage_threshold_bps := 5100;
  quorum_bps := 2000;
  emergency_threshold_bps := 7500;
  emergency_ratification_secs := 90 * 24 * 3600;
  poll_creation_fee := 10 * LUX_PER_GRAT
|}.

Record RewardsConfig := mkRewardsConfig {
  block_reward : Lux;
  annual_reduction_bps : Z;
  geographic_bonus_max_bps : Z;
  zero_fee_nfc_threshold : Lux
}.

Definition default_RewardsConfig : RewardsConfig := {|
  block_reward := 50 * LUX_PER_GRAT;
  annual_reduction_bps := 2500;
  geographic_bonus_max_bps := 15000;
  zero_fee_nfc_threshold := 10 * LUX_PER_GRAT
|}.

(** ** Staking data *)

Record StakeInfo := mkStakeInfo {
  si_node_stake : Lux;
  si_overflow_amount : Lux;
  si_total_committed : Lux;
  si_staked_at : DateTime;
  si_meets_minimum : bool
}.
