(* ===== verification/StakingPool.v ===== *)
(** * gratia-staking: errors and the Network Security Pool

    [crates/gratia-staking/src/error.rs] and [pool.rs].  The pool keeps the stake
    that overflows the per-node cap, and distributes yield.  The pool's own
    invariant [pool_wf] says that the running total equals the sum of the
    contributions and that no drained entry is kept; every operation preserves it. *)

From stdpp Require Import base gmap strings list fin_maps.
From Stdlib Require Import ZArith Lia.
From S2P Require Import Prelude CoreTypes.
Local Open Scope Z_scope.

Inductive StakingError :=
| InsufficientStake (available required : Z)
| InsufficientOverflow (available requested : Z)
| InvalidAmount (reason : string)
| NodeNotFound (node_id : NodeId)
| CooldownActive (remaining_secs : Z)
| NodeBanned (node_id : NodeId)
| AlreadyStaked (node_id : NodeId)
| BelowMinimumStake (amount minimum : Z).

Record OverflowContribution := mkOverflowContribution {
  oc_amount : Lux;
  oc_contributed_at : DateTime;
  oc_last_updated : DateTime
}.

Record NetworkSecurityPool := mkPool {
  total_overflow : Lux;
  contributions : gmap NodeId OverflowContribution;
  accumulated_yield : Lux;
  last_distribution : option DateTime
}.

Record YieldShare := mkYieldShare {
  ys_node_id : NodeId;
  ys_overflow_yield : Lux;
  ys_miner_yield : Lux;
  ys_total_yield : Lux
}.

Module Pool.

Definition new : NetworkSecurityPool := {|
  total_overflow := 0;
  contributions := ∅;
  accumulated_yield := 0;
  last_distribution := None
|}.

Definition contributor_count (p : NetworkSecurityPool) : nat := size (contributions p).

Definition get_contribution (p : NetworkSecurityPool) (node_id : NodeId)
  : option OverflowContribution := contributions p !! node_id.

Definition add_overflow (p : NetworkSecurityPool) (node_id : NodeId) (amount : Lux)
    (now : DateTime) : NetworkSecurityPool * result StakingError unit :=
  if decide (amount = 0) then
    (p, Err (InvalidAmount "overflow amount must be greater than zero"))
  else
    let? total := ok_or (checked_add 64 (total_overflow p) amount)
                    (InvalidAmount "pool overflow would exceed u64 max") at p in
    let entry := default (mkOverflowContribution 0 now now) (contributions p !! node_id) in
    (* the entry is in the map, with its old amount, when the second addition fails *)
    let p1 := mkPool total (<[node_id := entry]> (contributions p))
                (accumulated_yield p) (last_distribution p) in
    let? amt := ok_or (checked_add 64 (oc_amount entry) amount)
                  (InvalidAmount "node overflow contribution would exceed u64 max") at p1 in
    (mkPool total (<[node_id := mkOverflowContribution amt (oc_contributed_at entry) now]>
                     (contributions p))
       (accumulated_yield p) (last_distribution p), Ok tt).

Definition remove_overflow (p : NetworkSecurityPool) (node_id : NodeId) (amount : Lux)
    (now : DateTime) : NetworkSecurityPool * result StakingError unit :=
  if decide (amount = 0) then
    (p, Err (InvalidAmount "removal amount must be greater than zero"))
  else
    let? entry := ok_or (contributions p !! node_id) (NodeNotFound node_id) at p in
    if decide (amount > oc_amount entry) then
      (p, Err (InsufficientOverflow (oc_amount entry) amount))
    else
      let amt := wsub 64 (oc_amount entry) amount in
      let contributions1 :=
        <[node_id := mkOverflowContribution amt (oc_contributed_at entry) now]>
          (contributions p) in
      let contributions2 :=
        if decide (amt = 0) then delete node_id contributions1 else contributions1 in
      (mkPool (wsub 64 (total_overflow p) amount) contributions2
         (accumulated_yield p) (last_distribution p), Ok tt).

Definition add_yield (p : NetworkSecurityPool) (amount : Lux) : NetworkSecurityPool :=
  mkPool (total_overflow p) (contributions p)
    (saturating_add 64 (accumulated_yield p) amount) (last_distribution p).

Definition calculate_yield_share (p : NetworkSecurityPool) (node_id : NodeId) : option Lux :=
  contribution ← contributions p !! node_id;
  if decide (total_overflow p = 0 \/ accumulated_yield p = 0) then Some 0
  else if decide (oc_amount contribution = 0) then Some 0
  else Some (match checked_mul 128 (oc_amount contribution) (accumulated_yield p) with
             | Some product => wrap 64 (product / total_overflow p)
             | None => 0
             end).

(** The proportional part of one miner's share. *)
Definition overflow_yield_of (p : NetworkSecurityPool) (contributor_portion : Lux)
    (miner : NodeId) : Lux :=
  if decide (total_overflow p > 0) then
    match contributions p !! miner with
    | Some c => wrap 64 (wmul 128 (oc_amount c) contributor_portion / total_overflow p)
    | None => 0
    end
  else 0.

(** One iteration of the distribution loop. *)
Definition yield_step (p : NetworkSecurityPool) (contributor_portion per_miner_yield : Lux)
    (acc : list YieldShare * Lux) (miner : NodeId) : list YieldShare * Lux :=
  let '(shares, total_distributed) := acc in
  let overflow_yield := overflow_yield_of p contributor_portion miner in
  let total := saturating_add 64 overflow_yield per_miner_yield in
  (shares ++ [mkYieldShare miner overflow_yield per_miner_yield total],
   saturating_add 64 total_distributed total).

Definition distribute_pool_yield (p : NetworkSecurityPool) (active_miners : list NodeId)
    (now : DateTime) : NetworkSecurityPool * list YieldShare :=
  if decide (accumulated_yield p = 0 \/ active_miners = []) then (p, [])
  else
    let yield_to_distribute := accumulated_yield p in
    let contributor_portion := yield_to_distribute / 2 in
    let miner_portion := wsub 64 yield_to_distribute contributor_portion in
    let per_miner_yield :=
      if decide (active_miners = []) then 0
      else miner_portion / Z.of_nat (length active_miners) in
    let '(shares, total_distributed) :=
      foldl (yield_step p contributor_portion per_miner_yield) ([], 0) active_miners in
    (mkPool (total_overflow p) (contributions p)
       (saturating_sub yield_to_distribute total_distributed) (Some now), shares).

(** ** The pool's invariant *)

Definition contribution_sum (p : NetworkSecurityPool) : Z :=
  map_sum oc_amount (contributions p).

Record pool_wf (p : NetworkSecurityPool) : Prop := {
  wf_total : total_overflow p = contribution_sum p;
  wf_total_range : u64 (total_overflow p);
  wf_yield_range : u64 (accumulated_yield p);
  wf_positive : forall i c, contributions p !! i = Some c -> 0 < oc_amount c
}.

(** The overflow a node has in the pool; zero without an entry. *)
Definition amount_of (p : NetworkSecurityPool) (node_id : NodeId) : Z :=
  from_option oc_amount 0 (contributions p !! node_id).

Lemma new_wf : pool_wf new.
Proof.
  constructor; [reflexivity|unfold in_range; simpl; lia..|].
  intros i c H. simpl in H. by rewrite lookup_empty in H.
Qed.

Lemma amount_of_bounds p i : pool_wf p -> 0 <= amount_of p i <= total_overflow p.
Proof.
  intros [Ht Hr _ Hpos]. unfold amount_of.
  destruct (contributions p !! i) as [c|] eqn:E; simpl; [|ulia].
  split; [specialize (Hpos _ _ E); lia|].
  rewrite Ht. apply (map_sum_lookup_le oc_amount _ i c); [|done].
  intros j y Hj. specialize (Hpos _ _ Hj). lia.
Qed.

(** ** add_overflow *)

(** Outcome of [add_overflow] on a well-formed pool: the only failure of a non-zero
    amount is the total leaving [u64]; the per-node addition cannot overflow. *)
Lemma add_overflow_spec p i amount now :
  pool_wf p -> 0 < amount ->
  add_overflow p i amount now =
    if decide (total_overflow p + amount < 2 ^ 64) then
      (mkPool (total_overflow p + amount)
         (<[i := mkOverflowContribution (amount_of p i + amount)
                   (from_option oc_contributed_at now (contributions p !! i)) now]>
            (contributions p)) (accumulated_yield p) (last_distribution p), Ok tt)
    else (p, Err (InvalidAmount "pool overflow would exceed u64 max")).
Proof.
  intros Hwf Ha. unfold add_overflow. rewrite decide_False by lia.
  unfold checked_add at 1. destruct (decide (total_overflow p + amount < 2 ^ 64)) as [Hlt|]; [|done].
  pose proof (amount_of_bounds p i Hwf) as Hb. unfold amount_of in Hb |- *.
  destruct (contributions p !! i) as [c|] eqn:E; simpl in *;
    unfold checked_add; rewrite decide_True by lia; simpl; reflexivity.
Qed.

Lemma add_overflow_wf p i amount now :
  pool_wf p -> 0 <= amount -> pool_wf (add_overflow p i amount now).1.
Proof.
  intros Hwf Ha. destruct (decide (amount = 0)) as [->|].
  { unfold add_overflow. by rewrite decide_True. }
  rewrite add_overflow_spec by (done || lia).
  destruct (decide _) as [Hlt|]; simpl; [|done].
  pose proof (amount_of_bounds p i Hwf). destruct Hwf as [Ht Hr Hy Hpos].
  constructor; simpl; [|ulia|done|].
  - unfold contribution_sum. simpl. rewrite map_sum_insert. simpl.
    unfold contribution_sum in Ht. unfold amount_of. lia.
  - intros j c Hj. apply lookup_insert_Some in Hj as [[<- <-]|[_ Hj]]; simpl; [lia|eauto].
Qed.

(** ** remove_overflow *)

Lemma remove_overflow_spec p i amount now :
  pool_wf p -> 0 < amount <= amount_of p i ->
  exists p', remove_overflow p i amount now = (p', Ok tt) /\
    total_overflow p' = total_overflow p - amount /\
    amount_of p' i = amount_of p i - amount /\
    (forall j, j <> i -> contributions p' !! j = contributions p !! j) /\
    (contributions p' !! i = None <-> amount = amount_of p i) /\
    accumulated_yield p' = accumulated_yield p /\ pool_wf p'.
Proof.
  intros Hwf Ha. pose proof (amount_of_bounds p i Hwf) as Hb.
  unfold remove_overflow. rewrite decide_False by lia.
  unfold amount_of in *. destruct (contributions p !! i) as [c|] eqn:E; simpl in *; [|lia].
  rewrite decide_False by lia. destruct Hwf as [Ht Hr Hy Hpos].
  rewrite !wsub_small by (ulia || lia).
  eexists. split; [reflexivity|]. simpl. unfold contribution_sum in Ht.
  destruct (decide (oc_amount c - amount = 0)) as [Hz|Hz]; simpl;
    rewrite ?lookup_delete_eq, ?lookup_insert_eq; simpl.
  - split_and!; try done; try lia.
    + intros j Hj. by rewrite lookup_delete_ne, lookup_insert_ne.
    + split; [lia|done].
    + constructor; simpl; [|ulia|done|].
      * unfold contribution_sum. simpl. rewrite map_sum_delete, map_sum_insert, lookup_insert_eq.
        simpl. rewrite E. simpl. lia.
      * intros j d Hj. apply lookup_delete_Some in Hj as [? Hj].
        rewrite lookup_insert_ne in Hj by done. eauto.
  - split_and!; try done; try lia.
    + intros j Hj. by rewrite lookup_insert_ne.
    + split; [done|lia].
    + constructor; simpl; [|ulia|done|].
      * unfold contribution_sum. simpl. rewrite map_sum_insert, E. simpl. lia.
      * intros j d Hj. apply lookup_insert_Some in Hj as [[<- <-]|[_ Hj]]; simpl; [lia|eauto].
Qed.

(** A failed removal leaves the pool untouched. *)
Lemma remove_overflow_err p i amount now e :
  (remove_overflow p i amount now).2 = Err e -> (remove_overflow p i amount now).1 = p.
Proof. unfold remove_overflow, ok_or. destruct_goal; naive_solver. Qed.

Lemma remove_overflow_wf p i amount now :
  pool_wf p -> 0 <= amount -> pool_wf (remove_overflow p i amount now).1.
Proof.
  intros Hwf Ha. destruct (decide (0 < amount <= amount_of p i)) as [Hok|Hno].
  - destruct (remove_overflow_spec p i amount now Hwf Hok) as (p' & -> & ?). naive_solver.
  - unfold remove_overflow, amount_of in *. destruct (decide (amount = 0)); [done|].
    destruct (contributions p !! i) as [c|]; simpl in *; [|done].
    rewrite decide_True by lia. done.
Qed.

(** ** What the pool promises its client

    [ledger_delta p p' i d]: [p'] is [p] with node [i]'s amount changed by [d] and
    nothing else of the ledger changed. *)
Definition ledger_delta (p p' : NetworkSecurityPool) (i : NodeId) (d : Z) : Prop :=
  pool_wf p' /\ amount_of p' i = amount_of p i + d /\
  (forall j, j <> i -> amount_of p' j = amount_of p j) /\
  total_overflow p' = total_overflow p + d /\ accumulated_yield p' = accumulated_yield p.

Lemma ledger_delta_refl p i : pool_wf p -> ledger_delta p p i 0.
Proof. intros. unfold ledger_delta. split_and!; try done; lia. Qed.

Lemma add_yield_wf p amount : pool_wf p -> 0 <= amount -> pool_wf (add_yield p amount).
Proof. intros [? ? ? ?] ?. constructor; simpl; [done|done|ulia|done]. Qed.

(** ** Yield distribution *)

(** What the loop pushes for one miner. *)
Definition share_of (p : NetworkSecurityPool) (cp pm : Lux) (miner : NodeId) : YieldShare :=
  mkYieldShare miner (overflow_yield_of p cp miner) pm
    (saturating_add 64 (overflow_yield_of p cp miner) pm).

Definition shares_total (l : list YieldShare) : Z :=
  foldr (fun s acc => ys_total_yield s + acc) 0 l.

Lemma shares_total_nonneg p cp pm miners :
  (forall m, m ∈ miners -> 0 <= ys_total_yield (share_of p cp pm m)) ->
  0 <= shares_total (map (share_of p cp pm) miners).
Proof.
  induction miners as [|m l IH]; intros Hpos; [simpl; lia|].
  change (0 <= ys_total_yield (share_of p cp pm m) + shares_total (map (share_of p cp pm) l)).
  pose proof (Hpos m ltac:(set_solver)).
  assert (0 <= shares_total (map (share_of p cp pm) l)) by (apply IH; set_solver). lia.
Qed.

Lemma yield_loop p cp pm miners sh t :
  (forall m, m ∈ miners -> 0 <= ys_total_yield (share_of p cp pm m)) ->
  t + shares_total (map (share_of p cp pm) miners) < 2 ^ 64 ->
  foldl (yield_step p cp pm) (sh, t) miners
  = (sh ++ map (share_of p cp pm) miners, t + shares_total (map (share_of p cp pm) miners)).
Proof.
  revert sh t. induction miners as [|m miners IH]; intros sh t Hpos Hb; simpl in *.
  - by rewrite app_nil_r, Z.add_0_r.
  - assert (0 <= shares_total (map (share_of p cp pm) miners)).
    { apply shares_total_nonneg. intros. apply Hpos. set_solver. }
    pose proof (Hpos m ltac:(set_solver)) as Hm. simpl in Hm.
    rewrite IH; [|set_solver|].
    + rewrite <-app_assoc. simpl. f_equal. ulia.
    + ulia.
Qed.

Lemma overflow_yield_exact p cp m :
  pool_wf p -> 0 <= cp < 2 ^ 64 -> 0 < total_overflow p ->
  overflow_yield_of p cp m = amount_of p m * cp / total_overflow p /\
  0 <= overflow_yield_of p cp m <= cp.
Proof.
  intros Hwf Hcp HT. pose proof (amount_of_bounds p m Hwf) as Hb.
  destruct Hwf as [_ Hr _ _]. unfold overflow_yield_of. rewrite decide_True by lia.
  unfold amount_of in *. destruct (contributions p !! m) as [c|]; simpl in *.
  2: { rewrite Z.div_0_l by lia. lia. }
  assert (0 <= oc_amount c * cp / total_overflow p <= cp).
  { split; [apply Z.div_pos; nia|]. apply Z.div_le_upper_bound; nia. }
  unfold wmul. rewrite (wrap_small 128), wrap_small by (unfold in_range in *; nia). lia.
Qed.

(** Proportional shares of distinct miners never exceed the contributors' portion. *)
Lemma overflow_yields_bounded p cp miners :
  pool_wf p -> 0 <= cp < 2 ^ 64 -> NoDup miners ->
  foldr (fun m acc => overflow_yield_of p cp m + acc) 0 miners <= cp.
Proof.
  intros Hwf Hcp Hnd. destruct (decide (0 < total_overflow p)) as [HT|HT].
  - assert (total_overflow p * foldr (fun m acc => overflow_yield_of p cp m + acc) 0 miners
            <= cp * foldr (fun k acc => from_option oc_amount 0 (contributions p !! k) + acc) 0 miners)
      as Hle.
    { clear Hnd. induction miners as [|m l IH]; simpl; [lia|].
      destruct (overflow_yield_exact p cp m Hwf Hcp HT) as [-> _].
      pose proof (Z.mul_div_le (amount_of p m * cp) (total_overflow p) HT).
      unfold amount_of in *. lia. }
    pose proof (map_sum_list_le oc_amount (contributions p) miners) as Hs.
    destruct Hwf as [Ht _ _ Hpos]. unfold contribution_sum in Ht. rewrite <-Ht in Hs.
    assert (forall i x, contributions p !! i = Some x -> 0 <= oc_amount x) as Hnn.
    { intros i x Hi. specialize (Hpos _ _ Hi). lia. }
    specialize (Hs Hnn Hnd). nia.
  - assert (foldr (fun m acc => overflow_yield_of p cp m + acc) 0 miners = 0) as ->; [|lia].
    clear Hnd. induction miners as [|m l IH]; simpl; [done|].
    unfold overflow_yield_of at 1. by rewrite decide_False, IH by lia.
Qed.

Lemma shares_total_split p cp pm miners :
  pool_wf p -> 0 <= cp -> 0 <= pm -> cp + pm < 2 ^ 64 ->
  (forall m, 0 <= ys_total_yield (share_of p cp pm m)) /\
  (forall m, ys_total_yield (share_of p cp pm m) = overflow_yield_of p cp m + pm) /\
  shares_total (map (share_of p cp pm) miners)
  = foldr (fun m acc => overflow_yield_of p cp m + acc) 0 miners + pm * Z.of_nat (length miners).
Proof.
  intros Hwf Hcp Hpm Hb.
  assert (forall m, 0 <= overflow_yield_of p cp m <= cp) as Hov.
  { intros m. destruct (decide (0 < total_overflow p)).
    - apply overflow_yield_exact; (done || lia).
    - unfold overflow_yield_of. rewrite decide_False by lia. lia. }
  assert (forall m, ys_total_yield (share_of p cp pm m) = overflow_yield_of p cp m + pm) as Heq.
  { intros m. simpl. specialize (Hov m). ulia. }
  split_and!; [|done|].
  - intros m. rewrite Heq. specialize (Hov m). lia.
  - induction miners as [|m l IH]; simpl; [lia|]. 
    change (ys_total_yield (share_of p cp pm m) + shares_total (map (share_of p cp pm) l)
            = overflow_yield_of p cp m
              + foldr (fun m acc => overflow_yield_of p cp m + acc) 0 l
              + pm * Z.of_nat (S (length l))).
    rewrite IH, Heq. lia.
Qed.

(** The state and shares of a distribution that takes place. *)
Lemma distribute_run p miners now :
  pool_wf p -> NoDup miners -> accumulated_yield p <> 0 -> miners <> [] ->
  let cp := accumulated_yield p / 2 in
  let pm := (accumulated_yield p - cp) / Z.of_nat (length miners) in
  let shares := map (share_of p cp pm) miners in
  distribute_pool_yield p miners now
  = (mkPool (total_overflow p) (contributions p)
       (accumulated_yield p - shares_total shares) (Some now), shares) /\
  0 <= shares_total shares <= accumulated_yield p /\
  (forall m, ys_total_yield (share_of p cp pm m) = overflow_yield_of p cp m + pm).
Proof.
  intros Hwf Hnd Hy Hm cp pm shares.
  assert (0 < Z.of_nat (length miners)) as Hn by (destruct miners; simpl; [done|lia]).
  pose proof (wf_yield_range p Hwf) as Hyr.
  assert (0 <= cp /\ 2 * cp <= accumulated_yield p) as [Hcp0 Hcp].
  { unfold cp. split; [apply Z.div_pos; ulia|]. pose proof (Z.mul_div_le (accumulated_yield p) 2). lia. }
  assert (0 <= pm) by (apply Z.div_pos; ulia).
  assert (pm * Z.of_nat (length miners) <= accumulated_yield p - cp) as Hpm.
  { unfold pm. rewrite Z.mul_comm. apply Z.mul_div_le. lia. }
  assert (pm <= accumulated_yield p - cp) by nia.
  destruct (shares_total_split p cp pm miners) as (Hpos & Heq & Hsum); [done|lia|lia|ulia|].
  pose proof (overflow_yields_bounded p cp miners Hwf ltac:(ulia) Hnd) as Hov.
  assert (0 <= shares_total shares) by (by apply shares_total_nonneg).
  fold shares in Hsum. split_and!; [|lia|lia|done].
  unfold distribute_pool_yield. rewrite decide_False by naive_solver.
  rewrite (decide_False (P := miners = [])) by done.
  fold cp. rewrite wsub_small by ulia. fold pm.
  rewrite yield_loop; [|done|fold shares; ulia]. fold shares. simpl.
  f_equal. f_equal. ulia.
Qed.

Lemma distribute_keeps_ledger p miners now :
  pool_wf p -> NoDup miners ->
  pool_wf (distribute_pool_yield p miners now).1 /\
  contributions (distribute_pool_yield p miners now).1 = contributions p /\
  total_overflow (distribute_pool_yield p miners now).1 = total_overflow p /\
  accumulated_yield (distribute_pool_yield p miners now).1
    + shares_total (distribute_pool_yield p miners now).2 = accumulated_yield p.
Proof.
  intros Hwf Hnd. destruct (decide (accumulated_yield p = 0 \/ miners = [])) as [Hn|Hn].
  - unfold distribute_pool_yield. rewrite decide_True by done. simpl. split_and!; try done. lia.
  - destruct (distribute_run p miners now) as (-> & ? & _); [done..|naive_solver|naive_solver|].
    simpl. destruct Hwf. split_and!; try done; [|lia]. constructor; simpl; try done. ulia.
Qed.

(** ** Properties *)

(** A yield round over distinct active miners neither creates nor destroys
    value: what is paid out plus the dust kept in the pool is exactly the yield
    there was, contributions are untouched and the pool stays well formed. *)
Theorem pool_yield_conserved p miners now :
  pool_wf p -> NoDup miners ->
  let r := distribute_pool_yield p miners now in
  accumulated_yield r.1 + shares_total r.2 = accumulated_yield p /\
  contributions r.1 = contributions p /\
  total_overflow r.1 = total_overflow p /\ pool_wf r.1.
Proof.
  intros Hwf Hnd r. unfold r.
  destruct (distribute_keeps_ledger p miners now Hwf Hnd) as (? & ? & ? & ?). done.
Qed.

(** Example pool: one contributor holding 100 Lux, 100 Lux of yield. *)
Definition example_pool : NetworkSecurityPool :=
  add_yield (add_overflow new [1] 100 0).1 100.

Lemma example_pool_wf : pool_wf example_pool.
Proof. apply add_yield_wf; [apply add_overflow_wf; [apply new_wf|lia]|lia]. Qed.

Lemma pool_yield_conserved_witness :
  let r := distribute_pool_yield example_pool [[1]; [2]; [3]] 7 in
  (accumulated_yield r.1, shares_total r.2) = (2, 98) /\
  accumulated_yield r.1 + shares_total r.2 = accumulated_yield example_pool.
Proof.
  split; [vm_compute; reflexivity|].
  apply (pool_yield_conserved example_pool [[1]; [2]; [3]] 7 example_pool_wf).
  vm_compute. repeat constructor; set_solver.
Defined.

(** Distinctness is needed: a miner listed three times is paid more than the pool holds. *)
Example duplicate_miners_overpaid :
  shares_total (distribute_pool_yield example_pool [[1]; [1]; [1]] 7).2 = 198.
Proof. vm_compute. reflexivity. Qed.

(** Every active miner, in the order given, receives the same base share, and on
    top of it its contribution's exact proportion (rounded down) of the
    contributors' half; the machine arithmetic of the source never wraps or
    saturates while computing it. *)
Theorem pool_yield_shares_exact p miners now :
  pool_wf p -> NoDup miners -> accumulated_yield p <> 0 -> miners <> [] ->
  let cp := accumulated_yield p / 2 in
  let pm := (accumulated_yield p - cp) / Z.of_nat (length miners) in
  (distribute_pool_yield p miners now).2 =
    map (fun m =>
      let ov := if decide (0 < total_overflow p)
                then amount_of p m * cp / total_overflow p else 0 in
      mkYieldShare m ov pm (ov + pm)) miners.
Proof.
  intros Hwf Hnd Hy Hm cp pm.
  destruct (distribute_run p miners now) as (-> & _ & Heq); [done..|]. simpl.
  fold cp pm in Heq |- *. pose proof (wf_yield_range p Hwf).
  assert (0 <= cp < 2 ^ 64).
  { unfold cp. split; [apply Z.div_pos; ulia|]. apply Z.div_lt_upper_bound; ulia. }
  clear Hnd. apply map_ext. intros m.
  assert (overflow_yield_of p cp m
          = if decide (0 < total_overflow p) then amount_of p m * cp / total_overflow p else 0)
    as Hov.
  { destruct (decide (0 < total_overflow p)); [by apply overflow_yield_exact|].
    unfold overflow_yield_of. by rewrite decide_False by lia. }
  pose proof (Heq m) as Hm'. unfold share_of in *. simpl in *. rewrite Hov in *. by rewrite Hm'.
Qed.

Lemma pool_yield_shares_exact_witness :
  (distribute_pool_yield example_pool [[1]; [2]] 7).2 =
    [mkYieldShare [1] 50 25 75; mkYieldShare [2] 0 25 25].
Proof.
  rewrite (pool_yield_shares_exact example_pool [[1]; [2]] 7 example_pool_wf);
    [vm_compute; reflexivity|vm_compute; repeat constructor; set_solver|vm_compute; discriminate|done].
Defined.
End Pool.

(** ** The interface the staking manager is verified against *)

Class OverflowLedger (P : Type) := {
  ol_wf : P -> Prop;
  ol_amount : P -> NodeId -> Z;
  ol_total : P -> Z;
  ol_delta : P -> P -> NodeId -> Z -> Prop;
  ol_deposit : P -> NodeId -> Lux -> DateTime -> P * result StakingError unit;
  ol_withdraw : P -> NodeId -> Lux -> DateTime -> P * result StakingError unit;
  ol_bounds : forall p i, ol_wf p -> 0 <= ol_amount p i <= ol_total p;
  ol_deposit_ok : forall p i a now,
    ol_wf p -> 0 < a -> ol_total p + a < 2 ^ 64 ->
    exists p', ol_deposit p i a now = (p', Ok tt) /\ ol_delta p p' i a;
  ol_withdraw_ok : forall p i a now,
    ol_wf p -> 0 < a <= ol_amount p i ->
    exists p', ol_withdraw p i a now = (p', Ok tt) /\ ol_delta p p' i (- a)
}.

Lemma pool_deposit_ok p i a now :
  Pool.pool_wf p -> 0 < a -> total_overflow p + a < 2 ^ 64 ->
  exists p', Pool.add_overflow p i a now = (p', Ok tt) /\ Pool.ledger_delta p p' i a.
Proof.
  intros Hwf Ha Hlt. pose proof (Pool.add_overflow_wf p i a now Hwf ltac:(lia)) as Hwf'.
  rewrite Pool.add_overflow_spec, decide_True in Hwf' |- * by done.
  eexists. split; [done|]. split_and!; [done| | |done|done].
  - unfold Pool.amount_of. simpl. by rewrite lookup_insert_eq.
  - intros j Hj. unfold Pool.amount_of. simpl. by rewrite lookup_insert_ne.
Qed.

Lemma pool_withdraw_ok p i a now :
  Pool.pool_wf p -> 0 < a <= Pool.amount_of p i ->
  exists p', Pool.remove_overflow p i a now = (p', Ok tt) /\ Pool.ledger_delta p p' i (- a).
Proof.
  intros Hwf Ha.
  destruct (Pool.remove_overflow_spec p i a now Hwf Ha) as (p' & Hr & ? & ? & Hj & ? & ? & ?).
  exists p'. split; [done|]. split_and!; try done; try lia.
  intros j Hne. unfold Pool.amount_of. by rewrite Hj.
Qed.

#[export] Instance pool_ledger : OverflowLedger NetworkSecurityPool := {|
  ol_wf := Pool.pool_wf;
  ol_amount := Pool.amount_of;
  ol_total := total_overflow;
  ol_delta := Pool.ledger_delta;
  ol_deposit := Pool.add_overflow;
  ol_withdraw := Pool.remove_overflow;
  ol_bounds := Pool.amount_of_bounds;
  ol_deposit_ok := pool_deposit_ok;
  ol_withdraw_ok := pool_withdraw_ok
|}.
