(* ===== verification/StakingSlashing.v ===== *)
(** * gratia-staking: progressive slashing

    [crates/gratia-staking/src/slashing.rs]: severities, escalation over a rolling
    window, slash amounts and the burn / reporter split.  [Utc::now()], which
    [effective_severity] reads, is the argument [utc_now]. *)

From stdpp Require Import base gmap strings list fin_maps.
From Stdlib Require Import ZArith Lia.
From S2P Require Import Prelude CoreTypes.
Local Open Scope Z_scope.

Inductive SlashingPillar := ProofOfLife | StakeManipulation | EnergyFraud.

Inductive SlashingSeverity := Warning | Minor | Major | Critical.

#[export] Instance SlashingSeverity_eq_dec : EqDecision SlashingSeverity.
Proof. solve_decision. Defined.

Record SlashingEvent := mkSlashingEvent {
  se_node_id : NodeId;
  se_pillar : SlashingPillar;
  se_severity : SlashingSeverity;
  se_amount_slashed : Lux;
  se_reason : string;
  se_timestamp : DateTime;
  se_mining_paused : bool;
  se_mining_pause_duration_secs : Z;
  se_permanently_banned : bool;
  se_block_height : Z
}.

Record SlashResult := mkSlashResult {
  sr_event : SlashingEvent;
  sr_remaining_stake : Lux;
  sr_overflow_slashed : Lux;
  sr_burn_amount : Lux;
  sr_reporter_share : Lux
}.

Record SlashingConfig := mkSlashingConfig {
  minor_slash_bps : Z;
  major_slash_bps : Z;
  critical_slash_bps : Z;
  warning_pause_duration_secs : Z;
  major_pause_duration_secs : Z;
  offense_window_secs : Z;
  fraud_burn_bps : Z;
  fraud_reporter_share_bps : Z;
  minor_escalation_threshold : Z;
  major_escalation_threshold : Z
}.

Definition default_SlashingConfig : SlashingConfig := {|
  minor_slash_bps := 1000;
  major_slash_bps := 5000;
  critical_slash_bps := 10000;
  warning_pause_duration_secs := 48 * 3600;
  major_pause_duration_secs := 30 * 24 * 3600;
  offense_window_secs := 90 * 24 * 3600;
  fraud_burn_bps := 7000;
  fraud_reporter_share_bps := 3000;
  minor_escalation_threshold := 3;
  major_escalation_threshold := 2
|}.

Record SlashingHistory := mkSlashingHistory {
  sh_warnings : Z;
  sh_minor_slashes : Z;
  sh_major_slashes : Z;
  sh_is_banned : bool;
  sh_events : list SlashingEvent
}.

Definition default_SlashingHistory : SlashingHistory := mkSlashingHistory 0 0 0 false [].

Module Slashing.

Definition count_event (window_start : DateTime) (counts : Z * Z) (event : SlashingEvent)
  : Z * Z :=
  let '(minor_count, major_count) := counts in
  if decide (se_timestamp event >= window_start) then
    match se_severity event with
    | Minor => (wadd 32 minor_count 1, major_count)
    | Major => (minor_count, wadd 32 major_count 1)
    | _ => counts
    end
  else counts.

Definition windowed_counts (h : SlashingHistory) (config : SlashingConfig) (now : DateTime)
  : Z * Z :=
  let window_start := now - duration_seconds (as_i64 (offense_window_secs config)) in
  foldl (count_event window_start) (0, 0) (sh_events h).

Definition effective_severity_at (h : SlashingHistory) (base_severity : SlashingSeverity)
    (config : SlashingConfig) (now : DateTime) : SlashingSeverity :=
  if sh_is_banned h then Critical
  else
    let '(windowed_minor, windowed_major) := windowed_counts h config now in
    match base_severity with
    | Warning => Warning
    | Minor => if decide (windowed_minor >= minor_escalation_threshold config)
               then Major else Minor
    | Major => if decide (windowed_major >= major_escalation_threshold config)
               then Critical else Major
    | Critical => Critical
    end.

Definition effective_severity (utc_now : DateTime) (h : SlashingHistory)
    (base_severity : SlashingSeverity) (config : SlashingConfig) : SlashingSeverity :=
  effective_severity_at h base_severity config utc_now.

Definition calculate_slash_amount (severity : SlashingSeverity) (node_stake overflow_amount : Lux)
    (config : SlashingConfig) : Lux * Lux :=
  let slash slash_bps :=
    let total_stake := saturating_add 64 node_stake overflow_amount in
    let total_slash := wrap 64 (wmul 128 total_stake slash_bps / 10000) in
    let from_stake := Z.min total_slash node_stake in
    let from_overflow := Z.min (saturating_sub total_slash from_stake) overflow_amount in
    (from_stake, from_overflow) in
  match severity with
  | Warning => (0, 0)
  | Minor => slash (minor_slash_bps config)
  | Major => slash (major_slash_bps config)
  | Critical => slash (critical_slash_bps config)
  end.

Definition calculate_slash_distribution (total_slashed : Lux) (is_proven_fraud : bool)
    (config : SlashingConfig) : Lux * Lux :=
  if negb is_proven_fraud || bool_decide (total_slashed = 0) then (total_slashed, 0)
  else
    let burn := wrap 64 (wmul 128 total_slashed (fraud_burn_bps config) / 10000) in
    let reporter_share := saturating_sub total_slashed burn in
    (burn, reporter_share).

Definition build_slashing_event (utc_now : DateTime) (node_id : NodeId) (pillar : SlashingPillar)
    (base_severity : SlashingSeverity) (reason : string) (node_stake overflow_amount : Lux)
    (history : SlashingHistory) (config : SlashingConfig) (now : DateTime) (block_height : Z)
  : SlashResult :=
  let severity := effective_severity utc_now history base_severity config in
  let '(stake_slash, overflow_slash) :=
    calculate_slash_amount severity node_stake overflow_amount config in
  let total_slashed := saturating_add 64 stake_slash overflow_slash in
  let remaining_stake := saturating_sub node_stake stake_slash in
  let mining_paused :=
    match severity with Warning | Major | Critical => true | Minor => false end in
  let mining_pause_duration_secs :=
    match severity with
    | Warning => warning_pause_duration_secs config
    | Minor => 0
    | Major => major_pause_duration_secs config
    | Critical => max_val 64 / 2
    end in
  let permanently_banned := bool_decide (severity = Critical) in
  let is_proven_fraud := bool_decide (severity = Critical) in
  let '(burn_amount, reporter_share) :=
    calculate_slash_distribution total_slashed is_proven_fraud config in
  {| sr_event := {|
       se_node_id := node_id; se_pillar := pillar; se_severity := severity;
       se_amount_slashed := total_slashed; se_reason := reason; se_timestamp := now;
       se_mining_paused := mining_paused;
       se_mining_pause_duration_secs := mining_pause_duration_secs;
       se_permanently_banned := permanently_banned; se_block_height := block_height |};
     sr_remaining_stake := remaining_stake;
     sr_overflow_slashed := overflow_slash;
     sr_burn_amount := burn_amount;
     sr_reporter_share := reporter_share |}.

(** ** Amounts *)

(** The rate of a severity, in basis points. *)
Definition severity_bps (severity : SlashingSeverity) (config : SlashingConfig) : Z :=
  match severity with
  | Warning => 0
  | Minor => minor_slash_bps config
  | Major => major_slash_bps config
  | Critical => critical_slash_bps config
  end.

(** A configuration whose rates are percentages (at most 100%). *)
Record config_ok (config : SlashingConfig) : Prop := {
  ok_minor : 0 <= minor_slash_bps config <= 10000;
  ok_major : 0 <= major_slash_bps config <= 10000;
  ok_critical : 0 <= critical_slash_bps config <= 10000;
  ok_burn : 0 <= fraud_burn_bps config <= 10000
}.

Lemma default_config_ok : config_ok default_SlashingConfig.
Proof. constructor; simpl; lia. Qed.

Lemma severity_bps_range s config : config_ok config -> 0 <= severity_bps s config <= 10000.
Proof. intros []. destruct s; simpl; lia. Qed.

Lemma bps_exact x bps :
  u64 x -> 0 <= bps <= 10000 ->
  wrap 64 (wmul 128 x bps / 10000) = x * bps / 10000 /\ 0 <= x * bps / 10000 <= x.
Proof.
  intros Hx Hb. unfold in_range in Hx. assert (0 <= x * bps / 10000 <= x).
  { split; [apply Z.div_pos; nia|]. apply Z.div_le_upper_bound; nia. }
  unfold wmul. rewrite (wrap_small 128) by (unfold in_range; nia).
  rewrite wrap_small by ulia. done.
Qed.

Lemma slash_amount_spec severity ns ov config :
  config_ok config -> u64 ns -> u64 ov -> u64 (ns + ov) ->
  let '(s, o) := calculate_slash_amount severity ns ov config in
  s + o = (ns + ov) * severity_bps severity config / 10000 /\
  0 <= s <= ns /\ 0 <= o <= ov /\ (0 < o -> s = ns).
Proof.
  intros Hc Hns Hov Htot. pose proof (severity_bps_range severity config Hc) as Hb.
  destruct (bps_exact (ns + ov) (severity_bps severity config) Htot Hb) as [He Hle].
  unfold calculate_slash_amount. destruct severity.
  { simpl. rewrite Z.mul_0_r, Z.div_0_l by lia. ulia. }
  all: replace (saturating_add 64 ns ov) with (ns + ov) by ulia; simpl in He, Hle |- *;
    rewrite He; ulia.
Qed.

(** ** Escalation *)

Definition severity_rank (s : SlashingSeverity) : Z :=
  match s with Warning => 0 | Minor => 1 | Major => 2 | Critical => 3 end.

(** The events of a severity that fall in the window. *)
Definition in_window (window_start : DateTime) (sev : SlashingSeverity) (e : SlashingEvent) : bool :=
  bool_decide (se_timestamp e >= window_start) && bool_decide (se_severity e = sev).

Definition window_count (window_start : DateTime) (sev : SlashingSeverity)
    (events : list SlashingEvent) : Z :=
  Z.of_nat (length (List.filter (in_window window_start sev) events)).

Lemma window_count_cons ws sev e l :
  window_count ws sev (e :: l) = (if in_window ws sev e then 1 else 0) + window_count ws sev l.
Proof. unfold window_count. simpl. destruct (in_window ws sev e); simpl; lia. Qed.

Lemma window_count_bound ws sev l : 0 <= window_count ws sev l <= Z.of_nat (length l).
Proof.
  induction l as [|e l IH]; [unfold window_count; simpl; lia|].
  rewrite window_count_cons. simpl length. destruct (in_window ws sev e); lia.
Qed.

Lemma count_loop ws l a b :
  0 <= a -> 0 <= b -> a + Z.of_nat (length l) < 2 ^ 32 -> b + Z.of_nat (length l) < 2 ^ 32 ->
  foldl (count_event ws) (a, b) l = (a + window_count ws Minor l, b + window_count ws Major l).
Proof.
  revert a b. induction l as [|e l IH]; intros a b Ha Hb Hla Hlb.
  - unfold window_count. simpl. f_equal; lia.
  - simpl length in *. rewrite !window_count_cons. simpl foldl. unfold in_window.
    destruct (decide (se_timestamp e >= ws)) as [Ht|Ht].
    + rewrite (bool_decide_true (se_timestamp e >= ws)) by done. simpl.
      destruct (se_severity e); simpl; rewrite ?wadd_small by ulia; rewrite IH by lia; f_equal; lia.
    + rewrite (bool_decide_false (se_timestamp e >= ws)) by done. simpl. rewrite IH by lia. f_equal; lia.
Qed.

(** The source's counters are the numbers of events in the window. *)
Lemma windowed_counts_spec h config now :
  Z.of_nat (length (sh_events h)) < 2 ^ 32 ->
  let ws := now - duration_seconds (as_i64 (offense_window_secs config)) in
  windowed_counts h config now = (window_count ws Minor (sh_events h), window_count ws Major (sh_events h)).
Proof. intros H ws. unfold windowed_counts. fold ws. rewrite count_loop by lia. done. Qed.

(** ** Properties *)

(** The result of [build_slashing_event] accounts for every Lux: the total is the
    severity's rate of the whole commitment, it splits into a part of the effective
    stake and a part of the overflow (the latter only once the former is exhausted),
    what remains is the difference, and the burn and the reporters' share add up to
    the total, with no share for anything but a critical offence. *)
Theorem slash_accounting utc_now id pillar base reason ns ov h config now bh :
  config_ok config -> u64 ns -> u64 ov -> u64 (ns + ov) ->
  let r := build_slashing_event utc_now id pillar base reason ns ov h config now bh in
  let total := se_amount_slashed (sr_event r) in
  let sev := se_severity (sr_event r) in
  total = (ns + ov) * severity_bps sev config / 10000 /\
  0 <= sr_overflow_slashed r <= ov /\
  sr_remaining_stake r = ns - (total - sr_overflow_slashed r) /\
  0 <= sr_remaining_stake r /\
  (0 < sr_overflow_slashed r -> sr_remaining_stake r = 0) /\
  sr_burn_amount r + sr_reporter_share r = total /\
  0 <= sr_burn_amount r /\ 0 <= sr_reporter_share r /\
  (sev <> Critical -> sr_reporter_share r = 0).
Proof.
  intros Hc Hns Hov Htot. unfold build_slashing_event.
  set (sev := effective_severity utc_now h base config).
  pose proof (slash_amount_spec sev ns ov config Hc Hns Hov Htot) as Hs.
  destruct (calculate_slash_amount sev ns ov config) as [s o].
  destruct Hs as (Hsum & Hs & Ho & Hord).
  assert (saturating_add 64 s o = s + o) as -> by ulia.
  unfold calculate_slash_distribution.
  assert (u64 (s + o)) as Hr by ulia.
  destruct (bps_exact (s + o) (fraud_burn_bps config) Hr (ok_burn _ Hc)) as [-> Hburn].
  destruct (decide (sev = Critical)) as [E|E];
    [rewrite !(bool_decide_true (sev = Critical)) by done
    |rewrite !(bool_decide_false (sev = Critical)) by done]; simpl.
  - destruct (decide (s + o = 0)) as [Z0|Z0];
      [rewrite (bool_decide_true (s + o = 0)) by done
      |rewrite (bool_decide_false (s + o = 0)) by done]; simpl;
      split_and!; try ulia; try done; intros; ulia.
  - split_and!; try ulia; done.
Qed.

Lemma slash_accounting_witness :
  let r := build_slashing_event 0 [1] EnergyFraud Critical "emulator" 1000 500
             default_SlashingHistory default_SlashingConfig 0 7 in
  sr_burn_amount r + sr_reporter_share r = se_amount_slashed (sr_event r) /\
  (sr_burn_amount r, sr_reporter_share r, sr_overflow_slashed r) = (1050, 450, 500).
Proof.
  split; [|vm_compute; reflexivity].
  apply (slash_accounting 0 [1] EnergyFraud Critical "emulator" 1000 500
           default_SlashingHistory default_SlashingConfig 0 7 default_config_ok);
    vm_compute; split; congruence.
Defined.

(** Escalation is progressive and forgets: the effective severity never falls below
    the reported one and rises by at most one level unless the node is banned; it is
    the reported one when the history has no event in the rolling window; a minor
    (major) offence is escalated exactly when the window holds at least the
    threshold of minor (major) events; a banned node is always critical. *)
Theorem escalation_progressive h base config now :
  Z.of_nat (length (sh_events h)) < 2 ^ 32 ->
  let ws := now - duration_seconds (as_i64 (offense_window_secs config)) in
  let eff := effective_severity_at h base config now in
  severity_rank base <= severity_rank eff /\
  (sh_is_banned h = true -> eff = Critical) /\
  (sh_is_banned h = false ->
    severity_rank eff <= severity_rank base + 1 /\
    (base = Minor -> eff = Major <->
       minor_escalation_threshold config <= window_count ws Minor (sh_events h)) /\
    (base = Major -> eff = Critical <->
       major_escalation_threshold config <= window_count ws Major (sh_events h)) /\
    (Forall (fun e => se_timestamp e < ws) (sh_events h) ->
     0 < minor_escalation_threshold config -> 0 < major_escalation_threshold config ->
     eff = base)).
Proof.
  intros Hlen ws eff. unfold eff, effective_severity_at.
  rewrite windowed_counts_spec by done. fold ws.
  assert (forall sev, Forall (fun e => se_timestamp e < ws) (sh_events h) ->
                      window_count ws sev (sh_events h) = 0) as Hold.
  { intros sev Hf. clear -Hf. induction Hf as [|e l He _ IH]; [done|].
    rewrite window_count_cons, IH. unfold in_window.
    by rewrite bool_decide_false by lia. }
  pose proof (Hold Minor) as Ho1. pose proof (Hold Major) as Ho2. clear Hold.
  destruct (sh_is_banned h).
  { destruct base; simpl; split_and!; try done; lia. }
  destruct base; simpl; repeat case_decide; simpl;
    split_and!; try done; try lia; intros; split_and!; try done; try lia;
    intros; try (split; (done || lia)); specialize (Ho1 ltac:(done)); specialize (Ho2 ltac:(done));
    (done || lia).
Qed.

(** Two minor offences on record, at times 0 and 1 second. *)
Definition minor_event (t : DateTime) : SlashingEvent :=
  mkSlashingEvent [1] StakeManipulation Minor 10 "double sign" t false 0 false 5.

Definition two_minors : SlashingHistory :=
  mkSlashingHistory 0 2 0 false [minor_event 0; minor_event NANOS].

Lemma escalation_progressive_witness :
  effective_severity_at two_minors Minor default_SlashingConfig (91 * 86400 * NANOS) = Minor.
Proof.
  apply (escalation_progressive two_minors Minor default_SlashingConfig (91 * 86400 * NANOS));
    [reflexivity|reflexivity| |reflexivity|reflexivity].
  repeat constructor.
Defined.

(** The module documentation announces a 50% slash for the third offence within 90
    days; with two minor offences on record the third one is still minor (10%), the
    escalation needs three earlier ones. *)
Theorem third_minor_not_escalated :
  effective_severity_at two_minors Minor default_SlashingConfig (2 * NANOS) = Minor.
Proof. vm_compute. reflexivity. Qed.

Definition three_minors : SlashingHistory :=
  mkSlashingHistory 0 3 0 false [minor_event 0; minor_event NANOS; minor_event (2 * NANOS)].

(** [build_slashing_event] receives the time of the event in [now] but escalates with
    the wall clock: the same call, with the same arguments, gives different
    severities and different slashed amounts on two nodes whose clocks differ. *)
Theorem escalation_depends_on_wall_clock :
  let r utc := build_slashing_event utc [1] StakeManipulation Minor "double sign" 1000 0
                 three_minors default_SlashingConfig (3 * NANOS) 9 in
  se_amount_slashed (sr_event (r (3 * NANOS))) = 500 /\
  se_amount_slashed (sr_event (r (100 * 86400 * NANOS))) = 100.
Proof. vm_compute. split; reflexivity. Qed.
End Slashing.
