(* ===== verification/StakingManager.v ===== *)
(** * gratia-staking: the staking manager

    [crates/gratia-staking/src/lib.rs].  A manager keeps one record per staking
    node, the Network Security Pool, the slashing histories and the banned nodes.
    [run_op] is the manager as a transition system over its public mutators. *)

From stdpp Require Import base gmap strings list fin_maps pretty.
From Stdlib Require Import ZArith Lia.
From S2P Require Import Prelude CoreTypes StakingPool StakingSlashing.
Local Open Scope Z_scope.

Record NodeStake := mkNodeStake {
  ns_effective_stake : Lux;
  ns_overflow_amount : Lux;
  ns_total_committed : Lux;
  ns_staked_at : DateTime;
  ns_unstake_requested_at : option DateTime;
  ns_unstake_pending : Lux
}.

Record StakingManager := mkManager {
  config : StakingConfig;
  stakes : gmap NodeId NodeStake;
  pool : NetworkSecurityPool;
  slashing_histories : gmap NodeId SlashingHistory;
  banned_nodes : gmap NodeId DateTime;
  staking_activated_at : option DateTime
}.

Module Manager.

Definition new (config : StakingConfig) : StakingManager :=
  mkManager config ∅ Pool.new ∅ ∅ None.

Definition set_stakes (m : StakingManager) (s : gmap NodeId NodeStake) : StakingManager :=
  mkManager (config m) s (pool m) (slashing_histories m) (banned_nodes m) (staking_activated_at m).

Definition set_pool (m : StakingManager) (p : NetworkSecurityPool) : StakingManager :=
  mkManager (config m) (stakes m) p (slashing_histories m) (banned_nodes m) (staking_activated_at m).

(** A write through the [&mut NodeStake] borrowed from the map. *)
Definition put_stake (m : StakingManager) (id : NodeId) (e : NodeStake) : StakingManager :=
  set_stakes m (<[id := e]> (stakes m)).

Definition build_stake_info (config : StakingConfig) (stake : NodeStake) : StakeInfo := {|
  si_node_stake := ns_effective_stake stake;
  si_overflow_amount := ns_overflow_amount stake;
  si_total_committed := ns_total_committed stake;
  si_staked_at := ns_staked_at stake;
  si_meets_minimum := bool_decide (ns_effective_stake stake >= minimum_stake config)
|}.

Definition update_config (m : StakingManager) (c : StakingConfig)
  : StakingManager * result StakingError unit :=
  if decide (per_node_cap c = 0) then
    (m, Err (InvalidAmount "per_node_cap cannot be zero"))
  else if decide (per_node_cap c < minimum_stake c) then
    (m, Err (InvalidAmount ("per_node_cap (" +:+ pretty (per_node_cap c)
               +:+ ") must be >= minimum_stake (" +:+ pretty (minimum_stake c) +:+ ")")))
  else
    (mkManager c (stakes m) (pool m) (slashing_histories m) (banned_nodes m)
       (staking_activated_at m), Ok tt).

Definition stake (m : StakingManager) (node_id : NodeId) (amount : Lux) (now : DateTime)
  : StakingManager * result StakingError StakeInfo :=
  if decide (amount = 0) then
    (m, Err (InvalidAmount "stake amount must be greater than zero"))
  else if decide (is_Some (banned_nodes m !! node_id)) then (m, Err (NodeBanned node_id))
  else
    let entry := default (mkNodeStake 0 0 0 now None 0) (stakes m !! node_id) in
    let? new_total := ok_or (checked_add 64 (ns_total_committed entry) amount)
                        (InvalidAmount "total committed stake would overflow u64")
      at put_stake m node_id entry in
    let entry1 := mkNodeStake (ns_effective_stake entry) (ns_overflow_amount entry) new_total
                    (ns_staked_at entry) (ns_unstake_requested_at entry)
                    (ns_unstake_pending entry) in
    let cap := per_node_cap (config m) in
    let new_effective := Z.min new_total cap in
    let new_overflow := saturating_sub new_total cap in
    let overflow_delta := saturating_sub new_overflow (ns_overflow_amount entry) in
    let '(pool', added) :=
      if decide (overflow_delta > 0)
      then Pool.add_overflow (pool m) node_id overflow_delta now
      else (pool m, Ok tt) in
    let? _ := added at set_pool (put_stake m node_id entry1) pool' in
    let entry2 := mkNodeStake new_effective new_overflow new_total
                    (ns_staked_at entry) (ns_unstake_requested_at entry)
                    (ns_unstake_pending entry) in
    (set_pool (put_stake m node_id entry2) pool', Ok (build_stake_info (config m) entry2)).

(** The guard shared by both unstaking methods: seconds left of a running cooldown. *)
Definition cooldown_remaining (c : StakingConfig) (requested_at now : DateTime) : option Z :=
  let elapsed := elapsed_secs now requested_at in
  if decide (elapsed < unstake_cooldown_secs c)
  then Some (wsub 64 (unstake_cooldown_secs c) elapsed) else None.

Definition request_unstake (m : StakingManager) (node_id : NodeId) (amount : Lux) (now : DateTime)
  : StakingManager * result StakingError StakeInfo :=
  if decide (amount = 0) then
    (m, Err (InvalidAmount "unstake amount must be greater than zero"))
  else
    let? entry := ok_or (stakes m !! node_id) (NodeNotFound node_id) at m in
    match ns_unstake_requested_at entry ≫= fun at_ => cooldown_remaining (config m) at_ now with
    | Some remaining => (m, Err (CooldownActive remaining))
    | None =>
      if decide (amount > ns_total_committed entry) then
        (m, Err (InsufficientStake (ns_total_committed entry) amount))
      else
        let from_overflow := Z.min amount (ns_overflow_amount entry) in
        let from_effective := wsub 64 amount from_overflow in
        let '(pool', removed) :=
          if decide (from_overflow > 0)
          then Pool.remove_overflow (pool m) node_id from_overflow now
          else (pool m, Ok tt) in
        let? _ := removed at set_pool m pool' in
        let entry' := mkNodeStake (wsub 64 (ns_effective_stake entry) from_effective)
                        (wsub 64 (ns_overflow_amount entry) from_overflow)
                        (wsub 64 (ns_total_committed entry) amount)
                        (ns_staked_at entry) (Some now) amount in
        let info := build_stake_info (config m) entry' in
        let m' := set_pool (put_stake m node_id entry') pool' in
        if decide (ns_total_committed entry' = 0)
        then (set_stakes m' (delete node_id (stakes m')), Ok info)
        else (m', Ok info)
    end.

Definition complete_unstake (m : StakingManager) (node_id : NodeId) (now : DateTime)
  : StakingManager * result StakingError Lux :=
  let? entry := ok_or (stakes m !! node_id) (NodeNotFound node_id) at m in
  let? requested_at := ok_or (ns_unstake_requested_at entry)
                         (InvalidAmount "no pending unstake request") at m in
  match cooldown_remaining (config m) requested_at now with
  | Some remaining => (m, Err (CooldownActive remaining))
  | None =>
    (put_stake m node_id (mkNodeStake (ns_effective_stake entry) (ns_overflow_amount entry)
       (ns_total_committed entry) (ns_staked_at entry) None 0),
     Ok (ns_unstake_pending entry))
  end.

Definition check_activation (m : StakingManager) (active_miners : Z) (now : DateTime)
  : StakingManager * bool :=
  if decide (is_Some (staking_activated_at m)) then (m, false)
  else if decide (active_miners >= staking_activation_threshold (config m)) then
    (mkManager (config m) (stakes m) (pool m) (slashing_histories m) (banned_nodes m) (Some now),
     true)
  else (m, false).

Definition effective_minimum_stake (m : StakingManager) (now : DateTime) : Lux :=
  match staking_activated_at m with
  | None => 0
  | Some activated_at =>
    let grace := duration_seconds (as_i64 (staking_activation_grace_secs (config m))) in
    if decide (now - activated_at < grace) then 0 else activated_minimum_stake (config m)
  end.

Definition meets_minimum_stake (m : StakingManager) (node_id : NodeId) : bool :=
  match stakes m !! node_id with
  | Some s => bool_decide (ns_effective_stake s >= minimum_stake (config m))
  | None => false
  end.

Definition meets_minimum_stake_at (m : StakingManager) (node_id : NodeId) (now : DateTime) : bool :=
  let min := effective_minimum_stake m now in
  if decide (min = 0) then true
  else match stakes m !! node_id with
       | Some s => bool_decide (ns_effective_stake s >= min)
       | None => false
       end.

Definition effective_stake (m : StakingManager) (node_id : NodeId) : Lux :=
  from_option ns_effective_stake 0 (stakes m !! node_id).

Definition total_stake (m : StakingManager) (node_id : NodeId) : Lux :=
  from_option ns_total_committed 0 (stakes m !! node_id).

Definition get_stake_info (m : StakingManager) (node_id : NodeId) : option StakeInfo :=
  build_stake_info (config m) <$> stakes m !! node_id.

Definition get_pending_unstake (m : StakingManager) (node_id : NodeId) : option (Lux * DateTime) :=
  s ← stakes m !! node_id; at_ ← ns_unstake_requested_at s; Some (ns_unstake_pending s, at_).

Definition is_banned (m : StakingManager) (node_id : NodeId) : bool :=
  bool_decide (is_Some (banned_nodes m !! node_id)).

Definition staker_count (m : StakingManager) : nat := size (stakes m).

(** The iteration order of the source's hash map is unspecified; [map_to_list] fixes one. *)
Definition eligible_miners (m : StakingManager) : list NodeId :=
  map fst (List.filter
    (fun kv => bool_decide (ns_effective_stake kv.2 >= minimum_stake (config m)))
    (map_to_list (stakes m))).

(** The counter and ban updates of [apply_slash], before the event is pushed. *)
Definition record_severity (history : SlashingHistory) (sev : SlashingSeverity)
  : SlashingHistory :=
  let '(mkSlashingHistory w mi ma b ev) := history in
  match sev with
  | Warning => mkSlashingHistory (wadd 32 w 1) mi ma b ev
  | Minor => mkSlashingHistory w (wadd 32 mi 1) ma b ev
  | Major => mkSlashingHistory w mi (wadd 32 ma 1) b ev
  | Critical => mkSlashingHistory w mi ma true ev
  end.

Definition push_event (history : SlashingHistory) (e : SlashingEvent) : SlashingHistory :=
  mkSlashingHistory (sh_warnings history) (sh_minor_slashes history) (sh_major_slashes history)
    (sh_is_banned history) (sh_events history ++ [e]).

Definition apply_slash (m : StakingManager) (r : SlashResult) (now : DateTime)
  : StakingManager * result StakingError unit :=
  let event := sr_event r in
  let node_id := se_node_id event in
  let? entry := ok_or (stakes m !! node_id) (NodeNotFound node_id) at m in
  let stake_slash := saturating_sub (se_amount_slashed event) (sr_overflow_slashed r) in
  let entry1 := mkNodeStake (saturating_sub (ns_effective_stake entry) stake_slash)
                  (ns_overflow_amount entry)
                  (saturating_sub (ns_total_committed entry) (se_amount_slashed event))
                  (ns_staked_at entry) (ns_unstake_requested_at entry)
                  (ns_unstake_pending entry) in
  let '(pool', removed) :=
    if decide (sr_overflow_slashed r > 0)
    then Pool.remove_overflow (pool m) node_id (sr_overflow_slashed r) now
    else (pool m, Ok tt) in
  let? _ := removed at set_pool (put_stake m node_id entry1) pool' in
  let entry2 :=
    if decide (sr_overflow_slashed r > 0)
    then mkNodeStake (ns_effective_stake entry1)
           (saturating_sub (ns_overflow_amount entry1) (sr_overflow_slashed r))
           (ns_total_committed entry1) (ns_staked_at entry1) (ns_unstake_requested_at entry1)
           (ns_unstake_pending entry1)
    else entry1 in
  let history := default default_SlashingHistory (slashing_histories m !! node_id) in
  let history' := push_event (record_severity history (se_severity event)) event in
  let banned' := match se_severity event with
                 | Critical => <[node_id := now]> (banned_nodes m)
                 | _ => banned_nodes m
                 end in
  let stakes' := if decide (ns_total_committed entry2 = 0)
                 then delete node_id (<[node_id := entry2]> (stakes m))
                 else <[node_id := entry2]> (stakes m) in
  (mkManager (config m) stakes' pool' (<[node_id := history']> (slashing_histories m)) banned'
     (staking_activated_at m), Ok tt).

(** ** The manager's invariant

    The committed amount of a node is the sum of its effective and overflow parts,
    and the pool holds at least the overflow the record claims. *)

Record entry_ok (p : NetworkSecurityPool) (id : NodeId) (e : NodeStake) : Prop := {
  e_split : ns_total_committed e = ns_effective_stake e + ns_overflow_amount e;
  e_effective : 0 <= ns_effective_stake e;
  e_overflow : 0 <= ns_overflow_amount e;
  e_total : 0 < ns_total_committed e < 2 ^ 64;
  e_pending : 0 <= ns_unstake_pending e;
  e_backed : ns_overflow_amount e <= Pool.amount_of p id
}.

Record mgr_inv (m : StakingManager) : Prop := {
  inv_pool : Pool.pool_wf (pool m);
  inv_cap : 0 <= per_node_cap (config m);
  inv_entries : forall id e, stakes m !! id = Some e -> entry_ok (pool m) id e
}.

(** Changing one node's amount in the pool keeps the other nodes' records backed. *)
Lemma entries_frame m id e p' d :
  mgr_inv m -> Pool.ledger_delta (pool m) p' id d -> entry_ok p' id e ->
  forall j x, <[id := e]> (stakes m) !! j = Some x -> entry_ok p' j x.
Proof.
  intros Hinv (_ & _ & Hj & _) He j x Hx.
  apply lookup_insert_Some in Hx as [[<- <-]|[Hne Hx]]; [done|].
  destruct (inv_entries m Hinv j x Hx). constructor; try done. rewrite Hj by done. done.
Qed.

Lemma entries_frame_delete m id e p' d :
  mgr_inv m -> Pool.ledger_delta (pool m) p' id d ->
  forall j x, delete id (<[id := e]> (stakes m)) !! j = Some x -> entry_ok p' j x.
Proof.
  intros Hinv (_ & _ & Hj & _) j x Hx. apply lookup_delete_Some in Hx as [Hne Hx].
  rewrite lookup_insert_ne in Hx by done.
  destruct (inv_entries m Hinv j x Hx). constructor; try done. rewrite Hj by done. done.
Qed.

Lemma new_inv c : 0 <= per_node_cap c -> mgr_inv (new c).
Proof.
  intros. constructor; simpl; [apply Pool.new_wf|done|].
  intros id e H'. by rewrite lookup_empty in H'.
Qed.

(** ** stake *)

(** There is room in the pool for the largest overflow this stake can cause. *)
Definition room (m : StakingManager) (id : NodeId) (amount : Lux) : Prop :=
  total_overflow (pool m) + effective_stake m id + amount < 2 ^ 64.

(** The record a node has, or the fresh one [stake] inserts. *)
Definition entry_of (m : StakingManager) (id : NodeId) (now : DateTime) : NodeStake :=
  default (mkNodeStake 0 0 0 now None 0) (stakes m !! id).

Lemma entry_of_facts m id now :
  mgr_inv m ->
  let e := entry_of m id now in
  ns_total_committed e = ns_effective_stake e + ns_overflow_amount e /\
  0 <= ns_effective_stake e /\ 0 <= ns_overflow_amount e /\ 0 <= ns_unstake_pending e /\
  ns_overflow_amount e <= Pool.amount_of (pool m) id /\
  ns_effective_stake e = effective_stake m id /\ ns_total_committed e = total_stake m id.
Proof.
  intros Hinv. unfold entry_of, effective_stake, total_stake.
  destruct (stakes m !! id) as [e|] eqn:E; simpl.
  - destruct (inv_entries m Hinv id e E). split_and!; done.
  - pose proof (ol_bounds (pool m) id (inv_pool m Hinv)). simpl in *. split_and!; (done || lia).
Qed.

(** The record written by a successful stake. *)
Definition staked_entry (m : StakingManager) (id : NodeId) (amount : Lux) (now : DateTime)
  : NodeStake :=
  let e := entry_of m id now in
  let total := ns_total_committed e + amount in
  mkNodeStake (Z.min total (per_node_cap (config m)))
    (saturating_sub total (per_node_cap (config m))) total
    (ns_staked_at e) (ns_unstake_requested_at e) (ns_unstake_pending e).

Definition stake_delta (m : StakingManager) (id : NodeId) (amount : Lux) (now : DateTime) : Z :=
  saturating_sub (ns_overflow_amount (staked_entry m id amount now))
    (ns_overflow_amount (entry_of m id now)).

Lemma stake_ok m id amount now :
  mgr_inv m -> 0 < amount -> banned_nodes m !! id = None -> room m id amount ->
  exists p', Pool.ledger_delta (pool m) p' id (stake_delta m id amount now) /\
    stake m id amount now =
      (set_pool (put_stake m id (staked_entry m id amount now)) p',
       Ok (build_stake_info (config m) (staked_entry m id amount now))).
Proof.
  intros Hinv Ha Hban Hroom.
  destruct (entry_of_facts m id now Hinv) as (Hs & He & Ho & Hp & Hb & Heff & Htot).
  pose proof (ol_bounds (pool m) id (inv_pool m Hinv)) as Hbd. simpl in Hbd.
  pose proof (inv_cap m Hinv). unfold room in Hroom. rewrite <-Heff in Hroom.
  unfold stake. rewrite decide_False by lia.
  rewrite decide_False by (rewrite Hban; apply is_Some_None).
  fold (entry_of m id now). unfold checked_add. rewrite decide_True by lia. simpl.
  change (saturating_sub (saturating_sub (ns_total_committed (entry_of m id now) + amount)
            (per_node_cap (config m))) (ns_overflow_amount (entry_of m id now)))
    with (stake_delta m id amount now).
  destruct (decide (stake_delta m id amount now > 0)) as [Hd|Hd].
  - assert (total_overflow (pool m) + stake_delta m id amount now < 2 ^ 64) as Hlt.
    { unfold stake_delta, staked_entry, saturating_sub in *. simpl in *. lia. }
    destruct (@ol_deposit_ok _ pool_ledger (pool m) id (stake_delta m id amount now) now
                (inv_pool m Hinv) ltac:(lia) Hlt) as (p' & Hadd & Hdelta).
    simpl in Hadd. rewrite Hadd. exists p'. split; [done|reflexivity].
  - assert (stake_delta m id amount now = 0) as -> by (unfold stake_delta in *; ulia).
    exists (pool m). split; [apply Pool.ledger_delta_refl, Hinv|reflexivity].
Qed.

Lemma stake_inv m id amount now :
  mgr_inv m -> u64 amount -> room m id amount -> mgr_inv (stake m id amount now).1.
Proof.
  intros Hinv Hu Hroom. destruct (decide (amount = 0)) as [->|Hnz].
  { unfold stake. by rewrite decide_True. }
  destruct (banned_nodes m !! id) eqn:Hban.
  { unfold stake. rewrite decide_False by done. by rewrite decide_True by (by rewrite Hban). }
  destruct (stake_ok m id amount now Hinv) as (p' & Hd & ->); [ulia|done|done|]. simpl.
  destruct (entry_of_facts m id now Hinv) as (Hs & He & Ho & Hp & Hb & Heff & Htot).
  pose proof (ol_bounds (pool m) id (inv_pool m Hinv)). simpl in *. pose proof (inv_cap m Hinv).
  constructor; simpl; [apply Hd|done|].
  apply (entries_frame m id _ p' _ Hinv Hd). unfold room in Hroom.
  constructor; simpl; try (unfold saturating_sub; ulia).
  destruct Hd as (_ & -> & _). unfold stake_delta. simpl. ulia.
Qed.

(** ** request_unstake and complete_unstake *)

(** No earlier unstake request is still in its cooldown. *)
Definition cooled (m : StakingManager) (e : NodeStake) (now : DateTime) : Prop :=
  forall at_, ns_unstake_requested_at e = Some at_ ->
              unstake_cooldown_secs (config m) <= elapsed_secs now at_.

Lemma cooled_remaining m e now :
  (ns_unstake_requested_at e ≫= fun at_ => cooldown_remaining (config m) at_ now) = None
  <-> cooled m e now.
Proof.
  unfold cooled, cooldown_remaining. destruct (ns_unstake_requested_at e) as [t|]; simpl.
  - case_decide; split; try done.
    + intros H'. specialize (H' t eq_refl). lia.
    + intros _ t' [= <-]. lia.
  - by split.
Qed.

Definition unstaked_entry (e : NodeStake) (amount : Lux) (now : DateTime) : NodeStake :=
  let from_overflow := Z.min amount (ns_overflow_amount e) in
  mkNodeStake (ns_effective_stake e - (amount - from_overflow))
    (ns_overflow_amount e - from_overflow) (ns_total_committed e - amount)
    (ns_staked_at e) (Some now) amount.

Definition unstaked_stakes (m : StakingManager) (id : NodeId) (e : NodeStake) (amount : Lux)
    (now : DateTime) : gmap NodeId NodeStake :=
  let stakes' := <[id := unstaked_entry e amount now]> (stakes m) in
  if decide (ns_total_committed e - amount = 0) then delete id stakes' else stakes'.

Lemma request_unstake_ok m id e amount now :
  mgr_inv m -> stakes m !! id = Some e -> 0 < amount <= ns_total_committed e -> cooled m e now ->
  exists p', Pool.ledger_delta (pool m) p' id (- Z.min amount (ns_overflow_amount e)) /\
    request_unstake m id amount now =
      (set_pool (set_stakes m (unstaked_stakes m id e amount now)) p',
       Ok (build_stake_info (config m) (unstaked_entry e amount now))).
Proof.
  intros Hinv E Ha Hcool. destruct (inv_entries m Hinv id e E) as [Hs He Ho Ht Hp Hb].
  unfold request_unstake. rewrite decide_False by lia. rewrite E. simpl.
  apply cooled_remaining in Hcool. rewrite Hcool. rewrite decide_False by lia.
  rewrite (wsub_small 64 amount), (wsub_small 64 (ns_effective_stake e)),
    (wsub_small 64 (ns_overflow_amount e)), (wsub_small 64 (ns_total_committed e)) by ulia.
  unfold unstaked_stakes, unstaked_entry, put_stake, set_pool, set_stakes. simpl.
  destruct (decide (Z.min amount (ns_overflow_amount e) > 0)) as [Hf|Hf].
  - destruct (@ol_withdraw_ok _ pool_ledger (pool m) id (Z.min amount (ns_overflow_amount e)) now
                (inv_pool m Hinv) ltac:(simpl; lia)) as (p' & Hrm & Hd).
    simpl in Hrm. rewrite Hrm. exists p'. split; [done|]. simpl. by case_decide.
  - replace (- Z.min amount (ns_overflow_amount e)) with 0 by lia.
    exists (pool m). split; [apply Pool.ledger_delta_refl, Hinv|]. simpl. by case_decide.
Qed.

(** Every other call is refused and changes nothing. *)
Lemma request_unstake_refused m id amount now :
  mgr_inv m ->
  (forall e, stakes m !! id = Some e -> ~ (0 < amount <= ns_total_committed e /\ cooled m e now)) ->
  0 <= amount -> exists err, request_unstake m id amount now = (m, Err err).
Proof.
  intros Hinv Hno Ha. unfold request_unstake. case_decide; [eauto|].
  destruct (stakes m !! id) as [e|] eqn:E; simpl; [|eauto].
  destruct (_ ≫= _) as [r|] eqn:Hc; [eauto|]. apply cooled_remaining in Hc.
  rewrite decide_True; [eauto|]. destruct (decide (amount <= ns_total_committed e)); [|lia].
  exfalso. apply (Hno e eq_refl). split; [lia|done].
Qed.

(** The two outcomes of [request_unstake]. *)
Lemma request_unstake_cases m id amount now :
  mgr_inv m -> u64 amount ->
  (exists e, stakes m !! id = Some e /\ 0 < amount <= ns_total_committed e /\ cooled m e now) \/
  (exists err, request_unstake m id amount now = (m, Err err)).
Proof.
  intros Hinv Hu. destruct (stakes m !! id) as [e|] eqn:E.
  2: { right. apply request_unstake_refused; [done|by intros e; rewrite E|ulia]. }
  destruct (decide (0 < amount <= ns_total_committed e)) as [Ha|Ha];
  destruct (decide ((ns_unstake_requested_at e ≫=
                       fun at_ => cooldown_remaining (config m) at_ now) = None)) as [Hc|Hc];
    [left; rewrite cooled_remaining in Hc; eauto|right..];
    (apply request_unstake_refused; [done| |ulia]); intros e'; rewrite E; intros [= <-];
    rewrite <-cooled_remaining; tauto.
Qed.

Lemma request_unstake_inv m id amount now :
  mgr_inv m -> u64 amount -> mgr_inv (request_unstake m id amount now).1.
Proof.
  intros Hinv Hu.
  destruct (request_unstake_cases m id amount now Hinv Hu) as [(e & E & Ha & Hc)|[err ->]]; [|done].
  destruct (request_unstake_ok m id e amount now Hinv E Ha Hc) as (p' & Hd & ->).
  destruct (inv_entries m Hinv id e E) as [Hs He Ho Ht Hp Hb]. simpl.
  constructor; simpl; [apply Hd|apply Hinv|]. unfold unstaked_stakes. case_decide.
  - by eapply entries_frame_delete.
  - apply (entries_frame m id _ p' _ Hinv Hd). destruct Hd as (_ & Hamt & _).
    constructor; simpl; lia.
Qed.

Lemma complete_unstake_spec m id now :
  complete_unstake m id now =
  match stakes m !! id with
  | None => (m, Err (NodeNotFound id))
  | Some e =>
    match ns_unstake_requested_at e with
    | None => (m, Err (InvalidAmount "no pending unstake request"))
    | Some at_ =>
      match cooldown_remaining (config m) at_ now with
      | Some r => (m, Err (CooldownActive r))
      | None => (put_stake m id (mkNodeStake (ns_effective_stake e) (ns_overflow_amount e)
                   (ns_total_committed e) (ns_staked_at e) None 0), Ok (ns_unstake_pending e))
      end
    end
  end.
Proof.
  unfold complete_unstake. destruct (stakes m !! id) as [e|]; simpl; [|done].
  by destruct (ns_unstake_requested_at e).
Qed.

Lemma complete_unstake_inv m id now : mgr_inv m -> mgr_inv (complete_unstake m id now).1.
Proof.
  intros Hinv. rewrite complete_unstake_spec.
  destruct (stakes m !! id) as [e|] eqn:E; [|done].
  destruct (ns_unstake_requested_at e); [|done]. destruct (cooldown_remaining _ _ _); [done|].
  destruct (inv_entries m Hinv id e E). simpl. constructor; simpl; [apply Hinv..|].
  apply (entries_frame m id _ (pool m) 0 Hinv); [apply Pool.ledger_delta_refl, Hinv|].
  by constructor.
Qed.

(** ** apply_slash *)

(** A slash result that was built for the amounts the record holds now. *)
Definition slash_matches (e : NodeStake) (r : SlashResult) : Prop :=
  0 <= sr_overflow_slashed r <= ns_overflow_amount e /\
  0 <= se_amount_slashed (sr_event r) - sr_overflow_slashed r <= ns_effective_stake e.

Definition slashed_entry (e : NodeStake) (r : SlashResult) : NodeStake :=
  mkNodeStake
    (ns_effective_stake e - (se_amount_slashed (sr_event r) - sr_overflow_slashed r))
    (ns_overflow_amount e - sr_overflow_slashed r)
    (ns_total_committed e - se_amount_slashed (sr_event r))
    (ns_staked_at e) (ns_unstake_requested_at e) (ns_unstake_pending e).

Definition slashed_stakes (m : StakingManager) (id : NodeId) (e : NodeStake) (r : SlashResult)
  : gmap NodeId NodeStake :=
  let stakes' := <[id := slashed_entry e r]> (stakes m) in
  if decide (ns_total_committed e - se_amount_slashed (sr_event r) = 0)
  then delete id stakes' else stakes'.

Lemma apply_slash_ok m r now e :
  let id := se_node_id (sr_event r) in
  mgr_inv m -> stakes m !! id = Some e -> slash_matches e r ->
  exists p', Pool.ledger_delta (pool m) p' id (- sr_overflow_slashed r) /\
    apply_slash m r now =
      (mkManager (config m) (slashed_stakes m id e r) p'
         (<[id := push_event (record_severity
              (default default_SlashingHistory (slashing_histories m !! id))
              (se_severity (sr_event r))) (sr_event r)]> (slashing_histories m))
         (match se_severity (sr_event r) with
          | Critical => <[id := now]> (banned_nodes m) | _ => banned_nodes m end)
         (staking_activated_at m), Ok tt).
Proof.
  intros id Hinv E [Ho' Hs']. destruct (inv_entries m Hinv id e E) as [Hs He Ho Ht Hp Hb].
  unfold apply_slash. fold id. rewrite E. simpl.
  assert (saturating_sub (se_amount_slashed (sr_event r)) (sr_overflow_slashed r)
          = se_amount_slashed (sr_event r) - sr_overflow_slashed r) as -> by ulia.
  assert (saturating_sub (ns_effective_stake e)
            (se_amount_slashed (sr_event r) - sr_overflow_slashed r)
          = ns_effective_stake e - (se_amount_slashed (sr_event r) - sr_overflow_slashed r))
    as -> by ulia.
  assert (saturating_sub (ns_total_committed e) (se_amount_slashed (sr_event r))
          = ns_total_committed e - se_amount_slashed (sr_event r)) as -> by ulia.
  assert (saturating_sub (ns_overflow_amount e) (sr_overflow_slashed r)
          = ns_overflow_amount e - sr_overflow_slashed r) as -> by ulia.
  unfold slashed_stakes, slashed_entry.
  destruct (decide (sr_overflow_slashed r > 0)) as [Hf|Hf].
  - destruct (@ol_withdraw_ok _ pool_ledger (pool m) id (sr_overflow_slashed r) now
                (inv_pool m Hinv) ltac:(simpl; lia)) as (p' & Hrm & Hd).
    simpl in Hrm. rewrite Hrm. exists p'. split; [done|]. reflexivity.
  - assert (sr_overflow_slashed r = 0) as -> by lia.
    exists (pool m). split; [apply Pool.ledger_delta_refl, Hinv|]. by rewrite !Z.sub_0_r.
Qed.

Lemma apply_slash_inv m r now :
  mgr_inv m ->
  (forall e, stakes m !! se_node_id (sr_event r) = Some e -> slash_matches e r) ->
  mgr_inv (apply_slash m r now).1.
Proof.
  intros Hinv Hm. set (id := se_node_id (sr_event r)) in *.
  destruct (stakes m !! id) as [e|] eqn:E.
  2: { unfold apply_slash. fold id. by rewrite E. }
  destruct (apply_slash_ok m r now e Hinv E (Hm e eq_refl)) as (p' & Hd & ->). simpl.
  destruct (inv_entries m Hinv id e E) as [Hs He Ho Ht Hp Hb].
  destruct (Hm e eq_refl) as [Ho' Hs'].
  constructor; simpl; [apply Hd|apply Hinv|]. unfold slashed_stakes. case_decide.
  - by eapply entries_frame_delete.
  - apply (entries_frame m id _ p' _ Hinv Hd). destruct Hd as (_ & Hamt & _). fold id in Hamt.
    constructor; simpl; lia.
Qed.
End Manager.
