(* ===== verification/StakingSystem.v ===== *)
(** * gratia-staking: the manager as a transition system

    Sequences of public operations of the staking manager: the invariant of every
    reachable state, solvency, the refinement of a plain ledger of accounts, the
    cap on consensus power, bans, and what happens to funds in the unstaking paths. *)

From stdpp Require Import base gmap strings list fin_maps.
From Stdlib Require Import ZArith Lia.
From S2P Require Import Prelude CoreTypes StakingPool StakingSlashing StakingManager.
Import Manager.
Local Open Scope Z_scope.

Module Staking.

(** The mutators of [StakingManager], and the two of the pool behind [pool_mut]. *)
Inductive op :=
| OpStake (id : NodeId) (amount : Lux) (now : DateTime)
| OpRequestUnstake (id : NodeId) (amount : Lux) (now : DateTime)
| OpCompleteUnstake (id : NodeId) (now : DateTime)
| OpSlash (r : SlashResult) (now : DateTime)
| OpUpdateConfig (c : StakingConfig)
| OpCheckActivation (active_miners : Z) (now : DateTime)
| OpAddYield (amount : Lux)
| OpDistributeYield (miners : list NodeId) (now : DateTime).

(** What an operation moves in from, and out to, the nodes' wallets. *)
Record flow := mkFlow { paid_in : Z; paid_out : Z }.

Definition run_op (m : StakingManager) (o : op) : StakingManager * flow :=
  match o with
  | OpStake id amount now =>
    let '(m', r) := stake m id amount now in
    (m', mkFlow (if r is Ok _ then amount else 0) 0)
  | OpRequestUnstake id amount now => ((request_unstake m id amount now).1, mkFlow 0 0)
  | OpCompleteUnstake id now =>
    let '(m', r) := complete_unstake m id now in
    (m', mkFlow 0 (if r is Ok released then released else 0))
  | OpSlash r now => ((apply_slash m r now).1, mkFlow 0 0)
  | OpUpdateConfig c => ((update_config m c).1, mkFlow 0 0)
  | OpCheckActivation n now => ((check_activation m n now).1, mkFlow 0 0)
  | OpAddYield amount => (set_pool m (Pool.add_yield (pool m) amount), mkFlow 0 0)
  | OpDistributeYield miners now =>
    (set_pool m (Pool.distribute_pool_yield (pool m) miners now).1, mkFlow 0 0)
  end.

(** What the caller guarantees: machine-width arguments, a pool that has room, slash
    results built for the current record, distinct miners. *)
Definition op_ok (m : StakingManager) (o : op) : Prop :=
  match o with
  | OpStake id amount _ => u64 amount /\ room m id amount
  | OpRequestUnstake _ amount _ => u64 amount
  | OpSlash r _ =>
    forall e, stakes m !! se_node_id (sr_event r) = Some e -> slash_matches e r
  | OpUpdateConfig c => 0 <= per_node_cap c
  | OpAddYield amount => u64 amount
  | OpDistributeYield miners _ => NoDup miners
  | OpCompleteUnstake _ _ | OpCheckActivation _ _ => True
  end.

Definition initial (m : StakingManager) : Prop :=
  exists c, 0 <= per_node_cap c /\ m = new c.

Definition step (m m' : StakingManager) : Prop :=
  exists o, op_ok m o /\ m' = (run_op m o).1.

(** ** The invariant *)

Lemma set_pool_inv m p :
  mgr_inv m -> Pool.pool_wf p -> contributions p = contributions (pool m) -> mgr_inv (set_pool m p).
Proof.
  intros Hinv Hwf Hc. constructor; simpl; [done|apply Hinv|].
  intros id e E. destruct (inv_entries m Hinv id e E). constructor; try done.
  unfold Pool.amount_of in *. by rewrite Hc.
Qed.

Lemma run_op_inv m o : mgr_inv m -> op_ok m o -> mgr_inv (run_op m o).1.
Proof.
  intros Hinv Hok. destruct o; simpl in *.
  - pose proof (stake_inv m id amount now Hinv (proj1 Hok) (proj2 Hok)).
    by destruct (stake m id amount now).
  - by apply request_unstake_inv.
  - pose proof (complete_unstake_inv m id now Hinv). by destruct (complete_unstake m id now).
  - by apply apply_slash_inv.
  - unfold update_config. repeat case_decide; simpl; try done.
    destruct Hinv. by constructor.
  - unfold check_activation. repeat case_decide; simpl; try done.
    destruct Hinv. by constructor.
  - apply set_pool_inv; [done| |done]. apply Pool.add_yield_wf; [apply Hinv|ulia].
  - destruct (Pool.distribute_keeps_ledger (pool m) miners now (inv_pool m Hinv) Hok) as (? & ? & _).
    by apply set_pool_inv.
Qed.

#[export] Instance mgr_inv_step : StepInvariant initial step mgr_inv.
Proof.
  constructor.
  - intros m (c & Hc & ->). by apply new_inv.
  - intros m m' Hinv (o & Hok & ->). by apply run_op_inv.
Qed.

(** ** Solvency *)

(** Everything the manager still owes its nodes: commitments and pending releases. *)
Definition owed (m : StakingManager) : Z :=
  map_sum (fun e => ns_total_committed e + ns_unstake_pending e) (stakes m).

Lemma owed_insert m id e :
  map_sum (fun e => ns_total_committed e + ns_unstake_pending e) (<[id := e]> (stakes m))
  = owed m + (ns_total_committed e + ns_unstake_pending e)
    - from_option (fun e => ns_total_committed e + ns_unstake_pending e) 0 (stakes m !! id).
Proof. rewrite map_sum_insert. unfold owed. lia. Qed.

Lemma owed_delete m id e :
  map_sum (fun e => ns_total_committed e + ns_unstake_pending e) (delete id (<[id := e]> (stakes m)))
  = owed m - from_option (fun e => ns_total_committed e + ns_unstake_pending e) 0 (stakes m !! id).
Proof. rewrite delete_insert_eq, map_sum_delete. unfold owed. done. Qed.

Lemma stake_cases m id amount now :
  mgr_inv m -> u64 amount -> room m id amount ->
  (exists p', Pool.ledger_delta (pool m) p' id (stake_delta m id amount now) /\ 0 < amount /\
     banned_nodes m !! id = None /\
     stake m id amount now = (set_pool (put_stake m id (staked_entry m id amount now)) p',
       Ok (build_stake_info (config m) (staked_entry m id amount now)))) \/
  (exists err, stake m id amount now = (m, Err err)).
Proof.
  intros Hinv Hu Hroom. destruct (decide (amount = 0)) as [->|Hnz].
  { right. unfold stake. rewrite decide_True by done. eauto. }
  destruct (banned_nodes m !! id) eqn:Hban.
  { right. unfold stake. rewrite decide_False by done.
    rewrite decide_True by (by rewrite Hban). eauto. }
  left. destruct (stake_ok m id amount now Hinv) as (p' & Hd & ->); [ulia|done|done|].
  exists p'. split_and!; try done. ulia.
Qed.

Lemma run_op_solvent m o :
  mgr_inv m -> op_ok m o ->
  owed (run_op m o).1 + paid_out (run_op m o).2 <= owed m + paid_in (run_op m o).2.
Proof.
  intros Hinv Hok. destruct o; simpl in *.
  - destruct Hok as [Hu Hroom].
    destruct (stake_cases m id amount now Hinv Hu Hroom) as [(p' & _ & _ & _ & ->)|[err ->]];
      simpl; [|lia].
    unfold owed at 1. simpl. rewrite owed_insert. simpl. unfold entry_of.
    destruct (stakes m !! id); simpl; lia.
  - destruct (request_unstake_cases m id amount now Hinv Hok) as [(e & E & Ha & Hc)|[err ->]];
      simpl; [|lia].
    destruct (request_unstake_ok m id e amount now Hinv E Ha Hc) as (p' & _ & ->).
    destruct (inv_entries m Hinv id e E). unfold owed at 1. simpl. unfold unstaked_stakes.
    case_decide; [rewrite owed_delete|rewrite owed_insert]; rewrite E; simpl; lia.
  - rewrite complete_unstake_spec. destruct (stakes m !! id) as [e|] eqn:E; simpl; [|lia].
    destruct (ns_unstake_requested_at e); simpl; [|lia].
    destruct (cooldown_remaining _ _ _); simpl; [lia|].
    unfold owed at 1. simpl. rewrite owed_insert, E. simpl. lia.
  - destruct (stakes m !! se_node_id (sr_event r)) as [e|] eqn:E.
    2: { unfold apply_slash. rewrite E. simpl. lia. }
    destruct (apply_slash_ok m r now e Hinv E (Hok e eq_refl)) as (p' & _ & ->).
    destruct (inv_entries m Hinv _ e E). destruct (Hok e eq_refl). unfold owed at 1. simpl.
    unfold slashed_stakes. case_decide; [rewrite owed_delete|rewrite owed_insert]; rewrite E; simpl; lia.
  - unfold update_config. repeat case_decide; unfold owed; simpl; lia.
  - unfold check_activation. repeat case_decide; unfold owed; simpl; lia.
  - unfold owed; simpl; lia.
  - unfold owed; simpl; lia.
Qed.

(** Running a sequence of operations, accumulating the flows. *)
Fixpoint run (m : StakingManager) (l : list op) : StakingManager * flow :=
  match l with
  | [] => (m, mkFlow 0 0)
  | o :: l =>
    let '(m1, f1) := run_op m o in
    let '(m2, f2) := run m1 l in
    (m2, mkFlow (paid_in f1 + paid_in f2) (paid_out f1 + paid_out f2))
  end.

Fixpoint run_ok (m : StakingManager) (l : list op) : Prop :=
  match l with [] => True | o :: l => op_ok m o /\ run_ok (run_op m o).1 l end.

Lemma run_solvent m l :
  mgr_inv m -> run_ok m l ->
  mgr_inv (run m l).1 /\ owed (run m l).1 + paid_out (run m l).2 <= owed m + paid_in (run m l).2.
Proof.
  revert m. induction l as [|o l IH]; intros m Hinv Hok; simpl in *; [split; [done|lia]|].
  destruct Hok as [Ho Hl]. pose proof (run_op_inv m o Hinv Ho) as Hi.
  pose proof (run_op_solvent m o Hinv Ho) as Hs.
  destruct (run_op m o) as [m1 f1]. simpl in *. destruct (IH m1 Hi Hl) as [? ?].
  destruct (run m1 l) as [m2 f2]. simpl in *. split; [done|lia].
Qed.

(** ** The abstract specification: a ledger of accounts

    What a node has committed and what it waits for, the banned nodes and the cooldown.
    There is no pool and no split of a commitment.  [spec_op] says for every operation
    whether it succeeds, what it makes of the ledger and what it moves from and to the
    wallets. *)

Record account := mkAccount { committed : Z; waiting : option (DateTime * Z) }.

Record ledger := mkLedger {
  accounts : gmap NodeId account;
  bans : gset NodeId;
  cooldown : Z
}.

(** The account gets the balance [c], and is closed at zero. *)
Definition with_account (L : ledger) (id : NodeId) (c : Z) (w : option (DateTime * Z)) : ledger :=
  mkLedger (if decide (c = 0) then delete id (accounts L)
            else <[id := mkAccount c w]> (accounts L)) (bans L) (cooldown L).

Definition cooling (L : ledger) (x : account) (now : DateTime) : bool :=
  match waiting x with
  | Some (since, _) => bool_decide (elapsed_secs now since < cooldown L)
  | None => false
  end.

Definition no_flow : flow := mkFlow 0 0.

(** The successor, whether the operation succeeds, and the money it moves. *)
Definition spec_op (L : ledger) (o : op) : ledger * (bool * flow) :=
  match o with
  | OpStake id a _ =>
      if decide (a = 0 \/ id ∈ bans L) then (L, (false, no_flow))
      else let x := default (mkAccount 0 None) (accounts L !! id) in
           (with_account L id (committed x + a) (waiting x), (true, mkFlow a 0))
  | OpRequestUnstake id a now =>
      match accounts L !! id with
      | Some x =>
          if bool_decide (0 < a <= committed x) && negb (cooling L x now)
          then (with_account L id (committed x - a) (Some (now, a)), (true, no_flow))
          else (L, (false, no_flow))
      | None => (L, (false, no_flow))
      end
  | OpCompleteUnstake id now =>
      match accounts L !! id with
      | Some (mkAccount c (Some (since, a))) =>
          if decide (elapsed_secs now since < cooldown L) then (L, (false, no_flow))
          else (with_account L id c None, (true, mkFlow 0 a))
      | _ => (L, (false, no_flow))
      end
  | OpSlash r _ =>
      let id := se_node_id (sr_event r) in
      match accounts L !! id with
      | Some x =>
          let L' := with_account L id (committed x - se_amount_slashed (sr_event r)) (waiting x) in
          (mkLedger (accounts L')
             (if decide (se_severity (sr_event r) = Critical) then {[id]} ∪ bans L else bans L)
             (cooldown L), (true, no_flow))
      | None => (L, (false, no_flow))
      end
  | OpUpdateConfig c =>
      if decide (per_node_cap c = 0 \/ per_node_cap c < minimum_stake c) then (L, (false, no_flow))
      else (mkLedger (accounts L) (bans L) (unstake_cooldown_secs c), (true, no_flow))
  | OpCheckActivation _ _ | OpAddYield _ | OpDistributeYield _ _ => (L, (true, no_flow))
  end.

(** Whether the call of the manager returns [Ok]. *)
Definition succeeds (m : StakingManager) (o : op) : bool :=
  match o with
  | OpStake id a now => is_ok (stake m id a now).2
  | OpRequestUnstake id a now => is_ok (request_unstake m id a now).2
  | OpCompleteUnstake id now => is_ok (complete_unstake m id now).2
  | OpSlash r now => is_ok (apply_slash m r now).2
  | OpUpdateConfig c => is_ok (update_config m c).2
  | OpCheckActivation _ _ | OpAddYield _ | OpDistributeYield _ _ => true
  end.

(** The account a record stands for, and the ledger a manager stands for. *)
Definition account_of (e : NodeStake) : account :=
  mkAccount (ns_total_committed e)
    ((fun at_ => (at_, ns_unstake_pending e)) <$> ns_unstake_requested_at e).

Definition ledger_of (m : StakingManager) : ledger :=
  mkLedger (account_of <$> stakes m) (dom (banned_nodes m)) (unstake_cooldown_secs (config m)).

Lemma account_lookup m id : accounts (ledger_of m) !! id = account_of <$> stakes m !! id.
Proof. apply lookup_fmap. Qed.

(** Writing a record whose commitment is [c] is [with_account]. *)
Lemma put_account_of m id e c :
  ns_total_committed e = c ->
  account_of <$> (if decide (c = 0) then delete id (<[id := e]> (stakes m))
                  else <[id := e]> (stakes m))
  = accounts (with_account (ledger_of m) id c (waiting (account_of e))).
Proof.
  intros <-. unfold with_account. simpl. case_decide.
  - by rewrite fmap_delete, fmap_insert, delete_insert_eq.
  - by rewrite fmap_insert.
Qed.

Lemma put_account_open m id e :
  0 < ns_total_committed e ->
  account_of <$> <[id := e]> (stakes m)
  = accounts (with_account (ledger_of m) id (ns_total_committed e) (waiting (account_of e))).
Proof. intros. rewrite <-put_account_of by done. by rewrite decide_False by lia. Qed.

Lemma ledger_eq L L' :
  accounts L = accounts L' -> bans L = bans L' -> cooldown L = cooldown L' -> L = L'.
Proof. destruct L, L'. by intros; simplify_eq/=. Qed.

Lemma cooling_cooled m e now :
  cooling (ledger_of m) (account_of e) now = false <-> cooled m e now.
Proof.
  unfold cooling, cooled. simpl. destruct (ns_unstake_requested_at e) as [t|]; simpl.
  - rewrite bool_decide_eq_false. split; [intros ? ? [= <-]; lia|intros Hc; specialize (Hc t eq_refl); lia].
  - by split.
Qed.

Lemma stake_refines m id a now :
  mgr_inv m -> u64 a -> room m id a ->
  spec_op (ledger_of m) (OpStake id a now)
  = (ledger_of (run_op m (OpStake id a now)).1,
     (succeeds m (OpStake id a now), (run_op m (OpStake id a now)).2)).
Proof.
  intros Hinv Hu Hroom. simpl.
  destruct (decide (a = 0 \/ id ∈ dom (banned_nodes m))) as [Hno|Hyes].
  - assert (exists err, stake m id a now = (m, Err err)) as [err ->]; [|done].
    unfold stake. case_decide; [eauto|]. rewrite decide_True; [eauto|].
    destruct Hno as [|Hb]; [done|]. by apply elem_of_dom.
  - destruct (stake_ok m id a now Hinv) as (p' & _ & ->); [ulia| |done|].
    { apply not_elem_of_dom. tauto. }
    destruct (entry_of_facts m id now Hinv) as (Hs & He & Ho & _).
    unfold ledger_of at 2. simpl. rewrite put_account_open by (simpl; ulia).
    rewrite lookup_fmap. unfold staked_entry, entry_of. by destruct (stakes m !! id).
Qed.

Lemma request_refines m id a now :
  mgr_inv m -> u64 a ->
  spec_op (ledger_of m) (OpRequestUnstake id a now)
  = (ledger_of (request_unstake m id a now).1,
     (is_ok (request_unstake m id a now).2, no_flow)).
Proof.
  intros Hinv Hu. cbn [spec_op]. rewrite account_lookup.
  assert ((forall e, stakes m !! id = Some e -> ~ (0 < a <= ns_total_committed e /\ cooled m e now)) ->
    (ledger_of m, (false, no_flow)) = (ledger_of (request_unstake m id a now).1,
     (is_ok (request_unstake m id a now).2, no_flow))) as Hno.
  { intros Hn. destruct (request_unstake_refused m id a now Hinv Hn) as [err ->]; [ulia|done]. }
  destruct (stakes m !! id) as [e|] eqn:E; simpl; [|by apply Hno].
  case_bool_decide as Ha; simpl; [|apply Hno; intros ? [= <-]; tauto].
  destruct (cooling (ledger_of m) (account_of e) now) eqn:Hc; simpl.
  { apply Hno. intros ? [= <-]. rewrite <-cooling_cooled, Hc. by intros [_ ?]. }
  apply cooling_cooled in Hc.
  destruct (request_unstake_ok m id e a now Hinv E Ha Hc) as (p' & _ & ->).
  unfold ledger_of at 2. simpl. unfold unstaked_stakes. by rewrite put_account_of.
Qed.

Lemma complete_refines m id now :
  mgr_inv m ->
  spec_op (ledger_of m) (OpCompleteUnstake id now)
  = (ledger_of (run_op m (OpCompleteUnstake id now)).1,
     (succeeds m (OpCompleteUnstake id now), (run_op m (OpCompleteUnstake id now)).2)).
Proof.
  intros Hinv. cbn [spec_op run_op succeeds]. rewrite account_lookup, complete_unstake_spec.
  destruct (stakes m !! id) as [e|] eqn:E; simpl; [|done].
  destruct (ns_unstake_requested_at e) as [t|] eqn:Ht; simpl; [|done].
  unfold cooldown_remaining. case_decide; simpl; [done|].
  destruct (inv_entries m Hinv id e E). unfold ledger_of at 2. simpl.
  by rewrite put_account_open by (simpl; lia).
Qed.

Lemma slash_refines m r now :
  mgr_inv m ->
  (forall e, stakes m !! se_node_id (sr_event r) = Some e -> slash_matches e r) ->
  spec_op (ledger_of m) (OpSlash r now)
  = (ledger_of (apply_slash m r now).1, (is_ok (apply_slash m r now).2, no_flow)).
Proof.
  intros Hinv Hok. cbn [spec_op]. rewrite account_lookup.
  destruct (stakes m !! se_node_id (sr_event r)) as [e|] eqn:E.
  2: { unfold apply_slash. by rewrite E. }
  destruct (apply_slash_ok m r now e Hinv E (Hok e eq_refl)) as (p' & _ & ->).
  cbn [fst snd is_ok fmap option_fmap option_map]. f_equal.
  symmetry. apply ledger_eq; cbn [stakes banned_nodes config ledger_of accounts bans].
  - exact (put_account_of m _ (slashed_entry e r) _ eq_refl).
  - by destruct (se_severity (sr_event r)); rewrite ?dom_insert_L.
  - done.
Qed.

(** Every operation of the manager is its specification on the ledger. *)
Lemma run_op_refines m o :
  mgr_inv m -> op_ok m o ->
  spec_op (ledger_of m) o = (ledger_of (run_op m o).1, (succeeds m o, (run_op m o).2)).
Proof.
  intros Hinv Hok. destruct o; cbn [op_ok] in Hok; try reflexivity.
  - destruct Hok. by apply stake_refines.
  - by apply request_refines.
  - by apply complete_refines.
  - by apply slash_refines.
  - simpl. unfold update_config. repeat case_decide; simpl; try tauto; done.
  - simpl. unfold check_activation. by repeat case_decide.
Qed.

(** The specification of a sequence of operations, with the answers. *)
Fixpoint spec_run (L : ledger) (l : list op) : ledger * (list bool * flow) :=
  match l with
  | [] => (L, ([], no_flow))
  | o :: l =>
    let '(L1, (b, f1)) := spec_op L o in
    let '(L2, (bs, f2)) := spec_run L1 l in
    (L2, (b :: bs, mkFlow (paid_in f1 + paid_in f2) (paid_out f1 + paid_out f2)))
  end.

Fixpoint answers (m : StakingManager) (l : list op) : list bool :=
  match l with [] => [] | o :: l => succeeds m o :: answers (run_op m o).1 l end.

Lemma run_refines m l :
  mgr_inv m -> run_ok m l ->
  spec_run (ledger_of m) l = (ledger_of (run m l).1, (answers m l, (run m l).2)).
Proof.
  revert m. induction l as [|o l IH]; intros m Hinv Hok; cbn [spec_run run answers run_ok] in *;
    [done|].
  destruct Hok as [Ho Hl]. rewrite run_op_refines by done.
  pose proof (run_op_inv m o Hinv Ho) as Hi. specialize (IH _ Hi Hl).
  destruct (run_op m o) as [m1 f1]. simpl in *. rewrite IH. by destruct (run m1 l).
Qed.

(** ** The canonical split

    Without slashing and configuration changes, the ledger determines the rest of
    the records and of the pool: the effective part is the commitment up to the cap,
    and the pool holds exactly the excess. *)

Definition plain (o : op) : Prop :=
  match o with OpSlash _ _ | OpUpdateConfig _ => False | _ => True end.

Definition canonical (m : StakingManager) : Prop :=
  forall id,
    match stakes m !! id with
    | Some e =>
      ns_effective_stake e = Z.min (ns_total_committed e) (per_node_cap (config m)) /\
      ns_overflow_amount e = saturating_sub (ns_total_committed e) (per_node_cap (config m)) /\
      Pool.amount_of (pool m) id = ns_overflow_amount e
    | None => Pool.amount_of (pool m) id = 0
    end.

(** Writing one record, whose pool amount moved by [d], keeps the other nodes canonical. *)
Lemma canonical_frame m id p' d stakes' :
  canonical m -> Pool.ledger_delta (pool m) p' id d ->
  (forall j, j <> id -> stakes' !! j = stakes m !! j) ->
  match stakes' !! id with
  | Some e =>
    ns_effective_stake e = Z.min (ns_total_committed e) (per_node_cap (config m)) /\
    ns_overflow_amount e = saturating_sub (ns_total_committed e) (per_node_cap (config m)) /\
    Pool.amount_of (pool m) id + d = ns_overflow_amount e
  | None => Pool.amount_of (pool m) id + d = 0
  end -> canonical (set_pool (set_stakes m stakes') p').
Proof.
  intros Hc (_ & Hid & Hj & _) Hst He j. simpl. destruct (decide (j = id)) as [->|Hne].
  - destruct (stakes' !! id); rewrite Hid; done.
  - rewrite Hst, Hj by done. apply (Hc j).
Qed.

Lemma run_op_canonical m o :
  mgr_inv m -> op_ok m o -> plain o -> canonical m -> canonical (run_op m o).1.
Proof.
  intros Hinv Hok Hpl Hc. pose proof (inv_cap m Hinv). destruct o; simpl in *; try done.
  - destruct Hok as [Hu Hroom].
    destruct (stake_cases m id amount now Hinv Hu Hroom) as [(p' & Hd & Ha & _ & ->)|[err ->]];
      simpl; [|done].
    apply (canonical_frame m id p' _ _ Hc Hd); [intros; by rewrite lookup_insert_ne|].
    rewrite lookup_insert_eq. specialize (Hc id). unfold stake_delta. simpl. unfold entry_of.
    destruct (stakes m !! id) as [e|]; simpl in *; split_and!; ulia.
  - destruct (request_unstake_cases m id amount now Hinv Hok) as [(e & E & Ha & Hco)|[err ->]];
      simpl; [|done].
    destruct (request_unstake_ok m id e amount now Hinv E Ha Hco) as (p' & Hd & ->). simpl.
    destruct (inv_entries m Hinv id e E).
    assert (forall j, j <> id -> unstaked_stakes m id e amount now !! j = stakes m !! j) as Hj.
    { intros j Hj. unfold unstaked_stakes.
      case_decide; rewrite ?lookup_delete_ne, ?lookup_insert_ne by done; done. }
    apply (canonical_frame m id p' _ _ Hc Hd Hj). specialize (Hc id). rewrite E in Hc.
    unfold unstaked_stakes. case_decide;
      [rewrite lookup_delete_eq|rewrite lookup_insert_eq; simpl]; ulia.
  - rewrite complete_unstake_spec. destruct (stakes m !! id) as [e|] eqn:E; simpl; [|done].
    destruct (ns_unstake_requested_at e); simpl; [|done].
    destruct (cooldown_remaining _ _ _); simpl; [done|].
    intros j. simpl. specialize (Hc j). destruct (decide (j = id)) as [->|Hne].
    + rewrite lookup_insert_eq. simpl. by rewrite E in Hc.
    + by rewrite lookup_insert_ne.
  - unfold check_activation. repeat case_decide; done.
  - destruct (Pool.distribute_keeps_ledger (pool m) miners now (inv_pool m Hinv) Hok)
      as (_ & Hk & _).
    intros j. specialize (Hc j). simpl. unfold Pool.amount_of in *. by rewrite Hk.
Qed.

Lemma run_canonical m l :
  mgr_inv m -> run_ok m l -> Forall plain l -> canonical m -> canonical (run m l).1.
Proof.
  revert m. induction l as [|o l IH]; intros m Hinv Hok Hpl Hc; simpl in *; [done|].
  destruct Hok as [Ho Hl]. apply Forall_cons in Hpl as [Hp Hpl].
  pose proof (run_op_canonical m o Hinv Ho Hp Hc). pose proof (run_op_inv m o Hinv Ho).
  specialize (IH (run_op m o).1). destruct (run_op m o) as [m1 f1]. simpl in *.
  specialize (IH ltac:(done) Hl Hpl ltac:(done)). by destruct (run m1 l).
Qed.

(** ** The cap on consensus power *)

Definition keeps_config (o : op) : Prop :=
  match o with OpUpdateConfig _ => False | _ => True end.

Definition capped (m : StakingManager) : Prop :=
  forall id e, stakes m !! id = Some e -> ns_effective_stake e <= per_node_cap (config m).

Lemma capped_insert m id e :
  capped m -> ns_effective_stake e <= per_node_cap (config m) ->
  forall j x, <[id := e]> (stakes m) !! j = Some x ->
              ns_effective_stake x <= per_node_cap (config m).
Proof. intros Hc He j x Hx. apply lookup_insert_Some in Hx as [[_ <-]|[_ Hx]]; eauto. Qed.

Lemma capped_delete m id e :
  capped m -> forall j x, delete id (<[id := e]> (stakes m)) !! j = Some x ->
                          ns_effective_stake x <= per_node_cap (config m).
Proof. intros Hc j x. rewrite delete_insert_eq, lookup_delete_Some. naive_solver. Qed.

Lemma run_op_capped m o :
  mgr_inv m -> op_ok m o -> keeps_config o -> capped m ->
  capped (run_op m o).1 /\ config (run_op m o).1 = config m.
Proof.
  intros Hinv Hok Hk Hc. destruct o; simpl in *; try done.
  - destruct Hok as [Hu Hroom].
    destruct (stake_cases m id amount now Hinv Hu Hroom) as [(p' & _ & _ & _ & ->)|[err ->]];
      simpl; [|done].
    split; [|done]. intros j x. simpl. apply capped_insert; [done|simpl; lia].
  - destruct (request_unstake_cases m id amount now Hinv Hok) as [(e & E & Ha & Hco)|[err ->]];
      simpl; [|done].
    destruct (request_unstake_ok m id e amount now Hinv E Ha Hco) as (p' & _ & ->). simpl.
    split; [|done]. intros j x. simpl. unfold unstaked_stakes.
    case_decide; [by apply capped_delete|]. apply capped_insert; [done|].
    specialize (Hc id e E). simpl. lia.
  - rewrite complete_unstake_spec. destruct (stakes m !! id) as [e|] eqn:E; simpl; [|done].
    destruct (ns_unstake_requested_at e); simpl; [|done].
    destruct (cooldown_remaining _ _ _); simpl; [done|].
    split; [|done]. intros j x. simpl. apply capped_insert; [done|]. apply (Hc id e E).
  - destruct (stakes m !! se_node_id (sr_event r)) as [e|] eqn:E.
    2: { unfold apply_slash. by rewrite E. }
    destruct (apply_slash_ok m r now e Hinv E (Hok e eq_refl)) as (p' & _ & ->).
    destruct (Hok e eq_refl). simpl. split; [|done]. intros j x. simpl. unfold slashed_stakes.
    case_decide; [by apply capped_delete|]. apply capped_insert; [done|].
    specialize (Hc _ e E). simpl. lia.
  - unfold check_activation. repeat case_decide; done.
Qed.

Lemma run_capped m l :
  mgr_inv m -> run_ok m l -> Forall keeps_config l -> capped m ->
  capped (run m l).1 /\ config (run m l).1 = config m.
Proof.
  revert m. induction l as [|o l IH]; intros m Hinv Hok Hk Hc; simpl in *; [done|].
  destruct Hok as [Ho Hl]. apply Forall_cons in Hk as [Hp Hk].
  destruct (run_op_capped m o Hinv Ho Hp Hc) as [? Heq]. pose proof (run_op_inv m o Hinv Ho).
  specialize (IH (run_op m o).1). destruct (run_op m o) as [m1 f1]. simpl in *.
  specialize (IH ltac:(done) Hl Hk ltac:(done)). rewrite Heq in IH. by destruct (run m1 l).
Qed.

(** ** Bans *)

Lemma run_op_banned m o id :
  is_Some (banned_nodes m !! id) -> is_Some (banned_nodes (run_op m o).1 !! id).
Proof.
  intros Hb. destruct o; simpl.
  - unfold stake. repeat case_match; simplify_eq/=; done.
  - unfold request_unstake. repeat case_match; simplify_eq/=; done.
  - unfold complete_unstake. repeat case_match; simplify_eq/=; done.
  - unfold apply_slash. repeat case_match; simplify_eq/=; try done;
      (apply lookup_insert_is_Some'; tauto).
  - unfold update_config. repeat case_match; done.
  - unfold check_activation. repeat case_match; done.
  - done.
  - done.
Qed.

Lemma run_banned m l id :
  is_Some (banned_nodes m !! id) -> is_Some (banned_nodes (run m l).1 !! id).
Proof.
  revert m. induction l as [|o l IH]; intros m Hb; simpl; [done|].
  pose proof (run_op_banned m o id Hb). destruct (run_op m o) as [m1 f1]. simpl in *.
  specialize (IH m1 ltac:(done)). by destruct (run m1 l).
Qed.

(** ** Example runs *)

Definition alice : NodeId := [1].
Definition example_config : StakingConfig := mkStakingConfig 0 50 1000 60 1000 100 1000.

(** Alice commits 1500 over a cap of 1000, then withdraws 700 after 10 s and collects
    it once the 100 s cooldown is over. *)
Definition example_run : list op :=
  [OpStake alice 1500 0; OpRequestUnstake alice 700 (10 * NANOS);
   OpCompleteUnstake alice (110 * NANOS)].

Lemma example_run_ok : run_ok (new example_config) example_run.
Proof. vm_compute. repeat split; try congruence. Qed.

(** ** Properties *)

(** C1: In every state reachable through any sequence of staking operations, slashes,
    configuration changes and yield rounds, each node's commitment is the sum of its
    effective and overflow parts and fits in a [u64], the pool total is the sum of its
    contributions, and every node's overflow is backed by the pool. *)
Theorem staking_invariant m : reachable initial step m -> mgr_inv m.
Proof. apply reachable_invariant, _. Qed.

Lemma staking_invariant_witness :
  mgr_inv (stake (new example_config) alice 1500 0).1.
Proof.
  apply staking_invariant.
  apply (reachable_step _ _ (new example_config)).
  - apply reachable_init. exists example_config. split; [vm_compute; congruence|done].
  - exists (OpStake alice 1500 0). split; [|reflexivity].
    vm_compute. repeat split; congruence.
Defined.

(** C17: The manager is solvent: along any run, what it has released plus what it still
    owes (commitments and pending releases) never exceeds what was staked. *)
Theorem staking_solvent c l :
  0 <= per_node_cap c -> run_ok (new c) l ->
  owed (run (new c) l).1 + paid_out (run (new c) l).2 <= paid_in (run (new c) l).2 /\
  0 <= owed (run (new c) l).1.
Proof.
  intros Hc Hok. destruct (run_solvent (new c) l (new_inv c Hc) Hok) as [Hinv Hs].
  split; [exact Hs|]. unfold owed. apply map_sum_nonneg. intros id e E.
  destruct (inv_entries _ Hinv id e E). lia.
Qed.

Lemma staking_solvent_witness :
  owed (run (new example_config) example_run).1 + 700 <= 1500 /\
  paid_out (run (new example_config) example_run).2 = 700.
Proof.
  split; [|vm_compute; reflexivity].
  apply (staking_solvent example_config example_run); [vm_compute; congruence|].
  apply example_run_ok.
Defined.

(** C23: Refinement of a plain ledger: along any run from a new manager, the answers, the
    payments and the accounts are those of [spec_run].  A stake succeeds unless the amount
    is zero or the node banned, and adds exactly its amount to the account of its node; a
    withdrawal succeeds exactly if it is covered and no earlier one is cooling down, and
    moves exactly its amount from the account to the waiting amount; a release pays exactly
    the waiting amount once the cooldown is over; a slash takes exactly its amount and a
    critical one bans the node; no operation touches the account of another node, and the
    machine subtractions of the source never wrap. *)
Theorem staking_refines_ledger c l :
  0 <= per_node_cap c -> run_ok (new c) l ->
  spec_run (mkLedger ∅ ∅ (unstake_cooldown_secs c)) l
  = (ledger_of (run (new c) l).1, (answers (new c) l, (run (new c) l).2)).
Proof.
  intros Hc Hok. rewrite <-run_refines; [|by apply new_inv|done].
  unfold ledger_of. simpl. by rewrite fmap_empty, dom_empty_L.
Qed.

Lemma staking_refines_ledger_witness :
  accounts (ledger_of (run (new example_config) example_run).1) = {[alice := mkAccount 800 None]}
  /\ answers (new example_config) example_run = [true; true; true].
Proof.
  pose proof (staking_refines_ledger example_config example_run
                ltac:(vm_compute; congruence) example_run_ok) as H.
  split.
  - refine (eq_trans (f_equal (fun x => accounts x.1) (eq_sym H)) _). vm_compute. reflexivity.
  - refine (eq_trans (f_equal (fun x => x.2.1) (eq_sym H)) _). vm_compute. reflexivity.
Defined.

(** Absent slashes and configuration changes, the split between consensus stake and
    pool is a function of the commitment: effective stake is the commitment up to the
    cap, and the pool holds exactly the excess of each node, nothing for others. *)
Theorem stake_split_canonical c l :
  0 <= per_node_cap c -> run_ok (new c) l -> Forall plain l ->
  canonical (run (new c) l).1.
Proof.
  intros Hc Hok Hpl. apply run_canonical; [by apply new_inv|done|done|].
  intros id. simpl. by rewrite lookup_empty.
Qed.

Lemma stake_split_canonical_witness :
  canonical (run (new example_config) example_run).1.
Proof.
  apply stake_split_canonical; [vm_compute; congruence|apply example_run_ok|].
  repeat constructor.
Defined.

(** Consensus power is capped: as long as governance does not change the cap, no
    sequence of stakes, unstakes, slashes and yield rounds gives a node an effective
    stake above the per-node cap (or below zero). *)
Theorem effective_stake_capped c l id :
  0 <= per_node_cap c -> run_ok (new c) l -> Forall keeps_config l ->
  0 <= effective_stake (run (new c) l).1 id <= per_node_cap c.
Proof.
  intros Hc Hok Hk. pose proof (new_inv c Hc) as Hinv.
  destruct (run_capped (new c) l Hinv Hok Hk) as [Hcap Hcfg].
  { intros j e E. simpl in E. by rewrite lookup_empty in E. }
  destruct (run_solvent (new c) l Hinv Hok) as [Hinv' _].
  unfold effective_stake. destruct (stakes _ !! id) as [e|] eqn:E; simpl; [|lia].
  specialize (Hcap id e E). rewrite Hcfg in Hcap. destruct (inv_entries _ Hinv' id e E).
  simpl in Hcap. lia.
Qed.

Lemma effective_stake_capped_witness :
  0 <= effective_stake (run (new example_config) example_run).1 alice <= 1000 /\
  effective_stake (run (new example_config) example_run).1 alice = 800.
Proof.
  split; [|vm_compute; reflexivity].
  apply (effective_stake_capped example_config example_run alice);
    [vm_compute; congruence|apply example_run_ok|repeat constructor].
Defined.

(** A partial unstake round trip: the request is accepted, the release is refused with
    the exact remaining time until the cooldown is over, and from then on it pays
    exactly the requested amount and leaves a record without a pending request. *)
Theorem partial_unstake_roundtrip m id e amount now :
  mgr_inv m -> stakes m !! id = Some e -> 0 < amount < ns_total_committed e -> cooled m e now ->
  u64 (unstake_cooldown_secs (config m)) ->
  let m1 := (request_unstake m id amount now).1 in
  is_ok (request_unstake m id amount now).2 = true /\
  total_stake m1 id = ns_total_committed e - amount /\
  (forall t, elapsed_secs t now < unstake_cooldown_secs (config m) ->
     complete_unstake m1 id t =
       (m1, Err (CooldownActive (unstake_cooldown_secs (config m) - elapsed_secs t now)))) /\
  (forall t, unstake_cooldown_secs (config m) <= elapsed_secs t now ->
     exists m2, complete_unstake m1 id t = (m2, Ok amount) /\
       total_stake m2 id = ns_total_committed e - amount /\ get_pending_unstake m2 id = None).
Proof.
  intros Hinv E Ha Hc Hcd.
  destruct (request_unstake_ok m id e amount now Hinv E ltac:(lia) Hc) as (p' & _ & ->).
  simpl. unfold unstaked_stakes. rewrite decide_False by lia.
  split_and!; [done| | |].
  - unfold total_stake. simpl. by rewrite lookup_insert_eq.
  - intros t Ht. rewrite complete_unstake_spec. simpl. rewrite lookup_insert_eq. simpl.
    unfold cooldown_remaining. rewrite decide_True by done.
    rewrite wsub_small; [done| |done]. pose proof (elapsed_secs_nonneg t now). lia.
  - intros t Ht. rewrite complete_unstake_spec. simpl. rewrite lookup_insert_eq. simpl.
    unfold cooldown_remaining. rewrite decide_False by lia.
    eexists. split; [done|]. unfold total_stake, get_pending_unstake. simpl.
    by rewrite lookup_insert_eq.
Qed.

(** Alice's record after staking 1500 at time 0. *)
Definition example_entry : NodeStake := mkNodeStake 1000 500 1500 0 None 0.

Definition example_staked : StakingManager := (stake (new example_config) alice 1500 0).1.

Lemma example_staked_inv : mgr_inv example_staked.
Proof.
  apply stake_inv; [apply new_inv; vm_compute; congruence| |];
    vm_compute; repeat split; congruence.
Qed.

Lemma partial_unstake_roundtrip_witness :
  complete_unstake (request_unstake example_staked alice 700 NANOS).1 alice (2 * NANOS)
  = ((request_unstake example_staked alice 700 NANOS).1, Err (CooldownActive 99)).
Proof.
  refine (proj1 (proj2 (proj2
    (partial_unstake_roundtrip example_staked alice example_entry 700 NANOS _ _ _ _ _)))
    (2 * NANOS) _).
  - apply example_staked_inv.
  - vm_compute. reflexivity.
  - simpl. lia.
  - intros at_. simpl. discriminate.
  - vm_compute. split; congruence.
  - vm_compute. reflexivity.
Defined.

(** Unstaking everything loses the funds: [request_unstake] of the whole commitment
    succeeds and records the amount as pending, but removes the record that holds it, so
    [complete_unstake] reports an unknown node at every later time and releases nothing. *)
Theorem full_unstake_never_released m id e now :
  mgr_inv m -> stakes m !! id = Some e -> cooled m e now ->
  let m1 := (request_unstake m id (ns_total_committed e) now).1 in
  is_ok (request_unstake m id (ns_total_committed e) now).2 = true /\
  forall t, complete_unstake m1 id t = (m1, Err (NodeNotFound id)).
Proof.
  intros Hinv E Hc. destruct (inv_entries m Hinv id e E).
  destruct (request_unstake_ok m id e (ns_total_committed e) now Hinv E ltac:(lia) Hc)
    as (p' & _ & ->).
  simpl. split; [done|]. intros t. rewrite complete_unstake_spec. simpl.
  unfold unstaked_stakes. rewrite decide_True by lia. by rewrite lookup_delete_eq.
Qed.

Lemma full_unstake_never_released_witness :
  complete_unstake (request_unstake example_staked alice 1500 NANOS).1 alice (10 ^ 6 * NANOS)
  = ((request_unstake example_staked alice 1500 NANOS).1, Err (NodeNotFound alice)).
Proof.
  refine (proj2 (full_unstake_never_released example_staked alice example_entry NANOS _ _ _)
            (10 ^ 6 * NANOS)).
  - apply example_staked_inv.
  - vm_compute. reflexivity.
  - intros at_. simpl. discriminate.
Defined.

(** A second request discards the first: once the cooldown of an uncollected request
    is over, a new request overwrites the pending amount, and what the manager owes
    drops by exactly the amount that was waiting to be collected. *)
Theorem new_request_discards_pending m id e amount now :
  mgr_inv m -> stakes m !! id = Some e -> 0 < amount < ns_total_committed e -> cooled m e now ->
  let m1 := (request_unstake m id amount now).1 in
  get_pending_unstake m1 id = Some (amount, now) /\ owed m1 = owed m - ns_unstake_pending e.
Proof.
  intros Hinv E Ha Hc.
  destruct (request_unstake_ok m id e amount now Hinv E ltac:(lia) Hc) as (p' & _ & ->).
  simpl. unfold get_pending_unstake, owed at 1. simpl. unfold unstaked_stakes.
  rewrite decide_False by lia. rewrite lookup_insert_eq, owed_insert, E. simpl. split; [done|lia].
Qed.

Lemma new_request_discards_pending_witness :
  let m := (request_unstake example_staked alice 700 NANOS).1 in
  let m1 := (request_unstake m alice 1 (101 * NANOS)).1 in
  owed m = 1500 /\ owed m1 = 800.
Proof.
  intros m m1. split; [vm_compute; reflexivity|].
  assert (owed m = 1500) as Hm by (vm_compute; reflexivity).
  refine (eq_trans (proj2 (new_request_discards_pending m alice
           (mkNodeStake 800 0 800 0 (Some NANOS) 700) 1 (101 * NANOS) _ _ _ _)) _).
  - apply request_unstake_inv; [apply example_staked_inv|vm_compute; split; congruence].
  - vm_compute. reflexivity.
  - simpl. lia.
  - intros at_ [= <-]. vm_compute. congruence.
  - rewrite Hm. reflexivity.
Defined.

(** A 10% slash of 1500 comes out of the effective part; topping up by 10 afterwards
    recomputes the split from the total and lowers the recorded overflow to 360 while
    the pool still holds 500 for the node: withdrawing everything leaves 140 behind. *)
Definition slashed_example : StakingManager :=
  (apply_slash example_staked
     (Slashing.build_slashing_event 0 alice StakeManipulation Minor "double sign" 1000 500
        default_SlashingHistory default_SlashingConfig 0 5) 0).1.

(** After a slash, topping up a stake desynchronises the pool: the node's record no
    longer matches its contribution, and withdrawing the whole commitment leaves an
    orphaned contribution that nobody can claim. *)
Theorem slash_then_stake_orphans_overflow :
  let m1 := (stake slashed_example alice 10 0).1 in
  let m2 := (request_unstake m1 alice 1360 0).1 in
  ns_overflow_amount <$> stakes m1 !! alice = Some 360 /\
  Pool.amount_of (pool m1) alice = 500 /\
  stakes m2 !! alice = None /\ Pool.amount_of (pool m2) alice = 140.
Proof. vm_compute. split_and!; reflexivity. Qed.

(** A critical slash bans the node for good: after it, whatever operations follow,
    every attempt to stake is refused with [NodeBanned] and changes nothing. *)
Theorem critical_slash_bans_forever m r now l :
  se_severity (sr_event r) = Critical -> is_ok (apply_slash m r now).2 = true ->
  let m' := (run (apply_slash m r now).1 l).1 in
  let id := se_node_id (sr_event r) in
  is_banned m' id = true /\
  forall amount t, amount <> 0 -> stake m' id amount t = (m', Err (NodeBanned id)).
Proof.
  intros Hsev Hok m' id.
  assert (is_Some (banned_nodes (apply_slash m r now).1 !! id)) as Hb.
  { unfold apply_slash in *. rewrite Hsev in *. repeat case_match; simplify_eq/=;
      rewrite lookup_insert_eq; eauto. }
  apply (run_banned _ l) in Hb. fold m' in Hb.
  split; [by apply bool_decide_true|]. intros amount t Hnz. unfold stake.
  by rewrite decide_False, decide_True by done.
Qed.

Definition critical_slash : SlashResult :=
  Slashing.build_slashing_event 0 alice EnergyFraud Critical "emulator" 1000 500
    default_SlashingHistory default_SlashingConfig 0 5.

Lemma critical_slash_bans_forever_witness :
  let m' := (run (apply_slash example_staked critical_slash 0).1 example_run).1 in
  stake m' alice 5 9 = (m', Err (NodeBanned alice)).
Proof.
  apply (critical_slash_bans_forever example_staked critical_slash 0 example_run);
    [reflexivity|vm_compute; reflexivity|lia].
Defined.
End Staking.
