(* ===== verification/Emission.v ===== *)
(** * Emission schedules

    [Module Emission]: [crates/gratia-core/src/emission.rs], the stateless schedule.
    [Module Rewards]: [crates/gratia-staking/src/rewards.rs], the schedule with
    per-block distribution.  The loops over years run on [nat]; a division by zero is
    the outcome [None] of a panic. *)

From stdpp Require Import base gmap strings list fin_maps.
From Stdlib Require Import ZArith Lia.
From S2P Require Import Prelude CoreTypes.
Local Open Scope Z_scope.

Module Emission.

Definition TOTAL_MINING_SUPPLY_GRAT : Z := 8500000000.
Definition YEAR_1_EMISSION_GRAT : Z := 2125000000.
Definition ANNUAL_RETENTION_BPS : Z := 7500.
Definition BLOCK_TIME_SECS : Z := 4.
Definition BLOCKS_PER_DAY : Z := 86400 / BLOCK_TIME_SECS.
Definition BLOCKS_PER_YEAR : Z := BLOCKS_PER_DAY * 365.

(** One iteration of the loop of [annual_emission_grat]. *)
Definition retain (emission : Z) : Z := wmul 64 emission ANNUAL_RETENTION_BPS / 10000.

(** [for _ in 1..year] runs [year - 1] times. *)
Definition annual_emission_grat (year : Z) : Z :=
  if decide (year = 0) then 0
  else Nat.iter (Z.to_nat (year - 1)) retain YEAR_1_EMISSION_GRAT.

Definition daily_budget_grat (year : Z) : Z := annual_emission_grat year / 365.

Definition year_for_height (block_height : Z) : Z :=
  let year_u64 := wadd 64 (block_height / BLOCKS_PER_YEAR) 1 in
  wrap 32 (Z.min year_u64 (max_val 32)).

Definition block_reward_lux (block_height : Z) : Lux :=
  let year := year_for_height block_height in
  let daily_grat := daily_budget_grat year in
  wmul 64 daily_grat LUX_PER_GRAT / BLOCKS_PER_DAY.

Definition per_miner_block_reward_lux (block_height active_miners : Z) : Lux :=
  let total := block_reward_lux block_height in
  if decide (active_miners = 0) then total else total / active_miners.

(** [for y in 1..=up_to_year { total += annual_emission_grat(y) }] *)
Definition cumulative_emission_grat (up_to_year : Z) : Z :=
  foldl (fun total y => wadd 64 total (annual_emission_grat (Z.of_nat y))) 0
    (seq 1 (Z.to_nat up_to_year)).

(** ** One year's emission *)

(** The emission of the [n]-th year after the first. *)
Definition emission_at (n : nat) : Z := Nat.iter n retain YEAR_1_EMISSION_GRAT.

Lemma retain_exact x :
  0 <= x <= YEAR_1_EMISSION_GRAT -> retain x = x * 7500 / 10000 /\ 0 <= 4 * retain x <= 3 * x.
Proof.
  intros Hx. unfold YEAR_1_EMISSION_GRAT in Hx. unfold retain, wmul, ANNUAL_RETENTION_BPS.
  rewrite wrap_small by ulia. split; [done|].
  pose proof (Z.mul_div_le (x * 7500) 10000). split; [|lia].
  pose proof (Z.div_pos (x * 7500) 10000). lia.
Qed.

Lemma emission_at_range n : 0 <= emission_at n <= YEAR_1_EMISSION_GRAT.
Proof.
  induction n as [|n IH]; [unfold emission_at, YEAR_1_EMISSION_GRAT; simpl; lia|].
  change (emission_at (S n)) with (retain (emission_at n)).
  destruct (retain_exact (emission_at n) IH) as [_ ?]. lia.
Qed.

Lemma emission_at_S n : 0 <= 4 * emission_at (S n) <= 3 * emission_at n.
Proof. apply (retain_exact (emission_at n) (emission_at_range n)). Qed.

Lemma annual_emission_at y : annual_emission_grat (Z.of_nat (S y)) = emission_at y.
Proof.
  unfold annual_emission_grat. rewrite decide_False by lia. unfold emission_at. f_equal. lia.
Qed.

(** The emission dies out: from year 101 on it is zero. *)
Lemma emission_at_zero n : (100 <= n)%nat -> emission_at n = 0.
Proof.
  intros Hn. replace n with ((n - 100) + 100)%nat by lia. generalize (n - 100)%nat. clear.
  intros k. induction k as [|k IH]; [vm_compute; reflexivity|].
  change (emission_at (S k + 100)) with (retain (emission_at (k + 100))). rewrite IH. reflexivity.
Qed.

(** ** The whole supply *)

Fixpoint emission_sum (n : nat) : Z :=
  match n with O => 0 | S n => emission_sum n + emission_at n end.

(** The geometric-series argument: every year gives at most four times the drop. *)
Lemma emission_sum_bound n :
  0 <= emission_sum n /\ emission_sum n + 4 * emission_at n <= TOTAL_MINING_SUPPLY_GRAT.
Proof.
  induction n as [|n [IH0 IH]]; simpl emission_sum.
  - unfold emission_at, TOTAL_MINING_SUPPLY_GRAT, YEAR_1_EMISSION_GRAT. simpl. lia.
  - pose proof (emission_at_S n). pose proof (emission_at_range n). lia.
Qed.

Lemma emission_sum_mono n m : (n <= m)%nat -> emission_sum n <= emission_sum m.
Proof.
  induction 1 as [|m _ IH]; [lia|]. simpl. pose proof (emission_at_range m). lia.
Qed.

Lemma cumulative_loop n :
  foldl (fun total y => wadd 64 total (annual_emission_grat (Z.of_nat y))) 0 (seq 1 n)
  = emission_sum n.
Proof.
  induction n as [|n IH]; [done|].
  rewrite seq_S, foldl_app, IH. simpl. rewrite annual_emission_at, wadd_small; [done|].
  pose proof (emission_sum_bound n) as [? ?]. pose proof (emission_at_range n).
  unfold in_range, TOTAL_MINING_SUPPLY_GRAT in *. lia.
Qed.

(** ** Per-block rewards *)

(** The reward of every block of the [n]-th year after the first. *)
Definition reward_at (n : nat) : Z := emission_at n / 365 * LUX_PER_GRAT / BLOCKS_PER_DAY.

Lemma reward_at_year n :
  0 <= reward_at n /\ BLOCKS_PER_YEAR * reward_at n <= emission_at n * LUX_PER_GRAT.
Proof.
  pose proof (emission_at_range n). unfold reward_at.
  change BLOCKS_PER_YEAR with (365 * BLOCKS_PER_DAY).
  assert (0 < BLOCKS_PER_DAY) by (vm_compute; done).
  assert (0 <= emission_at n / 365) by (apply Z.div_pos; lia).
  assert (0 < LUX_PER_GRAT) by (vm_compute; done).
  pose proof (Z.mul_div_le (emission_at n) 365).
  pose proof (Z.mul_div_le (emission_at n / 365 * LUX_PER_GRAT) BLOCKS_PER_DAY).
  split; [apply Z.div_pos; nia|]. nia.
Qed.

Definition year_index (h : Z) : nat := Z.to_nat (h / BLOCKS_PER_YEAR).

Lemma BLOCKS_PER_YEAR_val : BLOCKS_PER_YEAR = 7884000.
Proof. reflexivity. Qed.

Lemma block_reward_at h : u64 h -> block_reward_lux h = reward_at (year_index h).
Proof.
  intros Hh. unfold block_reward_lux, year_for_height, daily_budget_grat, year_index.
  rewrite BLOCKS_PER_YEAR_val. unfold in_range in Hh.
  assert (0 <= h / 7884000 < 2 ^ 64 - 1) as Hd.
  { split; [apply Z.div_pos; lia|]. apply Z.div_lt_upper_bound; lia. }
  rewrite wadd_small by ulia. rewrite wrap_small by (unfold max_val, in_range; lia).
  assert (annual_emission_grat (Z.min (h / 7884000 + 1) (max_val 32))
          = emission_at (Z.to_nat (h / 7884000))) as ->.
  { destruct (decide (h / 7884000 + 1 <= max_val 32)) as [Hle|Hgt].
    - rewrite Z.min_l by done.
      replace (h / 7884000 + 1) with (Z.of_nat (S (Z.to_nat (h / 7884000)))) by lia.
      apply annual_emission_at.
    - rewrite Z.min_r by lia.
      replace (max_val 32) with (Z.of_nat (S (Z.to_nat (2 ^ 32 - 2)))) by (unfold max_val; lia).
      rewrite annual_emission_at. unfold max_val in Hgt. rewrite !emission_at_zero by lia. done. }
  unfold reward_at. pose proof (emission_at_range (Z.to_nat (h / 7884000))).
  unfold wmul. rewrite wrap_small; [done|].
  assert (0 <= emission_at (Z.to_nat (h / 7884000)) / 365) by (apply Z.div_pos; lia).
  pose proof (Z.mul_div_le (emission_at (Z.to_nat (h / 7884000))) 365).
  unfold in_range, LUX_PER_GRAT, YEAR_1_EMISSION_GRAT in *. lia.
Qed.

(** Total issued by the blocks below height [H]. *)
Fixpoint issued (H : nat) : Z :=
  match H with O => 0 | S h => issued h + block_reward_lux (Z.of_nat h) end.

Lemma issued_bound H :
  Z.of_nat H <= 2 ^ 64 ->
  issued H <= emission_sum (year_index (Z.of_nat H)) * LUX_PER_GRAT
              + (Z.of_nat H mod BLOCKS_PER_YEAR) * reward_at (year_index (Z.of_nat H)).
Proof.
  induction H as [|h IH]; intros Hb.
  - vm_compute. congruence.
  - specialize (IH ltac:(lia)). simpl issued. rewrite block_reward_at by ulia.
    set (z := Z.of_nat h) in *. replace (Z.of_nat (S h)) with (z + 1) by lia.
    unfold year_index in *. rewrite BLOCKS_PER_YEAR_val in *.
    pose proof (Z.div_mod z 7884000 ltac:(lia)) as Hdm.
    pose proof (Z.mod_pos_bound z 7884000 ltac:(lia)) as Hmb.
    assert (0 <= z / 7884000) by (apply Z.div_pos; lia).
    set (q := z / 7884000) in *. set (r := z mod 7884000) in *.
    destruct (decide (r + 1 < 7884000)) as [Hlt|Hge].
    + replace ((z + 1) / 7884000) with q by (apply (Z.div_unique _ _ _ (r + 1)); lia).
      replace ((z + 1) mod 7884000) with (r + 1) by (apply (Z.mod_unique _ _ q); lia). lia.
    + replace ((z + 1) / 7884000) with (q + 1) by (apply (Z.div_unique _ _ _ 0); lia).
      replace ((z + 1) mod 7884000) with 0 by (apply (Z.mod_unique _ _ (q + 1)); lia).
      replace (Z.to_nat (q + 1)) with (S (Z.to_nat q)) by lia. simpl emission_sum.
      pose proof (reward_at_year (Z.to_nat q)) as [_ Hy]. rewrite BLOCKS_PER_YEAR_val in Hy.
      replace r with 7883999 in IH by lia. lia.
Qed.

(** ** Properties *)

(** The cumulative schedule never exceeds the mining supply, for any number of years,
    grows with the years, and its [u64] accumulator never wraps: it is the exact sum of
    the annual emissions. *)
Theorem cumulative_emission_capped y y' :
  0 <= y <= y' ->
  cumulative_emission_grat y = emission_sum (Z.to_nat y) /\
  0 <= cumulative_emission_grat y <= cumulative_emission_grat y' /\
  cumulative_emission_grat y' <= TOTAL_MINING_SUPPLY_GRAT.
Proof.
  intros Hy. unfold cumulative_emission_grat. rewrite !cumulative_loop.
  pose proof (emission_sum_bound (Z.to_nat y)) as [? _].
  pose proof (emission_sum_bound (Z.to_nat y')) as [_ ?].
  pose proof (emission_at_range (Z.to_nat y')).
  pose proof (emission_sum_mono (Z.to_nat y) (Z.to_nat y') ltac:(lia)). lia.
Qed.

Lemma cumulative_emission_capped_witness :
  cumulative_emission_grat 200 <= TOTAL_MINING_SUPPLY_GRAT /\
  cumulative_emission_grat 200 = 8499999888.
Proof.
  split; [apply (cumulative_emission_capped 10 200); lia|vm_compute; reflexivity].
Defined.

(** C21: The blocks below any height representable in a [u64] together never issue more
    than the mining supply (nor a negative amount): year by year, the per-block rewards
    computed with integer division, the year clamped to [u32], stay within the schedule. *)
Theorem block_rewards_within_supply H :
  Z.of_nat H <= 2 ^ 64 ->
  0 <= issued H <= TOTAL_MINING_SUPPLY_GRAT * LUX_PER_GRAT.
Proof.
  intros Hb. split.
  - induction H as [|h IH]; simpl; [lia|]. specialize (IH ltac:(lia)).
    rewrite block_reward_at by ulia. pose proof (reward_at_year (year_index (Z.of_nat h))). lia.
  - pose proof (issued_bound H Hb) as Hi. set (n := year_index (Z.of_nat H)) in *.
    pose proof (emission_sum_bound n) as [_ Hs]. pose proof (reward_at_year n) as [Hr Hy].
    assert (0 < BLOCKS_PER_YEAR) as Hpos by (vm_compute; reflexivity).
    pose proof (Z.mod_pos_bound (Z.of_nat H) BLOCKS_PER_YEAR Hpos).
    pose proof (emission_at_range n).
    assert ((Z.of_nat H mod BLOCKS_PER_YEAR) * reward_at n <= emission_at n * LUX_PER_GRAT) by nia.
    assert (0 < LUX_PER_GRAT) by (vm_compute; reflexivity). nia.
Qed.

Lemma block_rewards_within_supply_witness :
  issued 3 <= TOTAL_MINING_SUPPLY_GRAT * LUX_PER_GRAT /\ issued 3 = 808599582.
Proof.
  split; [|vm_compute; reflexivity].
  apply (block_rewards_within_supply 3). vm_compute. congruence.
Defined.
End Emission.

Module Rewards.

Record EmissionSchedule := mkSchedule {
  genesis_block_reward : Lux;
  es_annual_reduction_bps : Z;
  blocks_per_year : Z;
  total_emitted : Lux;
  current_height : Z
}.

Record MinerReward := mkMinerReward {
  mr_node_id : NodeId;
  mr_base_reward : Lux;
  mr_geographic_bonus : Lux;
  mr_total : Lux
}.

Record BlockRewardDistribution := mkDistribution {
  brd_height : Z;
  brd_total_reward : Lux;
  brd_miner_rewards : list MinerReward;
  brd_pool_allocation : Lux
}.

Inductive GeographicTier := Standard | Underserved.

Definition new (config : RewardsConfig) (target_block_time_secs : Z) : EmissionSchedule :=
  let seconds_per_year := 365 * 24 * 3600 in
  mkSchedule (block_reward config) (annual_reduction_bps config)
    (seconds_per_year / Z.max target_block_time_secs 1) 0 0.

(** Division by [blocks_per_year]; [None] is the panic of a division by zero. *)
Definition year_of (s : EmissionSchedule) (height : Z) : option Z :=
  if decide (blocks_per_year s = 0) then None else Some (height / blocks_per_year s).

Definition current_year (s : EmissionSchedule) : option Z := year_of s (current_height s).

(** The loop of [calculate_block_reward], with its [break]. *)
Fixpoint reduce_years (n : nat) (reduction_bps : Z) (reward : Lux) : Lux :=
  match n with
  | O => reward
  | S n =>
    let reduction_factor := wsub 64 10000 reduction_bps in
    let reward' := wrap 64 (wmul 128 reward reduction_factor / 10000) in
    if decide (reward' = 0) then 1 else reduce_years n reduction_bps reward'
  end.

Definition calculate_block_reward (s : EmissionSchedule) (height : Z) : option Lux :=
  year ← year_of s height;
  Some (reduce_years (Z.to_nat year) (es_annual_reduction_bps s) (genesis_block_reward s)).

Definition geographic_bonus_of (per_miner_base bonus_max_bps : Z) (tier : GeographicTier) : Lux :=
  match tier with
  | Standard => 0
  | Underserved =>
    let bonus_bps := saturating_sub bonus_max_bps 10000 in
    wrap 64 (wmul 128 per_miner_base bonus_bps / 10000)
  end.

Definition reward_step (per_miner_base bonus_max_bps : Z) (acc : list MinerReward * Lux)
    (miner : NodeId * GeographicTier) : list MinerReward * Lux :=
  let '(miner_rewards, total_distributed) := acc in
  let '(node_id, tier) := miner in
  let geographic_bonus := geographic_bonus_of per_miner_base bonus_max_bps tier in
  let total := saturating_add 64 per_miner_base geographic_bonus in
  (miner_rewards ++ [mkMinerReward node_id per_miner_base geographic_bonus total],
   saturating_add 64 total_distributed total).

Definition distribute_rewards (s : EmissionSchedule) (height : Z)
    (active_miners : list (NodeId * GeographicTier)) (bonus_max_bps : Z)
  : option (EmissionSchedule * BlockRewardDistribution) :=
  total_reward ← calculate_block_reward s height;
  match active_miners with
  | [] => Some (s, mkDistribution height total_reward [] total_reward)
  | _ =>
    let pool_share_bps := 1000 in
    let pool_allocation := wrap 64 (wmul 128 total_reward pool_share_bps / 10000) in
    let miner_total := wsub 64 total_reward pool_allocation in
    let per_miner_base := miner_total / Z.of_nat (length active_miners) in
    let '(miner_rewards, total_distributed) :=
      foldl (reward_step per_miner_base bonus_max_bps) ([], pool_allocation) active_miners in
    Some (mkSchedule (genesis_block_reward s) (es_annual_reduction_bps s) (blocks_per_year s)
            (saturating_add 64 (total_emitted s) total_distributed) height,
          mkDistribution height total_reward miner_rewards pool_allocation)
  end.

(** ** The yearly reduction *)

(** Reference: one year keeps the retained share, but at least one Lux. *)
Definition yearly (bps reward : Z) : Z := Z.max 1 (reward * (10000 - bps) / 10000).

Lemma reduce_once bps r :
  u64 r -> 0 <= bps <= 10000 ->
  wrap 64 (wmul 128 r (wsub 64 10000 bps) / 10000) = r * (10000 - bps) / 10000 /\
  0 <= r * (10000 - bps) / 10000 <= r.
Proof.
  intros Hr Hb. unfold in_range in Hr. rewrite wsub_small by ulia.
  assert (0 <= r * (10000 - bps) / 10000 <= r).
  { split; [apply Z.div_pos; nia|]. apply Z.div_le_upper_bound; nia. }
  unfold wmul. rewrite (wrap_small 128) by (unfold in_range; nia).
  rewrite wrap_small by (unfold in_range; lia). done.
Qed.

Lemma yearly_one bps : 0 <= bps <= 10000 -> yearly bps 1 = 1.
Proof.
  intros. unfold yearly. assert (1 * (10000 - bps) / 10000 <= 1); [|lia].
  apply Z.div_le_upper_bound; lia.
Qed.

Lemma iter_yearly_one n bps : 0 <= bps <= 10000 -> Nat.iter n (yearly bps) 1 = 1.
Proof. intros Hb. induction n as [|n IH]; [done|]. simpl. by rewrite IH, yearly_one. Qed.

Lemma reduce_years_spec n bps r :
  u64 r -> 0 <= bps <= 10000 ->
  reduce_years n bps r = match n with O => r | S _ => Nat.iter n (yearly bps) r end.
Proof.
  revert r. induction n as [|n IH]; intros r Hr Hb; [done|].
  simpl reduce_years. destruct (reduce_once bps r Hr Hb) as [-> Hle].
  rewrite Nat.iter_succ_r. unfold yearly at 2. case_decide as Hz.
  - rewrite Hz. rewrite Z.max_l by lia. by rewrite iter_yearly_one.
  - rewrite Z.max_r by lia. rewrite IH by (done || ulia). by destruct n.
Qed.

Lemma yearly_le bps r : 0 <= bps <= 10000 -> 1 <= r -> 1 <= yearly bps r <= r.
Proof.
  intros. unfold yearly. assert (r * (10000 - bps) / 10000 <= r); [|lia].
  apply Z.div_le_upper_bound; nia.
Qed.

Lemma iter_yearly_antitone n m bps r :
  0 <= bps <= 10000 -> 1 <= r -> (n <= m)%nat ->
  1 <= Nat.iter m (yearly bps) r <= Nat.iter n (yearly bps) r /\ Nat.iter n (yearly bps) r <= r.
Proof.
  intros Hb Hr. induction 1 as [|m _ IH].
  - induction n as [|n IH]; simpl; [lia|]. pose proof (yearly_le bps (Nat.iter n (yearly bps) r) Hb). lia.
  - simpl. pose proof (yearly_le bps (Nat.iter m (yearly bps) r) Hb). lia.
Qed.

(** ** Distribution *)

Definition rewards_total (l : list MinerReward) : Z := foldr (fun r acc => mr_total r + acc) 0 l.

Definition miner_reward_of (base bonus_max : Z) (m : NodeId * GeographicTier) : MinerReward :=
  let bonus := geographic_bonus_of base bonus_max m.2 in
  mkMinerReward m.1 base bonus (base + bonus).

Lemma bonus_bounds base bonus_max tier :
  u64 base -> 0 <= bonus_max <= 15000 ->
  0 <= geographic_bonus_of base bonus_max tier /\ 2 * geographic_bonus_of base bonus_max tier <= base.
Proof.
  intros Hb Hm. unfold in_range in Hb. destruct tier; simpl; [lia|].
  set (bps := saturating_sub bonus_max 10000). assert (0 <= bps <= 5000) by (unfold bps; ulia).
  assert (0 <= base * bps / 10000) by (apply Z.div_pos; nia).
  pose proof (Z.mul_div_le (base * bps) 10000).
  unfold wmul. rewrite (wrap_small 128) by (unfold in_range; nia).
  rewrite wrap_small by (unfold in_range; nia). nia.
Qed.

Lemma reward_loop base bonus_max miners acc t :
  u64 base -> 0 <= bonus_max <= 15000 -> 0 <= t ->
  2 * t + 3 * (base * Z.of_nat (length miners)) < 2 ^ 64 ->
  let rs := map (miner_reward_of base bonus_max) miners in
  foldl (reward_step base bonus_max) (acc, t) miners = (acc ++ rs, t + rewards_total rs) /\
  0 <= 2 * rewards_total rs <= 3 * (base * Z.of_nat (length miners)).
Proof.
  intros Hb Hm. revert acc t. induction miners as [|[id tier] l IH]; intros acc t Ht Hlt rs.
  - unfold rs. simpl. rewrite app_nil_r. split; [f_equal|]; lia.
  - destruct (bonus_bounds base bonus_max tier Hb Hm) as [Hbo Hbo'].
    simpl length in Hlt. unfold in_range in Hb.
    assert (0 <= base * Z.of_nat (length l)) by nia.
    assert (saturating_add 64 base (geographic_bonus_of base bonus_max tier)
            = base + geographic_bonus_of base bonus_max tier) as Hs by ulia.
    unfold rs. simpl. rewrite Hs.
    assert (saturating_add 64 t (base + geographic_bonus_of base bonus_max tier)
            = t + (base + geographic_bonus_of base bonus_max tier)) as -> by ulia.
    destruct (IH (acc ++ [mkMinerReward id base (geographic_bonus_of base bonus_max tier)
                            (base + geographic_bonus_of base bonus_max tier)])
                (t + (base + geographic_bonus_of base bonus_max tier))) as [-> Hr]; [lia|lia|].
    rewrite <-app_assoc. unfold miner_reward_of at 1 3. simpl. split; [f_equal; lia|lia].
Qed.

(** ** Properties *)

(** The block reward is total for a positive number of blocks per year, equals the
    reference schedule (a fixed share retained per year, never below one Lux), stays
    between one Lux and the genesis reward, and never increases with the height. *)
Theorem block_reward_schedule s h h' :
  0 < blocks_per_year s -> u64 (genesis_block_reward s) -> 1 <= genesis_block_reward s ->
  0 <= es_annual_reduction_bps s <= 10000 -> 0 <= h <= h' ->
  exists r r', calculate_block_reward s h = Some r /\ calculate_block_reward s h' = Some r' /\
    r = Nat.iter (Z.to_nat (h / blocks_per_year s)) (yearly (es_annual_reduction_bps s))
          (genesis_block_reward s) /\
    1 <= r' <= r /\ r <= genesis_block_reward s.
Proof.
  intros Hb Hg Hg1 Hbps Hh.
  assert (forall x, calculate_block_reward s x
            = Some (Nat.iter (Z.to_nat (x / blocks_per_year s)) (yearly (es_annual_reduction_bps s))
                      (genesis_block_reward s))) as He.
  { intros x. unfold calculate_block_reward, year_of. rewrite decide_False by lia. simpl.
    rewrite reduce_years_spec by done. by destruct (Z.to_nat (x / blocks_per_year s)). }
  rewrite !He. do 2 eexists. split; [done|]. split; [done|]. split; [done|].
  apply iter_yearly_antitone; [done|done|]. apply Z2Nat.inj_le.
  - apply Z.div_pos; lia.
  - apply Z.div_pos; lia.
  - apply Z.div_le_mono; lia.
Qed.

Lemma block_reward_schedule_witness :
  let s := new default_RewardsConfig 4 in
  calculate_block_reward s 7884000 = Some 37500000 /\
  exists r r', calculate_block_reward s 0 = Some r /\ calculate_block_reward s 7884000 = Some r' /\
    r = 50000000 /\ 1 <= r' <= r /\ r <= 50000000.
Proof.
  split; [vm_compute; reflexivity|].
  apply (block_reward_schedule (new default_RewardsConfig 4) 0 7884000); vm_compute; 
    try reflexivity; try (split; congruence); congruence.
Defined.

(** One block's distribution: the pool's tenth plus the miners' equal base shares
    leave less than one Lux per miner of the block reward undistributed; each miner is
    listed once, in order, with the same base; geographic bonuses come on top and at
    most add half of the base; emission tracking grows by exactly what was paid. *)
Theorem reward_distribution_exact s h miners bonus_max total :
  calculate_block_reward s h = Some total -> 0 <= total < 2 ^ 62 ->
  0 <= bonus_max <= 15000 -> miners <> [] -> u64 (total_emitted s) ->
  total_emitted s + 2 * total < 2 ^ 64 ->
  let pool := total / 10 in
  let base := (total - pool) / Z.of_nat (length miners) in
  let rs := map (miner_reward_of base bonus_max) miners in
  exists s', distribute_rewards s h miners bonus_max = Some (s', mkDistribution h total rs pool) /\
    total - Z.of_nat (length miners) < pool + base * Z.of_nat (length miners) <= total /\
    2 * rewards_total rs <= 3 * (total - pool) /\
    Forall (fun r => mr_base_reward r = base /\ 0 <= 2 * mr_geographic_bonus r <= base /\
                     mr_total r = base + mr_geographic_bonus r) rs /\
    total_emitted s' = total_emitted s + pool + rewards_total rs /\ current_height s' = h.
Proof.
  intros Ht Hr Hbm Hne Hte Hroom pool base rs.
  assert (0 < Z.of_nat (length miners)) as Hn by (destruct miners; simpl; [done|lia]).
  assert (wrap 64 (wmul 128 total 1000 / 10000) = pool) as Hpool.
  { unfold wmul. rewrite (wrap_small 128) by (unfold in_range; lia).
    replace (total * 1000 / 10000) with (total / 10).
    - apply wrap_small. split; [apply Z.div_pos; lia|]. apply Z.div_lt_upper_bound; lia.
    - replace 10000 with (10 * 1000) by lia. by rewrite Z.div_mul_cancel_r. }
  assert (0 <= pool /\ 10 * pool <= total) as [Hp0 Hp].
  { unfold pool. split; [apply Z.div_pos; lia|]. apply Z.mul_div_le. lia. }
  assert (0 <= base) as Hb0 by (apply Z.div_pos; lia).
  pose proof (Z.mul_div_le (total - pool) (Z.of_nat (length miners)) Hn) as Hb1.
  pose proof (Z.mul_succ_div_gt (total - pool) (Z.of_nat (length miners)) Hn) as Hb2.
  fold base in Hb1, Hb2.
  assert (u64 base) as Hub by (unfold in_range; nia).
  destruct (reward_loop base bonus_max miners [] pool Hub Hbm Hp0) as [Hl Hs]; [nia|].
  fold rs in Hl, Hs. unfold distribute_rewards. rewrite Ht. simpl.
  assert (forall (T : Type) (a b : T), match miners with [] => a | _ :: _ => b end = b) as Hm
    by (by destruct miners).
  rewrite Hm, Hpool, wsub_small by ulia. fold base. rewrite Hl. simpl.
  eexists. split; [reflexivity|]. simpl.
  split_and!; try lia; try done.
  - apply Forall_map, Forall_true. intros [id tier]. simpl.
    pose proof (bonus_bounds base bonus_max tier Hub Hbm). lia.
  - ulia.
Qed.

Lemma reward_distribution_exact_witness :
  let s := new default_RewardsConfig 4 in
  let miners := [([1], Standard); ([2], Underserved); ([3], Standard)] in
  exists s', distribute_rewards s 0 miners 15000
    = Some (s', mkDistribution 0 50000000
        [mkMinerReward [1] 15000000 0 15000000; mkMinerReward [2] 15000000 7500000 22500000;
         mkMinerReward [3] 15000000 0 15000000] 5000000) /\ total_emitted s' = 57500000.
Proof.
  intros s miners.
  destruct (reward_distribution_exact s 0 miners 15000 50000000) as (s' & H & _ & _ & _ & Hte & _);
    try (vm_compute; reflexivity); try (vm_compute; split; congruence); try done.
  exists s'. split; [rewrite H; vm_compute; reflexivity|rewrite Hte; vm_compute; reflexivity].
Defined.

(** A block without active miners hands its whole reward to the pool but is left out
    of the emission tracking: [total_emitted] and [current_height] keep their values. *)
Theorem empty_block_not_tracked s h bonus_max total :
  calculate_block_reward s h = Some total ->
  distribute_rewards s h [] bonus_max = Some (s, mkDistribution h total [] total).
Proof. intros H. unfold distribute_rewards. by rewrite H. Qed.
End Rewards.
