(* ===== verification/ThirdParty.v ===== *)
(** * Code outside the repository

    What the repository only calls: the cryptographic crates ([sha2], [hex],
    [ed25519-dalek]), [bincode], [chrono] and the platform's floating-point library.  Each is
    a class of functions, a parameter of the definitions that use it; the
    [reference_] instances are concrete functions that let statements about the
    parameters be evaluated. *)

From stdpp Require Import base gmap strings list fin_maps.
From Stdlib Require Import ZArith Lia.
From S2P Require Import Prelude CoreTypes.
Local Open Scope Z_scope.

(** [sha2::Sha256] over the concatenation of the [update] calls, [hex::encode]. *)
Class HashLib := {
  sha256 : bytes -> Hash;
  hex_encode : bytes -> string
}.

(** IEEE arithmetic and the trigonometric functions of [f64]. *)
Class FloatLib := {
  f32 : Type;
  f64 : Type;
  f64_of_f32 : f32 -> f64;
  f64_of_Z : Z -> f64;
  f64_add : f64 -> f64 -> f64;
  f64_sub : f64 -> f64 -> f64;
  f64_mul : f64 -> f64 -> f64;
  f64_div : f64 -> f64 -> f64;
  f64_le : f64 -> f64 -> bool;
  to_radians : f64 -> f64;
  f64_sin : f64 -> f64;
  f64_cos : f64 -> f64;
  f64_asin : f64 -> f64;
  f64_sqrt : f64 -> f64;
  powi : f64 -> Z -> f64
}.

(** The first and the last instant a [chrono::DateTime<Utc>] can hold. *)
Class ChronoLib := {
  MIN_UTC : DateTime;
  MAX_UTC : DateTime
}.

(** [Duration::seconds] is documented to panic beyond [i64::MAX / 1_000] seconds. *)
Definition MAX_DURATION_SECS : Z := (2 ^ 63 - 1) / 1000.

(** [t + Duration::seconds(s)]; [None] is a panic: the duration or the sum is out of range. *)
Definition add_seconds `{!ChronoLib} (t : DateTime) (s : Z) : option DateTime :=
  if decide (- MAX_DURATION_SECS <= s <= MAX_DURATION_SECS) then
    let t' := t + duration_seconds s in
    if decide (MIN_UTC <= t' <= MAX_UTC) then Some t' else None
  else None.

(** The range of current versions of [chrono]: the years -262143 to 262142. *)
Definition reference_chrono : ChronoLib := {|
  MIN_UTC := duration_seconds (-8334601228800);
  MAX_UTC := duration_seconds 8210266876799 + 999999999
|}.

(** Concrete instances for evaluation: a small polynomial hash, and floats replaced
    by integers. *)
Definition reference_hash : HashLib := {|
  sha256 := fun b => [foldl (fun a x => (a * 257 + x) mod 251) 0 b];
  hex_encode := fun _ => "hex"
|}.

Definition reference_float : FloatLib := {|
  f32 := Z; f64 := Z;
  f64_of_f32 := fun x => x;
  f64_of_Z := fun x => x;
  f64_add := Z.add; f64_sub := Z.sub; f64_mul := Z.mul; f64_div := Z.div;
  f64_le := Z.leb;
  to_radians := fun x => x;
  f64_sin := fun x => x; f64_cos := fun x => 1 - x; f64_asin := fun x => x;
  f64_sqrt := Z.sqrt;
  powi := Z.pow
|}.
