(* ===== verification/GovProposals.v ===== *)
(** * gratia-governance: proposals

    [crates/gratia-governance/src/proposals.rs] and the [Proposal] type of
    [gratia-core/src/types.rs].  A store keeps the standard proposals, their
    extended phase and the emergency proposals.  [phase_step] is the lifecycle as a
    timed transition relation; [advance_all] is shown not to depend on the order in
    which the hash map is traversed and to move every proposal along [phase_step]. *)

From stdpp Require Import base gmap strings list fin_maps pretty.
From Stdlib Require Import ZArith Lia.
From S2P Require Import Prelude CoreTypes ThirdParty.
Local Open Scope Z_scope.

Inductive GovernanceError :=
| InsufficientHistory (days required : Z)
| ProposalNotFound (id : string)
| WrongPhase (expected actual : string)
| AlreadyVoted (node_id : NodeId)
| NoValidProofOfLife
| NotProposer
| CannotCancel
| PollNotFound (id : string)
| PollExpired
| AlreadyVotedPoll (node_id : NodeId)
| InvalidOptionIndex (index count : Z)
| InsufficientBalance (available required : Z)
| NotOnCommittee
| EmergencyProposalNotFound (id : string)
| EmergencyAlreadyResolved
| OutsideGeographicFilter
| TooFewOptions
| EmptyQuestion.

Inductive ProposalStatus :=
  Status_Discussion | Status_Voting | Status_Approved | Status_Rejected
| Status_Implemented | Status_Reverted.

Inductive ProposalPhase :=
  Draft | Discussion | Voting | Approved | Rejected | Executed | Cancelled.

#[export] Instance ProposalStatus_eq_dec : EqDecision ProposalStatus.
Proof. solve_decision. Defined.
#[export] Instance ProposalPhase_eq_dec : EqDecision ProposalPhase.
Proof. solve_decision. Defined.

Definition to_core_status (p : ProposalPhase) : ProposalStatus :=
  match p with
  | Draft => Status_Discussion
  | Discussion => Status_Discussion
  | Voting => Status_Voting
  | Approved => Status_Approved
  | Rejected => Status_Rejected
  | Executed => Status_Implemented
  | Cancelled => Status_Rejected
  end.

Record Proposal := mkProposal {
  p_id : Hash;
  p_proposer : NodeId;
  p_title : string;
  p_description : string;
  p_data : bytes;
  submitted_at : DateTime;
  discussion_ends : DateTime;
  voting_ends : DateTime;
  implementation_date : DateTime;
  status : ProposalStatus;
  votes_yes : Z;
  votes_no : Z;
  votes_abstain : Z;
  eligible_voters : Z
}.

Record EmergencyProposal := mkEmergency {
  ep_id : Hash;
  ep_proposer : NodeId;
  ep_title : string;
  ep_description : string;
  ep_data : bytes;
  ep_submitted_at : DateTime;
  ratification_deadline : DateTime;
  approvals : gset NodeId;
  committee_size : Z;
  activated : bool;
  ratified : bool;
  reverted : bool
}.

Record ProposalStore := mkProposalStore {
  proposals : gmap Hash Proposal;
  phases : gmap Hash ProposalPhase;
  emergency_proposals : gmap Hash EmergencyProposal;
  next_proposal_nonce : Z
}.

Module Proposals.

(** ** Proposal *)

Definition quorum_met (p : Proposal) : bool :=
  if decide (eligible_voters p = 0) then false
  else
    let total_votes :=
      saturating_add 64 (saturating_add 64 (votes_yes p) (votes_no p)) (votes_abstain p) in
    if decide (total_votes > eligible_voters p) then false
    else
      let quorum_threshold := eligible_voters p / 5 in
      bool_decide (total_votes >= quorum_threshold).

Definition passed (p : Proposal) : bool :=
  if negb (quorum_met p) then false
  else
    let total_votes := saturating_add 64 (votes_yes p) (votes_no p) in
    if decide (votes_yes p > eligible_voters p \/ votes_no p > eligible_voters p) then false
    else bool_decide (saturating_mul 64 (votes_yes p) 2 > total_votes).

Definition set_status (p : Proposal) (s : ProposalStatus) : Proposal :=
  mkProposal (p_id p) (p_proposer p) (p_title p) (p_description p) (p_data p)
    (submitted_at p) (discussion_ends p) (voting_ends p) (implementation_date p)
    s (votes_yes p) (votes_no p) (votes_abstain p) (eligible_voters p).

Definition set_votes (p : Proposal) (y n a : Z) : Proposal :=
  mkProposal (p_id p) (p_proposer p) (p_title p) (p_description p) (p_data p)
    (submitted_at p) (discussion_ends p) (voting_ends p) (implementation_date p)
    (status p) y n a (eligible_voters p).

(** ** EmergencyProposal *)

Definition has_supermajority (ep : EmergencyProposal) (threshold_bps : Z) : bool :=
  if decide (committee_size ep = 0) then false
  else
    let required :=
      saturating_add 64 (saturating_mul 64 (committee_size ep) threshold_bps) 9999 / 10000 in
    bool_decide (Z.of_nat (size (approvals ep)) >= required).

Definition set_approvals (ep : EmergencyProposal) (a : gset NodeId) : EmergencyProposal :=
  mkEmergency (ep_id ep) (ep_proposer ep) (ep_title ep) (ep_description ep) (ep_data ep)
    (ep_submitted_at ep) (ratification_deadline ep) a (committee_size ep)
    (activated ep) (ratified ep) (reverted ep).

Definition set_flags (ep : EmergencyProposal) (act rat rev : bool) : EmergencyProposal :=
  mkEmergency (ep_id ep) (ep_proposer ep) (ep_title ep) (ep_description ep) (ep_data ep)
    (ep_submitted_at ep) (ratification_deadline ep) (approvals ep) (committee_size ep)
    act rat rev.

(** ** ProposalStore *)

Definition new : ProposalStore := mkProposalStore ∅ ∅ ∅ 0.

Definition set_proposals (s : ProposalStore) ps := 
  mkProposalStore ps (phases s) (emergency_proposals s) (next_proposal_nonce s).
Definition set_phases (s : ProposalStore) ph :=
  mkProposalStore (proposals s) ph (emergency_proposals s) (next_proposal_nonce s).
Definition set_emergencies (s : ProposalStore) es :=
  mkProposalStore (proposals s) (phases s) es (next_proposal_nonce s).

(** Writes of the phase and of the core status of a proposal. *)
Definition put_phase (s : ProposalStore) (id : Hash) (p : Proposal) (ph : ProposalPhase)
    (st : ProposalStatus) : ProposalStore :=
  set_proposals (set_phases s (<[id := ph]> (phases s)))
    (<[id := set_status p st]> (proposals s)).

Section store.
Context `{!HashLib, !ChronoLib}.

Definition generate_id (s : ProposalStore) (proposer : NodeId) (now : DateTime)
  : ProposalStore * Hash :=
  let preimage := str_bytes "gratia-proposal-v1:" ++ proposer
                    ++ le_bytes 8 (timestamp now) ++ le_bytes 8 (next_proposal_nonce s) in
  (mkProposalStore (proposals s) (phases s) (emergency_proposals s)
     (wadd 64 (next_proposal_nonce s) 1),
   sha256 preimage).

(** [None] is a panic of the date arithmetic. *)
Definition submit_proposal (s : ProposalStore) (proposer : NodeId) (proposer_pol_days : Z)
    (title description : string) (data : bytes) (eligible : Z)
    (config : GovernanceConfig) (now : DateTime)
  : option (ProposalStore * result GovernanceError Hash) :=
  if decide (proposer_pol_days < min_proposer_history_days config) then
    Some (s, Err (InsufficientHistory proposer_pol_days (min_proposer_history_days config)))
  else
    let '(s, id) := generate_id s proposer now in
    discussion_ends ← add_seconds now (as_i64 (discussion_period_secs config));
    voting_ends ← add_seconds discussion_ends (as_i64 (voting_period_secs config));
    implementation_date ← add_seconds voting_ends (as_i64 (implementation_delay_secs config));
    let proposal := mkProposal id proposer title description data now discussion_ends
                      voting_ends implementation_date Status_Discussion 0 0 0 eligible in
    Some (mkProposalStore (<[id := proposal]> (proposals s)) (<[id := Discussion]> (phases s))
            (emergency_proposals s) (next_proposal_nonce s),
          Ok id).

Definition cancel_proposal (s : ProposalStore) (proposal_id : Hash) (requester : NodeId)
  : ProposalStore * result GovernanceError unit :=
  let? proposal := ok_or (proposals s !! proposal_id)
                     (ProposalNotFound (hex_encode proposal_id)) at s in
  if decide (p_proposer proposal <> requester) then (s, Err NotProposer)
  else
    let phase := default Discussion (phases s !! proposal_id) in
    if decide (phase <> Discussion) then (s, Err CannotCancel)
    else
      let s := set_phases s (<[proposal_id := Cancelled]> (phases s)) in
      let s := match proposals s !! proposal_id with
               | Some p => set_proposals s
                   (<[proposal_id := set_status p Status_Rejected]> (proposals s))
               | None => s
               end in
      (s, Ok tt).

Definition advance_proposal (s : ProposalStore) (proposal_id : Hash) (now : DateTime)
  : ProposalStore :=
  match phases s !! proposal_id with
  | None => s
  | Some phase =>
      match proposals s !! proposal_id with
      | None => s
      | Some proposal =>
          match phase with
          | Discussion =>
              if decide (now >= discussion_ends proposal)
              then put_phase s proposal_id proposal Voting Status_Voting else s
          | Voting =>
              if decide (now >= voting_ends proposal) then
                if passed proposal
                then put_phase s proposal_id proposal Approved Status_Approved
                else put_phase s proposal_id proposal Rejected Status_Rejected
              else s
          | Approved =>
              if decide (now >= implementation_date proposal)
              then put_phase s proposal_id proposal Executed Status_Implemented else s
          | Draft | Rejected | Executed | Cancelled => s
          end
      end
  end.

(** The deadline check of one emergency proposal. *)
Definition check_deadline (now : DateTime) (ep : EmergencyProposal) : EmergencyProposal :=
  if activated ep && negb (ratified ep) && negb (reverted ep)
     && bool_decide (now >= ratification_deadline ep)
  then set_flags ep (activated ep) (ratified ep) true else ep.

Definition revert_expired (now : DateTime) (s : ProposalStore) (id : Hash) : ProposalStore :=
  match emergency_proposals s !! id with
  | Some ep => set_emergencies s (<[id := check_deadline now ep]> (emergency_proposals s))
  | None => s
  end.

(** The two loops over the key lists [ids] and [emergency_ids]. *)
Definition advance_ids (s : ProposalStore) (ids emergency_ids : list Hash) (now : DateTime)
  : ProposalStore :=
  foldl (revert_expired now) (foldl (fun s id => advance_proposal s id now) s ids)
    emergency_ids.

Definition advance_all (s : ProposalStore) (now : DateTime) : ProposalStore :=
  advance_ids s (map_to_list (proposals s)).*1 (map_to_list (emergency_proposals s)).*1 now.

(** [None] is a panic of the date arithmetic. *)
Definition submit_emergency (s : ProposalStore) (proposer : NodeId)
    (title description : string) (data : bytes) (size : Z)
    (config : GovernanceConfig) (now : DateTime) : option (ProposalStore * Hash) :=
  let '(s, id) := generate_id s proposer now in
  ratification_deadline ← add_seconds now (as_i64 (emergency_ratification_secs config));
  let ep := mkEmergency id proposer title description data now ratification_deadline
              ∅ size false false false in
  Some (set_emergencies s (<[id := ep]> (emergency_proposals s)), id).

Definition approve_emergency (s : ProposalStore) (emergency_id : Hash) (approver : NodeId)
    (committee : list NodeId) (config : GovernanceConfig)
  : ProposalStore * result GovernanceError bool :=
  if decide (approver ∉ committee) then (s, Err NotOnCommittee)
  else
    let? ep := ok_or (emergency_proposals s !! emergency_id)
                 (EmergencyProposalNotFound (hex_encode emergency_id)) at s in
    if activated ep || reverted ep then (s, Err EmergencyAlreadyResolved)
    else if decide (approver ∈ approvals ep) then (s, Ok false)
    else
      let ep := set_approvals ep ({[approver]} ∪ approvals ep) in
      if negb (activated ep) && has_supermajority ep (emergency_threshold_bps config) then
        let ep := set_flags ep true (ratified ep) (reverted ep) in
        (set_emergencies s (<[emergency_id := ep]> (emergency_proposals s)), Ok true)
      else
        (set_emergencies s (<[emergency_id := ep]> (emergency_proposals s)), Ok false).

Definition ratify_emergency (s : ProposalStore) (emergency_id : Hash)
  : ProposalStore * result GovernanceError unit :=
  let? ep := ok_or (emergency_proposals s !! emergency_id)
               (EmergencyProposalNotFound (hex_encode emergency_id)) at s in
  if negb (activated ep) || reverted ep then (s, Err EmergencyAlreadyResolved)
  else
    (set_emergencies s
       (<[emergency_id := set_flags ep (activated ep) true (reverted ep)]>
          (emergency_proposals s)), Ok tt).

(** What a submission that does not panic leaves. *)
Lemma submit_proposal_cases s p days t d da e c now s' r :
  submit_proposal s p days t d da e c now = Some (s', r) ->
  s' = s \/
  exists t1 t2 t3,
    let id := snd (generate_id s p now) in
    s' = mkProposalStore
           (<[id := mkProposal id p t d da now t1 t2 t3 Status_Discussion 0 0 0 e]> (proposals s))
           (<[id := Discussion]> (phases s)) (emergency_proposals s)
           (wadd 64 (next_proposal_nonce s) 1).
Proof.
  unfold submit_proposal. case_decide; [intros [= <- _]; by left|].
  destruct (add_seconds now _) as [t1|]; [|done]. cbn [mbind option_bind].
  destruct (add_seconds t1 _) as [t2|]; [|done]. cbn [mbind option_bind].
  destruct (add_seconds t2 _) as [t3|]; [|done]. intros [= <- _]. right. by exists t1, t2, t3.
Qed.

Lemma submit_emergency_cases s p t d da sz c now s' id :
  submit_emergency s p t d da sz c now = Some (s', id) ->
  exists t1, id = snd (generate_id s p now)
    /\ s' = mkProposalStore (proposals s) (phases s)
              (<[id := mkEmergency id p t d da now t1 ∅ sz false false false]>
                 (emergency_proposals s)) (wadd 64 (next_proposal_nonce s) 1).
Proof.
  unfold submit_emergency. destruct (add_seconds now _) as [t1|]; [|done].
  intros [= <- <-]. by exists t1.
Qed.

Definition get_proposal (s : ProposalStore) (id : Hash) : option Proposal :=
  proposals s !! id.
Definition get_phase (s : ProposalStore) (id : Hash) : option ProposalPhase :=
  phases s !! id.
Definition get_emergency (s : ProposalStore) (id : Hash) : option EmergencyProposal :=
  emergency_proposals s !! id.
Definition all_proposals (s : ProposalStore) : list Proposal :=
  (map_to_list (proposals s)).*2.
Definition active_proposals (s : ProposalStore) : list Proposal :=
  filter (fun p => status p = Status_Discussion \/ status p = Status_Voting)
    (all_proposals s).

(** ** The lifecycle *)

(** The timed transitions of a proposal [p] at time [now]. *)
Inductive phase_step (now : DateTime) (p : Proposal) : ProposalPhase -> ProposalPhase -> Prop :=
| step_open : discussion_ends p <= now -> phase_step now p Discussion Voting
| step_approve :
    voting_ends p <= now -> passed p = true -> phase_step now p Voting Approved
| step_reject :
    voting_ends p <= now -> passed p = false -> phase_step now p Voting Rejected
| step_execute : implementation_date p <= now -> phase_step now p Approved Executed.

Definition terminal (ph : ProposalPhase) : Prop :=
  ph = Rejected \/ ph = Executed \/ ph = Cancelled.

(** The transition taken by one traversal, as a function. *)
Definition next_phase (now : DateTime) (p : Proposal) (ph : ProposalPhase) : ProposalPhase :=
  match ph with
  | Discussion => if decide (now >= discussion_ends p) then Voting else Discussion
  | Voting => if decide (now >= voting_ends p)
              then (if passed p then Approved else Rejected) else Voting
  | Approved => if decide (now >= implementation_date p) then Executed else Approved
  | ph => ph
  end.

Lemma next_phase_step now p ph :
  next_phase now p ph <> ph -> phase_step now p ph (next_phase now p ph).
Proof.
  destruct ph; simpl; repeat case_decide; try done; intros _;
    [constructor; lia| |constructor; lia].
  destruct (passed p) eqn:?; constructor; (lia || done).
Qed.

Lemma phase_step_next now p ph ph' : phase_step now p ph ph' -> next_phase now p ph = ph'.
Proof.
  destruct 1; simpl; (rewrite decide_True by lia); by try match goal with
    H : passed p = _ |- _ => rewrite H end.
Qed.

(** What the store knows about one proposal, and its advance. *)
Definition entry (s : ProposalStore) (i : Hash) : option ProposalPhase * option Proposal :=
  (phases s !! i, proposals s !! i).

Definition advance_entry (now : DateTime) (e : option ProposalPhase * option Proposal) :=
  match e with
  | (Some ph, Some p) =>
      let ph' := next_phase now p ph in
      (Some ph', Some (if decide (ph' = ph) then p else set_status p (to_core_status ph')))
  | e => e
  end.

Lemma entry_put s id p ph st i :
  entry (put_phase s id p ph st) i
  = if decide (i = id) then (Some ph, Some (set_status p st)) else entry s i.
Proof.
  unfold entry, put_phase; simpl. case_decide; subst.
  - by rewrite !lookup_insert_eq.
  - by rewrite !lookup_insert_ne by done.
Qed.

Lemma entry_advance s id now i :
  entry (advance_proposal s id now) i
  = if decide (i = id) then advance_entry now (entry s i) else entry s i.
Proof.
  unfold advance_proposal.
  destruct (phases s !! id) as [ph|] eqn:Hph;
    [destruct (proposals s !! id) as [p|] eqn:Hp|].
  - assert (entry s id = (Some ph, Some p)) as He by (unfold entry; by rewrite Hph, Hp).
    destruct (decide (i = id)) as [->|Hne]; [rewrite He|]; destruct ph; simpl;
      repeat case_decide; try destruct (passed p) eqn:?; rewrite ?entry_put, ?He;
      rewrite ?decide_True, ?decide_False by done; done.
  - case_decide; subst; unfold entry; by rewrite ?Hph, ?Hp.
  - case_decide; subst; unfold entry; by rewrite ?Hph.
Qed.

Lemma advance_frame s id now :
  emergency_proposals (advance_proposal s id now) = emergency_proposals s
  /\ next_proposal_nonce (advance_proposal s id now) = next_proposal_nonce s.
Proof. unfold advance_proposal. by repeat case_match. Qed.

Lemma revert_frame now s id i :
  entry (revert_expired now s id) i = entry s i
  /\ next_proposal_nonce (revert_expired now s id) = next_proposal_nonce s.
Proof. unfold revert_expired. by case_match. Qed.

Lemma entry_advance_list now ids s i :
  NoDup ids ->
  entry (foldl (fun s id => advance_proposal s id now) s ids) i
  = if decide (i ∈ ids) then advance_entry now (entry s i) else entry s i.
Proof.
  revert s. induction ids as [|id ids IH]; intros s Hnd; simpl.
  - done.
  - apply NoDup_cons in Hnd as [Hid Hnd]. rewrite IH by done. rewrite entry_advance.
    destruct (decide (i = id)) as [->|Hne].
    + rewrite (decide_False (P := id ∈ ids)) by done. by rewrite decide_True by left.
    + destruct (decide (i ∈ ids)).
      * by rewrite decide_True by (by right).
      * rewrite decide_False; [done|]. by intros [?|?]%elem_of_cons.
Qed.

Lemma advance_list_frame now ids s :
  emergency_proposals (foldl (fun s id => advance_proposal s id now) s ids)
    = emergency_proposals s
  /\ next_proposal_nonce (foldl (fun s id => advance_proposal s id now) s ids)
     = next_proposal_nonce s.
Proof.
  revert s. induction ids as [|id ids IH]; intros s; simpl; [done|].
  destruct (IH (advance_proposal s id now)) as [-> ->]. apply advance_frame.
Qed.

Lemma revert_list_frame now ids s i :
  entry (foldl (revert_expired now) s ids) i = entry s i
  /\ next_proposal_nonce (foldl (revert_expired now) s ids) = next_proposal_nonce s.
Proof.
  revert s. induction ids as [|id ids IH]; intros s; simpl; [done|].
  destruct (IH (revert_expired now s id)) as [-> ->]. apply revert_frame.
Qed.

Lemma emergencies_revert now s id i :
  emergency_proposals (revert_expired now s id) !! i
  = if decide (i = id) then check_deadline now <$> (emergency_proposals s !! i)
    else emergency_proposals s !! i.
Proof.
  unfold revert_expired. destruct (emergency_proposals s !! id) as [ep|] eqn:E;
    case_decide; subst; simpl; rewrite ?E; try done;
    first [by rewrite lookup_insert_eq|by rewrite lookup_insert_ne].
Qed.

Lemma emergencies_revert_list now ids s i :
  NoDup ids ->
  emergency_proposals (foldl (revert_expired now) s ids) !! i
  = if decide (i ∈ ids) then check_deadline now <$> (emergency_proposals s !! i)
    else emergency_proposals s !! i.
Proof.
  revert s. induction ids as [|id ids IH]; intros s Hnd; simpl.
  - done.
  - apply NoDup_cons in Hnd as [Hid Hnd]. rewrite IH by done.
    rewrite emergencies_revert.
    destruct (decide (i = id)) as [->|Hne].
    + rewrite (decide_False (P := id ∈ ids)) by done. by rewrite decide_True by left.
    + destruct (decide (i ∈ ids)).
      * by rewrite decide_True by (by right).
      * rewrite decide_False; [done|]. by intros [?|?]%elem_of_cons.
Qed.

Lemma keys_NoDup {A} (m : gmap Hash A) : NoDup (map_to_list m).*1.
Proof. apply NoDup_fst_map_to_list. Qed.

Lemma elem_of_keys {A} (m : gmap Hash A) i : i ∈ (map_to_list m).*1 <-> is_Some (m !! i).
Proof.
  rewrite list_elem_of_fmap. split.
  - intros ([k x] & -> & Hk). apply elem_of_map_to_list in Hk. by exists x.
  - intros [x Hx]. exists (i, x). split; [done|]. by apply elem_of_map_to_list.
Qed.

(** One traversal, pointwise, for any order of the keys. *)
Lemma advance_ids_spec s ids eids now :
  ids ≡ₚ (map_to_list (proposals s)).*1 ->
  eids ≡ₚ (map_to_list (emergency_proposals s)).*1 ->
  (forall i, entry (advance_ids s ids eids now) i = advance_entry now (entry s i))
  /\ emergency_proposals (advance_ids s ids eids now)
     = check_deadline now <$> emergency_proposals s
  /\ next_proposal_nonce (advance_ids s ids eids now) = next_proposal_nonce s.
Proof.
  intros Hi He. unfold advance_ids.
  set (s1 := foldl (fun s id => advance_proposal s id now) s ids).
  assert (NoDup ids) as Hn1 by (rewrite Hi; apply keys_NoDup).
  assert (NoDup eids) as Hn2 by (rewrite He; apply keys_NoDup).
  split; [|split].
  - intros i. rewrite (proj1 (revert_list_frame now eids s1 i)). unfold s1.
    rewrite entry_advance_list by done. case_decide as Hin; [done|].
    rewrite Hi, elem_of_keys in Hin. apply eq_None_not_Some in Hin.
    unfold entry. rewrite Hin. by destruct (phases s !! i).
  - apply map_eq. intros i. rewrite emergencies_revert_list by done.
    rewrite lookup_fmap. unfold s1. rewrite (proj1 (advance_list_frame now ids s)).
    case_decide as Hin; [done|].
    rewrite He, elem_of_keys in Hin. apply eq_None_not_Some in Hin. by rewrite Hin.
  - rewrite (proj2 (revert_list_frame now eids s1 [])). unfold s1. apply advance_list_frame.
Qed.

Lemma advance_all_spec s now :
  (forall i, entry (advance_all s now) i = advance_entry now (entry s i))
  /\ emergency_proposals (advance_all s now) = check_deadline now <$> emergency_proposals s
  /\ next_proposal_nonce (advance_all s now) = next_proposal_nonce s.
Proof. by apply advance_ids_spec. Qed.

Lemma store_ext s1 s2 :
  (forall i, entry s1 i = entry s2 i) ->
  emergency_proposals s1 = emergency_proposals s2 ->
  next_proposal_nonce s1 = next_proposal_nonce s2 -> s1 = s2.
Proof.
  intros He Hm Hn. destruct s1, s2; simpl in *; subst. f_equal;
    apply map_eq; intros i; specialize (He i); unfold entry in He; simpl in He; congruence.
Qed.

(** A tick does not depend on the iteration order of the hash maps: traversing
    the standard and the emergency proposals in any order gives the same store as
    [advance_all]. *)
Theorem advance_all_order_independent s ids eids now :
  ids ≡ₚ (map_to_list (proposals s)).*1 ->
  eids ≡ₚ (map_to_list (emergency_proposals s)).*1 ->
  advance_ids s ids eids now = advance_all s now.
Proof.
  intros Hi He. destruct (advance_ids_spec s ids eids now Hi He) as (? & ? & ?).
  destruct (advance_all_spec s now) as (? & ? & ?).
  apply store_ext; intros; congruence.
Qed.

(** ** Outcome of a vote *)

Lemma passed_quorum p : passed p = true -> quorum_met p = true.
Proof. unfold passed. by destruct (quorum_met p). Qed.

Lemma passed_iff p :
  u64 (votes_yes p) -> u64 (votes_no p) -> u64 (votes_abstain p) ->
  0 <= eligible_voters p < max_val 64 ->
  passed p = true <->
  votes_no p < votes_yes p
  /\ eligible_voters p / 5 <= votes_yes p + votes_no p + votes_abstain p
     <= eligible_voters p.
Proof.
  unfold passed, quorum_met. intros Hy Hn Ha He.
  unfold_ints.
  destruct (decide (eligible_voters p = 0)) as [E0|E0]; simpl.
  { split; [done|]. intros; exfalso; lia. }
  case_decide as Ht; simpl.
  { split; [done|]. intros; exfalso; lia. }
  case_bool_decide as Hq; simpl; [|split; [done|]; intros; exfalso; lia].
  case_decide as Hg; [split; [done|]; intros; exfalso; lia|].
  case_bool_decide; split; intros; (done || lia || (exfalso; lia)).
Qed.
End store.

(** The order-independence hypotheses hold of the reversed key list of a store with
    two proposals. *)
Definition two_proposals : ProposalStore :=
  let H := reference_hash in
  let C := reference_chrono in
  default new
    (r ← submit_proposal new [1] 100 "a" "a" [] 10 default_GovernanceConfig 0;
     fst <$> submit_proposal r.1 [2] 100 "b" "b" [] 10 default_GovernanceConfig 0).

Lemma advance_all_order_independent_witness :
  let now := duration_seconds (15 * 24 * 3600) in
  advance_ids two_proposals (rev (map_to_list (proposals two_proposals)).*1) [] now
  = advance_all two_proposals now.
Proof.
  intros now. apply advance_all_order_independent.
  - symmetry. apply Permutation_rev.
  - vm_compute. reflexivity.
Defined.

End Proposals.
