(* ===== verification/GovVoting.v ===== *)
(** * gratia-governance: voting

    [crates/gratia-governance/src/voting.rs].  The voting manager keeps, per
    proposal, the set of nodes that voted and the list of votes, and bumps the tally
    of the proposal in the [ProposalStore] it is handed. *)

From stdpp Require Import base gmap strings list fin_maps pretty.
From Stdlib Require Import ZArith Lia.
From S2P Require Import Prelude CoreTypes ThirdParty GovProposals.
Local Open Scope Z_scope.

Inductive Vote := Yes | No | Abstain.

#[export] Instance Vote_eq_dec : EqDecision Vote.
Proof. solve_decision. Defined.

Record VoteRecord := mkVoteRecord {
  vr_voter : NodeId;
  vr_vote : Vote;
  vr_timestamp : DateTime
}.

Record VoteResults := mkVoteResults {
  res_proposal_id : Hash;
  res_votes_yes : Z;
  res_votes_no : Z;
  res_votes_abstain : Z;
  res_total_votes : Z;
  res_eligible_voters : Z;
  res_quorum_met : bool;
  res_passed : bool
}.

Record VotingManager := mkVotingManager {
  voted : gmap Hash (gset NodeId);
  records : gmap Hash (list VoteRecord)
}.

Module Ballots.

Definition new : VotingManager := mkVotingManager ∅ ∅.

(** [format!("{:?}", status)] *)
Definition debug_status (s : ProposalStatus) : string :=
  match s with
  | Status_Discussion => "Discussion"
  | Status_Voting => "Voting"
  | Status_Approved => "Approved"
  | Status_Rejected => "Rejected"
  | Status_Implemented => "Implemented"
  | Status_Reverted => "Reverted"
  end.

(** The tally update of a proposal. *)
Definition bump (p : Proposal) (v : Vote) : Proposal :=
  match v with
  | Yes => Proposals.set_votes p (wadd 64 (votes_yes p) 1) (votes_no p) (votes_abstain p)
  | No => Proposals.set_votes p (votes_yes p) (wadd 64 (votes_no p) 1) (votes_abstain p)
  | Abstain => Proposals.set_votes p (votes_yes p) (votes_no p) (wadd 64 (votes_abstain p) 1)
  end.

Section ballots.
Context `{!HashLib}.

Definition cast_vote (vm : VotingManager) (ps : ProposalStore) (proposal_id : Hash)
    (voter : NodeId) (vote : Vote) (has_valid_pol : bool) (now : DateTime)
  : (VotingManager * ProposalStore) * result GovernanceError unit :=
  if negb has_valid_pol then ((vm, ps), Err NoValidProofOfLife)
  else
    let? proposal := ok_or (Proposals.get_proposal ps proposal_id)
                       (ProposalNotFound (hex_encode proposal_id)) at (vm, ps) in
    if decide (status proposal <> Status_Voting) then
      ((vm, ps), Err (WrongPhase "Voting" (debug_status (status proposal))))
    else
      let voters := default ∅ (voted vm !! proposal_id) in
      if decide (voter ∈ voters) then
        ((mkVotingManager (<[proposal_id := voters]> (voted vm)) (records vm), ps),
         Err (AlreadyVoted voter))
      else
        let vm := mkVotingManager
          (<[proposal_id := {[voter]} ∪ voters]> (voted vm))
          (<[proposal_id := default [] (records vm !! proposal_id)
                              ++ [mkVoteRecord voter vote now]]> (records vm)) in
        let? proposal := ok_or (proposals ps !! proposal_id)
                           (ProposalNotFound (hex_encode proposal_id)) at (vm, ps) in
        ((vm, Proposals.set_proposals ps (<[proposal_id := bump proposal vote]> (proposals ps))),
         Ok tt).

Definition get_vote_results (p : Proposal) : VoteResults :=
  let total_votes :=
    saturating_add 64 (saturating_add 64 (votes_yes p) (votes_no p)) (votes_abstain p) in
  {| res_proposal_id := p_id p;
     res_votes_yes := votes_yes p;
     res_votes_no := votes_no p;
     res_votes_abstain := votes_abstain p;
     res_total_votes := total_votes;
     res_eligible_voters := eligible_voters p;
     res_quorum_met := Proposals.quorum_met p;
     res_passed := Proposals.passed p |}.

Definition get_records (vm : VotingManager) (proposal_id : Hash) : list VoteRecord :=
  default [] (records vm !! proposal_id).
Definition has_voted (vm : VotingManager) (proposal_id : Hash) (node_id : NodeId) : bool :=
  match voted vm !! proposal_id with
  | Some set => bool_decide (node_id ∈ set)
  | None => false
  end.
Definition vote_count (vm : VotingManager) (proposal_id : Hash) : Z :=
  match records vm !! proposal_id with
  | Some v => Z.of_nat (length v)
  | None => 0
  end.

(** ** Counting *)

(** How many of the records carry the vote [v]. *)
Definition count_votes (v : Vote) (l : list VoteRecord) : Z :=
  Z.of_nat (length (filter (fun r => vr_vote r = v) l)).

Lemma count_votes_app v l l' : count_votes v (l ++ l') = count_votes v l + count_votes v l'.
Proof. unfold count_votes. rewrite filter_app, length_app. lia. Qed.

Lemma count_votes_one v r :
  count_votes v [r] = if decide (vr_vote r = v) then 1 else 0.
Proof. unfold count_votes. cbn [filter list_filter]. by case_decide. Qed.

Lemma count_votes_total l :
  count_votes Yes l + count_votes No l + count_votes Abstain l = Z.of_nat (length l).
Proof.
  induction l as [|r l IH]; [done|].
  change (r :: l) with ([r] ++ l). rewrite !count_votes_app, !count_votes_one, length_app.
  destruct (vr_vote r); repeat case_decide; simpl; try congruence; lia.
Qed.

Lemma count_votes_nonneg v l : 0 <= count_votes v l.
Proof. unfold count_votes. lia. Qed.

(** The tally of a proposal, up to the wrap-around of its counters, is the number
    of records of each kind; every voter has one record. *)
Definition tally_ok (vm : VotingManager) (id : Hash) (p : Proposal) : Prop :=
  let l := get_records vm id in
  votes_yes p = wrap 64 (count_votes Yes l)
  /\ votes_no p = wrap 64 (count_votes No l)
  /\ votes_abstain p = wrap 64 (count_votes Abstain l)
  /\ NoDup (vr_voter <$> l)
  /\ default ∅ (voted vm !! id) = list_to_set (vr_voter <$> l).

Lemma cast_vote_ok vm ps id voter vote pol now vm' ps' :
  cast_vote vm ps id voter vote pol now = ((vm', ps'), Ok tt) ->
  exists p, proposals ps !! id = Some p /\ pol = true /\ status p = Status_Voting
    /\ voter ∉ default ∅ (voted vm !! id)
    /\ vm' = mkVotingManager
               (<[id := {[voter]} ∪ default ∅ (voted vm !! id)]> (voted vm))
               (<[id := get_records vm id ++ [mkVoteRecord voter vote now]]> (records vm))
    /\ ps' = Proposals.set_proposals ps (<[id := bump p vote]> (proposals ps)).
Proof.
  unfold cast_vote, Proposals.get_proposal, get_records.
  destruct pol; simpl; [|done].
  destruct (proposals ps !! id) as [p|] eqn:Hp; simpl; [|done].
  case_decide; [done|]. case_decide; [done|]. simpl. intros [= <- <-].
  exists p. split_and!; try done.
Qed.

Lemma tally_bump vm id p voter vote now :
  tally_ok vm id p -> voter ∉ default ∅ (voted vm !! id) ->
  tally_ok (mkVotingManager
               (<[id := {[voter]} ∪ default ∅ (voted vm !! id)]> (voted vm))
               (<[id := get_records vm id ++ [mkVoteRecord voter vote now]]> (records vm)))
    id (bump p vote).
Proof.
  unfold tally_ok, get_records; simpl. rewrite !lookup_insert_eq; simpl.
  intros (Hy & Hn & Ha & Hnd & Hv) Hnew. rewrite Hv in Hnew |- *.
  rewrite !count_votes_app, !count_votes_one, !fmap_app, list_to_set_app_L; simpl.
  split_and!.
  1-3: destruct vote; simpl; rewrite ?Hy, ?Hn, ?Ha, ?wadd_wrap; repeat case_decide;
    simplify_eq/=; by rewrite ?Z.add_0_r.
  - apply NoDup_app. split_and!; [done| |apply NoDup_singleton].
    intros x Hx ->%list_elem_of_singleton. apply Hnew. by apply elem_of_list_to_set.
  - set_solver.
Qed.

Lemma cast_vote_err vm ps id voter vote pol now vm' ps' e :
  cast_vote vm ps id voter vote pol now = ((vm', ps'), Err e) ->
  ps' = ps /\ records vm' = records vm
  /\ forall i, default ∅ (voted vm' !! i) = default ∅ (voted vm !! i).
Proof.
  unfold cast_vote, Proposals.get_proposal. destruct pol; simpl; [|by intros [= <- <- <-]].
  destruct (proposals ps !! id) as [p|] eqn:Hp; simpl; [|by intros [= <- <- <-]].
  case_decide; [by intros [= <- <- <-]|]. case_decide; [|done].
  intros [= <- <- <-]. split_and!; [done..|]. intros i; simpl.
  destruct (decide (i = id)) as [->|].
  - by rewrite lookup_insert_eq.
  - by rewrite lookup_insert_ne by done.
Qed.
End ballots.

End Ballots.
