(* ===== verification/GovPolling.v ===== *)
(** * gratia-governance: on-chain polls

    [crates/gratia-governance/src/polling.rs].  A panic (an index out of the bounds
    of the tally, an expiry date [chrono] cannot hold) is [None]; the invariant [poll_inv]
    excludes the first.  The geographic
    filter is the haversine formula over the operations of [FloatLib]. *)

From stdpp Require Import base gmap strings list fin_maps pretty.
From Stdlib Require Import ZArith Lia.
From S2P Require Import Prelude CoreTypes ThirdParty GovProposals.
Local Open Scope Z_scope.

Section types.
Context `{!FloatLib}.

Record GeoLocation := mkGeoLocation { loc_lat : f32; loc_lon : f32 }.

Record GeographicFilter := mkGeographicFilter {
  filter_lat : f64;
  filter_lon : f64;
  radius_km : f64
}.

Record Poll := mkPoll {
  poll_id : Hash;
  creator : Address;
  question : string;
  options : list string;
  created_at : DateTime;
  expires_at : DateTime;
  votes : list Z;
  total_voters : Z;
  geographic_filter : option GeographicFilter;
  creation_fee : Lux
}.

Record PollVoteRecord := mkPollVoteRecord {
  pv_voter : NodeId;
  pv_option_index : Z;
  pv_timestamp : DateTime
}.

Record PollStore := mkPollStore {
  polls : gmap Hash Poll;
  poll_voted : gmap Hash (gset NodeId);
  poll_records : gmap Hash (list PollVoteRecord);
  next_poll_nonce : Z
}.

Record PollOptionResult := mkPollOptionResult {
  por_index : Z;
  por_label : string;
  por_votes : Z;
  por_percentage : f64
}.

Record PollResults := mkPollResults {
  pr_poll_id : Hash;
  pr_question : string;
  pr_total_voters : Z;
  pr_options : list PollOptionResult;
  pr_expired : bool
}.
End types.

Module Polling.

Section polls.
Context `{!HashLib, !FloatLib, !ChronoLib}.

Definition is_within_radius (location : GeoLocation) (filter : GeographicFilter) : bool :=
  let EARTH_RADIUS_KM := f64_of_Z 6371 in
  let two := f64_of_Z 2 in
  let lat1 := to_radians (f64_of_f32 (loc_lat location)) in
  let lat2 := to_radians (filter_lat filter) in
  let dlat := to_radians (f64_sub (filter_lat filter) (f64_of_f32 (loc_lat location))) in
  let dlon := to_radians (f64_sub (filter_lon filter) (f64_of_f32 (loc_lon location))) in
  let a := f64_add (powi (f64_sin (f64_div dlat two)) 2)
             (f64_mul (f64_mul (f64_cos lat1) (f64_cos lat2))
                      (powi (f64_sin (f64_div dlon two)) 2)) in
  let c := f64_mul two (f64_asin (f64_sqrt a)) in
  let distance_km := f64_mul EARTH_RADIUS_KM c in
  f64_le distance_km (radius_km filter).

Definition new : PollStore := mkPollStore ∅ ∅ ∅ 0.

Definition generate_id (s : PollStore) (creator : Address) (now : DateTime)
  : PollStore * Hash :=
  let preimage := str_bytes "gratia-poll-v1:" ++ creator
                    ++ le_bytes 8 (timestamp now) ++ le_bytes 8 (next_poll_nonce s) in
  (mkPollStore (polls s) (poll_voted s) (poll_records s) (wadd 64 (next_poll_nonce s) 1),
   sha256 preimage).

(** [None] is a panic of the date arithmetic. *)
Definition create_poll (s : PollStore) (creator : Address) (question : string)
    (options : list string) (duration_secs : Z) (filter : option GeographicFilter)
    (creator_balance : Lux) (config : GovernanceConfig) (now : DateTime)
  : option (PollStore * result GovernanceError Hash) :=
  if decide (question = ""%string) then Some (s, Err EmptyQuestion)
  else if decide (Z.of_nat (length options) < 2) then Some (s, Err TooFewOptions)
  else if decide (creator_balance < poll_creation_fee config) then
    Some (s, Err (InsufficientBalance creator_balance (poll_creation_fee config)))
  else
    let '(s, id) := generate_id s creator now in
    expires_at ← add_seconds now (as_i64 duration_secs);
    let vote_counts := replicate (length options) 0 in
    let poll := mkPoll id creator question options now expires_at vote_counts 0 filter
                  (poll_creation_fee config) in
    Some (mkPollStore (<[id := poll]> (polls s)) (poll_voted s) (poll_records s)
            (next_poll_nonce s), Ok id).

Definition set_tally (p : Poll) (v : list Z) (n : Z) : Poll :=
  mkPoll (poll_id p) (creator p) (question p) (options p) (created_at p) (expires_at p)
    v n (geographic_filter p) (creation_fee p).

(** The geographic guard. *)
Definition location_ok (poll : Poll) (voter_location : option GeoLocation) : bool :=
  match geographic_filter poll with
  | Some filter =>
      match voter_location with
      | Some location => is_within_radius location filter
      | None => false
      end
  | None => true
  end.

Definition cast_poll_vote (s : PollStore) (id : Hash) (voter : NodeId) (option_index : Z)
    (has_valid_pol : bool) (voter_location : option GeoLocation) (now : DateTime)
  : option (PollStore * result GovernanceError unit) :=
  if negb has_valid_pol then Some (s, Err NoValidProofOfLife)
  else
    match polls s !! id with
    | None => Some (s, Err (PollNotFound (hex_encode id)))
    | Some poll =>
        if decide (now >= expires_at poll) then Some (s, Err PollExpired)
        else if decide (option_index >= Z.of_nat (length (options poll))) then
          Some (s, Err (InvalidOptionIndex option_index (Z.of_nat (length (options poll)))))
        else if negb (location_ok poll voter_location) then
          Some (s, Err OutsideGeographicFilter)
        else
          let voters := default ∅ (poll_voted s !! id) in
          if decide (voter ∈ voters) then
            Some (mkPollStore (polls s) (<[id := voters]> (poll_voted s)) (poll_records s)
                    (next_poll_nonce s), Err (AlreadyVotedPoll voter))
          else
            let s := mkPollStore (polls s)
              (<[id := {[voter]} ∪ voters]> (poll_voted s))
              (<[id := default [] (poll_records s !! id)
                         ++ [mkPollVoteRecord voter option_index now]]> (poll_records s))
              (next_poll_nonce s) in
            match votes poll !! Z.to_nat option_index with
            | None => None
            | Some n =>
                let poll := set_tally poll
                  (<[Z.to_nat option_index := wadd 64 n 1]> (votes poll))
                  (wadd 64 (total_voters poll) 1) in
                Some (mkPollStore (<[id := poll]> (polls s)) (poll_voted s)
                        (poll_records s) (next_poll_nonce s), Ok tt)
            end
    end.

(** The row of option [i]; [None] when the tally has no such index. *)
Definition option_result (poll : Poll) (i : nat) (label : string) : option PollOptionResult :=
  match votes poll !! i with
  | None => None
  | Some v =>
      let percentage :=
        if decide (total_voters poll > 0)
        then f64_mul (f64_div (f64_of_Z v) (f64_of_Z (total_voters poll))) (f64_of_Z 100)
        else f64_of_Z 0 in
      Some (mkPollOptionResult (wrap 32 (Z.of_nat i)) label v percentage)
  end.

Fixpoint option_results (poll : Poll) (i : nat) (labels : list string)
  : option (list PollOptionResult) :=
  match labels with
  | [] => Some []
  | label :: labels =>
      match option_result poll i label, option_results poll (S i) labels with
      | Some r, Some rs => Some (r :: rs)
      | _, _ => None
      end
  end.

(** The outer [option] is a panic, the inner one the source's [Option]. *)
Definition get_poll_results (s : PollStore) (id : Hash) (utc_now : DateTime)
  : option (option PollResults) :=
  match polls s !! id with
  | None => Some None
  | Some poll =>
      match option_results poll 0 (options poll) with
      | None => None
      | Some rs =>
          Some (Some (mkPollResults (poll_id poll) (question poll) (total_voters poll) rs
                        (bool_decide (utc_now >= expires_at poll))))
      end
  end.

Definition get_poll (s : PollStore) (id : Hash) : option Poll := polls s !! id.
Definition all_polls (s : PollStore) : list Poll := (map_to_list (polls s)).*2.
Definition active_polls (s : PollStore) (now : DateTime) : list Poll :=
  filter (fun p => now < expires_at p) (all_polls s).
Definition get_records (s : PollStore) (id : Hash) : list PollVoteRecord :=
  default [] (poll_records s !! id).
Definition has_voted (s : PollStore) (id : Hash) (node_id : NodeId) : bool :=
  match poll_voted s !! id with
  | Some set => bool_decide (node_id ∈ set)
  | None => false
  end.

(** ** The tally invariant *)

Definition count_option (i : nat) (l : list PollVoteRecord) : Z :=
  Z.of_nat (length (filter (fun r => pv_option_index r = Z.of_nat i) l)).

Lemma count_option_snoc i l r :
  count_option i (l ++ [r])
  = count_option i l + (if decide (pv_option_index r = Z.of_nat i) then 1 else 0).
Proof.
  unfold count_option. rewrite filter_app, length_app. cbn [filter list_filter].
  case_decide; simpl; lia.
Qed.

Definition poll_ok (s : PollStore) (id : Hash) (poll : Poll) : Prop :=
  let l := get_records s id in
  poll_id poll = id
  /\ (2 <= length (options poll))%nat
  /\ votes poll = (fun i => wrap 64 (count_option i l)) <$> seq 0 (length (options poll))
  /\ total_voters poll = wrap 64 (Z.of_nat (length l))
  /\ Forall (fun r => 0 <= pv_option_index r < Z.of_nat (length (options poll))) l
  /\ NoDup (pv_voter <$> l)
  /\ default ∅ (poll_voted s !! id) = list_to_set (pv_voter <$> l).

Definition poll_inv (s : PollStore) : Prop :=
  forall id, match polls s !! id with
  | Some poll => poll_ok s id poll
  | None => get_records s id = [] /\ default ∅ (poll_voted s !! id) = ∅
  end.

Lemma poll_inv_new : poll_inv new.
Proof. intros id. unfold get_records; simpl. by rewrite !lookup_empty. Qed.

(** [poll_ok] only looks at the records and the voters of its own poll. *)
Lemma poll_ok_ext s s' id poll :
  get_records s' id = get_records s id ->
  default ∅ (poll_voted s' !! id) = default ∅ (poll_voted s !! id) ->
  poll_ok s id poll -> poll_ok s' id poll.
Proof. unfold poll_ok. by intros -> ->. Qed.

Lemma create_poll_inv s creator question options duration filter balance config now s' r :
  create_poll s creator question options duration filter balance config now = Some (s', r) ->
  poll_inv s -> polls s !! snd (generate_id s creator now) = None -> poll_inv s'.
Proof.
  intros Hc Hinv Hfresh. unfold create_poll in Hc. repeat (case_decide; [by simplify_eq|]).
  simpl in *. destruct (add_seconds _ _) as [t|]; simplify_eq/=.
  set (id := sha256 _) in *. intros i.
  destruct (decide (i = id)) as [->|Hne]; simpl.
  - rewrite lookup_insert_eq. specialize (Hinv id). rewrite Hfresh in Hinv.
    unfold poll_ok, get_records in *; simpl. destruct Hinv as [-> ->].
    split_and!; try done; [lia| |constructor].
    apply list_eq. intros j. rewrite list_lookup_fmap.
    destruct (decide (j < length options)%nat).
    + rewrite lookup_replicate_2 by done. by rewrite lookup_seq_lt.
    + rewrite !(proj2 (lookup_ge_None _ _)); [done| |]; rewrite ?length_seq, ?length_replicate; lia.
  - rewrite lookup_insert_ne by done. specialize (Hinv i).
    destruct (polls s !! i); [|done]. by apply (poll_ok_ext s).
Qed.

Lemma tally_step l n k now voter :
  0 <= k ->
  (fun i => wrap 64 (count_option i (l ++ [mkPollVoteRecord voter k now]))) <$> seq 0 n
  = alter (fun v => wadd 64 v 1) (Z.to_nat k)
      ((fun i => wrap 64 (count_option i l)) <$> seq 0 n).
Proof.
  intros Hk. apply list_eq. intros j. rewrite list_lookup_fmap.
  destruct (decide (j = Z.to_nat k)) as [->|Hne].
  - rewrite list_lookup_alter_eq, list_lookup_fmap.
    destruct (decide (Z.to_nat k < n)%nat).
    + rewrite lookup_seq_lt by done. simpl. rewrite count_option_snoc, wadd_wrap; simpl.
      by rewrite decide_True by lia.
    + by rewrite lookup_seq_ge by lia.
  - rewrite list_lookup_alter_ne, list_lookup_fmap by done.
    destruct (decide (j < n)%nat); [|by rewrite lookup_seq_ge by lia].
    rewrite lookup_seq_lt by done. simpl. rewrite count_option_snoc; simpl.
    rewrite decide_False by lia. by rewrite Z.add_0_r.
Qed.

(** Casting a vote never panics and keeps the invariant; on success it is this
    voter's only record of this poll. *)
Lemma cast_poll_vote_inv s id voter k pol loc now :
  poll_inv s -> 0 <= k ->
  exists s' r, cast_poll_vote s id voter k pol loc now = Some (s', r) /\ poll_inv s'.
Proof.
  intros Hinv Hk. unfold cast_poll_vote.
  destruct pol; simpl; [|by eauto].
  destruct (polls s !! id) as [poll|] eqn:Hp; [|by eauto].
  case_decide; [by eauto|]. case_decide as Hidx; [by eauto|].
  destruct (location_ok poll loc); simpl; [|by eauto].
  pose proof (Hinv id) as Hok. rewrite Hp in Hok.
  destruct Hok as (Hid & Hlen & Hv & Ht & Hf & Hnd & Hset).
  case_decide as Hin.
  - eexists _, _. split; [done|]. intros i; simpl. specialize (Hinv i).
    destruct (polls s !! i); [apply (poll_ok_ext s); [done| |done]|destruct Hinv; split; [done|]];
      simpl; (destruct (decide (i = id)) as [->|];
        [by rewrite lookup_insert_eq|by rewrite lookup_insert_ne]).
  - destruct (votes poll !! Z.to_nat k) as [n|] eqn:Hn.
    2:{ exfalso. rewrite Hv, list_lookup_fmap, lookup_seq_lt in Hn by lia. done. }
    eexists _, _. split; [done|]. intros i; simpl.
    destruct (decide (i = id)) as [->|Hne].
    + rewrite lookup_insert_eq. unfold poll_ok, get_records in *; simpl.
      rewrite !lookup_insert_eq; simpl. rewrite fmap_app, list_to_set_app_L, length_app; simpl.
      split_and!; try done.
      * rewrite tally_step by done. rewrite <-Hv.
        by rewrite (list_alter_insert _ _ _ n).
      * rewrite Ht, wadd_wrap. f_equal. lia.
      * apply Forall_app. split; [done|]. constructor; [simpl; lia|constructor].
      * apply NoDup_app. split_and!; [done| |apply NoDup_singleton].
        intros x Hx ->%list_elem_of_singleton. apply Hin. rewrite Hset.
        by apply elem_of_list_to_set.
      * rewrite Hset. set_solver.
    + rewrite lookup_insert_ne by done. specialize (Hinv i).
      unfold poll_ok, get_records in *; simpl. by rewrite !lookup_insert_ne by done.
Qed.
End polls.

End Polling.
