(* ===== verification/Governance.v ===== *)
(** * gratia-governance: the governance manager

    [crates/gratia-governance/src/lib.rs]: proposals, votes, emergency proposals and
    polls behind one manager.  [run_op] makes the manager a transition system over
    its public mutators; the theorems are about every reachable manager. *)

From stdpp Require Import base gmap strings list fin_maps pretty.
From Stdlib Require Import ZArith Lia.
From S2P Require Import Prelude CoreTypes ThirdParty GovProposals GovVoting GovPolling.
Local Open Scope Z_scope.

Record GovernanceManager `{!FloatLib} := mkGovernance {
  gov_config : GovernanceConfig;
  proposal_store : ProposalStore;
  voting_manager : VotingManager;
  poll_store : PollStore
}.

Module Governance.

Section manager.
Context `{!HashLib, !FloatLib, !ChronoLib}.

Definition new (config : GovernanceConfig) : GovernanceManager :=
  mkGovernance _ config Proposals.new Ballots.new Polling.new.

Definition set_store (m : GovernanceManager) (s : ProposalStore) : GovernanceManager :=
  mkGovernance _ (gov_config m) s (voting_manager m) (poll_store m).
Definition set_polls (m : GovernanceManager) (s : PollStore) : GovernanceManager :=
  mkGovernance _ (gov_config m) (proposal_store m) (voting_manager m) s.

Definition update_config (m : GovernanceManager) (c : GovernanceConfig) : GovernanceManager :=
  mkGovernance _ c (proposal_store m) (voting_manager m) (poll_store m).

Definition submit_proposal (m : GovernanceManager) proposer pol_days title description data
    eligible now : option (GovernanceManager * result GovernanceError Hash) :=
  '(s, r) ← Proposals.submit_proposal (proposal_store m) proposer pol_days title
              description data eligible (gov_config m) now;
  Some (set_store m s, r).

Definition cancel_proposal (m : GovernanceManager) id requester
  : GovernanceManager * result GovernanceError unit :=
  let '(s, r) := Proposals.cancel_proposal (proposal_store m) id requester in
  (set_store m s, r).

Definition cast_vote (m : GovernanceManager) id voter vote pol now
  : GovernanceManager * result GovernanceError unit :=
  let '((vm, ps), r) := Ballots.cast_vote (voting_manager m) (proposal_store m) id voter
                          vote pol now in
  (mkGovernance _ (gov_config m) ps vm (poll_store m), r).

Definition get_vote_results (m : GovernanceManager) (id : Hash) : option VoteResults :=
  Ballots.get_vote_results <$> Proposals.get_proposal (proposal_store m) id.

Definition submit_emergency (m : GovernanceManager) proposer title description data size now
  : option (GovernanceManager * Hash) :=
  '(s, id) ← Proposals.submit_emergency (proposal_store m) proposer title description
               data size (gov_config m) now;
  Some (set_store m s, id).

Definition approve_emergency (m : GovernanceManager) id approver committee
  : GovernanceManager * result GovernanceError bool :=
  let '(s, r) := Proposals.approve_emergency (proposal_store m) id approver committee
                   (gov_config m) in
  (set_store m s, r).

Definition ratify_emergency (m : GovernanceManager) id
  : GovernanceManager * result GovernanceError unit :=
  let '(s, r) := Proposals.ratify_emergency (proposal_store m) id in (set_store m s, r).

Definition create_poll (m : GovernanceManager) creator question options duration filter
    balance now : option (GovernanceManager * result GovernanceError Hash) :=
  '(s, r) ← Polling.create_poll (poll_store m) creator question options duration filter
              balance (gov_config m) now;
  Some (set_polls m s, r).

Definition cast_poll_vote (m : GovernanceManager) id voter index pol location now
  : option (GovernanceManager * result GovernanceError unit) :=
  match Polling.cast_poll_vote (poll_store m) id voter index pol location now with
  | Some (s, r) => Some (set_polls m s, r)
  | None => None
  end.

Definition tick (m : GovernanceManager) (now : DateTime) : GovernanceManager :=
  set_store m (Proposals.advance_all (proposal_store m) now).

(** ** The transition system *)

Inductive op :=
| OpUpdateConfig (c : GovernanceConfig)
| OpSubmit (proposer : NodeId) (pol_days : Z) (title description : string) (data : bytes)
    (eligible : Z) (now : DateTime)
| OpCancel (id : Hash) (requester : NodeId)
| OpVote (id : Hash) (voter : NodeId) (vote : Vote) (pol : bool) (now : DateTime)
| OpEmergency (proposer : NodeId) (title description : string) (data : bytes) (size : Z)
    (now : DateTime)
| OpApprove (id : Hash) (approver : NodeId) (committee : list NodeId)
| OpRatify (id : Hash)
| OpCreatePoll (creator : Address) (question : string) (options : list string)
    (duration : Z) (filter : option GeographicFilter) (balance : Lux) (now : DateTime)
| OpPollVote (id : Hash) (voter : NodeId) (index : Z) (pol : bool)
    (location : option GeoLocation) (now : DateTime)
| OpTick (now : DateTime).

(** One call; [None] is a panic. *)
Definition run_op (m : GovernanceManager) (o : op) : option GovernanceManager :=
  match o with
  | OpUpdateConfig c => Some (update_config m c)
  | OpSubmit p d t de da e now => fst <$> submit_proposal m p d t de da e now
  | OpCancel id r => Some (fst (cancel_proposal m id r))
  | OpVote id v vt pol now => Some (fst (cast_vote m id v vt pol now))
  | OpEmergency p t de da sz now => fst <$> submit_emergency m p t de da sz now
  | OpApprove id a c => Some (fst (approve_emergency m id a c))
  | OpRatify id => Some (fst (ratify_emergency m id))
  | OpCreatePoll c q o d f b now => fst <$> create_poll m c q o d f b now
  | OpPollVote id v i pol loc now => fst <$> cast_poll_vote m id v i pol loc now
  | OpTick now => Some (tick m now)
  end.

(** The arguments a caller can pass: an option index is unsigned, and the id a
    submission draws from SHA-256 is not the id of an earlier submission. *)
Definition op_ok (m : GovernanceManager) (o : op) : Prop :=
  match o with
  | OpSubmit p _ _ _ _ _ now =>
      proposals (proposal_store m) !! snd (Proposals.generate_id (proposal_store m) p now)
      = None
  | OpEmergency p _ _ _ _ now =>
      emergency_proposals (proposal_store m)
        !! snd (Proposals.generate_id (proposal_store m) p now) = None
  | OpCreatePoll c _ _ _ _ _ now =>
      polls (poll_store m) !! snd (Polling.generate_id (poll_store m) c now) = None
  | OpPollVote _ _ i _ _ _ => 0 <= i
  | _ => True
  end.

(** A sequence of calls. *)
Inductive runs : GovernanceManager -> list op -> GovernanceManager -> Prop :=
| runs_nil m : runs m [] m
| runs_cons m o m1 os m' :
    op_ok m o -> run_op m o = Some m1 -> runs m1 os m' -> runs m (o :: os) m'.

#[export] Instance op_ok_dec m o : Decision (op_ok m o).
Proof. destruct o; simpl; apply _. Defined.

(** The same as a function, to evaluate runs. *)
Fixpoint exec (m : GovernanceManager) (os : list op) : option GovernanceManager :=
  match os with
  | [] => Some m
  | o :: os => if decide (op_ok m o) then
                 match run_op m o with Some m1 => exec m1 os | None => None end
               else None
  end.

Lemma exec_runs m os m' : exec m os = Some m' -> runs m os m'.
Proof.
  revert m. induction os as [|o os IH]; intros m; simpl.
  - intros [= <-]. constructor.
  - case_decide; [|done]. destruct (run_op m o) as [m1|] eqn:E; [|done].
    intros ?%IH. by econstructor.
Qed.

(** ** The invariant *)

(** The phase and the record of proposal [i] agree, its tally counts its ballots,
    nobody votes outside the voting phase, and the outcome is the one of the vote. *)
Definition prop_ok (vm : VotingManager) (i : Hash) (ph : ProposalPhase) (p : Proposal) : Prop :=
  p_id p = i
  /\ status p = to_core_status ph
  /\ ph <> Draft
  /\ Ballots.tally_ok vm i p
  /\ (ph = Discussion \/ ph = Cancelled -> Ballots.get_records vm i = [])
  /\ (ph = Approved \/ ph = Executed -> Proposals.passed p = true)
  /\ (ph = Rejected -> Proposals.passed p = false).

Definition store_inv (vm : VotingManager) (s : ProposalStore) : Prop :=
  forall i, match Proposals.entry s i with
  | (Some ph, Some p) => prop_ok vm i ph p
  | (None, None) => Ballots.get_records vm i = [] /\ default ∅ (voted vm !! i) = ∅
  | _ => False
  end.

Definition emergency_ok (ep : EmergencyProposal) : Prop :=
  (ratified ep = true \/ reverted ep = true -> activated ep = true)
  /\ (ratified ep = true -> reverted ep = false).

Definition gov_inv (m : GovernanceManager) : Prop :=
  store_inv (voting_manager m) (proposal_store m)
  /\ map_Forall (fun _ => emergency_ok) (emergency_proposals (proposal_store m))
  /\ Polling.poll_inv (poll_store m).

Lemma gov_inv_new c : gov_inv (new c).
Proof.
  split_and!.
  - intros i. unfold Proposals.entry, Ballots.get_records; simpl. by rewrite !lookup_empty.
  - apply map_Forall_empty.
  - apply Polling.poll_inv_new.
Qed.

Lemma submit_store_inv vm s p d t de da e c now s' r :
  Proposals.submit_proposal s p d t de da e c now = Some (s', r) ->
  store_inv vm s -> proposals s !! snd (Proposals.generate_id s p now) = None ->
  store_inv vm s'.
Proof.
  intros [->|(t1 & t2 & t3 & ->)]%Proposals.submit_proposal_cases Hinv Hfresh; [done|].
  set (id := snd _) in *. intros i. specialize (Hinv i).
  unfold Proposals.entry in *; simpl. destruct (decide (i = id)) as [->|Hne].
  - rewrite !lookup_insert_eq. rewrite Hfresh in Hinv.
    destruct (phases s !! id); [done|]. destruct Hinv as [Hr Hv].
    split_and!; try done; unfold Ballots.tally_ok; rewrite ?Hr, ?Hv; simpl;
      [|by intros [?|?]].
    split_and!; try done. constructor.
  - by rewrite !lookup_insert_ne by done.
Qed.

Lemma cancel_store_inv vm s id r :
  store_inv vm s -> store_inv vm (fst (Proposals.cancel_proposal s id r)).
Proof.
  intros Hinv. unfold Proposals.cancel_proposal.
  destruct (proposals s !! id) as [p|] eqn:Hp; simpl; [|done].
  case_decide; [done|]. case_decide as Hph; [done|]. simpl. rewrite Hp.
  intros i. pose proof (Hinv i) as Hi. unfold Proposals.entry in *; simpl.
  destruct (decide (i = id)) as [->|Hne].
  - rewrite !lookup_insert_eq. rewrite Hp in Hi.
    destruct (phases s !! id) as [ph|]; [|done]. simpl in Hph.
    subst ph. destruct Hi as (? & ? & ? & Ht & Hd & ? & ?).
    split_and!; try done; [by intros _; apply Hd; left|by intros [?|?]].
  - by rewrite !lookup_insert_ne by done.
Qed.

Lemma vote_store_inv vm s id voter v pol now vm' s' r :
  store_inv vm s -> Ballots.cast_vote vm s id voter v pol now = ((vm', s'), r) ->
  store_inv vm' s'.
Proof.
  intros Hinv Hc. destruct r as [[]|e].
  - apply Ballots.cast_vote_ok in Hc as (p & Hp & -> & Hst & Hnew & -> & ->).
    intros i. pose proof (Hinv i) as Hi.
    unfold Proposals.entry in *; simpl. destruct (decide (i = id)) as [->|Hne].
    + rewrite lookup_insert_eq. rewrite Hp in Hi.
      destruct (phases s !! id) as [ph|]; [|done].
      destruct Hi as (? & Hcore & ? & Ht & Hd & ? & ?).
      assert (ph = Voting) as -> by (destruct ph; simpl in *; congruence).
      split_and!; try done.
      * by destruct v.
      * by destruct v.
      * by apply Ballots.tally_bump.
      * by intros [?|?].
      * by intros [?|?].
    + rewrite lookup_insert_ne by done.
      unfold prop_ok, Ballots.tally_ok, Ballots.get_records in *; simpl.
      by rewrite !lookup_insert_ne by done.
  - apply Ballots.cast_vote_err in Hc as (-> & Hr & Hv). intros i. specialize (Hinv i).
    unfold prop_ok, Ballots.tally_ok, Ballots.get_records in *. rewrite Hr, Hv. done.
Qed.

(** The outcome of a vote does not read the status. *)
Lemma passed_set_status p st : Proposals.passed (Proposals.set_status p st) = Proposals.passed p.
Proof. done. Qed.

Lemma prop_ok_advance vm i ph p now :
  prop_ok vm i ph p ->
  prop_ok vm i (Proposals.next_phase now p ph)
    (if decide (Proposals.next_phase now p ph = ph) then p
     else Proposals.set_status p (to_core_status (Proposals.next_phase now p ph))).
Proof.
  intros Hok. destruct (decide (Proposals.next_phase now p ph = ph)) as [->|Hne]; [done|].
  apply Proposals.next_phase_step in Hne.
  destruct Hok as (? & ? & ? & Ht & ? & Hpass & ?).
  destruct Hne; split_and!; try done; rewrite ?passed_set_status; try (by intros [?|?]);
    try done.
  intros _. apply Hpass. by left.
Qed.

Lemma tick_store_inv vm s now : store_inv vm s -> store_inv vm (Proposals.advance_all s now).
Proof.
  intros Hinv i. rewrite (proj1 (Proposals.advance_all_spec s now)). specialize (Hinv i).
  destruct (Proposals.entry s i) as [[ph|] [p|]]; simpl; try done.
  by apply prop_ok_advance.
Qed.

(** The store invariant only reads the proposals and their phases. *)
Lemma store_inv_ext vm s s' :
  (forall i, Proposals.entry s' i = Proposals.entry s i) -> store_inv vm s -> store_inv vm s'.
Proof. intros He Hs i. rewrite He. apply Hs. Qed.

Lemma approve_frame s id a c cfg i :
  Proposals.entry (fst (Proposals.approve_emergency s id a c cfg)) i = Proposals.entry s i.
Proof. unfold Proposals.approve_emergency. by repeat case_match; simplify_eq/=. Qed.

Lemma ratify_frame s id i :
  Proposals.entry (fst (Proposals.ratify_emergency s id)) i = Proposals.entry s i.
Proof. unfold Proposals.ratify_emergency. by repeat case_match; simplify_eq/=. Qed.

(** Emergency proposals: what one call may do to the map. *)
Lemma approve_cases s id a c cfg s' r :
  Proposals.approve_emergency s id a c cfg = (s', r) ->
  s' = s \/
  exists ep, emergency_proposals s !! id = Some ep /\ a ∈ c /\ a ∉ approvals ep
    /\ activated ep = false /\ reverted ep = false
    /\ let ep' := Proposals.set_approvals ep ({[a]} ∪ approvals ep) in
       let act := Proposals.has_supermajority ep' (emergency_threshold_bps cfg) in
       s' = Proposals.set_emergencies s
              (<[id := Proposals.set_flags ep' act (ratified ep) (reverted ep)]>
                 (emergency_proposals s))
       /\ r = Ok act.
Proof.
  unfold Proposals.approve_emergency. case_decide as Hc; [by intros [= <- <-]; left|].
  destruct (emergency_proposals s !! id) as [ep|] eqn:Hep; simpl; [|by intros [= <- <-]; left].
  destruct (activated ep) eqn:Ha; simpl; [by intros [= <- <-]; left|].
  destruct (reverted ep) eqn:Hr; simpl; [by intros [= <- <-]; left|].
  case_decide as Hin; [by intros [= <- <-]; left|].
  intros Heq. right. exists ep.
  destruct (Proposals.has_supermajority _ _) eqn:Hs; simplify_eq/=; split_and!; try done;
    unfold Proposals.set_flags, Proposals.set_approvals; simpl; by rewrite ?Ha, ?Hr.
Qed.

(** A property of emergency proposals that holds of a fresh one and is kept by an
    approval, a ratification and a reversal is kept by every call. *)
Definition emergency_closed (Q : EmergencyProposal -> Prop) (bps : Z) : Prop :=
  (forall id p t d da now deadline size,
     Q (mkEmergency id p t d da now deadline ∅ size false false false))
  /\ (forall ep a, Q ep -> activated ep = false -> reverted ep = false ->
        let ep' := Proposals.set_approvals ep ({[a]} ∪ approvals ep) in
        Q (Proposals.set_flags ep' (Proposals.has_supermajority ep' bps)
             (ratified ep) (reverted ep)))
  /\ (forall ep, Q ep -> activated ep = true -> reverted ep = false ->
        Q (Proposals.set_flags ep (activated ep) true (reverted ep)))
  /\ (forall ep, Q ep -> activated ep = true -> ratified ep = false ->
        Q (Proposals.set_flags ep (activated ep) (ratified ep) true)).

Abbreviation emergencies m := (emergency_proposals (proposal_store m)).

(** The calls that do not touch emergency proposals. *)
Lemma emergencies_frame m o m1 :
  run_op m o = Some m1 ->
  match o with
  | OpEmergency _ _ _ _ _ _ | OpApprove _ _ _ | OpRatify _ | OpTick _ => True
  | _ => emergencies m1 = emergencies m
  end.
Proof.
  destruct o; intros Hrun; try done; simpl in Hrun; simplify_eq; try done.
  - unfold submit_proposal in Hrun.
    destruct (Proposals.submit_proposal _ _ _ _ _ _ _ _ _) as [[s r]|] eqn:E; [|done].
    injection Hrun as <-. by apply Proposals.submit_proposal_cases in E as [->|(? & ? & ? & ->)].
  - unfold cancel_proposal, Proposals.cancel_proposal. by repeat case_match; simplify_eq/=.
  - unfold cast_vote. destruct (Ballots.cast_vote _ _ _ _ _ _ _) as [[vm ps] [[]|e]] eqn:E.
    + by apply Ballots.cast_vote_ok in E as (? & ? & ? & ? & ? & -> & ->).
    + by apply Ballots.cast_vote_err in E as (-> & _ & _).
  - unfold create_poll in Hrun. by destruct (Polling.create_poll _ _ _ _ _ _ _ _ _) as [[]|];
      simplify_eq/=.
  - unfold cast_poll_vote in Hrun. by destruct (Polling.cast_poll_vote _ _ _ _ _ _ _) as [[]|];
      simplify_eq/=.
Qed.

Lemma emergencies_op Q m o m1 :
  emergency_closed Q (emergency_threshold_bps (gov_config m)) ->
  run_op m o = Some m1 ->
  map_Forall (fun _ => Q) (emergencies m) -> map_Forall (fun _ => Q) (emergencies m1).
Proof.
  intros (Hnew & Happ & Hrat & Hrev) Hrun Hinv.
  pose proof (emergencies_frame _ _ _ Hrun) as Hf.
  destruct o; try (by rewrite Hf); clear Hf; simpl in Hrun; simplify_eq.
  - unfold submit_emergency in Hrun.
    destruct (Proposals.submit_emergency _ _ _ _ _ _ _ _) as [[s i]|] eqn:E; [|done].
    injection Hrun as <-. apply Proposals.submit_emergency_cases in E as (t1 & _ & ->).
    by apply map_Forall_insert_2.
  - unfold approve_emergency.
    destruct (Proposals.approve_emergency _ _ _ _ _) as [s1 r] eqn:E.
    apply approve_cases in E as [->|(ep & Hep & _ & _ & Ha & Hr & -> & _)]; [done|].
    simpl. apply map_Forall_insert_2; [|done]. apply Happ; [by eapply Hinv|done..].
  - unfold ratify_emergency, Proposals.ratify_emergency.
    destruct (emergencies m !! id) as [ep|] eqn:Hep; simpl; [|done].
    destruct (activated ep) eqn:Ha, (reverted ep) eqn:Hr; simpl; try done.
    apply map_Forall_insert_2; [|done]. pose proof (Hrat ep (Hinv _ _ Hep) Ha Hr) as Hq.
    by rewrite Ha, Hr in Hq.
  - destruct (Proposals.advance_all_spec (proposal_store m) now) as (_ & Hm & _).
    simpl. rewrite Hm. intros i ep (ep0 & <- & Hep0)%lookup_fmap_Some.
    specialize (Hinv _ _ Hep0). unfold Proposals.check_deadline.
    destruct (activated ep0 && negb (ratified ep0) && negb (reverted ep0)
              && bool_decide (now >= ratification_deadline ep0)) eqn:Hc; [|done].
    rewrite !andb_true_iff, !negb_true_iff in Hc. destruct Hc as [[[? ?] ?] ?].
    by apply Hrev.
Qed.

Lemma emergency_ok_closed bps : emergency_closed emergency_ok bps.
Proof.
  unfold emergency_closed, emergency_ok; split_and!; simpl.
  - intros. by split; [intros [?|?]|].
  - intros ep a [Hok _] Ha Hr. rewrite Ha in Hok. split; [|done]. intros Hx.
    discriminate (Hok Hx).
  - intros ep Hok Ha Hr. by rewrite Hr.
  - intros ep Hok Ha Hr. rewrite Ha, Hr. by split.
Qed.

(** Every call that a caller can make keeps the invariant. *)
Lemma gov_op_inv m o m' : gov_inv m -> op_ok m o -> run_op m o = Some m' -> gov_inv m'.
Proof.
  intros (Hs & He & Hp) Hok Hrun.
  assert (store_inv (voting_manager m') (proposal_store m')
          /\ Polling.poll_inv (poll_store m')) as [Hs' Hp'].
  2:{ split_and!; try done. exact (emergencies_op _ _ _ _ (emergency_ok_closed _) Hrun He). }
  destruct o; simpl in *; simplify_eq.
  - by split.
  - unfold submit_proposal in Hrun.
    destruct (Proposals.submit_proposal _ _ _ _ _ _ _ _ _) as [[s r]|] eqn:E; simplify_eq/=.
    split; [by eapply submit_store_inv|done].
  - unfold cancel_proposal. pose proof (cancel_store_inv _ _ id requester Hs) as Hc.
    by destruct (Proposals.cancel_proposal _ _ _).
  - unfold cast_vote. destruct (Ballots.cast_vote _ _ _ _ _ _ _) as [[vm ps] r] eqn:E.
    split; [by eapply vote_store_inv|done].
  - unfold submit_emergency in Hrun.
    destruct (Proposals.submit_emergency _ _ _ _ _ _ _ _) as [[s i]|] eqn:E; [|done].
    injection Hrun as <-. by apply Proposals.submit_emergency_cases in E as (t1 & _ & ->).
  - unfold approve_emergency.
    pose proof (store_inv_ext _ _ _ (approve_frame _ id approver committee (gov_config m)) Hs) as Ha.
    by destruct (Proposals.approve_emergency _ _ _ _ _).
  - unfold ratify_emergency. pose proof (store_inv_ext _ _ _ (ratify_frame _ id) Hs) as Ha.
    by destruct (Proposals.ratify_emergency _ _).
  - unfold create_poll in Hrun.
    destruct (Polling.create_poll _ _ _ _ _ _ _ _ _) as [[s r]|] eqn:E; simplify_eq/=.
    split; [done|]. by eapply Polling.create_poll_inv.
  - unfold cast_poll_vote in Hrun.
    destruct (Polling.cast_poll_vote_inv (poll_store m) id voter index pol location now Hp Hok)
      as (s' & r & E & Hc). rewrite E in Hrun. by simplify_eq/=.
  - split; [by apply tick_store_inv|done].
Qed.

Lemma runs_inv m os m' : gov_inv m -> runs m os m' -> gov_inv m'.
Proof.
  intros Hi Hr. induction Hr as [|m0 o m1 os m' Hok Hrun _ IH]; [done|].
  apply IH. by eapply gov_op_inv.
Qed.

Lemma reached_inv c os m : runs (new c) os m -> gov_inv m.
Proof. apply runs_inv, gov_inv_new. Qed.

(** ** Panics *)

(** Adding the periods [l] to [t] one after the other stays within what [chrono] holds. *)
Fixpoint dates_fit (t : DateTime) (l : list Z) : Prop :=
  match l with
  | [] => True
  | secs :: l =>
      let d := as_i64 secs in
      - MAX_DURATION_SECS <= d <= MAX_DURATION_SECS
      /\ MIN_UTC <= t + duration_seconds d <= MAX_UTC
      /\ dates_fit (t + duration_seconds d) l
  end.

#[local] Arguments dates_fit : simpl never.

(** The call computes a date that [chrono] cannot hold. *)
Definition date_overflow (m : GovernanceManager) (o : op) : Prop :=
  let c := gov_config m in
  match o with
  | OpSubmit _ days _ _ _ _ now =>
      min_proposer_history_days c <= days
      /\ ~ dates_fit now [discussion_period_secs c; voting_period_secs c; implementation_delay_secs c]
  | OpEmergency _ _ _ _ _ now => ~ dates_fit now [emergency_ratification_secs c]
  | OpCreatePoll _ q options d _ balance now =>
      q <> ""%string /\ (2 <= length options)%nat /\ poll_creation_fee c <= balance
      /\ ~ dates_fit now [d]
  | _ => False
  end.

Lemma add_seconds_fits t s l :
  (exists t', add_seconds t (as_i64 s) = Some t' /\ dates_fit t' l) <-> dates_fit t (s :: l).
Proof.
  unfold add_seconds. cbn [dates_fit]. split.
  - intros (t' & Ht & Hl). repeat case_decide; by simplify_eq.
  - intros (Hd & Ht & Hl). rewrite !decide_True by done. by eexists.
Qed.

Lemma add_seconds_None t s l : add_seconds t (as_i64 s) = None -> ~ dates_fit t (s :: l).
Proof. intros Hn (t' & Ht & _)%add_seconds_fits. congruence. Qed.

Lemma submit_panics m p days t d da e now :
  run_op m (OpSubmit p days t d da e now) = None <-> date_overflow m (OpSubmit p days t d da e now).
Proof.
  unfold run_op, date_overflow, submit_proposal, Proposals.submit_proposal.
  rewrite <-(add_seconds_fits now). case_decide; simpl; [split; [done|lia]|].
  destruct (add_seconds now _) as [t1|]; simpl.
  2:{ split; [intros _; split; [lia|naive_solver]|done]. }
  destruct (add_seconds t1 _) as [t2|] eqn:E2; simpl.
  2:{ split; [intros _; split; [lia|]|done]. intros (? & [= <-] & Hf).
      by apply (add_seconds_None _ _ _ E2) in Hf. }
  destruct (add_seconds t2 _) as [t3|] eqn:E3; simpl.
  2:{ split; [intros _; split; [lia|]|done]. intros (? & [= <-] & Hf).
      apply add_seconds_fits in Hf as (? & ? & Hf). simplify_eq.
      by apply (add_seconds_None _ _ _ E3) in Hf. }
  split; [done|]. intros [_ []]. exists t1. split; [done|]. apply add_seconds_fits.
  exists t2. split; [done|]. apply add_seconds_fits. by exists t3.
Qed.

Lemma emergency_panics m p t d da sz now :
  run_op m (OpEmergency p t d da sz now) = None <-> date_overflow m (OpEmergency p t d da sz now).
Proof.
  unfold run_op, date_overflow, submit_emergency, Proposals.submit_emergency.
  rewrite <-add_seconds_fits. simpl. destruct (add_seconds now _); simpl; naive_solver.
Qed.

Lemma create_poll_panics m c q os d f b now :
  run_op m (OpCreatePoll c q os d f b now) = None <-> date_overflow m (OpCreatePoll c q os d f b now).
Proof.
  unfold run_op, date_overflow, create_poll, Polling.create_poll.
  rewrite <-add_seconds_fits. case_decide; simpl; [naive_solver|].
  case_decide; simpl; [split; [done|lia]|]. case_decide; simpl; [split; [done|lia]|].
  destruct (add_seconds now _); simpl; [naive_solver|].
  split; [intros _|done]. split_and!; [done|lia|lia|naive_solver].
Qed.

(** The only panics of the manager are those of the date arithmetic. *)
Lemma gov_op_panics m o :
  gov_inv m -> op_ok m o -> run_op m o = None <-> date_overflow m o.
Proof.
  intros (_ & _ & Hp) Hok. destruct o; try (by split).
  - apply submit_panics.
  - apply emergency_panics.
  - apply create_poll_panics.
  - simpl in *. unfold cast_poll_vote.
    destruct (Polling.cast_poll_vote_inv (poll_store m) id voter index pol location now Hp Hok)
      as (s' & r & -> & _). by split.
Qed.

(** C7: every manager reached from a new one by any sequence of calls satisfies the
    governance invariant: the stored status is the one of the phase, the tallies
    count one ballot per node, ballots exist only for proposals that were put to
    the vote, an approved or executed proposal won its vote and a rejected one lost
    it, an emergency action is never both ratified and reverted, and every poll's
    tally counts one ballot per node.  The next call panics exactly if it has to compute
    a date that [chrono] cannot hold: the dates of a proposal, the deadline of an emergency
    action, or the expiry of a poll, whose duration the caller chooses. *)
Theorem governance_invariant c os m :
  runs (new c) os m ->
  gov_inv m /\ forall o, op_ok m o -> run_op m o = None <-> date_overflow m o.
Proof.
  intros Hinv%reached_inv. split; [done|]. intros o Ho. by apply gov_op_panics.
Qed.

(** A poll that should run longer than [i64::MAX / 1000] seconds panics, whatever the time. *)
Lemma long_poll_panics m c q os d f b now :
  q <> ""%string -> (2 <= length os)%nat -> poll_creation_fee (gov_config m) <= b ->
  MAX_DURATION_SECS < as_i64 d -> create_poll m c q os d f b now = None.
Proof.
  intros Hq Ho Hb Hd. assert (run_op m (OpCreatePoll c q os d f b now) = None) as Hn.
  { apply create_poll_panics. simpl. split_and!; try done. intros [[_ Hle] _]. lia. }
  simpl in Hn. by destruct (create_poll _ _ _ _ _ _ _ _).
Qed.
End manager.

End Governance.
