(* ===== verification/GovernanceSystem.v ===== *)
(** * gratia-governance: properties of the whole component

    One phone, one vote; the lifecycle of a proposal over a run; the outcome of an
    executed proposal; emergency proposals; polls. *)

From stdpp Require Import base gmap strings list fin_maps pretty.
From Stdlib Require Import ZArith Lia.
From S2P Require Import Prelude CoreTypes ThirdParty GovProposals GovVoting GovPolling Governance.
Local Open Scope Z_scope.

Module GovernanceRuns.
Import Governance.

Section runs.
Context `{!HashLib, !FloatLib, !ChronoLib}.

Abbreviation phase m i := (phases (proposal_store m) !! i).
Abbreviation proposal m i := (proposals (proposal_store m) !! i).
Abbreviation ballots m i := (Ballots.get_records (voting_manager m) i).

Abbreviation emergencies m := (emergency_proposals (proposal_store m)).

(** ** One phone, one vote *)

Lemma reached_prop_ok c os m i p :
  runs (new c) os m -> proposal m i = Some p ->
  exists ph, phase m i = Some ph /\ prop_ok (voting_manager m) i ph p.
Proof.
  intros (Hs & _)%reached_inv Hp. specialize (Hs i). unfold Proposals.entry in Hs.
  rewrite Hp in Hs. destruct (phase m i) as [ph|]; [|done]. by exists ph.
Qed.

Lemma tally_exact vm i p :
  Ballots.tally_ok vm i p -> Z.of_nat (length (Ballots.get_records vm i)) < 2 ^ 64 ->
  votes_yes p = Ballots.count_votes Yes (Ballots.get_records vm i)
  /\ votes_no p = Ballots.count_votes No (Ballots.get_records vm i)
  /\ votes_abstain p = Ballots.count_votes Abstain (Ballots.get_records vm i).
Proof.
  intros (-> & -> & -> & _) Hlt.
  pose proof (Ballots.count_votes_total (Ballots.get_records vm i)) as Ht.
  split_and!; apply wrap_small; unfold in_range;
    pose proof (Ballots.count_votes_nonneg Yes (Ballots.get_records vm i));
    pose proof (Ballots.count_votes_nonneg No (Ballots.get_records vm i));
    pose proof (Ballots.count_votes_nonneg Abstain (Ballots.get_records vm i)); lia.
Qed.

Lemma cast_vote_records m i voter v pol now m' j :
  cast_vote m i voter v pol now = (m', Ok tt) ->
  ballots m' j = if decide (j = i) then ballots m i ++ [mkVoteRecord voter v now] else ballots m j.
Proof.
  unfold cast_vote. destruct (Ballots.cast_vote _ _ _ _ _ _ _) as [[vm ps] r] eqn:E.
  intros [= <- ->]. apply Ballots.cast_vote_ok in E as (p & _ & _ & _ & _ & -> & _).
  unfold Ballots.get_records at 1. simpl. case_decide; subst.
  - by rewrite lookup_insert_eq.
  - by rewrite lookup_insert_ne by done.
Qed.

(** C20: one phone, one vote.  In every reachable manager the ballots of a proposal come
    from pairwise distinct nodes, these are the nodes the manager has marked as having
    voted, and each of the three counters is the number of ballots of its kind; a
    successful vote adds exactly the ballot that was cast, to its proposal only; and a
    second ballot of a node that has voted is refused with [AlreadyVoted], leaving
    proposals and ballots as they were. *)
Theorem one_phone_one_vote c os m i p :
  runs (new c) os m -> proposal m i = Some p ->
  Z.of_nat (length (ballots m i)) < 2 ^ 64 ->
  NoDup (vr_voter <$> ballots m i)
  /\ default ∅ (voted (voting_manager m) !! i) = list_to_set (vr_voter <$> ballots m i)
  /\ votes_yes p = Ballots.count_votes Yes (ballots m i)
  /\ votes_no p = Ballots.count_votes No (ballots m i)
  /\ votes_abstain p = Ballots.count_votes Abstain (ballots m i)
  /\ (forall voter v pol now m', cast_vote m i voter v pol now = (m', Ok tt) ->
        forall j, ballots m' j
          = if decide (j = i) then ballots m i ++ [mkVoteRecord voter v now] else ballots m j)
  /\ forall voter v now,
       Ballots.has_voted (voting_manager m) i voter = true -> status p = Status_Voting ->
       exists m', cast_vote m i voter v true now = (m', Err (AlreadyVoted voter))
         /\ proposal_store m' = proposal_store m
         /\ forall j, ballots m' j = ballots m j.
Proof.
  intros Hr Hp Hlt. destruct (reached_prop_ok _ _ _ _ _ Hr Hp) as (ph & _ & Hok).
  destruct Hok as (_ & _ & _ & Ht & _).
  destruct (tally_exact _ _ _ Ht Hlt) as (Hy & Hn & Ha).
  destruct Ht as (_ & _ & _ & Hnd & Hset). split_and!; try done.
  - intros voter v pol now m' Hc j. by eapply cast_vote_records.
  - intros voter v now Hv Hst. unfold Ballots.has_voted in Hv.
    destruct (voted (voting_manager m) !! i) as [set|] eqn:E; [|done].
    apply bool_decide_eq_true in Hv.
    unfold cast_vote, Ballots.cast_vote, Proposals.get_proposal. simpl. rewrite Hp. simpl.
    rewrite decide_False by (intros Hx; by apply Hx). rewrite E; simpl.
    rewrite decide_True by done. by eexists.
Qed.

(** An approved or executed proposal won its vote: more distinct nodes voted
    yes than no, at least a fifth (rounded down) of the electorate took part, and
    no more ballots were counted than there are eligible voters. *)
Theorem executed_proposals_won c os m i p :
  runs (new c) os m -> proposal m i = Some p ->
  phase m i = Some Approved \/ phase m i = Some Executed ->
  Z.of_nat (length (ballots m i)) < 2 ^ 64 -> 0 <= eligible_voters p < max_val 64 ->
  Ballots.count_votes No (ballots m i) < Ballots.count_votes Yes (ballots m i)
  /\ eligible_voters p / 5 <= Z.of_nat (length (ballots m i)) <= eligible_voters p.
Proof.
  intros Hr Hp Hph Hlt He. destruct (reached_prop_ok _ _ _ _ _ Hr Hp) as (ph & Hph' & Hok).
  destruct Hok as (_ & _ & _ & Ht & _ & Hpass & _).
  destruct (tally_exact _ _ _ Ht Hlt) as (Hy & Hn & Ha).
  assert (Proposals.passed p = true) as Hw.
  { apply Hpass. rewrite Hph' in Hph. destruct Hph; simplify_eq; auto. }
  destruct Ht as (Ry & Rn & Ra & _).
  apply Proposals.passed_iff in Hw; [|rewrite ?Ry, ?Rn, ?Ra; by apply wrap_range..|done].
  rewrite <-(Ballots.count_votes_total (ballots m i)), <-Hy, <-Hn, <-Ha. done.
Qed.

(** ** The lifecycle over a run *)

Definition same_terms (p p' : Proposal) : Prop :=
  discussion_ends p' = discussion_ends p /\ voting_ends p' = voting_ends p
  /\ implementation_date p' = implementation_date p
  /\ p_proposer p' = p_proposer p /\ eligible_voters p' = eligible_voters p.

Lemma bump_terms p v : same_terms p (Ballots.bump p v).
Proof. by destruct v. Qed.

(** What one call does to one proposal: nothing to its phase, a transition of the
    lifecycle when it is a tick, or a cancellation by its proposer. *)
Inductive proposal_move (p : Proposal) (o : op) : ProposalPhase -> ProposalPhase -> Prop :=
| move_stay ph : proposal_move p o ph ph
| move_tick t ph ph' :
    o = OpTick t -> Proposals.phase_step t p ph ph' -> proposal_move p o ph ph'
| move_cancel i : o = OpCancel i (p_proposer p) -> proposal_move p o Discussion Cancelled.

Abbreviation entry_of m i := (Proposals.entry (proposal_store m) i).

Definition moves (o : op) (e e' : option ProposalPhase * option Proposal) : Prop :=
  match e with
  | (Some ph, Some p) =>
      exists ph' p', e' = (Some ph', Some p') /\ same_terms p p' /\ proposal_move p o ph ph'
  | _ => True
  end.

#[local] Arguments moves : simpl never.
#[local] Arguments Proposals.entry : simpl never.

Lemma moves_refl o e : moves o e e.
Proof. unfold moves. destruct e as [[ph|] [p|]]; simpl; try done. by exists ph, p; split_and!; [..|constructor]. Qed.

Lemma cancel_moves m i id r :
  moves (OpCancel id r) (entry_of m i) (entry_of (fst (cancel_proposal m id r)) i).
Proof.
  unfold cancel_proposal, Proposals.cancel_proposal.
  destruct (proposals (proposal_store m) !! id) as [p|] eqn:Hp; simpl; [|apply moves_refl].
  case_decide as Hr; simpl; [apply moves_refl|].
  case_decide as Hd; simpl; [apply moves_refl|]. rewrite Hp; simpl.
  destruct (decide (i = id)) as [->|Hne]; unfold Proposals.entry; simpl.
  - rewrite !lookup_insert_eq, Hp. destruct (phases (proposal_store m) !! id) as [ph|]; [|done].
    simpl in Hd. subst. unfold moves. eexists _, _. split_and!; [done..|]. by eapply move_cancel.
  - rewrite !lookup_insert_ne by done. apply moves_refl.
Qed.

Lemma vote_moves m i id voter v pol now :
  moves (OpVote id voter v pol now) (entry_of m i)
    (entry_of (fst (cast_vote m id voter v pol now)) i).
Proof.
  unfold cast_vote. destruct (Ballots.cast_vote _ _ _ _ _ _ _) as [[vm ps] [[]|e]] eqn:E.
  - apply Ballots.cast_vote_ok in E as (p & Hp & ? & ? & ? & -> & ->).
    unfold Proposals.entry; simpl. destruct (decide (i = id)) as [->|Hne].
    + rewrite lookup_insert_eq, Hp. destruct (phases (proposal_store m) !! id) as [ph|]; [|done].
      unfold moves. eexists _, _. split_and!; [done|apply bump_terms|constructor].
    + rewrite lookup_insert_ne by done. apply moves_refl.
  - apply Ballots.cast_vote_err in E as (-> & _ & _). apply moves_refl.
Qed.

Lemma tick_moves m i now : moves (OpTick now) (entry_of m i) (entry_of (tick m now) i).
Proof.
  simpl. rewrite (proj1 (Proposals.advance_all_spec (proposal_store m) now)).
  destruct (entry_of m i) as [[ph|] [p|]]; unfold moves; simpl; try done. eexists _, _. split; [done|].
  case_decide as Hn; [rewrite Hn; split; [done|constructor]|]. split; [done|].
  eapply move_tick; [done|]. by apply Proposals.next_phase_step.
Qed.

(** Every call moves every proposal along its lifecycle. *)
Lemma op_moves m o m1 i :
  op_ok m o -> run_op m o = Some m1 -> moves o (entry_of m i) (entry_of m1 i).
Proof.
  intros Hok Hrun. destruct o; simpl in Hrun; simplify_eq; try apply moves_refl.
  - unfold submit_proposal in Hrun.
    destruct (Proposals.submit_proposal _ _ _ _ _ _ _ _ _) as [[s r]|] eqn:E; [|done].
    injection Hrun as <-.
    apply Proposals.submit_proposal_cases in E as [->|(t1 & t2 & t3 & ->)]; [apply moves_refl|].
    cbn [op_ok] in Hok. set (id := snd _) in *. clearbody id.
    destruct (decide (i = id)) as [->|Hne]; unfold Proposals.entry; simpl.
    + rewrite Hok. by destruct (phases (proposal_store m) !! id).
    + rewrite !lookup_insert_ne by done. apply moves_refl.
  - apply cancel_moves.
  - apply vote_moves.
  - unfold submit_emergency in Hrun.
    destruct (Proposals.submit_emergency _ _ _ _ _ _ _ _) as [[s id]|] eqn:E; [|done].
    injection Hrun as <-. apply Proposals.submit_emergency_cases in E as (t1 & _ & ->).
    apply moves_refl.
  - pose proof (approve_frame (proposal_store m) id approver committee (gov_config m) i) as Hf.
    unfold approve_emergency.
    destruct (Proposals.approve_emergency _ _ _ _ _); simpl in *. rewrite Hf. apply moves_refl.
  - pose proof (ratify_frame (proposal_store m) id i) as Hf. unfold ratify_emergency.
    destruct (Proposals.ratify_emergency _ _); simpl in *. rewrite Hf. apply moves_refl.
  - unfold create_poll in Hrun.
    destruct (Polling.create_poll _ _ _ _ _ _ _ _ _) as [[s r]|]; simplify_eq/=. apply moves_refl.
  - unfold cast_poll_vote in Hrun.
    destruct (Polling.cast_poll_vote _ _ _ _ _ _ _) as [[s r]|]; simplify_eq/=. apply moves_refl.
  - apply tick_moves.
Qed.

(** [after d P os]: [os] contains a tick at or after [d], followed by calls that
    satisfy [P]. *)
Definition after (d : DateTime) (P : list op -> Prop) (os : list op) : Prop :=
  exists before t rest, os = before ++ OpTick t :: rest /\ d <= t /\ P rest.

(** The ticks that must still come before a proposal in phase [ph] is executed. *)
Definition execution_trace (p : Proposal) (ph : ProposalPhase) (os : list op) : Prop :=
  let executing := after (implementation_date p) (fun _ => True) in
  match ph with
  | Discussion => after (discussion_ends p) (after (voting_ends p) executing) os
  | Voting => after (voting_ends p) executing os
  | Approved => executing os
  | Executed => True
  | Draft | Rejected | Cancelled => False
  end.

Lemma after_cons d P o os : after d P os -> after d P (o :: os).
Proof. intros (b & t & r & -> & ? & ?). by exists (o :: b), t, r. Qed.

Lemma after_here d (P : list op -> Prop) t os : d <= t -> P os -> after d P (OpTick t :: os).
Proof. intros. by exists [], t, os. Qed.

Lemma executed_trace m os m' i ph p :
  runs m os m' -> entry_of m i = (Some ph, Some p) -> phase m' i = Some Executed ->
  execution_trace p ph os.
Proof.
  intros Hr. revert ph p. induction Hr as [m|m o m1 os m' Hok Hrun _ IH]; intros ph p He Hx.
  - unfold Proposals.entry in He. simplify_eq. done.
  - pose proof (op_moves m o m1 i Hok Hrun) as Hm. rewrite He in Hm.
    destruct Hm as (ph' & p' & He1 & (T1 & T2 & T3 & _) & Hmv).
    specialize (IH ph' p' He1 Hx).
    unfold execution_trace in *. rewrite T1, T2, T3 in IH.
    destruct Hmv as [ph'|t ph' ph'' -> Hst|]; [|destruct Hst|done].
    + destruct ph'; try done; by apply after_cons.
    + by apply after_here.
    + by apply after_here.
    + done.
    + by apply after_here.
Qed.

(** C24: a proposal is executed only after its three waiting periods: if a proposal
    under discussion is executed at the end of a run, the run contains, in this
    order, a tick at or after the end of its discussion, a tick at or after the
    end of its vote, and a tick at or after its implementation date. *)
Theorem execution_follows_lifecycle m os m' i p :
  proposal m i = Some p -> phase m i = Some Discussion ->
  runs m os m' -> phase m' i = Some Executed ->
  after (discussion_ends p)
    (after (voting_ends p) (after (implementation_date p) (fun _ => True))) os.
Proof.
  intros Hp Hph Hr Hx. apply (executed_trace m os m' i Discussion p Hr); [|done].
  unfold Proposals.entry. by rewrite Hp, Hph.
Qed.

Lemma phase_tick m i ph p now :
  entry_of m i = (Some ph, Some p) ->
  entry_of (tick m now) i = Proposals.advance_entry now (Some ph, Some p).
Proof. intros He. simpl. by rewrite (proj1 (Proposals.advance_all_spec _ now)), He. Qed.

(** A tick after all three dates takes the next step. *)
Lemma overdue_tick m i ph p t :
  entry_of m i = (Some ph, Some p) ->
  discussion_ends p <= t -> voting_ends p <= t -> implementation_date p <= t ->
  exists ph' p', entry_of (tick m t) i = (Some ph', Some p') /\ same_terms p p'
    /\ match ph with
       | Discussion => ph' = Voting
       | Voting => ph' = Approved \/ ph' = Rejected
       | Approved => ph' = Executed
       | _ => ph' = ph
       end.
Proof.
  intros He ? ? ?. rewrite (phase_tick _ _ _ _ _ He). simpl.
  eexists _, _. split; [done|]. split; [by case_decide|].
  destruct ph; simpl; rewrite ?decide_True by lia; try done.
  destruct (Proposals.passed p); auto.
Qed.

(** Proposals terminate: whatever phase a proposal of a reachable manager is in,
    three ticks at or after its three dates leave it rejected, executed or
    cancelled. *)
Theorem proposals_terminate c os m i p t1 t2 t3 :
  runs (new c) os m -> proposal m i = Some p ->
  Forall (fun t => discussion_ends p <= t /\ voting_ends p <= t /\ implementation_date p <= t)
    [t1; t2; t3] ->
  exists ph, phase (tick (tick (tick m t1) t2) t3) i = Some ph /\ Proposals.terminal ph.
Proof.
  intros Hr Hp Ht. destruct (reached_prop_ok _ _ _ _ _ Hr Hp) as (ph & Hph & Hok).
  destruct Hok as (_ & _ & Hd & _).
  repeat match goal with H : Forall _ (_ :: _) |- _ => apply Forall_cons in H as [[? [? ?]] ?] end.
  assert (entry_of m i = (Some ph, Some p)) as He by (unfold Proposals.entry; by rewrite Hph, Hp).
  destruct (overdue_tick _ _ _ _ t1 He) as (ph1 & p1 & He1 & (A1 & A2 & A3 & _) & Hp1); [done..|].
  destruct (overdue_tick _ _ _ _ t2 He1) as (ph2 & p2 & He2 & (B1 & B2 & B3 & _) & Hp2); [lia..|].
  destruct (overdue_tick _ _ _ _ t3 He2) as (ph3 & p3 & He3 & _ & Hp3); [lia..|].
  exists ph3. unfold Proposals.entry in He3. simplify_eq. split; [done|].
  unfold Proposals.terminal. destruct ph; simplify_eq; naive_solver.
Qed.

(** ** Emergency proposals *)

Definition keeps_threshold (b : Z) (o : op) : Prop :=
  match o with OpUpdateConfig c => emergency_threshold_bps c = b | _ => True end.

Lemma run_op_threshold b m o m1 :
  keeps_threshold b o -> emergency_threshold_bps (gov_config m) = b ->
  run_op m o = Some m1 -> emergency_threshold_bps (gov_config m1) = b.
Proof.
  intros Hk Hb Hrun. destruct o; simpl in *; simplify_eq; try done.
  - unfold submit_proposal in Hrun.
    by destruct (Proposals.submit_proposal _ _ _ _ _ _ _ _ _) as [[]|]; simplify_eq/=.
  - unfold cancel_proposal. by destruct (Proposals.cancel_proposal _ _ _).
  - unfold cast_vote. by destruct (Ballots.cast_vote _ _ _ _ _ _ _) as [[] ?].
  - unfold submit_emergency in Hrun.
    destruct (Proposals.submit_emergency _ _ _ _ _ _ _ _) as [[]|]; [|done]. by injection Hrun as <-.
  - unfold approve_emergency. by destruct (Proposals.approve_emergency _ _ _ _ _).
  - unfold ratify_emergency. by destruct (Proposals.ratify_emergency _ _).
  - unfold create_poll in Hrun.
    by destruct (Polling.create_poll _ _ _ _ _ _ _ _ _) as [[]|]; simplify_eq/=.
  - unfold cast_poll_vote in Hrun.
    by destruct (Polling.cast_poll_vote _ _ _ _ _ _ _) as [[]|]; simplify_eq/=.
Qed.

Definition backed (b : Z) (ep : EmergencyProposal) : Prop :=
  activated ep = true -> Proposals.has_supermajority ep b = true.

Lemma backed_closed b : emergency_closed (backed b) b.
Proof. unfold emergency_closed, backed; simpl. split_and!; try done; intros; auto. Qed.

Lemma runs_backed b m os m' :
  runs m os m' -> Forall (keeps_threshold b) os ->
  emergency_threshold_bps (gov_config m) = b ->
  map_Forall (fun _ => backed b) (emergencies m) ->
  map_Forall (fun _ => backed b) (emergencies m').
Proof.
  induction 1 as [|m o m1 os m' Hok Hrun _ IH]; intros Hk Hb Hq; [done|].
  apply Forall_cons in Hk as [Hko Hk]. apply IH; [done|by eapply run_op_threshold|].
  eapply emergencies_op; [|done|done]. rewrite Hb. apply backed_closed.
Qed.

Lemma supermajority_iff ep b :
  0 <= committee_size ep -> 0 <= b -> committee_size ep * b + 9999 < 2 ^ 64 ->
  Proposals.has_supermajority ep b = true <->
  0 < committee_size ep /\ committee_size ep * b <= 10000 * Z.of_nat (size (approvals ep)).
Proof.
  intros Hc Hb Hlt. unfold Proposals.has_supermajority. case_decide; simpl.
  - split; [done|]. intros; exfalso; lia.
  - unfold saturating_mul, saturating_add, max_val. rewrite !Z.min_l by lia.
    rewrite bool_decide_eq_true. split; intros Hx; [split; [lia|]|];
      pose proof (Z.div_mod (committee_size ep * b + 9999) 10000);
      pose proof (Z.mod_pos_bound (committee_size ep * b + 9999) 10000); lia.
Qed.

(** An emergency action is active only with the configured supermajority.  Along
    any run that keeps the emergency threshold [b] (7500 basis points by default),
    every activated emergency proposal has at least [b]/10000 of its committee size
    in pairwise distinct approvals; and the first tick at or after its deadline
    leaves it ratified or reverted, never both. *)
Theorem emergency_supermajority_and_deadline c os m i ep b :
  runs (new c) os m -> emergency_threshold_bps c = b -> Forall (keeps_threshold b) os ->
  emergencies m !! i = Some ep -> activated ep = true ->
  0 <= committee_size ep -> 0 <= b -> committee_size ep * b + 9999 < 2 ^ 64 ->
  committee_size ep * b <= 10000 * Z.of_nat (size (approvals ep))
  /\ forall now, ratification_deadline ep <= now ->
       exists ep', emergencies (tick m now) !! i = Some ep' /\ activated ep' = true
         /\ reverted ep' = negb (ratified ep') /\ ratified ep' = ratified ep.
Proof.
  intros Hr Hb Hk Hi Ha Hc Hb0 Hlt. split.
  - pose proof (runs_backed b _ _ _ Hr Hk Hb (map_Forall_empty _) i ep Hi Ha) as Hs.
    apply supermajority_iff in Hs; [|done..]. lia.
  - intros now Hnow. pose proof (reached_inv _ _ _ Hr) as (_ & He & _).
    destruct (He _ _ Hi) as [_ Hx].
    destruct (Proposals.advance_all_spec (proposal_store m) now) as (_ & Hm & _).
    simpl. rewrite Hm, lookup_fmap, Hi. simpl. eexists. split; [done|].
    unfold Proposals.check_deadline. rewrite Ha. rewrite (bool_decide_true (now >= _)) by lia.
    destruct (ratified ep) eqn:Hra, (reverted ep) eqn:Hre; simpl; rewrite ?Ha, ?Hra, ?Hre;
      try done. specialize (Hx eq_refl). congruence.
Qed.

(** ** Polls *)

Lemma option_results_total s id poll k labels :
  Polling.poll_ok s id poll -> (k + length labels = length (options poll))%nat ->
  exists rs, Polling.option_results poll k labels = Some rs /\ length rs = length labels
    /\ forall j r, rs !! j = Some r ->
         labels !! j = Some (por_label r)
         /\ por_votes r = wrap 64 (Polling.count_option (k + j) (Polling.get_records s id)).
Proof.
  intros Hok. revert k. induction labels as [|l labels IH]; intros k Hk; simpl in *.
  - by exists [].
  - destruct Hok as (_ & _ & Hv & _). destruct (IH (S k)) as (rs & Hrs & Hlen & Hall); [lia|].
    unfold Polling.option_result. rewrite Hv, list_lookup_fmap, lookup_seq_lt by lia. simpl.
    rewrite Hrs. eexists. split; [done|]. split; [simpl; lia|].
    intros [|j] r Hj; simplify_eq/=.
    + by rewrite Nat.add_0_r.
    + destruct (Hall j r Hj) as [-> ->]. split; [done|]. do 2 f_equal. lia.
Qed.

(** Poll results are an audit of the ballots.  For every poll of a reachable
    manager the result query returns without a panic one row per option, in order,
    whose count is the number of ballots for that option; the ballots come from
    distinct nodes, all for existing options, and their number is the total. *)
Theorem poll_results_audit c os m id poll now :
  runs (new c) os m -> polls (poll_store m) !! id = Some poll ->
  let l := Polling.get_records (poll_store m) id in
  Z.of_nat (length l) < 2 ^ 64 ->
  exists res, Polling.get_poll_results (poll_store m) id now = Some (Some res)
    /\ length (pr_options res) = length (options poll)
    /\ (forall j r, pr_options res !! j = Some r ->
          options poll !! j = Some (por_label r) /\ por_votes r = Polling.count_option j l)
    /\ pr_total_voters res = Z.of_nat (length l)
    /\ NoDup (pv_voter <$> l)
    /\ Forall (fun r => 0 <= pv_option_index r < Z.of_nat (length (options poll))) l.
Proof.
  intros (_ & _ & Hp)%reached_inv Hid l Hlt. specialize (Hp id). rewrite Hid in Hp.
  destruct (option_results_total _ _ _ 0 (options poll) Hp) as (rs & Hrs & Hlen & Hall); [done|].
  destruct Hp as (_ & _ & _ & Ht & Hf & Hnd & _).
  unfold Polling.get_poll_results. rewrite Hid, Hrs.
  eexists. split; [done|]. split_and!; simpl; try done.
  - intros j r Hj. destruct (Hall j r Hj) as [-> ->]. split; [done|].
    apply wrap_small. unfold in_range, Polling.count_option.
    pose proof (length_filter (fun r => pv_option_index r = Z.of_nat j) l). simpl. lia.
  - rewrite Ht. apply wrap_small. unfold in_range. lia.
Qed.

(** ** What the vote does not enforce *)

(** The voting period does not bind a late ballot: as long as no tick has closed
    the vote, a ballot cast at any later time is accepted and counted, even after
    [voting_ends]. *)
Theorem late_vote_accepted m i p voter v now :
  proposal m i = Some p -> status p = Status_Voting ->
  Ballots.has_voted (voting_manager m) i voter = false -> voting_ends p < now ->
  exists m', cast_vote m i voter v true now = (m', Ok tt)
    /\ proposal m' i = Some (Ballots.bump p v).
Proof.
  intros Hp Hst Hv _. unfold cast_vote, Ballots.cast_vote, Proposals.get_proposal; simpl.
  rewrite Hp; simpl. rewrite decide_False by (intros Hx; by apply Hx).
  rewrite decide_False.
  - simpl. eexists. split; [done|]. simpl. by rewrite lookup_insert_eq.
  - unfold Ballots.has_voted in Hv. destruct (voted (voting_manager m) !! i); simpl; [|set_solver].
    by apply bool_decide_eq_false in Hv.
Qed.

(** The 51% of the documentation is a bare majority: one vote more than half is
    enough, whatever [passage_threshold_bps] says. *)
Lemma bare_majority_passes p n :
  50 <= n < 2 ^ 32 -> votes_yes p = n + 1 -> votes_no p = n -> votes_abstain p = 0 ->
  eligible_voters p = 2 * n + 1 ->
  Proposals.passed p = true /\ votes_yes p * 10000 < 5100 * (votes_yes p + votes_no p).
Proof.
  intros Hn Hy Hno Ha He. rewrite Hy, Hno. split; [|lia].
  apply Proposals.passed_iff; rewrite ?Hy, ?Hno, ?Ha, ?He; unfold in_range, max_val; repeat split; try lia; try (apply Z.div_le_upper_bound; lia).
Qed.
End runs.

(** ** A concrete run

    A proposal with five eligible voters is discussed, voted by three nodes, approved
    and executed; an emergency proposal of a committee of four is approved by three
    of its members; a poll with two options gets two ballots. *)
Module Sample.
#[local] Instance sample_hash : HashLib := reference_hash.
#[local] Instance sample_float : FloatLib := reference_float.
#[local] Instance sample_chrono : ChronoLib := reference_chrono.

Definition day (n : Z) : DateTime := duration_seconds (n * 24 * 3600).

Definition pid : Hash := snd (Proposals.generate_id Proposals.new [1] 0).
Definition eid : Hash :=
  snd (Proposals.generate_id (fst (Proposals.generate_id Proposals.new [1] 0)) [2] (day 1)).
Definition qid : Hash := snd (Polling.generate_id Polling.new [3] (day 1)).

Definition opening : list op :=
  [ OpSubmit [1] 100 "limit" "raise the limit" [] 5 0 ].
Definition deliberation : list op :=
  [ OpEmergency [2] "patch" "fix" [] 4 (day 1);
    OpApprove eid [11] [[11]; [12]; [13]; [14]];
    OpApprove eid [12] [[11]; [12]; [13]; [14]];
    OpApprove eid [13] [[11]; [12]; [13]; [14]];
    OpCreatePoll [3] "tea or coffee?" ["tea"; "coffee"]%string 86400 None (10 * LUX_PER_GRAT) (day 1);
    OpPollVote qid [7] 0 true None (day 1);
    OpPollVote qid [8] 1 true None (day 1);
    OpTick (day 14);
    OpVote pid [7] Yes true (day 15);
    OpVote pid [8] Yes true (day 15);
    OpVote pid [9] No true (day 16) ].
Definition closing : list op := [ OpTick (day 21); OpTick (day 51) ].

Definition get {A} (o : option A) (d : A) : A := default d o.
Definition m0 : GovernanceManager := new default_GovernanceConfig.
Definition m1 : GovernanceManager := get (exec m0 opening) m0.
Definition m2 : GovernanceManager := get (exec m1 deliberation) m0.
Definition m3 : GovernanceManager := get (exec m2 closing) m0.

Definition no_proposal : Proposal :=
  mkProposal [] [] "" "" [] 0 0 0 0 Status_Rejected 0 0 0 0.
Definition prop (m : GovernanceManager) : Proposal :=
  get (proposals (proposal_store m) !! pid) no_proposal.

Lemma governance_invariant_witness :
  gov_inv m3 /\ is_Some (run_op m3 (OpCreatePoll [3] "tea?" ["yes"; "no"]%string 86400 None
                                      (10 * LUX_PER_GRAT) (day 52)))
  /\ run_op m3 (OpCreatePoll [3] "tea?" ["yes"; "no"]%string (2 ^ 62) None
                 (10 * LUX_PER_GRAT) (day 52)) = None.
Proof.
  destruct (governance_invariant default_GovernanceConfig
              (opening ++ deliberation ++ closing) m3) as [H1 H2].
  - apply exec_runs. vm_compute. reflexivity.
  - split; [exact H1|]. split.
    + apply not_eq_None_Some. intros (_ & _ & _ & Hn)%H2; [|vm_compute; reflexivity].
      apply Hn. vm_compute. repeat split; discriminate.
    + apply H2; [vm_compute; reflexivity|]. split; [discriminate|]. split; [simpl; lia|].
      split; [vm_compute; discriminate|]. intros (Hd & _). vm_compute in Hd. by destruct Hd as [_ Hd].
Defined.

Lemma one_phone_one_vote_witness :
  votes_yes (prop m2) = 2 /\ votes_no (prop m2) = 1
  /\ exists m', cast_vote m2 pid [7] No true (day 16) = (m', Err (AlreadyVoted [7])).
Proof.
  destruct (one_phone_one_vote default_GovernanceConfig (opening ++ deliberation) m2 pid
              (prop m2)) as (_ & _ & Hy & Hn & _ & _ & Hagain).
  - apply exec_runs. vm_compute. reflexivity.
  - vm_compute. reflexivity.
  - vm_compute. reflexivity.
  - split; [rewrite Hy; vm_compute; reflexivity|].
    split; [rewrite Hn; vm_compute; reflexivity|].
    destruct (Hagain [7] No (day 16)) as (m' & Hm & _); [vm_compute; reflexivity..|].
    exists m'. exact Hm.
Defined.

Lemma executed_proposals_won_witness :
  phases (proposal_store m3) !! pid = Some Executed
  /\ Ballots.count_votes No (Ballots.get_records (voting_manager m3) pid)
     < Ballots.count_votes Yes (Ballots.get_records (voting_manager m3) pid).
Proof.
  split; [vm_compute; reflexivity|].
  apply (executed_proposals_won default_GovernanceConfig (opening ++ deliberation ++ closing)
           m3 pid (prop m3)).
  - apply exec_runs. vm_compute. reflexivity.
  - vm_compute. reflexivity.
  - right. vm_compute. reflexivity.
  - vm_compute. reflexivity.
  - vm_compute. split; [discriminate|reflexivity].
Defined.

Lemma execution_follows_lifecycle_witness :
  after (day 14) (after (day 21) (after (day 51) (fun _ => True))) (deliberation ++ closing).
Proof.
  apply (execution_follows_lifecycle m1 (deliberation ++ closing) m3 pid (prop m1)).
  - vm_compute. reflexivity.
  - vm_compute. reflexivity.
  - apply exec_runs. vm_compute. reflexivity.
  - vm_compute. reflexivity.
Defined.

Lemma proposals_terminate_witness :
  exists ph, phases (proposal_store (tick (tick (tick m1 (day 60)) (day 61)) (day 62))) !! pid
             = Some ph /\ Proposals.terminal ph.
Proof.
  apply (proposals_terminate default_GovernanceConfig opening m1 pid (prop m1)).
  - apply exec_runs. vm_compute. reflexivity.
  - vm_compute. reflexivity.
  - repeat constructor; vm_compute; discriminate.
Defined.

Definition no_emergency : EmergencyProposal :=
  mkEmergency [] [] "" "" [] 0 0 ∅ 0 false false false.
Definition ep : EmergencyProposal :=
  get (emergency_proposals (proposal_store m2) !! eid) no_emergency.

Lemma emergency_supermajority_and_deadline_witness :
  committee_size ep * 7500 <= 10000 * Z.of_nat (size (approvals ep))
  /\ exists ep', emergency_proposals (proposal_store (tick m2 (day 91))) !! eid = Some ep'
       /\ reverted ep' = true.
Proof.
  destruct (emergency_supermajority_and_deadline default_GovernanceConfig
              (opening ++ deliberation) m2 eid ep 7500) as [H1 H2].
  - apply exec_runs. vm_compute. reflexivity.
  - reflexivity.
  - repeat constructor.
  - vm_compute. reflexivity.
  - vm_compute. reflexivity.
  - vm_compute. discriminate.
  - lia.
  - vm_compute. reflexivity.
  - split; [exact H1|]. destruct (H2 (day 91)) as (ep' & Hl & _ & Hr & Hs);
      [vm_compute; discriminate|].
    exists ep'. split; [exact Hl|]. rewrite Hr, Hs. vm_compute. reflexivity.
Defined.

Definition no_poll : Poll := mkPoll [] [] "" [] 0 0 [] 0 None 0.
Definition poll : Poll := get (polls (poll_store m2) !! qid) no_poll.

Lemma poll_results_audit_witness :
  exists res, Polling.get_poll_results (poll_store m2) qid (day 5) = Some (Some res)
    /\ pr_total_voters res = 2.
Proof.
  destruct (poll_results_audit default_GovernanceConfig (opening ++ deliberation) m2 qid poll
              (day 5)) as (res & Hres & _ & _ & Ht & _).
  - apply exec_runs. vm_compute. reflexivity.
  - vm_compute. reflexivity.
  - vm_compute. reflexivity.
  - exists res. split; [exact Hres|]. rewrite Ht. vm_compute. reflexivity.
Defined.

Lemma late_vote_accepted_witness :
  exists m', cast_vote m2 pid [10] Yes true (day 30) = (m', Ok tt)
    /\ proposals (proposal_store m') !! pid = Some (Ballots.bump (prop m2) Yes).
Proof.
  apply late_vote_accepted; vm_compute; reflexivity.
Defined.
End Sample.

End GovernanceRuns.
