(* ===== verification/Crypto.v ===== *)
(** * gratia-core: hashing and signatures

    [crates/gratia-core/src/crypto.rs] over the parameters of [ThirdParty], and the
    errors of [error.rs] that the modelled code returns.  [merkle_root] loops until
    one hash is left; the number of hashes bounds its iterations. *)

From stdpp Require Import base gmap strings list fin_maps pretty.
From Stdlib Require Import ZArith Lia.
From S2P Require Import Prelude CoreTypes ThirdParty.
Local Open Scope Z_scope.

(** The variants of [GratiaError] used by the consensus and state code. *)
Inductive GratiaError :=
| ProofOfLifeInvalid (reason : string)
| InsufficientUnlocks (count required : Z)
| UnlockSpreadTooNarrow (hours required : Z)
| NoChargeCycleEvent
| InsufficientBtVariation
| InsufficientStake (amount required : Z)
| InsufficientBalance (available required : Z)
| InvalidSignature
| NonceMismatch (expected got : Z)
| InvalidZkProof (reason : string)
| BlockValidationFailed (reason : string)
| InvalidVrfProof
| InsufficientSignatures (count required : Z)
| WalletLocked
| RecoveryClaimPending
| ShardNotAvailable (shard_id : Z)
| StorageError (msg : string)
| SerializationError (msg : string)
| Other (msg : string).

(** The [Display] text of the errors, which other errors embed. *)
Definition display_error (e : GratiaError) : string :=
  match e with
  | ProofOfLifeInvalid reason => "Proof of Life validation failed: " +:+ reason
  | InsufficientUnlocks count required =>
      "Insufficient unlock events: " +:+ pretty count +:+ " (minimum: " +:+ pretty required +:+ ")"
  | UnlockSpreadTooNarrow hours required =>
      "Unlock spread too narrow: " +:+ pretty hours +:+ "h (minimum: " +:+ pretty required +:+ "h)"
  | NoChargeCycleEvent => "No charge cycle event detected in 24-hour window"
  | InsufficientBtVariation => "Insufficient Bluetooth environment variation"
  | InsufficientStake amount required =>
      "Insufficient stake: " +:+ pretty amount +:+ " Lux (minimum: " +:+ pretty required +:+ " Lux)"
  | InsufficientBalance available required =>
      "Insufficient balance: " +:+ pretty available +:+ " Lux (required: " +:+ pretty required +:+ " Lux)"
  | InvalidSignature => "Invalid transaction signature"
  | NonceMismatch expected got =>
      "Transaction nonce mismatch: expected " +:+ pretty expected +:+ ", got " +:+ pretty got
  | InvalidZkProof reason => "Invalid ZK proof: " +:+ reason
  | BlockValidationFailed reason => "Block validation failed: " +:+ reason
  | InvalidVrfProof => "Invalid VRF proof"
  | InsufficientSignatures count required =>
      "Insufficient validator signatures: " +:+ pretty count +:+ "/" +:+ pretty required
  | WalletLocked => "Wallet locked: biometric authentication required"
  | RecoveryClaimPending => "Recovery claim pending on this wallet"
  | ShardNotAvailable id => "Shard not available: " +:+ pretty id
  | StorageError msg => "State database error: " +:+ msg
  | SerializationError msg => "Serialization error: " +:+ msg
  | Other msg => msg
  end.

(** [to_be_bytes] of an [n]-byte integer. *)
Definition be_bytes (n : nat) (x : Z) : bytes := rev (le_bytes n x).

(** Lexicographic order of byte arrays. *)
Fixpoint cmp_bytes (a b : bytes) : comparison :=
  match a, b with
  | [], [] => Eq
  | [], _ => Lt
  | _, [] => Gt
  | x :: a, y :: b => match x ?= y with Eq => cmp_bytes a b | c => c end
  end.

Lemma cmp_bytes_eq a b : cmp_bytes a b = Eq <-> a = b.
Proof.
  revert b. induction a as [|x a IH]; intros [|y b]; simpl; try done.
  destruct (x ?= y) eqn:E.
  - apply Z.compare_eq in E as ->. rewrite IH. naive_solver.
  - split; [done|]. intros [= -> _]. by rewrite Z.compare_refl in E.
  - split; [done|]. intros [= -> _]. by rewrite Z.compare_refl in E.
Qed.

Lemma cmp_bytes_antisym a b : cmp_bytes b a = CompOpp (cmp_bytes a b).
Proof.
  revert b. induction a as [|x a IH]; intros [|y b]; simpl; try done.
  rewrite (Z.compare_antisym x y). destruct (x ?= y); simpl; auto.
Qed.

Lemma cmp_bytes_trans a b c : cmp_bytes a b = Lt -> cmp_bytes b c = Lt -> cmp_bytes a c = Lt.
Proof.
  revert b c. induction a as [|x a IH]; intros [|y b] [|z c]; simpl; try done.
  destruct (Z.compare_spec x y) as [->|Hxy|Hxy]; try done.
  - destruct (y ?= z) eqn:E; try done. apply IH.
  - intros _. destruct (Z.compare_spec y z) as [->|Hyz|Hyz]; try done; intros _;
      (rewrite (proj2 (Z.compare_lt_iff x z)) by lia); done.
Qed.

(** ** Hashing *)

Section hashing.
Context `{!HashLib}.

(** Compute SHA-256 of several segments: one hash over their concatenation. *)
Definition sha256_multi (segments : list bytes) : Hash := sha256 (concat segments).

Definition generate_blinded_id (node_id : NodeId) (daily_randomness : bytes) : Hash :=
  sha256_multi [str_bytes "gratia-blinded-id-v1:"; node_id; daily_randomness].

Definition generate_nullifier (node_id : NodeId) (epoch_number : Z) : Hash :=
  sha256_multi [str_bytes "gratia-nullifier-v1:"; node_id; be_bytes 8 epoch_number].

(** One pass over [current_level.chunks(2)]. *)
Fixpoint next_level (level : list Hash) : list Hash :=
  match level with
  | [] => []
  | [a] => [sha256_multi [a; a]]
  | a :: b :: rest => sha256_multi [a; b] :: next_level rest
  end.

(** [while current_level.len() > 1], at most [n] passes; [None] when they do not
    suffice. *)
Fixpoint merkle_loop (n : nat) (level : list Hash) : option Hash :=
  match level with
  | [root] => Some root
  | _ => match n with O => None | S n => merkle_loop n (next_level level) end
  end.

Definition merkle_root (hashes : list Hash) : option Hash :=
  match hashes with
  | [] => Some (replicate 32 0)
  | [h] => Some h
  | _ => merkle_loop (length hashes) hashes
  end.

Lemma next_level_length k level :
  (length level <= k)%nat -> (2 <= length level)%nat ->
  (1 <= length (next_level level) < length level)%nat.
Proof.
  assert (forall k level, length level <= k -> length (next_level level) <= length level
    /\ (1 <= length level -> 1 <= length (next_level level)))%nat as Haux.
  { clear. induction k as [|k IH]; intros [|a [|b l]] Hk; simpl in *; try lia.
    destruct (IH l ltac:(lia)). lia. }
  intros Hk H2. destruct level as [|a [|b l]]; simpl in *; try lia.
  destruct (Haux k l ltac:(lia)). lia.
Qed.

(** The loop terminates within as many passes as there are hashes. *)
Lemma merkle_root_total hashes : is_Some (merkle_root hashes).
Proof.
  assert (forall n l, 1 <= length l <= S n -> is_Some (merkle_loop n l))%nat as Hloop.
  { induction n as [|n IH]; intros [|a [|b l]] Hl; simpl in Hl; try lia; try (by eexists).
    cbn [merkle_loop].
    pose proof (next_level_length (length (a :: b :: l)) (a :: b :: l) ltac:(lia) ltac:(simpl; lia)).
    apply IH. simpl in *. lia. }
  destruct hashes as [|a [|b l]]; [by eexists..|]. apply Hloop. simpl. lia.
Qed.
End hashing.

(** ** Signatures *)

(** [ed25519-dalek]: parsing of verifying keys, signing and verification. *)
Class SignLib := {
  VerifyingKey : Type;
  SigningKey : Type;
  vk_from_bytes : bytes -> option VerifyingKey;
  vk_to_bytes : VerifyingKey -> bytes;
  vk_of : SigningKey -> VerifyingKey;
  ed25519_sign : SigningKey -> bytes -> bytes;
  ed25519_verify : VerifyingKey -> bytes -> bytes -> bool
}.

Section signatures.
Context `{!SignLib}.

Definition verify_signature (public_key_bytes message signature_bytes : bytes)
  : result GratiaError unit :=
  if decide (length public_key_bytes <> 32%nat) then Err InvalidSignature
  else
    let?? public_key := ok_or (vk_from_bytes public_key_bytes) InvalidSignature in
    if decide (length signature_bytes <> 64%nat) then Err InvalidSignature
    else if ed25519_verify public_key message signature_bytes then Ok tt
    else Err InvalidSignature.
End signatures.
