(* ===== verification/Vrf.v ===== *)
(** * gratia-consensus: the verifiable random function

    [crates/gratia-consensus/src/vrf.rs] over an abstract Ristretto group
    ([curve25519-dalek]) and SHA-512.  [RistrettoLaws] are the documented laws of the
    group and of the encodings; [vrf_complete] is that every generated proof verifies
    and gives the generated output. *)

From stdpp Require Import base gmap strings list fin_maps.
From Stdlib Require Import ZArith Lia.
From S2P Require Import Prelude CoreTypes ThirdParty Crypto.
Local Open Scope Z_scope.

(** [curve25519-dalek] and [sha2::Sha512]. *)
Class RistrettoLib := {
  Scalar : Type;
  RistrettoPoint : Type;
  scalar_eq_dec :: EqDecision Scalar;
  BASEPOINT : RistrettoPoint;
  point_add : RistrettoPoint -> RistrettoPoint -> RistrettoPoint;
  point_mul : Scalar -> RistrettoPoint -> RistrettoPoint;
  scalar_add : Scalar -> Scalar -> Scalar;
  scalar_sub : Scalar -> Scalar -> Scalar;
  scalar_mul : Scalar -> Scalar -> Scalar;
  compress : RistrettoPoint -> bytes;
  decompress : bytes -> option RistrettoPoint;
  scalar_bytes : Scalar -> bytes;
  from_canonical_bytes : bytes -> option Scalar;
  from_bytes_mod_order_wide : bytes -> Scalar;
  from_uniform_bytes : bytes -> RistrettoPoint;
  sha512 : bytes -> bytes
}.

(** The laws: scalar multiplication distributes and composes, encodings have 32
    bytes and are inverted by their decoders. *)
Class RistrettoLaws `{!RistrettoLib} : Prop := {
  point_mul_add a b P : point_mul (scalar_add a b) P = point_add (point_mul a P) (point_mul b P);
  point_mul_mul a b P : point_mul (scalar_mul a b) P = point_mul a (point_mul b P);
  scalar_sub_add a b : scalar_add (scalar_sub a b) b = a;
  compress_length P : length (compress P) = 32%nat;
  decompress_compress P : decompress (compress P) = Some P;
  scalar_bytes_length s : length (scalar_bytes s) = 32%nat;
  from_canonical_scalar s : from_canonical_bytes (scalar_bytes s) = Some s
}.

Record VrfProof := mkVrfProof {
  output : Hash;
  proof_bytes : bytes
}.

Record VrfPublicKey := mkVrfPublicKey { vpk_bytes : bytes }.

Record VrfSecretKey `{!RistrettoLib} := mkVrfSecretKey { scalar : Scalar }.

Module Vrf.

Definition VRF_HASH_TO_POINT_DOMAIN : bytes := str_bytes "gratia-vrf-h2c-v1".
Definition VRF_CHALLENGE_DOMAIN : bytes := str_bytes "gratia-vrf-challenge-v1".
Definition VRF_OUTPUT_DOMAIN : bytes := str_bytes "gratia-vrf-output-v1".
Definition VRF_PROOF_SIZE : nat := 96.

(** [&bytes[a..b]] *)
Definition slice (a b : nat) (l : bytes) : bytes := take (b - a) (drop a l).

Section vrf.
Context `{!RistrettoLib}.

Definition from_ed25519_bytes (signing_key_bytes : bytes) : VrfSecretKey :=
  mkVrfSecretKey _ (from_bytes_mod_order_wide
    (sha512 (str_bytes "gratia-vrf-keygen-v1:" ++ signing_key_bytes))).

Definition public_key (sk : VrfSecretKey) : VrfPublicKey :=
  mkVrfPublicKey (compress (point_mul (scalar sk) BASEPOINT)).

Definition to_point (pk : VrfPublicKey) : result GratiaError RistrettoPoint :=
  if decide (length (vpk_bytes pk) <> 32%nat) then Err InvalidVrfProof
  else ok_or (decompress (vpk_bytes pk)) InvalidVrfProof.

Definition hash_to_point (input : bytes) : RistrettoPoint :=
  from_uniform_bytes (sha512 (VRF_HASH_TO_POINT_DOMAIN ++ input)).

Definition compute_challenge (pk h gamma u v : RistrettoPoint) : Scalar :=
  from_bytes_mod_order_wide
    (sha512 (VRF_CHALLENGE_DOMAIN ++ compress pk ++ compress h ++ compress gamma
               ++ compress u ++ compress v)).

Definition gamma_to_output (gamma : RistrettoPoint) : Hash :=
  take 32 (sha512 (VRF_OUTPUT_DOMAIN ++ compress gamma)).

Definition generate_vrf_proof (secret_key : VrfSecretKey) (input : bytes) : VrfProof :=
  let public_key_point := point_mul (scalar secret_key) BASEPOINT in
  let h := hash_to_point input in
  let gamma := point_mul (scalar secret_key) h in
  let k := from_bytes_mod_order_wide
             (sha512 (str_bytes "gratia-vrf-nonce-v1:" ++ scalar_bytes (scalar secret_key) ++ input)) in
  let u := point_mul k BASEPOINT in
  let v := point_mul k h in
  let c := compute_challenge public_key_point h gamma u v in
  let s := scalar_sub k (scalar_mul c (scalar secret_key)) in
  let output := gamma_to_output gamma in
  mkVrfProof output (compress gamma ++ scalar_bytes c ++ scalar_bytes s).

Definition verify_vrf_proof (pk : VrfPublicKey) (input : bytes) (proof : VrfProof)
  : result GratiaError Hash :=
  if decide (length (proof_bytes proof) <> VRF_PROOF_SIZE) then Err InvalidVrfProof
  else
    let?? gamma := ok_or (decompress (slice 0 32 (proof_bytes proof))) InvalidVrfProof in
    let?? c := ok_or (from_canonical_bytes (slice 32 64 (proof_bytes proof))) InvalidVrfProof in
    let?? s := ok_or (from_canonical_bytes (slice 64 96 (proof_bytes proof))) InvalidVrfProof in
    let?? public_key_point := to_point pk in
    let h := hash_to_point input in
    let u := point_add (point_mul s BASEPOINT) (point_mul c public_key_point) in
    let v := point_add (point_mul s h) (point_mul c gamma) in
    let c_prime := compute_challenge public_key_point h gamma u v in
    if decide (c <> c_prime) then Err InvalidVrfProof
    else
      let expected_output := gamma_to_output gamma in
      if decide (output proof <> expected_output) then Err InvalidVrfProof
      else Ok expected_output.

(** [raw / score] of the first eight bytes, the score clamped to 40..100. *)
Definition vrf_output_to_selection (vrf_output : Hash) (presence_score : Z) : Z :=
  let score := Z.min (Z.max presence_score 40) 100 in
  let raw := of_le_bytes (take 8 vrf_output) in
  raw / score.

Definition build_vrf_input (previous_block_hash : Hash) (slot_number : Z) : bytes :=
  previous_block_hash ++ be_bytes 8 slot_number.

(** ** Completeness *)

Section laws.
Context `{!RistrettoLaws}.

(** The verifier recomputes the prover's commitment on any base [P]. *)
Lemma commitment_recomputed k c x P :
  point_add (point_mul (scalar_sub k (scalar_mul c x)) P) (point_mul c (point_mul x P))
  = point_mul k P.
Proof. by rewrite <-point_mul_mul, <-point_mul_add, scalar_sub_add. Qed.

Lemma slices (a b c : bytes) :
  length a = 32%nat -> length b = 32%nat -> length c = 32%nat ->
  slice 0 32 (a ++ b ++ c) = a /\ slice 32 64 (a ++ b ++ c) = b
  /\ slice 64 96 (a ++ b ++ c) = c /\ length (a ++ b ++ c) = VRF_PROOF_SIZE.
Proof.
  intros Ha Hb Hc. unfold slice. rewrite !length_app, Ha, Hb, Hc. split_and!.
  - rewrite drop_0, take_app_le by lia. by apply take_ge; lia.
  - rewrite (drop_app_length' a) by done. rewrite take_app_le by lia. by apply take_ge; lia.
  - rewrite (drop_app_ge a) by lia. rewrite Ha, (drop_app_length' b) by lia.
    by apply take_ge; lia.
  - done.
Qed.

(** A proof assembled from any nonce [k] verifies. *)
Lemma assembled_proof_verifies x k input :
  let h := hash_to_point input in
  let gamma := point_mul x h in
  let c := compute_challenge (point_mul x BASEPOINT) h gamma (point_mul k BASEPOINT) (point_mul k h) in
  let s := scalar_sub k (scalar_mul c x) in
  verify_vrf_proof (mkVrfPublicKey (compress (point_mul x BASEPOINT))) input
    (mkVrfProof (gamma_to_output gamma) (compress gamma ++ scalar_bytes c ++ scalar_bytes s))
  = Ok (gamma_to_output gamma).
Proof.
  intros h gamma c s. unfold verify_vrf_proof. cbn [proof_bytes output].
  destruct (slices (compress gamma) (scalar_bytes c) (scalar_bytes s)) as (H1 & H2 & H3 & H4);
    [apply compress_length|apply scalar_bytes_length..|].
  rewrite decide_False by (intros Hx; by apply Hx). rewrite H1, H2, H3.
  rewrite decompress_compress, !from_canonical_scalar. cbn [ok_or]. unfold to_point.
  cbn [vpk_bytes]. rewrite decide_False by (intros Hx; apply Hx, compress_length).
  rewrite decompress_compress. cbn [ok_or]. fold h.
  assert (point_add (point_mul s BASEPOINT) (point_mul c (point_mul x BASEPOINT))
          = point_mul k BASEPOINT) as -> by apply commitment_recomputed.
  assert (point_add (point_mul s h) (point_mul c gamma) = point_mul k h) as ->
    by apply commitment_recomputed.
  fold c. rewrite decide_False by (intros Hx; by apply Hx).
  by rewrite decide_False by (intros Hx; by apply Hx).
Qed.

(** VRF completeness: the proof a node generates for an input verifies under its
    public key and yields the output it generated. *)
Theorem vrf_complete sk input :
  verify_vrf_proof (public_key sk) input (generate_vrf_proof sk input)
  = Ok (output (generate_vrf_proof sk input)).
Proof. apply assembled_proof_verifies. Qed.
End laws.
End vrf.

(** A concrete group: the field of two elements over itself, encoded in 32 bytes. *)
Definition bit_bytes (b : bool) : bytes := Z.b2z b :: replicate 31 0.
Definition bit_of (l : bytes) : option bool :=
  if decide (l = bit_bytes true) then Some true
  else if decide (l = bit_bytes false) then Some false else None.

Definition reference_ristretto : RistrettoLib := {|
  Scalar := bool; RistrettoPoint := bool;
  BASEPOINT := true;
  point_add := xorb; point_mul := andb;
  scalar_add := xorb; scalar_sub := xorb; scalar_mul := andb;
  compress := bit_bytes; decompress := bit_of;
  scalar_bytes := bit_bytes; from_canonical_bytes := bit_of;
  from_bytes_mod_order_wide := fun b => Z.odd (of_le_bytes b);
  from_uniform_bytes := fun b => Z.odd (of_le_bytes b);
  sha512 := fun b => replicate 64 (foldr Z.add 0 b mod 256)
|}.

Lemma reference_laws : @RistrettoLaws reference_ristretto.
Proof. by constructor; intros; repeat match goal with x : _ |- _ => destruct x end. Qed.

Lemma vrf_complete_witness :
  @verify_vrf_proof reference_ristretto
    (@public_key reference_ristretto (@mkVrfSecretKey reference_ristretto true)) [1; 2]
    (@generate_vrf_proof reference_ristretto (@mkVrfSecretKey reference_ristretto true) [1; 2])
  = Ok (output (@generate_vrf_proof reference_ristretto
                  (@mkVrfSecretKey reference_ristretto true) [1; 2])).
Proof. apply (@vrf_complete reference_ristretto reference_laws). Defined.

End Vrf.
