(* ===== verification/Committee.v ===== *)
(** * gratia-consensus: validator committees

    [crates/gratia-consensus/src/committee.rs]: the graduated scaling curve, the
    cooldown tracker, the selection of a committee and its use.  [Utc::now()] read by
    a selection is the argument [now].  [slice::sort_by] is a stable sort, modelled
    by insertion. *)

From stdpp Require Import base gmap strings list fin_maps sorting.
From Stdlib Require Import ZArith Lia.
From S2P Require Import Prelude CoreTypes ThirdParty Crypto Vrf.
Local Open Scope Z_scope.

Record CommitteeTier := mkTier {
  min_network_size : Z;
  tier_committee_size : Z;
  tier_finality_threshold : Z;
  min_selection_pool : Z;
  cooldown_rounds : Z
}.

Record EligibleNode := mkEligibleNode {
  en_node_id : NodeId;
  en_vrf_pubkey : VrfPublicKey;
  en_presence_score : Z;
  has_valid_pol : bool;
  meets_minimum_stake : bool;
  pol_days : Z;
  en_signing_pubkey : bytes;
  vrf_proof : bytes
}.

Record CommitteeMember := mkMember {
  node_id : NodeId;
  vrf_pubkey : VrfPublicKey;
  presence_score : Z;
  selection_proof : VrfProof;
  selection_value : Z;
  signing_pubkey : bytes
}.

Record CommitteeEpoch := mkEpoch {
  epoch_number : Z;
  start_slot : Z;
  end_slot : Z;
  established_at : DateTime;
  seed : Hash
}.

Record ValidatorCommittee := mkCommittee {
  epoch : CommitteeEpoch;
  members : list CommitteeMember;
  committee_size : Z;
  finality_threshold : Z;
  network_size_snapshot : Z
}.

Record CooldownTracker := mkTracker { recent_committees : list (list NodeId) }.

Module Committee.

Definition MAX_COMMITTEE_SIZE : Z := 21.
Definition FINALITY_THRESHOLD : Z := 14.
Definition SLOTS_PER_EPOCH : Z := 900.
Definition COMMITTEE_SELECTION_DOMAIN : bytes := str_bytes "gratia-committee-select-v1".

(** ** Graduated scaling *)

Definition SCALING_TIERS : list CommitteeTier :=
  [ mkTier 0 3 2 10 5;
    mkTier 100 5 4 50 3;
    mkTier 500 7 5 100 2;
    mkTier 2500 11 8 500 1;
    mkTier 10000 15 10 2000 1;
    mkTier 50000 19 13 10000 1;
    mkTier 100000 21 14 20000 1 ].

Definition smallest_tier : CommitteeTier := mkTier 0 3 2 10 5.

(** [SCALING_TIERS.iter().rev()], the first tier the network qualifies for. *)
Definition tier_for_network_size (network_size : Z) : CommitteeTier :=
  default smallest_tier
    (head (filter (fun t => network_size >= min_network_size t) (reverse SCALING_TIERS))).

Definition committee_size_for_network (network_size : Z) : Z :=
  tier_committee_size (tier_for_network_size network_size).
Definition finality_threshold_for_network (network_size : Z) : Z :=
  tier_finality_threshold (tier_for_network_size network_size).

(** ** EligibleNode *)

Definition is_eligible (n : EligibleNode) : bool :=
  has_valid_pol n && meets_minimum_stake n && bool_decide (en_presence_score n >= 40).

Definition is_committee_eligible (n : EligibleNode) : bool :=
  is_eligible n && bool_decide (pol_days n >= 30).

(** ** ValidatorCommittee *)

Definition get_member (c : ValidatorCommittee) (id : NodeId) : option CommitteeMember :=
  head (filter (fun m => node_id m = id) (members c)).

Definition is_committee_member (c : ValidatorCommittee) (id : NodeId) : bool :=
  existsb (fun m => bool_decide (node_id m = id)) (members c).

Definition get_signing_pubkey (c : ValidatorCommittee) (id : NodeId) : option bytes :=
  match get_member c id with
  | Some m => if decide (signing_pubkey m <> []) then Some (signing_pubkey m) else None
  | None => None
  end.

Definition block_producer_for_slot (c : ValidatorCommittee) (slot : Z) : option CommitteeMember :=
  if decide (members c = []) then None
  else if decide (slot < start_slot (epoch c)) then None
  else
    let offset := slot - start_slot (epoch c) in
    let index := offset mod Z.of_nat (length (members c)) in
    members c !! Z.to_nat index.

Definition has_finality (c : ValidatorCommittee) (signature_count : Z) : bool :=
  bool_decide (signature_count >= finality_threshold c).

Definition contains_slot (c : ValidatorCommittee) (slot : Z) : bool :=
  bool_decide (slot >= start_slot (epoch c) /\ slot < end_slot (epoch c)).

(** ** CooldownTracker *)

Definition record_committee (t : CooldownTracker) (ms : list CommitteeMember) : CooldownTracker :=
  let l := (node_id <$> ms) :: recent_committees t in
  if decide (Z.of_nat (length l) > 20) then mkTracker (take 20 l) else mkTracker l.

Definition is_in_cooldown (t : CooldownTracker) (id : NodeId) (rounds : Z) : bool :=
  if decide (rounds = 0) then false
  else existsb (fun recent => bool_decide (id ∈ recent)) (take (Z.to_nat rounds) (recent_committees t)).

(** ** Selection *)

Definition cmp_members (a b : CommitteeMember) : comparison :=
  match selection_value a ?= selection_value b with
  | Eq => cmp_bytes (node_id a) (node_id b)
  | c => c
  end.

Fixpoint insert_member (a : CommitteeMember) (l : list CommitteeMember) : list CommitteeMember :=
  match l with
  | [] => [a]
  | b :: l' => match cmp_members b a with Lt => b :: insert_member a l' | _ => a :: l end
  end.

Definition sort_members (l : list CommitteeMember) : list CommitteeMember :=
  foldr insert_member [] l.

Section selection.
Context `{!HashLib, !RistrettoLib}.

Definition selection_input (epoch_seed : Hash) (epoch_number : Z) : bytes :=
  COMMITTEE_SELECTION_DOMAIN ++ epoch_seed ++ be_bytes 8 epoch_number.

(** The candidate of a node; [None] when its VRF proof is rejected. *)
Definition candidate (input : bytes) (n : EligibleNode) : option CommitteeMember :=
  let ticket :=
    if decide (vrf_proof n <> []) then
      let proof := mkVrfProof (replicate 32 0) (vrf_proof n) in
      match Vrf.verify_vrf_proof (en_vrf_pubkey n) input proof with
      | Ok verified_output => Some (verified_output, vrf_proof n)
      | Err _ => None
      end
    else Some (sha256 (input ++ en_node_id n), []) in
  match ticket with
  | None => None
  | Some (out, pb) =>
      Some (mkMember (en_node_id n) (en_vrf_pubkey n) (en_presence_score n)
              (mkVrfProof out pb)
              (Vrf.vrf_output_to_selection out (en_presence_score n))
              (en_signing_pubkey n))
  end.

(** The nodes the selection draws from. *)
Definition eligible_pool (nodes : list EligibleNode) (tier : CommitteeTier)
  : list EligibleNode :=
  let eligible := filter (fun n => is_committee_eligible n = true) nodes in
  if decide (Z.of_nat (length eligible) < tier_committee_size tier)
  then filter (fun n => is_eligible n = true) nodes else eligible.

Definition apply_cooldown (nodes : list EligibleNode) (tier : CommitteeTier)
    (tracker : option CooldownTracker) (eligible : list EligibleNode) : list EligibleNode :=
  match tracker with
  | None => eligible
  | Some tr =>
      let rested := filter (fun n => is_in_cooldown tr (en_node_id n) (cooldown_rounds tier) = false)
                      eligible in
      if decide (Z.of_nat (length rested) < tier_committee_size tier)
      then filter (fun n => is_eligible n = true) nodes else rested
  end.

Definition select_committee_with_network_size (nodes : list EligibleNode) (epoch_seed : Hash)
    (epoch_number current_slot network_size : Z) (tracker : option CooldownTracker)
    (now : DateTime) : result GratiaError ValidatorCommittee :=
  let tier := tier_for_network_size network_size in
  let eligible := eligible_pool nodes tier in
  if decide (eligible = []) then
    Err (BlockValidationFailed "No eligible nodes for committee selection")
  else
    let eligible := apply_cooldown nodes tier tracker eligible in
    let input := selection_input epoch_seed epoch_number in
    let candidates := sort_members (omap (candidate input) eligible) in
    let actual_size := Z.min (tier_committee_size tier) (Z.of_nat (length candidates)) in
    let candidates := take (Z.to_nat actual_size) candidates in
    let epoch := mkEpoch epoch_number current_slot (wadd 64 current_slot SLOTS_PER_EPOCH)
                   now epoch_seed in
    let real_signers :=
      Z.of_nat (length (filter (fun m => signing_pubkey m <> []) candidates)) in
    let effective_threshold :=
      if decide (real_signers <= 1) then 1 else tier_finality_threshold tier in
    Ok (mkCommittee epoch candidates (tier_committee_size tier) effective_threshold network_size).

Definition select_committee (nodes : list EligibleNode) (epoch_seed : Hash)
    (epoch_number current_slot : Z) (now : DateTime) : result GratiaError ValidatorCommittee :=
  let network_size := Z.of_nat (length (filter (fun n => is_eligible n = true) nodes)) in
  select_committee_with_network_size nodes epoch_seed epoch_number current_slot network_size
    None now.

Definition should_rotate (c : ValidatorCommittee) (current_slot : Z) : bool :=
  bool_decide (current_slot >= end_slot (epoch c)).

Definition new_seed (last_block_hash : Hash) (new_epoch_number : Z) : Hash :=
  sha256_multi [str_bytes "gratia-epoch-seed-v1:"; last_block_hash; be_bytes 8 new_epoch_number].

Definition rotate_committee (nodes : list EligibleNode) (previous : ValidatorCommittee)
    (last_block_hash : Hash) (now : DateTime) : result GratiaError ValidatorCommittee :=
  let new_epoch_number := wadd 64 (epoch_number (epoch previous)) 1 in
  let new_start_slot := end_slot (epoch previous) in
  select_committee nodes (new_seed last_block_hash new_epoch_number) new_epoch_number
    new_start_slot now.

Definition rotate_committee_with_network_size (nodes : list EligibleNode)
    (previous : ValidatorCommittee) (last_block_hash : Hash) (network_size : Z)
    (tracker : option CooldownTracker) (now : DateTime)
  : result GratiaError ValidatorCommittee :=
  let new_epoch_number := wadd 64 (epoch_number (epoch previous)) 1 in
  let new_start_slot := end_slot (epoch previous) in
  select_committee_with_network_size nodes (new_seed last_block_hash new_epoch_number)
    new_epoch_number new_start_slot network_size tracker now.

Definition derive_epoch_seed (block_hashes : list Hash) (e : Z) : Hash :=
  let relevant := if decide (Z.of_nat (length block_hashes) > 8)
                  then drop (length block_hashes - 8) block_hashes else block_hashes in
  sha256_multi (str_bytes "gratia-randao-seed-v1:" :: relevant ++ [be_bytes 8 e]).

Definition verify_committee_membership (m : CommitteeMember) (epoch_seed : Hash)
    (epoch_number : Z) (vrf_input_override : option bytes) : result GratiaError unit :=
  if decide (proof_bytes (selection_proof m) = []) then
    let expected_output := sha256 (selection_input epoch_seed epoch_number ++ node_id m) in
    if decide (output (selection_proof m) <> expected_output) then Err InvalidVrfProof
    else Ok tt
  else
    let input := match vrf_input_override with
                 | Some i => i
                 | None => selection_input epoch_seed epoch_number
                 end in
    let?? _o := Vrf.verify_vrf_proof (vrf_pubkey m) input (selection_proof m) in Ok tt.
End selection.

End Committee.
