(* ===== verification/CommitteeSelection.v ===== *)
(** * gratia-consensus: properties of committee selection

    Agreement of nodes that see the same candidates in different orders, optimality
    of the selected members, quorum intersection for every network size, the
    rotation of block producers, and the fate of submitted VRF proofs. *)

From stdpp Require Import base gmap strings list fin_maps sorting.
From Stdlib Require Import ZArith Lia.
From S2P Require Import Prelude CoreTypes ThirdParty Crypto Vrf Committee.
Local Open Scope Z_scope.

Module Selection.
Import Committee.

(** ** The order of candidates *)

Definition before (a b : CommitteeMember) : Prop := cmp_members a b = Lt.

Lemma cmp_members_antisym a b : cmp_members b a = CompOpp (cmp_members a b).
Proof.
  unfold cmp_members. rewrite (Z.compare_antisym (selection_value a)).
  destruct (selection_value a ?= selection_value b); simpl; [apply cmp_bytes_antisym|done..].
Qed.

Lemma cmp_members_eq a b : cmp_members a b = Eq -> node_id a = node_id b.
Proof.
  unfold cmp_members. destruct (selection_value a ?= selection_value b); [|done..].
  apply cmp_bytes_eq.
Qed.

#[local] Instance before_trans : Transitive before.
Proof.
  intros a b c. unfold before, cmp_members.
  destruct (Z.compare_spec (selection_value a) (selection_value b)) as [->|Hab|Hab]; try done.
  - destruct (selection_value b ?= selection_value c); try done. apply cmp_bytes_trans.
  - intros _. destruct (Z.compare_spec (selection_value b) (selection_value c)) as [Hbc|Hbc|Hbc];
      try done; intros _; by rewrite (proj2 (Z.compare_lt_iff _ _)) by lia.
Qed.

(** A strict order is antisymmetric. *)
#[local] Instance before_antisymm : AntiSymm (=) before.
Proof.
  intros a b Hab Hba. unfold before in *. rewrite cmp_members_antisym, Hab in Hba. done.
Qed.

#[local] Instance before_dec a b : Decision (before a b).
Proof. unfold before. solve_decision. Defined.

Lemma before_total a b : node_id a <> node_id b -> ~ before b a -> before a b.
Proof.
  unfold before. intros Hne Hb. rewrite cmp_members_antisym in Hb.
  destruct (cmp_members a b) eqn:E; simpl in Hb; [|done..].
  by apply cmp_members_eq in E.
Qed.

Lemma insert_member_perm a l : insert_member a l ≡ₚ a :: l.
Proof.
  induction l as [|b l IH]; simpl; [done|]. destruct (cmp_members b a); try done.
  rewrite IH. constructor.
Qed.

Lemma sort_members_perm l : sort_members l ≡ₚ l.
Proof. induction l as [|a l IH]; simpl; [done|]. by rewrite insert_member_perm, IH. Qed.

Lemma insert_member_sorted a l :
  node_id a ∉ node_id <$> l -> StronglySorted before l -> StronglySorted before (insert_member a l).
Proof.
  induction l as [|b l IH]; intros Hna Hs; simpl; [by repeat constructor|].
  rewrite fmap_cons, not_elem_of_cons in Hna. destruct Hna as [Hab Hna].
  apply StronglySorted_inv in Hs as [Hs Hb].
  destruct (decide (before b a)) as [Hlt|Hge].
  - unfold before in Hlt. rewrite Hlt. constructor; [by apply IH|].
    rewrite insert_member_perm. by constructor.
  - pose proof (before_total a b Hab Hge) as Hba.
    assert (StronglySorted before (a :: b :: l)) as Hall.
    { constructor; [by constructor|]. constructor; [done|].
      eapply Forall_impl; [exact Hb|]. intros x Hx. by transitivity b. }
    unfold before in Hge. destruct (cmp_members b a); done.
Qed.

Lemma sort_members_sorted l :
  NoDup (node_id <$> l) -> StronglySorted before (sort_members l).
Proof.
  induction l as [|a l IH]; intros Hnd; simpl; [constructor|].
  rewrite fmap_cons in Hnd. apply NoDup_cons in Hnd as [Ha Hnd].
  apply insert_member_sorted; [|by apply IH]. by rewrite sort_members_perm.
Qed.

(** Candidates with distinct identities sort the same way from any order. *)
Lemma sort_members_unique l1 l2 :
  l1 ≡ₚ l2 -> NoDup (node_id <$> l1) -> sort_members l1 = sort_members l2.
Proof.
  intros Hp Hnd. apply (StronglySorted_unique before).
  - by apply sort_members_sorted.
  - apply sort_members_sorted. by rewrite <-Hp.
  - by rewrite !sort_members_perm.
Qed.

(** ** Tiers *)

Lemma tier_cases nsize :
  exists t, t ∈ SCALING_TIERS /\ tier_for_network_size nsize = t.
Proof.
  unfold tier_for_network_size. eexists. split; [|done].
  destruct (head (filter _ _)) as [t|] eqn:E; simpl; [|by left].
  destruct (filter _ _) as [|t' l] eqn:F; [done|]. simplify_eq/=.
  assert (t ∈ t :: l) as Hin by left. rewrite <-F in Hin.
  apply list_elem_of_filter in Hin as [_ Hin]. by apply elem_of_reverse in Hin.
Qed.

(** Every tier asks for at least two thirds of an odd committee. *)
Lemma tier_bft nsize :
  let t := tier_for_network_size nsize in
  3 <= tier_committee_size t <= MAX_COMMITTEE_SIZE
  /\ 2 * tier_committee_size t <= 3 * tier_finality_threshold t
  /\ tier_finality_threshold t <= tier_committee_size t
  /\ Z.odd (tier_committee_size t) = true.
Proof.
  destruct (tier_cases nsize) as (t & Ht & ->). unfold MAX_COMMITTEE_SIZE.
  repeat (apply elem_of_cons in Ht as [->|Ht]; [simpl; lia|]). by apply elem_of_nil in Ht.
Qed.

Section selection.
Context `{!HashLib, !RistrettoLib}.

Lemma candidate_id input n m : candidate input n = Some m -> node_id m = en_node_id n.
Proof. unfold candidate. intros. by repeat case_match; simplify_eq/=. Qed.

Lemma candidates_NoDup input l :
  NoDup (en_node_id <$> l) -> NoDup (node_id <$> omap (candidate input) l).
Proof.
  induction l as [|n l IH]; simpl; [done|]. rewrite NoDup_cons. intros [Hn Hnd].
  destruct (candidate input n) as [m|] eqn:E; [|by apply IH]. simpl.
  constructor; [|by apply IH]. rewrite list_elem_of_fmap. intros (x & Hx & Hin).
  apply list_elem_of_omap in Hin as (n' & Hn' & Hc).
  apply Hn. rewrite list_elem_of_fmap. exists n'. split; [|done].
  rewrite <-(candidate_id _ _ _ E), <-(candidate_id _ _ _ Hc). done.
Qed.

Lemma omap_perm {A B} (f : A -> option B) l1 l2 : l1 ≡ₚ l2 -> omap f l1 ≡ₚ omap f l2.
Proof.
  induction 1 as [|x l1 l2 _ IH|x y l|l1 l2 l3 _ IH1 _ IH2]; simpl; [done| | |by etrans].
  - destruct (f x); [by constructor|done].
  - destruct (f x), (f y); try done. constructor.
Qed.

Lemma pool_perm l1 l2 tier : l1 ≡ₚ l2 -> eligible_pool l1 tier ≡ₚ eligible_pool l2 tier.
Proof.
  intros Hp. unfold eligible_pool.
  assert (length (filter (fun n => is_committee_eligible n = true) l1)
          = length (filter (fun n => is_committee_eligible n = true) l2)) as -> by (by rewrite Hp).
  case_decide; by rewrite Hp.
Qed.

Lemma cooldown_perm n1 n2 e1 e2 tier tr :
  n1 ≡ₚ n2 -> e1 ≡ₚ e2 -> apply_cooldown n1 tier tr e1 ≡ₚ apply_cooldown n2 tier tr e2.
Proof.
  intros Hn He. unfold apply_cooldown. destruct tr as [tr|]; [|done].
  set (P := fun n => is_in_cooldown tr (en_node_id n) (cooldown_rounds tier) = false).
  assert (length (filter P e1) = length (filter P e2)) as -> by (by rewrite He).
  case_decide; [by rewrite Hn|by rewrite He].
Qed.

(** The pool is drawn from the given nodes, and all of it is eligible. *)
Lemma pool_sublist nodes tier tr :
  sublist (apply_cooldown nodes tier tr (eligible_pool nodes tier)) nodes
  /\ Forall (fun n => is_eligible n = true)
       (apply_cooldown nodes tier tr (eligible_pool nodes tier)).
Proof.
  assert (sublist (eligible_pool nodes tier) nodes
    /\ Forall (fun n => is_eligible n = true) (eligible_pool nodes tier)) as [Hs Hf].
  { unfold eligible_pool. case_decide; (split; [apply sublist_filter|]); apply Forall_forall;
      intros n [Hn _]%list_elem_of_filter; [done|].
    unfold is_committee_eligible in Hn. by apply andb_true_iff in Hn as [? _]. }
  unfold apply_cooldown. destruct tr as [tr|]; [|done]. case_decide.
  - split; [apply sublist_filter|]. apply Forall_forall. by intros n [Hn _]%list_elem_of_filter.
  - split; [etrans; [apply sublist_filter|done]|].
    apply Forall_forall. intros n [_ Hn]%list_elem_of_filter. by eapply Forall_forall in Hf.
Qed.

Lemma pool_NoDup nodes tier tr :
  NoDup (en_node_id <$> nodes) ->
  NoDup (en_node_id <$> apply_cooldown nodes tier tr (eligible_pool nodes tier)).
Proof. intros. eapply sublist_NoDup; [done|]. apply fmap_sublist, pool_sublist. Qed.

(** C19: nodes agree on the committee: the selection from the same set of candidates
    with distinct identities does not depend on the order in which a node lists
    them, success or failure included. *)
Theorem committee_agreement nodes1 nodes2 seed e slot nsize tr now :
  nodes1 ≡ₚ nodes2 -> NoDup (en_node_id <$> nodes1) ->
  select_committee_with_network_size nodes1 seed e slot nsize tr now
  = select_committee_with_network_size nodes2 seed e slot nsize tr now.
Proof.
  intros Hp Hnd. unfold select_committee_with_network_size.
  set (tier := tier_for_network_size nsize).
  pose proof (pool_perm nodes1 nodes2 tier Hp) as He.
  assert (eligible_pool nodes1 tier = [] <-> eligible_pool nodes2 tier = []) as Hnil.
  { split; intros Hx; rewrite Hx in He; [|symmetry in He]; by apply Permutation_nil in He. }
  destruct (decide (eligible_pool nodes1 tier = [])) as [H1|H1];
    [rewrite (decide_True (P := eligible_pool nodes2 tier = [])) by (by apply Hnil); done|].
  rewrite (decide_False (P := eligible_pool nodes2 tier = [])) by (intros Hx; by apply H1, Hnil). clear Hnil H1.
  rewrite (sort_members_unique
    (omap (candidate (selection_input seed e)) (apply_cooldown nodes1 tier tr (eligible_pool nodes1 tier)))
    (omap (candidate (selection_input seed e)) (apply_cooldown nodes2 tier tr (eligible_pool nodes2 tier)))).
  - done.
  - apply omap_perm. by apply cooldown_perm.
  - apply candidates_NoDup. by apply pool_NoDup.
Qed.

(** The committee is the best of the eligible pool.  A successful selection
    returns the smallest candidates of the pool by (selection value, identity), in
    order and without repetition: as many as the tier asks for or as there are; each
    comes from an eligible node, and every candidate left out ranks after every
    member. *)
Theorem committee_is_best nodes seed e slot nsize tr now c :
  NoDup (en_node_id <$> nodes) ->
  select_committee_with_network_size nodes seed e slot nsize tr now = Ok c ->
  let tier := tier_for_network_size nsize in
  let pool := apply_cooldown nodes tier tr (eligible_pool nodes tier) in
  let candidates := omap (candidate (selection_input seed e)) pool in
  StronglySorted before (members c) /\ NoDup (node_id <$> members c)
  /\ Z.of_nat (length (members c))
     = Z.min (tier_committee_size tier) (Z.of_nat (length candidates))
  /\ (forall m, m ∈ members c ->
        exists n, n ∈ nodes /\ is_eligible n = true
          /\ candidate (selection_input seed e) n = Some m)
  /\ (forall m x, m ∈ members c -> x ∈ candidates -> x ∉ members c -> before m x).
Proof.
  intros Hnd Hsel tier pool candidates.
  unfold select_committee_with_network_size in Hsel. fold tier in Hsel.
  case_decide; [done|]. simplify_eq/=. fold pool candidates. clear H1.
  assert (NoDup (node_id <$> candidates)) as Hc by (by apply candidates_NoDup, pool_NoDup).
  pose proof (sort_members_sorted _ Hc) as Hs. pose proof (sort_members_perm candidates) as Hp.
  assert (0 <= tier_committee_size tier) as Ht.
  { pose proof (tier_bft nsize) as (? & _). unfold tier. lia. }
  set (k := Z.to_nat _). rewrite <-(take_drop k (sort_members candidates)) in Hs, Hp.
  apply StronglySorted_app in Hs as (Hsa & Hs1 & Hs2).
  split_and!.
  - done.
  - rewrite <-Hp, fmap_app in Hc. by apply NoDup_app in Hc as [? _].
  - rewrite length_take. unfold k. rewrite <-(Permutation_length (sort_members_perm candidates)). lia.
  - intros m Hm. assert (m ∈ candidates) as Hin by (rewrite <-Hp; apply elem_of_app; by left).
    apply list_elem_of_omap in Hin as (n & Hn & Hcn).
    destruct (pool_sublist nodes tier tr) as [Hsub Hel].
    exists n. split_and!; [by eapply elem_of_sublist|by eapply Forall_forall in Hel|done].
  - intros m x Hm Hx Hnx. rewrite <-Hp in Hx. apply elem_of_app in Hx as [?|Hx]; [done|].
    by apply Hsa.
Qed.

Lemma selected_threshold nodes seed e slot nsize tr now c :
  select_committee_with_network_size nodes seed e slot nsize tr now = Ok c ->
  committee_size c = tier_committee_size (tier_for_network_size nsize)
  /\ Z.of_nat (length (members c)) <= committee_size c
  /\ (2 <= Z.of_nat (length (filter (fun m => signing_pubkey m <> []) (members c))) ->
      finality_threshold c = tier_finality_threshold (tier_for_network_size nsize)).
Proof.
  unfold select_committee_with_network_size. case_decide; [done|]. intros [= <-]. simpl.
  pose proof (tier_bft nsize) as (Ht & _). split_and!; [done| |].
  - rewrite length_take. lia.
  - intros Hr. by rewrite decide_False by lia.
Qed.

(** C22: finality is Byzantine fault tolerant for every network size.  In a selected
    committee with at least two members that can sign, any two groups of members
    that each reach finality share more than [f] members, for every [f] below a
    third of the committee size. *)
Theorem finality_quorums_intersect (nodes : list EligibleNode) (seed : Hash) (e slot nsize : Z)
    (tr : option CooldownTracker) (now : DateTime) (c : ValidatorCommittee)
    (X Y : gset NodeId) (f : Z) :
  select_committee_with_network_size nodes seed e slot nsize tr now = Ok c ->
  2 <= Z.of_nat (length (filter (fun m => signing_pubkey m <> []) (members c))) ->
  X ⊆ list_to_set (node_id <$> members c) -> Y ⊆ list_to_set (node_id <$> members c) ->
  has_finality c (Z.of_nat (size X)) = true ->
  has_finality c (Z.of_nat (size Y)) = true ->
  3 * f < committee_size c ->
  f < Z.of_nat (size (X ∩ Y)).
Proof.
  intros Hsel Hreal HX HY HfX HfY Hf.
  destruct (selected_threshold _ _ _ _ _ _ _ _ Hsel) as (Hc & Hlen & Hth).
  specialize (Hth Hreal). pose proof (tier_bft nsize) as (_ & Hq & _ & _).
  unfold has_finality in *. apply bool_decide_eq_true in HfX, HfY.
  assert (Z.of_nat (size (list_to_set (node_id <$> members c) : gset NodeId))
          <= committee_size c) as Hsz.
  { assert (forall l : list NodeId, size (list_to_set l : gset NodeId) <= length l)%nat as Hl.
    { clear. induction l as [|x l IH]; [done|]. rewrite list_to_set_cons. simpl.
      pose proof (size_union_inter {[x]} (list_to_set l : gset NodeId)).
      rewrite size_singleton in *. lia. }
    specialize (Hl (node_id <$> members c)). rewrite length_fmap in Hl. lia. }
  pose proof (quorums_intersect _ X Y _ (finality_threshold c) Hsz HX HY ltac:(lia) ltac:(lia)).
  lia.
Qed.

(** ** VRF proofs *)

(** A submitted VRF proof disqualifies its node.  The selection verifies a proof
    against an all-zero output, so a node whose proof is valid is dropped from the
    candidates unless its output happens to be all zeros. *)
Theorem valid_vrf_proof_dropped `{!RistrettoLaws} n sk input :
  let proof := Vrf.generate_vrf_proof sk input in
  en_vrf_pubkey n = Vrf.public_key sk -> vrf_proof n = proof_bytes proof ->
  output proof <> replicate 32 0 ->
  Vrf.verify_vrf_proof (en_vrf_pubkey n) input proof = Ok (output proof)
  /\ candidate input n = None.
Proof.
  intros proof Hpk Hp Hout.
  assert (Vrf.verify_vrf_proof (en_vrf_pubkey n) input proof = Ok (output proof)) as Hok.
  { rewrite Hpk. apply Vrf.assembled_proof_verifies. }
  split; [done|]. unfold candidate. rewrite Hp.
  unfold Vrf.verify_vrf_proof in Hok |- *. cbn [proof_bytes output].
  case_decide as Hlen; [done|].
  rewrite decide_True by (intros Hnil; rewrite Hnil in Hlen; discriminate Hlen).
  repeat (case_match; [|done]). case_decide; [done|]. case_decide; [done|]. simplify_eq.
  by rewrite decide_True by congruence.
Qed.

(** ** Block producers *)

(** Block production rotates fairly: from any slot of an epoch on, each position of
    the committee produces exactly one block in every window of as many consecutive
    slots as there are members. *)
Theorem producers_rotate c slot (i : nat) m :
  start_slot (epoch c) <= slot -> members c !! i = Some m ->
  let n := Z.of_nat (length (members c)) in
  exists k, 0 <= k < n /\ block_producer_for_slot c (slot + k) = Some m
    /\ forall k', 0 <= k' < n ->
         (slot + k' - start_slot (epoch c)) mod n = Z.of_nat i -> k' = k.
Proof.
  intros Hslot Hm n. pose proof (lookup_lt_Some _ _ _ Hm) as Hi.
  assert (0 < n) as Hn by lia.
  set (o := slot - start_slot (epoch c)).
  exists ((Z.of_nat i - o) mod n). pose proof (Z.mod_pos_bound (Z.of_nat i - o) n Hn) as Hb.
  assert ((o + (Z.of_nat i - o) mod n) mod n = Z.of_nat i) as Hidx.
  { rewrite Zplus_mod_idemp_r. replace (o + (Z.of_nat i - o)) with (Z.of_nat i) by lia.
    apply Z.mod_small. lia. }
  split_and!; [lia|lia| |].
  - unfold block_producer_for_slot. rewrite decide_False by (intros Hx; rewrite Hx in Hm; done).
    rewrite decide_False by lia.
    replace (slot + (Z.of_nat i - o) mod n - start_slot (epoch c))
      with (o + (Z.of_nat i - o) mod n) by (unfold o; lia).
    fold n. by rewrite Hidx, Nat2Z.id.
  - intros k' Hk' Hmod.
    replace (slot + k' - start_slot (epoch c)) with (o + k') in Hmod by (unfold o; lia).
    rewrite <-Hmod. rewrite Zminus_mod_idemp_l. replace (o + k' - o) with k' by lia.
    symmetry. apply Z.mod_small. lia.
Qed.
End selection.

(** ** A concrete committee *)
Module Sample.
#[local] Instance sample_hash : HashLib := reference_hash.
#[local] Instance sample_ristretto : RistrettoLib := Vrf.reference_ristretto.

Definition node (i : Z) : EligibleNode :=
  mkEligibleNode [i] (mkVrfPublicKey []) 70 true true 40 [i] [].
Definition nodes : list EligibleNode := node <$> [1; 2; 3; 4; 5].
Definition no_committee : ValidatorCommittee := mkCommittee (mkEpoch 0 0 0 0 []) [] 0 0 0.
Definition chosen : ValidatorCommittee :=
  match select_committee_with_network_size nodes [7] 0 0 5 None 0 with
  | Ok c => c | Err _ => no_committee end.

Lemma nodes_distinct : NoDup (en_node_id <$> nodes).
Proof. decide_now. Qed.

Lemma committee_agreement_witness :
  select_committee_with_network_size (rev nodes) [7] 0 0 5 None 0 = Ok chosen.
Proof.
  rewrite <-(committee_agreement nodes (rev nodes) [7] 0 0 5 None 0).
  - vm_compute. reflexivity.
  - apply Permutation_rev.
  - apply nodes_distinct.
Defined.

Lemma committee_is_best_witness :
  StronglySorted before (members chosen) /\ Z.of_nat (length (members chosen)) = 3.
Proof.
  destruct (committee_is_best nodes [7] 0 0 5 None 0 chosen) as (H1 & _ & H3 & _).
  - apply nodes_distinct.
  - vm_compute. reflexivity.
  - split; [exact H1|]. vm_compute. reflexivity.
Defined.

Definition ids (l : list Z) : gset NodeId := list_to_set ((fun x => [x]) <$> l).
Definition member_ids : list NodeId := node_id <$> members chosen.

Lemma finality_quorums_intersect_witness :
  let X : gset NodeId := list_to_set (take 2 member_ids) in
  let Y : gset NodeId := list_to_set (drop 1 member_ids) in
  0 < Z.of_nat (size (X ∩ Y)).
Proof.
  apply (finality_quorums_intersect nodes [7] 0 0 5 None 0 chosen).
  - vm_compute. reflexivity.
  - vm_compute. discriminate.
  - decide_now.
  - decide_now.
  - vm_compute. reflexivity.
  - vm_compute. reflexivity.
  - vm_compute. reflexivity.
Defined.

Definition secret : VrfSecretKey := mkVrfSecretKey _ true.
Definition prover : EligibleNode :=
  mkEligibleNode [9] (Vrf.public_key secret) 70 true true 40 [9]
    (proof_bytes (Vrf.generate_vrf_proof secret [1; 2])).

Lemma valid_vrf_proof_dropped_witness : candidate [1; 2] prover = None.
Proof.
  apply (@valid_vrf_proof_dropped _ _ Vrf.reference_laws prover secret [1; 2]).
  - reflexivity.
  - reflexivity.
  - vm_compute. discriminate.
Defined.

Lemma producers_rotate_witness :
  exists k, 0 <= k < 3 /\ option_map node_id (block_producer_for_slot chosen (100 + k))
                          = nth_error member_ids 1.
Proof.
  destruct (members chosen !! 1%nat) as [m|] eqn:E; [|vm_compute in E; discriminate].
  destruct (producers_rotate chosen 100 1 m) as (k & Hk & Hp & _).
  - vm_compute. discriminate.
  - exact E.
  - exists k. split; [vm_compute in Hk; exact Hk|]. rewrite Hp. vm_compute in E.
    injection E as <-. vm_compute. reflexivity.
Defined.
End Sample.

End Selection.
