(* ===== verification/Blocks.v ===== *)
(** * gratia-core: blocks

    The block types of [crates/gratia-core/src/types.rs] used by consensus. *)

From stdpp Require Import base gmap strings list fin_maps.
From Stdlib Require Import ZArith Lia.
From S2P Require Import Prelude CoreTypes ThirdParty GovVoting GovPolling Crypto.
Local Open Scope Z_scope.

Record BlockHeader := mkBlockHeader {
  height : Z;
  bh_timestamp : DateTime;
  parent_hash : Hash;
  transactions_root : Hash;
  state_root : Hash;
  attestations_root : Hash;
  producer : NodeId;
  bh_vrf_proof : bytes;
  active_miners : Z;
  geographic_diversity : Z;
  producer_pubkey : bytes
}.

Record ValidatorSignature := mkValidatorSignature {
  validator : NodeId;
  vs_signature : bytes
}.

Section types.
Context `{!FloatLib}.

Inductive TransactionPayload :=
| Transfer (to : Address) (amount : Lux)
| ShieldedTransfer (commitment range_proof encrypted_recipient : bytes)
| Stake (amount : Lux)
| Unstake (amount : Lux)
| DeployContract (bytecode init_args : bytes)
| CallContract (contract : Address) (function : string) (args : bytes) (gas_limit : Lux)
| GovernanceProposal (title description : string) (proposal_data : bytes)
| GovernanceVote (proposal_id : Hash) (vote : Vote)
| CreatePoll (question : string) (options : list string) (duration_secs : Z)
    (geographic_filter : option GeographicFilter)
| PollVote (poll_id : Hash) (option_index : Z).

Record Transaction := mkTransaction {
  tx_hash : Hash;
  payload : TransactionPayload;
  sender_pubkey : bytes;
  tx_signature : bytes;
  nonce : Z;
  chain_id : Z;
  fee : Lux;
  tx_timestamp : DateTime
}.

Record SensorFlags := mkSensorFlags {
  gps : bool;
  accelerometer : bool;
  wifi : bool;
  bluetooth : bool;
  gyroscope : bool;
  ambient_light : bool;
  cellular : bool;
  barometer : bool;
  magnetometer : bool;
  nfc : bool;
  secure_enclave : bool;
  biometric : bool;
  camera_hash : bool;
  microphone_hash : bool
}.

Record ProofOfLifeAttestation := mkAttestation {
  blinded_id : Hash;
  nullifier : Hash;
  zk_proof : bytes;
  zk_commitments : option (list bytes);
  epoch_day : Z;
  att_presence_score : Z;
  sensor_flags : SensorFlags;
  att_signature : bytes
}.

Record Block := mkBlock {
  bl_header : BlockHeader;
  transactions : list Transaction;
  attestations : list ProofOfLifeAttestation;
  validator_signatures : list ValidatorSignature
}.

(** [bincode::serialize]; [Err] carries the message of its error. *)
Class Bincode := {
  encode_header : BlockHeader -> result string bytes;
  encode_payload : TransactionPayload -> result string bytes;
  encode_attestation : ProofOfLifeAttestation -> result string bytes;
  encode_block : Block -> result string bytes
}.

Context `{!HashLib, !Bincode}.

(** [BlockHeader::hash] *)
Definition header_hash (h : BlockHeader) : result GratiaError Hash :=
  match encode_header h with
  | Err e => Err (SerializationError ("block header serialization failed: " +:+ e))
  | Ok encoded => Ok (sha256 encoded)
  end.
End types.
