(* ===== verification/BlockProduction.v ===== *)
(** * gratia-consensus: block production

    [crates/gratia-consensus/src/block_production.rs]: assembling a block, collecting
    the signatures of a pending block, signing and verifying headers.  [Utc::now()]
    is an argument; [bincode] and the signature scheme are parameters. *)

From stdpp Require Import base gmap strings list fin_maps pretty.
From Stdlib Require Import ZArith Lia.
From S2P Require Import Prelude CoreTypes ThirdParty Crypto Vrf Committee Blocks.
Local Open Scope Z_scope.

Record BlockProducer := mkBlockProducer {
  bp_node_id : NodeId;
  bp_current_slot : Z;
  bp_active_miners : Z;
  bp_geographic_diversity : Z
}.

Record PendingBlock `{!FloatLib} := mkPending {
  pb_block : Block;
  signatures : list ValidatorSignature;
  pb_slot : Z;
  pb_finality_threshold : Z
}.

(** 256 KB, the limit of [validation.rs]. *)
Definition MAX_BLOCK_SIZE : Z := 262144.

Module Production.

(** ** PendingBlock *)

Section pending.
Context `{!FloatLib, !HashLib}.

Definition set_signatures (p : PendingBlock) (l : list ValidatorSignature) : PendingBlock :=
  mkPending _ (pb_block p) l (pb_slot p) (pb_finality_threshold p).

Definition is_finalized (p : PendingBlock) : bool :=
  bool_decide (Z.of_nat (length (signatures p)) >= pb_finality_threshold p).

Definition add_signature (p : PendingBlock) (sig : ValidatorSignature)
  : PendingBlock * result GratiaError unit :=
  if existsb (fun s => bool_decide (validator s = validator sig)) (signatures p) then
    (p, Err (BlockValidationFailed
               ("Duplicate signature from validator " +:+ hex_encode (validator sig))))
  else (set_signatures p (signatures p ++ [sig]), Ok tt).

(** The block with the collected signatures copied in. *)
Definition signed_block (p : PendingBlock) : Block :=
  mkBlock (bl_header (pb_block p)) (transactions (pb_block p)) (attestations (pb_block p))
    (signatures p).

Definition finalize (p : PendingBlock) : result GratiaError Block :=
  if negb (is_finalized p) then
    Err (InsufficientSignatures (Z.of_nat (length (signatures p))) (pb_finality_threshold p))
  else Ok (signed_block p).

Definition force_finalize (p : PendingBlock) : result GratiaError Block :=
  if decide (signatures p = []) then
    Err (BlockValidationFailed "Cannot finalize block with zero signatures")
  else if decide (pb_finality_threshold p > 1
                  /\ Z.of_nat (length (signatures p)) < pb_finality_threshold p) then
    Err (BlockValidationFailed
      ("force_finalize blocked: finality_threshold=" +:+ pretty (pb_finality_threshold p)
         +:+ " but only " +:+ pretty (Z.of_nat (length (signatures p)))
         +:+ " signatures (multi-node mode)"))
  else Ok (signed_block p).
End pending.

(** ** BlockProducer *)

Definition new (id : NodeId) (active geo : Z) : BlockProducer := mkBlockProducer id 0 active geo.

Definition set_slot (b : BlockProducer) (slot : Z) : BlockProducer :=
  mkBlockProducer (bp_node_id b) slot (bp_active_miners b) (bp_geographic_diversity b).

Definition update_network_stats (b : BlockProducer) (active geo : Z) : BlockProducer :=
  mkBlockProducer (bp_node_id b) (bp_current_slot b) active geo.

Definition should_produce_block (b : BlockProducer) (c : ValidatorCommittee) : bool :=
  match Committee.block_producer_for_slot c (bp_current_slot b) with
  | Some m => bool_decide (node_id m = bp_node_id b)
  | None => false
  end.

Section produce.
Context `{!FloatLib, !HashLib, !RistrettoLib, !Bincode, !SignLib}.

(** The loop that hashes the attestations. *)
Fixpoint attestation_hashes (l : list ProofOfLifeAttestation) : result GratiaError (list Hash) :=
  match l with
  | [] => Ok []
  | a :: l =>
      match encode_attestation a with
      | Err e => Err (SerializationError ("Failed to serialize attestation: " +:+ e))
      | Ok b => let?? hs := attestation_hashes l in Ok (sha256 b :: hs)
      end
  end.

(** [merkle_root], whose loop always terminates ([merkle_root_total]). *)
Definition root (hashes : list Hash) : Hash := default (replicate 32 0) (merkle_root hashes).

Definition produce_block (b : BlockProducer) (txs : list Transaction)
    (atts : list ProofOfLifeAttestation) (previous_hash : Hash) (h : Z) (st_root : Hash)
    (sk : VrfSecretKey) (c : ValidatorCommittee) (now : DateTime)
  : result GratiaError PendingBlock :=
  let transactions_root := root (tx_hash <$> txs) in
  let?? att_hashes := attestation_hashes atts in
  let attestations_root := root att_hashes in
  let vrf_input := Vrf.build_vrf_input previous_hash (bp_current_slot b) in
  let proof := Vrf.generate_vrf_proof sk vrf_input in
  let header := mkBlockHeader h now previous_hash transactions_root st_root attestations_root
                  (bp_node_id b) (proof_bytes proof) (bp_active_miners b)
                  (bp_geographic_diversity b) [] in
  let block := mkBlock header txs atts [] in
  match encode_block block with
  | Err e => Err (SerializationError e)
  | Ok block_bytes =>
      if decide (Z.of_nat (length block_bytes) > MAX_BLOCK_SIZE) then
        Err (BlockValidationFailed
          ("Produced block " +:+ pretty (Z.of_nat (length block_bytes)) +:+ " bytes exceeds maximum "
             +:+ pretty MAX_BLOCK_SIZE +:+ " bytes. Reduce transactions."))
      else Ok (mkPending _ block [] (bp_current_slot b) (finality_threshold c))
  end.

Definition sign_block (h : BlockHeader) (id : NodeId) (key : SigningKey)
  : result GratiaError ValidatorSignature :=
  let?? hash := header_hash h in
  Ok (mkValidatorSignature id (ed25519_sign key hash)).

Definition verify_block_signature (h : BlockHeader) (sig : ValidatorSignature) (pk : bytes)
  : result GratiaError unit :=
  let?? hash := header_hash h in
  verify_signature pk hash (vs_signature sig).
End produce.

End Production.
