(* ===== verification/Engine.v ===== *)
(** * gratia-consensus: the consensus engine and fork resolution

    [crates/gratia-consensus/src/lib.rs]: [ConsensusEngine] with its slot timer, block
    production, signature collection, finalization, processing of incoming blocks and
    rollback, and [ForkResolver].  [Utc::now()] is an argument; log output is not
    modelled. *)

From stdpp Require Import base gmap strings list fin_maps pretty.
From Stdlib Require Import ZArith Lia.
From S2P Require Import Prelude CoreTypes ThirdParty Crypto Vrf Committee Blocks BlockProduction.
Local Open Scope Z_scope.

Inductive ConsensusState := Syncing | Active | Producing | Stopped.
Inductive BlockProcessResult := Accepted | Skipped | ForkDetected.
Inductive ForkChoice := KeepOurs | SwitchToTheirs | NeedMoreInfo.

#[export] Instance ConsensusState_eq_dec : EqDecision ConsensusState.
Proof. solve_decision. Defined.

Record ConsensusEngine `{!FloatLib, !RistrettoLib} := mkEngine {
  ce_node_id : NodeId;
  vrf_secret_key : VrfSecretKey;
  block_producer : BlockProducer;
  current_committee : option ValidatorCommittee;
  current_slot : Z;
  current_height : Z;
  last_finalized_hash : Hash;
  last_finalized_timestamp : option DateTime;
  recent_block_hashes : list Hash;
  pending_block : option PendingBlock;
  state : ConsensusState;
  ce_presence_score : Z;
  trust_aware : bool;
  syncing_slots : Z;
  started_at : DateTime;
  seen_proposals : gmap (Z * NodeId) Hash
}.

Module Engine.

Definition MAX_RECENT_BLOCKS : nat := 128.
Definition MAX_ROLLBACK_DEPTH : Z := 128.

Section engine.
Context `{!FloatLib, !HashLib, !RistrettoLib, !Bincode, !SignLib}.

Abbreviation engine := ConsensusEngine.

(** ** Field updates *)

Definition set_committee (e : engine) c :=
  mkEngine _ _ (ce_node_id e) (vrf_secret_key e) (block_producer e) c (current_slot e)
    (current_height e) (last_finalized_hash e) (last_finalized_timestamp e)
    (recent_block_hashes e) (pending_block e) (state e) (ce_presence_score e) (trust_aware e)
    (syncing_slots e) (started_at e) (seen_proposals e).
Definition set_slots (e : engine) slot bp syncing :=
  mkEngine _ _ (ce_node_id e) (vrf_secret_key e) bp (current_committee e) slot
    (current_height e) (last_finalized_hash e) (last_finalized_timestamp e)
    (recent_block_hashes e) (pending_block e) (state e) (ce_presence_score e) (trust_aware e)
    syncing (started_at e) (seen_proposals e).
Definition set_chain (e : engine) h hash ts recent :=
  mkEngine _ _ (ce_node_id e) (vrf_secret_key e) (block_producer e) (current_committee e)
    (current_slot e) h hash ts recent (pending_block e) (state e) (ce_presence_score e)
    (trust_aware e) (syncing_slots e) (started_at e) (seen_proposals e).
Definition set_pending (e : engine) p :=
  mkEngine _ _ (ce_node_id e) (vrf_secret_key e) (block_producer e) (current_committee e)
    (current_slot e) (current_height e) (last_finalized_hash e) (last_finalized_timestamp e)
    (recent_block_hashes e) p (state e) (ce_presence_score e) (trust_aware e)
    (syncing_slots e) (started_at e) (seen_proposals e).
Definition set_state (e : engine) st :=
  mkEngine _ _ (ce_node_id e) (vrf_secret_key e) (block_producer e) (current_committee e)
    (current_slot e) (current_height e) (last_finalized_hash e) (last_finalized_timestamp e)
    (recent_block_hashes e) (pending_block e) st (ce_presence_score e) (trust_aware e)
    (syncing_slots e) (started_at e) (seen_proposals e).
Definition set_seen (e : engine) m :=
  mkEngine _ _ (ce_node_id e) (vrf_secret_key e) (block_producer e) (current_committee e)
    (current_slot e) (current_height e) (last_finalized_hash e) (last_finalized_timestamp e)
    (recent_block_hashes e) (pending_block e) (state e) (ce_presence_score e) (trust_aware e)
    (syncing_slots e) (started_at e) m.
Definition set_score (e : engine) score :=
  mkEngine _ _ (ce_node_id e) (vrf_secret_key e) (block_producer e) (current_committee e)
    (current_slot e) (current_height e) (last_finalized_hash e) (last_finalized_timestamp e)
    (recent_block_hashes e) (pending_block e) (state e) score (trust_aware e)
    (syncing_slots e) (started_at e) (seen_proposals e).

(** ** Construction and queries *)

Definition new (id : NodeId) (signing_key_bytes : bytes) (score : Z) (now : DateTime) : engine :=
  mkEngine _ _ id (Vrf.from_ed25519_bytes signing_key_bytes) (Production.new id 0 0) None 0 0
    (replicate 32 0) None [] None Syncing score true 0 now ∅.

Definition clear_proposals_for_height (e : engine) (h : Z) : engine :=
  set_seen e (filter (fun kv => kv.1.1 <> h) (seen_proposals e)).

Definition is_committee_member (e : engine) : bool :=
  match current_committee e with
  | Some c => Committee.is_committee_member c (ce_node_id e)
  | None => false
  end.

Definition compute_epoch_seed (e : engine) : Hash :=
  sha256 (str_bytes "gratia-epoch-seed-v1:" ++ last_finalized_hash e
            ++ be_bytes 8 (current_height e)).

Definition pending_finality_threshold (e : engine) : Z :=
  match pending_block e with Some p => pb_finality_threshold p | None => max_val 64 end.

Definition has_recent_block (e : engine) (hash : Hash) : bool :=
  bool_decide (hash ∈ recent_block_hashes e).

Definition slots_remaining_in_epoch (e : engine) : option Z :=
  match current_committee e with
  | Some c => Some (if decide (current_slot e >= end_slot (epoch c)) then 0
                    else end_slot (epoch c) - current_slot e)
  | None => None
  end.

(** Members that have a signing key. *)
Definition real_members (c : ValidatorCommittee) : Z :=
  Z.of_nat (length (filter (fun m => signing_pubkey m <> []) (members c))).

(** ** Committee *)

Definition initialize_committee (e : engine) (nodes : list EligibleNode) (seed : Hash)
    (epoch_number start_slot : Z) (now : DateTime) : engine * result GratiaError unit :=
  let? c := Committee.select_committee nodes seed epoch_number start_slot now at e in
  (set_state (set_slots (set_committee e (Some c)) start_slot (block_producer e)
     (syncing_slots e)) Active, Ok tt).

Definition rotate_committee (e : engine) (nodes : list EligibleNode) (now : DateTime)
  : engine * result GratiaError unit :=
  let? current := ok_or (current_committee e)
                    (BlockValidationFailed "No current committee to rotate from") at e in
  let? c := Committee.rotate_committee nodes current (last_finalized_hash e) now at e in
  (set_committee e (Some c), Ok tt).

(** ** Slots and production *)

Definition advance_slot (e : engine) : engine * bool :=
  let next_height := wadd 64 (current_height e) 1 in
  let e := set_slots e (wadd 64 (current_slot e) 1)
             (Production.set_slot (block_producer e) next_height) (syncing_slots e) in
  if decide (state e = Syncing) then
    let n := wadd 64 (syncing_slots e) 1 in
    (set_slots e (current_slot e) (block_producer e) (if decide (n > 15) then 0 else n), false)
  else
    match current_committee e with
    | Some c =>
        if Production.should_produce_block (block_producer e) c
        then (set_state e Producing, true) else (e, false)
    | None => (e, false)
    end.

Definition force_producing_state (e : engine) : engine := set_state e Producing.

Definition set_producer_pubkey (p : PendingBlock) (pk : bytes) : PendingBlock :=
  let b := pb_block p in
  let h := bl_header b in
  let h := mkBlockHeader (height h) (bh_timestamp h) (parent_hash h) (transactions_root h)
             (state_root h) (attestations_root h) (producer h) (bh_vrf_proof h)
             (active_miners h) (geographic_diversity h) pk in
  mkPending _ (mkBlock h (transactions b) (attestations b) (validator_signatures b))
    (signatures p) (pb_slot p) (pb_finality_threshold p).

Definition produce_block (e : engine) (txs : list Transaction)
    (atts : list ProofOfLifeAttestation) (st_root : Hash) (pk : bytes) (now : DateTime)
  : engine * result GratiaError PendingBlock :=
  if decide (state e <> Producing) then (e, Err (BlockValidationFailed "Not in producing state"))
  else
    let h := wadd 64 (current_height e) 1 in
    let? c := ok_or (current_committee e)
                (BlockValidationFailed "No active committee for block production") at e in
    let? pending := Production.produce_block (block_producer e) txs atts (last_finalized_hash e) h
                      st_root (vrf_secret_key e) c now at e in
    let pending := set_producer_pubkey pending pk in
    (set_pending e (Some pending), Ok pending).

(** ** Signatures and finality *)

(** The checks of [add_block_signature] against the current committee. *)
Definition check_signer (c : ValidatorCommittee) (h : BlockHeader) (sig : ValidatorSignature)
  : result GratiaError unit :=
  if negb (Committee.is_committee_member c (validator sig)) then
    Err (BlockValidationFailed ("Signer " +:+ hex_encode (validator sig) +:+ " is not a committee member"))
  else
    match Committee.get_signing_pubkey c (validator sig) with
    | Some pubkey => Production.verify_block_signature h sig pubkey
    | None =>
        if decide (real_members c > 1) then
          Err (BlockValidationFailed
            ("Rejecting unverified signature from validator " +:+ hex_encode (validator sig)
               +:+ ": no signing pubkey (multi-node mode, " +:+ pretty (real_members c)
               +:+ " real members)"))
        else Ok tt
    end.

Definition add_block_signature (e : engine) (sig : ValidatorSignature)
  : engine * result GratiaError bool :=
  let? pending := ok_or (pending_block e) (BlockValidationFailed "No pending block to sign") at e in
  let? _o := match current_committee e with
            | Some c => check_signer c (bl_header (pb_block pending)) sig
            | None => Ok tt
            end at e in
  let '(pending, r) := Production.add_signature pending sig in
  let e := set_pending e (Some pending) in
  let? _o := r at e in
  (e, Ok (Production.is_finalized pending)).

(** [push] and the [drain] that keeps the last [MAX_RECENT_BLOCKS] hashes. *)
Definition push_recent (l : list Hash) (hash : Hash) : list Hash :=
  let l := l ++ [hash] in
  if decide (MAX_RECENT_BLOCKS < length l)%nat then drop (length l - MAX_RECENT_BLOCKS) l else l.

Definition finalize_pending_block_inner (e : engine) (force : bool)
  : engine * result GratiaError Block :=
  match pending_block e with
  | None => (e, Err (BlockValidationFailed "No pending block to finalize"))
  | Some pending =>
      let e := set_pending e None in
      let? block := (if force then Production.force_finalize pending
                     else Production.finalize pending) at e in
      let? hash := header_hash (bl_header block) at e in
      let e := set_chain e (height (bl_header block)) hash (Some (bh_timestamp (bl_header block)))
                 (push_recent (recent_block_hashes e) hash) in
      (set_state e Active, Ok block)
  end.

Definition finalize_pending_block (e : engine) : engine * result GratiaError Block :=
  finalize_pending_block_inner e false.

Definition force_finalize_pending_block (e : engine) : engine * result GratiaError Block :=
  match current_committee e with
  | Some c =>
      if decide (real_members c > 1) then
        (e, Err (BlockValidationFailed
               ("force_finalize blocked: " +:+ pretty (real_members c)
                  +:+ " real committee members (only allowed in solo/bootstrap mode)")))
      else finalize_pending_block_inner e true
  | None => finalize_pending_block_inner e true
  end.

Definition sign_block_as_validator (e : engine) (h : BlockHeader) (key : SigningKey)
  : result GratiaError ValidatorSignature :=
  if negb (is_committee_member e) then
    Err (BlockValidationFailed "This node is not a committee member")
  else Production.sign_block h (ce_node_id e) key.

(** ** Incoming blocks *)

(** The producer checks: a fast-forward needs a member with a signing key. *)
Definition check_producer (c : ValidatorCommittee) (b : Block) (fast_forward : bool)
  : result GratiaError unit :=
  let p := producer (bl_header b) in
  if fast_forward then
    if existsb (fun m => bool_decide (node_id m = p) && bool_decide (signing_pubkey m <> []))
         (members c) then Ok tt
    else Err (BlockValidationFailed "fast-forward block producer is not a committee member")
  else
    if existsb (fun m => bool_decide (node_id m = p)) (members c) then Ok tt
    else Err (BlockValidationFailed "block producer is not a committee member").

(** The loop over the validator signatures of a block. *)
Fixpoint check_signatures (c : ValidatorCommittee) (h : BlockHeader)
    (l : list ValidatorSignature) : result GratiaError unit :=
  match l with
  | [] => Ok tt
  | vs :: l =>
      if negb (Committee.is_committee_member c (validator vs)) then
        Err (BlockValidationFailed
          ("Block signature from non-committee member: " +:+ hex_encode (validator vs)))
      else
        match Committee.get_signing_pubkey c (validator vs) with
        | Some pubkey =>
            match Production.verify_block_signature h vs pubkey with
            | Err e => Err (BlockValidationFailed
                ("Invalid signature from validator " +:+ hex_encode (validator vs) +:+ ": "
                   +:+ display_error e))
            | Ok _ => check_signatures c h l
            end
        | None =>
            if decide (real_members c > 1) then
              Err (BlockValidationFailed
                ("Block signature from validator " +:+ hex_encode (validator vs)
                   +:+ " has no signing pubkey (multi-node mode, " +:+ pretty (real_members c)
                   +:+ " real members)"))
            else check_signatures c h l
        end
  end.

(** The bytes a transaction's signature covers. *)
Definition signable (tx : Transaction) (payload_bytes : bytes) : bytes :=
  payload_bytes ++ le_bytes 8 (nonce tx) ++ le_bytes 4 (chain_id tx) ++ le_bytes 8 (fee tx)
    ++ le_bytes 8 (timestamp_millis (tx_timestamp tx)).

Definition check_transaction (i : nat) (tx : Transaction) : result GratiaError unit :=
  let idx := pretty (Z.of_nat i) in
  if decide (length (tx_signature tx) <> 64%nat) then
    Err (BlockValidationFailed ("Transaction " +:+ idx +:+ " has invalid signature length: "
           +:+ pretty (Z.of_nat (length (tx_signature tx))) +:+ " (expected 64)"))
  else if decide (length (sender_pubkey tx) <> 32%nat) then
    Err (BlockValidationFailed ("Transaction " +:+ idx +:+ " has invalid sender pubkey length: "
           +:+ pretty (Z.of_nat (length (sender_pubkey tx))) +:+ " (expected 32)"))
  else
    match encode_payload (payload tx) with
    | Err e => Err (BlockValidationFailed
        ("Transaction " +:+ idx +:+ " payload serialization failed: " +:+ e))
    | Ok pb =>
        match verify_signature (sender_pubkey tx) (signable tx pb) (tx_signature tx) with
        | Err _ => Err (BlockValidationFailed
            ("Transaction " +:+ idx +:+ " has invalid Ed25519 signature"))
        | Ok _ => Ok tt
        end
    end.

Fixpoint check_transactions (i : nat) (l : list Transaction) : result GratiaError unit :=
  match l with
  | [] => Ok tt
  | tx :: l => let?? _o := check_transaction i tx in check_transactions (S i) l
  end.

(** The pruning of proposals more than 100 heights behind. *)
Definition prune_seen (h : Z) (m : gmap (Z * NodeId) Hash) : gmap (Z * NodeId) Hash :=
  if decide (h > 100) then filter (fun kv => kv.1.1 > h - 100) m else m.

(** The validation that follows the equivocation check. *)
Definition validate_incoming (e : engine) (b : Block) (fast_forward : bool)
  : result GratiaError unit :=
  match current_committee e with
  | Some c =>
      let?? _o := check_producer c b fast_forward in
      if decide (Z.of_nat (length (validator_signatures b)) < 1) then
        Err (InsufficientSignatures (Z.of_nat (length (validator_signatures b))) 1)
      else
        let?? _o := check_signatures c (bl_header b) (validator_signatures b) in
        check_transactions 0 (transactions b)
  | None => check_transactions 0 (transactions b)
  end.

(** A different block of this producer was seen at this height. *)
Definition other_block (seen : option Hash) (hash : Hash) : bool :=
  match seen with Some prev => bool_decide (prev <> hash) | None => false end.

Definition process_incoming_block (e : engine) (b : Block)
  : engine * result GratiaError BlockProcessResult :=
  let h := height (bl_header b) in
  let expected := wadd 64 (current_height e) 1 in
  if decide (h <= current_height e) then (e, Ok Skipped)
  else if decide (h > expected /\ h - current_height e <> 2) then (e, Ok ForkDetected)
  else
    let fast_forward := bool_decide (h > expected) in
    if negb fast_forward && bool_decide (parent_hash (bl_header b) <> last_finalized_hash e)
    then (e, Ok ForkDetected)
    else
      let? hash := header_hash (bl_header b) at e in
      let key := (h, producer (bl_header b)) in
      if other_block (seen_proposals e !! key) hash then
        (e, Err (BlockValidationFailed
               "equivocation: producer proposed different blocks at same height"))
      else
        let e := set_seen e (prune_seen (current_height e)
                               (<[key := hash]> (seen_proposals e))) in
        let? _o := validate_incoming e b fast_forward at e in
        let? block_hash := header_hash (bl_header b) at e in
        let e := set_chain e h block_hash (Some (bh_timestamp (bl_header b)))
                   (push_recent (recent_block_hashes e) block_hash) in
        let e := match pending_block e with Some _ => set_pending e None | None => e end in
        (set_state e Active, Ok Accepted).
(** ** Rollback and restore *)

Definition rollback_to (e : engine) (h : Z) (tip_hash : Hash) : engine * result GratiaError unit :=
  if decide (h > 0 /\ current_height e > h /\ current_height e - h > MAX_ROLLBACK_DEPTH) then
    (e, Err (Other ("Rollback depth " +:+ pretty (current_height e - h) +:+ " exceeds maximum "
           +:+ pretty MAX_ROLLBACK_DEPTH +:+ " blocks (current=" +:+ pretty (current_height e)
           +:+ ", target=" +:+ pretty h +:+ ")")))
  else
    let e := set_chain e h tip_hash None [] in
    let e := set_state (set_pending e None) Active in
    (set_slots e (current_slot e) (block_producer e) 0, Ok tt).

Definition set_presence_score (e : engine) (score : Z) : engine := set_score e score.

Definition update_network_stats (e : engine) (active geo : Z) : engine :=
  set_slots e (current_slot e) (Production.update_network_stats (block_producer e) active geo)
    (syncing_slots e).

Definition restore_state (e : engine) (h : Z) (tip_hash : Hash) : engine :=
  set_chain e h tip_hash (last_finalized_timestamp e) (recent_block_hashes e).

Definition stop (e : engine) : engine := set_pending (set_state e Stopped) None.

(** ** Fork resolution *)

Definition resolve_fork (ours theirs : Block) (our_sigs their_sigs threshold : Z)
  : result GratiaError ForkChoice :=
  let our_height := height (bl_header ours) in
  let their_height := height (bl_header theirs) in
  if decide (our_height <> their_height) then
    if decide (their_height > our_height) then Ok SwitchToTheirs else Ok KeepOurs
  else if decide (their_sigs > our_sigs /\ their_sigs >= threshold) then Ok SwitchToTheirs
  else if decide (our_sigs > their_sigs /\ our_sigs >= threshold) then Ok KeepOurs
  else if decide (our_sigs = their_sigs /\ our_sigs >= threshold) then
    match header_hash (bl_header ours) with
    | Err _ => Err (BlockValidationFailed
        "failed to compute hash for our block during fork resolution")
    | Ok our_hash =>
        match header_hash (bl_header theirs) with
        | Err _ => Err (BlockValidationFailed
            "failed to compute hash for their block during fork resolution")
        | Ok their_hash =>
            match cmp_bytes their_hash our_hash with
            | Lt => Ok SwitchToTheirs
            | _ => Ok KeepOurs
            end
        end
    end
  else Ok NeedMoreInfo.
End engine.

End Engine.
