(* ===== verification/EngineSafety.v ===== *)
(** * gratia-consensus: safety of the engine

    What a finalized block certifies, what an accepted incoming block has passed, and
    convergence of the fork choice. *)

From stdpp Require Import base gmap strings list fin_maps pretty.
From Stdlib Require Import ZArith Lia.
From S2P Require Import Prelude CoreTypes ThirdParty Crypto Vrf Committee Blocks BlockProduction Engine.
Local Open Scope Z_scope.

Module EngineSafety.
Import Engine.

Section safety.
Context `{!FloatLib, !HashLib, !RistrettoLib, !Bincode, !SignLib}.

(** ** Runs *)

Inductive op :=
| OpInit (nodes : list EligibleNode) (seed : Hash) (e slot : Z) (now : DateTime)
| OpRotate (nodes : list EligibleNode) (now : DateTime)
| OpAdvance
| OpForce
| OpProduce (txs : list Transaction) (atts : list ProofOfLifeAttestation) (st_root : Hash)
    (pk : bytes) (now : DateTime)
| OpSign (sig : ValidatorSignature)
| OpFinalize
| OpForceFinalize
| OpProcess (b : Block)
| OpRollback (h : Z) (tip : Hash)
| OpRestore (h : Z) (tip : Hash)
| OpClearProposals (h : Z)
| OpScore (score : Z)
| OpStats (active geo : Z)
| OpStop.

Definition run_op (e : ConsensusEngine) (o : op) : ConsensusEngine :=
  match o with
  | OpInit nodes seed n slot now => fst (initialize_committee e nodes seed n slot now)
  | OpRotate nodes now => fst (rotate_committee e nodes now)
  | OpAdvance => fst (advance_slot e)
  | OpForce => force_producing_state e
  | OpProduce txs atts r pk now => fst (produce_block e txs atts r pk now)
  | OpSign sig => fst (add_block_signature e sig)
  | OpFinalize => fst (finalize_pending_block e)
  | OpForceFinalize => fst (force_finalize_pending_block e)
  | OpProcess b => fst (process_incoming_block e b)
  | OpRollback h tip => fst (rollback_to e h tip)
  | OpRestore h tip => restore_state e h tip
  | OpClearProposals h => clear_proposals_for_height e h
  | OpScore s => set_presence_score e s
  | OpStats a g => update_network_stats e a g
  | OpStop => stop e
  end.

Definition run (e : ConsensusEngine) (os : list op) : ConsensusEngine := foldl run_op e os.

Lemma run_snoc e os o : run e (os ++ [o]) = run_op (run e os) o.
Proof. unfold run. by rewrite foldl_app. Qed.

(** ** The pending block *)

Lemma produced_pending (b : BlockProducer) txs atts hash h r sk c now p :
  Production.produce_block b txs atts hash h r sk c now = Ok p ->
  signatures p = [] /\ pb_finality_threshold p = finality_threshold c.
Proof. unfold Production.produce_block. intros. by repeat case_match; simplify_eq/=. Qed.

Lemma add_signature_cases (p : PendingBlock) sig p' r :
  Production.add_signature p sig = (p', r) ->
  (p' = p /\ r <> Ok tt)
  \/ (validator sig ∉ validator <$> signatures p
      /\ p' = Production.set_signatures p (signatures p ++ [sig]) /\ r = Ok tt).
Proof.
  unfold Production.add_signature. destruct (existsb _ _) eqn:E; intros [= <- <-]; [by left|].
  right. split_and!; try done. intros Hin. apply not_true_iff_false in E. apply E.
  apply existsb_exists. apply list_elem_of_fmap in Hin as (s & Hs & Hin).
  exists s. split; [by apply list_elem_of_In|]. by apply bool_decide_eq_true.
Qed.

(** Where the pending block of the next state comes from. *)
Definition from_produce (e : ConsensusEngine) (o : op) (p : PendingBlock) : Prop :=
  exists txs atts r pk now c, o = OpProduce txs atts r pk now /\ current_committee e = Some c
    /\ signatures p = [] /\ pb_finality_threshold p = finality_threshold c.

Definition from_sign (e : ConsensusEngine) (o : op) (p : PendingBlock) : Prop :=
  exists sig p0, o = OpSign sig /\ pending_block e = Some p0
    /\ p = Production.set_signatures p0 (signatures p0 ++ [sig])
    /\ validator sig ∉ validator <$> signatures p0
    /\ forall c, current_committee e = Some c -> check_signer c (bl_header (pb_block p0)) sig = Ok tt.

Lemma sign_cases e sig p :
  pending_block (fst (add_block_signature e sig)) = Some p ->
  pending_block e = Some p \/ from_sign e (OpSign sig) p.
Proof.
  unfold add_block_signature. destruct (pending_block e) as [p0|] eqn:E; cbn; [|by rewrite E].
  destruct (match current_committee e with Some c => _ | None => _ end) as [[]|err] eqn:Hc; cbn;
    [|rewrite E; by left].
  destruct (Production.add_signature p0 sig) as [p' r] eqn:Ea.
  assert (pending_block (fst (let? _o := r at set_pending e (Some p') in
            (set_pending e (Some p'), Ok (Production.is_finalized p')))) = Some p') as -> by (by destruct r).
  intros [= <-]. apply add_signature_cases in Ea as [(-> & _)|(Hnew & -> & _)]; [by left|right].
  exists sig, p0. split_and!; try done. intros c Hcc. by rewrite Hcc in Hc.
Qed.

Lemma produce_cases e txs atts r pk now p :
  pending_block (fst (produce_block e txs atts r pk now)) = Some p ->
  pending_block e = Some p \/ from_produce e (OpProduce txs atts r pk now) p.
Proof.
  unfold produce_block. case_decide; [by left|].
  destruct (current_committee e) as [c|] eqn:Hc; cbn; [|by left].
  destruct (Production.produce_block _ _ _ _ _ _ _ _ _) as [q|err] eqn:Ep; cbn; [|by left].
  apply produced_pending in Ep as [Hs Ht]. intros [= <-]. right.
  by exists txs, atts, r, pk, now, c.
Qed.

Lemma finalize_cases e force p :
  pending_block (fst (finalize_pending_block_inner e force)) = Some p -> pending_block e = Some p.
Proof.
  unfold finalize_pending_block_inner. destruct (pending_block e) as [p0|] eqn:E; cbn; [|by rewrite E].
  destruct (if force then _ else _) as [b|err]; cbn; [|done]. by destruct (header_hash (bl_header b)).
Qed.

Lemma process_cases e b p :
  pending_block (fst (process_incoming_block e b)) = Some p -> pending_block e = Some p.
Proof.
  unfold process_incoming_block. case_decide; [done|]. case_decide; [done|].
  destruct (negb _ && _); [done|]. destruct (header_hash (bl_header b)); cbn [fst]; [|done].
  destruct (other_block _ _); [done|]. destruct (validate_incoming _ _ _); cbn; [|done].
  by destruct (pending_block e) eqn:E; cbn; rewrite ?E.
Qed.

Lemma pending_cases e o p :
  pending_block (run_op e o) = Some p ->
  pending_block e = Some p \/ from_produce e o p \/ from_sign e o p.
Proof.
  destruct o; cbn [run_op].
  - unfold initialize_committee. destruct (Committee.select_committee _ _ _ _ _); by left.
  - unfold rotate_committee. destruct (current_committee e) as [c|]; [|by left].
    cbn. destruct (Committee.rotate_committee _ _ _ _); by left.
  - unfold advance_slot. cbn. case_decide; [by left|].
    destruct (current_committee e); [|by left]. destruct (Production.should_produce_block _ _); by left.
  - by left.
  - intros []%produce_cases; auto.
  - intros []%sign_cases; auto.
  - intros ?%finalize_cases. by left.
  - unfold force_finalize_pending_block. destruct (current_committee e); [case_decide; [by left|]|];
      intros ?%finalize_cases; by left.
  - intros ?%process_cases. by left.
  - unfold rollback_to. case_decide; [by left|done].
  - by left.
  - by left.
  - by left.
  - by left.
  - done.
Qed.

(** ** The committee *)

Definition changes_committee (o : op) : bool :=
  match o with OpInit _ _ _ _ _ | OpRotate _ _ => true | _ => false end.

Lemma committee_kept e o : changes_committee o = false -> current_committee (run_op e o) = current_committee e.
Proof.
  destruct o; try done; intros _; cbn [run_op].
  - unfold advance_slot. cbn. case_decide; [done|].
    destruct (current_committee e) eqn:E; [|done]. by destruct (Production.should_produce_block _ _).
  - unfold produce_block. case_decide; [done|].
    destruct (current_committee e) as [c|] eqn:E; cbn; [|by rewrite E].
    by destruct (Production.produce_block _ _ _ _ _ _ _ _ _); cbn; rewrite E.
  - unfold add_block_signature. destruct (pending_block e) as [p|]; cbn; [|done].
    destruct (match current_committee e with Some c => check_signer c _ _ | None => _ end); cbn; [|done].
    by destruct (Production.add_signature _ _) as [? []].
  - unfold finalize_pending_block, finalize_pending_block_inner. destruct (pending_block e); [|done].
    destruct (Production.finalize _); cbn; [|done]. by destruct (header_hash _).
  - assert (current_committee (fst (finalize_pending_block_inner e true)) = current_committee e) as Hf.
    { unfold finalize_pending_block_inner. destruct (pending_block e); [|done].
      destruct (Production.force_finalize _); cbn; [|done]. by destruct (header_hash _). }
    unfold force_finalize_pending_block.
    destruct (current_committee e) eqn:E; [case_decide; [cbn; by rewrite E|]|]; by rewrite Hf.
  - unfold process_incoming_block. case_decide; [done|]. case_decide; [done|].
    destruct (negb _ && _); [done|]. destruct (header_hash (bl_header b)); cbn [fst]; [|done].
    destruct (other_block _ _); [done|]. destruct (validate_incoming _ _ _); cbn; [|done].
    by destruct (pending_block e).
  - unfold rollback_to. by case_decide.
Qed.

Lemma committee_stays e o : is_Some (current_committee e) -> is_Some (current_committee (run_op e o)).
Proof.
  intros Hc. destruct (changes_committee o) eqn:Ho; [|by rewrite committee_kept].
  destruct o; try done; cbn [run_op].
  - unfold initialize_committee. destruct (Committee.select_committee _ _ _ _ _); cbn; [eauto|done].
  - unfold rotate_committee. destruct Hc as [c Hc]. rewrite Hc. cbn.
    destruct (Committee.rotate_committee _ _ _ _); cbn; [eauto|]. rewrite Hc. eauto.
Qed.

Lemma run_committee_kept e os :
  Forall (fun o => changes_committee o = false) os -> current_committee (run e os) = current_committee e.
Proof.
  revert e. induction os as [|o os IH]; intros e Hf; [done|].
  apply Forall_cons in Hf as [Ho Hf]. cbn. rewrite <-(committee_kept e o Ho). by apply IH.
Qed.

(** ** The invariant over runs *)

(** Signature [sig] was handed in during [os], after [before], and passed the checks against
    the committee of that moment. *)
Definition signed_during (e : ConsensusEngine) (before os : list op) (h : BlockHeader)
    (sig : ValidatorSignature) : Prop :=
  exists os1 os2 c, os = os1 ++ OpSign sig :: os2
    /\ current_committee (run e (before ++ os1)) = Some c /\ check_signer c h sig = Ok tt.

(** The block [p] was produced under the committee [c] by a call after [os1], and its
    signatures are of distinct validators, handed in and checked during [os2]. *)
Definition collected (e : ConsensusEngine) (os os1 os2 : list op) (c : ValidatorCommittee)
    (p : PendingBlock) : Prop :=
  exists txs atts r pk now,
    os = os1 ++ OpProduce txs atts r pk now :: os2
    /\ current_committee (run e os1) = Some c
    /\ is_Some (current_committee (run e os))
    /\ pb_finality_threshold p = finality_threshold c
    /\ NoDup (validator <$> signatures p)
    /\ Forall (signed_during e (os1 ++ [OpProduce txs atts r pk now]) os2 (bl_header (pb_block p)))
         (signatures p).

Lemma signed_during_snoc e before os h sig o :
  signed_during e before os h sig -> signed_during e before (os ++ [o]) h sig.
Proof.
  intros (os1 & os2 & c & -> & ? & ?). exists os1, (os2 ++ [o]), c. by rewrite <-app_assoc.
Qed.

Lemma collected_snoc e os os1 os2 c p o :
  collected e os os1 os2 c p -> collected e (os ++ [o]) os1 (os2 ++ [o]) c p.
Proof.
  intros (txs & atts & r & pk & now & -> & Hc & Hs & Ht & Hn & Hf). exists txs, atts, r, pk, now.
  split_and!; try done.
  - by rewrite <-app_assoc.
  - rewrite run_snoc. by apply committee_stays.
  - eapply Forall_impl; [exact Hf|]. intros sig. apply signed_during_snoc.
Qed.

Lemma collected_sign e os os1 os2 c p sig :
  collected e os os1 os2 c p -> validator sig ∉ validator <$> signatures p ->
  (forall c', current_committee (run e os) = Some c' ->
     check_signer c' (bl_header (pb_block p)) sig = Ok tt) ->
  collected e (os ++ [OpSign sig]) os1 (os2 ++ [OpSign sig]) c
    (Production.set_signatures p (signatures p ++ [sig])).
Proof.
  intros Hc Hnew Hchk. pose proof (collected_snoc _ _ _ _ _ _ (OpSign sig) Hc) as Hs.
  destruct Hc as (txs & atts & r & pk & now & Hos & _ & [c' Hc'] & _).
  destruct Hs as (txs' & atts' & r' & pk' & now' & Hos' & Hc1 & Hs1 & Ht & Hn & Hf).
  rewrite Hos, <-app_assoc in Hos'. apply app_inv_head in Hos'. injection Hos' as <- <- <- <- <-.
  exists txs, atts, r, pk, now. split_and!; try done; [by rewrite Hos, <-app_assoc| |]; cbn.
  - rewrite fmap_app. apply NoDup_app. split_and!; [done| |apply NoDup_singleton].
    intros x Hx ->%list_elem_of_singleton. done.
  - apply Forall_app. split; [exact Hf|]. constructor; [|constructor].
    exists os2, [], c'. split_and!; [done| |by apply Hchk].
    rewrite Hos in Hc'. by rewrite <-app_assoc.
Qed.

Lemma pending_collected e os p :
  pending_block e = None -> pending_block (run e os) = Some p ->
  exists os1 os2 c, collected e os os1 os2 c p.
Proof.
  intros He. revert p. induction os as [|o os IH] using rev_ind; intros p Hp.
  { cbn in Hp. congruence. }
  rewrite run_snoc in Hp. apply pending_cases in Hp as [Hp|[Hp|Hp]].
  - destruct (IH p Hp) as (os1 & os2 & c & Hc). exists os1, (os2 ++ [o]), c. by apply collected_snoc.
  - destruct Hp as (txs & atts & r & pk & now & c & -> & Hc & Hs & Ht).
    exists os, [], c, txs, atts, r, pk, now. rewrite Hs. split_and!; try done; [|constructor..].
    rewrite run_snoc. apply committee_stays. eauto.
  - destruct Hp as (sig & p0 & -> & Hp0 & -> & Hnew & Hchk).
    destruct (IH p0 Hp0) as (os1 & os2 & c & Hc). exists os1, (os2 ++ [OpSign sig]), c.
    by apply collected_sign.
Qed.

(** A checked signer is a member whose signature verifies, unless at most one member
    has a key. *)
Lemma check_signer_ok c h sig :
  check_signer c h sig = Ok tt ->
  Committee.is_committee_member c (validator sig) = true
  /\ (real_members c > 1 ->
      exists pk, Committee.get_signing_pubkey c (validator sig) = Some pk
        /\ Production.verify_block_signature h sig pk = Ok tt).
Proof.
  unfold check_signer. destruct (Committee.is_committee_member _ _); simpl; [|done].
  destruct (Committee.get_signing_pubkey _ _) as [pk|]; [by eauto|].
  case_decide; [done|]. intros _. by split.
Qed.

(** [sig] is a signature of a member of [c], and a valid Ed25519 signature of [h] under the
    key of that member if more than one member has a key. *)
Definition certifies (c : ValidatorCommittee) (h : BlockHeader) (sig : ValidatorSignature) : Prop :=
  Committee.is_committee_member c (validator sig) = true
  /\ (real_members c > 1 ->
      exists pk, Committee.get_signing_pubkey c (validator sig) = Some pk
        /\ Production.verify_block_signature h sig pk = Ok tt).

(** C3: a finalized block is certified.  Take any sequence of calls of a new engine after
    which it finalizes its pending block.  Some call of the sequence produced the block; the
    block carries signatures of pairwise distinct validators, at least as many as the
    finality threshold of the committee [c0] under which it was produced; and each was
    handed in after that and certifies the block for the committee in force at that moment.
    If no call changed the committee since, this is [c0] for every signature and still the
    committee of the engine.  The engine's tip is then this block. *)
Theorem finalized_block_certified id key score now os e' b :
  let e0 := new id key score now in
  finalize_pending_block (run e0 os) = (e', Ok b) ->
  exists os1 txs atts r pk t os2 c0,
    os = os1 ++ OpProduce txs atts r pk t :: os2
    /\ current_committee (run e0 os1) = Some c0
    /\ finality_threshold c0 <= Z.of_nat (length (validator_signatures b))
    /\ NoDup (validator <$> validator_signatures b)
    /\ Forall (fun sig => exists os3 os4 c, os2 = os3 ++ OpSign sig :: os4
         /\ current_committee (run e0 (os1 ++ OpProduce txs atts r pk t :: os3)) = Some c
         /\ certifies c (bl_header b) sig) (validator_signatures b)
    /\ (Forall (fun o => changes_committee o = false) os2 ->
         current_committee (run e0 os) = Some c0
         /\ Forall (certifies c0 (bl_header b)) (validator_signatures b))
    /\ current_height e' = height (bl_header b)
    /\ header_hash (bl_header b) = Ok (last_finalized_hash e')
    /\ pending_block e' = None.
Proof.
  intros e0 Hfin. unfold finalize_pending_block, finalize_pending_block_inner in Hfin.
  destruct (pending_block (run e0 os)) as [p|] eqn:Hp; [|done].
  unfold Production.finalize, Production.is_finalized in Hfin.
  case_bool_decide as Hn; simpl in Hfin; [|done].
  destruct (header_hash _) as [hash|err] eqn:Hh; simplify_eq/=.
  destruct (pending_collected e0 os p eq_refl Hp)
    as (os1 & os2 & c0 & txs & atts & r & pk & t & -> & Hc & _ & Ht & Hnd & Hf).
  assert (Forall (fun sig => exists os3 os4 c, os2 = os3 ++ OpSign sig :: os4
     /\ current_committee (run e0 (os1 ++ OpProduce txs atts r pk t :: os3)) = Some c
     /\ certifies c (bl_header (pb_block p)) sig) (signatures p)) as Hall.
  { eapply Forall_impl; [exact Hf|]. intros sig (os3 & os4 & c & ? & Hcc & Hchk%check_signer_ok).
    exists os3, os4, c. rewrite <-app_assoc in Hcc. done. }
  exists os1, txs, atts, r, pk, t, os2, c0. split_and!; try done; [by rewrite <-Ht; lia|].
  intros Hk. assert (forall l, Forall (fun o => changes_committee o = false) l ->
    current_committee (run e0 (os1 ++ OpProduce txs atts r pk t :: l)) = Some c0) as Hconst.
  { intros l Hl. unfold run in *. rewrite foldl_app. rewrite <-Hc. apply run_committee_kept. by constructor. }
  split; [by apply Hconst|]. eapply Forall_impl; [exact Hall|]. cbn.
  intros sig (os3 & os4 & c & -> & Hcc & Hcert). apply Forall_app in Hk as [Hk _].
  rewrite (Hconst os3 Hk) in Hcc. by injection Hcc as <-.
Qed.

(** ** Incoming blocks *)

Lemma check_signatures_ok c h l :
  check_signatures c h l = Ok tt ->
  Forall (fun sig => Committee.is_committee_member c (validator sig) = true
    /\ (real_members c > 1 ->
        exists pk, Committee.get_signing_pubkey c (validator sig) = Some pk
          /\ Production.verify_block_signature h sig pk = Ok tt)) l.
Proof.
  induction l as [|vs l IH]; simpl; [constructor|].
  destruct (Committee.is_committee_member _ _) eqn:Hm; simpl; [|done].
  destruct (Committee.get_signing_pubkey _ _) as [pk|] eqn:Hk.
  - destruct (Production.verify_block_signature _ _ _) as [[]|] eqn:Hv; [|done].
    intros Hl%IH. constructor; [|done]. split; [done|]. intros _. by exists pk.
  - case_decide; [done|]. intros ?%IH. constructor; [by split|done].
Qed.

Lemma check_transactions_ok i l :
  check_transactions i l = Ok tt ->
  Forall (fun tx => exists pb, encode_payload (payload tx) = Ok pb
    /\ verify_signature (sender_pubkey tx) (signable tx pb) (tx_signature tx) = Ok tt) l.
Proof.
  revert i. induction l as [|tx l IH]; intros i; simpl; [constructor|].
  destruct (check_transaction i tx) as [[]|] eqn:E; [|done]. intros Hl.
  constructor; [|by eapply IH]. unfold check_transaction in E.
  case_decide; [done|]. case_decide; [done|].
  destruct (encode_payload (payload tx)) as [pb|]; [|done].
  destruct (verify_signature _ _ _) as [[]|] eqn:Hv; [|done]. by exists pb.
Qed.

Lemma existsb_producer (f : CommitteeMember -> bool) c p :
  existsb (fun m => bool_decide (node_id m = p) && f m) (members c) = true ->
  Committee.is_committee_member c p = true.
Proof.
  unfold Committee.is_committee_member. rewrite !existsb_exists.
  intros (m & Hin & [? _]%andb_true_iff). by exists m.
Qed.

(** What an accepted block has passed.  If a block is accepted, it is the next one
    and extends the tip, or it is two ahead; its producer is a committee member; it
    has at least one signature and every signature is of a committee member (and
    valid, if more than one member has a key); every transaction is signed by its
    sender; and the tip becomes this block.  Whatever else the engine answers, its
    height, tip and pending block stay as they were. *)
Theorem accepted_block_checked e b e' r :
  process_incoming_block e b = (e', r) -> 0 <= current_height e < 2 ^ 64 - 1 ->
  match r with
  | Ok Accepted =>
      (height (bl_header b) = current_height e + 1
         /\ parent_hash (bl_header b) = last_finalized_hash e
       \/ height (bl_header b) = current_height e + 2)
      /\ (forall c, current_committee e = Some c ->
            Committee.is_committee_member c (producer (bl_header b)) = true
            /\ validator_signatures b <> []
            /\ Forall (fun sig => Committee.is_committee_member c (validator sig) = true
                 /\ (real_members c > 1 ->
                     exists pk, Committee.get_signing_pubkey c (validator sig) = Some pk
                       /\ Production.verify_block_signature (bl_header b) sig pk = Ok tt))
                 (validator_signatures b))
      /\ Forall (fun tx => exists pb, encode_payload (payload tx) = Ok pb
           /\ verify_signature (sender_pubkey tx) (signable tx pb) (tx_signature tx) = Ok tt)
           (transactions b)
      /\ current_height e' = height (bl_header b)
      /\ header_hash (bl_header b) = Ok (last_finalized_hash e')
  | _ =>
      current_height e' = current_height e /\ last_finalized_hash e' = last_finalized_hash e
      /\ pending_block e' = pending_block e
  end.
Proof.
  intros Hpr Hh. unfold process_incoming_block in Hpr.
  rewrite (wadd_small 64) in Hpr by (unfold in_range; lia).
  case_decide; [by simplify_eq|]. case_decide as Hgap; [by simplify_eq|].
  destruct (negb (bool_decide (height (bl_header b) > current_height e + 1))
            && bool_decide (parent_hash (bl_header b) <> last_finalized_hash e)) eqn:Hpar;
    [by simplify_eq|].
  destruct (header_hash (bl_header b)) as [hash|err] eqn:Hhash; [|by simplify_eq].
  destruct (other_block _ _); [by simplify_eq|].
  set (e1 := set_seen e _) in Hpr.
  destruct (validate_incoming e1 b _) as [[]|err] eqn:Hv; [|by simplify_eq].
  assert (e' = set_state (set_pending (set_chain e1 (height (bl_header b)) hash
            (Some (bh_timestamp (bl_header b))) (push_recent (recent_block_hashes e1) hash)) None) Active
          /\ r = Ok Accepted) as [-> ->].
  { simpl in Hpr. destruct (pending_block e) eqn:Hpend; simplify_eq; (split; [|done]); [done|].
    unfold set_state, set_pending, set_chain; simpl. by rewrite Hpend. }
  simpl. split_and!; try done.
  - apply andb_false_iff in Hpar. destruct Hpar as [Hf|Hf].
    + apply negb_false_iff, bool_decide_eq_true in Hf. right. lia.
    + apply bool_decide_eq_false, dec_stable in Hf.
      destruct (decide (height (bl_header b) = current_height e + 1)); [by left|right; lia].
  - intros c Hc. unfold validate_incoming in Hv. simpl in Hv. rewrite Hc in Hv.
    destruct (check_producer c b _) as [[]|] eqn:Hprod; [|done].
    case_decide as Hl; [done|]. destruct (check_signatures _ _ _) as [[]|] eqn:Hs; [|done].
    split_and!; [|by intros Hx; rewrite Hx in Hl|by apply check_signatures_ok].
    unfold check_producer in Hprod. case_bool_decide.
    + destruct (existsb _ _) eqn:Ex; [|done]. by apply existsb_producer in Ex.
    + destruct (existsb _ _) eqn:Ex; [|done]. done.
  - unfold validate_incoming in Hv. simpl in Hv. destruct (current_committee e).
    + destruct (check_producer _ _ _) as [[]|]; [|done]. case_decide; [done|].
      destruct (check_signatures _ _ _) as [[]|]; [|done]. by eapply check_transactions_ok.
    + by eapply check_transactions_ok.
Qed.

(** ** Fork choice *)

(** The fork choice converges.  Two nodes that hold the two blocks of a fork, with
    the same signature counts and different block hashes, choose the same block: one
    keeps its own exactly when the other switches, and both wait in the same cases. *)
Theorem fork_choice_converges b1 b2 s1 s2 threshold h1 h2 :
  header_hash (bl_header b1) = Ok h1 -> header_hash (bl_header b2) = Ok h2 -> h1 <> h2 ->
  (resolve_fork b1 b2 s1 s2 threshold = Ok KeepOurs
     <-> resolve_fork b2 b1 s2 s1 threshold = Ok SwitchToTheirs)
  /\ (resolve_fork b1 b2 s1 s2 threshold = Ok NeedMoreInfo
        <-> resolve_fork b2 b1 s2 s1 threshold = Ok NeedMoreInfo)
  /\ (exists choice, resolve_fork b1 b2 s1 s2 threshold = Ok choice).
Proof.
  intros E1 E2 Hne. unfold resolve_fork. rewrite E1, E2.
  assert (cmp_bytes h1 h2 <> Eq) as Hc by (by rewrite cmp_bytes_eq).
  pose proof (cmp_bytes_antisym h1 h2) as Ha.
  split_and!; repeat case_decide; try lia; try (by eexists); try done;
    destruct (cmp_bytes h1 h2); simpl in Ha; rewrite ?Ha; try done; by eexists.
Qed.

(** A failed finalization loses the pending block: the block is taken before its
    signatures are counted. *)
Lemma failed_finalize_loses_block e p :
  pending_block e = Some p -> Production.is_finalized p = false ->
  exists err, snd (finalize_pending_block e) = Err err
    /\ pending_block (fst (finalize_pending_block e)) = None.
Proof.
  intros Hp Hf. unfold finalize_pending_block, finalize_pending_block_inner. rewrite Hp.
  unfold Production.finalize. rewrite Hf. simpl. by eexists.
Qed.
End safety.

(** ** A concrete run

    Three validators with 32-byte keys; a signature is valid when it repeats the
    first byte of the key 64 times. *)
Module Sample.
#[local] Instance sample_float : FloatLib := reference_float.
#[local] Instance sample_hash : HashLib := reference_hash.
#[local] Instance sample_ristretto : RistrettoLib := Vrf.reference_ristretto.
#[local] Instance sample_bincode : Bincode := {|
  encode_header := fun h => Ok (height h :: parent_hash h ++ producer h ++ producer_pubkey h);
  encode_payload := fun _ => Ok [];
  encode_attestation := fun _ => Ok [];
  encode_block := fun _ => Ok []
|}.
#[local] Instance sample_sign : SignLib := {|
  VerifyingKey := list Z; SigningKey := Z;
  vk_from_bytes := Some; vk_to_bytes := fun k => k;
  vk_of := fun k => replicate 32 k;
  ed25519_sign := fun k _ => replicate 64 k;
  ed25519_verify := fun k _ s => bool_decide (s = replicate 64 (hd 0 k))
|}.

Definition validator_node (i : Z) : EligibleNode :=
  mkEligibleNode [i] (mkVrfPublicKey []) 70 true true 40 (replicate 32 i) [].
Definition sig (i : Z) : ValidatorSignature := mkValidatorSignature [i] (replicate 64 i).

Definition opening : list op :=
  [ OpInit (validator_node <$> [1; 2; 3]) [7] 0 0 0; OpForce; OpProduce [] [] [] [1] 0;
    OpSign (sig 1); OpSign (sig 2) ].

Definition e0 : ConsensusEngine := new [1] [5] 70 0.
Definition e1 : ConsensusEngine := foldl run_op e0 opening.

Definition no_block : Block := mkBlock (mkBlockHeader 0 0 [] [] [] [] [] [] 0 0 []) [] [] [].
Definition final : Block :=
  match snd (finalize_pending_block e1) with Ok b => b | Err _ => no_block end.

Lemma finalized_block_certified_witness :
  NoDup (validator <$> validator_signatures final)
  /\ Z.of_nat (length (validator_signatures final)) = 2 /\ height (bl_header final) = 1.
Proof.
  destruct (finalized_block_certified [1] [5] 70 0 opening (fst (finalize_pending_block e1)) final)
    as (? & ? & ? & ? & ? & ? & ? & ? & _ & _ & _ & Hnd & _).
  - vm_compute. reflexivity.
  - split; [exact Hnd|]. vm_compute. split; reflexivity.
Defined.

(** The committee is replaced while the block waits for its second signature: the block is
    finalized by a member of the old and a member of the new committee, each of them no
    member of the other. *)
Definition replaced : list op :=
  [ OpInit (validator_node <$> [1; 2; 3]) [7] 0 0 0; OpForce; OpProduce [] [] [] [1] 0;
    OpSign (sig 1); OpInit (validator_node <$> [4; 5; 6]) [7] 1 0 0; OpSign (sig 4) ].

Definition in_committee (e : ConsensusEngine) (i : Z) : bool :=
  match current_committee e with Some c => Committee.is_committee_member c [i] | None => false end.

Lemma committees_mix_signatures :
  let e := foldl run_op e0 replaced in
  (exists b, snd (finalize_pending_block e) = Ok b /\ validator <$> validator_signatures b = [[1]; [4]])
  /\ in_committee e 1 = false /\ in_committee (foldl run_op e0 (take 3 replaced)) 4 = false.
Proof. vm_compute. split_and!; [by eexists|done..]. Qed.

(** A block of validator 2 on top of the finalized one. *)
Definition e2 : ConsensusEngine := fst (finalize_pending_block e1).
Definition incoming : Block :=
  mkBlock (mkBlockHeader 2 0 (last_finalized_hash e2) [] [] [] [2] [] 0 0 []) [] [] [sig 2].

Lemma accepted_block_checked_witness :
  snd (process_incoming_block e2 incoming) = Ok Accepted
  /\ height (bl_header incoming) = current_height (fst (process_incoming_block e2 incoming)).
Proof.
  assert (process_incoming_block e2 incoming
          = (fst (process_incoming_block e2 incoming), Ok Accepted)) as Hp
    by (vm_compute; reflexivity).
  split; [vm_compute; reflexivity|].
  destruct (accepted_block_checked e2 incoming _ _ Hp) as (_ & _ & _ & Hh & _).
  - vm_compute. split; [discriminate|reflexivity].
  - symmetry. exact Hh.
Defined.

(** A competing block at the same height. *)
Definition rival : Block :=
  mkBlock (mkBlockHeader 2 0 (last_finalized_hash e2) [] [] [] [3] [] 0 0 []) [] [] [sig 3].

Definition hash_of (b : Block) : Hash :=
  match header_hash (bl_header b) with Ok h => h | Err _ => [] end.

Lemma fork_choice_converges_witness :
  resolve_fork incoming rival 2 2 2 = Ok KeepOurs
  <-> resolve_fork rival incoming 2 2 2 = Ok SwitchToTheirs.
Proof.
  apply (fork_choice_converges incoming rival 2 2 2 (hash_of incoming) (hash_of rival)).
  - vm_compute. reflexivity.
  - vm_compute. reflexivity.
  - vm_compute. discriminate.
Defined.
End Sample.

End EngineSafety.
