(* ===== verification/Streamlet.v ===== *)
(** * gratia-consensus: Streamlet

    [crates/gratia-consensus/src/streamlet.rs]: proposals, votes, notarization and
    finality of one node.  Heights and epochs are [u64], sizes [usize]; the plain
    operators wrap. *)

From stdpp Require Import base gmap strings list fin_maps.
From Stdlib Require Import ZArith Lia.
From S2P Require Import Prelude CoreTypes Blocks.
Local Open Scope Z_scope.

Record StreamletVote := mkStreamletVote {
  sv_epoch : Z;
  sv_block_hash : Hash;
  sv_height : Z;
  sv_signature : ValidatorSignature
}.

Record ProposedBlock := mkProposedBlock {
  header : BlockHeader;
  pb_block_hash : Hash;
  pb_epoch : Z;
  votes : list StreamletVote;
  notarized : bool;
  finalized : bool
}.

Record StreamletState := mkStreamlet {
  node_id : NodeId;
  committee_size : Z;
  proposed_blocks : gmap Hash ProposedBlock;
  blocks_by_height : gmap Z (list Hash);
  finalized_height : Z;
  finalized_hash : Hash;
  voted_epochs : gmap Z Hash;
  highest_notarized_height : Z;
  remote_votes : gmap (Z * NodeId) Hash
}.

Module Streamlet.

Definition voter (v : StreamletVote) : NodeId := validator (sv_signature v).

(** ** ProposedBlock *)

Definition new_block (h : BlockHeader) (hash : Hash) (epoch : Z) : ProposedBlock :=
  mkProposedBlock h hash epoch [] false false.

Definition set_block_votes (b : ProposedBlock) (vs : list StreamletVote) (n : bool)
  : ProposedBlock :=
  mkProposedBlock (header b) (pb_block_hash b) (pb_epoch b) vs n (finalized b).

(** [(committee_size * 2 + 2) / 3] *)
Definition vote_threshold (n : Z) : Z := wadd 64 (wmul 64 n 2) 2 / 3.

Definition block_add_vote (b : ProposedBlock) (v : StreamletVote) (n : Z)
  : ProposedBlock * bool :=
  if existsb (fun w => bool_decide (voter w = voter v)) (votes b) then (b, false)
  else
    let b := set_block_votes b (votes b ++ [v]) (notarized b) in
    let threshold := vote_threshold n in
    if negb (notarized b) && bool_decide (Z.of_nat (length (votes b)) >= threshold)
    then (set_block_votes b (votes b) true, true)
    else (b, false).

Definition vote_count (b : ProposedBlock) : Z := Z.of_nat (length (votes b)).

(** ** StreamletState *)

Definition new (id : NodeId) (n : Z) : StreamletState :=
  mkStreamlet id n ∅ ∅ 0 (replicate 32 0) ∅ 0 ∅.

Definition set_blocks (s : StreamletState) pb bh :=
  mkStreamlet (node_id s) (committee_size s) pb bh (finalized_height s) (finalized_hash s)
    (voted_epochs s) (highest_notarized_height s) (remote_votes s).
Definition set_finalized (s : StreamletState) fh hash :=
  mkStreamlet (node_id s) (committee_size s) (proposed_blocks s) (blocks_by_height s) fh hash
    (voted_epochs s) (highest_notarized_height s) (remote_votes s).
Definition set_votes (s : StreamletState) ve rv :=
  mkStreamlet (node_id s) (committee_size s) (proposed_blocks s) (blocks_by_height s)
    (finalized_height s) (finalized_hash s) ve (highest_notarized_height s) rv.
Definition set_highest (s : StreamletState) h :=
  mkStreamlet (node_id s) (committee_size s) (proposed_blocks s) (blocks_by_height s)
    (finalized_height s) (finalized_hash s) (voted_epochs s) h (remote_votes s).

Definition restore (s : StreamletState) (fh : Z) (hash : Hash) : StreamletState :=
  set_highest (set_finalized s fh hash) fh.

Definition add_proposal (s : StreamletState) (h : BlockHeader) (hash : Hash) (epoch : Z)
  : StreamletState * bool :=
  match proposed_blocks s !! hash with
  | Some _ => (s, false)
  | None =>
      (set_blocks s (<[hash := new_block h hash epoch]> (proposed_blocks s))
         (<[height h := default [] (blocks_by_height s !! height h) ++ [hash]]>
            (blocks_by_height s)), true)
  end.

Definition should_vote (s : StreamletState) (hash : Hash) (epoch : Z) : bool :=
  if decide (is_Some (voted_epochs s !! epoch)) then false
  else
    match proposed_blocks s !! hash with
    | None => false
    | Some proposed =>
        let h := height (header proposed) in
        if decide (h <= finalized_height s) then false
        else
          let expected := wadd 64 (highest_notarized_height s) 1 in
          if decide (h <> expected) then
            if decide (h <> wadd 64 (finalized_height s) 1) then false else true
          else true
    end.

Definition record_vote (s : StreamletState) (epoch : Z) (hash : Hash) : StreamletState :=
  set_votes s (<[epoch := hash]> (voted_epochs s)) (remote_votes s).

(** The first hash of [hashes] whose block is notarized. *)
Fixpoint first_notarized (s : StreamletState) (hashes : list Hash) : option Hash :=
  match hashes with
  | [] => None
  | hash :: hashes =>
      match proposed_blocks s !! hash with
      | Some proposed => if notarized proposed then Some hash else first_notarized s hashes
      | None => first_notarized s hashes
      end
  end.

Definition get_notarized_at (s : StreamletState) (h : Z) : option Hash :=
  match blocks_by_height s !! h with
  | Some hashes => first_notarized s hashes
  | None => None
  end.

(** One height of the pruning loop. *)
Definition remove_height (s : StreamletState) (h : Z) : StreamletState :=
  match blocks_by_height s !! h with
  | Some hashes =>
      set_blocks s (foldl (fun m hash => delete hash m) (proposed_blocks s) hashes)
        (delete h (blocks_by_height s))
  | None => s
  end.

(** The greatest key, 0 for an empty map. *)
Definition max_epoch (es : list Z) : Z := foldr Z.max 0 es.

Definition prune_below (s : StreamletState) (h : Z) : StreamletState :=
  let old_heights := filter (fun k => k < h) (map_to_list (blocks_by_height s)).*1 in
  let s := foldl remove_height s old_heights in
  let me := max_epoch (map_to_list (voted_epochs s)).*1 in
  let ve := filter (fun kv => ~ (wadd 64 kv.1 100 < me)) (voted_epochs s) in
  let re := max_epoch ((map_to_list (remote_votes s)).*1).*1 in
  let rv := filter (fun kv => wadd 64 kv.1.1 100 >= re) (remote_votes s) in
  set_votes s ve rv.

(** The loop [for h in start..=end] of [check_finality], [n] iterations from [h]. *)
Fixpoint finality_scan (n : nat) (h : Z) (s : StreamletState) : StreamletState * option Z :=
  match n with
  | O => (s, None)
  | S n =>
      match get_notarized_at s h, get_notarized_at s (wadd 64 h 1),
            get_notarized_at s (wadd 64 h 2) with
      | Some _, Some middle_hash, Some _ =>
          let new_finalized := wadd 64 h 1 in
          if decide (new_finalized > finalized_height s) then
            let s := set_finalized s new_finalized middle_hash in
            (prune_below s new_finalized, Some new_finalized)
          else finality_scan n (h + 1) s
      | _, _, _ => finality_scan n (h + 1) s
      end
  end.

Definition check_finality (s : StreamletState) : StreamletState * option Z :=
  let start := wadd 64 (finalized_height s) 1 in
  let last := saturating_sub (highest_notarized_height s) 1 in
  finality_scan (Z.to_nat (last - start + 1)) start s.

Definition put_block (s : StreamletState) (hash : Hash) (b : ProposedBlock) : StreamletState :=
  set_blocks s (<[hash := b]> (proposed_blocks s)) (blocks_by_height s).

(** The equivocation check: the validator voted for another block in this epoch. *)
Definition equivocates (s : StreamletState) (v : StreamletVote) : bool :=
  match remote_votes s !! (sv_epoch v, voter v) with
  | Some existing => bool_decide (existing <> sv_block_hash v)
  | None => false
  end.

Definition add_vote (s : StreamletState) (v : StreamletVote)
  : StreamletState * (bool * option Z) :=
  let hash := sv_block_hash v in
  let key := (sv_epoch v, voter v) in
  if equivocates s v then (s, (false, None))
  else
    let s := set_votes s (voted_epochs s) (<[key := hash]> (remote_votes s)) in
    match proposed_blocks s !! hash with
    | None => (s, (false, None))
    | Some proposed =>
        let '(b, just_notarized) := block_add_vote proposed v (committee_size s) in
        let s := put_block s hash b in
        if just_notarized then
          let h := height (header b) in
          let s := if decide (h > highest_notarized_height s) then set_highest s h else s in
          let '(s, fin) := check_finality s in
          (s, (true, fin))
        else (s, (false, None))
    end.

Definition next_proposal_height (s : StreamletState) : Z :=
  wadd 64 (Z.max (highest_notarized_height s) (finalized_height s)) 1.

Definition next_proposal_parent (s : StreamletState) : Hash :=
  match get_notarized_at s (highest_notarized_height s) with
  | Some hash => hash
  | None => finalized_hash s
  end.

Definition clear_pending (s : StreamletState) : StreamletState :=
  let s := prune_below s (wadd 64 (finalized_height s) 1) in
  let s := set_votes s ∅ ∅ in
  set_highest s (finalized_height s).

Definition stats (s : StreamletState) : Z * Z * Z :=
  (Z.of_nat (size (proposed_blocks s)), highest_notarized_height s, finalized_height s).

(** ** Invariants *)

(** The two indexes describe the same blocks. *)
Definition index_ok (s : StreamletState) : Prop :=
  (forall hash b, proposed_blocks s !! hash = Some b ->
     pb_block_hash b = hash /\ hash ∈ default [] (blocks_by_height s !! height (header b)))
  /\ (forall h hash, hash ∈ default [] (blocks_by_height s !! h) ->
        exists b, proposed_blocks s !! hash = Some b /\ height (header b) = h).

(** The votes of a block are for it, satisfy [P] and have distinct voters, and it is
    notarized exactly when they are enough. *)
Definition block_ok (P : StreamletVote -> Prop) (n : Z) (hash : Hash) (b : ProposedBlock) : Prop :=
  NoDup (voter <$> votes b)
  /\ Forall (fun v => sv_block_hash v = hash /\ P v) (votes b)
  /\ (notarized b = true <-> votes b <> [] /\ vote_threshold n <= Z.of_nat (length (votes b))).

Definition streamlet_inv (P : StreamletVote -> Prop) (s : StreamletState) : Prop :=
  index_ok s /\ map_Forall (block_ok P (committee_size s)) (proposed_blocks s).

Lemma streamlet_new_inv P id n : streamlet_inv P (new id n).
Proof.
  split; [split|apply map_Forall_empty]; simpl.
  - intros hash b. by rewrite lookup_empty.
  - intros h hash. rewrite lookup_empty; simpl. intros Hx. by apply elem_of_nil in Hx.
Qed.

(** [set_votes], [set_highest] and [set_finalized] leave the blocks alone. *)
Lemma inv_ext P s s' :
  proposed_blocks s' = proposed_blocks s -> blocks_by_height s' = blocks_by_height s ->
  committee_size s' = committee_size s -> streamlet_inv P s -> streamlet_inv P s'.
Proof. unfold streamlet_inv, index_ok. by intros -> -> ->. Qed.

Lemma existsb_voter vs (x : NodeId) :
  existsb (fun w => bool_decide (voter w = x)) vs = false <-> x ∉ voter <$> vs.
Proof.
  induction vs as [|w vs IH]; simpl; [split; [intros _; apply not_elem_of_nil|done]|].
  rewrite orb_false_iff, bool_decide_eq_false, IH, not_elem_of_cons. naive_solver.
Qed.

(** What a vote does to its block. *)
Lemma block_add_vote_cases b v n b' j :
  block_add_vote b v n = (b', j) ->
  (b' = b /\ j = false /\ voter v ∈ voter <$> votes b)
  \/ (voter v ∉ voter <$> votes b
      /\ b' = set_block_votes b (votes b ++ [v]) (notarized b || j)
      /\ (j = true <-> notarized b = false
                       /\ vote_threshold n <= Z.of_nat (length (votes b)) + 1)).
Proof.
  unfold block_add_vote. destruct (existsb _ _) eqn:E.
  - intros [= <- <-]. left. split_and!; try done. apply dec_stable. intros Hx.
    apply existsb_voter in Hx. congruence.
  - apply existsb_voter in E. simpl. rewrite length_app; simpl.
    destruct (notarized b) eqn:Hn; simpl; [intros [= <- <-]|case_bool_decide; intros [= <- <-]];
      right; split_and!; try done; lia.
Qed.

Lemma block_add_vote_ok P n hash b v b' j :
  block_ok P n hash b -> sv_block_hash v = hash -> P v ->
  block_add_vote b v n = (b', j) -> block_ok P n hash b'.
Proof.
  intros (Hnd & Hf & Hn) Hh Hc [(-> & _)|(Hnew & -> & Hj)]%block_add_vote_cases; [done|].
  split_and!; simpl.
  - rewrite fmap_app. apply NoDup_app. split_and!; [done| |apply NoDup_singleton].
    intros x Hx ->%list_elem_of_singleton. done.
  - apply Forall_app. split; [done|]. by constructor.
  - rewrite length_app; simpl. rewrite orb_true_iff, Hj, Hn.
    destruct (notarized b) eqn:E; [|split; intros Hx; [split; [by destruct (votes b)|]|]; intuition lia].
    destruct (proj1 Hn eq_refl). split; [intros _; split; [by destruct (votes b)|lia]|auto].
Qed.

Lemma add_proposal_inv P s h hash epoch :
  streamlet_inv P s -> streamlet_inv P (fst (add_proposal s h hash epoch)).
Proof.
  intros [[H1 H2] Hb]. unfold add_proposal.
  destruct (proposed_blocks s !! hash) as [b0|] eqn:E; [by split|]. simpl.
  split; [split|]; simpl.
  - intros i b. rewrite lookup_insert_Some. intros [[<- <-]|[Hne Hi]]; simpl.
    + rewrite lookup_insert_eq; simpl. split; [done|]. apply elem_of_app. right.
      by apply list_elem_of_singleton.
    + destruct (H1 i b Hi) as [? Hin]. split; [done|].
      destruct (decide (height (header b) = height h)) as [Heq|].
      * rewrite Heq in *. rewrite lookup_insert_eq; simpl. apply elem_of_app. by left.
      * by rewrite lookup_insert_ne by done.
  - intros k i Hi. destruct (decide (k = height h)) as [->|].
    + rewrite lookup_insert_eq in Hi; simpl in Hi.
      apply elem_of_app in Hi as [Hi|Hi]; [|apply list_elem_of_singleton in Hi; subst i].
      * destruct (H2 _ _ Hi) as (b & Hb0 & ?). exists b. split; [|done].
        rewrite lookup_insert_ne; [done|]. intros ->. congruence.
      * eexists. by rewrite lookup_insert_eq.
    + rewrite lookup_insert_ne in Hi by done. destruct (H2 _ _ Hi) as (b & Hb0 & ?).
      exists b. split; [|done]. rewrite lookup_insert_ne; [done|]. intros ->. congruence.
  - apply map_Forall_insert_2; [|done]. split_and!; simpl; [constructor..|].
    split; [done|]. by intros [? _].
Qed.

Lemma put_block_index s hash b b' :
  index_ok s -> proposed_blocks s !! hash = Some b ->
  header b' = header b -> pb_block_hash b' = pb_block_hash b -> index_ok (put_block s hash b').
Proof.
  intros [H1 H2] Hl Hh Hp. split; simpl.
  - intros i x. rewrite lookup_insert_Some. intros [[<- <-]|[Hne Hi]]; [|by apply H1].
    rewrite Hh, Hp. by apply H1.
  - intros k i (x & Hx & <-)%H2. destruct (decide (i = hash)) as [->|].
    + exists b'. rewrite lookup_insert_eq. simplify_eq. by rewrite Hh.
    + exists x. by rewrite lookup_insert_ne by done.
Qed.

Lemma put_block_inv P s hash b b' :
  streamlet_inv P s -> proposed_blocks s !! hash = Some b ->
  header b' = header b -> pb_block_hash b' = pb_block_hash b ->
  block_ok P (committee_size s) hash b' -> streamlet_inv P (put_block s hash b').
Proof.
  intros [Hix Hb] Hl Hh Hp Hok. split; [by apply (put_block_index s hash b)|].
  by apply map_Forall_insert_2.
Qed.

(** ** Pruning *)

Lemma remove_hashes (m : gmap Hash ProposedBlock) hashes i :
  foldl (fun m hash => delete hash m) m hashes !! i
  = if decide (i ∈ hashes) then None else m !! i.
Proof.
  revert m. induction hashes as [|x l IH]; intros m.
  - by rewrite decide_False by apply not_elem_of_nil.
  - cbn [foldl]. rewrite IH. destruct (decide (i ∈ l)) as [Hl|Hl].
    + by rewrite decide_True by (by right).
    + destruct (decide (i = x)) as [->|Hne].
      * rewrite lookup_delete_eq. by rewrite decide_True by left.
      * rewrite lookup_delete_ne by done. rewrite decide_False; [done|].
        by intros [?|?]%elem_of_cons.
Qed.

Lemma remove_height_spec s k :
  index_ok s ->
  proposed_blocks (remove_height s k)
    = filter (fun kv => height (header kv.2) <> k) (proposed_blocks s)
  /\ blocks_by_height (remove_height s k) = delete k (blocks_by_height s).
Proof.
  intros [H1 H2]. unfold remove_height.
  destruct (blocks_by_height s !! k) as [hashes|] eqn:E; simpl; split; try done.
  - apply map_eq. intros i. rewrite remove_hashes.
    destruct (proposed_blocks s !! i) as [b|] eqn:Hi.
    + destruct (decide (height (header b) = k)) as [Hk|Hk].
      * rewrite (proj2 (map_lookup_filter_None _ _ i)); [|right; intros x Hx; simplify_eq; simpl; auto].
        destruct (H1 i b Hi) as [_ Hin]. rewrite Hk, E in Hin. by rewrite decide_True.
      * rewrite (proj2 (map_lookup_filter_Some _ _ i b)) by done.
        rewrite decide_False; [done|]. intros Hin. destruct (H2 k i) as (b' & ? & ?);
          [by rewrite E|congruence].
    + rewrite (proj2 (map_lookup_filter_None _ _ i)) by (by left). by case_decide.
  - symmetry. apply map_filter_id. intros i b Hi; simpl. intros Hk.
    destruct (H1 i b Hi) as [_ Hin]. rewrite Hk, E in Hin. by apply elem_of_nil in Hin.
  - by rewrite delete_id.
Qed.

Lemma remove_height_index s k : index_ok s -> index_ok (remove_height s k).
Proof.
  intros Hix. destruct (remove_height_spec s k Hix) as [Hp Hb]. destruct Hix as [H1 H2].
  unfold index_ok. rewrite Hp, Hb. split.
  - intros i b [Hi Hk]%map_lookup_filter_Some. simpl in Hk. destruct (H1 i b Hi).
    by rewrite lookup_delete_ne by congruence.
  - intros h i Hi. destruct (decide (h = k)) as [->|Hne].
    + rewrite lookup_delete_eq in Hi. by apply elem_of_nil in Hi.
    + rewrite lookup_delete_ne in Hi by done. destruct (H2 h i Hi) as (b & ? & ?).
      exists b. split; [|done]. apply map_lookup_filter_Some. split; simpl; congruence.
Qed.

(** The parts of the state a pruning loop does not touch. *)
Definition same_frame (s s' : StreamletState) : Prop :=
  committee_size s' = committee_size s /\ finalized_height s' = finalized_height s
  /\ finalized_hash s' = finalized_hash s /\ voted_epochs s' = voted_epochs s
  /\ highest_notarized_height s' = highest_notarized_height s
  /\ remote_votes s' = remote_votes s.

Lemma remove_heights_spec ks s :
  index_ok s ->
  let s' := foldl remove_height s ks in
  index_ok s' /\ same_frame s s'
  /\ proposed_blocks s' = filter (fun kv => height (header kv.2) ∉ ks) (proposed_blocks s)
  /\ blocks_by_height s' = filter (fun kv => kv.1 ∉ ks) (blocks_by_height s).
Proof.
  revert s. induction ks as [|k ks IH]; intros s Hix; cbn [foldl].
  - split_and!; try done; symmetry; apply map_filter_id; intros; apply not_elem_of_nil.
  - destruct (IH (remove_height s k) (remove_height_index s k Hix)) as (Hi & Hf & Hp & Hb).
    destruct (remove_height_spec s k Hix) as [Hp1 Hb1]. split_and!; [done| | |].
    + unfold same_frame in *. destruct Hf as (-> & -> & -> & -> & -> & ->).
      unfold remove_height. by destruct (blocks_by_height s !! k).
    + rewrite Hp, Hp1, map_filter_filter. apply map_filter_ext.
      intros i b _; simpl. rewrite not_elem_of_cons. naive_solver.
    + rewrite Hb, Hb1. apply map_eq. intros i. apply option_eq. intros x.
      rewrite !map_lookup_filter_Some, lookup_delete_Some, not_elem_of_cons. naive_solver.
Qed.

Lemma prune_below_spec s h :
  index_ok s ->
  let s' := prune_below s h in
  index_ok s'
  /\ proposed_blocks s' = filter (fun kv => h <= height (header kv.2)) (proposed_blocks s)
  /\ blocks_by_height s' = filter (fun kv => h <= kv.1) (blocks_by_height s)
  /\ committee_size s' = committee_size s /\ finalized_height s' = finalized_height s
  /\ finalized_hash s' = finalized_hash s
  /\ highest_notarized_height s' = highest_notarized_height s
  /\ remote_votes s'
     = filter (fun kv => wadd 64 kv.1.1 100 >= max_epoch ((map_to_list (remote_votes s)).*1).*1)
         (remote_votes s).
Proof.
  intros Hix. unfold prune_below.
  set (ks := filter (fun k => k < h) (map_to_list (blocks_by_height s)).*1).
  destruct (remove_heights_spec ks s Hix) as (Hi & Hf & Hp & Hb).
  unfold same_frame in Hf. destruct Hf as (H1 & H2 & H3 & H4 & H5 & H6).
  set (s1 := foldl remove_height s ks) in *.
  assert (forall k l, blocks_by_height s !! k = Some l -> k ∉ ks <-> h <= k) as Hks.
  { intros k l Hk. unfold ks. rewrite list_elem_of_filter. split.
    - intros Hn. destruct (decide (h <= k)); [done|]. destruct Hn. split; [lia|].
      apply list_elem_of_fmap. exists (k, l). split; [done|]. by apply elem_of_map_to_list.
    - intros ? [? _]. lia. }
  cbn [proposed_blocks blocks_by_height committee_size finalized_height finalized_hash
       highest_notarized_height remote_votes set_votes].
  split_and!; try done.
  - rewrite Hp. apply map_filter_ext. intros i b Hb0; simpl.
    destruct Hix as [Hx _]. destruct (Hx i b Hb0) as [_ Hin].
    destruct (blocks_by_height s !! height (header b)) as [l|] eqn:E.
    + by eapply Hks.
    + by apply elem_of_nil in Hin.
  - rewrite Hb. apply map_filter_ext. intros k l Hk; simpl. by eapply Hks.
  - by rewrite H6.
Qed.

Lemma prune_below_inv P s h : streamlet_inv P s -> streamlet_inv P (prune_below s h).
Proof.
  intros [Hix Hb]. destruct (prune_below_spec s h Hix) as (Hi & Hp & _ & Hc & _).
  split; [done|]. rewrite Hc, Hp.
  intros i b [Hi0 _]%map_lookup_filter_Some. by apply Hb.
Qed.

(** ** Finality *)

(** A notarized block at height [h]. *)
Definition notarized_at (s : StreamletState) (h : Z) (hash : Hash) : Prop :=
  exists b, proposed_blocks s !! hash = Some b /\ height (header b) = h /\ notarized b = true.

Lemma first_notarized_Some s l hash :
  first_notarized s l = Some hash ->
  hash ∈ l /\ exists b, proposed_blocks s !! hash = Some b /\ notarized b = true.
Proof.
  induction l as [|x l IH]; simpl; [done|].
  destruct (proposed_blocks s !! x) as [b|] eqn:E; [destruct (notarized b) eqn:N|].
  - intros [= <-]. split; [by left|]. by exists b.
  - intros [? ?]%IH. split; [by right|done].
  - intros [? ?]%IH. split; [by right|done].
Qed.

Lemma first_notarized_None s l hash b :
  first_notarized s l = None -> hash ∈ l -> proposed_blocks s !! hash = Some b ->
  notarized b = false.
Proof.
  induction l as [|x l IH]; simpl; intros Hf Hin Hb; [by apply elem_of_nil in Hin|].
  apply elem_of_cons in Hin as [<-|Hin].
  - rewrite Hb in Hf. by destruct (notarized b).
  - destruct (proposed_blocks s !! x) as [b'|]; [destruct (notarized b')|]; auto; done.
Qed.

Lemma get_notarized_Some s h hash :
  index_ok s -> get_notarized_at s h = Some hash -> notarized_at s h hash.
Proof.
  intros [_ H2]. unfold get_notarized_at.
  destruct (blocks_by_height s !! h) as [l|] eqn:E; [|done].
  intros (Hin & b & Hb & Hn)%first_notarized_Some.
  destruct (H2 h hash) as (b' & Hb' & Hh); [by rewrite E|]. simplify_eq. by exists b.
Qed.

Lemma get_notarized_None s h hash :
  index_ok s -> get_notarized_at s h = None -> ~ notarized_at s h hash.
Proof.
  intros [H1 _] Hg (b & Hb & Hh & Hn). destruct (H1 hash b Hb) as [_ Hin]. rewrite Hh in Hin.
  unfold get_notarized_at in Hg. destruct (blocks_by_height s !! h) as [l|].
  - rewrite (first_notarized_None s l hash b) in Hn; done.
  - by apply elem_of_nil in Hin.
Qed.

(** Notarized blocks at three consecutive heights. *)
Definition consecutive (s : StreamletState) (h : Z) : Prop :=
  exists a b c, notarized_at s h a /\ notarized_at s (h + 1) b /\ notarized_at s (h + 2) c.

(** The loop returns the first height with three consecutive notarized blocks. *)
Lemma finality_scan_spec n h s :
  index_ok s -> finalized_height s < h -> 0 <= h -> h + Z.of_nat n + 2 <= 2 ^ 64 ->
  match finality_scan n h s with
  | (s', Some f) =>
      exists k mid, h <= k < h + Z.of_nat n /\ f = k + 1 /\ consecutive s k
        /\ notarized_at s f mid
        /\ (forall j, h <= j < k -> ~ consecutive s j)
        /\ s' = prune_below (set_finalized s f mid) f
  | (s', None) => s' = s /\ forall j, h <= j < h + Z.of_nat n -> ~ consecutive s j
  end.
Proof.
  intros Hix. revert h. induction n as [|n IH]; intros h Hlt H0 Hmax; cbn [finality_scan].
  - split; [done|]. intros. lia.
  - rewrite !wadd_small by (unfold in_range; lia).
    assert (~ consecutive s h -> match finality_scan n (h + 1) s with
      | (s', Some f) =>
          exists k mid, h <= k < h + Z.of_nat (S n) /\ f = k + 1 /\ consecutive s k
            /\ notarized_at s f mid
            /\ (forall j, h <= j < k -> ~ consecutive s j)
            /\ s' = prune_below (set_finalized s f mid) f
      | (s', None) => s' = s /\ forall j, h <= j < h + Z.of_nat (S n) -> ~ consecutive s j
      end) as Hskip.
    { intros Hno. specialize (IH (h + 1)). 
      destruct (finality_scan n (h + 1) s) as [s' [f|]].
      - destruct IH as (k & mid & ? & ? & ? & ? & Hfirst & ?); [lia..|].
        exists k, mid. split_and!; try done; [lia..|]. intros j ?.
        destruct (decide (j = h)) as [->|]; [done|]. apply Hfirst. lia.
      - destruct IH as (? & Hall); [lia..|]. split; [done|]. intros j ?.
        destruct (decide (j = h)) as [->|]; [done|]. apply Hall. lia. }
    destruct (get_notarized_at s h) as [a|] eqn:Ea;
      [destruct (get_notarized_at s (h + 1)) as [b|] eqn:Eb;
        [destruct (get_notarized_at s (h + 2)) as [c|] eqn:Ec|]|].
    + rewrite decide_True by lia. exists h, b.
      pose proof (get_notarized_Some _ _ _ Hix Ea). pose proof (get_notarized_Some _ _ _ Hix Eb).
      pose proof (get_notarized_Some _ _ _ Hix Ec).
      split_and!; try done; [lia..|by exists a, b, c|]. intros. lia.
    + apply Hskip. intros (? & ? & c & _ & _ & Hc). by eapply get_notarized_None.
    + apply Hskip. intros (? & b & ? & _ & Hb & _). by eapply get_notarized_None.
    + apply Hskip. intros (a & ? & ? & Ha & _ & _). by eapply get_notarized_None.
Qed.

Lemma finality_scan_inv P n h s :
  streamlet_inv P s -> streamlet_inv P (fst (finality_scan n h s)).
Proof.
  intros Hs. revert h. induction n as [|n IH]; intros h; simpl; [done|].
  destruct (get_notarized_at s h), (get_notarized_at s (wadd 64 h 1)) as [mid|],
    (get_notarized_at s (wadd 64 h 2)); try apply IH.
  case_decide; [|apply IH]. simpl. apply prune_below_inv. by apply (inv_ext P s).
Qed.

(** ** The operations keep the invariant *)

Lemma add_vote_inv P s v :
  P v -> streamlet_inv P s -> streamlet_inv P (fst (add_vote s v)).
Proof.
  intros Hc Hs. unfold add_vote. destruct (equivocates s v); [done|].
  set (s1 := set_votes s _ _). assert (streamlet_inv P s1) as Hs1 by (by apply (inv_ext P s)).
  destruct (proposed_blocks s1 !! sv_block_hash v) as [b|] eqn:Hb; [|done].
  destruct (block_add_vote b v (committee_size s1)) as [b' j] eqn:Ev.
  assert (streamlet_inv P (put_block s1 (sv_block_hash v) b')) as Hs2.
  { apply (put_block_inv P s1 _ b); try done.
    - apply block_add_vote_cases in Ev as [(-> & _)|(_ & -> & _)]; done.
    - apply block_add_vote_cases in Ev as [(-> & _)|(_ & -> & _)]; done.
    - eapply block_add_vote_ok; [|done..|done]. by apply Hs1. }
  destruct j; [|done].
  destruct (check_finality _) as [s3 fin] eqn:Ef. simpl.
  replace s3 with (fst (s3, fin)) by done. rewrite <-Ef. unfold check_finality.
  apply finality_scan_inv. by case_decide; [apply (inv_ext P (put_block s1 (sv_block_hash v) b'))|].
Qed.

Lemma clear_pending_inv P s : streamlet_inv P s -> streamlet_inv P (clear_pending s).
Proof.
  intros Hs. apply (inv_ext P (prune_below s (wadd 64 (finalized_height s) 1))); try done.
  by apply prune_below_inv.
Qed.

End Streamlet.
