(* ===== verification/StreamletSafety.v ===== *)
(** * gratia-consensus: safety of Streamlet

    Runs of a node's Streamlet state over its public operations: notarization is
    sound, two quorums intersect in a third of the committee, at most one block per
    epoch is notarized inside the equivocation window, and the finality rule. *)

From stdpp Require Import base gmap strings list fin_maps.
From Stdlib Require Import ZArith Lia.
From S2P Require Import Prelude CoreTypes Blocks Streamlet.
Local Open Scope Z_scope.

Module StreamletSafety.
Import Streamlet.
#[local] Arguments prune_below : simpl never.

(** ** Runs *)

Inductive op :=
| OpPropose (h : BlockHeader) (hash : Hash) (epoch : Z)
| OpRecord (epoch : Z) (hash : Hash)
| OpVote (v : StreamletVote)
| OpRestore (fh : Z) (hash : Hash)
| OpClear.

Definition run_op (s : StreamletState) (o : op) : StreamletState :=
  match o with
  | OpPropose h hash e => fst (add_proposal s h hash e)
  | OpRecord e hash => record_vote s e hash
  | OpVote v => fst (add_vote s v)
  | OpRestore fh hash => restore s fh hash
  | OpClear => clear_pending s
  end.

Definition run (s : StreamletState) (os : list op) : StreamletState := foldl run_op s os.

(** Every vote handed to the state satisfies [P]. *)
Definition votes_sat (P : StreamletVote -> Prop) (o : op) : Prop :=
  match o with OpVote v => P v | _ => True end.

(** The votes handed to the state come from members of the committee [C]. *)
Definition member (C : gset NodeId) (v : StreamletVote) : Prop := voter v ∈ C.
Definition op_ok (C : gset NodeId) (o : op) : Prop := votes_sat (member C) o.

#[export] Instance op_ok_dec C o : Decision (op_ok C o).
Proof. destruct o; unfold op_ok, member; simpl; apply _. Defined.

Lemma run_inv P s os :
  Forall (votes_sat P) os -> streamlet_inv P s -> streamlet_inv P (run s os).
Proof.
  revert s. induction os as [|o os IH]; intros s Hok Hs; simpl; [done|].
  apply Forall_cons in Hok as [Ho Hok]. apply IH; [done|]. destruct o; simpl in *.
  - by apply add_proposal_inv.
  - by apply (inv_ext P s).
  - by apply add_vote_inv.
  - by apply (inv_ext P s).
  - by apply clear_pending_inv.
Qed.

Lemma prune_frame s h :
  committee_size (prune_below s h) = committee_size s
  /\ finalized_height (prune_below s h) = finalized_height s.
Proof.
  unfold prune_below. set (ks := filter _ _). clearbody ks. simpl.
  revert s. induction ks as [|k ks IH]; intros s; simpl; [done|].
  destruct (IH (remove_height s k)) as [-> ->].
  unfold remove_height. by destruct (blocks_by_height s !! k).
Qed.

Lemma prune_size s h : committee_size (prune_below s h) = committee_size s.
Proof. apply prune_frame. Qed.

Lemma scan_size n h s : committee_size (fst (finality_scan n h s)) = committee_size s.
Proof.
  revert h. induction n as [|n IH]; intros h; simpl; [done|].
  destruct (get_notarized_at s h), (get_notarized_at s (wadd 64 h 1)) as [mid|],
    (get_notarized_at s (wadd 64 h 2)); try apply IH.
  case_decide; [|apply IH]. cbn [fst]. by rewrite prune_size.
Qed.

(** ** Quorums *)

Lemma vote_threshold_exact n : 0 <= n < 2 ^ 62 -> vote_threshold n = (2 * n + 2) / 3.
Proof.
  intros Hn. unfold vote_threshold, wadd, wmul. rewrite (wrap_small 64 (n * 2)) by (unfold in_range; lia).
  rewrite wrap_small by (unfold in_range; lia). f_equal. lia.
Qed.

(** Two sets of at least ceil(2n/3) of [n] nodes share at least a third of them. *)
Lemma quorum_intersection (C A B : gset NodeId) n :
  Z.of_nat (size C) <= n -> A ⊆ C -> B ⊆ C ->
  (2 * n + 2) / 3 <= Z.of_nat (size A) -> (2 * n + 2) / 3 <= Z.of_nat (size B) ->
  n <= 3 * Z.of_nat (size (A ∩ B)).
Proof.
  intros Hc Ha Hb Hna Hnb. pose proof (quorums_intersect C A B n _ Hc Ha Hb Hna Hnb).
  pose proof (Z.div_mod (2 * n + 2) 3). pose proof (Z.mod_pos_bound (2 * n + 2) 3). lia.
Qed.

Definition voters (b : ProposedBlock) : gset NodeId := list_to_set (voter <$> votes b).

Lemma voters_count P n hash b :
  block_ok P n hash b -> Z.of_nat (size (voters b)) = Z.of_nat (length (votes b)).
Proof. intros (Hnd & _). unfold voters. by rewrite size_list_to_set, length_fmap. Qed.

Lemma voters_size C n hash b :
  block_ok (member C) n hash b ->
  Z.of_nat (size (voters b)) = Z.of_nat (length (votes b)) /\ voters b ⊆ C.
Proof.
  intros Hb. split; [by eapply voters_count|]. destruct Hb as (_ & Hf & _). unfold voters.
  - intros x. rewrite elem_of_list_to_set, list_elem_of_fmap. intros (v & -> & Hv).
    rewrite Forall_forall in Hf. by apply Hf.
Qed.

Lemma run_size s os : committee_size (run s os) = committee_size s.
Proof.
  revert s. induction os as [|o os IH]; intros s; simpl; [done|]. rewrite IH. clear IH.
  destruct o as [h hash e|e hash|v|fh hash|]; simpl; try done.
  - unfold add_proposal. by destruct (proposed_blocks s !! hash).
  - unfold add_vote. destruct (equivocates s v); [done|]. simpl.
    destruct (proposed_blocks s !! sv_block_hash v) as [b|]; [|done].
    destruct (block_add_vote b v (committee_size s)) as [b' []]; [|done].
    destruct (check_finality _) as [s3 fin] eqn:Ef. simpl.
    replace s3 with (fst (s3, fin)) by done. rewrite <-Ef. unfold check_finality.
    rewrite scan_size. by case_decide.
  - apply (prune_size s).
Qed.

(** ** The equivocation window *)

(** The greatest epoch a vote was recorded for. *)
Definition last_epoch (s : StreamletState) : Z :=
  max_epoch ((map_to_list (remote_votes s)).*1).*1.

Lemma max_epoch_le es e : e ∈ es -> e <= max_epoch es.
Proof.
  induction es as [|x es IH]; intros He; [by apply elem_of_nil in He|].
  apply elem_of_cons in He as [->|He%IH]; simpl; lia.
Qed.

Lemma max_epoch_in es : max_epoch es = 0 \/ max_epoch es ∈ es.
Proof.
  induction es as [|x es [IH|IH]]; simpl; [by left| |].
  - rewrite IH. destruct (Z.max_spec x 0) as [[? ->]|[? ->]]; [by left|right; left].
  - right. destruct (Z.max_spec x (max_epoch es)) as [[? ->]|[? ->]]; [by right|left].
Qed.

Lemma epoch_elem (m : gmap (Z * NodeId) Hash) e :
  e ∈ ((map_to_list m).*1).*1 <-> exists x h, m !! (e, x) = Some h.
Proof.
  rewrite list_elem_of_fmap. split.
  - intros ([e' x] & -> & Hk). apply list_elem_of_fmap in Hk as ([k h] & Heq & Hk).
    simpl in Heq. subst. apply elem_of_map_to_list in Hk. by exists x, h.
  - intros (x & h & Hk). exists (e, x). split; [done|]. apply list_elem_of_fmap.
    exists ((e, x), h). split; [done|]. by apply elem_of_map_to_list.
Qed.

(** Epochs far from the end of their range. *)
Definition epochs_ok (s : StreamletState) : Prop :=
  forall e x h, remote_votes s !! (e, x) = Some h -> 0 <= e < 2 ^ 64 - 100.

(** Every vote of the last hundred epochs is on record. *)
Definition window_inv (s : StreamletState) : Prop :=
  epochs_ok s
  /\ forall hash b v, proposed_blocks s !! hash = Some b -> v ∈ votes b ->
       0 <= sv_epoch v < 2 ^ 64 - 100
       /\ (last_epoch s <= sv_epoch v + 100 ->
           remote_votes s !! (sv_epoch v, voter v) = Some hash).

Lemma window_ext s s' :
  proposed_blocks s' = proposed_blocks s -> remote_votes s' = remote_votes s ->
  window_inv s -> window_inv s'.
Proof. unfold window_inv, epochs_ok, last_epoch. by intros -> ->. Qed.

Lemma last_epoch_insert s s' e x h :
  remote_votes s' = <[(e, x) := h]> (remote_votes s) -> last_epoch s <= last_epoch s'.
Proof.
  intros Hr. unfold last_epoch.
  destruct (max_epoch_in ((map_to_list (remote_votes s)).*1).*1) as [->|Hin].
  - unfold max_epoch. induction (((map_to_list (remote_votes s')).*1).*1); simpl; lia.
  - apply max_epoch_le. apply epoch_elem in Hin as (y & h' & Hy). apply epoch_elem.
    rewrite Hr. destruct (decide ((e, x) = (max_epoch ((map_to_list (remote_votes s)).*1).*1, y)))
      as [[= -> ->]|Hne].
    + exists y, h. by rewrite lookup_insert_eq.
    + exists y, h'. by rewrite lookup_insert_ne.
Qed.

Lemma prune_window s h : index_ok s -> window_inv s -> window_inv (prune_below s h).
Proof.
  intros Hix [He Hw]. destruct (prune_below_spec s h Hix) as (_ & Hp & _ & _ & _ & _ & _ & Hr).
  fold (last_epoch s) in Hr.
  assert (forall e x k, remote_votes (prune_below s h) !! (e, x) = Some k <->
            remote_votes s !! (e, x) = Some k /\ last_epoch s <= e + 100) as Hl.
  { intros e x k. rewrite Hr, map_lookup_filter_Some; simpl. split; intros [Hk Hge];
      (split; [done|]); pose proof (He _ _ _ Hk); rewrite wadd_small in * by (unfold in_range; lia); lia. }
  assert (last_epoch (prune_below s h) = last_epoch s) as Hlast.
  { apply Z.le_antisymm; unfold last_epoch.
    - destruct (max_epoch_in ((map_to_list (remote_votes (prune_below s h))).*1).*1) as [->|Hin].
      + unfold max_epoch. induction (((map_to_list (remote_votes s)).*1).*1); simpl; lia.
      + apply max_epoch_le. apply epoch_elem in Hin as (x & k & Hk%Hl). apply epoch_elem.
        exists x, k. by destruct Hk.
    - destruct (max_epoch_in ((map_to_list (remote_votes s)).*1).*1) as [->|Hin].
      + unfold max_epoch. induction (((map_to_list (remote_votes (prune_below s h))).*1).*1);
          simpl; lia.
      + apply max_epoch_le. apply epoch_elem in Hin as (x & k & Hk). apply epoch_elem.
        exists x, k. apply Hl. split; [done|]. unfold last_epoch. lia. }
  split.
  - intros e x k [Hk _]%Hl. by eapply He.
  - intros hash b v Hb Hv. rewrite Hp in Hb. apply map_lookup_filter_Some in Hb as [Hb _].
    destruct (Hw hash b v Hb Hv) as [? Hrec]. split; [done|]. rewrite Hlast. intros Hin.
    apply Hl. split; [by apply Hrec|done].
Qed.

Lemma scan_window n h s :
  index_ok s -> window_inv s -> window_inv (fst (finality_scan n h s)).
Proof.
  intros Hix Hs. revert h. induction n as [|n IH]; intros h; cbn [finality_scan]; [done|].
  destruct (get_notarized_at s h), (get_notarized_at s (wadd 64 h 1)) as [mid|],
    (get_notarized_at s (wadd 64 h 2)); try apply IH.
  case_decide; [|apply IH]. cbn [fst]. apply prune_window; [done|]. by apply (window_ext s).
Qed.

(** Recording a vote that does not equivocate. *)
Lemma record_window s v :
  equivocates s v = false -> 0 <= sv_epoch v < 2 ^ 64 - 100 -> window_inv s ->
  window_inv (set_votes s (voted_epochs s)
                (<[(sv_epoch v, voter v) := sv_block_hash v]> (remote_votes s))).
Proof.
  intros Heq He [Hek Hw]. set (s1 := set_votes s _ _). split.
  - intros e x k. simpl. rewrite lookup_insert_Some. intros [[[= <- <-] _]|[_ Hk]]; [done|].
    by eapply Hek.
  - intros hash b w Hb Hin. destruct (Hw hash b w Hb Hin) as [? Hrec]. split; [done|]. intros Hlt.
    pose proof (last_epoch_insert s s1 (sv_epoch v) (voter v) (sv_block_hash v) eq_refl).
    specialize (Hrec ltac:(lia)). simpl.
    destruct (decide ((sv_epoch v, voter v) = (sv_epoch w, voter w))) as [Hk|Hne].
    + rewrite Hk, lookup_insert_eq. unfold equivocates in Heq. rewrite Hk, Hrec in Heq.
      apply bool_decide_eq_false in Heq. f_equal.
      by destruct (decide (hash = sv_block_hash v)).
    + by rewrite lookup_insert_ne.
Qed.

Lemma add_vote_window P s v :
  streamlet_inv P s -> 0 <= sv_epoch v < 2 ^ 64 - 100 -> window_inv s ->
  window_inv (fst (add_vote s v)).
Proof.
  intros Hs He Hw. unfold add_vote. destruct (equivocates s v) eqn:Heq; [done|].
  pose proof (record_window s v Heq He Hw) as Hw1. set (s1 := set_votes s _ _) in *.
  assert (streamlet_inv P s1) as Hs1 by (by apply (inv_ext P s)).
  destruct (proposed_blocks s1 !! sv_block_hash v) as [b|] eqn:Hb; [|done].
  destruct (block_add_vote b v (committee_size s1)) as [b' j] eqn:Ev.
  set (s2 := put_block s1 (sv_block_hash v) b').
  assert (index_ok s2 /\ window_inv s2) as [Hi2 Hw2].
  { split.
    - apply block_add_vote_cases in Ev.
      apply (put_block_index s1 _ b); [apply Hs1|done|..];
        destruct Ev as [(-> & _)|(_ & -> & _)]; done.
    - destruct Hw1 as [Hek Hw1]. split; [done|]. intros hash x w Hx Hin. simpl in Hx.
      apply lookup_insert_Some in Hx as [[<- <-]|[_ Hx]]; [|by apply (Hw1 hash x)].
      apply block_add_vote_cases in Ev as [(-> & _)|(_ & -> & _)]; [by apply (Hw1 _ b)|].
      simpl in Hin. apply elem_of_app in Hin as [Hin|Hin]; [by apply (Hw1 _ b)|].
      apply list_elem_of_singleton in Hin. subst w. split; [done|]. intros _. simpl.
      by rewrite lookup_insert_eq. }
  destruct j; [|done].
  destruct (check_finality _) as [s3 fin] eqn:Ef. cbn [fst].
  replace s3 with (fst (s3, fin)) by done. rewrite <-Ef. unfold check_finality.
  apply scan_window; case_decide; try done; by apply (window_ext s2).
Qed.


(** ** Theorems *)


(** Conflicting notarizations need a third of the committee.  If a node of a
    committee of at most [n] members has notarized two blocks, at least n/3 members
    voted for both. *)
Theorem conflicting_notarizations_share_third C id n os h1 h2 b1 b2 :
  Forall (op_ok C) os -> Z.of_nat (size C) <= n < 2 ^ 62 ->
  let s := run (new id n) os in
  proposed_blocks s !! h1 = Some b1 -> proposed_blocks s !! h2 = Some b2 ->
  notarized b1 = true -> notarized b2 = true ->
  n <= 3 * Z.of_nat (size (voters b1 ∩ voters b2)).
Proof.
  intros Hok Hn s Hb1 Hb2 Hn1 Hn2.
  destruct (run_inv (member C) _ os Hok (streamlet_new_inv _ id n)) as [_ Hall]. fold s in Hall.
  unfold s in Hall at 1. rewrite run_size in Hall. simpl in Hall.
  pose proof (Hall _ _ Hb1) as H1. pose proof (Hall _ _ Hb2) as H2.
  destruct (voters_size _ _ _ _ H1) as [S1 C1]. destruct (voters_size _ _ _ _ H2) as [S2 C2].
  destruct (proj1 (proj2 (proj2 H1)) Hn1) as [_ T1].
  destruct (proj1 (proj2 (proj2 H2)) Hn2) as [_ T2].
  apply (quorum_intersection C); try done; [lia|..];
    rewrite <-vote_threshold_exact by lia; rewrite ?S1, ?S2; auto.
Qed.

(** Votes within range, no reset of the vote records. *)
Definition window_op (o : op) : Prop :=
  match o with
  | OpVote v => 0 <= sv_epoch v < 2 ^ 64 - 100
  | OpClear => False
  | _ => True
  end.

#[export] Instance window_op_dec o : Decision (window_op o).
Proof. destruct o; simpl; apply _. Defined.

Lemma run_window C s os :
  Forall (op_ok C) os -> Forall window_op os -> streamlet_inv (member C) s -> window_inv s ->
  window_inv (run s os).
Proof.
  revert s. induction os as [|o os IH]; intros s Hok Hwo Hs Hw; simpl; [done|].
  apply Forall_cons in Hok as [Ho Hok]. apply Forall_cons in Hwo as [Hwo Hwos].
  apply IH; try done; [by apply (run_inv (member C) s [o]); [constructor|]|].
  destruct o as [h hash e|e hash|v|fh hash|]; simpl in *; try done.
  - unfold add_proposal. destruct (proposed_blocks s !! hash) eqn:E; [done|].
    destruct Hw as [He Hw]. split; [done|]. intros i b v Hi Hv; simpl in Hi.
    apply lookup_insert_Some in Hi as [[<- <-]|[_ Hi]]; [by apply elem_of_nil in Hv|].
    by apply (Hw i b v).
  - by eapply add_vote_window.
Qed.

(** C14: at most one block is notarized per epoch.  As long as its vote records are not
    reset, a node whose committee has at most [n] members never holds two different
    notarized blocks whose votes were all cast for one epoch of the last hundred. *)
Theorem one_notarization_per_epoch C id n os h1 h2 b1 b2 e :
  Forall (op_ok C) os -> Forall window_op os -> Z.of_nat (size C) <= n < 2 ^ 62 -> 0 < n ->
  let s := run (new id n) os in
  proposed_blocks s !! h1 = Some b1 -> proposed_blocks s !! h2 = Some b2 ->
  notarized b1 = true -> notarized b2 = true ->
  Forall (fun v => sv_epoch v = e) (votes b1) -> Forall (fun v => sv_epoch v = e) (votes b2) ->
  last_epoch s <= e + 100 -> h1 = h2.
Proof.
  intros Hok Hwo Hn Hpos s Hb1 Hb2 Hn1 Hn2 He1 He2 Hlast.
  destruct (run_inv (member C) _ os Hok (streamlet_new_inv _ id n)) as [_ Hall]. fold s in Hall.
  unfold s in Hall at 1. rewrite run_size in Hall. simpl in Hall.
  assert (window_inv s) as [_ Hw].
  { apply (run_window C); [done..|apply streamlet_new_inv|]. split; intros ? ? ?; simpl; by rewrite lookup_empty. }
  pose proof (Hall _ _ Hb1) as H1. pose proof (Hall _ _ Hb2) as H2.
  destruct (voters_size _ _ _ _ H1) as [S1 C1]. destruct (voters_size _ _ _ _ H2) as [S2 C2].
  destruct (proj1 (proj2 (proj2 H1)) Hn1) as [_ T1].
  destruct (proj1 (proj2 (proj2 H2)) Hn2) as [_ T2].
  assert (n <= 3 * Z.of_nat (size (voters b1 ∩ voters b2))) as Hi.
  { apply (quorum_intersection C); try done; [lia|..];
      rewrite <-vote_threshold_exact by lia; rewrite ?S1, ?S2; auto. }
  destruct (decide (voters b1 ∩ voters b2 = ∅)) as [Hx|Hx]; [rewrite Hx, size_empty in Hi; lia|].
  apply set_choose_L in Hx as [x [Hx1 Hx2]%elem_of_intersection].
  unfold voters in Hx1, Hx2. rewrite elem_of_list_to_set, list_elem_of_fmap in Hx1, Hx2.
  destruct Hx1 as (v1 & -> & Hv1), Hx2 as (v2 & Heq & Hv2).
  rewrite Forall_forall in He1, He2. pose proof (He1 _ Hv1) as E1. pose proof (He2 _ Hv2) as E2.
  destruct (Hw _ _ _ Hb1 Hv1) as [_ R1]. destruct (Hw _ _ _ Hb2 Hv2) as [_ R2].
  rewrite E1 in R1. rewrite E2, <-Heq in R2. specialize (R1 Hlast). specialize (R2 Hlast).
  congruence.
Qed.

(** The finality rule.  [check_finality] finalizes the middle of the first three
    consecutive heights above the last finalized one that all carry a notarized
    block, records a notarized block of that height as the finalized one and drops
    exactly the blocks below it; otherwise it changes nothing and there are no such
    three heights.  The state is any one whose two indexes agree, which holds of every
    state [add_vote] hands to [check_finality] ([run_inv], [put_block_index]). *)
Theorem finality_rule s :
  index_ok s ->
  0 <= finalized_height s -> finalized_height s + 3 <= 2 ^ 64 ->
  highest_notarized_height s + 2 <= 2 ^ 64 ->
  match check_finality s with
  | (s', Some f) =>
      finalized_height s + 2 <= f <= highest_notarized_height s
      /\ consecutive s (f - 1)
      /\ (forall j, finalized_height s < j < f - 1 -> ~ consecutive s j)
      /\ finalized_height s' = f /\ notarized_at s f (finalized_hash s')
      /\ proposed_blocks s' = filter (fun kv => f <= height (header kv.2)) (proposed_blocks s)
  | (s', None) =>
      s' = s /\ forall j, finalized_height s < j < highest_notarized_height s -> ~ consecutive s j
  end.
Proof.
  intros Hix H0 H1 H2.
  unfold check_finality. rewrite wadd_small by (unfold in_range; lia).
  set (k := Z.to_nat _). assert (Z.of_nat k
    = Z.max 0 (saturating_sub (highest_notarized_height s) 1 - (finalized_height s + 1) + 1)) as Hk by lia.
  pose proof (finality_scan_spec k (finalized_height s + 1) s Hix) as Hscan.
  unfold saturating_sub in Hk.
  destruct (finality_scan k (finalized_height s + 1) s) as [s' [f|]].
  - destruct Hscan as (j & mid & Hj & -> & Hc & Hm & Hfirst & ->); [lia..|].
    set (s1 := set_finalized s (j + 1) mid).
    destruct (prune_below_spec s1 (j + 1) Hix) as (_ & Hp & _ & _ & Hf & Hfh & _).
    rewrite Hp, Hf, Hfh. replace (j + 1 - 1) with j by lia.
    split_and!; try done; [lia..|]. intros i ?. apply Hfirst. lia.
  - destruct Hscan as [-> Hno]; [lia..|]. split; [done|]. intros j ?. apply Hno. lia.
Qed.

Lemma scan_monotone n h s : finalized_height s <= finalized_height (fst (finality_scan n h s)).
Proof.
  revert h. induction n as [|n IH]; intros h; cbn [finality_scan]; [done|].
  destruct (get_notarized_at s h), (get_notarized_at s (wadd 64 h 1)) as [mid|],
    (get_notarized_at s (wadd 64 h 2)); try apply IH.
  case_decide; [|apply IH]. cbn [fst].
  rewrite (proj2 (prune_frame _ _)). simpl. lia.
Qed.

Definition not_restore (o : op) : Prop :=
  match o with OpRestore _ _ => False | _ => True end.

#[export] Instance not_restore_dec o : Decision (not_restore o).
Proof. destruct o; simpl; apply _. Defined.

(** Finality is monotone: between restores the finalized height never decreases,
    whatever proposals and votes arrive. *)
Theorem finality_monotone s os :
  Forall not_restore os -> finalized_height s <= finalized_height (run s os).
Proof.
  revert s. induction os as [|o os IH]; intros s Hok; simpl; [lia|].
  apply Forall_cons in Hok as [Ho Hok]. etrans; [|by apply IH]. clear IH.
  destruct o as [h hash e|e hash|v|fh hash|]; simpl; try done.
  - unfold add_proposal. by destruct (proposed_blocks s !! hash).
  - unfold add_vote. destruct (equivocates s v); [done|]. simpl.
    destruct (proposed_blocks s !! sv_block_hash v) as [b|]; [|done].
    destruct (block_add_vote b v (committee_size s)) as [b' []]; [|done].
    destruct (check_finality _) as [s3 fin] eqn:Ef. simpl.
    replace s3 with (fst (s3, fin)) by done. rewrite <-Ef. unfold check_finality.
    etrans; [|apply scan_monotone]. by case_decide.
  - pose proof (proj2 (prune_frame s (wadd 64 (finalized_height s) 1))) as Hf.
    unfold clear_pending. change (finalized_height s <= finalized_height
      (prune_below s (wadd 64 (finalized_height s) 1))). lia.
Qed.

(** A reset for a committee change keeps every pending proposal: a block above the
    finalized height stays, with the votes and the notarization it got from the
    previous committee. *)
Theorem clear_pending_keeps_pending C id n os hash b :
  Forall (op_ok C) os ->
  let s := run (new id n) os in
  0 <= finalized_height s < 2 ^ 64 - 1 ->
  proposed_blocks s !! hash = Some b -> finalized_height s < height (header b) ->
  proposed_blocks (clear_pending s) !! hash = Some b
  /\ highest_notarized_height (clear_pending s) = finalized_height s.
Proof.
  intros Hok s Hf Hb Hh. destruct (run_inv (member C) _ os Hok (streamlet_new_inv _ id n)) as [Hix _]. fold s in Hix.
  destruct (prune_below_spec s (wadd 64 (finalized_height s) 1) Hix) as (_ & Hp & _ & _ & Hfin & _).
  split; [|exact Hfin].
  change (proposed_blocks (prune_below s (wadd 64 (finalized_height s) 1)) !! hash = Some b).
  rewrite Hp. apply map_lookup_filter_Some. split; [done|]. simpl.
  rewrite wadd_small by (unfold in_range; lia). lia.
Qed.

(** ** Concrete runs *)

Definition hdr (h : Z) (parent : Hash) : BlockHeader :=
  mkBlockHeader h 0 parent [] [] [] [] [] 0 0 [].
Definition ballot (e : Z) (hash : Hash) (h : Z) (who : NodeId) : StreamletVote :=
  mkStreamletVote e hash h (mkValidatorSignature who []).

Definition trio : gset NodeId := {[ [1]; [2]; [3] ]}.

(** Blocks 1, 2 and 3 of a committee of three, each with two votes; no block names
    the previous one as its parent. *)
Definition unlinked : list op :=
  [ OpPropose (hdr 1 [99]) [101] 1; OpPropose (hdr 2 [98]) [102] 2; OpPropose (hdr 3 [97]) [103] 3;
    OpVote (ballot 1 [101] 1 [1]); OpVote (ballot 1 [101] 1 [2]);
    OpVote (ballot 2 [102] 2 [1]); OpVote (ballot 2 [102] 2 [2]);
    OpVote (ballot 3 [103] 3 [1]); OpVote (ballot 3 [103] 3 [2]) ].

(** The finality rule does not look at parents: three notarized blocks at heights
    1, 2, 3 finalize the one at height 2 although none of them extends another. *)
Theorem finality_ignores_parents :
  let s := run (new [1] 3) unlinked in
  finalized_height s = 2 /\ finalized_hash s = [102]
  /\ parent_hash (hdr 2 [98]) <> [101] /\ parent_hash (hdr 3 [97]) <> [102].
Proof. vm_compute. split_and!; done. Qed.

(** The block at height 4 makes 2, 3, 4 three consecutive notarized heights, but the
    scan starts above the finalized height and does not use height 2 again. *)
Lemma finality_skips_overlapping_triple :
  let s := run (new [1] 3)
             (unlinked ++ [OpPropose (hdr 4 [103]) [104] 4;
                           OpVote (ballot 4 [104] 4 [1]); OpVote (ballot 4 [104] 4 [2])]) in
  is_Some (get_notarized_at s 2) /\ is_Some (get_notarized_at s 3)
  /\ is_Some (get_notarized_at s 4) /\ finalized_height s = 2.
Proof. vm_compute. split_and!; by try eexists. Qed.

(** A vote for a far epoch makes the next pruning forget every earlier vote, so that a
    second vote of validator 1 in epoch 3 is accepted. *)
Lemma far_epoch_erases_records :
  let before := [OpVote (ballot 1000000 [200] 9 [3])] in
  let again := OpVote (ballot 3 [105] 5 [1]) in
  let s := run (new [1] 3) (before ++ unlinked ++ [OpPropose (hdr 5 []) [105] 3; again]) in
  option_map votes (proposed_blocks s !! [103]) = Some [ballot 3 [103] 3 [1]; ballot 3 [103] 3 [2]]
  /\ option_map votes (proposed_blocks s !! [105]) = Some [ballot 3 [105] 5 [1]].
Proof. vm_compute. done. Qed.

Definition blk (s : StreamletState) (h : Hash) : ProposedBlock :=
  default (new_block (hdr 0 []) [] 0) (proposed_blocks s !! h).


(** A fourth block at height 3 with the votes of validators 2 and 3. *)
Definition fork : list op :=
  [ OpPropose (hdr 3 [98]) [113] 4; OpVote (ballot 4 [113] 3 [2]); OpVote (ballot 4 [113] 3 [3]) ].

Lemma conflicting_notarizations_share_third_witness :
  let s := run (new [1] 3) (unlinked ++ fork) in
  notarized (blk s [103]) = true /\ notarized (blk s [113]) = true
  /\ 3 <= 3 * Z.of_nat (size (voters (blk s [103]) ∩ voters (blk s [113]))).
Proof.
  split; [vm_compute; reflexivity|]. split; [vm_compute; reflexivity|].
  apply (conflicting_notarizations_share_third trio [1] 3 (unlinked ++ fork) [103] [113]
           (blk (run (new [1] 3) (unlinked ++ fork)) [103])
           (blk (run (new [1] 3) (unlinked ++ fork)) [113])).
  - decide_now.
  - vm_compute. split; [discriminate|reflexivity].
  - vm_compute. reflexivity.
  - vm_compute. reflexivity.
  - vm_compute. reflexivity.
  - vm_compute. reflexivity.
Defined.

Lemma one_notarization_per_epoch_witness :
  let s := run (new [1] 3) unlinked in
  notarized (blk s [103]) = true /\ last_epoch s = 3 /\ pb_block_hash (blk s [103]) = [103].
Proof.
  split; [vm_compute; reflexivity|]. split; [vm_compute; reflexivity|].
  apply (one_notarization_per_epoch trio [1] 3 unlinked
           (pb_block_hash (blk (run (new [1] 3) unlinked) [103])) [103]
           (blk (run (new [1] 3) unlinked) [103]) (blk (run (new [1] 3) unlinked) [103]) 3).
  - decide_now.
  - decide_now.
  - vm_compute. split; [discriminate|reflexivity].
  - lia.
  - vm_compute. reflexivity.
  - vm_compute. reflexivity.
  - vm_compute. reflexivity.
  - vm_compute. reflexivity.
  - decide_now.
  - decide_now.
  - vm_compute. discriminate.
Defined.

(** The state the last vote of [unlinked] hands to [check_finality]. *)
Definition before_check : StreamletState :=
  let s := run (new [1] 3) (firstn 8 unlinked) in
  set_highest (put_block s [103] (fst (block_add_vote (blk s [103]) (ballot 3 [103] 3 [2]) 3))) 3.

Lemma voted_index s hash b v n k :
  index_ok s -> proposed_blocks s !! hash = Some b ->
  index_ok (set_highest (put_block s hash (fst (block_add_vote b v n))) k).
Proof.
  intros Hix Hb. destruct (block_add_vote b v n) as [b' j] eqn:Ev.
  apply block_add_vote_cases in Ev. apply (put_block_index s hash b b' Hix Hb);
    destruct Ev as [(-> & _)|(_ & -> & _)]; done.
Qed.

Lemma before_check_index : index_ok before_check.
Proof.
  unfold before_check. apply voted_index.
  - apply (run_inv (member trio)); [exact (bool_decide_unpack (Forall (op_ok trio) (firstn 8 unlinked)) I)|apply streamlet_new_inv].
  - vm_compute. reflexivity.
Qed.

Lemma finality_rule_witness :
  finalized_height (fst (check_finality before_check)) = 2
  /\ consecutive before_check 1
  /\ notarized_at before_check 2 (finalized_hash (fst (check_finality before_check))).
Proof.
  pose proof (finality_rule before_check before_check_index
                ltac:(vm_compute; congruence) ltac:(vm_compute; congruence)
                ltac:(vm_compute; congruence)) as Hr.
  assert (snd (check_finality before_check) = Some 2) as Hc by (vm_compute; reflexivity).
  destruct (check_finality before_check) as [s' o]. cbn [fst snd] in *. subst o.
  destruct Hr as (_ & Hc & _ & Hf & Hn & _). split; [exact Hf|]. split; [exact Hc|exact Hn].
Defined.

Lemma finality_monotone_witness :
  finalized_height (run (new [1] 3) unlinked)
  <= finalized_height (run (run (new [1] 3) unlinked) (fork ++ [OpClear])).
Proof.
  apply finality_monotone. decide_now.
Defined.

Lemma clear_pending_keeps_pending_witness :
  let s := run (new [1] 3) unlinked in
  proposed_blocks (clear_pending s) !! [103] = Some (blk s [103]).
Proof.
  apply (clear_pending_keeps_pending trio [1] 3 unlinked).
  - decide_now.
  - vm_compute. split; [discriminate|reflexivity].
  - vm_compute. reflexivity.
  - vm_compute. reflexivity.
Defined.

End StreamletSafety.
