(* ===== verification/Ieee.v ===== *)
(** * IEEE 754 values of [f32] and [f64]

    The VM moves floats through memory, so a float is its bit pattern (a [Z] of 32 or
    64 bits) and arithmetic decodes it to the Standard Library's [spec_float], computes
    with round-to-nearest-even and encodes the result.  Rust leaves the payload of a
    NaN result open; the model picks the quiet NaN with an empty payload. *)

From stdpp Require Import base tactics.
From Stdlib Require Import ZArith Lia.
From Stdlib Require SpecFloat.
From S2P Require Import Prelude.
Local Open Scope Z_scope.

Module Ieee.

(** A format: bits of mantissa and of exponent. *)
Record format := mkFormat { mant : Z; expo : Z }.

Definition f32 : format := mkFormat 23 8.
Definition f64 : format := mkFormat 52 11.

Definition width (F : format) : Z := mant F + expo F + 1.
Definition prec (F : format) : Z := mant F + 1.
Definition emax (F : format) : Z := 2 ^ (expo F - 1).
Definition emin (F : format) : Z := 3 - emax F - prec F.

Definition decode (F : format) (bits : Z) : SpecFloat.spec_float :=
  let s := negb (bits / 2 ^ (mant F + expo F) =? 0) in
  let e := (bits / 2 ^ mant F) mod 2 ^ expo F in
  let m := bits mod 2 ^ mant F in
  if e =? 2 ^ expo F - 1 then
    if m =? 0 then SpecFloat.S754_infinity s else SpecFloat.S754_nan
  else if e =? 0 then
    match m with
    | Zpos p => SpecFloat.S754_finite s p (emin F)
    | _ => SpecFloat.S754_zero s
    end
  else SpecFloat.S754_finite s (Z.to_pos (m + 2 ^ mant F)) (e - 1 + emin F).

Definition sign_bit (F : format) (s : bool) : Z :=
  if s then 2 ^ (mant F + expo F) else 0.

Definition quiet_nan (F : format) : Z := (2 ^ expo F - 1) * 2 ^ mant F + 2 ^ (mant F - 1).

Definition encode (F : format) (x : SpecFloat.spec_float) : Z :=
  wrap (width F)
    match x with
    | SpecFloat.S754_zero s => sign_bit F s
    | SpecFloat.S754_infinity s => sign_bit F s + (2 ^ expo F - 1) * 2 ^ mant F
    | SpecFloat.S754_nan => quiet_nan F
    | SpecFloat.S754_finite s m e =>
        if Zpos m <? 2 ^ mant F then sign_bit F s + Zpos m
        else sign_bit F s + (e - emin F + 1) * 2 ^ mant F + (Zpos m - 2 ^ mant F)
    end.

Lemma encode_range F x : 0 <= width F -> in_range (width F) (encode F x).
Proof. apply wrap_range. Qed.

(** ** Operators of the language *)

Definition fadd (F : format) (a b : Z) : Z :=
  encode F (SpecFloat.SFadd (prec F) (emax F) (decode F a) (decode F b)).
Definition fsub (F : format) (a b : Z) : Z :=
  encode F (SpecFloat.SFsub (prec F) (emax F) (decode F a) (decode F b)).
Definition fmul (F : format) (a b : Z) : Z :=
  encode F (SpecFloat.SFmul (prec F) (emax F) (decode F a) (decode F b)).
Definition fdiv (F : format) (a b : Z) : Z :=
  encode F (SpecFloat.SFdiv (prec F) (emax F) (decode F a) (decode F b)).

(** Negation flips the sign bit, also of a NaN. *)
Definition fneg (F : format) (a : Z) : Z := wrap (width F) (Z.lxor a (2 ^ (mant F + expo F))).

Definition feq (F : format) (a b : Z) : bool := SpecFloat.SFeqb (decode F a) (decode F b).
Definition flt (F : format) (a b : Z) : bool := SpecFloat.SFltb (decode F a) (decode F b).
Definition fle (F : format) (a b : Z) : bool := SpecFloat.SFleb (decode F a) (decode F b).

Definition is_nan (F : format) (a : Z) : bool :=
  match decode F a with SpecFloat.S754_nan => true | _ => false end.

(** [min] and [max] ignore a NaN; [abs] clears the sign bit. *)
Definition fmin (F : format) (a b : Z) : Z :=
  if is_nan F a then b else if is_nan F b then a else if flt F b a then b else a.
Definition fmax (F : format) (a b : Z) : Z :=
  if is_nan F a then b else if is_nan F b then a else if flt F a b then b else a.
Definition fabs (F : format) (a : Z) : Z := a mod 2 ^ (mant F + expo F).
Definition fsqrt (F : format) (a : Z) : Z :=
  encode F (SpecFloat.SFsqrt (prec F) (emax F) (decode F a)).

(** ** Casts *)

(** [x as iN]/[x as uN]: truncation toward zero, saturating; a NaN gives 0. *)
Definition to_int (F : format) (lo hi : Z) (a : Z) : Z :=
  match decode F a with
  | SpecFloat.S754_zero _ | SpecFloat.S754_nan => 0
  | SpecFloat.S754_infinity s => if s then lo else hi
  | SpecFloat.S754_finite s m e =>
      let v := if 0 <=? e then Zpos m * 2 ^ e else Zpos m / 2 ^ (- e) in
      Z.max lo (Z.min hi (if s then - v else v))
  end.

(** [n as fN] of an integer. *)
Definition of_int (F : format) (n : Z) : Z :=
  encode F (SpecFloat.binary_normalize (prec F) (emax F) n 0 false).

(** A decimal literal [n / d]: the quotient of two exact integers is rounded once. *)
Definition flit (F : format) (n d : Z) : Z := fdiv F (of_int F n) (of_int F d).

(** [x as fN] between the two formats. *)
Definition convert (F G : format) (a : Z) : Z :=
  encode G
    match decode F a with
    | SpecFloat.S754_finite s m e =>
        SpecFloat.binary_normalize (prec G) (emax G) (if s then Zneg m else Zpos m) e s
    | x => x
    end.

(** ** Rounding to an integer and remainders *)

(** The float with the integer value [v], a zero with the sign [s]. *)
Definition of_integral (F : format) (s : bool) (v : Z) : Z :=
  encode F (if decide (v = 0) then SpecFloat.S754_zero s
            else SpecFloat.binary_normalize (prec F) (emax F) v 0 s).

(** [round m e]: the magnitude [m * 2 ^ e], [e < 0], of a number with sign [s], rounded. *)
Definition round_with (F : format) (round : bool -> Z -> Z -> Z) (a : Z) : Z :=
  match decode F a with
  | SpecFloat.S754_finite s m e =>
      if 0 <=? e then a
      else let v := round s (Zpos m) (2 ^ (- e)) in of_integral F s (if s then - v else v)
  | _ => a
  end.

Definition fceil (F : format) : Z -> Z :=
  round_with F (fun s m d => if s then m / d else - ((- m) / d)).
Definition ffloor (F : format) : Z -> Z :=
  round_with F (fun s m d => if s then - ((- m) / d) else m / d).
(** [round]: half away from zero. *)
Definition fround (F : format) : Z -> Z := round_with F (fun _ m d => (2 * m + d) / (2 * d)).

(** [a % b]: the exact remainder of the division truncated toward zero. *)
Definition frem (F : format) (a b : Z) : Z :=
  match decode F a, decode F b with
  | SpecFloat.S754_finite s m e, SpecFloat.S754_finite _ m' e' =>
      let e0 := Z.min e e' in
      let r := (Zpos m * 2 ^ (e - e0)) mod (Zpos m' * 2 ^ (e' - e0)) in
      encode F (if decide (r = 0) then SpecFloat.S754_zero s
                else SpecFloat.binary_normalize (prec F) (emax F) (if s then - r else r) e0 s)
  | SpecFloat.S754_zero _, SpecFloat.S754_finite _ _ _
  | SpecFloat.S754_zero _, SpecFloat.S754_infinity _
  | SpecFloat.S754_finite _ _ _, SpecFloat.S754_infinity _ => a
  | _, _ => quiet_nan F
  end.

Definition frem_euclid (F : format) (a b : Z) : Z :=
  let r := frem F a b in
  if flt F r (of_int F 0) then fadd F r (fabs F b) else r.

Example rounding_example :
  to_int f64 0 100 (fceil f64 (flit f64 21 10)) = 3 /\ to_int f64 0 100 (ffloor f64 (flit f64 29 10)) = 2
  /\ to_int f64 0 100 (fround f64 (flit f64 5 2)) = 3 /\ to_int f64 (-9) 9 (fceil f64 (flit f64 (-21) 10)) = -2
  /\ frem_euclid f64 (of_int f64 (-10)) (of_int f64 360) = of_int f64 350
  /\ frem f64 (flit f64 15 2) (of_int f64 2) = flit f64 3 2.
Proof. vm_compute. done. Qed.

(** 1.5 + 2.25 = 3.75 and 1 / 3 in both formats, and saturation of casts. *)
Example f32_add_example : fadd f32 0x3FC00000 0x40100000 = 0x40700000.
Proof. vm_compute. reflexivity. Qed.
Example f64_div_example : fdiv f64 (of_int f64 1) (of_int f64 3) = 0x3FD5555555555555.
Proof. vm_compute. reflexivity. Qed.
Example cast_example :
  to_int f64 (- 2 ^ 31) (2 ^ 31 - 1) (of_int f64 (2 ^ 40)) = 2 ^ 31 - 1
  /\ to_int f32 (- 2 ^ 31) (2 ^ 31 - 1) (fneg f32 0x40700000) = -3
  /\ convert f32 f64 0x40700000 = 0x400E000000000000
  /\ convert f64 f32 (fdiv f64 (of_int f64 1) (of_int f64 3)) = 0x3EAAAAAB.
Proof. vm_compute. done. Qed.

Lemma to_int_range F lo hi a : lo <= 0 <= hi -> lo <= to_int F lo hi a <= hi.
Proof.
  intros ?. unfold to_int. destruct (decode F a) as [|s| |s m e]; [lia|destruct s; lia|lia|].
  set (v := if s then _ else _). clearbody v. lia.
Qed.

End Ieee.
