(* ===== verification/Gas.v ===== *)
(** * gratia-vm: gas metering

    [crates/gratia-vm/src/gas.rs]: the cost table and the meter.  A charge that would
    exceed the limit fails and sets the meter to the limit. *)

From stdpp Require Import base tactics strings pretty.
From Stdlib Require Import ZArith Lia.
From S2P Require Import Prelude.
Local Open Scope Z_scope.

Module Gas.

Inductive GasError :=
| OutOfGas (used limit : Z)
| GasLimitTooHigh (requested max : Z).

(** [impl Display for GasError]. *)
Definition show_GasError (e : GasError) : string :=
  match e with
  | OutOfGas used limit => "out of gas: used " +:+ pretty used +:+ ", limit " +:+ pretty limit
  | GasLimitTooHigh requested max =>
      "gas limit too high: " +:+ pretty requested +:+ ", maximum allowed is " +:+ pretty max
  end.

Record GasCosts := mkGasCosts {
  memory_access : Z;
  arithmetic : Z;
  division : Z;
  branch : Z;
  sha256_hash : Z;
  ed25519_verify : Z;
  host_call_base : Z;
  host_get_location : Z;
  host_get_proximity : Z;
  host_get_presence : Z;
  host_get_sensor : Z;
  host_get_block_info : Z;
  host_get_caller_info : Z;
  cost_storage_read : Z;
  cost_storage_write : Z;
  memory_grow_page : Z;
  cross_contract_call : Z;
  log_per_byte : Z
}.

Definition default_GasCosts : GasCosts := {|
  memory_access := 1;
  arithmetic := 1;
  division := 5;
  branch := 2;
  sha256_hash := 1000;
  ed25519_verify := 50000;
  host_call_base := 100;
  host_get_location := 150;
  host_get_proximity := 300;
  host_get_presence := 120;
  host_get_sensor := 150;
  host_get_block_info := 110;
  host_get_caller_info := 200;
  cost_storage_read := 200;
  cost_storage_write := 5000;
  memory_grow_page := 10000;
  cross_contract_call := 100000;
  log_per_byte := 2
|}.

Definition MAX_GAS_LIMIT : Z := 10000000000.

Record GasMeter := mkGasMeter { limit : Z; used : Z; costs : GasCosts }.

Definition with_costs (lim : Z) (c : GasCosts) : GasMeter :=
  mkGasMeter (Z.min lim MAX_GAS_LIMIT) 0 c.

Definition new (lim : Z) : GasMeter :=
  mkGasMeter (Z.min lim MAX_GAS_LIMIT) 0 default_GasCosts.

Definition new_checked (lim : Z) : result GasError GasMeter :=
  if decide (lim > MAX_GAS_LIMIT) then Err (GasLimitTooHigh lim MAX_GAS_LIMIT)
  else Ok (mkGasMeter lim 0 default_GasCosts).

Definition charge (g : GasMeter) (amount : Z) : GasMeter * result GasError unit :=
  let new_used := saturating_add 64 (used g) amount in
  if decide (new_used > limit g) then
    (mkGasMeter (limit g) (limit g) (costs g), Err (OutOfGas new_used (limit g)))
  else (mkGasMeter (limit g) new_used (costs g), Ok tt).

Definition charge_memory_access g := charge g (memory_access (costs g)).
Definition charge_arithmetic g := charge g (arithmetic (costs g)).
Definition charge_division g := charge g (division (costs g)).
Definition charge_branch g := charge g (branch (costs g)).
Definition charge_sha256 g := charge g (sha256_hash (costs g)).
Definition charge_ed25519_verify g := charge g (ed25519_verify (costs g)).

Definition host_call_cost (c : GasCosts) (function_name : string) : Z :=
  if decide (function_name = "get_location") then host_get_location c
  else if decide (function_name = "get_nearby_peers") then host_get_proximity c
  else if decide (function_name = "get_presence_score") then host_get_presence c
  else if decide (function_name = "get_sensor_data") then host_get_sensor c
  else if decide (function_name = "get_block_height" \/ function_name = "get_block_timestamp")
  then host_get_block_info c
  else if decide (function_name = "get_caller_address" \/ function_name = "get_caller_balance")
  then host_get_caller_info c
  else host_call_base c.

Definition charge_host_call (g : GasMeter) (function_name : string) :=
  charge g (host_call_cost (costs g) function_name).

Definition charge_storage_read g := charge g (cost_storage_read (costs g)).
Definition charge_storage_write g := charge g (cost_storage_write (costs g)).
Definition charge_memory_grow g (pages : Z) := charge g (wmul 64 (memory_grow_page (costs g)) pages).
Definition charge_cross_contract_call g := charge g (cross_contract_call (costs g)).
Definition charge_log g (data_len : Z) := charge g (wmul 64 (log_per_byte (costs g)) data_len).

Definition gas_remaining (g : GasMeter) : Z := saturating_sub (limit g) (used g).
Definition gas_used (g : GasMeter) : Z := used g.
Definition gas_limit (g : GasMeter) : Z := limit g.

(** ** The meter invariant *)

Definition meter_ok (g : GasMeter) : Prop := 0 <= used g <= limit g /\ limit g <= MAX_GAS_LIMIT.

(** Every cost the interpreter charges for an instruction is positive, so that only
    finitely many charged instructions fit in a limit. *)
Definition costs_positive (c : GasCosts) : Prop :=
  1 <= arithmetic c /\ 1 <= division c /\ 1 <= branch c
  /\ forall name, 0 <= host_call_cost c name.

Lemma default_costs_positive : costs_positive default_GasCosts.
Proof.
  unfold costs_positive. simpl. split_and!; [lia..|]. intros name. unfold host_call_cost.
  repeat case_decide; simpl; lia.
Qed.

(** What a meter may become while code runs: same limit and costs, more gas used. *)
Definition meter_le (g g' : GasMeter) : Prop :=
  limit g' = limit g /\ costs g' = costs g /\ used g <= used g' <= limit g.

Lemma new_meter_ok lim : 0 <= lim -> meter_ok (new lim).
Proof. unfold meter_ok, MAX_GAS_LIMIT; simpl. unfold MAX_GAS_LIMIT. lia. Qed.

Lemma meter_le_refl g : meter_ok g -> meter_le g g.
Proof. unfold meter_ok, meter_le. intuition lia. Qed.

Lemma meter_le_trans g1 g2 g3 : meter_le g1 g2 -> meter_le g2 g3 -> meter_le g1 g3.
Proof.
  unfold meter_le. intros (L1 & C1 & ?) (L2 & C2 & ?). rewrite L2, C2, L1, C1 in *.
  split_and!; [done..|lia|lia].
Qed.

Lemma meter_le_ok g g' : meter_ok g -> meter_le g g' -> meter_ok g'.
Proof. unfold meter_ok, meter_le. intros (? & ?) (-> & ? & ?). lia. Qed.

(** A charge inside the limit adds exactly its amount; a failed one uses up the limit. *)
Lemma charge_spec g n :
  meter_ok g -> 0 <= n ->
  meter_le g (charge g n).1
  /\ (if decide (used g + n <= limit g)
      then (charge g n).2 = Ok tt /\ used (charge g n).1 = used g + n
      else (exists u, (charge g n).2 = Err (OutOfGas u (limit g)) /\ limit g < u)
           /\ used (charge g n).1 = limit g).
Proof.
  unfold meter_ok, meter_le, charge, MAX_GAS_LIMIT. intros [? ?] ?. unfold saturating_add, max_val.
  destruct (decide (used g + n <= limit g)); destruct (decide _); simpl; try lia.
  - split; [split_and!; (done || lia)|]. split; [done|lia].
  - split; [split_and!; (done || lia)|]. split; [|done]. eexists. split; [done|lia].
Qed.

(** The cap keeps the saturating sum from ever reaching its ceiling: no charge is free
    by saturation. *)
Lemma charge_never_saturates g n :
  meter_ok g -> 0 <= n -> (charge g n).2 = Ok tt -> used (charge g n).1 = used g + n.
Proof.
  intros Hg Hn Hok. destruct (charge_spec g n Hg Hn) as [_ Hs].
  destruct (decide _); [by destruct Hs|]. destruct Hs as [(u & He & _) _]. congruence.
Qed.

End Gas.
