(* ===== verification/Sandbox.v ===== *)
(** * gratia-vm: sandbox

    [crates/gratia-vm/src/sandbox.rs]: resource limits, contract permissions, the
    resource tracker of one execution and the structural check of bytecode.  The clock
    ([Instant::now]) is an argument, in nanoseconds. *)

From stdpp Require Import base tactics strings pretty list.
From Stdlib Require Import ZArith Lia.
From S2P Require Import Prelude CoreTypes.
Local Open Scope Z_scope.

Module Sandbox.

Inductive SandboxError :=
| MemoryLimitExceeded (used_bytes limit_bytes : Z)
| TimeLimitExceeded (elapsed_ms limit_ms : Z)
| StackDepthExceeded (depth limit : Z)
| CallDepthExceeded (depth limit : Z)
| BytecodeTooLarge (size limit : Z)
| InvalidBytecode (reason : string)
| PermissionDenied (permission : string).

Definition show_SandboxError (e : SandboxError) : string :=
  match e with
  | MemoryLimitExceeded u l =>
      "memory limit exceeded: " +:+ pretty u +:+ " bytes used, " +:+ pretty l +:+ " bytes allowed"
  | TimeLimitExceeded t l =>
      "execution time limit exceeded: " +:+ pretty t +:+ "ms used, " +:+ pretty l +:+ "ms allowed"
  | StackDepthExceeded d l =>
      "stack depth limit exceeded: " +:+ pretty d +:+ " frames, " +:+ pretty l +:+ " allowed"
  | CallDepthExceeded d l =>
      "call depth limit exceeded: " +:+ pretty d +:+ " calls, " +:+ pretty l +:+ " allowed"
  | BytecodeTooLarge s l =>
      "bytecode too large: " +:+ pretty s +:+ " bytes, " +:+ pretty l +:+ " bytes allowed"
  | InvalidBytecode r => "bytecode validation failed: " +:+ r
  | PermissionDenied p => "permission denied: contract lacks '" +:+ p +:+ "' permission"
  end.

Record SandboxConfig := mkSandboxConfig {
  max_memory_bytes : Z;
  max_execution_time_ms : Z;
  max_stack_depth : Z;
  max_call_depth : Z;
  max_bytecode_size : Z;
  max_memory_pages : Z;
  max_events_per_execution : Z;
  max_event_data_bytes : Z
}.

Definition default_SandboxConfig : SandboxConfig := {|
  max_memory_bytes := 256 * 1024 * 1024;
  max_execution_time_ms := 500;
  max_stack_depth := 1024;
  max_call_depth := 8;
  max_bytecode_size := 1024 * 1024;
  max_memory_pages := 4096;
  max_events_per_execution := 256;
  max_event_data_bytes := 64 * 1024
|}.

Record ContractPermissions := mkContractPermissions {
  location : bool;
  proximity : bool;
  presence : bool;
  sensor : bool;
  cross_contract_calls : bool
}.

Definition default_ContractPermissions : ContractPermissions :=
  mkContractPermissions false false false false false.

Definition all : ContractPermissions := mkContractPermissions true true true true true.

(** The [match] of [check_permission]. *)
Definition permitted (p : ContractPermissions) (function_name : string) : bool :=
  let one_of names := bool_decide (function_name ∈ names) in
  if one_of ["get_location"; "get_location_lat"; "get_location_lon"] then location p
  else if one_of ["get_nearby_peers"; "get_nearby_peer_count"] then proximity p
  else if one_of ["get_presence_score"] then presence p
  else if one_of ["get_sensor_data"; "get_sensor_reading"] then sensor p
  else if one_of ["get_block_height"; "get_block_timestamp"] then true
  else if one_of ["get_caller_address"; "get_caller_balance"] then true
  else if one_of ["storage_read"; "storage_write"; "emit_event"; "log"] then true
  else false.

Definition check_permission (p : ContractPermissions) (function_name : string)
  : result SandboxError unit :=
  if permitted p function_name then Ok tt else Err (PermissionDenied function_name).

(** ** Sandboxed execution *)

Record SandboxedExecution := mkSandboxedExecution {
  config : SandboxConfig;
  permissions : ContractPermissions;
  start_time : Z;
  current_memory_bytes : Z;
  current_stack_depth : Z;
  current_call_depth : Z;
  events_emitted : Z;
  event_data_bytes : Z
}.

Definition new (c : SandboxConfig) (p : ContractPermissions) (now : Z) : SandboxedExecution :=
  mkSandboxedExecution c p now 0 0 0 0 0.

Definition set_memory s v :=
  mkSandboxedExecution (config s) (permissions s) (start_time s) v (current_stack_depth s)
    (current_call_depth s) (events_emitted s) (event_data_bytes s).
Definition set_stack s v :=
  mkSandboxedExecution (config s) (permissions s) (start_time s) (current_memory_bytes s) v
    (current_call_depth s) (events_emitted s) (event_data_bytes s).
Definition set_calls s v :=
  mkSandboxedExecution (config s) (permissions s) (start_time s) (current_memory_bytes s)
    (current_stack_depth s) v (events_emitted s) (event_data_bytes s).
Definition set_events s n v :=
  mkSandboxedExecution (config s) (permissions s) (start_time s) (current_memory_bytes s)
    (current_stack_depth s) (current_call_depth s) n v.

Definition enforce_time_limit (s : SandboxedExecution) (now : Z) : result SandboxError unit :=
  let elapsed := now - start_time s in
  let limit := max_execution_time_ms (config s) * 1000000 in
  if decide (elapsed > limit)
  then Err (TimeLimitExceeded (wrap 64 (elapsed / 1000000)) (max_execution_time_ms (config s)))
  else Ok tt.

Definition enforce_memory_limit (s : SandboxedExecution) (memory_bytes : Z)
  : SandboxedExecution * result SandboxError unit :=
  if decide (memory_bytes > max_memory_bytes (config s))
  then (s, Err (MemoryLimitExceeded memory_bytes (max_memory_bytes (config s))))
  else (set_memory s memory_bytes, Ok tt).

Definition push_stack_frame (s : SandboxedExecution)
  : SandboxedExecution * result SandboxError unit :=
  if decide (current_stack_depth s >= max_stack_depth (config s))
  then (s, Err (StackDepthExceeded (wadd 32 (current_stack_depth s) 1) (max_stack_depth (config s))))
  else (set_stack s (wadd 32 (current_stack_depth s) 1), Ok tt).

Definition pop_stack_frame (s : SandboxedExecution) : SandboxedExecution :=
  set_stack s (saturating_sub (current_stack_depth s) 1).

Definition enter_call (s : SandboxedExecution)
  : SandboxedExecution * result SandboxError unit :=
  if decide (current_call_depth s >= max_call_depth (config s))
  then (s, Err (CallDepthExceeded (wadd 32 (current_call_depth s) 1) (max_call_depth (config s))))
  else (set_calls s (wadd 32 (current_call_depth s) 1), Ok tt).

Definition exit_call (s : SandboxedExecution) : SandboxedExecution :=
  set_calls s (saturating_sub (current_call_depth s) 1).

Definition record_event (s : SandboxedExecution) (data_len : Z)
  : SandboxedExecution * result SandboxError unit :=
  let n := wadd 64 (events_emitted s) 1 in
  let s1 := set_events s n (event_data_bytes s) in
  if decide (n > max_events_per_execution (config s)) then
    (s1, Err (PermissionDenied ("event limit exceeded: " +:+ pretty n +:+ " events, "
                 +:+ pretty (max_events_per_execution (config s)) +:+ " allowed")))
  else
    let? d := ok_or (checked_add 64 (event_data_bytes s) data_len)
                (PermissionDenied "event data size overflow") at s1 in
    let s2 := set_events s n d in
    if decide (d > max_event_data_bytes (config s)) then
      (s2, Err (PermissionDenied ("event data limit exceeded: " +:+ pretty d +:+ " bytes, "
                  +:+ pretty (max_event_data_bytes (config s)) +:+ " allowed")))
    else (s2, Ok tt).

(** ** Bytecode validation *)

Definition WASM_MAGIC : bytes := [0x00; 0x61; 0x73; 0x6d].

Definition validate_bytecode (bytecode : bytes) (c : SandboxConfig) : result SandboxError unit :=
  let len := Z.of_nat (length bytecode) in
  if decide (len > max_bytecode_size c) then Err (BytecodeTooLarge len (max_bytecode_size c))
  else if decide (len < 8) then
    Err (InvalidBytecode "bytecode too short to be valid WASM (minimum 8 bytes for header)")
  else if decide (take 4 bytecode <> WASM_MAGIC) then
    Err (InvalidBytecode "missing WASM magic number (\0asm)")
  else
    let version := of_le_bytes (take 4 (drop 4 bytecode)) in
    if decide (version <> 1) then
      Err (InvalidBytecode ("unsupported WASM version: " +:+ pretty version
                              +:+ " (only version 1 is supported)"))
    else Ok tt.

(** ** Limits *)

Definition within_limits (s : SandboxedExecution) : Prop :=
  0 <= current_memory_bytes s <= max_memory_bytes (config s)
  /\ 0 <= current_stack_depth s <= max_stack_depth (config s)
  /\ 0 <= current_call_depth s <= max_call_depth (config s).

(** Runs of the tracker. *)
Inductive op :=
| OpMemory (n : Z) | OpPush | OpPop | OpEnter | OpExit | OpEvent (n : Z).

Definition run_op (s : SandboxedExecution) (o : op) : SandboxedExecution :=
  match o with
  | OpMemory n => (enforce_memory_limit s n).1
  | OpPush => (push_stack_frame s).1
  | OpPop => pop_stack_frame s
  | OpEnter => (enter_call s).1
  | OpExit => exit_call s
  | OpEvent n => (record_event s n).1
  end.

Definition op_ok (o : op) : Prop :=
  match o with OpMemory n | OpEvent n => 0 <= n < 2 ^ 64 | _ => True end.

#[export] Instance op_ok_dec o : Decision (op_ok o).
Proof. destruct o; simpl; apply _. Defined.

Lemma run_op_config s o : config (run_op s o) = config s.
Proof.
  destruct o; simpl; try done;
    unfold enforce_memory_limit, push_stack_frame, enter_call, record_event;
    repeat case_decide; simpl; try done.
  destruct (ok_or _ _); simpl; [|done]. by case_decide.
Qed.

Definition config_ok (c : SandboxConfig) : Prop :=
  0 <= max_memory_bytes c /\ 0 <= max_stack_depth c < 2 ^ 32 - 1
  /\ 0 <= max_call_depth c < 2 ^ 32 - 1.

Lemma run_op_within s o :
  config_ok (config s) -> op_ok o -> within_limits s -> within_limits (run_op s o).
Proof.
  intros (Hm & Hs & Hc) Ho Hw. destruct o; unfold within_limits in *; simpl in *.
  - unfold enforce_memory_limit. case_decide; simpl; lia.
  - unfold push_stack_frame. case_decide; simpl; [lia|].
    rewrite wadd_small by ulia. lia.
  - ulia.
  - unfold enter_call. case_decide; simpl; [lia|]. rewrite wadd_small by ulia. lia.
  - ulia.
  - unfold record_event. case_decide; simpl; [lia|]. destruct (ok_or _ _); simpl; [|lia].
    case_decide; simpl; lia.
Qed.

(** The tracker never reports more memory, frames or nested calls than its
    configuration allows, whatever sequence of checks, pushes and pops it sees, failed
    ones included. *)
Theorem sandbox_limits_hold c p now os :
  config_ok c -> Forall op_ok os ->
  let s := foldl run_op (new c p now) os in
  config s = c /\ within_limits s.
Proof.
  intros Hc Hos. assert (within_limits (new c p now)) as Hw
    by (destruct Hc as (?&?&?); unfold within_limits; simpl; lia).
  assert (config (new c p now) = c) as Hcfg by done. simpl.
  revert Hcfg Hw. generalize (new c p now). induction Hos as [|o os Ho _ IH]; intros s Hcfg Hw; simpl; [done|].
  apply IH; [by rewrite run_op_config|]. apply run_op_within; [by rewrite Hcfg|done..].
Qed.

End Sandbox.
