(* ===== verification/HostFunctions.v ===== *)
(** * gratia-vm: host functions

    [crates/gratia-vm/src/host_functions.rs]: the environment the node hands to a
    contract.  [f32] and [f64] fields are bit patterns. *)

From stdpp Require Import base tactics strings gmap list.
From Stdlib Require Import ZArith Lia.
From S2P Require Import Prelude CoreTypes.
Local Open Scope Z_scope.

Module Host.

Inductive SensorType := Barometer | AmbientLight | Magnetometer | Accelerometer | Gyroscope.

#[export] Instance SensorType_eq_dec : EqDecision SensorType.
Proof. solve_decision. Defined.

Record SensorReading := mkSensorReading {
  sensor_type : SensorType;
  value : Z;
  timestamp_secs : Z;
  is_fresh : bool
}.

Record ContractEvent := mkContractEvent {
  contract_address : Address;
  topic : string;
  data : bytes
}.

Record HostEnvironment := mkHostEnvironment {
  block_height : Z;
  block_timestamp : Z;
  caller_address : Address;
  caller_balance : Lux;
  location : option (Z * Z);
  nearby_peer_count : Z;
  presence_score : Z;
  sensor_readings : list SensorReading;
  storage : gmap (list Z) (list Z);
  events : list ContractEvent
}.

Definition new (height ts : Z) (caller : Address) (balance : Lux) : HostEnvironment :=
  mkHostEnvironment height ts caller balance None 0 40 [] ∅ [].

Definition with_location (e : HostEnvironment) (l : Z * Z) : HostEnvironment :=
  mkHostEnvironment (block_height e) (block_timestamp e) (caller_address e) (caller_balance e)
    (Some l) (nearby_peer_count e) (presence_score e) (sensor_readings e) (storage e) (events e).

Definition with_nearby_peers (e : HostEnvironment) (count : Z) : HostEnvironment :=
  mkHostEnvironment (block_height e) (block_timestamp e) (caller_address e) (caller_balance e)
    (location e) count (presence_score e) (sensor_readings e) (storage e) (events e).

Definition with_presence_score (e : HostEnvironment) (score : Z) : HostEnvironment :=
  mkHostEnvironment (block_height e) (block_timestamp e) (caller_address e) (caller_balance e)
    (location e) (nearby_peer_count e) (Z.min score 100) (sensor_readings e) (storage e) (events e).

Definition with_sensor_reading (e : HostEnvironment) (r : SensorReading) : HostEnvironment :=
  mkHostEnvironment (block_height e) (block_timestamp e) (caller_address e) (caller_balance e)
    (location e) (nearby_peer_count e) (presence_score e) (sensor_readings e ++ [r])
    (storage e) (events e).

Definition set_storage (e : HostEnvironment) (m : gmap (list Z) (list Z)) : HostEnvironment :=
  mkHostEnvironment (block_height e) (block_timestamp e) (caller_address e) (caller_balance e)
    (location e) (nearby_peer_count e) (presence_score e) (sensor_readings e) m (events e).

Definition set_events (e : HostEnvironment) (l : list ContractEvent) : HostEnvironment :=
  mkHostEnvironment (block_height e) (block_timestamp e) (caller_address e) (caller_balance e)
    (location e) (nearby_peer_count e) (presence_score e) (sensor_readings e) (storage e) l.

Definition get_location (e : HostEnvironment) : option (Z * Z) := location e.
Definition get_nearby_peers (e : HostEnvironment) : Z := nearby_peer_count e.
Definition get_presence_score (e : HostEnvironment) : Z := presence_score e.
Definition get_sensor_data (e : HostEnvironment) (t : SensorType) : option SensorReading :=
  List.find (fun r => bool_decide (sensor_type r = t)) (sensor_readings e).
Definition get_block_height (e : HostEnvironment) : Z := block_height e.
Definition get_block_timestamp (e : HostEnvironment) : Z := block_timestamp e.
Definition get_caller_address (e : HostEnvironment) : Address := caller_address e.
Definition get_caller_balance (e : HostEnvironment) : Lux := caller_balance e.

Definition storage_read (e : HostEnvironment) (key : bytes) : option bytes := storage e !! key.
Definition storage_write (e : HostEnvironment) (key value : bytes) : HostEnvironment :=
  set_storage e (<[key := value]> (storage e)).
Definition storage_delete (e : HostEnvironment) (key : bytes) : HostEnvironment * bool :=
  (set_storage e (delete key (storage e)), bool_decide (is_Some (storage e !! key))).
Definition emit_event (e : HostEnvironment) (a : Address) (t : string) (d : bytes)
  : HostEnvironment := set_events e (events e ++ [mkContractEvent a t d]).
Definition take_events (e : HostEnvironment) : HostEnvironment * list ContractEvent :=
  (set_events e [], events e).

(** The values a node can put in an environment: fields at their width. *)
Definition env_ok (e : HostEnvironment) : Prop :=
  in_range 64 (block_height e) /\ in_range 64 (block_timestamp e)
  /\ in_range 64 (caller_balance e)
  /\ Forall byte_ok (caller_address e) /\ length (caller_address e) = 32%nat
  /\ (forall l, location e = Some l -> in_range 32 l.1 /\ in_range 32 l.2)
  /\ in_range 32 (nearby_peer_count e) /\ 0 <= presence_score e < 256
  /\ Forall (fun r => in_range 64 (value r)) (sensor_readings e)
  /\ map_Forall (fun _ v => Forall byte_ok v) (storage e).

End Host.
