(* ===== verification/WasmModule.v ===== *)
(** * gratia-vm: the WASM binary reader and module parser

    The first half of [crates/gratia-vm/src/interpreter.rs]: values, the cursor over a
    byte string, LEB128 integers, the section parser and the skipping of blocks.

    A read returns the value and the new position.  A slice or subtraction that would
    abort the process is the outcome [Panic]; a loop that runs out of its iteration
    bound is [Diverge], which the theorems exclude.  [usize] has 64 bits. *)

From stdpp Require Import base tactics strings pretty list.
From Stdlib Require Import ZArith Lia.
From S2P Require Import Prelude CoreTypes Gas.
Local Open Scope Z_scope.

Module Wasm.

(** ** Values *)

(** [x as iN]: the two's complement reading of the low [w] bits. *)
Definition signed (w x : Z) : Z :=
  let y := x mod 2 ^ w in if y <? 2 ^ (w - 1) then y else y - 2 ^ w.

Inductive Value := I32 (v : Z) | I64 (v : Z) | F32 (bits : Z) | F64 (bits : Z).
Inductive ValType := TI32 | TI64 | TF32 | TF64.

#[export] Instance ValType_eq_dec : EqDecision ValType.
Proof. solve_decision. Defined.
#[export] Instance Value_eq_dec : EqDecision Value.
Proof. solve_decision. Defined.

Definition type_name (v : Value) : string :=
  match v with I32 _ => "i32" | I64 _ => "i64" | F32 _ => "f32" | F64 _ => "f64" end.

Definition default_for_valtype (t : ValType) : Value :=
  match t with TI32 => I32 0 | TI64 => I64 0 | TF32 => F32 0 | TF64 => F64 0 end.

Inductive InterpError :=
| InvalidBytecode (msg : string)
| StackUnderflow
| TypeMismatch (expected got : string)
| UndefinedFunction (idx : Z)
| UndefinedGlobal (idx : Z)
| UndefinedLocal (idx : Z)
| DivisionByZero
| FunctionReturn
| Branch (depth : Z)
| Gas (e : Gas.GasError)
| HostError (msg : string).

Definition show_InterpError (e : InterpError) : string :=
  match e with
  | InvalidBytecode msg => "invalid bytecode: " +:+ msg
  | StackUnderflow => "stack underflow"
  | TypeMismatch expected got => "type mismatch: expected " +:+ expected +:+ ", got " +:+ got
  | UndefinedFunction idx => "undefined function index: " +:+ pretty idx
  | UndefinedGlobal idx => "undefined global index: " +:+ pretty idx
  | UndefinedLocal idx => "undefined local index: " +:+ pretty idx
  | DivisionByZero => "integer division by zero"
  | FunctionReturn => "function return (internal)"
  | Branch depth => "branch to depth " +:+ pretty depth +:+ " (internal)"
  | Gas e => "gas error: " +:+ Gas.show_GasError e
  | HostError msg => "host function error: " +:+ msg
  end.

(** ** Outcomes *)

Inductive exc (A : Type) :=
| Ret (a : A)
| Throw (e : InterpError)
| Panic
| Diverge.
Arguments Ret {A} a.
Arguments Throw {A} e.
Arguments Panic {A}.
Arguments Diverge {A}.

Definition ebind {A B} (m : exc A) (k : A -> exc B) : exc B :=
  match m with Ret a => k a | Throw e => Throw e | Panic => Panic | Diverge => Diverge end.

Notation "'let*' x := m 'in' k" := (ebind m (fun x => k))
  (at level 10, x pattern, m at level 100, k at level 200) : gratia_scope.

Definition as_i32 (v : Value) : exc Z :=
  match v with I32 x => Ret x | _ => Throw (TypeMismatch "i32" (type_name v)) end.
Definition as_i64 (v : Value) : exc Z :=
  match v with I64 x => Ret x | _ => Throw (TypeMismatch "i64" (type_name v)) end.
Definition as_f32 (v : Value) : exc Z :=
  match v with F32 x => Ret x | _ => Throw (TypeMismatch "f32" (type_name v)) end.
Definition as_f64 (v : Value) : exc Z :=
  match v with F64 x => Ret x | _ => Throw (TypeMismatch "f64" (type_name v)) end.

(** One byte as [{:02X}]. *)
Definition hex_digit (d : Z) : string :=
  nth (Z.to_nat d) ["0";"1";"2";"3";"4";"5";"6";"7";"8";"9";"A";"B";"C";"D";"E";"F"] "?".
Definition hex2 (b : Z) : string := hex_digit (b / 16) +:+ hex_digit (b mod 16).

Definition valtype_from_byte (b : Z) : exc ValType :=
  if b =? 0x7F then Ret TI32
  else if b =? 0x7E then Ret TI64
  else if b =? 0x7D then Ret TF32
  else if b =? 0x7C then Ret TF64
  else Throw (InvalidBytecode ("unknown value type: 0x" +:+ hex2 b)).

(** ** The module *)

Record FuncType := mkFuncType { params : list ValType; results : list ValType }.
Record Import := mkImport { imp_module : string; imp_name : string; imp_type_idx : Z }.
Record WasmFunction := mkWasmFunction { fn_type_idx : Z; fn_locals : list ValType; fn_code : bytes }.
Record WasmGlobal := mkWasmGlobal { g_valtype : ValType; g_mutable : bool; init_value : Value }.
Inductive ExportKind := EFunction | EMemory | EGlobal.

#[export] Instance ExportKind_eq_dec : EqDecision ExportKind.
Proof. solve_decision. Defined.

Record WasmExport := mkWasmExport { exp_name : string; exp_kind : ExportKind; exp_index : Z }.
Record DataSegment := mkDataSegment { seg_offset : Z; seg_data : bytes }.

Record WasmModule := mkWasmModule {
  types : list FuncType;
  imports : list Import;
  functions : list WasmFunction;
  globals : list WasmGlobal;
  exports : list WasmExport;
  import_func_count : Z;
  memory_min_pages : Z;
  data_segments : list DataSegment
}.

(** ** Reader *)

Definition blen (data : bytes) : Z := Z.of_nat (length data).

Definition remaining (data : bytes) (pos : Z) : Z := saturating_sub (blen data) pos.

Definition eof {A} : exc A := Throw (InvalidBytecode "unexpected end of data").

Definition read_byte (data : bytes) (pos : Z) : exc (Z * Z) :=
  if decide (pos >= blen data) then eof
  else match data !! Z.to_nat pos with
       | Some b => Ret (b, pos + 1)
       | None => Panic
       end.

(** [&data[start..end_]] *)
Definition slice (data : bytes) (start end_ : Z) : exc bytes :=
  if decide (start <= end_ <= blen data)
  then Ret (take (Z.to_nat (end_ - start)) (drop (Z.to_nat start) data))
  else Panic.

Definition read_bytes (n : Z) (data : bytes) (pos : Z) : exc (bytes * Z) :=
  if decide (wadd 64 pos n > blen data) then eof
  else let* s := slice data pos (wadd 64 pos n) in Ret (s, wadd 64 pos n).

(** [x << shift] of a 32- or 64-bit integer: the amount is taken modulo the width. *)
Definition shl (w x shift : Z) : Z := Z.shiftl x (shift mod w).

Fixpoint u32_loop (n : nat) (acc shift : Z) (data : bytes) (pos : Z) : exc (Z * Z) :=
  match n with
  | O => Diverge
  | S n =>
      let* (byte, pos) := read_byte data pos in
      let acc := Z.lor acc (wrap 32 (shl 32 (Z.land byte 0x7F) shift)) in
      if Z.land byte 0x80 =? 0 then Ret (acc, pos)
      else
        let shift := shift + 7 in
        if decide (shift > 35) then Throw (InvalidBytecode "LEB128 too long")
        else u32_loop n acc shift data pos
  end.

Definition read_u32_leb128 : bytes -> Z -> exc (Z * Z) := u32_loop 6 0 0.

(** The loop of the two signed readers: [w] is the width, [limit] the largest shift. *)
Fixpoint sleb_loop (w limit : Z) (n : nat) (acc shift : Z) (data : bytes) (pos : Z)
  : exc (Z * Z) :=
  match n with
  | O => Diverge
  | S n =>
      let* (byte, pos) := read_byte data pos in
      let acc := Z.lor acc (signed w (shl w (Z.land byte 0x7F) shift)) in
      let shift := shift + 7 in
      if Z.land byte 0x80 =? 0 then
        if (shift <? w) && negb (Z.land byte 0x40 =? 0)
        then Ret (Z.lor acc (signed w (Z.shiftl (-1) shift)), pos)
        else Ret (acc, pos)
      else if decide (shift > limit) then Throw (InvalidBytecode "LEB128 too long")
      else sleb_loop w limit n acc shift data pos
  end.

Definition read_i32_leb128 : bytes -> Z -> exc (Z * Z) := sleb_loop 32 35 6 0 0.
Definition read_i64_leb128 : bytes -> Z -> exc (Z * Z) := sleb_loop 64 70 11 0 0.

#[global] Arguments read_u32_leb128 : simpl never.
#[global] Arguments read_i32_leb128 : simpl never.
#[global] Arguments read_i64_leb128 : simpl never.

Definition read_f32 (data : bytes) (pos : Z) : exc (Z * Z) :=
  let* (b, pos) := read_bytes 4 data pos in Ret (of_le_bytes b, pos).
Definition read_f64 (data : bytes) (pos : Z) : exc (Z * Z) :=
  let* (b, pos) := read_bytes 8 data pos in Ret (of_le_bytes b, pos).

(** [String::from_utf8]: the byte ranges of well-formed UTF-8. *)
Definition between (lo hi b : Z) : bool := (lo <=? b) && (b <=? hi).
Definition cont (b : Z) : bool := between 0x80 0xBF b.

Fixpoint utf8_valid (l : bytes) : bool :=
  match l with
  | [] => true
  | b :: l1 =>
      if between 0x00 0x7F b then utf8_valid l1
      else match l1 with
      | [] => false
      | c :: l2 =>
          if between 0xC2 0xDF b then cont c && utf8_valid l2
          else match l2 with
          | [] => false
          | d :: l3 =>
              if b =? 0xE0 then between 0xA0 0xBF c && cont d && utf8_valid l3
              else if b =? 0xED then between 0x80 0x9F c && cont d && utf8_valid l3
              else if between 0xE1 0xEF b then cont c && cont d && utf8_valid l3
              else match l3 with
              | [] => false
              | e :: l4 =>
                  if b =? 0xF0 then between 0x90 0xBF c && cont d && cont e && utf8_valid l4
                  else if between 0xF1 0xF3 b then cont c && cont d && cont e && utf8_valid l4
                  else if b =? 0xF4 then between 0x80 0x8F c && cont d && cont e && utf8_valid l4
                  else false
              end
          end
      end
  end.

Definition string_of_bytes (l : bytes) : string :=
  String.string_of_list_ascii (map (fun b => Ascii.ascii_of_N (Z.to_N b)) l).

Definition from_utf8 (l : bytes) (e : InterpError) : exc string :=
  if utf8_valid l then Ret (string_of_bytes l) else Throw e.

Definition read_string (data : bytes) (pos : Z) : exc (string * Z) :=
  let* (len, pos) := read_u32_leb128 data pos in
  let* (b, pos) := read_bytes len data pos in
  let* s := from_utf8 b (InvalidBytecode "invalid UTF-8 in string") in
  Ret (s, pos).

(** ** Module parser *)

(** [for _ in 0..n { v.push(item()?) }] *)
Fixpoint read_vec {A} (item : bytes -> Z -> exc (A * Z)) (n : nat) (data : bytes) (pos : Z)
  : exc (list A * Z) :=
  match n with
  | O => Ret ([], pos)
  | S n =>
      let* (x, pos) := item data pos in
      let* (l, pos) := read_vec item n data pos in
      Ret (x :: l, pos)
  end.

(** A count and that many items. *)
Definition read_counted {A} (item : bytes -> Z -> exc (A * Z)) (data : bytes) (pos : Z)
  : exc (list A * Z) :=
  let* (count, pos) := read_u32_leb128 data pos in
  read_vec item (Z.to_nat count) data pos.

Definition parse_const_expr (t : ValType) (data : bytes) (pos : Z) : exc (Value * Z) :=
  let* (opcode, pos) := read_byte data pos in
  let finish (v : Value) (pos : Z) :=
    let* (end_, pos) := read_byte data pos in
    if end_ =? 0x0B then Ret (v, pos)
    else Throw (InvalidBytecode "expected END after const expression") in
  if opcode =? 0x41 then let* (v, pos) := read_i32_leb128 data pos in finish (I32 v) pos
  else if opcode =? 0x42 then let* (v, pos) := read_i64_leb128 data pos in finish (I64 v) pos
  else if opcode =? 0x43 then let* (v, pos) := read_f32 data pos in finish (F32 v) pos
  else if opcode =? 0x44 then let* (v, pos) := read_f64 data pos in finish (F64 v) pos
  else Ret (default_for_valtype t, pos).

Definition read_valtype (data : bytes) (pos : Z) : exc (ValType * Z) :=
  let* (b, pos) := read_byte data pos in
  let* t := valtype_from_byte b in Ret (t, pos).

(** One entry of the type, import, memory, global, export, code and data section. *)
Definition parse_type (data : bytes) (pos : Z) : exc (FuncType * Z) :=
  let* (marker, pos) := read_byte data pos in
  if marker =? 0x60 then
    let* (ps, pos) := read_counted read_valtype data pos in
    let* (rs, pos) := read_counted read_valtype data pos in
    Ret (mkFuncType ps rs, pos)
  else Throw (InvalidBytecode "expected func type marker 0x60").

Definition parse_import (data : bytes) (pos : Z) : exc (Import * Z) :=
  let* (m, pos) := read_string data pos in
  let* (n, pos) := read_string data pos in
  let* (kind, pos) := read_byte data pos in
  if kind =? 0x00 then
    let* (t, pos) := read_u32_leb128 data pos in Ret (mkImport m n t, pos)
  else Throw (InvalidBytecode ("unsupported import kind: 0x" +:+ hex2 kind
                                 +:+ " (only functions supported)")).

Definition parse_memory (data : bytes) (pos : Z) : exc (Z * Z) :=
  let* (flags, pos) := read_byte data pos in
  let* (min_pages, pos) := read_u32_leb128 data pos in
  if Z.land flags 0x01 =? 0 then Ret (min_pages, pos)
  else let* (_, pos) := read_u32_leb128 data pos in Ret (min_pages, pos).

Definition parse_global (data : bytes) (pos : Z) : exc (WasmGlobal * Z) :=
  let* (t, pos) := read_valtype data pos in
  let* (m, pos) := read_byte data pos in
  let* (v, pos) := parse_const_expr t data pos in
  Ret (mkWasmGlobal t (m =? 0x01) v, pos).

(** [None]: an export kind the parser skips. *)
Definition parse_export (data : bytes) (pos : Z) : exc (option WasmExport * Z) :=
  let* (n, pos) := read_string data pos in
  let* (k, pos) := read_byte data pos in
  let* (i, pos) := read_u32_leb128 data pos in
  let kind := if k =? 0x00 then Some EFunction else if k =? 0x02 then Some EMemory
              else if k =? 0x03 then Some EGlobal else None in
  Ret ((fun kd => mkWasmExport n kd i) <$> kind, pos).

Definition parse_locals (data : bytes) (pos : Z) : exc (list ValType * Z) :=
  let* (count, pos) := read_u32_leb128 data pos in
  let* (t, pos) := read_valtype data pos in
  Ret (replicate (Z.to_nat count) t, pos).

Definition parse_body (data : bytes) (pos : Z) : exc ((list ValType * bytes) * Z) :=
  let* (body_size, pos) := read_u32_leb128 data pos in
  let body_end := wadd 64 pos body_size in
  let* (locals, pos) := read_counted parse_locals data pos in
  let code_len := wsub 64 body_end pos in
  let* (code, pos) := read_bytes code_len data pos in
  Ret ((concat locals, code), pos).

Definition parse_data (data : bytes) (pos : Z) : exc (DataSegment * Z) :=
  let* (segment_flags, pos) := read_u32_leb128 data pos in
  let* (offset, pos) :=
    (if segment_flags =? 0 then
       let* (v, pos) := parse_const_expr TI32 data pos in
       Ret (match as_i32 v with Ret x => wrap 32 x | _ => 0 end, pos)
     else Ret (0, pos)) in
  let* (data_len, pos) := read_u32_leb128 data pos in
  let* (d, pos) := read_bytes data_len data pos in
  Ret (mkDataSegment offset d, pos).

(** The vectors [parse_module] fills. *)
Record sections := mkSections {
  s_types : list FuncType;
  s_imports : list Import;
  s_func_types : list Z;
  s_globals : list WasmGlobal;
  s_exports : list WasmExport;
  s_bodies : list (list ValType * bytes);
  s_min_pages : Z;
  s_data : list DataSegment
}.

Definition no_sections : sections := mkSections [] [] [] [] [] [] 0 [].

(** One arm of the section [match]: the new vectors. *)
Definition parse_section (id : Z) (a : sections) (data : bytes) (pos : Z) : exc sections :=
  let '(mkSections ty im ft gl ex bo mp da) := a in
  if id =? 1 then
    let* (l, _) := read_counted parse_type data pos in
    Ret (mkSections (ty ++ l) im ft gl ex bo mp da)
  else if id =? 2 then
    let* (l, _) := read_counted parse_import data pos in
    Ret (mkSections ty (im ++ l) ft gl ex bo mp da)
  else if id =? 3 then
    let* (l, _) := read_counted read_u32_leb128 data pos in
    Ret (mkSections ty im (ft ++ l) gl ex bo mp da)
  else if id =? 5 then
    let* (l, _) := read_counted parse_memory data pos in
    Ret (mkSections ty im ft gl ex bo (List.last l mp) da)
  else if id =? 6 then
    let* (l, _) := read_counted parse_global data pos in
    Ret (mkSections ty im ft (gl ++ l) ex bo mp da)
  else if id =? 7 then
    let* (l, _) := read_counted parse_export data pos in
    Ret (mkSections ty im ft gl (ex ++ omap (fun x => x) l) bo mp da)
  else if id =? 10 then
    let* (l, _) := read_counted parse_body data pos in
    Ret (mkSections ty im ft gl ex (bo ++ l) mp da)
  else if id =? 11 then
    let* (l, _) := read_counted parse_data data pos in
    Ret (mkSections ty im ft gl ex bo mp (da ++ l))
  else Ret a.

(** [while reader.remaining() > 0]: the next section starts at [section_end]. *)
Fixpoint parse_sections (n : nat) (a : sections) (data : bytes) (pos : Z) : exc sections :=
  if remaining data pos =? 0 then Ret a
  else match n with
  | O => Diverge
  | S n =>
      let* (id, pos) := read_byte data pos in
      let* (section_size, pos) := read_u32_leb128 data pos in
      let section_end := wadd 64 pos section_size in
      let* a := parse_section id a data pos in
      parse_sections n a data section_end
  end.

Definition build_module (a : sections) : WasmModule :=
  mkWasmModule (s_types a) (s_imports a)
    (zip_with (fun t b => mkWasmFunction t b.1 b.2) (s_func_types a) (s_bodies a))
    (s_globals a) (s_exports a) (wrap 32 (Z.of_nat (length (s_imports a))))
    (s_min_pages a) (s_data a).

Definition parse_module (bytecode : bytes) : exc WasmModule :=
  let* (magic, pos) := read_bytes 4 bytecode 0 in
  if decide (magic <> [0x00; 0x61; 0x73; 0x6D]) then Throw (InvalidBytecode "bad WASM magic")
  else
    let* (version, pos) := read_bytes 4 bytecode pos in
    if decide (version <> [0x01; 0x00; 0x00; 0x00])
    then Throw (InvalidBytecode "unsupported WASM version")
    else
      let* a := parse_sections (length bytecode) no_sections bytecode pos in
      Ret (build_module a).

(** ** Skipping blocks *)

(** The immediate operands of an instruction outside block structure. *)
Definition skip_immediate (op : Z) (data : bytes) (pos : Z) : exc Z :=
  if (op =? 0x0C) || (op =? 0x0D) || (op =? 0x10) || between 0x20 0x24 op then
    let* (_, pos) := read_u32_leb128 data pos in Ret pos
  else if between 0x28 0x2D op || between 0x36 0x3A op then
    let* (_, pos) := read_u32_leb128 data pos in
    let* (_, pos) := read_u32_leb128 data pos in Ret pos
  else if between 0x3F 0x40 op then let* (_, pos) := read_byte data pos in Ret pos
  else if op =? 0x41 then let* (_, pos) := read_i32_leb128 data pos in Ret pos
  else if op =? 0x42 then let* (_, pos) := read_i64_leb128 data pos in Ret pos
  else if op =? 0x43 then let* (_, pos) := read_bytes 4 data pos in Ret pos
  else if op =? 0x44 then let* (_, pos) := read_bytes 8 data pos in Ret pos
  else Ret pos.

(** The common loop of [skip_to_else_or_end] ([stop_else]) and [skip_to_end]. *)
Fixpoint skip_loop (n : nat) (stop_else : bool) (msg : string) (depth : Z)
    (data : bytes) (pos : Z) : exc Z :=
  if remaining data pos =? 0 then Throw (InvalidBytecode msg)
  else match n with
  | O => Diverge
  | S n =>
      let* (op, pos) := read_byte data pos in
      if between 0x02 0x04 op then
        let* (_, pos) := read_byte data pos in
        skip_loop n stop_else msg (wadd 32 depth 1) data pos
      else if stop_else && (op =? 0x05) && (depth =? 0) then Ret pos
      else if (op =? 0x0B) && (depth =? 0) then Ret pos
      else if op =? 0x0B then skip_loop n stop_else msg (wsub 32 depth 1) data pos
      else
        let* pos := skip_immediate op data pos in
        skip_loop n stop_else msg depth data pos
  end.

Definition skip_to_else_or_end (data : bytes) (pos : Z) : exc Z :=
  skip_loop (length data) true "unexpected end of block while skipping" 0 data pos.

Definition skip_to_end (data : bytes) (pos : Z) : exc Z :=
  skip_loop (length data) false "unexpected end of block while skipping to end" 0 data pos.

End Wasm.
