(* ===== verification/Interp.v ===== *)
(** * gratia-vm: the interpreter engine

    The second half of [crates/gratia-vm/src/interpreter.rs]: [execute_function],
    [execute_block], [dispatch_host_call].

    The interpreter mutates its arguments also when it fails, so a computation maps a
    state to a state and an outcome ([SM]).  The operand stack has its top at the head
    of the list.  [execute_block] and the [loop] of its 0x03 arm recurse on a fuel
    argument; [InterpTermination] shows how much is enough. *)

From stdpp Require Import base tactics strings pretty gmap list.
From Stdlib Require Import ZArith Lia.
From S2P Require Import Prelude CoreTypes Ieee Gas Sandbox HostFunctions WasmModule.
Local Open Scope Z_scope.

Module Interp.
Import Wasm.

(** ** Computations *)

Definition SM (S A : Type) : Type := S -> S * exc A.

Definition ret {S A} (a : A) : SM S A := fun s => (s, Ret a).
Definition throw {S A} (e : InterpError) : SM S A := fun s => (s, Throw e).
Definition bind {S A B} (m : SM S A) (k : A -> SM S B) : SM S B := fun s =>
  match m s with
  | (s', Ret a) => k a s'
  | (s', Throw e) => (s', Throw e)
  | (s', Panic) => (s', Panic)
  | (s', Diverge) => (s', Diverge)
  end.
Definition lift {S A} (x : exc A) : SM S A := fun s => (s, x).

Notation "'let!' x := m 'in' k" := (bind m (fun x => k))
  (at level 10, x pattern, m at level 100, k at level 200) : gratia_scope.

(** What function calls share: the globals, the linear memory, the meter and the host. *)
Record Shared := mkShared {
  globals : list Value;
  memory : bytes;
  gas_meter : Gas.GasMeter;
  host_env : Host.HostEnvironment
}.

(** The state of [execute_block]: the reader's position, the frame and the rest. *)
Record St := mkSt {
  pos : Z;
  stack : list Value;
  locals : list Value;
  shared : Shared
}.

Definition set_pos (s : St) (p : Z) : St := mkSt p (stack s) (locals s) (shared s).
Definition set_stack (s : St) (l : list Value) : St := mkSt (pos s) l (locals s) (shared s).
Definition set_locals (s : St) (l : list Value) : St := mkSt (pos s) (stack s) l (shared s).
Definition set_shared (s : St) (h : Shared) : St := mkSt (pos s) (stack s) (locals s) h.
Definition set_globals (h : Shared) (l : list Value) : Shared :=
  mkShared l (memory h) (gas_meter h) (host_env h).
Definition set_memory (h : Shared) (m : bytes) : Shared :=
  mkShared (globals h) m (gas_meter h) (host_env h).
Definition set_gas (h : Shared) (g : Gas.GasMeter) : Shared :=
  mkShared (globals h) (memory h) g (host_env h).
Definition set_env (h : Shared) (e : Host.HostEnvironment) : Shared :=
  mkShared (globals h) (memory h) (gas_meter h) e.

(** Run a computation on the shared part. *)
Definition in_shared {A} (m : SM Shared A) : SM St A := fun s =>
  let '(h, r) := m (shared s) in (set_shared s h, r).

(** Charge the meter; an error becomes [InterpError::Gas]. *)
Definition charge (f : Gas.GasMeter -> Gas.GasMeter * result Gas.GasError unit)
  : SM Shared unit := fun h =>
  let '(g, r) := f (gas_meter h) in
  (set_gas h g, match r with Ok _ => Ret tt | Err e => Throw (Gas e) end).

(** Read from the code at the reader's position. *)
Definition rd {A} (code : bytes) (f : bytes -> Z -> exc (A * Z)) : SM St A := fun s =>
  match f code (pos s) with
  | Ret (a, p) => (set_pos s p, Ret a)
  | Throw e => (s, Throw e)
  | Panic => (s, Panic)
  | Diverge => (s, Diverge)
  end.

Definition pop : SM St Value := fun s =>
  match stack s with
  | [] => (s, Throw StackUnderflow)
  | v :: l => (set_stack s l, Ret v)
  end.

Definition push (v : Value) : SM St unit := fun s => (set_stack s (v :: stack s), Ret tt).

Definition pop_i32 : SM St Z := let! v := pop in lift (as_i32 v).
Definition pop_i64 : SM St Z := let! v := pop in lift (as_i64 v).
Definition pop_f32 : SM St Z := let! v := pop in lift (as_f32 v).
Definition pop_f64 : SM St Z := let! v := pop in lift (as_f64 v).

Definition bool_i32 (b : bool) : Value := I32 (if b then 1 else 0).

(** The recurring shapes of the arms: two operands of one type, popped right to left. *)
Definition un {A} (get : SM St A) (f : A -> Value) : SM St unit :=
  let! a := get in push (f a).
Definition bin {A} (get : SM St A) (f : A -> A -> Value) : SM St unit :=
  let! b := get in let! a := get in push (f a b).

(** Integer division and remainder: an error on a zero divisor. *)
Definition div_op (get : SM St Z) (f : Z -> Z -> Value) : SM St unit :=
  let! b := get in let! a := get in
  if b =? 0 then throw DivisionByZero else push (f a b).

(** ** Linear memory *)

Definition PAGE : Z := 65536.

Definition mem_write (m : bytes) (addr : Z) (data : bytes) : exc bytes :=
  if decide (0 <= addr /\ addr + blen data <= blen m)
  then Ret (take (Z.to_nat addr) m ++ data ++ drop (Z.to_nat addr + length data) m)
  else Panic.

Definition resize (m : bytes) (n : Z) : bytes :=
  take (Z.to_nat n) (m ++ replicate (Z.to_nat n - length m) 0).

Definition oob {A} (addr : Z) : exc A :=
  Throw (HostError ("memory access out of bounds: " +:+ pretty addr)).

Definition effective_addr (base offset : Z) : exc Z :=
  match checked_add 64 (wrap 32 base) offset with
  | Some a => Ret a
  | None => Throw (HostError "memory address overflow")
  end.

Definition get_memory : SM St bytes := fun s => (s, Ret (memory (shared s))).
Definition put_memory (m : bytes) : SM St unit := fun s =>
  (set_shared s (set_memory (shared s) m), Ret tt).

(** The loads: alignment and offset immediates, the base address, [n] bytes. *)
Definition load (code : bytes) (n : Z) (f : bytes -> Value) : SM St unit :=
  let! _ := rd code read_u32_leb128 in
  let! offset := rd code read_u32_leb128 in
  let! base := pop_i32 in
  let! addr := lift (effective_addr base offset) in
  let! m := get_memory in
  if decide (wadd 64 addr n > blen m) then lift (oob addr)
  else let! b := lift (slice m addr (wadd 64 addr n)) in push (f b).

Definition store (code : bytes) (get : SM St Z) (f : Z -> bytes) : SM St unit :=
  let! _ := rd code read_u32_leb128 in
  let! offset := rd code read_u32_leb128 in
  let! v := get in
  let! base := pop_i32 in
  let! addr := lift (effective_addr base offset) in
  let! m := get_memory in
  if decide (wadd 64 addr (blen (f v)) > blen m) then lift (oob addr)
  else let! m := lift (mem_write m addr (f v)) in put_memory m.

Definition memory_size (code : bytes) : SM St unit :=
  let! _ := rd code read_byte in
  let! m := get_memory in push (I32 (signed 32 (blen m / PAGE))).

Definition memory_grow (code : bytes) : SM St unit :=
  let! _ := rd code read_byte in
  let! delta_raw := pop_i32 in
  let! m := get_memory in
  let current_pages := wrap 32 (blen m / PAGE) in
  if delta_raw <? 0 then push (I32 (-1))
  else
    let new_pages := default (max_val 32) (checked_add 32 current_pages (wrap 32 delta_raw)) in
    if decide (new_pages > 4096) then push (I32 (-1))
    else let! _ := put_memory (resize m (new_pages * PAGE)) in
         push (I32 (signed 32 current_pages)).

(** ** Variables *)

Definition local_get (code : bytes) : SM St unit :=
  let! idx := rd code read_u32_leb128 in
  fun s => match locals s !! Z.to_nat idx with
           | Some v => push v s
           | None => throw (UndefinedLocal idx) s
           end.

Definition local_set (code : bytes) : SM St unit :=
  let! idx := rd code read_u32_leb128 in
  let! v := pop in
  fun s => if decide (idx >= Z.of_nat (length (locals s))) then throw (UndefinedLocal idx) s
           else (set_locals s (<[Z.to_nat idx := v]> (locals s)), Ret tt).

Definition local_tee (code : bytes) : SM St unit :=
  let! idx := rd code read_u32_leb128 in
  fun s => match stack s with
           | [] => throw StackUnderflow s
           | v :: _ =>
               if decide (idx >= Z.of_nat (length (locals s))) then throw (UndefinedLocal idx) s
               else (set_locals s (<[Z.to_nat idx := v]> (locals s)), Ret tt)
           end.

Definition global_get (code : bytes) : SM St unit :=
  let! idx := rd code read_u32_leb128 in
  fun s => match globals (shared s) !! Z.to_nat idx with
           | Some v => push v s
           | None => throw (UndefinedGlobal idx) s
           end.

Definition global_set (code : bytes) : SM St unit :=
  let! idx := rd code read_u32_leb128 in
  let! v := pop in
  fun s => if decide (idx >= Z.of_nat (length (globals (shared s))))
           then throw (UndefinedGlobal idx) s
           else (set_shared s (set_globals (shared s)
                    (<[Z.to_nat idx := v]> (globals (shared s)))), Ret tt).

(** ** The arms without control flow *)

Definition i32op (f : Z -> Z -> Z) (a b : Z) : Value := I32 (signed 32 (f a b)).
Definition i64op (f : Z -> Z -> Z) (a b : Z) : Value := I64 (signed 64 (f a b)).
Definition rel (f : Z -> Z -> bool) (a b : Z) : Value := bool_i32 (f a b).

Definition structural_ops : list (Z * SM St unit) :=
  [ (0x01, ret tt);
    (0x1A, let! _ := pop in ret tt) ].

Definition variable_ops (code : bytes) : list (Z * SM St unit) :=
  [ (0x20, local_get code); (0x21, local_set code); (0x22, local_tee code);
    (0x23, global_get code); (0x24, global_set code) ].

Definition constant_ops (code : bytes) : list (Z * SM St unit) :=
  [ (0x41, let! v := rd code read_i32_leb128 in push (I32 v));
    (0x42, let! v := rd code read_i64_leb128 in push (I64 v));
    (0x43, let! v := rd code read_f32 in push (F32 v));
    (0x44, let! v := rd code read_f64 in push (F64 v)) ].

Definition i32_comparisons : list (Z * SM St unit) :=
  [ (0x45, un pop_i32 (fun a => bool_i32 (a =? 0)));
    (0x46, bin pop_i32 (rel Z.eqb)); (0x47, bin pop_i32 (rel (fun a b => negb (a =? b))));
    (0x48, bin pop_i32 (rel Z.ltb)); (0x4A, bin pop_i32 (rel Z.gtb));
    (0x4C, bin pop_i32 (rel Z.leb)); (0x4E, bin pop_i32 (rel Z.geb)) ].

Definition i64_comparisons : list (Z * SM St unit) :=
  [ (0x51, bin pop_i64 (rel Z.eqb)); (0x52, bin pop_i64 (rel (fun a b => negb (a =? b))));
    (0x53, bin pop_i64 (rel Z.ltb)); (0x55, bin pop_i64 (rel Z.gtb));
    (0x57, bin pop_i64 (rel Z.leb)); (0x59, bin pop_i64 (rel Z.geb)) ].

Definition f32_comparisons : list (Z * SM St unit) :=
  [ (0x5B, bin pop_f32 (rel (Ieee.feq Ieee.f32)));
    (0x5C, bin pop_f32 (rel (fun a b => negb (Ieee.feq Ieee.f32 a b))));
    (0x5D, bin pop_f32 (rel (Ieee.flt Ieee.f32))); (0x5E, bin pop_f32 (rel (fun a b => Ieee.flt Ieee.f32 b a)));
    (0x5F, bin pop_f32 (rel (Ieee.fle Ieee.f32))); (0x60, bin pop_f32 (rel (fun a b => Ieee.fle Ieee.f32 b a))) ].

Definition f64_comparisons : list (Z * SM St unit) :=
  [ (0x61, bin pop_f64 (rel (Ieee.feq Ieee.f64)));
    (0x62, bin pop_f64 (rel (fun a b => negb (Ieee.feq Ieee.f64 a b))));
    (0x63, bin pop_f64 (rel (Ieee.flt Ieee.f64))); (0x64, bin pop_f64 (rel (fun a b => Ieee.flt Ieee.f64 b a)));
    (0x65, bin pop_f64 (rel (Ieee.fle Ieee.f64))); (0x66, bin pop_f64 (rel (fun a b => Ieee.fle Ieee.f64 b a))) ].

Definition i32_arithmetic : list (Z * SM St unit) :=
  [ (0x6A, bin pop_i32 (i32op Z.add)); (0x6B, bin pop_i32 (i32op Z.sub));
    (0x6C, bin pop_i32 (i32op Z.mul));
    (0x6D, div_op pop_i32 (i32op Z.quot)); (0x6F, div_op pop_i32 (i32op Z.rem));
    (0x71, bin pop_i32 (i32op Z.land)); (0x72, bin pop_i32 (i32op Z.lor));
    (0x73, bin pop_i32 (i32op Z.lxor)) ].

Definition i64_arithmetic : list (Z * SM St unit) :=
  [ (0x7C, bin pop_i64 (i64op Z.add)); (0x7D, bin pop_i64 (i64op Z.sub));
    (0x7E, bin pop_i64 (i64op Z.mul));
    (0x7F, div_op pop_i64 (i64op Z.quot)); (0x81, div_op pop_i64 (i64op Z.rem)) ].

Definition f32_arithmetic : list (Z * SM St unit) :=
  [ (0x8C, un pop_f32 (fun a => F32 (Ieee.fneg Ieee.f32 a)));
    (0x92, bin pop_f32 (fun a b => F32 (Ieee.fadd Ieee.f32 a b)));
    (0x93, bin pop_f32 (fun a b => F32 (Ieee.fsub Ieee.f32 a b)));
    (0x94, bin pop_f32 (fun a b => F32 (Ieee.fmul Ieee.f32 a b)));
    (0x95, bin pop_f32 (fun a b => F32 (Ieee.fdiv Ieee.f32 a b))) ].

Definition f64_arithmetic : list (Z * SM St unit) :=
  [ (0x9A, un pop_f64 (fun a => F64 (Ieee.fneg Ieee.f64 a)));
    (0xA0, bin pop_f64 (fun a b => F64 (Ieee.fadd Ieee.f64 a b)));
    (0xA1, bin pop_f64 (fun a b => F64 (Ieee.fsub Ieee.f64 a b)));
    (0xA2, bin pop_f64 (fun a b => F64 (Ieee.fmul Ieee.f64 a b)));
    (0xA3, bin pop_f64 (fun a b => F64 (Ieee.fdiv Ieee.f64 a b))) ].

Definition memory_ops (code : bytes) : list (Z * SM St unit) :=
  [ (0x28, load code 4 (fun b => I32 (signed 32 (of_le_bytes b))));
    (0x29, load code 8 (fun b => I64 (signed 64 (of_le_bytes b))));
    (0x2A, load code 4 (fun b => F32 (of_le_bytes b)));
    (0x2B, load code 8 (fun b => F64 (of_le_bytes b)));
    (0x2C, load code 1 (fun b => I32 (signed 8 (of_le_bytes b))));
    (0x2D, load code 1 (fun b => I32 (of_le_bytes b)));
    (0x36, store code pop_i32 (fun v => le_bytes 4 (wrap 32 v)));
    (0x37, store code pop_i64 (fun v => le_bytes 8 (wrap 64 v)));
    (0x38, store code pop_f32 (fun v => le_bytes 4 v));
    (0x39, store code pop_f64 (fun v => le_bytes 8 v));
    (0x3A, store code pop_i32 (fun v => [wrap 8 v]));
    (0x3F, memory_size code); (0x40, memory_grow code) ].

Definition conversions : list (Z * SM St unit) :=
  [ (0xA7, un pop_i64 (fun v => I32 (signed 32 v)));
    (0xA8, un pop_f32 (fun v => I32 (Ieee.to_int Ieee.f32 (- 2 ^ 31) (2 ^ 31 - 1) v)));
    (0xA9, un pop_f32 (fun v => I32 (signed 32 (Ieee.to_int Ieee.f32 0 (2 ^ 32 - 1) v))));
    (0xAA, un pop_f64 (fun v => I32 (Ieee.to_int Ieee.f64 (- 2 ^ 31) (2 ^ 31 - 1) v)));
    (0xAB, un pop_f64 (fun v => I32 (signed 32 (Ieee.to_int Ieee.f64 0 (2 ^ 32 - 1) v))));
    (0xAC, un pop_i32 (fun v => I64 v));
    (0xAD, un pop_i32 (fun v => I64 (wrap 32 v)));
    (0xAE, un pop_f32 (fun v => I64 (Ieee.to_int Ieee.f32 (- 2 ^ 63) (2 ^ 63 - 1) v)));
    (0xB0, un pop_f64 (fun v => I64 (Ieee.to_int Ieee.f64 (- 2 ^ 63) (2 ^ 63 - 1) v)));
    (0xB2, un pop_i32 (fun v => F32 (Ieee.of_int Ieee.f32 v)));
    (0xB3, un pop_i32 (fun v => F32 (Ieee.of_int Ieee.f32 (wrap 32 v))));
    (0xB4, un pop_i64 (fun v => F32 (Ieee.of_int Ieee.f32 v)));
    (0xB6, un pop_f64 (fun v => F32 (Ieee.convert Ieee.f64 Ieee.f32 v)));
    (0xB7, un pop_i32 (fun v => F64 (Ieee.of_int Ieee.f64 v)));
    (0xB8, un pop_i32 (fun v => F64 (Ieee.of_int Ieee.f64 (wrap 32 v))));
    (0xB9, un pop_i64 (fun v => F64 (Ieee.of_int Ieee.f64 v)));
    (0xBB, un pop_f32 (fun v => F64 (Ieee.convert Ieee.f32 Ieee.f64 v)));
    (0xBC, un pop_f32 (fun v => I32 (signed 32 v)));
    (0xBD, un pop_f64 (fun v => I64 (signed 64 v)));
    (0xBE, un pop_i32 (fun v => F32 (wrap 32 v)));
    (0xBF, un pop_i64 (fun v => F64 (wrap 64 v))) ].

Definition plain_ops (code : bytes) : list (Z * SM St unit) :=
  structural_ops ++ variable_ops code ++ constant_ops code
  ++ i32_comparisons ++ i64_comparisons ++ f32_comparisons ++ f64_comparisons
  ++ i32_arithmetic ++ i64_arithmetic ++ f32_arithmetic ++ f64_arithmetic
  ++ memory_ops code ++ conversions.

Fixpoint find_op (op : Z) (l : list (Z * SM St unit)) : option (SM St unit) :=
  match l with
  | [] => None
  | (k, m) :: l => if k =? op then Some m else find_op op l
  end.

Definition exec_plain (code : bytes) (op : Z) : SM St unit :=
  match find_op op (plain_ops code) with
  | Some m => m
  | None => throw (InvalidBytecode ("unsupported opcode: 0x" +:+ hex2 op))
  end.

(** ** Gas of an instruction *)

Inductive gas_class := GDivision | GBranch | GFree | GMemory | GArithmetic.

Definition class_of (op : Z) : gas_class :=
  if bool_decide (op ∈ [0x6D; 0x6F; 0x7F; 0x81; 0x95; 0xA3]) then GDivision
  else if bool_decide (op ∈ [0x02; 0x03; 0x04; 0x0C; 0x0D]) then GBranch
  else if bool_decide (op ∈ [0x0B; 0x01; 0x1A]) then GFree
  else if between 0x28 0x2D op || between 0x36 0x3A op then GMemory
  else if bool_decide (op ∈ [0x3F; 0x40]) then GBranch
  else GArithmetic.

Definition charge_opcode (op : Z) : SM St unit :=
  match class_of op with
  | GDivision => in_shared (charge Gas.charge_division)
  | GBranch => in_shared (charge Gas.charge_branch)
  | GFree => ret tt
  | GMemory | GArithmetic => in_shared (charge Gas.charge_arithmetic)
  end.

(** ** Host calls *)

Definition get_env : SM Shared Host.HostEnvironment := fun h => (h, Ret (host_env h)).
Definition put_env (e : Host.HostEnvironment) : SM Shared unit := fun h => (set_env h e, Ret tt).
Definition get_mem : SM Shared bytes := fun h => (h, Ret (memory h)).
Definition put_mem (m : bytes) : SM Shared unit := fun h => (set_memory h m, Ret tt).

(** [args.get(i).map(|v| v.as_i32().unwrap_or(0)).unwrap_or(0)] *)
Definition arg_i32 (args : list Value) (i : nat) : Z :=
  match args !! i with
  | Some v => match as_i32 v with Ret x => x | _ => 0 end
  | None => 0
  end.

Definition read_string_from_memory (m : bytes) (ptr len : Z) : exc string :=
  if decide (ptr + len > blen m) then
    Throw (HostError ("string read out of bounds: ptr=" +:+ pretty ptr +:+ ", len=" +:+ pretty len
                        +:+ ", mem_size=" +:+ pretty (blen m)))
  else let* b := slice m ptr (ptr + len) in
       from_utf8 b (HostError "invalid UTF-8 in string from memory").

(** The key of a storage access: at most 32 bytes of memory, padded with zeros. *)
Definition storage_key (m : bytes) (key_ptr key_len : Z) : exc bytes :=
  let n := Z.min key_len 32 in
  let* b := slice m key_ptr (key_ptr + n) in
  Ret (b ++ replicate (32 - length b) 0).

Definition sensor_of (i : Z) : option Host.SensorType :=
  if i =? 0 then Some Host.Barometer
  else if i =? 1 then Some Host.AmbientLight
  else if i =? 2 then Some Host.Magnetometer
  else if i =? 3 then Some Host.Accelerometer
  else if i =? 4 then Some Host.Gyroscope
  else None.

Definition host_storage_read (args : list Value) : SM Shared (option Value) :=
  let key_ptr := wrap 32 (arg_i32 args 0) in
  let key_len := wrap 32 (arg_i32 args 1) in
  let! m := get_mem in
  if decide (key_ptr + Z.min key_len 32 > blen m) then ret (Some (I32 0))
  else
    let! key := lift (storage_key m key_ptr key_len) in
    let! e := get_env in
    match Host.storage_read e key with
    | Some value =>
        let val_len := blen value in
        if decide (1024 + 4 + val_len <= blen m) then
          let! m := lift (mem_write m 1024 (le_bytes 4 (wrap 32 val_len))) in
          let! m := lift (mem_write m (1024 + 4) value) in
          let! _ := put_mem m in ret (Some (I32 1024))
        else ret (Some (I32 0))
    | None => ret (Some (I32 0))
    end.

Definition host_storage_write (args : list Value) : SM Shared (option Value) :=
  let key_ptr := wrap 32 (arg_i32 args 0) in
  let key_len := wrap 32 (arg_i32 args 1) in
  let val_ptr := wrap 32 (arg_i32 args 2) in
  let val_len := wrap 32 (arg_i32 args 3) in
  let! m := get_mem in
  if decide (key_ptr + Z.min key_len 32 > blen m)
  then throw (HostError "storage_write: key out of bounds")
  else
    let! key := lift (storage_key m key_ptr key_len) in
    if decide (val_ptr + val_len > blen m)
    then throw (HostError "storage_write: value out of bounds")
    else
      let! value := lift (slice m val_ptr (val_ptr + val_len)) in
      let! e := get_env in
      let! _ := put_env (Host.storage_write e key value) in ret None.

Definition host_emit_event (args : list Value) : SM Shared (option Value) :=
  let topic_ptr := wrap 32 (arg_i32 args 0) in
  let topic_len := wrap 32 (arg_i32 args 1) in
  let data_ptr := wrap 32 (arg_i32 args 2) in
  let data_len := wrap 32 (arg_i32 args 3) in
  let! m := get_mem in
  let! topic := lift (read_string_from_memory m topic_ptr topic_len) in
  if decide (data_ptr + data_len > blen m) then throw (HostError "emit_event: data out of bounds")
  else
    let! data := lift (slice m data_ptr (data_ptr + data_len)) in
    let! e := get_env in
    let! _ := put_env (Host.emit_event e (replicate 32 0) topic data) in ret None.

Definition host_caller_address : SM Shared (option Value) :=
  let! e := get_env in
  let! m := get_mem in
  if decide (32 <= blen m) then
    let! m := lift (mem_write m 0 (Host.get_caller_address e)) in
    let! _ := put_mem m in ret (Some (I32 0))
  else ret (Some (I32 0)).

Definition host_call (name : string) (args : list Value) : SM Shared (option Value) :=
  if decide (name = "get_location_lat") then
    let! e := get_env in ret (Some (F32 (default 0 (fst <$> Host.get_location e))))
  else if decide (name = "get_location_lon") then
    let! e := get_env in ret (Some (F32 (default 0 (snd <$> Host.get_location e))))
  else if decide (name = "get_nearby_peers") then
    let! e := get_env in ret (Some (I32 (signed 32 (Host.get_nearby_peers e))))
  else if decide (name = "get_presence_score") then
    let! e := get_env in ret (Some (I32 (Host.get_presence_score e)))
  else if decide (name = "get_sensor_data") then
    match sensor_of (arg_i32 args 0) with
    | None => ret (Some (F64 0))
    | Some t =>
        let! e := get_env in
        ret (Some (F64 (default 0 (Host.value <$> Host.get_sensor_data e t))))
    end
  else if decide (name = "get_block_height") then
    let! e := get_env in ret (Some (I64 (signed 64 (Host.get_block_height e))))
  else if decide (name = "get_block_timestamp") then
    let! e := get_env in ret (Some (I64 (signed 64 (Host.get_block_timestamp e))))
  else if decide (name = "get_caller_address") then host_caller_address
  else if decide (name = "get_caller_balance") then
    let! e := get_env in ret (Some (I64 (signed 64 (Host.get_caller_balance e))))
  else if decide (name = "storage_read") then host_storage_read args
  else if decide (name = "storage_write") then host_storage_write args
  else if decide (name = "emit_event") then host_emit_event args
  else ret None.

Definition check_perm (p : Sandbox.ContractPermissions) (name : string) : SM Shared unit :=
  match Sandbox.check_permission p name with
  | Ok _ => ret tt
  | Err e => throw (HostError (Sandbox.show_SandboxError e))
  end.

Definition dispatch_host_call (m : WasmModule) (perms : Sandbox.ContractPermissions)
    (func_idx : Z) (args : list Value) : SM Shared (option Value) :=
  match imports m !! Z.to_nat func_idx with
  | None => lift Panic
  | Some imp =>
      let! _ := charge (fun g => Gas.charge_host_call g (imp_name imp)) in
      let! _ := check_perm perms (imp_name imp) in
      host_call (imp_name imp) args
  end.

(** ** Functions and blocks *)

Definition MAX_CALL_DEPTH : Z := 32.

Definition initial_locals (t : FuncType) (f : WasmFunction) (args : list Value) : list Value :=
  imap (fun i p => default (default_for_valtype p) (args !! i)) (params t)
    ++ map default_for_valtype (fn_locals f).

(** What [execute_function] makes of the outcome of the body. *)
Definition function_result (t : FuncType) (st : list Value) (r : exc unit)
  : exc (option Value) :=
  match r with
  | Ret _ | Throw FunctionReturn | Throw (Branch _) =>
      match results t with
      | [] => Ret None
      | rt :: _ => Ret (Some (default (default_for_valtype rt) (head st)))
      end
  | Throw e => Throw e
  | Panic => Panic
  | Diverge => Diverge
  end.

(** [execute_function], with [blk] for [execute_block] (call depth, then code). *)
Definition function_with (blk : Z -> bytes -> SM St unit) (m : WasmModule)
    (perms : Sandbox.ContractPermissions) (func_idx : Z) (args : list Value) (call_depth : Z)
  : SM Shared (option Value) :=
  if decide (call_depth > MAX_CALL_DEPTH) then throw (HostError "call depth exceeded")
  else if decide (func_idx < import_func_count m) then dispatch_host_call m perms func_idx args
  else
    match functions m !! Z.to_nat (func_idx - import_func_count m) with
    | None => throw (UndefinedFunction func_idx)
    | Some f =>
        match types m !! Z.to_nat (fn_type_idx f) with
        | None => throw (UndefinedFunction func_idx)
        | Some t => fun h =>
            let '(s, r) := blk call_depth (fn_code f) (mkSt 0 [] (initial_locals t f args) h) in
            (shared s, function_result t (stack s) r)
        end
    end.

(** The type of the function a [call] refers to. *)
Definition callee_type (m : WasmModule) (func_idx : Z) : exc FuncType :=
  let* type_idx :=
    (if decide (func_idx < import_func_count m) then
       match imports m !! Z.to_nat func_idx with
       | Some i => Ret (imp_type_idx i)
       | None => Panic
       end
     else
       match functions m !! Z.to_nat (func_idx - import_func_count m) with
       | Some f => Ret (fn_type_idx f)
       | None => Throw (UndefinedFunction func_idx)
       end) in
  match types m !! Z.to_nat type_idx with
  | Some t => Ret t
  | None => Throw (UndefinedFunction func_idx)
  end.

(** [stack.split_off(stack.len() - n)]: the arguments in the order they were pushed. *)
Definition split_args (n : nat) : SM St (list Value) := fun s =>
  if decide (length (stack s) < n)%nat then (s, Throw StackUnderflow)
  else (set_stack s (drop n (stack s)), Ret (rev (take n (stack s)))).

Definition skip (code : bytes) (f : bytes -> Z -> exc Z) : SM St unit :=
  rd code (fun d p => let* p := f d p in Ret (tt, p)).

(** Run the body of a block or an [if] branch and catch the branches aimed at it. *)
Definition in_block (code : bytes) (body : SM St unit) : SM St unit := fun s =>
  match body s with
  | (s, Throw (Branch n)) =>
      if n =? 0 then skip code skip_to_end s
      else (let! _ := skip code skip_to_end in throw (Branch (n - 1))) s
  | r => r
  end.

(** The byte before the reader's position: whether [skip_to_else_or_end] met an else. *)
Definition at_else (code : bytes) : SM St bool := fun s =>
  if decide (pos s > 0) then
    match code !! Z.to_nat (pos s - 1) with
    | Some b => (s, Ret (b =? 0x05))
    | None => (s, Panic)
    end
  else (s, Ret false).

Definition get_pos : SM St Z := fun s => (s, Ret (pos s)).

Fixpoint execute_block (fuel : nat) (m : WasmModule) (perms : Sandbox.ContractPermissions)
    (call_depth : Z) (code : bytes) {struct fuel} : SM St unit :=
  match fuel with
  | O => lift Diverge
  | S fuel => fun s0 =>
      if remaining code (pos s0) =? 0 then (s0, Ret tt)
      else
      (let next := execute_block fuel m perms call_depth code in
       let! opcode := rd code read_byte in
       let! _ := charge_opcode opcode in
       if opcode =? 0x00 then throw (HostError "unreachable executed")
       else if opcode =? 0x02 then
         let! _ := rd code read_byte in
         let! _ := in_block code next in next
       else if opcode =? 0x03 then
         let! _ := rd code read_byte in
         let! loop_start := get_pos in
         let! _ := execute_loop fuel m perms call_depth code loop_start in next
       else if opcode =? 0x04 then
         let! _ := rd code read_byte in
         let! condition := pop_i32 in
         if negb (condition =? 0) then
           let! _ := in_block code next in next
         else
           let! _ := skip code skip_to_else_or_end in
           let! e := at_else code in
           if e : bool then let! _ := in_block code next in next else next
       else if opcode =? 0x05 then skip code skip_to_end
       else if opcode =? 0x0B then ret tt
       else if opcode =? 0x0C then
         let! depth := rd code read_u32_leb128 in throw (Branch depth)
       else if opcode =? 0x0D then
         let! depth := rd code read_u32_leb128 in
         let! condition := pop_i32 in
         if negb (condition =? 0) then throw (Branch depth) else next
       else if opcode =? 0x0F then throw FunctionReturn
       else if opcode =? 0x10 then
         let! func_idx := rd code read_u32_leb128 in
         let! t := lift (callee_type m func_idx) in
         let! args := split_args (length (params t)) in
         let! r := in_shared (function_with (execute_block fuel m perms) m perms func_idx args
                                (wadd 32 call_depth 1)) in
         let! _ := match r with Some v => push v | None => ret tt end in next
       else
         let! _ := exec_plain code opcode in next) s0
  end
with execute_loop (fuel : nat) (m : WasmModule) (perms : Sandbox.ContractPermissions)
    (call_depth : Z) (code : bytes) (loop_start : Z) {struct fuel} : SM St unit :=
  match fuel with
  | O => lift Diverge
  | S fuel => fun s0 =>
      match execute_block fuel m perms call_depth code (set_pos s0 loop_start) with
      | (s, Throw (Branch n)) =>
          if n =? 0 then execute_loop fuel m perms call_depth code loop_start s
          else (let! _ := skip code skip_to_end in throw (Branch (n - 1))) s
      | r => r
      end
  end.

Definition execute_function (fuel : nat) (m : WasmModule) (perms : Sandbox.ContractPermissions)
    (func_idx : Z) (args : list Value) (call_depth : Z) : SM Shared (option Value) :=
  function_with (execute_block fuel m perms) m perms func_idx args call_depth.

End Interp.
