(* ===== verification/InterpSafety.v ===== *)
(** * gratia-vm: safety of the interpreter

    Well-formed values, modules and states; every computation of the interpreter keeps
    the state well-formed, never decreases the gas used, never shrinks the memory, never
    aborts the process, and ends for want of fuel only below the bound of
    [InterpTermination].  [reads] specifies a reader, [leaf] a computation without
    control flow, [runs] a block. *)

From stdpp Require Import base tactics strings pretty gmap list.
From Stdlib Require Import ZArith Lia.
From S2P Require Import Prelude CoreTypes Ieee Gas Sandbox HostFunctions WasmModule Interp.
Local Open Scope Z_scope.

Module InterpSafety.
Import Wasm Interp.

(** ** Ranges *)

Definition sint (w x : Z) : Prop := - 2 ^ (w - 1) <= x < 2 ^ (w - 1).

Definition value_ok (v : Value) : Prop :=
  match v with
  | I32 x => sint 32 x
  | I64 x => sint 64 x
  | F32 b => in_range 32 b
  | F64 b => in_range 64 b
  end.

Lemma signed_range w x : 0 < w -> sint w (signed w x).
Proof.
  intros Hw. unfold sint, signed. pose proof (Z.mod_pos_bound x (2 ^ w)).
  assert (2 ^ w = 2 * 2 ^ (w - 1)) by (rewrite <-Z.pow_succ_r by lia; f_equal; lia).
  assert (0 < 2 ^ (w - 1)) by (apply Z.pow_pos_nonneg; lia).
  destruct (Z.ltb_spec (x mod 2 ^ w) (2 ^ (w - 1))); lia.
Qed.

(** A number has [n] significant bits when shifting them out leaves only the sign. *)
Lemma sint_shiftr w x : 0 < w -> sint w x <-> Z.shiftr x (w - 1) = 0 \/ Z.shiftr x (w - 1) = -1.
Proof.
  intros Hw. unfold sint. rewrite Z.shiftr_div_pow2 by lia.
  assert (0 < 2 ^ (w - 1)) by (apply Z.pow_pos_nonneg; lia).
  pose proof (Z.div_mod x (2 ^ (w - 1))). pose proof (Z.mod_pos_bound x (2 ^ (w - 1))).
  set (q := x / 2 ^ (w - 1)) in *. nia.
Qed.

Lemma lor_sint w a b : 0 < w -> sint w a -> sint w b -> sint w (Z.lor a b).
Proof.
  intros Hw. rewrite !sint_shiftr, Z.shiftr_lor by done.
  intros [-> | ->] [-> | ->]; auto.
Qed.

Lemma in_range_shiftr w x : 0 <= w -> 0 <= x -> in_range w x <-> Z.shiftr x w = 0.
Proof.
  intros Hw Hx. unfold in_range. rewrite Z.shiftr_div_pow2 by lia.
  assert (0 < 2 ^ w) by (apply Z.pow_pos_nonneg; lia).
  rewrite Z.div_small_iff by lia. lia.
Qed.

Lemma lor_in_range w a b : 0 <= w -> in_range w a -> in_range w b -> in_range w (Z.lor a b).
Proof.
  intros Hw Ha Hb. assert (0 <= a /\ 0 <= b) as [] by (unfold in_range in *; lia).
  rewrite in_range_shiftr in * by (try apply Z.lor_nonneg; lia).
  by rewrite Z.shiftr_lor, Ha, Hb.
Qed.

Lemma default_value_ok t : value_ok (default_for_valtype t).
Proof. destruct t; cbn; unfold sint, in_range; lia. Qed.

(** ** Readers *)

(** Errors that are neither a branch or a return in disguise nor a gas error. *)
Definition plain (e : InterpError) : Prop :=
  match e with Branch _ | FunctionReturn | Gas _ => False | _ => True end.

Definition data_ok (d : bytes) : Prop := Forall byte_ok d /\ blen d < 2 ^ 63.

Definition read_post {A} (P : A -> Prop) (d : bytes) (p : Z) (r : exc (A * Z)) : Prop :=
  match r with
  | Ret (a, p') => P a /\ p <= p' <= blen d
  | Throw e => plain e
  | _ => False
  end.

Definition reads {A} (f : bytes -> Z -> exc (A * Z)) (P : A -> Prop) : Prop :=
  forall d p, data_ok d -> 0 <= p <= blen d -> read_post P d p (f d p).

Lemma byte_advance d p :
  data_ok d -> 0 <= p <= blen d ->
  match read_byte d p with
  | Ret (b, p') => byte_ok b /\ p' = p + 1 /\ p' <= blen d
  | Throw e => plain e
  | _ => False
  end.
Proof.
  intros [Hd _] Hp. unfold read_byte. case_decide; [done|].
  destruct (d !! Z.to_nat p) as [b|] eqn:E.
  - split_and!; [|done|unfold blen in *; lia]. rewrite Forall_lookup in Hd. eauto.
  - apply lookup_ge_None in E. unfold blen in *. lia.
Qed.

Lemma read_byte_reads : reads read_byte byte_ok.
Proof.
  intros d p Hd Hp. pose proof (byte_advance d p Hd Hp) as Hb. unfold read_post.
  destruct (read_byte d p) as [[b p']|e| |]; try done. destruct Hb as (? & -> & ?). split; [done|lia].
Qed.

Lemma read_bind {A B} (f : bytes -> Z -> exc (A * Z)) (k : A -> Z -> exc (B * Z)) P Q d p :
  reads f P -> data_ok d -> 0 <= p <= blen d ->
  (forall a p', P a -> p <= p' <= blen d -> read_post Q d p' (k a p')) ->
  read_post Q d p (ebind (f d p) (fun '(a, p') => k a p')).
Proof.
  intros Hf Hd Hp Hk. pose proof (Hf d p Hd Hp) as H. unfold read_post in *.
  destruct (f d p) as [[a p']|e| |]; try done. simpl. destruct H as [Ha Hp'].
  specialize (Hk a p' Ha Hp'). destruct (k a p') as [[b p'']|e| |]; try done.
  destruct Hk. split; [done|lia].
Qed.

Lemma u32_loop_reads n acc shift :
  in_range 32 acc -> 0 <= shift -> 42 <= shift + 7 * Z.of_nat n ->
  (n <> 0)%nat -> reads (u32_loop n acc shift) (in_range 32).
Proof.
  revert acc shift. induction n as [|n IH]; [done|]. intros acc shift Ha Hs Hn _ d p Hd Hp.
  cbn [u32_loop]. apply read_bind with (P := byte_ok); [apply read_byte_reads|done..|].
  intros b p' Hb Hp'. set (acc' := Z.lor acc _).
  assert (in_range 32 acc') by (apply lor_in_range; [lia|done|]; apply wrap_range; lia).
  destruct (Z.eqb_spec (Z.land b 128) 0); [split; [done|lia]|].
  case_decide; [done|]. apply IH; try done; lia.
Qed.

Lemma read_u32_reads : reads read_u32_leb128 (in_range 32).
Proof. apply u32_loop_reads; unfold in_range; lia. Qed.

Lemma sleb_loop_reads w lim n acc shift :
  0 < w -> sint w acc -> 0 <= shift -> lim < shift + 7 * Z.of_nat n -> (n <> 0)%nat ->
  reads (sleb_loop w lim n acc shift) (sint w).
Proof.
  intros Hw. revert acc shift. induction n as [|n IH]; [done|].
  intros acc shift Ha Hs Hn _ d p Hd Hp. cbn [sleb_loop].
  apply read_bind with (P := byte_ok); [apply read_byte_reads|done..|].
  intros b p' Hb Hp'. set (acc' := Z.lor acc _).
  assert (sint w acc') by (apply lor_sint; auto using signed_range).
  destruct (Z.eqb_spec (Z.land b 128) 0).
  - destruct (_ && _); (split; [|lia]); [|done].
    apply lor_sint; auto using signed_range.
  - case_decide; [done|]. apply IH; try done; lia.
Qed.

Lemma read_i32_reads : reads read_i32_leb128 (sint 32).
Proof. apply sleb_loop_reads; unfold sint; lia. Qed.

Lemma read_i64_reads : reads read_i64_leb128 (sint 64).
Proof. apply sleb_loop_reads; unfold sint; lia. Qed.

Lemma slice_ok d a b :
  0 <= a -> a <= b <= blen d -> Forall byte_ok d ->
  exists s, slice d a b = Ret s /\ Forall byte_ok s /\ blen s = b - a.
Proof.
  intros Ha Hb Hd. unfold slice. case_decide; [|lia]. eexists. split; [done|]. split.
  - by apply Forall_take, Forall_drop.
  - unfold blen in *. rewrite length_take, length_drop. lia.
Qed.

Lemma read_bytes_reads n :
  0 <= n < 2 ^ 63 -> reads (read_bytes n) (fun b => Forall byte_ok b /\ blen b = n).
Proof.
  intros Hn d p [Hd Hl] Hp. unfold read_bytes. rewrite wadd_small by (unfold in_range; lia).
  case_decide; [done|]. destruct (slice_ok d p (p + n)) as (s & -> & ? & ?); [lia..|done|].
  cbn. split; [split; [done|lia]|lia].
Qed.

Lemma read_f32_reads : reads read_f32 (in_range 32).
Proof.
  intros d p Hd Hp. unfold read_f32.
  apply read_bind with (P := fun b => Forall byte_ok b /\ blen b = 4);
    [by apply read_bytes_reads|done..|].
  intros b p' [Hb Hl] Hp'. split; [|lia]. pose proof (of_le_bytes_range b Hb).
  unfold blen in Hl. rewrite Hl in *. done.
Qed.

Lemma read_f64_reads : reads read_f64 (in_range 64).
Proof.
  intros d p Hd Hp. unfold read_f64.
  apply read_bind with (P := fun b => Forall byte_ok b /\ blen b = 8);
    [by apply read_bytes_reads|done..|].
  intros b p' [Hb Hl] Hp'. split; [|lia]. pose proof (of_le_bytes_range b Hb).
  unfold blen in Hl. rewrite Hl in *. done.
Qed.

(** ** Skipping *)

Definition skip_post (d : bytes) (p : Z) (r : exc Z) : Prop :=
  match r with
  | Ret p' => p <= p' <= blen d
  | Throw e => plain e
  | _ => False
  end.

Lemma skip_bind {A} (f : bytes -> Z -> exc (A * Z)) (k : A -> Z -> exc Z) P d p :
  reads f P -> data_ok d -> 0 <= p <= blen d ->
  (forall a p', P a -> p <= p' <= blen d -> skip_post d p' (k a p')) ->
  skip_post d p (ebind (f d p) (fun '(a, p') => k a p')).
Proof.
  intros Hf Hd Hp Hk. pose proof (Hf d p Hd Hp) as H. unfold read_post in H. unfold skip_post in *.
  destruct (f d p) as [[a p']|e| |]; try done. simpl. destruct H as [Ha Hp'].
  specialize (Hk a p' Ha Hp'). destruct (k a p') as [?|e| |]; try done. lia.
Qed.

Lemma skip_read {A} (f : bytes -> Z -> exc (A * Z)) P d p :
  reads f P -> data_ok d -> 0 <= p <= blen d ->
  skip_post d p (ebind (f d p) (fun '(_, p') => Ret p')).
Proof.
  intros Hf Hd Hp. apply (skip_bind f (fun _ p' => Ret p') P); [done..|]. intros. simpl. lia.
Qed.

Lemma skip_immediate_ok op d p :
  data_ok d -> 0 <= p <= blen d -> skip_post d p (skip_immediate op d p).
Proof.
  intros Hd Hp. unfold skip_immediate.
  repeat case_match; try (simpl; lia);
    try (eapply skip_read; [|done|done]; first
      [ apply read_u32_reads | apply read_byte_reads | apply read_i32_reads
      | apply read_i64_reads | by apply read_bytes_reads ]).
  apply (skip_bind read_u32_leb128 (fun _ p => ebind (read_u32_leb128 d p) (fun '(_, p) => Ret p))
           (in_range 32)); [apply read_u32_reads|done..|].
  intros a p' _ Hp'. apply (skip_read _ (in_range 32)); [apply read_u32_reads|done|lia].
Qed.

(** The skipping loop stops: every round reads at least one byte. *)
Lemma skip_loop_ok n st msg depth d p :
  data_ok d -> 0 <= p <= blen d -> blen d - p <= Z.of_nat n ->
  skip_post d p (skip_loop n st msg depth d p).
Proof.
  intros Hd. revert depth p. induction n as [|n IH]; intros depth p Hp Hn; cbn [skip_loop];
    unfold remaining, saturating_sub.
  - destruct (Z.eqb_spec (Z.max 0 (blen d - p)) 0); [done|lia].
  - destruct (Z.eqb_spec (Z.max 0 (blen d - p)) 0); [done|].
    pose proof (byte_advance d p Hd Hp) as Hb.
    destruct (read_byte d p) as [[op p1]|e| |]; try done. destruct Hb as (_ & -> & Hp1). simpl.
    assert (forall r, skip_post d (p + 1) r -> skip_post d p r) as Hweak
      by (intros [?|?| |]; simpl; try done; lia).
    apply Hweak. destruct (between 2 4 op).
    + apply (skip_bind read_byte (fun _ p => skip_loop n st msg (wadd 32 depth 1) d p) byte_ok);
        [apply read_byte_reads|done|lia|]. intros a p' _ Hp'. apply IH; lia.
    + repeat (destruct (_ && _); [simpl; lia|]). destruct (op =? 11); [apply IH; lia|].
      pose proof (skip_immediate_ok op d (p + 1) Hd ltac:(lia)) as Hi.
      destruct (skip_immediate op d (p + 1)) as [p'|e| |]; try done. simpl in *.
      assert (forall r, skip_post d p' r -> skip_post d (p + 1) r) as Hw
        by (intros [?|?| |]; simpl; try done; lia).
      apply Hw, IH; lia.
Qed.

Lemma skip_to_end_ok d p : data_ok d -> 0 <= p <= blen d -> skip_post d p (skip_to_end d p).
Proof. intros. apply skip_loop_ok; [done..|]. unfold blen in *. lia. Qed.

Lemma skip_to_else_or_end_ok d p :
  data_ok d -> 0 <= p <= blen d -> skip_post d p (skip_to_else_or_end d p).
Proof. intros. apply skip_loop_ok; [done..|]. unfold blen in *. lia. Qed.

(** ** States *)

(** What code may do to the environment: storage writes and events, nothing else. *)
Definition env_le (e e' : Host.HostEnvironment) : Prop :=
  Host.events e `prefix_of` Host.events e'
  /\ e' = Host.set_events (Host.set_storage e (Host.storage e')) (Host.events e').

Definition mem_ok (m : bytes) : Prop :=
  Forall byte_ok m /\ (PAGE | blen m) /\ blen m < 2 ^ 32 * PAGE.

Definition shared_ok (h : Shared) : Prop :=
  Forall value_ok (globals h) /\ mem_ok (memory h)
  /\ Gas.meter_ok (gas_meter h) /\ Gas.costs_positive (Gas.costs (gas_meter h))
  /\ Host.env_ok (host_env h).

Definition shared_le (h h' : Shared) : Prop :=
  Gas.meter_le (gas_meter h) (gas_meter h')
  /\ length (globals h') = length (globals h)
  /\ blen (memory h) <= blen (memory h') <= Z.max (blen (memory h)) (4096 * PAGE)
  /\ env_le (host_env h) (host_env h').

Definition st_ok (code : bytes) (s : St) : Prop :=
  0 <= pos s <= blen code /\ Forall value_ok (stack s) /\ Forall value_ok (locals s)
  /\ shared_ok (shared s).

Definition st_le (s s' : St) : Prop :=
  length (locals s') = length (locals s) /\ shared_le (shared s) (shared s').

Lemma env_le_refl e : env_le e e.
Proof. split; [done|]. by destruct e. Qed.

Lemma env_le_trans e1 e2 e3 : env_le e1 e2 -> env_le e2 e3 -> env_le e1 e3.
Proof.
  intros [P1 E1] [P2 E2]. split; [by etrans|]. rewrite E2, E1. by destruct e1, e2, e3.
Qed.

Lemma shared_le_refl h : shared_ok h -> shared_le h h.
Proof.
  intros (_ & _ & Hm & _). unfold shared_le. split_and!; try done; try lia.
  - by apply Gas.meter_le_refl.
  - apply env_le_refl.
Qed.

Lemma shared_le_trans h1 h2 h3 : shared_le h1 h2 -> shared_le h2 h3 -> shared_le h1 h3.
Proof.
  intros (M1 & G1 & L1 & E1) (M2 & G2 & L2 & E2).
  split_and!; [by eapply Gas.meter_le_trans|congruence|lia|lia|by eapply env_le_trans].
Qed.

Lemma st_le_refl code s : st_ok code s -> st_le s s.
Proof. intros (_ & _ & _ & Hs). split; [done|by apply shared_le_refl]. Qed.

Lemma st_le_trans s1 s2 s3 : st_le s1 s2 -> st_le s2 s3 -> st_le s1 s3.
Proof. intros [? ?] [? ?]. split; [congruence|by eapply shared_le_trans]. Qed.

(** ** Computations without control flow *)

(** The meter of a computation that failed for want of gas is at its limit. *)
Definition spent (h : Shared) : Prop := Gas.used (gas_meter h) = Gas.limit (gas_meter h).

Definition out_post {A} (ok : A -> Prop) (h : Shared) (r : exc A) : Prop :=
  match r with
  | Ret a => ok a
  | Throw (Gas _) => spent h
  | Throw e => plain e
  | _ => False
  end.

Definition leaf_post {A} (ok : A -> Prop) (r : exc A) : Prop :=
  match r with Ret a => ok a | Throw e => plain e | _ => False end.

Lemma out_leaf {A} (P : A -> Prop) h r : leaf_post P r -> out_post P h r.
Proof. by destruct r as [|[]| |]. Qed.

Lemma out_plain {A} (P : A -> Prop) h e : plain e -> out_post P h (Throw e).
Proof. by destruct e. Qed.

Lemma out_throw {A B} (P : A -> Prop) (Q : B -> Prop) h e :
  out_post P h (Throw e) -> out_post Q h (Throw e).
Proof. by destruct e. Qed.

(** Split a conjunction and close the frame conditions. *)
Ltac frame :=
  repeat match goal with |- _ /\ _ => split end;
  try first [ done | lia | apply env_le_refl | by apply Gas.meter_le_refl
            | by apply shared_le_refl | by eapply st_le_refl | by apply Forall_insert
            | by apply out_plain | by apply out_leaf ].

(** On the shared state ... *)
Definition spost {A} (P : A -> Prop) (h : Shared) (x : Shared * exc A) : Prop :=
  shared_ok x.1 /\ shared_le h x.1 /\ out_post P x.1 x.2.

Definition sleaf {A} (m : SM Shared A) (P : A -> Prop) : Prop :=
  forall h, shared_ok h -> spost P h (m h).

(** ... and on the whole state, where the reader only moves forward. *)
Definition leaf (code : bytes) {A} (m : SM St A) (P : A -> Prop) : Prop :=
  forall s, data_ok code -> st_ok code s ->
    st_ok code (m s).1 /\ st_le s (m s).1 /\ pos s <= pos (m s).1
    /\ out_post P (shared (m s).1) (m s).2.

Lemma sleaf_ret {A} (a : A) (P : A -> Prop) : P a -> sleaf (ret a) P.
Proof. intros Ha h Hh. split_and!; [done|by apply shared_le_refl|done]. Qed.

Lemma sleaf_throw {A} e (P : A -> Prop) : plain e -> sleaf (throw e) P.
Proof. intros He h Hh. split_and!; [done|by apply shared_le_refl|by apply out_plain]. Qed.

Lemma sleaf_lift {A} (x : exc A) P : leaf_post P x -> sleaf (lift x) P.
Proof. intros He h Hh. split_and!; [done|by apply shared_le_refl|by apply out_leaf]. Qed.

Lemma sleaf_bind {A B} (m : SM Shared A) (k : A -> SM Shared B) P Q :
  sleaf m P -> (forall a, P a -> sleaf (k a) Q) -> sleaf (bind m k) Q.
Proof.
  intros Hm Hk h Hh. destruct (Hm h Hh) as (H1 & L1 & R1). unfold bind.
  destruct (m h) as [h1 [a|e| |]]; cbn in *; try done.
  destruct (Hk a R1 h1 H1) as (H2 & L2 & R2). split_and!; [done|by eapply shared_le_trans|done].
Qed.

Section leaves.
Context (code : bytes).

Lemma leaf_ret {A} (a : A) (P : A -> Prop) : P a -> leaf code (ret a) P.
Proof. intros Ha s Hc Hs. split_and!; [done|by eapply st_le_refl|done|done]. Qed.

Lemma leaf_throw {A} e (P : A -> Prop) : plain e -> leaf code (throw e) P.
Proof. intros Ha s Hc Hs. split_and!; [done|by eapply st_le_refl|done|by apply out_plain]. Qed.

Lemma leaf_lift {A} (x : exc A) P : leaf_post P x -> leaf code (lift x) P.
Proof. intros Ha s Hc Hs. split_and!; [done|by eapply st_le_refl|done|by apply out_leaf]. Qed.

Lemma leaf_bind {A B} (m : SM St A) (k : A -> SM St B) P Q :
  leaf code m P -> (forall a, P a -> leaf code (k a) Q) -> leaf code (bind m k) Q.
Proof.
  intros Hm Hk s Hc Hs. destruct (Hm s Hc Hs) as (H1 & L1 & P1 & R1). unfold bind.
  destruct (m s) as [s1 [a|e| |]]; cbn in *; try done.
  destruct (Hk a R1 s1 Hc H1) as (H2 & L2 & P2 & R2).
  split_and!; [done|by eapply st_le_trans|lia|done].
Qed.

Lemma leaf_mono {A} (m : SM St A) (P Q : A -> Prop) :
  leaf code m P -> (forall a, P a -> Q a) -> leaf code m Q.
Proof.
  intros Hm Himp s Hc Hs. destruct (Hm s Hc Hs) as (H1 & L1 & P1 & R1). split_and!; try done.
  destruct (m s).2; simpl in *; auto.
Qed.

Lemma leaf_shared {A} (m : SM Shared A) P : sleaf m P -> leaf code (in_shared m) P.
Proof.
  intros Hm s Hc (Hp & Hst & Hl & Hh). destruct (Hm _ Hh) as (H1 & L1 & R1). unfold in_shared.
  destruct (m (shared s)) as [h1 r]. cbn in *. unfold st_ok, st_le. cbn. split_and!; done || lia.
Qed.

Lemma leaf_rd {A} (f : bytes -> Z -> exc (A * Z)) P : reads f P -> leaf code (rd code f) P.
Proof.
  intros Hf s Hc Hs. pose proof Hs as (Hp & Hst & Hl & Hh). pose proof (Hf code (pos s) Hc Hp) as H.
  unfold rd, read_post in *. destruct (f code (pos s)) as [[a p]|e| |]; try done; cbn [fst snd].
  - destruct H. unfold st_ok, st_le. cbn. split_and!; try done; try lia. by apply shared_le_refl.
  - split; [done|]. split; [by eapply st_le_refl|]. split; [done|by apply out_plain].
Qed.

Lemma leaf_skip f :
  (forall d p, data_ok d -> 0 <= p <= blen d -> skip_post d p (f d p)) ->
  leaf code (skip code f) (fun _ => True).
Proof.
  intros Hf. apply leaf_rd. intros d p Hd Hp. pose proof (Hf d p Hd Hp) as H.
  unfold read_post, skip_post in *. destruct (f d p); done.
Qed.

Lemma leaf_pop : leaf code pop value_ok.
Proof.
  intros s Hc Hs. unfold pop. destruct (stack s) as [|v l] eqn:E; cbn.
  - split_and!; try done. by apply (st_le_refl code).
  - pose proof Hs as (Hp & Hst & Hl & Hh). rewrite E in Hst.
    apply Forall_cons in Hst as [Hv Hst]. unfold st_ok, st_le. cbn.
    split_and!; try done; try lia. by apply shared_le_refl.
Qed.

Lemma leaf_push v : value_ok v -> leaf code (push v) (fun _ => True).
Proof.
  intros Hv s Hc Hs. pose proof Hs as (Hp & Hst & Hl & Hh). unfold push, st_ok, st_le. cbn.
  split_and!; try done; try lia; [by constructor|by apply shared_le_refl].
Qed.

Lemma leaf_pop_i32 : leaf code pop_i32 (sint 32).
Proof.
  eapply leaf_bind; [apply leaf_pop|]. intros v Hv. apply leaf_lift. by destruct v.
Qed.
Lemma leaf_pop_i64 : leaf code pop_i64 (sint 64).
Proof.
  eapply leaf_bind; [apply leaf_pop|]. intros v Hv. apply leaf_lift. by destruct v.
Qed.
Lemma leaf_pop_f32 : leaf code pop_f32 (in_range 32).
Proof.
  eapply leaf_bind; [apply leaf_pop|]. intros v Hv. apply leaf_lift. by destruct v.
Qed.
Lemma leaf_pop_f64 : leaf code pop_f64 (in_range 64).
Proof.
  eapply leaf_bind; [apply leaf_pop|]. intros v Hv. apply leaf_lift. by destruct v.
Qed.

Abbreviation done_leaf m := (leaf code m (fun _ => True)).

Lemma leaf_un {A} (get : SM St A) f P :
  leaf code get P -> (forall a, P a -> value_ok (f a)) -> done_leaf (un get f).
Proof. intros Hg Hf. eapply leaf_bind; [exact Hg|]. intros. by apply leaf_push, Hf. Qed.

Lemma leaf_bin {A} (get : SM St A) f P :
  leaf code get P -> (forall a b, P a -> P b -> value_ok (f a b)) -> done_leaf (bin get f).
Proof.
  intros Hg Hf. eapply leaf_bind; [exact Hg|]. intros b Hb.
  eapply leaf_bind; [exact Hg|]. intros a Ha. by apply leaf_push, Hf.
Qed.

Lemma leaf_div (get : SM St Z) f P :
  leaf code get P -> (forall a b, P a -> P b -> value_ok (f a b)) -> done_leaf (div_op get f).
Proof.
  intros Hg Hf. eapply leaf_bind; [exact Hg|]. intros b Hb.
  eapply leaf_bind; [exact Hg|]. intros a Ha. destruct (b =? 0); [by apply leaf_throw|].
  by apply leaf_push, Hf.
Qed.

(** Replacing part of the state by an equally good one. *)
Lemma leaf_get_memory : leaf code get_memory mem_ok.
Proof.
  intros s Hc Hs. pose proof Hs as (Hp & Hst & Hl & Hg & Hm & _). unfold get_memory. cbn.
  split_and!; try done. by apply (st_le_refl code).
Qed.

Lemma put_memory_ok s m :
  st_ok code s -> mem_ok m ->
  blen (memory (shared s)) <= blen m <= Z.max (blen (memory (shared s))) (4096 * PAGE) ->
  st_ok code (put_memory m s).1 /\ st_le s (put_memory m s).1.
Proof.
  intros (Hp & Hst & Hl & Hg & Hm & Hme & Hc & He) Hm' Hlen.
  unfold put_memory, st_ok, st_le, shared_ok, shared_le. cbn.
  frame.
Qed.

Lemma mem_write_ok m addr d :
  mem_ok m -> Forall byte_ok d -> 0 <= addr -> addr + blen d <= blen m ->
  exists m', mem_write m addr d = Ret m' /\ mem_ok m' /\ blen m' = blen m.
Proof.
  intros (Hb & Hd & Hl) Hd' Ha Hlen. unfold mem_write. case_decide; [|lia].
  assert (blen (take (Z.to_nat addr) m ++ d ++ drop (Z.to_nat addr + length d) m) = blen m) as E.
  { unfold blen in *. rewrite !length_app, length_take, length_drop. lia. }
  eexists. split; [done|]. split; [|done]. unfold mem_ok. rewrite E. split_and!; [|done..].
  apply Forall_app. split; [by apply Forall_take|]. apply Forall_app. split; [done|by apply Forall_drop].
Qed.

Lemma resize_ok m n :
  mem_ok m -> (PAGE | n) -> blen m <= n < 2 ^ 32 * PAGE ->
  mem_ok (resize m n) /\ blen (resize m n) = n.
Proof.
  intros (Hb & Hd & Hl) Hn Hr. unfold resize.
  assert (blen (take (Z.to_nat n) (m ++ replicate (Z.to_nat n - length m) 0)) = n) as E.
  { unfold blen in *. rewrite length_take, length_app, length_replicate. lia. }
  split; [|done]. unfold mem_ok. rewrite E. split_and!; [|done|lia].
  apply Forall_take, Forall_app. split; [done|]. apply Forall_replicate. unfold byte_ok. lia.
Qed.

Lemma leaf_addr base offset :
  in_range 32 offset ->
  leaf_post (fun a => 0 <= a < 2 ^ 33) (effective_addr base offset).
Proof.
  intros Ho. unfold effective_addr, checked_add.
  pose proof (wrap_range 32 base ltac:(lia)). unfold in_range in *. case_decide; cbn; [lia|done].
Qed.

Lemma leaf_load n f :
  0 < n <= 8 -> (forall b, Forall byte_ok b -> blen b = n -> value_ok (f b)) ->
  done_leaf (load code n f).
Proof.
  intros Hn Hf. eapply leaf_bind; [apply leaf_rd, read_u32_reads|]. intros _ _.
  eapply leaf_bind; [apply leaf_rd, read_u32_reads|]. intros off Hoff.
  eapply leaf_bind; [apply leaf_pop_i32|]. intros base _.
  eapply leaf_bind; [by apply leaf_lift, leaf_addr|]. intros a Ha. cbn in Ha.
  eapply leaf_bind; [apply leaf_get_memory|]. intros m (Hb & _ & Hl).
  unfold PAGE in Hl. rewrite wadd_small by (unfold in_range; lia).
  case_decide; [by apply leaf_lift|].
  destruct (slice_ok m a (a + n)) as (d & -> & ? & ?); [lia..|done|].
  eapply leaf_bind; [by apply leaf_lift with (P := fun x => x = d)|]. intros ? ->.
  apply leaf_push, Hf; [done|lia].
Qed.

Lemma leaf_store get P (f : Z -> bytes) :
  leaf code get P ->
  (forall v, P v -> Forall byte_ok (f v) /\ 0 < blen (f v) <= 8) -> done_leaf (store code get f).
Proof.
  intros Hg Hf. eapply leaf_bind; [apply leaf_rd, read_u32_reads|]. intros _ _.
  eapply leaf_bind; [apply leaf_rd, read_u32_reads|]. intros off Hoff.
  eapply leaf_bind; [exact Hg|]. intros v Hv. destruct (Hf v Hv) as [Hb Hlen].
  eapply leaf_bind; [apply leaf_pop_i32|]. intros base _.
  eapply leaf_bind; [by apply leaf_lift, leaf_addr|]. intros a Ha. cbn in Ha.
  intros s Hc Hs. pose proof Hs as (_ & _ & _ & _ & Hm & _). pose proof Hm as (_ & _ & Hl).
  unfold bind at 1, get_memory. cbn. unfold PAGE in Hl.
  rewrite wadd_small by (unfold in_range; lia).
  case_decide; [split_and!; try done; by apply (st_le_refl code)|].
  destruct (mem_write_ok (memory (shared s)) a (f v)) as (m' & -> & Hm' & Hl'); [done|done|lia..|].
  destruct (put_memory_ok s m' Hs Hm') as [? ?]; [lia|].
  unfold bind, lift. split_and!; done.
Qed.

Lemma leaf_memory_size : done_leaf (memory_size code).
Proof.
  eapply leaf_bind; [apply leaf_rd, read_byte_reads|]. intros _ _.
  eapply leaf_bind; [apply leaf_get_memory|]. intros m _. apply leaf_push. by apply signed_range.
Qed.

Lemma pages_exact m : mem_ok m -> wrap 32 (blen m / PAGE) * PAGE = blen m.
Proof.
  intros (_ & [k Hk] & Hl). rewrite Hk in *. unfold PAGE in *. rewrite Z.div_mul by lia.
  rewrite wrap_small; [done|]. unfold in_range, blen in *. lia.
Qed.

Lemma leaf_memory_grow : done_leaf (memory_grow code).
Proof.
  eapply leaf_bind; [apply leaf_rd, read_byte_reads|]. intros _ _.
  eapply leaf_bind; [apply leaf_pop_i32|]. intros delta Hdelta.
  intros s Hc Hs. pose proof Hs as (_ & _ & _ & _ & Hm & _).
  unfold bind at 1, get_memory. cbn. set (m := memory (shared s)) in *.
  pose proof (pages_exact m Hm) as Hpages. set (cur := wrap 32 (blen m / PAGE)) in *.
  assert (done_leaf (push (I32 (-1)))) as Hfail by (apply leaf_push; cbn; unfold sint; lia).
  destruct (Z.ltb_spec delta 0); [by apply Hfail|].
  case_decide as Hn; [by apply Hfail|]. set (np := default _ _) in *.
  assert (cur <= np /\ np <= 4096) as [Hcur Hnp].
  { split; [|lia]. subst np. unfold checked_add. pose proof (wrap_range 32 delta ltac:(lia)).
    pose proof (wrap_range 32 (blen m / PAGE) ltac:(lia)). fold cur in H1.
    unfold in_range, max_val in *. case_decide; cbn; lia. }
  destruct (resize_ok m (np * PAGE) Hm) as [Hm' Hl']; [by exists np|unfold PAGE in *; lia|].
  destruct (put_memory_ok s (resize m (np * PAGE)) Hs Hm') as [Hs' Hle].
  { fold m. rewrite Hl'. unfold PAGE in *. lia. }
  unfold bind. cbn in Hs', Hle |- *.
  destruct (leaf_push (I32 (signed 32 cur)) (signed_range 32 cur ltac:(lia)) _ Hc Hs')
    as (? & ? & ? & ?).
  frame.
Qed.

Lemma set_locals_ok s i v :
  st_ok code s -> value_ok v ->
  st_ok code (set_locals s (<[i := v]> (locals s))) /\ st_le s (set_locals s (<[i := v]> (locals s))).
Proof.
  intros (Hp & Hst & Hl & Hh) Hv. unfold st_ok, st_le. cbn. rewrite length_insert.
  frame.
Qed.

Lemma leaf_local_get : done_leaf (local_get code).
Proof.
  eapply leaf_bind; [apply leaf_rd, read_u32_reads|]. intros i _ s Hc Hs.
  destruct (locals s !! Z.to_nat i) as [v|] eqn:E.
  - apply leaf_push; [|done..]. destruct Hs as (_ & _ & Hl & _). rewrite Forall_lookup in Hl. eauto.
  - by apply leaf_throw.
Qed.

Lemma leaf_local_set : done_leaf (local_set code).
Proof.
  eapply leaf_bind; [apply leaf_rd, read_u32_reads|]. intros i _.
  eapply leaf_bind; [apply leaf_pop|]. intros v Hv s Hc Hs. case_decide; [by apply leaf_throw|].
  destruct (set_locals_ok s (Z.to_nat i) v Hs Hv). by frame.
Qed.

Lemma leaf_local_tee : done_leaf (local_tee code).
Proof.
  eapply leaf_bind; [apply leaf_rd, read_u32_reads|]. intros i _ s Hc Hs.
  pose proof Hs as (_ & Hst & _). destruct (stack s) as [|v l]; [by apply leaf_throw|].
  apply Forall_cons in Hst as [Hv _]. case_decide; [by apply leaf_throw|].
  destruct (set_locals_ok s (Z.to_nat i) v Hs Hv). by frame.
Qed.

Lemma leaf_global_get : done_leaf (global_get code).
Proof.
  eapply leaf_bind; [apply leaf_rd, read_u32_reads|]. intros i _ s Hc Hs.
  destruct (globals (shared s) !! Z.to_nat i) as [v|] eqn:E.
  - apply leaf_push; [|done..]. destruct Hs as (_ & _ & _ & Hl & _). rewrite Forall_lookup in Hl. eauto.
  - by apply leaf_throw.
Qed.

Lemma leaf_global_set : done_leaf (global_set code).
Proof.
  eapply leaf_bind; [apply leaf_rd, read_u32_reads|]. intros i _.
  eapply leaf_bind; [apply leaf_pop|]. intros v Hv s Hc Hs. case_decide; [by apply leaf_throw|].
  destruct Hs as (Hp & Hst & Hl & Hg & Hm & Hme & Hco & He).
  unfold st_ok, st_le, shared_ok, shared_le. cbn. rewrite length_insert.
  frame.
Qed.

(** ** Values of the arithmetic arms *)

Lemma bool_ok b : value_ok (bool_i32 b).
Proof. destruct b; cbn; unfold sint; lia. Qed.

Lemma i32op_ok f a b : value_ok (i32op f a b).
Proof. by apply signed_range. Qed.

Lemma i64op_ok f a b : value_ok (i64op f a b).
Proof. by apply signed_range. Qed.

Lemma signed32_ok x : value_ok (I32 (signed 32 x)).
Proof. by apply signed_range. Qed.

Lemma signed64_ok x : value_ok (I64 (signed 64 x)).
Proof. by apply signed_range. Qed.

Lemma f32_ok x : value_ok (F32 (Ieee.encode Ieee.f32 x)).
Proof. by apply (Ieee.encode_range Ieee.f32). Qed.

Lemma f64_ok x : value_ok (F64 (Ieee.encode Ieee.f64 x)).
Proof. by apply (Ieee.encode_range Ieee.f64). Qed.

Lemma wrapf32_ok x : value_ok (F32 (wrap 32 x)).
Proof. by apply wrap_range. Qed.

Lemma wrapf64_ok x : value_ok (F64 (wrap 64 x)).
Proof. by apply wrap_range. Qed.

Lemma trunc32_ok F a : value_ok (I32 (Ieee.to_int F (- 2 ^ 31) (2 ^ 31 - 1) a)).
Proof. pose proof (Ieee.to_int_range F (- 2 ^ 31) (2 ^ 31 - 1) a ltac:(lia)). cbn -[Z.pow]. unfold sint. lia. Qed.

Lemma trunc64_ok F a : value_ok (I64 (Ieee.to_int F (- 2 ^ 63) (2 ^ 63 - 1) a)).
Proof. pose proof (Ieee.to_int_range F (- 2 ^ 63) (2 ^ 63 - 1) a ltac:(lia)). cbn -[Z.pow]. unfold sint. lia. Qed.

Lemma le_bytes_word n v :
  (0 < n <= 8)%nat -> Forall byte_ok (le_bytes n v) /\ 0 < blen (le_bytes n v) <= 8.
Proof. intros. split; [apply le_bytes_ok|]. unfold blen. rewrite le_bytes_length. lia. Qed.

Lemma loaded_word b n :
  Forall byte_ok b -> blen b = n -> 0 <= of_le_bytes b < 256 ^ n.
Proof. intros Hb <-. by apply of_le_bytes_range. Qed.

(** Every arm of the table keeps the state well-formed. *)
Lemma plain_ops_ok : Forall (fun e => done_leaf e.2) (plain_ops code).
Proof.
  unfold plain_ops, structural_ops, variable_ops, constant_ops, i32_comparisons, i64_comparisons,
    f32_comparisons, f64_comparisons, i32_arithmetic, i64_arithmetic, f32_arithmetic, f64_arithmetic,
    memory_ops, conversions; cbn [app]. repeat (apply Forall_cons; split); [..|by apply Forall_nil]; cbn [snd];
    try (eapply leaf_bin; [first [apply leaf_pop_i32|apply leaf_pop_i64|apply leaf_pop_f32|apply leaf_pop_f64]|];
         intros; first [apply bool_ok|apply i32op_ok|apply i64op_ok|apply f32_ok|apply f64_ok]);
    try (eapply leaf_div; [first [apply leaf_pop_i32|apply leaf_pop_i64]|];
         intros; first [apply i32op_ok|apply i64op_ok]);
    try (eapply leaf_un; [first [apply leaf_pop_i32|apply leaf_pop_i64|apply leaf_pop_f32|apply leaf_pop_f64]|];
         intros; first [ apply bool_ok|apply signed32_ok|apply signed64_ok|apply f32_ok|apply f64_ok
                       | apply trunc32_ok|apply trunc64_ok|apply wrapf32_ok|apply wrapf64_ok ]).
  - by apply leaf_ret.
  - eapply leaf_bind; [apply leaf_pop|]. intros. by apply leaf_ret.
  - apply leaf_local_get.
  - apply leaf_local_set.
  - apply leaf_local_tee.
  - apply leaf_global_get.
  - apply leaf_global_set.
  - eapply leaf_bind; [apply leaf_rd, read_i32_reads|]. intros. by apply leaf_push.
  - eapply leaf_bind; [apply leaf_rd, read_i64_reads|]. intros. by apply leaf_push.
  - eapply leaf_bind; [apply leaf_rd, read_f32_reads|]. intros. by apply leaf_push.
  - eapply leaf_bind; [apply leaf_rd, read_f64_reads|]. intros. by apply leaf_push.
  - apply leaf_load; [lia|]. intros. apply signed32_ok.
  - apply leaf_load; [lia|]. intros. apply signed64_ok.
  - apply leaf_load; [lia|]. intros b Hb Hl. exact (loaded_word b 4 Hb Hl).
  - apply leaf_load; [lia|]. intros b Hb Hl. exact (loaded_word b 8 Hb Hl).
  - apply leaf_load; [lia|]. intros. pose proof (signed_range 8 (of_le_bytes b) ltac:(lia)).
    cbn. unfold sint in *. lia.
  - apply leaf_load; [lia|]. intros b Hb Hl. pose proof (loaded_word b 1 Hb Hl). cbn. unfold sint. lia.
  - eapply leaf_store; [apply leaf_pop_i32|]. intros. apply le_bytes_word. lia.
  - eapply leaf_store; [apply leaf_pop_i64|]. intros. apply le_bytes_word. lia.
  - eapply leaf_store; [apply leaf_pop_f32|]. intros. apply le_bytes_word. lia.
  - eapply leaf_store; [apply leaf_pop_f64|]. intros. apply le_bytes_word. lia.
  - eapply leaf_store; [apply leaf_pop_i32|]. intros. pose proof (wrap_range 8 v ltac:(lia)).
    split; [constructor; [done|constructor]|done].
  - apply leaf_memory_size.
  - apply leaf_memory_grow.
  - eapply leaf_un; [apply leaf_pop_i32|]. intros a Ha. cbn. unfold sint in *. lia.
  - eapply leaf_un; [apply leaf_pop_i32|]. intros a _. pose proof (wrap_range 32 a ltac:(lia)).
    cbn. unfold sint, in_range in *. lia.
Qed.

Lemma find_op_in op l m : find_op op l = Some m -> exists k, (k, m) ∈ l.
Proof.
  induction l as [|[k x] l IH]; simpl; [done|]. destruct (k =? op).
  - intros [= ->]. exists k. by left.
  - intros [k' ?]%IH. exists k'. by right.
Qed.

Lemma exec_plain_leaf op : done_leaf (exec_plain code op).
Proof.
  unfold exec_plain. destruct (find_op op (plain_ops code)) as [m|] eqn:E; [|by apply leaf_throw].
  apply find_op_in in E as [k Hk]. pose proof plain_ops_ok as H. rewrite Forall_forall in H.
  exact (H _ Hk).
Qed.

End leaves.

(** ** Gas and host calls *)

(** A charge keeps everything but the meter, which moves by its cost or to the limit. *)
Lemma charge_shared f cost h :
  (forall g, f g = Gas.charge g (cost (Gas.costs g))) ->
  0 <= cost (Gas.costs (gas_meter h)) -> shared_ok h ->
  shared_ok (charge f h).1 /\ shared_le h (charge f h).1
  /\ match (charge f h).2 with
     | Ret _ => Gas.used (gas_meter (charge f h).1)
                = Gas.used (gas_meter h) + cost (Gas.costs (gas_meter h))
     | Throw (Gas _) => spent (charge f h).1
     | _ => False
     end.
Proof.
  intros Hf Hn Hh. pose proof Hh as (Hg & Hm & Hme & Hc & He). unfold charge. rewrite Hf.
  set (n := cost _) in *.
  pose proof (Gas.charge_spec (gas_meter h) n Hme Hn) as [Hle Hs].
  destruct (Gas.charge (gas_meter h) n) as [g r]. cbn [fst snd] in *.
  unfold shared_ok, shared_le, spent. cbn. frame.
  - by eapply Gas.meter_le_ok.
  - by destruct Hle as (_ & -> & _).
  - destruct Hle as (Hl & _). destruct (decide _).
    + by destruct Hs as [-> ?].
    + destruct Hs as [(u & -> & _) ->]. by rewrite Hl.
Qed.

Lemma sleaf_host_charge name : sleaf (charge (fun g => Gas.charge_host_call g name)) (fun _ => True).
Proof.
  intros h Hh. pose proof Hh as (_ & _ & _ & (_ & _ & _ & Hc) & _).
  destruct (charge_shared (fun g => Gas.charge_host_call g name)
              (fun c => Gas.host_call_cost c name) h) as (? & ? & Hr); [done|apply Hc|done|].
  unfold spost. frame. by destruct (charge _ h).2 as [|[]| |].
Qed.

Lemma sleaf_get_env : sleaf get_env Host.env_ok.
Proof. intros h Hh. pose proof Hh as (_ & _ & _ & _ & He). unfold get_env, spost. cbn. frame. Qed.

Lemma sleaf_get_mem : sleaf get_mem mem_ok.
Proof. intros h Hh. pose proof Hh as (_ & Hm & _). unfold get_mem, spost. cbn. frame. Qed.

(** Writing back a memory of the size it had, an environment that only grew. *)
Lemma put_mem_ok h m :
  shared_ok h -> mem_ok m -> blen m = blen (memory h) ->
  shared_ok (put_mem m h).1 /\ shared_le h (put_mem m h).1.
Proof.
  intros (Hg & Hm & Hme & Hc & He) Hm' Hl. unfold put_mem, shared_ok, shared_le. cbn. frame.
Qed.

Lemma put_env_ok h e :
  shared_ok h -> Host.env_ok e -> env_le (host_env h) e ->
  shared_ok (put_env e h).1 /\ shared_le h (put_env e h).1.
Proof.
  intros (Hg & Hm & Hme & Hc & He) He' Hl. unfold put_env, shared_ok, shared_le. cbn. frame.
Qed.

Lemma storage_key_ok m p n :
  mem_ok m -> in_range 32 p -> in_range 32 n -> p + Z.min n 32 <= blen m ->
  exists k, storage_key m p n = Ret k.
Proof.
  intros (Hb & _ & _) Hp Hn Hl. unfold in_range in *. unfold storage_key.
  destruct (slice_ok m p (p + Z.min n 32)) as (s & -> & _ & _); [lia..|done|]. by eexists.
Qed.

Definition result_ok (r : option Value) : Prop :=
  match r with Some v => value_ok v | None => True end.

Lemma word_small x : 0 <= x < 2 ^ 31 -> value_ok (I32 x).
Proof. cbn. unfold sint. lia. Qed.

Lemma host_storage_read_ok args : sleaf (host_storage_read args) result_ok.
Proof.
  intros h Hh. pose proof Hh as (_ & Hm & _ & _ & He). unfold host_storage_read.
  pose proof (wrap_range 32 (arg_i32 args 0) ltac:(lia)) as Hp.
  pose proof (wrap_range 32 (arg_i32 args 1) ltac:(lia)) as Hn.
  assert (sleaf (ret (Some (I32 0))) result_ok) as H0 by (apply sleaf_ret, word_small; lia).
  unfold bind at 1, get_mem. cbn [fst snd]. case_decide; [by apply H0|].
  destruct (storage_key_ok (memory h) _ _ Hm Hp Hn) as [k ->]; [lia|].
  unfold bind at 1, lift. unfold bind at 1, get_env.
  destruct (Host.storage_read (host_env h) k) as [v|] eqn:E; [|by apply H0].
  assert (Forall byte_ok v) as Hv by (destruct He as (_&_&_&_&_&_&_&_&_&Hs); exact (Hs _ _ E)).
  case_decide; [|by apply H0].
  destruct (le_bytes_word 4 (wrap 32 (blen v)) ltac:(lia)) as [Hb _].
  assert (blen (le_bytes 4 (wrap 32 (blen v))) = 4) as Hlen by (unfold blen; by rewrite le_bytes_length).
  assert (0 <= blen v) by (unfold blen; lia).
  destruct (mem_write_ok (memory h) 1024 _ Hm Hb) as (m1 & -> & Hm1 & L1); [lia..|].
  unfold bind at 1.
  destruct (mem_write_ok m1 (1024 + 4) v Hm1 Hv) as (m2 & -> & Hm2 & L2); [lia..|].
  destruct (put_mem_ok h m2 Hh Hm2) as [? ?]; [lia|]. unfold bind, spost. cbn in *. frame.
Qed.

Lemma slice_spec m p n :
  mem_ok m -> 0 <= p -> 0 <= n -> p + n <= blen m ->
  exists s, slice m p (p + n) = Ret s /\ Forall byte_ok s.
Proof.
  intros (Hb & _) ? ? ?. destruct (slice_ok m p (p + n)) as (s & -> & ? & _); [lia..|done|]. eauto.
Qed.

Lemma storage_write_env e k v :
  Host.env_ok e -> Forall byte_ok v ->
  Host.env_ok (Host.storage_write e k v) /\ env_le e (Host.storage_write e k v).
Proof.
  intros (?&?&?&?&?&?&?&?&?&Hs) Hv. split.
  - unfold Host.env_ok. cbn. frame. by apply map_Forall_insert_2.
  - by split.
Qed.

Lemma emit_event_env e a t d :
  Host.env_ok e -> Host.env_ok (Host.emit_event e a t d) /\ env_le e (Host.emit_event e a t d).
Proof.
  intros He. split; [exact He|]. split; [|by destruct e]. cbn. by eexists.
Qed.

Lemma host_storage_write_ok args : sleaf (host_storage_write args) result_ok.
Proof.
  intros h Hh. pose proof Hh as (_ & Hm & _ & _ & He). unfold host_storage_write.
  pose proof (wrap_range 32 (arg_i32 args 0) ltac:(lia)) as Hp.
  pose proof (wrap_range 32 (arg_i32 args 1) ltac:(lia)) as Hn.
  pose proof (wrap_range 32 (arg_i32 args 2) ltac:(lia)) as Hvp.
  pose proof (wrap_range 32 (arg_i32 args 3) ltac:(lia)) as Hvn.
  unfold bind at 1, get_mem. cbn [fst snd]. case_decide; [by apply sleaf_throw|].
  destruct (storage_key_ok (memory h) _ _ Hm Hp Hn) as [k ->]; [lia|].
  unfold bind at 1, lift. case_decide; [by apply sleaf_throw|].
  unfold in_range in *. destruct (slice_spec (memory h) (wrap 32 (arg_i32 args 2))
    (wrap 32 (arg_i32 args 3)) Hm) as (v & -> & Hv); [lia..|].
  unfold bind at 1. unfold bind at 1, get_env.
  destruct (storage_write_env (host_env h) k v He Hv) as [He' Hle].
  destruct (put_env_ok h _ Hh He' Hle) as [? ?]. unfold bind, spost. cbn in *. frame.
Qed.

Lemma read_string_ok m p n :
  mem_ok m -> in_range 32 p -> in_range 32 n -> leaf_post (fun _ => True) (read_string_from_memory m p n).
Proof.
  intros Hm Hp Hn. unfold in_range in *. unfold read_string_from_memory. case_decide; [done|].
  destruct (slice_spec m p n Hm) as (s & -> & _); [lia..|]. cbn. unfold from_utf8.
  by destruct (utf8_valid s).
Qed.

Lemma host_emit_event_ok args : sleaf (host_emit_event args) result_ok.
Proof.
  intros h Hh. pose proof Hh as (_ & Hm & _ & _ & He). unfold host_emit_event.
  pose proof (wrap_range 32 (arg_i32 args 0) ltac:(lia)) as Hp.
  pose proof (wrap_range 32 (arg_i32 args 1) ltac:(lia)) as Hn.
  pose proof (wrap_range 32 (arg_i32 args 2) ltac:(lia)) as Hvp.
  pose proof (wrap_range 32 (arg_i32 args 3) ltac:(lia)) as Hvn.
  unfold bind at 1, get_mem. cbn [fst snd].
  pose proof (read_string_ok (memory h) _ _ Hm Hp Hn) as Hs. unfold bind at 1, lift.
  destruct (read_string_from_memory _ _ _) as [t|e| |]; try done; [|by apply (sleaf_throw e)].
  case_decide; [by apply sleaf_throw|].
  unfold in_range in *. destruct (slice_spec (memory h) (wrap 32 (arg_i32 args 2))
    (wrap 32 (arg_i32 args 3)) Hm) as (v & -> & Hv); [lia..|].
  unfold bind at 1. unfold bind at 1, get_env.
  destruct (emit_event_env (host_env h) (replicate 32 0) t v He) as [He' Hle].
  destruct (put_env_ok h _ Hh He' Hle) as [? ?]. unfold bind, spost. cbn in *. frame.
Qed.

Lemma host_caller_address_ok : sleaf host_caller_address result_ok.
Proof.
  intros h Hh. pose proof Hh as (_ & Hm & _ & _ & He). unfold host_caller_address.
  unfold bind at 1, get_env. unfold bind at 1, get_mem.
  assert (sleaf (ret (Some (I32 0))) result_ok) as H0 by (apply sleaf_ret, word_small; lia).
  case_decide; [|by apply H0]. destruct He as (_ & _ & _ & Hb & Hl & _).
  destruct (mem_write_ok (memory h) 0 (Host.get_caller_address (host_env h)) Hm)
    as (m & -> & Hm' & L); [done|lia|unfold blen, Host.get_caller_address in *; lia|].
  destruct (put_mem_ok h m Hh Hm' L) as [? ?]. unfold bind, spost. cbn in *. frame.
Qed.

(** Reading a field of the environment. *)
Lemma host_field_ok (f : Host.HostEnvironment -> Value) :
  (forall e, Host.env_ok e -> value_ok (f e)) ->
  sleaf (let! e := get_env in ret (Some (f e))) result_ok.
Proof.
  intros Hf. eapply sleaf_bind; [apply sleaf_get_env|]. intros e He. apply sleaf_ret. by apply Hf.
Qed.

Lemma sensor_value_ok e t :
  Host.env_ok e -> value_ok (F64 (default 0 (Host.value <$> Host.get_sensor_data e t))).
Proof.
  intros (_&_&_&_&_&_&_&_&Hs&_). unfold Host.get_sensor_data.
  destruct (List.find _ _) as [r|] eqn:E; cbn; [|unfold in_range; lia].
  apply List.find_some in E as [Hin _]. rewrite Forall_forall in Hs. apply Hs. by apply list_elem_of_In.
Qed.

Lemma host_call_ok name args : sleaf (host_call name args) result_ok.
Proof.
  unfold host_call.
  repeat (case_decide; [try (apply host_field_ok; intros e He; first [apply signed32_ok|apply signed64_ok|idtac])|]).
  - destruct He as (_&_&_&_&_&Hl&_). unfold Host.get_location.
    destruct (Host.location e) as [[a b]|]; cbn; [by apply (Hl (a, b))|unfold in_range; lia].
  - destruct He as (_&_&_&_&_&Hl&_). unfold Host.get_location.
    destruct (Host.location e) as [[a b]|]; cbn; [by apply (Hl (a, b))|unfold in_range; lia].
  - destruct He as (_&_&_&_&_&_&_&Hp&_). apply word_small. unfold Host.get_presence_score. lia.
  - destruct (sensor_of _); [|apply sleaf_ret; cbn; unfold in_range; lia].
    apply host_field_ok. intros. by apply sensor_value_ok.
  - apply host_caller_address_ok.
  - apply host_storage_read_ok.
  - apply host_storage_write_ok.
  - apply host_emit_event_ok.
  - by apply sleaf_ret.
Qed.

Definition module_ok (m : WasmModule) : Prop :=
  0 <= import_func_count m <= Z.of_nat (length (imports m))
  /\ Forall (fun f => data_ok (fn_code f)) (functions m).

Lemma dispatch_ok m perms i args :
  module_ok m -> 0 <= i < import_func_count m ->
  sleaf (dispatch_host_call m perms i args) result_ok.
Proof.
  intros [Hc _] Hi. unfold dispatch_host_call.
  destruct (imports m !! Z.to_nat i) as [imp|] eqn:E; [|apply lookup_ge_None in E; lia].
  eapply sleaf_bind; [apply sleaf_host_charge|]. intros _ _.
  eapply (sleaf_bind _ _ (fun _ => True)); [|intros _ _; apply host_call_ok].
  unfold check_perm, Sandbox.check_permission.
  destruct (Sandbox.permitted _ _); [by apply sleaf_ret|by apply sleaf_throw].
Qed.

End InterpSafety.
