(* ===== verification/InterpTermination.v ===== *)
(** * gratia-vm: every contract call returns

    One induction on the fuel shows that a block keeps the state well-formed, never
    aborts the process and stops for want of fuel only if the fuel was below [need]: the
    gas left times the length of the longest function body, plus the bytes left to read.
    Gas makes loops and recursion finite, the code's length the free instructions. *)

From stdpp Require Import base tactics strings pretty gmap list.
From Stdlib Require Import ZArith Lia.
From S2P Require Import Prelude CoreTypes Ieee Gas Sandbox HostFunctions WasmModule Interp.
From S2P Require Import InterpSafety.
Local Open Scope Z_scope.

Module InterpTermination.
Import Wasm Interp InterpSafety.

Definition gas_left (h : Shared) : Z := Gas.limit (gas_meter h) - Gas.used (gas_meter h).

(** Fuel that suffices for a block, when no function body is longer than [L]. *)
Definition need (L : Z) (code : bytes) (s : St) : Z :=
  gas_left (shared s) * (L + 3) + (blen code - pos s) + 1.

(** What running a block from [s] promises; [E]: there was enough fuel. *)
Definition bpost (code : bytes) (E : Prop) (s : St) (x : St * exc unit) : Prop :=
  st_ok code x.1 /\ st_le s x.1
  /\ match x.2 with
     | Panic => False
     | Diverge => ~ E
     | Throw (Branch n) => 0 <= n /\ gas_left (shared x.1) < gas_left (shared s)
     | Throw (Gas _) => spent (shared x.1)
     | _ => True
     end.

Definition fpost (E : Prop) (h : Shared) (x : Shared * exc (option Value)) : Prop :=
  shared_ok x.1 /\ shared_le h x.1
  /\ match x.2 with
     | Ret r => result_ok r
     | Throw (Gas _) => spent x.1
     | Throw e => plain e
     | Panic => False
     | Diverge => ~ E
     end.

Lemma gas_left_mono h h' : shared_le h h' -> gas_left h' <= gas_left h.
Proof. intros ((L & _ & U) & _). unfold gas_left. rewrite L. lia. Qed.

Lemma gas_left_nonneg h : shared_ok h -> 0 <= gas_left h.
Proof. intros (_ & _ & [H _] & _). unfold gas_left. lia. Qed.

Section blocks.
Context (code : bytes) (L : Z).
Hypothesis Hcode : data_ok code.
Hypothesis Hlen : blen code <= L.

Lemma need_charged s s1 s2 :
  gas_left (shared s1) + 1 <= gas_left (shared s) -> st_le s1 s2 -> st_ok code s -> st_ok code s2 ->
  need L code s2 + 3 <= need L code s.
Proof.
  intros Hg [_ Hle] (Hp & _) (Hp2 & _ & _ & Hsh2). apply gas_left_mono in Hle.
  apply gas_left_nonneg in Hsh2. unfold need, blen in *. nia.
Qed.

Lemma need_free s s2 :
  pos s + 1 <= pos s2 -> st_le s s2 -> st_ok code s -> st_ok code s2 ->
  need L code s2 + 1 <= need L code s.
Proof.
  intros Hp2 [_ Hle] (Hp & _) (_ & _ & _ & Hsh2). apply gas_left_mono in Hle.
  apply gas_left_nonneg in Hsh2. unfold need, blen in *. nia.
Qed.

(** A later starting point proves more. *)
Lemma bpost_from (E E' : Prop) s s1 x :
  bpost code E' s1 x -> st_le s s1 -> (E -> E') -> bpost code E s x.
Proof.
  intros (Ho & Hl & Hr) Hle He. split_and!; [done|by eapply st_le_trans|].
  destruct Hle as [_ Hle]. apply gas_left_mono in Hle.
  destruct x.2 as [|[]| |]; try done; [destruct Hr; split; [done|lia]|naive_solver].
Qed.

Lemma bpost_leaf {A} E s0 s (c : SM St A) P (k : A -> SM St unit) :
  leaf code c P -> st_ok code s -> st_le s0 s ->
  (forall a s1, P a -> st_ok code s1 -> st_le s s1 -> pos s <= pos s1 -> bpost code E s0 (k a s1)) ->
  bpost code E s0 (bind c k s).
Proof.
  intros Hc Hs Hle Hk. destruct (Hc s Hcode Hs) as (H1 & L1 & P1 & R1). unfold bind.
  destruct (c s) as [s1 [a|e| |]]; cbn in *; try done; [by apply Hk|].
  split_and!; [done|by eapply st_le_trans|]. by destruct e.
Qed.

Lemma bpost_end E s0 s (c : SM St unit) P :
  leaf code c P -> st_ok code s -> st_le s0 s -> bpost code E s0 (c s).
Proof.
  intros Hc Hs Hle. destruct (Hc s Hcode Hs) as (H1 & L1 & P1 & R1). unfold bpost.
  split_and!; [done|by eapply st_le_trans|]. destruct (c s).2 as [|[]| |]; done.
Qed.

(** Sequencing after a block. *)
Lemma bpost_then E s0 s1 (b : SM St unit) (k : SM St unit) :
  bpost code E s0 (b s1) ->
  (forall s2, b s1 = (s2, Ret tt) -> st_ok code s2 -> st_le s0 s2 -> bpost code E s0 (k s2)) ->
  bpost code E s0 (bind b (fun _ => k) s1).
Proof.
  intros (Ho & Hl & Hr) Hk. unfold bind. destruct (b s1) as [s2 [[]|e| |]]; cbn in *; auto.
  all: split_and!; done.
Qed.

Lemma bpost_in_block E s (b : SM St unit) :
  bpost code E s (b s) -> bpost code E s (in_block code b s).
Proof.
  intros (Ho & Hl & Hr). unfold in_block. destruct (b s) as [s1 [[]|e| |]]; cbn in *;
    try (by split_and!). destruct e; try (by split_and!).
  pose proof (leaf_skip code skip_to_end skip_to_end_ok) as Hsk.
  destruct (Z.eqb_spec depth 0); [by eapply bpost_end|].
  eapply bpost_leaf; [exact Hsk|done..|]. intros _ s2 _ Hs2 Hle2 _. split; [|split; [|split]]; cbn [fst snd throw].
  - done.
  - by eapply st_le_trans.
  - lia.
  - destruct Hle2 as [_ Hle2]. apply gas_left_mono in Hle2. cbn. lia.
Qed.

End blocks.

(** The charge of an instruction: one unit at least, unless it is free. *)
Lemma charge_leaf_strict code f cost s :
  (forall g, f g = Gas.charge g (cost (Gas.costs g))) ->
  1 <= cost (Gas.costs (gas_meter (shared s))) -> st_ok code s ->
  let x := in_shared (charge f) s in
  st_ok code x.1 /\ st_le s x.1 /\ pos x.1 = pos s
  /\ match x.2 with
     | Ret _ => gas_left (shared x.1) + 1 <= gas_left (shared s)
     | Throw (Gas _) => spent (shared x.1)
     | _ => False
     end.
Proof.
  intros Hf Hc (Hp & Hst & Hl & Hh). destruct (charge_shared f cost (shared s) Hf ltac:(lia) Hh)
    as (H1 & L1 & R1). unfold in_shared. destruct (charge f (shared s)) as [h r]. cbn in *.
  unfold st_ok, st_le. cbn. frame. destruct r; try done.
  destruct L1 as ((E & _ & _) & _). unfold gas_left. rewrite E. lia.
Qed.

Lemma charge_opcode_ok code op s :
  st_ok code s ->
  let x := charge_opcode op s in
  st_ok code x.1 /\ st_le s x.1 /\ pos x.1 = pos s
  /\ match x.2 with
     | Ret _ => class_of op = GFree \/ gas_left (shared x.1) + 1 <= gas_left (shared s)
     | Throw (Gas _) => spent (shared x.1)
     | _ => False
     end.
Proof.
  intros Hs. pose proof Hs as (_ & _ & _ & _ & _ & _ & (Ha & Hd & Hb & _) & _).
  unfold charge_opcode. cbv zeta. destruct (class_of op).
  3: { cbn. frame. by left. }
  - destruct (charge_leaf_strict code Gas.charge_division Gas.division s) as (?&?&?&?); [done..|].
    frame. destruct (in_shared _ s).2; auto.
  - destruct (charge_leaf_strict code Gas.charge_branch Gas.branch s) as (?&?&?&?); [done..|].
    frame. destruct (in_shared _ s).2; auto.
  - destruct (charge_leaf_strict code Gas.charge_arithmetic Gas.arithmetic s) as (?&?&?&?); [done..|].
    frame. destruct (in_shared _ s).2; auto.
  - destruct (charge_leaf_strict code Gas.charge_arithmetic Gas.arithmetic s) as (?&?&?&?); [done..|].
    frame. destruct (in_shared _ s).2; auto.
Qed.

(** ** Functions *)

Section functions.
Context (m : WasmModule) (perms : Sandbox.ContractPermissions) (L : Z).
Hypothesis Hm : module_ok m.
Hypothesis Hbodies : Forall (fun f => blen (fn_code f) <= L) (functions m).

Lemma initial_locals_ok t f args :
  Forall value_ok args -> Forall value_ok (initial_locals t f args).
Proof.
  intros Ha. unfold initial_locals. apply Forall_app. split.
  - apply Forall_lookup. intros i v Hi. rewrite list_lookup_imap in Hi.
    destruct (params t !! i) as [p|]; simplify_eq/=.
    destruct (args !! i) as [a|] eqn:E; cbn; [|apply default_value_ok].
    rewrite Forall_lookup in Ha. eauto.
  - apply Forall_fmap, Forall_true. intros. apply default_value_ok.
Qed.

Lemma function_result_ok t st h (r : exc unit) (E : Prop) :
  Forall value_ok st -> r <> Panic -> (r = Diverge -> ~ E) ->
  (forall e, r = Throw (Gas e) -> spent h) ->
  match function_result t st r with
  | Ret r => result_ok r
  | Throw (Gas _) => spent h
  | Throw e => plain e
  | Panic => False
  | Diverge => ~ E
  end.
Proof.
  intros Hst Hp Hd Hgas.
  assert (match match results t with
                | [] => Ret None
                | rt :: _ => Ret (Some (default (default_for_valtype rt) (head st)))
                end with Ret r => result_ok r | _ => False end) as Hv.
  { destruct (results t) as [|rt l]; [done|]. cbn. destruct st as [|v st]; cbn.
    - apply default_value_ok.
    - by apply Forall_cons in Hst as [? _]. }
  destruct r as [[]|e| |]; cbn; [by destruct (results t)| |done|by apply Hd].
  destruct e; try done; [by destruct (results t)..|by eapply Hgas].
Qed.

(** A call: enough fuel for any body is enough for this one. *)
Lemma function_with_ok (blk : Z -> bytes -> SM St unit) (E : Prop) i args depth h :
  (forall f s, f ∈ functions m -> st_ok (fn_code f) s -> shared s = h -> pos s = 0 ->
     bpost (fn_code f) E s (blk depth (fn_code f) s)) ->
  0 <= i -> Forall value_ok args -> shared_ok h ->
  fpost E h (function_with blk m perms i args depth h).
Proof.
  intros Hblk Hi Ha Hh. unfold function_with.
  assert (forall e, plain e -> fpost E h (h, Throw e)) as Hthrow.
  { intros e He. split; [done|]. split; [by apply shared_le_refl|by destruct e]. }
  case_decide; [by apply Hthrow|]. case_decide.
  { destruct (dispatch_ok m perms i args Hm ltac:(lia) h Hh) as (? & ? & Hr).
    split; [done|]. split; [done|]. by destruct (dispatch_host_call _ _ _ _ h).2 as [|[]| |]. }
  destruct (functions m !! _) as [f|] eqn:Ef; [|by apply Hthrow].
  destruct (types m !! _) as [t|]; [|by apply Hthrow].
  apply list_elem_of_lookup_2 in Ef as Hf.
  assert (data_ok (fn_code f)) as Hd by (destruct Hm as [_ H2]; rewrite Forall_forall in H2; auto).
  set (s0 := mkSt 0 [] (initial_locals t f args) h).
  assert (st_ok (fn_code f) s0) as Hs0.
  { unfold st_ok, s0. cbn. frame; [unfold blen; lia|by apply initial_locals_ok]. }
  destruct (Hblk f s0 Hf Hs0 eq_refl eq_refl) as (Ho & [_ Hle] & Hr).
  destruct (blk depth (fn_code f) s0) as [s r]. cbn in *.
  destruct Ho as (_ & Hst & _ & Hsh). split; [done|]. split; [done|]. cbn.
  apply function_result_ok; [done|by intros ->|by intros ->|by intros e ->].
Qed.

Lemma fpost_value (E : Prop) s (c : SM Shared (option Value)) code (k : option Value -> SM St unit) s0 :
  st_ok code s -> st_le s0 s -> fpost E (shared s) (c (shared s)) ->
  (forall r s1, result_ok r -> st_ok code s1 -> st_le s s1 -> bpost code E s0 (k r s1)) ->
  bpost code E s0 (bind (in_shared c) k s).
Proof.
  intros Hs Hle (Ho & Hl & Hr) Hk. unfold bind, in_shared.
  destruct (c (shared s)) as [h r]. cbn in *. destruct Hs as (Hp & Hst & Hlo & Hsh).
  assert (st_ok code (set_shared s h)) as Hs' by (unfold st_ok; cbn; frame).
  assert (st_le s (set_shared s h)) as Hle' by (unfold st_le; cbn; frame).
  assert (st_le s0 (set_shared s h)) by (by eapply st_le_trans).
  destruct r as [r|e| |]; cbn in *; try done; [by apply Hk|split; [done|split; [done|]]..].
  by destruct e.
Qed.

Lemma callee_type_ok i : 0 <= i -> leaf_post (fun _ => True) (callee_type m i).
Proof.
  intros Hi. destruct Hm as [Hc _]. unfold callee_type. case_decide.
  - destruct (imports m !! Z.to_nat i) as [imp|] eqn:E; [|apply lookup_ge_None in E; lia].
    cbn. by destruct (types m !! _).
  - destruct (functions m !! _); cbn; [|done]. by destruct (types m !! _).
Qed.

Lemma leaf_split_args code n :
  leaf code (split_args n) (fun l => Forall value_ok l).
Proof.
  intros s Hc Hs. unfold split_args. destruct Hs as (Hp & Hst & Hl & Hh) eqn:E.
  case_decide; cbn.
  - unfold st_ok, st_le. frame.
  - unfold st_ok, st_le. cbn. frame.
    + by apply Forall_drop.
    + by apply Forall_rev, Forall_take.
Qed.

Lemma leaf_at_else code : leaf code (at_else code) (fun _ => True).
Proof.
  intros s Hc Hs. unfold at_else. pose proof Hs as (Hp & _). case_decide; cbn; [|frame].
  destruct (code !! Z.to_nat (pos s - 1)) as [b|] eqn:E; cbn; [frame|].
  apply lookup_ge_None in E. unfold blen in *. lia.
Qed.

Lemma leaf_get_pos code : leaf code get_pos (fun p => 0 <= p <= blen code).
Proof. intros s Hc Hs. pose proof Hs as (Hp & _). unfold get_pos. cbn. frame. Qed.

Lemma class_branch : class_of 0x02 <> GFree /\ class_of 0x03 <> GFree /\ class_of 0x04 <> GFree
  /\ class_of 0x0C <> GFree /\ class_of 0x0D <> GFree /\ class_of 0x10 <> GFree.
Proof. split_and!; vm_compute; discriminate. Qed.

(** ** The induction *)

Definition block_claim (fuel : nat) : Prop := forall depth code s,
  data_ok code -> blen code <= L -> st_ok code s ->
  bpost code (need L code s <= Z.of_nat fuel) s (execute_block fuel m perms depth code s).

Definition loop_claim (fuel : nat) : Prop := forall depth code start s,
  data_ok code -> blen code <= L -> st_ok code s -> 0 <= start <= blen code ->
  bpost code (need L code (set_pos s start) + 1 <= Z.of_nat fuel) s
    (execute_loop fuel m perms depth code start s).

Lemma set_pos_ok code s p : st_ok code s -> 0 <= p <= blen code -> st_ok code (set_pos s p).
Proof. intros (_ & ? & ? & ?) Hp. unfold st_ok. cbn. frame. Qed.

Lemma set_pos_le code s p : st_ok code s -> st_le s (set_pos s p).
Proof. intros (_ & _ & _ & Hh). unfold st_le. cbn. frame. Qed.

Lemma loop_step fuel : block_claim fuel -> loop_claim fuel -> loop_claim (S fuel).
Proof.
  intros IHb IHl depth code start s Hc Hl Hs Hst. cbn [execute_loop].
  pose proof (set_pos_ok code s start Hs Hst) as Hs0.
  pose proof (set_pos_le code s start Hs) as Hle0.
  pose proof (IHb depth code _ Hc Hl Hs0) as Hb.
  pose proof Hb as (Ho & Hle & Hr).
  destruct (execute_block fuel m perms depth code (set_pos s start)) as [s1 r]. cbn in Ho, Hle, Hr.
  pose proof (st_le_trans _ _ _ Hle0 Hle) as Hle1.
  assert (bpost code (need L code (set_pos s start) + 1 <= Z.of_nat (S fuel)) s (s1, r)) as Hsame
    by (eapply bpost_from; [exact Hb|done|lia]).
  destruct r as [[]|e| |]; try done. destruct e; try done.
  destruct Hr as [Hd Hg]. destruct (Z.eqb_spec depth0 0).
  - eapply bpost_from; [by apply IHl|done|]. intros Hn.
    pose proof (need_charged code L Hl (set_pos s start) s1 (set_pos s1 start)) as Hch.
    specialize (Hch ltac:(cbn in Hg |- *; lia) (set_pos_le code s1 start Ho) Hs0 (set_pos_ok code s1 start Ho Hst)).
    lia.
  - eapply bpost_leaf; [done|apply leaf_skip, skip_to_end_ok|done|done|].
    intros _ s2 _ Hs2 Hle2 _. split; [done|]. split; [exact (st_le_trans _ _ _ Hle1 Hle2)|]. cbn. split; [lia|].
    destruct Hle2 as [_ Hle2]. apply gas_left_mono in Hle2. cbn in Hg. lia.
Qed.

(** After the charge of a control instruction, [k] runs with gas to spare. *)
Lemma after_charge code E s op (k : SM St unit) :
  data_ok code -> blen code <= L -> st_ok code s ->
  (forall s1 s2, st_ok code s2 -> st_le s s2 -> st_le s1 s2 -> pos s + 1 <= pos s2 ->
     gas_left (shared s1) <= gas_left (shared s) ->
     class_of op = GFree \/ gas_left (shared s1) + 1 <= gas_left (shared s) ->
     bpost code E s (k s2)) ->
  forall s0, st_ok code s0 -> st_le s s0 -> pos s + 1 <= pos s0 ->
  bpost code E s (bind (charge_opcode op) (fun _ => k) s0).
Proof.
  intros Hc Hl Hs Hk s0 Hs0 Hle0 Hp0. destruct (charge_opcode_ok code op s0 Hs0) as (Ho & Hle & Hp & Hr).
  unfold bind. destruct (charge_opcode op s0) as [s1 r]. cbn in *.
  pose proof (st_le_trans _ _ _ Hle0 Hle) as Hle1.
  pose proof (gas_left_mono _ _ (proj2 Hle0)). pose proof (gas_left_mono _ _ (proj2 Hle)).
  destruct r as [[]|e| |]; try done.
  - apply (Hk s1); try done; [by eapply st_le_refl|lia|lia|]. destruct Hr; [by left|right; lia].
  - split; [done|]. split; [done|]. by destruct e.
Qed.

(** A control instruction with a charge: whatever runs next has three units of fuel less
    to ask for. *)
Definition room (code : bytes) (s s1 : St) : Prop :=
  st_ok code s1 /\ st_le s s1 /\ need L code s1 + 3 <= need L code s
  /\ gas_left (shared s1) + 1 <= gas_left (shared s).

Lemma room_le code s s1 s2 :
  blen code <= L -> st_ok code s -> room code s s1 -> st_ok code s2 -> st_le s1 s2 -> room code s s2.
Proof.
  intros Hl Hs (H1 & L1 & N1 & G1) H2 L2. split; [done|].
  split; [exact (st_le_trans _ _ _ L1 L2)|].
  pose proof (need_charged code L Hl s s1 s2 G1 L2 Hs H2). split; [done|].
  pose proof (gas_left_mono _ _ (proj2 L2)). lia.
Qed.

Section step.
Context (fuel : nat) (depth : Z) (code : bytes) (s : St).
Hypothesis IHb : block_claim fuel.
Hypothesis IHl : loop_claim fuel.
Hypothesis Hc : data_ok code.
Hypothesis Hl : blen code <= L.
Hypothesis Hs : st_ok code s.

Let E : Prop := need L code s <= Z.of_nat (S fuel).

Lemma next_ok s1 : room code s s1 -> bpost code E s (execute_block fuel m perms depth code s1).
Proof.
  intros (H1 & L1 & N1 & _). eapply bpost_from; [by apply IHb|done|]. unfold E. lia.
Qed.

Lemma leaf_room {A} (c : SM St A) P (k : A -> SM St unit) s1 :
  leaf code c P -> room code s s1 ->
  (forall a s2, P a -> room code s s2 -> bpost code E s (k a s2)) ->
  bpost code E s (bind c k s1).
Proof.
  intros Hlf Hr Hk. pose proof Hr as (H1 & L1 & _). eapply bpost_leaf; [done|exact Hlf|done|done|].
  intros a s2 Ha H2 L2 _. apply Hk; [done|]. by eapply room_le.
Qed.

Lemma block_then_next s1 :
  room code s s1 ->
  bpost code E s (bind (in_block code (execute_block fuel m perms depth code))
                    (fun _ => execute_block fuel m perms depth code) s1).
Proof.
  intros Hr. pose proof Hr as (H1 & L1 & N1 & _). apply bpost_then.
  - eapply bpost_from; [|exact L1|].
    + apply bpost_in_block; [done|]. by apply IHb.
    + unfold E. lia.
  - intros s2 Heq H2 L2. apply next_ok. eapply room_le; [done|done|exact Hr|done|].
    pose proof (bpost_in_block code Hc _ s1 _ (IHb depth code s1 Hc Hl H1)) as (_ & Hle & _).
    by rewrite Heq in Hle.
Qed.

Lemma loop_then_next start s1 :
  room code s s1 -> 0 <= start <= blen code ->
  bpost code E s (bind (execute_loop fuel m perms depth code start)
                    (fun _ => execute_block fuel m perms depth code) s1).
Proof.
  intros Hr Hst. pose proof Hr as (H1 & L1 & N1 & G1).
  pose proof (IHl depth code start s1 Hc Hl H1 Hst) as Hloop.
  apply bpost_then.
  - eapply bpost_from; [exact Hloop|exact L1|].
    pose proof (need_charged code L Hl s s1 (set_pos s1 start) G1 (set_pos_le code s1 start H1) Hs
                  (set_pos_ok code s1 start H1 Hst)). unfold E. lia.
  - intros s2 Heq H2 L2. apply next_ok. eapply room_le; [done|done|exact Hr|done|].
    destruct Hloop as (_ & Hle & _). by rewrite Heq in Hle.
Qed.

Lemma call_then_next i args s1 :
  room code s s1 -> 0 <= i -> Forall value_ok args ->
  bpost code E s
    (bind (in_shared (function_with (execute_block fuel m perms) m perms i args (wadd 32 depth 1)))
       (fun r => bind (match r with Some v => push v | None => ret tt end)
                   (fun _ => execute_block fuel m perms depth code)) s1).
Proof.
  intros Hr Hi Ha. pose proof Hr as (H1 & L1 & N1 & G1). apply fpost_value; [done|done| |].
  - apply function_with_ok; [|done|done|by destruct H1 as (_ & _ & _ & ?)].
    intros f s2 Hf H2 Hsh Hp.
    assert (data_ok (fn_code f)) as Hd by (destruct Hm as [_ Hd]; rewrite Forall_forall in Hd; auto).
    assert (blen (fn_code f) <= L) as Hfl by (rewrite Forall_forall in Hbodies; auto).
    eapply bpost_from; [by apply IHb|by eapply st_le_refl|]. unfold E, need. rewrite Hsh, Hp.
    destruct Hs as (Hps & _ & _ & Hss). apply gas_left_nonneg in Hss.
    destruct H1 as (_ & _ & _ & Hs1). apply gas_left_nonneg in Hs1.
    unfold blen in *. nia.
  - intros r s2 Hres H2 L2.
    assert (room code s s2) as Hr2 by (by eapply room_le).
    eapply (leaf_room _ (fun _ => True)); [|done|intros _ s3 _ Hr3; by apply next_ok].
    destruct r; [by apply leaf_push|by apply leaf_ret].
Qed.

End step.

Lemma throw_ok code (E : Prop) s e s1 :
  st_ok code s1 -> st_le s s1 ->
  match e with Branch n => 0 <= n /\ gas_left (shared s1) < gas_left (shared s)
  | Gas _ => False | _ => True end ->
  bpost code E s (throw e s1).
Proof. intros H1 L1 He. split; [done|]. split; [done|]. by destruct e. Qed.

(** The opcode byte moves the reader by one. *)
Lemma rd_opcode code s :
  data_ok code -> st_ok code s ->
  match rd code read_byte s with
  | (s1, Ret b) => st_ok code s1 /\ st_le s s1 /\ pos s1 = pos s + 1
                   /\ shared s1 = shared s
  | (s1, Throw e) => st_ok code s1 /\ st_le s s1 /\ plain e
  | _ => False
  end.
Proof.
  intros Hc Hs. pose proof Hs as (Hp & Hst & Hl & Hh). pose proof (byte_advance code (pos s) Hc Hp) as Hb.
  unfold rd. destruct (read_byte code (pos s)) as [[b p]|e| |]; try done.
  - destruct Hb as (_ & -> & Hlt). unfold st_ok, st_le. cbn. frame.
  - frame.
Qed.

Lemma block_step fuel : block_claim fuel -> loop_claim fuel -> block_claim (S fuel).
Proof.
  intros IHb IHl depth code s Hc Hl Hs. cbn [execute_block].
  destruct (remaining code (pos s) =? 0); [split; [done|split; [by eapply st_le_refl|done]]|].
  unfold bind at 1. pose proof (rd_opcode code s Hc Hs) as Hrd.
  destruct (rd code read_byte s) as [s0 [op|e| |]]; try done.
  2: { destruct Hrd as (? & ? & He). split; [done|]. split; [done|]. by destruct e. }
  destruct Hrd as (H0 & L0 & P0 & _).
  apply after_charge; try done; [|lia]. clear s0 H0 L0 P0.
  intros s1 s2 H2 L2 L12 P2 Gle Hcl.
  assert (class_of op <> GFree -> room code s s2) as Hroom.
  { intros Hnf. destruct Hcl as [|Hg]; [done|]. split; [done|]. split; [done|].
    pose proof (need_charged code L Hl s s1 s2 Hg L12 Hs H2). split; [done|].
    pose proof (gas_left_mono _ _ (proj2 L12)). lia. }
  destruct class_branch as (C2 & C3 & C4 & CC & CD & C10).
  destruct (Z.eqb_spec op 0x00); [by apply throw_ok|].
  destruct (Z.eqb_spec op 0x02) as [->|].
  { eapply leaf_room; [done..|apply leaf_rd, read_byte_reads|by apply Hroom|].
    intros _ s3 _ Hr. by apply block_then_next. }
  destruct (Z.eqb_spec op 0x03) as [->|].
  { eapply leaf_room; [done..|apply leaf_rd, read_byte_reads|by apply Hroom|].
    intros _ s3 _ Hr. eapply leaf_room; [done..|apply leaf_get_pos|exact Hr|].
    intros st s4 Hst Hr4. by apply loop_then_next. }
  destruct (Z.eqb_spec op 0x04) as [->|].
  { eapply leaf_room; [done..|apply leaf_rd, read_byte_reads|by apply Hroom|].
    intros _ s3 _ Hr. eapply leaf_room; [done..|apply leaf_pop_i32|exact Hr|].
    intros c s4 _ Hr4. destruct (negb (c =? 0)); [by apply block_then_next|].
    eapply leaf_room; [done..|apply leaf_skip, skip_to_else_or_end_ok|exact Hr4|].
    intros _ s5 _ Hr5. eapply leaf_room; [done..|apply leaf_at_else|exact Hr5|].
    intros [] s6 _ Hr6; [by apply block_then_next|by apply next_ok]. }
  destruct (Z.eqb_spec op 0x05); [by eapply bpost_end; [|apply leaf_skip, skip_to_end_ok|..]|].
  destruct (Z.eqb_spec op 0x0B); [by eapply bpost_end; [|apply (leaf_ret code tt (fun _ => True))|..]|].
  destruct (Z.eqb_spec op 0x0C) as [->|].
  { eapply leaf_room; [done..|apply leaf_rd, read_u32_reads|by apply Hroom|].
    intros tgt s3 Hn (H3 & L3 & _ & G3). apply throw_ok; [done..|]. unfold in_range in Hn. lia. }
  destruct (Z.eqb_spec op 0x0D) as [->|].
  { eapply leaf_room; [done..|apply leaf_rd, read_u32_reads|by apply Hroom|].
    intros tgt s3 Hn Hr. eapply leaf_room; [done..|apply leaf_pop_i32|exact Hr|].
    intros c s4 _ Hr4. destruct (negb (c =? 0)); [|by apply next_ok].
    destruct Hr4 as (H4 & L4 & _ & G4). apply throw_ok; [done..|]. unfold in_range in Hn. lia. }
  destruct (Z.eqb_spec op 0x0F); [by apply throw_ok|].
  destruct (Z.eqb_spec op 0x10) as [->|].
  { eapply leaf_room; [done..|apply leaf_rd, read_u32_reads|by apply Hroom|].
    intros i s3 Hi Hr. unfold in_range in Hi.
    eapply leaf_room; [done..|apply leaf_lift, callee_type_ok; lia|exact Hr|]. intros t s4 _ Hr4.
    eapply leaf_room; [done..|apply leaf_split_args|exact Hr4|]. intros args s5 Ha Hr5.
    apply call_then_next; try done. lia. }
  eapply bpost_leaf; [done|apply exec_plain_leaf|done|done|]. intros _ s3 _ H3 L3 P3.
  pose proof (st_le_trans _ _ _ L2 L3) as Ls3.
  eapply bpost_from; [by apply IHb|done|].
  pose proof (need_free code L Hl s s3 ltac:(lia) Ls3 Hs H3). lia.
Qed.

Lemma blocks_ok fuel : block_claim fuel /\ loop_claim fuel.
Proof.
  induction fuel as [|fuel [IHb IHl]].
  - split.
    + intros depth code s Hc Hl Hs. cbn. split; [done|]. split; [by eapply st_le_refl|]. cbn.
      destruct Hs as (? & _ & _ & Hh). apply gas_left_nonneg in Hh. unfold need, blen in *. nia.
    + intros depth code start s Hc Hl Hs Hst. cbn. split; [done|]. split; [by eapply st_le_refl|]. cbn.
      destruct Hs as (? & _ & _ & Hh). apply gas_left_nonneg in Hh. unfold need, blen in *. cbn in *. nia.
  - split; [by apply block_step|by apply loop_step].
Qed.

Definition function_need (h : Shared) : Z := gas_left h * (L + 3) + L + 1.

Lemma execute_function_ok fuel i args depth h :
  0 <= i -> Forall value_ok args -> shared_ok h ->
  fpost (function_need h <= Z.of_nat fuel) h (execute_function fuel m perms i args depth h).
Proof.
  intros Hi Ha Hh. apply function_with_ok; [|done..]. intros f s Hf Hs Hsh Hp.
  destruct (blocks_ok fuel) as [Hb _].
  assert (data_ok (fn_code f)) by (destruct Hm as [_ Hd]; rewrite Forall_forall in Hd; auto).
  assert (blen (fn_code f) <= L) by (rewrite Forall_forall in Hbodies; auto).
  eapply bpost_from; [by apply Hb|by eapply st_le_refl|]. unfold need, function_need.
  rewrite Hsh, Hp. lia.
Qed.

End functions.

(** ** More fuel changes nothing *)

(** [m'] agrees with [m] wherever [m] returns. *)
Definition sub {S A} (m m' : SM S A) : Prop := forall s, (m s).2 <> Diverge -> m' s = m s.

Lemma sub_refl {S A} (m : SM S A) : sub m m.
Proof. done. Qed.

Lemma sub_trans {S A} (m1 m2 m3 : SM S A) : sub m1 m2 -> sub m2 m3 -> sub m1 m3.
Proof. intros H12 H23 s Hs. rewrite H23; rewrite H12; done. Qed.

Lemma sub_bind {S A B} (m m' : SM S A) (k k' : A -> SM S B) :
  sub m m' -> (forall a, sub (k a) (k' a)) -> sub (bind m k) (bind m' k').
Proof.
  intros Hm Hk s Hs. unfold bind in *. specialize (Hm s).
  destruct (m s) as [s1 r]. destruct r as [a|e| |]; cbn in *;
    try (rewrite Hm by done; by (apply Hk || done)).
Qed.

Lemma sub_in_block code b b' : sub b b' -> sub (in_block code b) (in_block code b').
Proof.
  intros Hb s Hs. unfold in_block in *. specialize (Hb s).
  destruct (b s) as [s1 r]. cbn in Hb. destruct r as [[]|e| |]; cbn in *;
    try (by rewrite Hb); done.
Qed.

Lemma sub_in_shared {A} (m m' : SM Shared A) : sub m m' -> sub (in_shared m) (in_shared m').
Proof.
  intros Hm s Hs. unfold in_shared in *. specialize (Hm (shared s)).
  destruct (m (shared s)) as [h r]. cbn in *. by rewrite Hm.
Qed.

Lemma sub_function blk blk' m perms i args depth :
  (forall d c, sub (blk d c) (blk' d c)) ->
  sub (function_with blk m perms i args depth) (function_with blk' m perms i args depth).
Proof.
  intros Hb h Hs. unfold function_with in *. repeat case_decide; try done.
  destruct (functions m !! _) as [f|]; [|done]. destruct (types m !! _) as [t|]; [|done].
  specialize (Hb depth (fn_code f) (mkSt 0 [] (initial_locals t f args) h)).
  destruct (blk depth (fn_code f) _) as [s r]. cbn in *. rewrite Hb; [done|]. by intros ->.
Qed.

Lemma fuel_step fuel m perms :
  (forall depth code, sub (execute_block fuel m perms depth code) (execute_block (S fuel) m perms depth code))
  /\ (forall depth code start, sub (execute_loop fuel m perms depth code start)
                                 (execute_loop (S fuel) m perms depth code start)).
Proof.
  induction fuel as [|fuel [IHb IHl]].
  { split; intros ? ? * Hs; by destruct Hs. }
  split.
  - intros depth code s Hs. rename IHb into Hb. rename IHl into Hlp.
    cbn [execute_block] in Hs |- *. destruct (remaining code (pos s) =? 0); [done|]. revert s Hs.
    apply sub_bind; [done|]. intros op. apply sub_bind; [done|]. intros _.
    repeat match goal with
    | |- sub (if ?b then _ else _) _ => destruct b
    | |- sub (bind _ _) (bind _ _) => apply sub_bind; [|intros ?]
    | |- sub (in_block _ _) _ => apply sub_in_block
    | |- sub (in_shared _) _ => apply sub_in_shared
    | |- sub (function_with _ _ _ _ _ _) _ => apply sub_function; intros ? ?
    | |- sub (execute_block _ _ _ _ _) _ => apply Hb
    | |- sub (execute_loop _ _ _ _ _ _) _ => apply Hlp
    | |- sub ?x ?x => apply sub_refl
    end.
  - intros depth code start s Hs. cbn [execute_loop] in Hs |- *.
    rewrite (IHb depth code (set_pos s start)) by (intros Hd; destruct (execute_block _ _ _ _ _ _) as [? []]; done).
    destruct (execute_block fuel m perms depth code (set_pos s start)) as [s1 r]. destruct r as [[]|e| |]; try done. destruct e; try done.
    destruct (Z.eqb_spec depth0 0); [by apply IHl|done].
Qed.

Lemma fuel_mono f1 f2 m perms i args depth :
  (f1 <= f2)%nat ->
  sub (execute_function f1 m perms i args depth) (execute_function f2 m perms i args depth).
Proof.
  intros Hle. induction Hle as [|f2 Hle IH]; [apply sub_refl|].
  eapply sub_trans; [exact IH|]. apply sub_function. intros. apply fuel_step.
Qed.

End InterpTermination.
