(* ===== verification/InterpPrivacy.v ===== *)
(** * gratia-vm: sensor privacy

    A contract without a permission cannot learn what the permission protects: runs in
    environments that differ only in data the contract has no permission for do the same
    thing.  [ni] is the relational property of a computation, closed under the
    interpreter's combinators. *)

From stdpp Require Import base tactics strings pretty gmap list.
From Stdlib Require Import ZArith Lia.
From S2P Require Import Prelude CoreTypes Ieee Gas Sandbox HostFunctions WasmModule Interp.
Local Open Scope Z_scope.

Module InterpPrivacy.
Import Wasm Interp.

(** Indistinguishable to a contract with permissions [p]. *)
Definition env_sim (p : Sandbox.ContractPermissions) (e1 e2 : Host.HostEnvironment) : Prop :=
  Host.block_height e1 = Host.block_height e2
  /\ Host.block_timestamp e1 = Host.block_timestamp e2
  /\ Host.caller_address e1 = Host.caller_address e2
  /\ Host.caller_balance e1 = Host.caller_balance e2
  /\ (Sandbox.location p = true -> Host.location e1 = Host.location e2)
  /\ (Sandbox.proximity p = true -> Host.nearby_peer_count e1 = Host.nearby_peer_count e2)
  /\ (Sandbox.presence p = true -> Host.presence_score e1 = Host.presence_score e2)
  /\ (Sandbox.sensor p = true -> Host.sensor_readings e1 = Host.sensor_readings e2)
  /\ Host.storage e1 = Host.storage e2 /\ Host.events e1 = Host.events e2.

#[export] Instance env_sim_equiv p : Equivalence (env_sim p).
Proof.
  split.
  - intros e. unfold env_sim. split_and!; done.
  - intros e1 e2 (?&?&?&?&?&?&?&?&?&?). unfold env_sim. split_and!; auto; intros; symmetry; auto.
  - intros e1 e2 e3 (?&?&?&?&?&?&?&?&?&?) (?&?&?&?&?&?&?&?&?&?). unfold env_sim.
    split_and!; try congruence; intros Hp;
      repeat match goal with H : _ = true -> _ |- _ => specialize (H Hp) || clear H end; congruence.
Qed.

Section privacy.
Context (p : Sandbox.ContractPermissions).

Definition shared_sim (h1 h2 : Shared) : Prop :=
  globals h1 = globals h2 /\ memory h1 = memory h2 /\ gas_meter h1 = gas_meter h2
  /\ env_sim p (host_env h1) (host_env h2).

Definition st_sim (s1 s2 : St) : Prop :=
  pos s1 = pos s2 /\ stack s1 = stack s2 /\ locals s1 = locals s2
  /\ shared_sim (shared s1) (shared s2).

(** Indistinguishable states go to indistinguishable states with the same outcome. *)
Definition ni {S A} (R : S -> S -> Prop) (m : SM S A) : Prop :=
  forall s1 s2, R s1 s2 -> R (m s1).1 (m s2).1 /\ (m s1).2 = (m s2).2.

Lemma ni_ret {S A} R (a : A) : ni (S := S) R (ret a).
Proof. by intros s1 s2. Qed.
Lemma ni_throw {S A} R e : ni (S := S) (A := A) R (throw e).
Proof. by intros s1 s2. Qed.
Lemma ni_lift {S A} R (x : exc A) : ni (S := S) R (lift x).
Proof. by intros s1 s2. Qed.

Lemma ni_bind {S A B} R (m : SM S A) (k : A -> SM S B) :
  ni R m -> (forall a, ni R (k a)) -> ni R (bind m k).
Proof.
  intros Hm Hk s1 s2 Hs. unfold bind. destruct (Hm s1 s2 Hs) as [Hr He].
  destruct (m s1) as [s1' r1], (m s2) as [s2' r2]. cbn in *. subst r2.
  destruct r1; [by apply Hk|done..].
Qed.

(** Open a pair of indistinguishable states. *)
Ltac open_st :=
  let s1 := fresh "s1" in let s2 := fresh "s2" in
  intros s1 s2 (?&?&?&?&?&?&?); destruct s1 as [? ? ? []], s2 as [? ? ? []];
  cbn [pos stack locals shared globals memory gas_meter host_env] in *; subst.

Lemma ni_rd {A} code (f : bytes -> Z -> exc (A * Z)) : ni st_sim (rd code f).
Proof. open_st. unfold rd. cbn. destruct (f code _) as [[]| | |]; done. Qed.

Lemma ni_pop : ni st_sim pop.
Proof. open_st. unfold pop. cbn. destruct stack1; done. Qed.

Lemma ni_push v : ni st_sim (push v).
Proof. by open_st. Qed.

Lemma ni_get_memory : ni st_sim get_memory.
Proof. by open_st. Qed.

Lemma ni_put_memory m : ni st_sim (put_memory m).
Proof. by open_st. Qed.

Lemma ni_shared {A} (m : SM Shared A) : ni shared_sim m -> ni st_sim (in_shared m).
Proof.
  intros Hm s1 s2 (Hp & Hs & Hl & Hh). unfold in_shared. destruct (Hm _ _ Hh) as [H1 H2].
  destruct (m (shared s1)), (m (shared s2)). by cbn in *.
Qed.

Lemma ni_charge f : ni shared_sim (charge f).
Proof.
  intros h1 h2 (?&?&Hg&?). unfold charge. rewrite Hg. destruct (f (gas_meter h2)). by cbn.
Qed.

Lemma ni_pop_i32 : ni st_sim pop_i32.
Proof. apply ni_bind; [apply ni_pop|]. intros. apply ni_lift. Qed.
Lemma ni_pop_i64 : ni st_sim pop_i64.
Proof. apply ni_bind; [apply ni_pop|]. intros. apply ni_lift. Qed.
Lemma ni_pop_f32 : ni st_sim pop_f32.
Proof. apply ni_bind; [apply ni_pop|]. intros. apply ni_lift. Qed.
Lemma ni_pop_f64 : ni st_sim pop_f64.
Proof. apply ni_bind; [apply ni_pop|]. intros. apply ni_lift. Qed.

Lemma ni_un {A} (get : SM St A) f : ni st_sim get -> ni st_sim (un get f).
Proof. intros Hg. apply ni_bind; [done|]. intros. apply ni_push. Qed.
Lemma ni_bin {A} (get : SM St A) f : ni st_sim get -> ni st_sim (bin get f).
Proof. intros Hg. do 2 (apply ni_bind; [done|intros]). apply ni_push. Qed.
Lemma ni_div get f : ni st_sim get -> ni st_sim (div_op get f).
Proof.
  intros Hg. do 2 (apply ni_bind; [done|intros]). destruct (_ =? _); [apply ni_throw|apply ni_push].
Qed.
Lemma ni_load code n f : ni st_sim (load code n f).
Proof.
  do 2 (apply ni_bind; [apply ni_rd|intros]). apply ni_bind; [apply ni_pop_i32|intros].
  apply ni_bind; [apply ni_lift|intros]. apply ni_bind; [apply ni_get_memory|intros].
  case_decide; [apply ni_lift|]. apply ni_bind; [apply ni_lift|intros; apply ni_push].
Qed.
Lemma ni_store code get f : ni st_sim get -> ni st_sim (store code get f).
Proof.
  intros Hg. do 2 (apply ni_bind; [apply ni_rd|intros]). apply ni_bind; [done|intros].
  apply ni_bind; [apply ni_pop_i32|intros]. apply ni_bind; [apply ni_lift|intros].
  apply ni_bind; [apply ni_get_memory|intros].
  case_decide; [apply ni_lift|]. apply ni_bind; [apply ni_lift|intros; apply ni_put_memory].
Qed.
Lemma ni_memory_size code : ni st_sim (memory_size code).
Proof.
  apply ni_bind; [apply ni_rd|intros]. apply ni_bind; [apply ni_get_memory|intros]. apply ni_push.
Qed.
Lemma ni_memory_grow code : ni st_sim (memory_grow code).
Proof.
  apply ni_bind; [apply ni_rd|intros]. apply ni_bind; [apply ni_pop_i32|intros].
  apply ni_bind; [apply ni_get_memory|intros]. destruct (_ <? _); [apply ni_push|].
  cbv zeta. case_decide; [apply ni_push|]. apply ni_bind; [apply ni_put_memory|intros; apply ni_push].
Qed.

Lemma ni_local_get code : ni st_sim (local_get code).
Proof. apply ni_bind; [apply ni_rd|]. intros i. open_st. by destruct (_ !! _). Qed.
Lemma ni_local_set code : ni st_sim (local_set code).
Proof.
  apply ni_bind; [apply ni_rd|]. intros i. apply ni_bind; [apply ni_pop|]. intros v. open_st.
  by case_decide.
Qed.
Lemma ni_local_tee code : ni st_sim (local_tee code).
Proof.
  apply ni_bind; [apply ni_rd|]. intros i. open_st. destruct stack1; [done|]. by case_decide.
Qed.
Lemma ni_global_get code : ni st_sim (global_get code).
Proof. apply ni_bind; [apply ni_rd|]. intros i. open_st. by destruct (_ !! _). Qed.
Lemma ni_global_set code : ni st_sim (global_set code).
Proof.
  apply ni_bind; [apply ni_rd|]. intros i. apply ni_bind; [apply ni_pop|]. intros v. open_st.
  by case_decide.
Qed.

Create HintDb ni.
#[local] Hint Resolve ni_ret ni_throw ni_lift ni_rd ni_pop ni_push ni_get_memory ni_put_memory
  ni_pop_i32 ni_pop_i64 ni_pop_f32 ni_pop_f64 ni_un ni_bin ni_div ni_load ni_store
  ni_memory_size ni_memory_grow ni_local_get ni_local_set ni_local_tee ni_global_get
  ni_global_set ni_bind : ni.

Lemma ni_exec_plain code op : ni st_sim (exec_plain code op).
Proof.
  unfold exec_plain.
  assert (Forall (fun e => ni st_sim e.2) (plain_ops code)) as Hall.
  { unfold plain_ops, structural_ops, variable_ops, constant_ops, i32_comparisons, i64_comparisons,
    f32_comparisons, f64_comparisons, i32_arithmetic, i64_arithmetic, f32_arithmetic, f64_arithmetic,
    memory_ops, conversions; cbn [app]. repeat (apply Forall_cons; split); [..|by apply Forall_nil]; cbn [snd];
      auto 4 with ni. }
  destruct (find_op op (plain_ops code)) as [m|] eqn:E; [|apply ni_throw].
  revert E Hall. generalize (plain_ops code). intros l. induction l as [|[k x] l IH]; [done|].
  cbn. intros E [Hx Hl]%Forall_cons. destruct (k =? op); [by simplify_eq|auto].
Qed.

(** ** Host calls *)

Lemma ni_get_mem : ni shared_sim get_mem.
Proof. intros h1 h2 (?&Hm&?&?). unfold get_mem. cbn. by rewrite Hm. Qed.
Lemma ni_put_mem m : ni shared_sim (put_mem m).
Proof. by intros h1 h2 (?&?&?&?). Qed.

(** A field both environments agree on. *)
Lemma ni_field {A} (f : Host.HostEnvironment -> A) :
  (forall e1 e2, env_sim p e1 e2 -> f e1 = f e2) ->
  ni shared_sim (let! e := get_env in ret (f e)).
Proof.
  intros Hf h1 h2 Hh. pose proof Hh as (_ & _ & _ & He). cbn. rewrite (Hf _ _ He). done.
Qed.

(** A continuation that looks at such fields only. *)
Lemma ni_read {A} (k : Host.HostEnvironment -> SM Shared A) :
  (forall e1 e2, env_sim p e1 e2 -> k e1 = k e2) -> (forall e, ni shared_sim (k e)) ->
  ni shared_sim (bind get_env k).
Proof.
  intros Heq Hk h1 h2 Hh. pose proof Hh as (_ & _ & _ & He). cbn. rewrite (Heq _ _ He). by apply Hk.
Qed.

Lemma ni_update (f : Host.HostEnvironment -> Host.HostEnvironment) :
  (forall e1 e2, env_sim p e1 e2 -> env_sim p (f e1) (f e2)) ->
  ni shared_sim (let! e := get_env in let! _ := put_env (f e) in ret (None : option Value)).
Proof. intros Hf h1 h2 (?&?&?&He). cbn. split; [|done]. by split_and!; [..|apply Hf]. Qed.

Lemma ni_storage_read args : ni shared_sim (host_storage_read args).
Proof.
  apply ni_bind; [apply ni_get_mem|]. intros m. case_decide; [apply ni_ret|].
  apply ni_bind; [apply ni_lift|]. intros k. apply ni_read.
  - intros e1 e2 (_&_&_&_&_&_&_&_&Hs&_). unfold Host.storage_read. by rewrite Hs.
  - intros e. destruct (Host.storage_read e k); [|apply ni_ret]. cbv zeta. case_decide; [|apply ni_ret].
    do 2 (apply ni_bind; [apply ni_lift|intros]). apply ni_bind; [apply ni_put_mem|intros]. apply ni_ret.
Qed.

Lemma ni_storage_write args : ni shared_sim (host_storage_write args).
Proof.
  apply ni_bind; [apply ni_get_mem|]. intros m. case_decide; [apply ni_throw|].
  apply ni_bind; [apply ni_lift|]. intros k. case_decide; [apply ni_throw|].
  apply ni_bind; [apply ni_lift|]. intros v. apply (ni_update (fun e => Host.storage_write e k v)).
  intros e1 e2 (?&?&?&?&?&?&?&?&Hs&?). unfold env_sim. cbn. rewrite Hs. split_and!; done.
Qed.

Lemma ni_emit_event args : ni shared_sim (host_emit_event args).
Proof.
  apply ni_bind; [apply ni_get_mem|]. intros m. apply ni_bind; [apply ni_lift|]. intros t.
  case_decide; [apply ni_throw|]. apply ni_bind; [apply ni_lift|]. intros d.
  apply (ni_update (fun e => Host.emit_event e (replicate 32 0) t d)).
  intros e1 e2 (?&?&?&?&?&?&?&?&?&Hv). unfold env_sim. cbn. rewrite Hv. split_and!; done.
Qed.

Lemma ni_caller_address : ni shared_sim host_caller_address.
Proof.
  apply ni_read.
  - intros e1 e2 (_&_&Ha&_). unfold Host.get_caller_address. by rewrite Ha.
  - intros e. apply ni_bind; [apply ni_get_mem|]. intros m. case_decide; [|apply ni_ret].
    apply ni_bind; [apply ni_lift|]. intros m'. apply ni_bind; [apply ni_put_mem|intros]. apply ni_ret.
Qed.

(** Every host function a contract may call reads only what its permissions cover. *)
Lemma ni_host_call name args :
  Sandbox.permitted p name = true -> ni shared_sim (host_call name args).
Proof.
  intros Hp. unfold host_call.
  repeat case_decide; subst;
    try (apply (ni_field (fun e => Some _)); intros e1 e2 (?&?&?&?&Hl&Hx&Hpr&Hs&?&?);
         try (by rewrite Hl by exact Hp)).
  all: try (apply ni_storage_read || apply ni_storage_write || apply ni_emit_event
            || apply ni_caller_address || apply ni_ret).
  all: try (unfold Host.get_location, Host.get_nearby_peers, Host.get_presence_score,
              Host.get_block_height, Host.get_block_timestamp, Host.get_caller_balance;
            first [by rewrite Hl by exact Hp|by rewrite Hx by exact Hp|by rewrite Hpr by exact Hp|congruence]).
  destruct (sensor_of _) as [t|]; [|apply ni_ret].
  apply (ni_field (fun e => Some (F64 (default 0 (Host.value <$> Host.get_sensor_data e t))))).
  intros e1 e2 (?&?&?&?&?&?&?&Hs&?&?). unfold Host.get_sensor_data. by rewrite Hs by exact Hp.
Qed.

Lemma ni_dispatch m i args : ni shared_sim (dispatch_host_call m p i args).
Proof.
  unfold dispatch_host_call. destruct (imports m !! _) as [imp|]; [|apply ni_lift].
  apply ni_bind; [apply ni_charge|]. intros _. unfold check_perm, Sandbox.check_permission.
  destruct (Sandbox.permitted p (imp_name imp)) eqn:Hp.
  - apply ni_bind; [apply ni_ret|]. intros _. by apply ni_host_call.
  - by intros h1 h2 Hh.
Qed.

(** ** Blocks and functions *)

Lemma ni_in_block code b : ni st_sim b -> ni st_sim (in_block code b).
Proof.
  intros Hb s1 s2 Hs. unfold in_block. destruct (Hb s1 s2 Hs) as [Hr He].
  destruct (b s1) as [s1' r1], (b s2) as [s2' r2]. cbn in Hr, He. subst r2.
  destruct r1 as [|e| |]; try done. destruct e; try done.
  destruct (depth =? 0); [by apply ni_rd|].
  apply ni_bind; [apply ni_rd|intros; apply ni_throw|done].
Qed.

Lemma ni_function blk m i args depth :
  (forall d c, ni st_sim (blk d c)) -> ni shared_sim (function_with blk m p i args depth).
Proof.
  intros Hb. unfold function_with. case_decide; [apply ni_throw|].
  case_decide; [apply ni_dispatch|]. destruct (functions m !! _) as [f|]; [|apply ni_throw].
  destruct (types m !! _) as [t|]; [|apply ni_throw]. intros h1 h2 Hh.
  destruct (Hb depth (fn_code f) (mkSt 0 [] (initial_locals t f args) h1)
              (mkSt 0 [] (initial_locals t f args) h2)) as [(_ & Hst & _ & Hs) He]; [done|].
  destruct (blk _ _ _) as [s1 r1], (blk _ _ _) as [s2 r2]. cbn in *. by rewrite Hst, He.
Qed.

Lemma ni_charge_opcode op : ni st_sim (charge_opcode op).
Proof.
  unfold charge_opcode. destruct (class_of op); try apply ni_ret; apply ni_shared, ni_charge.
Qed.

Lemma ni_split_args n : ni st_sim (split_args n).
Proof. open_st. unfold split_args. cbn [stack]. by case_decide. Qed.

Lemma ni_at_else code : ni st_sim (at_else code).
Proof. open_st. unfold at_else. cbn [pos]. case_decide; [|done]. by destruct (_ !! _). Qed.

Lemma ni_get_pos : ni st_sim get_pos.
Proof. by open_st. Qed.

Lemma ni_blocks fuel m :
  (forall depth code, ni st_sim (execute_block fuel m p depth code))
  /\ (forall depth code start, ni st_sim (execute_loop fuel m p depth code start)).
Proof.
  induction fuel as [|fuel [IHb IHl]]; [split; intros; apply ni_lift|]. split.
  - intros depth code s1 s2 Hs. cbn [execute_block]. pose proof Hs as (Hp & _). rewrite Hp.
    destruct (remaining code (pos s2) =? 0); [done|]. revert s1 s2 Hs Hp.
    match goal with |- context [bind (rd code read_byte) ?k] =>
      enough (ni st_sim (bind (rd code read_byte) k)) as Hni by (intros; by apply Hni) end.
    apply ni_bind; [apply ni_rd|]. intros op. apply ni_bind; [apply ni_charge_opcode|]. intros _.
    repeat match goal with
    | |- ni _ (if ?b then _ else _) => destruct b
    | |- ni _ (bind _ _) => apply ni_bind; [|intros ?]
    | |- ni _ (in_block _ _) => apply ni_in_block
    | |- ni _ (in_shared _) => apply ni_shared, ni_function; intros ? ?
    | |- ni _ (match ?r with Some _ => _ | None => _ end) => destruct r
    | |- ni _ (execute_block _ _ _ _ _) => apply IHb
    | |- ni _ (execute_loop _ _ _ _ _ _) => apply IHl
    | |- ni _ (exec_plain _ _) => apply ni_exec_plain
    | |- ni _ (split_args _) => apply ni_split_args
    | |- ni _ (at_else _) => apply ni_at_else
    | |- ni _ get_pos => apply ni_get_pos
    | |- ni _ (skip _ _) => apply ni_rd
    | |- ni _ _ => solve [auto with ni]
    end.
  - intros depth code start s1 s2 Hs. cbn [execute_loop].
    assert (st_sim (set_pos s1 start) (set_pos s2 start)) as Hs' by (by destruct Hs as (?&?&?&?)).
    destruct (IHb depth code _ _ Hs') as [Hr He].
    destruct (execute_block fuel m p depth code (set_pos s1 start)) as [s1' r1],
      (execute_block fuel m p depth code (set_pos s2 start)) as [s2' r2]. cbn in Hr, He. subst r2.
    destruct r1 as [|e| |]; try done. destruct e; try done.
    destruct (depth0 =? 0); [by apply IHl|].
    apply ni_bind; [apply ni_rd|intros; apply ni_throw|done].
Qed.

Lemma ni_execute fuel m i args depth : ni shared_sim (execute_function fuel m p i args depth).
Proof. apply ni_function. intros. apply ni_blocks. Qed.

End privacy.

End InterpPrivacy.
