(* ===== verification/WasmParse.v ===== *)
(** * gratia-vm: the module parser

    The parser terminates on every byte string, and a module it accepts is well-formed.
    It can abort the process: a code body whose declared size is smaller than its local
    declarations makes a slice end before it starts. *)

From stdpp Require Import base tactics strings pretty gmap list.
From Stdlib Require Import ZArith Lia.
From S2P Require Import Prelude CoreTypes Ieee Gas Sandbox HostFunctions WasmModule Interp.
From S2P Require Import InterpSafety.
Local Open Scope Z_scope.

Module WasmParse.
Import Wasm Interp InterpSafety.

(** Like [read_post], but the process may abort. *)
Definition ppost {A} (P : A -> Prop) (d : bytes) (p : Z) (r : exc (A * Z)) : Prop :=
  match r with
  | Ret (a, p') => P a /\ p <= p' <= blen d
  | Throw _ | Panic => True
  | Diverge => False
  end.

Definition preads {A} (f : bytes -> Z -> exc (A * Z)) (P : A -> Prop) (d : bytes) : Prop :=
  forall p, 0 <= p <= blen d -> ppost P d p (f d p).

Section parser.
Context (d : bytes).
Hypothesis Hd : data_ok d.

Lemma preads_reads {A} (f : bytes -> Z -> exc (A * Z)) P : reads f P -> preads f P d.
Proof.
  intros Hf p Hp. specialize (Hf d p Hd Hp). unfold read_post, ppost in *.
  by destruct (f d p) as [[]| | |].
Qed.

Lemma preads_bind {A B} (f : bytes -> Z -> exc (A * Z)) (k : A -> Z -> exc (B * Z)) P Q p :
  preads f P d -> 0 <= p <= blen d ->
  (forall a p', P a -> p <= p' <= blen d -> ppost Q d p' (k a p')) ->
  ppost Q d p (ebind (f d p) (fun '(a, p') => k a p')).
Proof.
  intros Hf Hp Hk. specialize (Hf p Hp). unfold ppost in *.
  destruct (f d p) as [[a p']| | |]; try done. cbn. destruct Hf as [Ha Hp'].
  specialize (Hk a p' Ha Hp'). destruct (k a p') as [[b p'']| | |]; try done. destruct Hk. split; [done|lia].
Qed.

Lemma ppost_ret {A} (P : A -> Prop) a p : P a -> p <= blen d -> ppost P d p (Ret (a, p)).
Proof. intros. split; [done|lia]. Qed.

Lemma read_bytes_preads n :
  preads (read_bytes n) (fun b => Forall byte_ok b /\ blen b <= blen d) d.
Proof.
  intros p Hp. unfold read_bytes. destruct Hd as [Hb Hl].
  case_decide; [done|]. unfold slice. case_decide as Hs; [|done]. cbn. split; [|lia]. split.
  - by apply Forall_take, Forall_drop.
  - unfold blen. rewrite length_take, length_drop. lia.
Qed.

Lemma read_vec_preads {A} (item : bytes -> Z -> exc (A * Z)) P n :
  preads item P d -> preads (read_vec item n) (Forall P) d.
Proof.
  intros Hi. induction n as [|n IH]; intros p Hp; cbn [read_vec].
  - split; [constructor|lia].
  - apply (preads_bind item (fun x p => ebind (read_vec item n d p) (fun '(l, p) => Ret (x :: l, p))) P);
      [done..|]. intros x p1 Hx Hp1.
    apply (preads_bind (read_vec item n) (fun l p => Ret (x :: l, p)) (Forall P)); [done|lia|].
    intros l p2 Hl Hp2. apply ppost_ret; [by constructor|lia].
Qed.

Lemma read_counted_preads {A} (item : bytes -> Z -> exc (A * Z)) P :
  preads item P d -> preads (read_counted item) (Forall P) d.
Proof.
  intros Hi p Hp. unfold read_counted.
  apply (preads_bind read_u32_leb128 (fun c p => read_vec item (Z.to_nat c) d p) (in_range 32));
    [apply preads_reads, read_u32_reads|done|].
  intros c p1 _ Hp1. apply read_vec_preads; [done|lia].
Qed.

(** Bind with a reader of the previous sections, by goal. *)
Ltac pread lem := eapply preads_bind; [first [apply preads_reads, lem|apply lem]|lia|]; intros ? ? ? ?.

Lemma const_preads t : preads (parse_const_expr t) value_ok d.
Proof.
  intros p Hp. unfold parse_const_expr. pread read_byte_reads.
  assert (forall v q, value_ok v -> 0 <= q <= blen d ->
            ppost value_ok d q (ebind (read_byte d q) (fun '(e, q') =>
              if e =? 0x0B then Ret (v, q')
              else Throw (InvalidBytecode "expected END after const expression")))) as Hfin.
  { intros v q Hv Hq. pread read_byte_reads. destruct (_ =? _); [apply ppost_ret; [done|lia]|done]. }
  repeat match goal with |- context [if ?b then _ else _] => destruct b end.
  - pread read_i32_reads. apply Hfin; [done|lia].
  - pread read_i64_reads. apply Hfin; [done|lia].
  - pread read_f32_reads. apply Hfin; [done|lia].
  - pread read_f64_reads. apply Hfin; [done|lia].
  - apply ppost_ret; [apply default_value_ok|lia].
Qed.

Lemma valtype_preads : preads read_valtype (fun _ => True) d.
Proof.
  intros p Hp. unfold read_valtype. pread read_byte_reads. unfold valtype_from_byte.
  repeat destruct (_ =? _); cbn; done || lia.
Qed.

Lemma type_preads : preads parse_type (fun _ => True) d.
Proof.
  intros p Hp. unfold parse_type. pread read_byte_reads. destruct (_ =? _); [|done].
  eapply preads_bind; [apply read_counted_preads, valtype_preads|lia|]. intros ? ? _ ?.
  eapply preads_bind; [apply read_counted_preads, valtype_preads|lia|]. intros ? ? _ ?.
  by apply ppost_ret; [|lia].
Qed.

Lemma string_preads : preads read_string (fun _ => True) d.
Proof.
  intros p Hp. unfold read_string. pread read_u32_reads.
  eapply preads_bind; [apply read_bytes_preads|lia|]. intros b q _ ?. unfold from_utf8.
  destruct (utf8_valid b); cbn; [split; [done|lia]|done].
Qed.

Lemma import_preads : preads parse_import (fun _ => True) d.
Proof.
  intros p Hp. unfold parse_import. pread string_preads. pread string_preads.
  pread read_byte_reads. destruct (_ =? _); [|done]. pread read_u32_reads.
  by apply ppost_ret; [|lia].
Qed.

Lemma memory_preads : preads parse_memory (in_range 32) d.
Proof.
  intros p Hp. unfold parse_memory. pread read_byte_reads. pread read_u32_reads.
  destruct (_ =? _); [apply ppost_ret; [done|lia]|]. pread read_u32_reads. by apply ppost_ret; [|lia].
Qed.

Lemma global_preads : preads parse_global (fun g => value_ok (init_value g)) d.
Proof.
  intros p Hp. unfold parse_global. pread valtype_preads. pread read_byte_reads.
  pread const_preads. by apply ppost_ret; [|lia].
Qed.

Lemma export_preads : preads parse_export (fun o => forall e, o = Some e -> in_range 32 (exp_index e)) d.
Proof.
  intros p Hp. unfold parse_export. pread string_preads. pread read_byte_reads. pread read_u32_reads.
  apply ppost_ret; [|lia]. intros e He.
  repeat match type of He with context [if ?b then _ else _] => destruct b end; by simplify_eq/=.
Qed.

Lemma locals_preads : preads parse_locals (fun _ => True) d.
Proof.
  intros p Hp. unfold parse_locals. pread read_u32_reads. pread valtype_preads.
  by apply ppost_ret; [|lia].
Qed.

Lemma body_preads : preads parse_body (fun b => Forall byte_ok b.2 /\ blen b.2 <= blen d) d.
Proof.
  intros p Hp. unfold parse_body. pread read_u32_reads.
  eapply preads_bind; [apply read_counted_preads, locals_preads|lia|]. intros ? ? _ ?.
  eapply preads_bind; [apply read_bytes_preads|lia|]. intros c ? ? ?. by apply ppost_ret; [|lia].
Qed.

Definition segment_ok (g : DataSegment) : Prop := in_range 32 (seg_offset g) /\ Forall byte_ok (seg_data g).

Lemma data_preads : preads parse_data segment_ok d.
Proof.
  intros p Hp. unfold parse_data. pread read_u32_reads.
  match goal with |- ppost _ _ _ (ebind ?x _) => 
    assert (ppost (in_range 32) d p' x) as Hx end.
  { destruct (_ =? _); [|apply ppost_ret; [unfold in_range|]; lia]. pread const_preads.
    apply ppost_ret; [|lia]. destruct a0; cbn; try (unfold in_range; lia). apply wrap_range. lia. }
  destruct (if _ =? 0 then _ else _) as [[off q]| | |]; try done. destruct Hx as [Hoff Hq]. cbn [ebind].
  assert (forall r, ppost segment_ok d q r -> ppost segment_ok d p' r) as Hw
    by (intros [[]| | |]; cbn; intuition lia).
  apply Hw. pread read_u32_reads.
  eapply preads_bind; [apply read_bytes_preads|lia|]. intros b ? [? _] ?.
  apply ppost_ret; [by split|lia].
Qed.

(** ** Sections *)

Definition sections_ok (a : sections) : Prop :=
  Forall (fun b => Forall byte_ok b.2 /\ blen b.2 <= blen d) (s_bodies a)
  /\ Forall (fun g => value_ok (init_value g)) (s_globals a)
  /\ Forall segment_ok (s_data a) /\ in_range 32 (s_min_pages a)
  /\ Forall (fun e => in_range 32 (exp_index e)) (s_exports a).

Definition sec_post (r : exc sections) : Prop :=
  match r with Ret a => sections_ok a | Throw _ | Panic => True | Diverge => False end.

Lemma sec_bind {A} (f : bytes -> Z -> exc (A * Z)) (k : A -> sections) P p :
  preads f P d -> 0 <= p <= blen d -> (forall a, P a -> sections_ok (k a)) ->
  sec_post (ebind (f d p) (fun '(a, _) => Ret (k a))).
Proof.
  intros Hf Hp Hk. specialize (Hf p Hp). unfold ppost in Hf. destruct (f d p) as [[a q]| | |]; try done.
  cbn. apply Hk. by destruct Hf.
Qed.

Lemma last_ok {A} (P : A -> Prop) l x : Forall P l -> P x -> P (List.last l x).
Proof.
  intros Hl Hx. induction Hl as [|y l Hy Hl IH]; [done|]. cbn. by destruct l.
Qed.

Lemma exports_ok l :
  Forall (fun o => forall e, o = Some e -> in_range 32 (exp_index e)) l ->
  Forall (fun e => in_range 32 (exp_index e)) (omap (fun x => x) l).
Proof.
  intros Hl. apply Forall_forall. intros e He. apply list_elem_of_omap in He as (o & Ho & Heq).
  rewrite Forall_forall in Hl. by apply (Hl o Ho).
Qed.

Lemma parse_section_ok id a p :
  sections_ok a -> 0 <= p <= blen d -> sec_post (parse_section id a d p).
Proof.
  intros (Hb & Hg & Hs & Hm & He) Hp. destruct a as [ty im ft gl ex bo mp da]. cbn in *.
  unfold parse_section. repeat match goal with |- context [if ?b then _ else _] => destruct b end.
  - eapply sec_bind; [apply read_counted_preads, type_preads|done|]. intros l _. by split_and!.
  - eapply sec_bind; [apply read_counted_preads, import_preads|done|]. intros l _. by split_and!.
  - eapply sec_bind; [apply read_counted_preads, preads_reads, read_u32_reads|done|].
    intros l _. by split_and!.
  - eapply sec_bind; [apply read_counted_preads, memory_preads|done|]. intros l Hl.
    split_and!; try done. by apply last_ok.
  - eapply sec_bind; [apply read_counted_preads, global_preads|done|]. intros l Hl.
    split_and!; try done. cbn. by apply Forall_app.
  - eapply sec_bind; [apply read_counted_preads, export_preads|done|]. intros l Hl.
    split_and!; try done. cbn. apply Forall_app. split; [done|by apply exports_ok].
  - eapply sec_bind; [apply read_counted_preads, body_preads|done|]. intros l Hl.
    split_and!; try done. cbn. by apply Forall_app.
  - eapply sec_bind; [apply read_counted_preads, data_preads|done|]. intros l Hl.
    split_and!; try done. cbn. by apply Forall_app.
  - by split_and!.
Qed.

(** Every section moves the reader forward, so the loop ends. *)
Lemma parse_sections_ok n a p :
  sections_ok a -> 0 <= p -> (p <= blen d -> blen d - p <= Z.of_nat n) ->
  sec_post (parse_sections n a d p).
Proof.
  revert a p. induction n as [|n IH]; intros a p Ha Hp Hn; cbn [parse_sections];
    unfold remaining, saturating_sub;
    (destruct (Z.eqb_spec (Z.max 0 (blen d - p)) 0); [done|]); [lia|].
  pose proof (byte_advance d p Hd ltac:(lia)) as Hb.
  destruct (read_byte d p) as [[id p1]| | |]; try done. cbn [ebind]. destruct Hb as (_ & -> & ?).
  pose proof (read_u32_reads d (p + 1) Hd ltac:(lia)) as Hu. unfold read_post in Hu.
  destruct (read_u32_leb128 d (p + 1)) as [[size p2]| | |]; try done. cbn [ebind].
  destruct Hu as [Hsz Hp2].
  pose proof (parse_section_ok id a p2 Ha ltac:(lia)) as Hs.
  destruct (parse_section id a d p2) as [a'| | |]; try done. cbn [ebind].
  destruct Hd as [_ Hlen]. unfold in_range in Hsz. rewrite wadd_small by (unfold in_range; lia).
  apply IH; [done|lia|lia].
Qed.

End parser.

(** What a module the parser accepts looks like. *)
Definition parsed_ok (b : bytes) (m : WasmModule) : Prop :=
  module_ok m
  /\ Forall (fun f => blen (fn_code f) <= blen b) (functions m)
  /\ Forall (fun g => value_ok (init_value g)) (Wasm.globals m)
  /\ Forall segment_ok (data_segments m) /\ in_range 32 (memory_min_pages m)
  /\ Forall (fun e => in_range 32 (exp_index e)) (exports m).

Lemma zip_bodies (P : WasmFunction -> Prop) (Q : list ValType * bytes -> Prop) l1 l2 :
  (forall t b, Q b -> P (mkWasmFunction t b.1 b.2)) -> Forall Q l2 ->
  Forall P (zip_with (fun t b => mkWasmFunction t b.1 b.2) l1 l2).
Proof.
  intros HP Hl. revert l1. induction Hl as [|b l2 Hb _ IH]; intros [|t l1]; cbn; constructor; auto.
Qed.

Lemma build_ok b a : data_ok b -> sections_ok b a -> parsed_ok b (build_module a).
Proof.
  intros Hd (Hb & Hg & Hs & Hm & He). unfold parsed_ok, build_module, module_ok. cbn.
  set (n := Z.of_nat (length (s_imports a))).
  assert (0 <= wrap 32 n <= n) by (unfold wrap; pose proof (Z.mod_pos_bound n (2 ^ 32));
    pose proof (Z.mod_le n (2 ^ 32)); lia).
  split_and!; try done; try lia.
  - eapply zip_bodies; [|exact Hb]. intros t x [Hx1 Hx2]. destruct Hd as [_ Hl]. split; [done|]. cbn. lia.
  - eapply zip_bodies; [|exact Hb]. by intros t x [Hx1 Hx2].
Qed.

Lemma parse_module_post b :
  data_ok b ->
  match parse_module b with Ret m => parsed_ok b m | Diverge => False | _ => True end.
Proof.
  intros Hd. unfold parse_module.
  pose proof (read_bytes_reads 4 ltac:(lia) b 0 Hd ltac:(unfold blen; lia)) as Hr.
  unfold read_post in Hr. destruct (read_bytes 4 b 0) as [[magic p]| | |]; try done. cbn [ebind].
  destruct Hr as [_ Hp]. case_decide; [done|].
  pose proof (read_bytes_reads 4 ltac:(lia) b p Hd ltac:(lia)) as Hr.
  unfold read_post in Hr. destruct (read_bytes 4 b p) as [[version q]| | |]; try done. cbn [ebind].
  destruct Hr as [_ Hq]. case_decide; [done|].
  assert (sections_ok b no_sections) as Hn.
  { unfold sections_ok, in_range. cbn. split_and!; done || constructor. }
  pose proof (parse_sections_ok b Hd (length b) no_sections q Hn ltac:(lia)) as Hs.
  specialize (Hs ltac:(unfold blen; lia)).
  destruct (parse_sections _ _ _ _) as [a| | |]; try done. by apply build_ok.
Qed.

End WasmParse.
