(* ===== verification/VmRuntime.v ===== *)
(** * gratia-vm: runtimes

    The [ContractRuntime] trait of [crates/gratia-vm/src/runtime.rs] as a class, what the
    VM relies on as its specification [RuntimeSpec], and two implementations: the
    [InterpreterRuntime] of [interpreter.rs] and the [MockRuntime] of [runtime.rs].
    [None] is an abort of the process. *)

From stdpp Require Import base tactics strings pretty gmap list.
From Stdlib Require Import ZArith Lia.
From S2P Require Import Prelude CoreTypes ThirdParty Ieee Gas Sandbox HostFunctions WasmModule.
From S2P Require Import Interp InterpSafety InterpTermination WasmParse.
Local Open Scope Z_scope.

Module VmRuntime.
Import Wasm.

Inductive RuntimeError :=
| CompilationFailed (reason : string)
| InstantiationFailed (reason : string)
| ExecutionFailed (reason : string)
| FunctionNotFound (name : string)
| ContractNotFound (address : string)
| RGas (e : Gas.GasError)
| RSandbox (e : Sandbox.SandboxError)
| RuntimeNotAvailable (reason : string).

Definition show_RuntimeError (e : RuntimeError) : string :=
  match e with
  | CompilationFailed r => "compilation failed: " +:+ r
  | InstantiationFailed r => "instantiation failed: " +:+ r
  | ExecutionFailed r => "execution failed: " +:+ r
  | FunctionNotFound n => "function not found: " +:+ n
  | ContractNotFound a => "contract not found: " +:+ a
  | RGas e => "gas error: " +:+ Gas.show_GasError e
  | RSandbox e => "sandbox violation: " +:+ Sandbox.show_SandboxError e
  | RuntimeNotAvailable r => "runtime not available: " +:+ r
  end.

Inductive ContractValue :=
| CI32 (v : Z) | CI64 (v : Z) | CF32 (bits : Z) | CF64 (bits : Z)
| CBytes (b : bytes) | CString (s : string) | CBool (b : bool) | CVoid.

Record ExecutionOutcome := mkExecutionOutcome {
  return_value : ContractValue;
  outcome_gas_used : Z;
  success : bool;
  error : option string
}.

(** ** The trait *)

Class ContractRuntime (R : Type) := {
  load_contract : R -> Address -> bytes -> Sandbox.SandboxConfig
                  -> option (R * result RuntimeError unit);
  execute_contract : R -> Address -> string -> list ContractValue -> Gas.GasMeter
                     -> Host.HostEnvironment -> Sandbox.ContractPermissions
                     -> option (R * Gas.GasMeter * Host.HostEnvironment
                                * result RuntimeError ExecutionOutcome);
  is_loaded : R -> Address -> bool;
  unload_contract : R -> Address -> R
}.

(** Values at their width. *)
Definition cv_ok (v : ContractValue) : Prop :=
  match v with
  | CI32 x => InterpSafety.sint 32 x
  | CI64 x => InterpSafety.sint 64 x
  | CF32 b => in_range 32 b
  | CF64 b => in_range 64 b
  | _ => True
  end.

(** What the VM relies on: a loaded contract executes to an end without aborting, the
    meter keeps its limit and only moves up to it, a gas error leaves it at the limit,
    and the environment changes in its storage and events only. *)
Class RuntimeSpec (R : Type) `{!ContractRuntime R} := {
  rt_ok : R -> Prop;
  load_spec r a b c r' res :
    rt_ok r -> InterpSafety.data_ok b -> load_contract r a b c = Some (r', res) ->
    rt_ok r' /\ (res = Ok tt -> is_loaded r' a = true) /\ (res <> Ok tt -> r' = r)
    /\ (forall a', is_loaded r a' = true -> is_loaded r' a' = true);
  execute_spec r a name args g e p :
    rt_ok r -> Gas.meter_ok g -> Gas.costs_positive (Gas.costs g) -> Host.env_ok e ->
    Forall cv_ok args ->
    exists r' g' e' res,
      execute_contract r a name args g e p = Some (r', g', e', res)
      /\ rt_ok r' /\ Gas.meter_le g g' /\ InterpSafety.env_le e e'
      /\ (forall a', is_loaded r' a' = is_loaded r a')
      /\ match res with
         | Ok o => outcome_gas_used o = Gas.used g' /\ cv_ok (return_value o)
         | Err (RGas _) => Gas.used g' = Gas.limit g'
         | Err _ => True
         end
}.

Section runtimes.
Context `{HashLib}.

(** [impl Display for Address] *)
Definition show_address (a : Address) : string := "grat:" +:+ hex_encode a.

(** ** InterpreterRuntime *)

Record LoadedContract := mkLoadedContract {
  lc_module : WasmModule;
  lc_globals : list Value;
  lc_memory : bytes;
  lc_bytecode_hash : Hash
}.

Record InterpreterRuntime := mkInterpreterRuntime { contracts : gmap (list Z) LoadedContract }.

Definition contract_value_to_value (cv : ContractValue) : Value :=
  match cv with
  | CI32 v => I32 v
  | CI64 v => I64 v
  | CF32 v => F32 v
  | CF64 v => F64 v
  | CBool b => I32 (if b then 1 else 0)
  | _ => I32 0
  end.

Definition to_contract_value (v : Value) : ContractValue :=
  match v with I32 v => CI32 v | I64 v => CI64 v | F32 v => CF32 v | F64 v => CF64 v end.

(** The data segments that fit, copied in order. *)
Definition copy_segment (mem : bytes) (seg : DataSegment) : bytes :=
  if decide (seg_offset seg + blen (seg_data seg) <= blen mem) then
    match Interp.mem_write mem (seg_offset seg) (seg_data seg) with Ret m => m | _ => mem end
  else mem.

Definition initial_memory (m : WasmModule) : bytes :=
  foldl copy_segment (replicate (Z.to_nat (Z.max (memory_min_pages m) 1 * Interp.PAGE)) 0)
    (data_segments m).

Definition interp_load (r : InterpreterRuntime) (a : Address) (b : bytes)
    (c : Sandbox.SandboxConfig) : option (InterpreterRuntime * result RuntimeError unit) :=
  match Sandbox.validate_bytecode b c with
  | Err e => Some (r, Err (RSandbox e))
  | Ok _ =>
      match parse_module b with
      | Throw e => Some (r, Err (CompilationFailed (show_InterpError e)))
      | Ret m =>
          Some (mkInterpreterRuntime
                  (<[a := mkLoadedContract m (map init_value (globals m)) (initial_memory m)
                            (sha256 b)]> (contracts r)), Ok tt)
      | Panic | Diverge => None
      end
  end.

(** The longest function body and the fuel that suffices. *)
Definition longest (m : WasmModule) : Z :=
  foldr (fun f n => Z.max (blen (fn_code f)) n) 0 (functions m).

Definition call_fuel (m : WasmModule) (h : Interp.Shared) : nat :=
  Z.to_nat (InterpTermination.function_need (longest m) h).

Definition find_export (m : WasmModule) (name : string) : option WasmExport :=
  List.find (fun e => bool_decide (exp_name e = name /\ exp_kind e = EFunction)) (exports m).

Definition interp_execute (r : InterpreterRuntime) (a : Address) (name : string)
    (args : list ContractValue) (g : Gas.GasMeter) (e : Host.HostEnvironment)
    (p : Sandbox.ContractPermissions)
  : option (InterpreterRuntime * Gas.GasMeter * Host.HostEnvironment
            * result RuntimeError ExecutionOutcome) :=
  match contracts r !! a with
  | None => Some (r, g, e, Err (ContractNotFound (show_address a)))
  | Some c =>
      match find_export (lc_module c) name with
      | None => Some (r, g, e, Err (FunctionNotFound name))
      | Some ex =>
          match Gas.charge_host_call g "base_call" with
          | (g, Err err) => Some (r, g, e, Err (RGas err))
          | (g, Ok _) =>
              let h := Interp.mkShared (lc_globals c) (lc_memory c) g e in
              let '(h', res) :=
                Interp.execute_function (call_fuel (lc_module c) h) (lc_module c) p (exp_index ex)
                  (map contract_value_to_value args) 0 h in
              let r' := mkInterpreterRuntime
                (<[a := mkLoadedContract (lc_module c) (Interp.globals h') (Interp.memory h')
                          (lc_bytecode_hash c)]> (contracts r)) in
              let g' := Interp.gas_meter h' in
              let e' := Interp.host_env h' in
              let ok v := Some (r', g', e', Ok (mkExecutionOutcome v (Gas.gas_used g') true None)) in
              match res with
              | Ret (Some v) => ok (to_contract_value v)
              | Ret None => ok CVoid
              | Throw (Gas err) => Some (r', g', e', Err (RGas err))
              | Throw err => Some (r', g', e',
                  Ok (mkExecutionOutcome CVoid (Gas.gas_used g') false (Some (show_InterpError err))))
              | Panic | Diverge => None
              end
          end
      end
  end.

#[export] Instance interpreter_runtime : ContractRuntime InterpreterRuntime := {
  load_contract := interp_load;
  execute_contract := interp_execute;
  is_loaded r a := bool_decide (is_Some (contracts r !! a));
  unload_contract r a := mkInterpreterRuntime (delete a (contracts r))
}.

(** ** MockRuntime *)

Record MockRuntime := mkMockRuntime {
  loaded_contracts : gmap (list Z) Hash;
  handlers : gmap (list Z * string) (list ContractValue -> ContractValue)
}.

Definition register_handler (r : MockRuntime) (a : Address) (name : string)
    (h : list ContractValue -> ContractValue) : MockRuntime :=
  mkMockRuntime (loaded_contracts r) (<[(a, name) := h]> (handlers r)).

Definition mock_load (r : MockRuntime) (a : Address) (b : bytes) (c : Sandbox.SandboxConfig)
  : option (MockRuntime * result RuntimeError unit) :=
  match Sandbox.validate_bytecode b c with
  | Err e => Some (r, Err (RSandbox e))
  | Ok _ => Some (mkMockRuntime (<[a := sha256 b]> (loaded_contracts r)) (handlers r), Ok tt)
  end.

Definition mock_execute (r : MockRuntime) (a : Address) (name : string)
    (args : list ContractValue) (g : Gas.GasMeter) (e : Host.HostEnvironment)
    (p : Sandbox.ContractPermissions)
  : option (MockRuntime * Gas.GasMeter * Host.HostEnvironment
            * result RuntimeError ExecutionOutcome) :=
  match loaded_contracts r !! a with
  | None => Some (r, g, e, Err (ContractNotFound (show_address a)))
  | Some _ =>
      match Gas.charge_host_call g "base_call" with
      | (g, Err err) => Some (r, g, e, Err (RGas err))
      | (g, Ok _) =>
          let v := match handlers r !! (a, name) with Some h => h args | None => CVoid end in
          Some (r, g, e, Ok (mkExecutionOutcome v (Gas.gas_used g) true None))
      end
  end.

#[export] Instance mock_runtime : ContractRuntime MockRuntime := {
  load_contract := mock_load;
  execute_contract := mock_execute;
  is_loaded r a := bool_decide (is_Some (loaded_contracts r !! a));
  unload_contract r a :=
    mkMockRuntime (delete a (loaded_contracts r))
      (filter (fun kv => kv.1.1 <> a) (handlers r))
}.

(** ** The interpreter meets the specification *)

Import InterpSafety InterpTermination WasmParse.

Definition loaded_ok (c : LoadedContract) : Prop :=
  module_ok (lc_module c) /\ Forall value_ok (lc_globals c) /\ mem_ok (lc_memory c)
  /\ Forall (fun e => in_range 32 (exp_index e)) (exports (lc_module c)).

Lemma longest_ok m : Forall (fun f => blen (fn_code f) <= longest m) (functions m).
Proof.
  unfold longest. induction (functions m) as [|f l IH]; constructor; cbn; [lia|].
  eapply Forall_impl; [exact IH|]. cbn. intros. lia.
Qed.

Lemma copy_segment_ok m seg :
  mem_ok m -> segment_ok seg -> mem_ok (copy_segment m seg) /\ blen (copy_segment m seg) = blen m.
Proof.
  intros Hm [Ho Hs]. unfold copy_segment. case_decide; [|done]. unfold in_range in Ho.
  destruct (mem_write_ok m (seg_offset seg) (seg_data seg)) as (m' & -> & ? & ?); [done|done|lia..|].
  done.
Qed.

Lemma initial_memory_ok m :
  in_range 32 (memory_min_pages m) -> Forall segment_ok (data_segments m) ->
  mem_ok (initial_memory m).
Proof.
  intros Hp Hs. unfold initial_memory. set (n := Z.max (memory_min_pages m) 1).
  assert (mem_ok (replicate (Z.to_nat (n * Interp.PAGE)) 0)) as H0.
  { assert (1 <= n < 2 ^ 32) by (subst n; unfold in_range in Hp; lia).
    unfold mem_ok, blen, Interp.PAGE. rewrite length_replicate, Z2Nat.id by lia. split_and!.
    - apply Forall_replicate. unfold byte_ok. lia.
    - by exists n.
    - lia. }
  revert H0. generalize (replicate (Z.to_nat (n * Interp.PAGE)) 0).
  induction Hs as [|seg l Hseg _ IH]; intros m0 H0; cbn; [done|].
  apply IH. by apply copy_segment_ok.
Qed.

Lemma parsed_loaded b m h :
  parsed_ok b m -> loaded_ok (mkLoadedContract m (map init_value (globals m)) (initial_memory m) h).
Proof.
  intros (Hm & _ & Hg & Hs & Hp & He). split; [done|]. split; [by apply Forall_fmap|].
  split; [by apply initial_memory_ok|done].
Qed.

Lemma value_of_cv v : cv_ok v -> value_ok (contract_value_to_value v).
Proof. destruct v as [| | | | | |[]|]; cbn; unfold sint; try done; lia. Qed.

Lemma cv_of_value v : value_ok v -> cv_ok (to_contract_value v).
Proof. by destruct v. Qed.

Lemma charge_base g :
  Gas.meter_ok g -> Gas.costs_positive (Gas.costs g) ->
  let x := Gas.charge_host_call g "base_call" in
  Gas.meter_ok x.1 /\ Gas.meter_le g x.1
  /\ (forall e, x.2 = Err e -> Gas.used x.1 = Gas.limit x.1).
Proof.
  intros Hg (_ & _ & _ & Hc). cbv zeta. unfold Gas.charge_host_call.
  destruct (Gas.charge_spec g _ Hg (Hc "base_call")) as [Hle Hs]. split; [by eapply Gas.meter_le_ok|].
  split; [done|]. intros e He. destruct (decide _); [destruct Hs; congruence|].
  destruct Hs as [_ ->]. by destruct Hle as (-> & _).
Qed.

Lemma find_export_ok m name ex :
  Forall (fun e => in_range 32 (exp_index e)) (exports m) -> find_export m name = Some ex ->
  0 <= exp_index ex.
Proof.
  intros He [Hin _]%List.find_some. rewrite Forall_forall in He.
  apply list_elem_of_In in Hin. apply He in Hin. unfold in_range in Hin. lia.
Qed.

Definition interp_ok (r : InterpreterRuntime) : Prop := map_Forall (fun _ c => loaded_ok c) (contracts r).

Lemma insert_loaded r a c c' :
  contracts r !! a = Some c ->
  forall a', is_loaded (mkInterpreterRuntime (<[a := c']> (contracts r))) a' = is_loaded r a'.
Proof.
  intros Hc a'. cbn. apply bool_decide_ext. destruct (decide (a = a')) as [<-|].
  - rewrite lookup_insert_eq, Hc. by split.
  - by rewrite lookup_insert_ne.
Qed.

(** The run of a loaded contract: safety, gas and termination of the interpreter put
    together. *)
Lemma run_loaded c p i args g e :
  loaded_ok c -> 0 <= i -> Forall cv_ok args -> Gas.meter_ok g ->
  Gas.costs_positive (Gas.costs g) -> Host.env_ok e ->
  let h := Interp.mkShared (lc_globals c) (lc_memory c) g e in
  fpost True h (Interp.execute_function (call_fuel (lc_module c) h) (lc_module c) p i
                  (map contract_value_to_value args) 0 h).
Proof.
  intros (Hm & Hg & Hmem & _) Hi Ha Hme Hc He h.
  assert (shared_ok h) as Hh by (unfold shared_ok; cbn; split_and!; done).
  assert (Forall value_ok (map contract_value_to_value args)) as Hargs.
  { apply Forall_fmap. eapply Forall_impl; [exact Ha|]. intros. by apply value_of_cv. }
  destruct (execute_function_ok (lc_module c) p (longest (lc_module c)) Hm (longest_ok _)
              (call_fuel (lc_module c) h) i _ 0 h Hi Hargs Hh) as (H1 & H2 & H3).
  split; [done|]. split; [done|]. destruct (Interp.execute_function _ _ _ _ _ _ _).2 as [|[]| |]; try done.
  exfalso. apply H3. unfold call_fuel. rewrite Z2Nat.id; [done|].
  apply gas_left_nonneg in Hh. unfold function_need.
  assert (0 <= longest (lc_module c)); [|nia].
  unfold longest. generalize (functions (lc_module c)). intros l. induction l; cbn; lia.
Qed.

#[export] Instance interpreter_spec : RuntimeSpec InterpreterRuntime.
Proof.
  refine {| rt_ok := interp_ok |}.
  - intros r a b c r' res Hr Hb Hl. cbn in Hl. unfold interp_load in Hl.
    destruct (Sandbox.validate_bytecode b c); [|simplify_eq; split_and!; try done].
    pose proof (parse_module_post b Hb) as Hp.
    destruct (parse_module b) as [m| | |]; try done; simplify_eq; split_and!; try done.
    + apply map_Forall_insert_2; [by eapply parsed_loaded|done].
    + cbn. intros _. rewrite bool_decide_eq_true, lookup_insert_eq. by eexists.
    + cbn. intros a'. rewrite !bool_decide_eq_true. intros Ha'.
      rewrite lookup_insert_is_Some. destruct (decide (a = a')); auto.
  - intros r a name args g e p Hr Hg Hc He Ha. cbn [execute_contract interpreter_runtime].
    assert (forall g' err, Gas.meter_le g g' ->
      (forall x, err = RGas x -> Gas.used g' = Gas.limit g') ->
      exists r'' g'' e'' res, Some (r, g', e, Err err) = Some (r'', g'', e'', res)
        /\ interp_ok r'' /\ Gas.meter_le g g'' /\ env_le e e''
        /\ (forall a', is_loaded r'' a' = is_loaded r a')
        /\ match res with
           | Ok o => outcome_gas_used o = Gas.used g'' /\ cv_ok (return_value o)
           | Err (RGas _) => Gas.used g'' = Gas.limit g'' | Err _ => True end) as Herr.
    { intros g' err Hle Hx. exists r, g', e, (Err err). split; [done|]. split; [done|]. split; [done|].
      split; [apply env_le_refl|]. split; [done|]. destruct err; try done. by eapply Hx. }
    unfold interp_execute. destruct (contracts r !! a) as [c|] eqn:Hca;
      [|by apply Herr; [apply Gas.meter_le_refl|]].
    destruct (find_export (lc_module c) name) as [ex|] eqn:Hex; [|by apply Herr; [apply Gas.meter_le_refl|]].
    destruct (charge_base g Hg Hc) as (Hg1 & Hle1 & Hx1).
    destruct (Gas.charge_host_call g "base_call") as [g1 [[]|err]]; cbn [fst snd] in *;
      [|apply Herr; [done|intros x _; by eapply Hx1]].
    assert (loaded_ok c) as Hlc by exact (Hr _ _ Hca).
    assert (Gas.costs_positive (Gas.costs g1)) as Hc1 by (by destruct Hle1 as (_ & -> & _)).
    pose proof Hlc as (Hm & _ & _ & Hexp). pose proof (find_export_ok _ _ _ Hexp Hex) as Hidx.
    pose proof (run_loaded c p (exp_index ex) args g1 e Hlc Hidx Ha Hg1 Hc1 He) as (Hok & Hle & Hres).
    set (h := Interp.mkShared _ _ _ _) in *. cbv zeta in *.
    destruct (Interp.execute_function _ _ _ _ _ _ _) as [h' res]. cbn [fst snd] in *.
    destruct Hok as (Hg' & Hm' & _ & _ & _). destruct Hle as (Hmle & _ & _ & Henv).
    set (r' := mkInterpreterRuntime _).
    assert (interp_ok r') as Hr'.
    { apply map_Forall_insert_2; [|done]. split_and!; done. }
    assert (forall a', is_loaded r' a' = is_loaded r a') as Hld by (by apply (insert_loaded r a c)).
    pose proof (Gas.meter_le_trans _ _ _ Hle1 Hmle) as Hgle.
    destruct res as [[v|]|err| |]; try done; [..|destruct err]; try done;
      eexists r', _, _, _; (split; [done|]); split_and!; try done.
    by apply cv_of_value.
Defined.

(** ** So does the mock, when its handlers return values of their width *)

Definition handler_ok (h : list ContractValue -> ContractValue) : Prop := forall args, cv_ok (h args).

#[export] Instance mock_spec : RuntimeSpec MockRuntime.
Proof.
  refine {| rt_ok r := map_Forall (fun _ h => handler_ok h) (handlers r) |}.
  - intros r a b c r' res Hr Hb Hl. cbn in Hl. unfold mock_load in Hl.
    destruct (Sandbox.validate_bytecode b c); simplify_eq; split_and!; try done.
    + cbn. intros _. rewrite bool_decide_eq_true, lookup_insert_eq. by eexists.
    + cbn. intros a'. rewrite !bool_decide_eq_true. intros Ha'.
      rewrite lookup_insert_is_Some. destruct (decide (a = a')); auto.
  - intros r a name args g e p Hr Hg Hc He Ha. cbn [execute_contract mock_runtime].
    unfold mock_execute. destruct (loaded_contracts r !! a).
    2: { eexists r, g, e, _. split; [done|]. split_and!; try done;
           [by apply Gas.meter_le_refl|apply env_le_refl]. }
    destruct (charge_base g Hg Hc) as (Hg1 & Hle1 & Hx1).
    destruct (Gas.charge_host_call g "base_call") as [g1 [[]|err]]; cbn [fst snd] in *.
    2: { eexists r, g1, e, _. split; [done|]. split_and!; try done; [apply env_le_refl|by eapply Hx1]. }
    eexists r, g1, e, _. split; [done|]. split_and!; try done; [apply env_le_refl|]. cbn.
    destruct (handlers r !! (a, name)) as [h|] eqn:E; [|done]. exact (Hr _ _ E args).
Defined.

End runtimes.

End VmRuntime.
