(* ===== verification/Vm.v ===== *)
(** * gratia-vm: GratiaVm

    [crates/gratia-vm/src/lib.rs]: deployment and calls of contracts, proved against the
    interface [RuntimeSpec] of the runtimes. *)

From stdpp Require Import base tactics strings pretty gmap list.
From Stdlib Require Import ZArith Lia.
From S2P Require Import Prelude CoreTypes ThirdParty Ieee Gas Sandbox HostFunctions WasmModule.
From S2P Require Import Interp InterpSafety InterpTermination WasmParse VmRuntime.
Local Open Scope Z_scope.

Module Vm.
Import VmRuntime.

Record ContractCall := mkContractCall {
  caller : Address;
  call_address : Address;
  function_name : string;
  args : list ContractValue;
  call_gas_limit : Lux
}.

Record ExecutionResult := mkExecutionResult {
  res_success : bool;
  res_return_value : ContractValue;
  res_gas_used : Lux;
  res_gas_remaining : Lux;
  res_events : list Host.ContractEvent;
  res_error : option string
}.

Record DeployedContract := mkDeployedContract {
  dc_address : Address;
  dc_bytecode_hash : Hash;
  dc_bytecode : bytes;
  dc_permissions : Sandbox.ContractPermissions
}.

Section vm.
Context `{HashLib} {R : Type} `{!ContractRuntime R}.

Record GratiaVm := mkGratiaVm {
  runtime : R;
  sandbox_config : Sandbox.SandboxConfig;
  deployed : gmap (list Z) DeployedContract
}.

Definition new (r : R) : GratiaVm := mkGratiaVm r Sandbox.default_SandboxConfig ∅.
Definition with_config (r : R) (c : Sandbox.SandboxConfig) : GratiaVm := mkGratiaVm r c ∅.

Definition derive_address (deployer : Address) (bytecode : bytes) : Address :=
  sha256 (str_bytes "gratia-contract-v1:" ++ deployer ++ bytecode).

(** [GratiaError::Other(msg)] is its message. *)
Definition deploy_contract (v : GratiaVm) (deployer : Address) (bytecode : bytes)
    (permissions : Sandbox.ContractPermissions) : option (GratiaVm * result string Address) :=
  match Sandbox.validate_bytecode bytecode (sandbox_config v) with
  | Err e => Some (v, Err ("contract bytecode validation failed: " +:+ Sandbox.show_SandboxError e))
  | Ok _ =>
      let a := derive_address deployer bytecode in
      match load_contract (runtime v) a bytecode (sandbox_config v) with
      | None => None
      | Some (r, Err e) =>
          Some (mkGratiaVm r (sandbox_config v) (deployed v),
                Err ("contract compilation failed: " +:+ show_RuntimeError e))
      | Some (r, Ok _) =>
          Some (mkGratiaVm r (sandbox_config v)
                  (<[a := mkDeployedContract a (sha256 bytecode) bytecode permissions]> (deployed v)),
                Ok a)
      end
  end.

(** Load the contract unless the runtime has it. *)
Definition ensure_loaded (v : GratiaVm) (a : Address) (bytecode : bytes)
  : option (R * result string unit) :=
  if is_loaded (runtime v) a then Some (runtime v, Ok tt)
  else
    match load_contract (runtime v) a bytecode (sandbox_config v) with
    | None => None
    | Some (r, Ok _) => Some (r, Ok tt)
    | Some (r, Err e) => Some (r, Err ("failed to reload contract: " +:+ show_RuntimeError e))
    end.

(** The result the caller sees, from the meter, the events and the outcome. *)
Definition call_result (g : Gas.GasMeter) (events : list Host.ContractEvent)
    (res : result RuntimeError ExecutionOutcome) : ExecutionResult :=
  match res with
  | Ok o => mkExecutionResult (success o) (return_value o) (Gas.gas_used g) (Gas.gas_remaining g)
              events (error o)
  | Err (RGas e) => mkExecutionResult false CVoid (Gas.gas_used g) 0 []
                      (Some ("out of gas: " +:+ Gas.show_GasError e))
  | Err e => mkExecutionResult false CVoid (Gas.gas_used g) (Gas.gas_remaining g) []
               (Some (show_RuntimeError e))
  end.

Definition call_contract (v : GratiaVm) (call : ContractCall) (env : Host.HostEnvironment)
  : option (GratiaVm * Host.HostEnvironment * result string ExecutionResult) :=
  match deployed v !! call_address call with
  | None => Some (v, env, Err ("contract not found: " +:+ show_address (call_address call)))
  | Some c =>
      match ensure_loaded v (call_address call) (dc_bytecode c) with
      | None => None
      | Some (r, Err msg) => Some (mkGratiaVm r (sandbox_config v) (deployed v), env, Err msg)
      | Some (r, Ok _) =>
          match execute_contract r (call_address call) (function_name call) (args call)
                  (Gas.new (call_gas_limit call)) env (dc_permissions c) with
          | None => None
          | Some (r, g, env, res) =>
              let '(env, events) := Host.take_events env in
              Some (mkGratiaVm r (sandbox_config v) (deployed v), env, Ok (call_result g events res))
          end
      end
  end.

Definition is_deployed (v : GratiaVm) (a : Address) : bool :=
  bool_decide (is_Some (deployed v !! a)).
Definition contract_bytecode_hash (v : GratiaVm) (a : Address) : option Hash :=
  dc_bytecode_hash <$> deployed v !! a.
Definition contract_permissions (v : GratiaVm) (a : Address) : option Sandbox.ContractPermissions :=
  dc_permissions <$> deployed v !! a.
Definition set_sandbox_config (v : GratiaVm) (c : Sandbox.SandboxConfig) : GratiaVm :=
  mkGratiaVm (runtime v) c (deployed v).

(** ** Properties, for any runtime that meets its specification *)

Context `{!RuntimeSpec R}.

(** The runtime is well-formed and every deployed contract is loaded in it. *)
Definition vm_ok (v : GratiaVm) : Prop :=
  rt_ok (runtime v)
  /\ map_Forall (fun a c => InterpSafety.data_ok (dc_bytecode c) /\ is_loaded (runtime v) a = true)
       (deployed v).

Lemma new_ok r c : rt_ok r -> vm_ok (with_config r c).
Proof. intros Hr. split; [done|apply map_Forall_empty]. Qed.

Lemma deploy_ok v d b p v' res :
  vm_ok v -> InterpSafety.data_ok b -> deploy_contract v d b p = Some (v', res) ->
  vm_ok v' /\ (forall a, res = Ok a ->
    a = derive_address d b /\ is_deployed v' a = true
    /\ contract_bytecode_hash v' a = Some (sha256 b) /\ contract_permissions v' a = Some p).
Proof.
  intros [Hr Hd] Hb. unfold deploy_contract.
  destruct (Sandbox.validate_bytecode b _); [|intros [= <- <-]; by split].
  destruct (load_contract _ _ b _) as [[r lres]|] eqn:El; [|done].
  destruct (load_spec _ _ _ _ _ _ Hr Hb El) as (Hr' & Hld & Hsame & Hmono).
  destruct lres as [[]|e]; intros [= <- <-].
  - split.
    + split; [done|]. apply map_Forall_insert_2; [split; [done|by apply Hld]|].
      intros x c Hc. destruct (Hd x c Hc) as [? ?]. split; [done|by apply Hmono].
    + intros x [= <-]. split; [done|]. unfold is_deployed, contract_bytecode_hash, contract_permissions.
      cbn. rewrite lookup_insert_eq. split; [|done]. by apply bool_decide_eq_true.
  - split; [|done]. split; [done|]. intros x c Hc. destruct (Hd x c Hc) as [? ?].
    split; [done|by apply Hmono].
Qed.

Lemma new_meter_positive lim : Gas.costs_positive (Gas.costs (Gas.new lim)).
Proof. apply Gas.default_costs_positive. Qed.

(** The call of a deployed contract. *)
Lemma call_ok v call env c :
  vm_ok v -> Host.env_ok env -> 0 <= call_gas_limit call -> Forall cv_ok (args call) ->
  deployed v !! call_address call = Some c ->
  exists v' env' g res,
    execute_contract (runtime v) (call_address call) (function_name call) (args call)
      (Gas.new (call_gas_limit call)) env (dc_permissions c) = Some (runtime v', g, env', res)
    /\ call_contract v call env
       = Some (v', Host.set_events env' [], Ok (call_result g (Host.events env') res))
    /\ vm_ok v' /\ deployed v' = deployed v
    /\ Gas.meter_le (Gas.new (call_gas_limit call)) g /\ InterpSafety.env_le env env'
    /\ match res with
       | Ok o => outcome_gas_used o = Gas.used g /\ cv_ok (return_value o)
       | Err (RGas _) => Gas.used g = Gas.limit g
       | Err _ => True
       end.
Proof.
  intros [Hr Hd] He Hl Ha Hc. destruct (Hd _ _ Hc) as [Hb Hld].
  destruct (execute_spec (runtime v) (call_address call) (function_name call) (args call)
              (Gas.new (call_gas_limit call)) env (dc_permissions c)) as (r' & g & e' & res & Hx & Hr' & Hg & Hen & Hl' & Hres);
    [done|by apply Gas.new_meter_ok|apply new_meter_positive|done|done|].
  exists (mkGratiaVm r' (sandbox_config v) (deployed v)), e', g, res. split; [done|].
  split; [|split; [split; [done|]|done]].
  - unfold call_contract, ensure_loaded. rewrite Hc, Hld, Hx. done.
  - intros a c' Hc'. destruct (Hd a c' Hc') as [? ?]. split; [done|]. cbn. by rewrite Hl'.
Qed.

End vm.

End Vm.
