(* ===== verification/VmTheorems.v ===== *)
(** * gratia-vm: theorems

    Runs of a [GratiaVm] over the interpreter: every call of a deployed contract returns
    and is billed within its limit; the interpreter is total, keeps values and memory
    well-formed and shows a contract only the data it has permissions for; the parser is
    sound.  A small contract serves as the concrete input. *)

From stdpp Require Import base tactics strings pretty gmap list.
From Stdlib Require Import ZArith Lia.
From S2P Require Import Prelude CoreTypes ThirdParty Ieee Gas Sandbox HostFunctions WasmModule.
From S2P Require Import Interp InterpSafety InterpTermination InterpPrivacy WasmParse VmRuntime Vm.
Local Open Scope Z_scope.

Module VmTheorems.
Import Wasm VmRuntime Vm InterpSafety InterpTermination.

(** ** Runs *)

Inductive op :=
| OpDeploy (deployer : Address) (bytecode : bytes) (p : Sandbox.ContractPermissions)
| OpCall (call : ContractCall) (env : Host.HostEnvironment)
| OpConfig (c : Sandbox.SandboxConfig).

Definition call_ok_args (call : ContractCall) (env : Host.HostEnvironment) : Prop :=
  Host.env_ok env /\ 0 <= call_gas_limit call /\ Forall cv_ok (args call).

Definition op_ok (o : op) : Prop :=
  match o with
  | OpDeploy _ b _ => data_ok b
  | OpCall call env => call_ok_args call env
  | OpConfig _ => True
  end.

Section runs.
Context `{HashLib}.

Definition empty_runtime : InterpreterRuntime := mkInterpreterRuntime ∅.

(** One request; [None] when the process aborts. *)
Definition run_op (v : GratiaVm (R := InterpreterRuntime)) (o : op) : option GratiaVm :=
  match o with
  | OpDeploy d b p => fst <$> deploy_contract v d b p
  | OpCall call env => (fun x => x.1.1) <$> call_contract v call env
  | OpConfig c => Some (set_sandbox_config v c)
  end.

Fixpoint vm_run (v : GratiaVm (R := InterpreterRuntime)) (os : list op) : option GratiaVm :=
  match os with
  | [] => Some v
  | o :: os => v ← run_op v o; vm_run v os
  end.

Lemma run_op_ok v o v' : vm_ok v -> op_ok o -> run_op v o = Some v' -> vm_ok v'.
Proof.
  intros Hv Ho. destruct o as [d b p|call env|c]; cbn.
  - destruct (deploy_contract v d b p) as [[v1 res]|] eqn:E; [|done]. intros [= <-].
    by eapply deploy_ok.
  - destruct Ho as (He & Hl & Ha). destruct (deployed v !! call_address call) as [dc|] eqn:Ed.
    + destruct (call_ok v call env dc Hv He Hl Ha Ed) as (v1 & e1 & g & res & _ & -> & Hv1 & _).
      by intros [= <-].
    + unfold call_contract. rewrite Ed. by intros [= <-].
  - intros [= <-]. by destruct Hv.
Qed.

Lemma vm_run_ok v os v' : vm_ok v -> Forall op_ok os -> vm_run v os = Some v' -> vm_ok v'.
Proof.
  intros Hv Ho. revert v Hv. induction Ho as [|o os Ho _ IH]; intros v Hv; cbn; [by intros [= <-]|].
  destruct (run_op v o) as [v1|] eqn:E; [|done]. cbn. apply IH. by eapply run_op_ok.
Qed.

Lemma empty_ok c : vm_ok (with_config empty_runtime c).
Proof. apply new_ok. apply map_Forall_empty. Qed.

(** The bill of a call. *)
Lemma call_result_gas g evs res n :
  0 <= Gas.used (Gas.new n) <= Gas.used g /\ Gas.used g <= Gas.limit g ->
  match res with
  | Ok o => outcome_gas_used o = Gas.used g /\ cv_ok (return_value o)
  | Err (RGas _) => Gas.used g = Gas.limit g
  | Err _ => True
  end ->
  let r := call_result g evs res in
  res_gas_used r + res_gas_remaining r = Gas.limit g
  /\ 0 <= res_gas_used r /\ 0 <= res_gas_remaining r /\ cv_ok (res_return_value r).
Proof.
  intros Hu Hres. cbn in Hu.
  destruct res as [o|err]; cbn; unfold Gas.gas_remaining, Gas.gas_used, saturating_sub.
  - destruct Hres as [_ Hv]. split; [lia|]. split; [lia|]. split; [lia|done].
  - destruct err; cbn; unfold saturating_sub; split; try lia; split; try lia; split; try lia; done.
Qed.

(** C6: every call returns.  After any sequence of deployments, calls and configuration
    changes, a call of a deployed contract comes back with a result whatever the
    contract's code does (loops, recursion and traps included); gas used and gas
    remaining add up to the capped limit, and the call leaves the environment unchanged
    but for its storage. *)
Theorem contract_calls_return c os v call env dc :
  Forall op_ok os -> vm_run (with_config empty_runtime c) os = Some v ->
  call_ok_args call env -> deployed v !! call_address call = Some dc ->
  exists v' r env',
    call_contract v call env = Some (v', env', Ok r)
    /\ res_gas_used r + res_gas_remaining r = Z.min (call_gas_limit call) Gas.MAX_GAS_LIMIT
    /\ 0 <= res_gas_used r /\ 0 <= res_gas_remaining r
    /\ cv_ok (res_return_value r)
    /\ env' = Host.set_events (Host.set_storage env (Host.storage env')) [].
Proof.
  intros Hos Hrun (He & Hl & Ha) Hd. pose proof (vm_run_ok _ _ _ (empty_ok c) Hos Hrun) as Hv.
  destruct (call_ok v call env dc Hv He Hl Ha Hd)
    as (v' & e' & g & res & _ & Hcall & _ & _ & (Hlim & _ & Hu) & [_ Henv] & Hres).
  exists v', (call_result g (Host.events e') res), (Host.set_events e' []). split; [done|].
  pose proof (call_result_gas g (Host.events e') res (call_gas_limit call) ltac:(cbn in *; lia) Hres) as (Hsum & H1 & H2 & H3).
  split; [by rewrite Hsum, Hlim|]. split; [lia|]. split; [lia|]. split; [done|].
  rewrite Henv. by destruct env.
Qed.

(** C13: a contract sees only the data it has permissions for.  Two runs of the same call
    in environments that agree on everything the permissions cover (and differ freely in
    the location, peer count, presence score or sensor readings they do not) give the
    same result, the same gas, the same contract state, storage and events. *)
Theorem contract_sees_only_permitted_data (r : InterpreterRuntime) a name args g p e1 e2 :
  InterpPrivacy.env_sim p e1 e2 ->
  match interp_execute r a name args g e1 p, interp_execute r a name args g e2 p with
  | Some (r1, g1, e1', res1), Some (r2, g2, e2', res2) =>
      r1 = r2 /\ g1 = g2 /\ res1 = res2 /\ InterpPrivacy.env_sim p e1' e2'
  | None, None => True
  | _, _ => False
  end.
Proof.
  intros He. unfold interp_execute. destruct (contracts r !! a) as [c|]; [|done].
  destruct (find_export (lc_module c) name) as [ex|]; [|done].
  destruct (Gas.charge_host_call g "base_call") as [g1 [[]|err]]; [|done]. cbv zeta.
  set (h1 := Interp.mkShared _ _ _ e1). set (h2 := Interp.mkShared _ _ _ e2).
  assert (call_fuel (lc_module c) h1 = call_fuel (lc_module c) h2) as -> by done.
  destruct (InterpPrivacy.ni_execute p (call_fuel (lc_module c) h2) (lc_module c) (exp_index ex)
              (map contract_value_to_value args) 0 h1 h2) as [(Hg & Hm & Hgas & Henv) Hres];
    [by unfold InterpPrivacy.shared_sim; cbn; split_and!|].
  destruct (Interp.execute_function _ _ _ _ _ _ h1) as [h1' r1], (Interp.execute_function _ _ _ _ _ _ h2) as [h2' r2].
  cbn in *. subst r2. rewrite Hg, Hm, Hgas. destruct r1 as [[v|]|err| |]; try done. by destruct err.
Qed.

End runs.

(** C15: the interpreter is total.  With fuel for the gas that is left (every charged
    instruction of the longest body, every free byte of it), a call neither runs out of
    fuel nor aborts, and any larger fuel gives the same state and outcome: the loop and
    recursion of the source end. *)
Theorem interpreter_terminates m p L i args depth h fuel fuel' :
  module_ok m -> Forall (fun f => blen (fn_code f) <= L) (functions m) ->
  0 <= i -> Forall value_ok args -> shared_ok h ->
  function_need L h <= Z.of_nat fuel -> (fuel <= fuel')%nat ->
  let x := Interp.execute_function fuel m p i args depth h in
  x.2 <> Diverge /\ x.2 <> Panic /\ Interp.execute_function fuel' m p i args depth h = x.
Proof.
  intros Hm Hb Hi Ha Hh Hf Hle. cbv zeta.
  destruct (execute_function_ok m p L Hm Hb fuel i args depth h Hi Ha Hh) as (_ & _ & Hr).
  assert ((Interp.execute_function fuel m p i args depth h).2 <> Diverge) as Hd.
  { intros Heq. rewrite Heq in Hr. lia. }
  split; [done|]. split; [by intros Heq; rewrite Heq in Hr|]. by apply fuel_mono.
Qed.

(** C16: execution keeps the machine well-formed.  Whatever code runs and however it ends,
    every global stays a value of its type's range, every memory cell a byte, the memory
    a whole number of pages that never shrinks and never grows beyond 256 MB (or its
    initial size), the number of globals stays, the meter never passes its limit, and a
    returned value is in range. *)
Theorem execution_well_formed m p L i args depth h fuel :
  module_ok m -> Forall (fun f => blen (fn_code f) <= L) (functions m) ->
  0 <= i -> Forall value_ok args -> shared_ok h ->
  let x := Interp.execute_function fuel m p i args depth h in
  shared_ok x.1 /\ Gas.meter_le (Interp.gas_meter h) (Interp.gas_meter x.1)
  /\ length (Interp.globals x.1) = length (Interp.globals h)
  /\ blen (Interp.memory h) <= blen (Interp.memory x.1)
     <= Z.max (blen (Interp.memory h)) (256 * 1024 * 1024)
  /\ (forall v, x.2 = Ret (Some v) -> value_ok v)
  /\ (forall e, x.2 = Throw (Gas e) -> Gas.used (Interp.gas_meter x.1) = Gas.limit (Interp.gas_meter x.1)).
Proof.
  intros Hm Hb Hi Ha Hh. cbv zeta.
  destruct (execute_function_ok m p L Hm Hb fuel i args depth h Hi Ha Hh) as (Ho & (Hg & Hgl & Hmem & _) & Hr).
  split; [done|]. split; [done|]. split; [done|]. split; [done|].
  split; intros y Hy; by rewrite Hy in Hr.
Qed.

(** The module parser ends on every byte string, and a module it accepts is
    well-formed: its imports match its import count, every body is made of bytes of the
    input, constants and data segments are in range. *)
Theorem parser_sound b :
  data_ok b ->
  parse_module b <> Diverge /\ (forall m, parse_module b = Ret m -> WasmParse.parsed_ok b m).
Proof.
  intros Hb. pose proof (WasmParse.parse_module_post b Hb) as Hp.
  split; [by intros Heq; rewrite Heq in Hp|]. intros m Heq. by rewrite Heq in Hp.
Qed.

(** A code body that declares fewer bytes than its local declarations take: the header,
    then a code section with one body of size 0. *)
Definition short_body : bytes := [0x00; 0x61; 0x73; 0x6D; 1; 0; 0; 0; 10; 3; 1; 0; 0].

(** A deployed byte string can abort the node.  The body's end lies before the
    reader, the length of the code wraps around, the bounds check wraps back and the
    slice ends before it starts; the bytes pass [validate_bytecode]. *)
Theorem parser_aborts_on_short_body :
  Sandbox.validate_bytecode short_body Sandbox.default_SandboxConfig = Ok tt
  /\ parse_module short_body = Panic.
Proof. split; vm_compute; reflexivity. Qed.

(** ** A contract *)

(** Four functions over the imports [emit_event], [storage_write] and [get_nearby_peers]:
    [trap] emits an event, writes a slot and executes [unreachable]; [spin] is an endless
    loop; [peers] returns the peer count; [add] adds two integers. *)
Definition demo : bytes :=
  [
    0; 97; 115; 109; 1; 0; 0; 0; 1; 21; 4; 96; 4; 127; 127; 127; 127; 0; 96; 0; 1; 127; 96; 0;
    0; 96; 2; 127; 127; 1; 127; 2; 61; 3; 3; 101; 110; 118; 10; 101; 109; 105; 116; 95; 101;
    118; 101; 110; 116; 0; 0; 3; 101; 110; 118; 13; 115; 116; 111; 114; 97; 103; 101; 95; 119;
    114; 105; 116; 101; 0; 0; 3; 101; 110; 118; 16; 103; 101; 116; 95; 110; 101; 97; 114; 98;
    121; 95; 112; 101; 101; 114; 115; 0; 1; 3; 5; 4; 2; 2; 1; 3; 5; 3; 1; 0; 1; 7; 29; 4; 4;
    116; 114; 97; 112; 0; 3; 4; 115; 112; 105; 110; 0; 4; 5; 112; 101; 101; 114; 115; 0; 5; 3;
    97; 100; 100; 0; 6; 10; 46; 4; 23; 0; 65; 0; 65; 1; 65; 0; 65; 1; 16; 0; 65; 0; 65; 1; 65;
    0; 65; 1; 16; 1; 0; 11; 7; 0; 3; 64; 12; 0; 11; 11; 4; 0; 16; 2; 11; 7; 0; 32; 0; 32; 1;
    106; 11; 11; 7; 1; 0; 65; 0; 11; 1; 65 ].

Definition demo_env (peers : Z) : Host.HostEnvironment :=
  Host.with_nearby_peers (Host.new 10 20 (replicate 32 7) 1000) peers.

#[local] Existing Instance reference_hash.

Definition demo_perms : Sandbox.ContractPermissions := Sandbox.default_ContractPermissions.
Definition demo_address : Address := derive_address [1] demo.

Definition demo_vm : GratiaVm (R := InterpreterRuntime) :=
  default (with_config empty_runtime Sandbox.default_SandboxConfig)
    (vm_run (with_config empty_runtime Sandbox.default_SandboxConfig) [OpDeploy [1] demo demo_perms]).

Definition demo_call (name : string) (l : list ContractValue) (gas : Z) : ContractCall :=
  mkContractCall [1] demo_address name l gas.

Definition call_summary (name : string) (l : list ContractValue) (gas : Z) (peers : Z) :=
  match call_contract demo_vm (demo_call name l gas) (demo_env peers) with
  | Some (_, e, Ok r) =>
      Some (res_success r, res_return_value r, res_gas_used r, res_gas_remaining r,
            length (res_events r), size (Host.storage e))
  | _ => None
  end.

Example demo_add : call_summary "add" [CI32 40; CI32 2] 200 0 = Some (true, CI32 42, 103, 97, 0%nat, 0%nat).
Proof. vm_compute. reflexivity. Qed.

Example demo_spin : call_summary "spin" [] 1000 0 = Some (false, CVoid, 1000, 0, 0%nat, 0%nat).
Proof. vm_compute. reflexivity. Qed.

(** Without the permission the call of [get_nearby_peers] fails. *)
Example demo_peers : call_summary "peers" [] 1000 5 = Some (false, CVoid, 401, 599, 0%nat, 0%nat).
Proof. vm_compute. reflexivity. Qed.

(** A failed call keeps its effects.  The contract traps after emitting an event and
    writing a storage slot: the call is reported as failed, but the event is in its
    result and the slot is written. *)
Theorem failed_call_keeps_effects :
  call_summary "trap" [] 1000 0 = Some (false, CVoid, 311, 689, 1%nat, 1%nat).
Proof. vm_compute. reflexivity. Qed.

(** ** Witnesses *)

Lemma demo_env_ok peers : in_range 32 peers -> Host.env_ok (demo_env peers).
Proof.
  intros Hp. unfold Host.env_ok. cbn [demo_env Host.with_nearby_peers Host.new Host.block_height
    Host.block_timestamp Host.caller_address Host.caller_balance Host.location
    Host.nearby_peer_count Host.presence_score Host.sensor_readings Host.storage].
  split; [decide_now|]. split; [decide_now|]. split; [decide_now|]. split; [decide_now|].
  split; [done|]. split; [done|]. split; [done|]. split; [lia|]. split; [constructor|].
  apply map_Forall_empty.
Qed.

Lemma demo_data_ok : data_ok demo.
Proof. split; [decide_now|vm_compute; reflexivity]. Qed.

Lemma demo_deploys :
  exists dc, deployed demo_vm !! demo_address = Some dc.
Proof. vm_compute. by eexists. Qed.

Lemma demo_run :
  vm_run (with_config empty_runtime Sandbox.default_SandboxConfig) [OpDeploy [1] demo demo_perms]
  = Some demo_vm.
Proof.
  unfold demo_vm.
  assert (match vm_run (with_config empty_runtime Sandbox.default_SandboxConfig)
                  [OpDeploy [1] demo demo_perms] with Some _ => true | None => false end = true)
    as Hr by (vm_compute; reflexivity).
  by destruct (vm_run _ _).
Qed.

Lemma contract_calls_return_witness :
  exists v' r env',
    call_contract demo_vm (demo_call "spin" [] 1000) (demo_env 0) = Some (v', env', Ok r)
    /\ res_gas_used r + res_gas_remaining r = Z.min 1000 Gas.MAX_GAS_LIMIT.
Proof.
  destruct demo_deploys as [dc Hd].
  destruct (contract_calls_return Sandbox.default_SandboxConfig [OpDeploy [1] demo demo_perms]
              demo_vm (demo_call "spin" [] 1000) (demo_env 0) dc) as (v' & r & e' & Hc & Hs & _).
  - constructor; [exact demo_data_ok|constructor].
  - exact demo_run.
  - split; [apply demo_env_ok; unfold in_range; lia|]. split; [unfold demo_call; cbn; lia|constructor].
  - exact Hd.
  - exists v', r, e'. split; [exact Hc|exact Hs].
Defined.

Lemma contract_sees_only_permitted_data_witness :
  match interp_execute (runtime demo_vm) demo_address "peers" [] (Gas.new 1000) (demo_env 5) demo_perms,
        interp_execute (runtime demo_vm) demo_address "peers" [] (Gas.new 1000) (demo_env 9) demo_perms with
  | Some (r1, g1, e1', res1), Some (r2, g2, e2', res2) =>
      r1 = r2 /\ g1 = g2 /\ res1 = res2 /\ InterpPrivacy.env_sim demo_perms e1' e2'
  | None, None => True
  | _, _ => False
  end.
Proof.
  apply (contract_sees_only_permitted_data (runtime demo_vm) demo_address "peers" [] (Gas.new 1000)
           demo_perms (demo_env 5) (demo_env 9)).
  unfold InterpPrivacy.env_sim. split_and!; cbn; done || discriminate.
Defined.

Lemma parser_sound_witness : parse_module demo <> Diverge.
Proof. exact (proj1 (parser_sound demo demo_data_ok)). Defined.

Definition demo_module : WasmModule :=
  match parse_module demo with Ret m => m | _ => build_module no_sections end.

Definition demo_shared : Interp.Shared :=
  Interp.mkShared [] (replicate (Z.to_nat 65536) 0) (Gas.new 500) (demo_env 0).

Lemma demo_module_ok :
  module_ok demo_module /\ Forall (fun f => blen (fn_code f) <= 194) (functions demo_module).
Proof.
  assert (parse_module demo = Ret demo_module) as Hp by (vm_compute; reflexivity).
  pose proof (WasmParse.parse_module_post demo demo_data_ok) as H. rewrite Hp in H.
  destruct H as (Hm & Hb & _). split; [done|]. eapply Forall_impl; [exact Hb|]. done.
Qed.

Lemma demo_shared_ok : shared_ok demo_shared.
Proof.
  unfold shared_ok. split; [constructor|]. split; [|split; [|split]].
  - split; [|split].
    + apply Forall_replicate. unfold byte_ok. lia.
    + exists 1. unfold blen. cbn [demo_shared Interp.memory]. rewrite length_replicate, Z2Nat.id; [done|lia].
    + unfold blen. cbn [demo_shared Interp.memory]. rewrite length_replicate, Z2Nat.id; [done|lia].
  - apply Gas.new_meter_ok. lia.
  - apply Gas.default_costs_positive.
  - apply demo_env_ok. unfold in_range. lia.
Qed.

Lemma interpreter_terminates_witness :
  (Interp.execute_function (Z.to_nat (function_need 194 demo_shared)) demo_module demo_perms 4 [] 0
     demo_shared).2 <> Diverge.
Proof.
  destruct demo_module_ok as [Hm Hb].
  apply (interpreter_terminates demo_module demo_perms 194 4 [] 0 demo_shared
           (Z.to_nat (function_need 194 demo_shared)) (Z.to_nat (function_need 194 demo_shared)));
    [exact Hm|exact Hb|lia|constructor|exact demo_shared_ok|rewrite Z2Nat.id; [lia|]|lia].
  unfold function_need, gas_left. cbn [demo_shared Interp.gas_meter]. vm_compute. congruence.
Defined.

Lemma execution_well_formed_witness :
  shared_ok (Interp.execute_function 10 demo_module demo_perms 6 [I32 40; I32 2] 0 demo_shared).1.
Proof.
  destruct demo_module_ok as [Hm Hb].
  apply (execution_well_formed demo_module demo_perms 194 6 [I32 40; I32 2] 0 demo_shared 10);
    [exact Hm|exact Hb|lia| |exact demo_shared_ok].
  repeat constructor; unfold sint; lia.
Defined.

End VmTheorems.
