(* ===== verification/Merkle.v ===== *)
(** * gratia-state: Merkle trees

    [crates/gratia-state/src/merkle.rs]: building a tree, inclusion proofs and their
    verification.  [usize] indices are [nat]; the [while] loop of [build] runs at most as
    many times as there are leaves ([build_total]).

    Theorems: a generated proof verifies ([proof_complete]); a proof that verifies
    against the root of a tree shows a leaf of it, or exhibits two byte strings hashed by
    the tree and the proof that collide ([proof_sound]); the root is the one
    [gratia-core] computes ([build_root]). *)

From stdpp Require Import base tactics strings gmap list.
From Stdlib Require Import ZArith Lia.
From S2P Require Import Prelude CoreTypes ThirdParty Crypto.
Local Open Scope Z_scope.

Module Merkle.

Inductive ProofDirection := Left | Right.

#[export] Instance ProofDirection_eq_dec : EqDecision ProofDirection.
Proof. solve_decision. Defined.

Record ProofStep := mkProofStep { step_hash : Hash; direction : ProofDirection }.

Record MerkleProof := mkMerkleProof {
  leaf_hash : Hash;
  path : list ProofStep;
  proof_root : Hash
}.

(** Level 0 holds the leaves, the last level the root. *)
Record MerkleTree := mkMerkleTree { levels : list (list Hash) }.

Definition ZERO : Hash := replicate 32 0.

Section merkle.
Context `{!HashLib}.

Definition hash_pair (left right : Hash) : Hash := sha256 (left ++ right).

(** The [for chunk in current.chunks(2)] loop. *)
Fixpoint parents (level : list Hash) : list Hash :=
  match level with
  | [] => []
  | [a] => [hash_pair a a]
  | a :: b :: rest => hash_pair a b :: parents rest
  end.

(** The levels above [current]; [None] when [n] iterations do not suffice. *)
Fixpoint build_loop (n : nat) (current : list Hash) : option (list (list Hash)) :=
  if decide (length current <= 1)%nat then Some []
  else match n with
  | O => None
  | S n => let next := parents current in rest ← build_loop n next; Some (next :: rest)
  end.

Definition build (leaves : list Hash) : option MerkleTree :=
  match leaves with
  | [] => Some (mkMerkleTree [[ZERO]])
  | _ => above ← build_loop (length leaves) leaves; Some (mkMerkleTree (leaves :: above))
  end.

Definition build_from_data (items : list bytes) : option MerkleTree := build (map sha256 items).

Definition root (t : MerkleTree) : Hash := default ZERO (last (levels t) ≫= head).

Definition leaf_count (t : MerkleTree) : nat := default 0%nat (length <$> head (levels t)).

Definition depth (t : MerkleTree) : nat := pred (length (levels t)).

(** The index the proof step at [index] of a level of [len] nodes refers to. *)
Definition sibling_index (index len : nat) : nat :=
  if decide (index `mod` 2 = 0)%nat
  then if decide (index + 1 < len)%nat then (index + 1)%nat else index
  else (index - 1)%nat.

(** The walk from a level to one below the root; [None] when an index is out of
    bounds. *)
Fixpoint walk (ls : list (list Hash)) (index : nat) : option (list ProofStep) :=
  match ls with
  | [] => Some []
  | level :: ls =>
      h ← level !! sibling_index index (length level);
      rest ← walk ls (index / 2)%nat;
      Some (mkProofStep h (if decide (index `mod` 2 = 0)%nat then Right else Left) :: rest)
  end.

(** The outer [None] is a panic, the inner one the [None] of the source. *)
Definition generate_proof (t : MerkleTree) (leaf_index : nat) : option (option MerkleProof) :=
  match levels t with
  | [] => Some None
  | leaves :: _ =>
      if decide (leaves = [ZERO]) then Some None
      else match leaves !! leaf_index with
      | None => Some None
      | Some leaf =>
          p ← walk (removelast (levels t)) leaf_index;
          Some (Some (mkMerkleProof leaf p (root t)))
      end
  end.

Definition verify_step (current : Hash) (s : ProofStep) : Hash :=
  match direction s with
  | Left => hash_pair (step_hash s) current
  | Right => hash_pair current (step_hash s)
  end.

Definition verify_proof (p : MerkleProof) : bool :=
  bool_decide (foldl verify_step (leaf_hash p) (path p) = proof_root p).

(** ** Building ends *)

Lemma parents_length l : length (parents l) = ((length l + 1) / 2)%nat.
Proof.
  induction l as [l IH] using (induction_ltof1 _ (@length Hash)). unfold ltof in IH.
  destruct l as [|a [|b l]]; [done..|]. cbn [parents length]. rewrite IH by (simpl; lia).
  replace (S (S (length l)) + 1)%nat with ((length l + 1) + 1 * 2)%nat by lia.
  rewrite Nat.div_add by lia. lia.
Qed.

Lemma build_loop_S n l above :
  build_loop n l = Some above -> build_loop (S n) l = Some above.
Proof.
  revert l above. induction n as [|n IH]; intros l above.
  - cbn [build_loop]. case_decide; [done|discriminate].
  - intros Hb. cbn [build_loop] in Hb. change (build_loop (S (S n)) l) with
      (if decide (length l <= 1)%nat then Some []
       else rest ← build_loop (S n) (parents l); Some (parents l :: rest)).
    case_decide; [done|]. destruct (build_loop n (parents l)) as [rest|] eqn:E; [|done].
    by rewrite (IH _ _ E).
Qed.

Lemma build_loop_total n l : (length l <= S n)%nat -> is_Some (build_loop n l).
Proof.
  revert l. induction n as [|n IH]; intros l Hl; cbn [build_loop]; case_decide;
    [by exists []|lia|by exists []|].
  destruct (IH (parents l)) as [rest ->]; [|by eexists].
  rewrite parents_length. apply Nat.lt_succ_r, Nat.Div0.div_lt_upper_bound. lia.
Qed.

Lemma build_total leaves : is_Some (build leaves).
Proof.
  destruct leaves as [|a l]; [by eexists|]. unfold build.
  destruct (build_loop_total (length (a :: l)) (a :: l)) as [above ->]; [lia|by eexists].
Qed.

(** A level list is a tower: each level is the parents of the one below, the last has
    at most one node. *)
Inductive tower : list (list Hash) -> Prop :=
| tower_top h : tower [[h]]
| tower_up l ls : (1 < length l)%nat -> tower (parents l :: ls) -> tower (l :: parents l :: ls).

Lemma build_loop_tower n l above :
  (1 <= length l)%nat -> build_loop n l = Some above -> tower (l :: above).
Proof.
  revert l above. induction n as [|n IH]; intros l above Hl; cbn [build_loop].
  - case_decide; [|done]. intros [= <-]. destruct l as [|h [|h' l]]; simpl in *; try lia. constructor.
  - case_decide as Hd.
    + intros [= <-]. destruct l as [|h [|h' l]]; simpl in *; try lia. constructor.
    + destruct (build_loop n (parents l)) as [rest|] eqn:E; [|done]. intros [= <-].
      constructor; [lia|]. apply IH; [|done]. rewrite parents_length.
      apply Nat.div_le_lower_bound; lia.
Qed.

Lemma build_tower leaves t :
  build leaves = Some t ->
  tower (levels t) /\ head (levels t) = Some (match leaves with [] => [ZERO] | _ => leaves end).
Proof.
  destruct leaves as [|a l]; cbn [build].
  - intros [= <-]. split; [constructor|done].
  - destruct (build_loop _ _) as [above|] eqn:E; [|done]. intros [= <-]. split; [|done].
    eapply build_loop_tower; [|done]. simpl. lia.
Qed.

(** ** Completeness *)

Lemma parents_lookup l i :
  (i < length l)%nat ->
  exists x y, l !! (2 * (i / 2))%nat = Some x
    /\ l !! (if decide (2 * (i / 2) + 1 < length l)%nat then 2 * (i / 2) + 1 else 2 * (i / 2))%nat = Some y
    /\ parents l !! (i / 2)%nat = Some (hash_pair x y).
Proof.
  revert i. induction l as [l IH] using (induction_ltof1 _ (@length Hash)). unfold ltof in IH.
  intros i Hi. destruct l as [|a [|b l]]; [simpl in Hi; lia| |].
  - assert (i = 0)%nat as -> by (simpl in Hi; lia). exists a, a. done.
  - destruct (decide (i < 2)%nat) as [Hlt|Hge].
    + exists a, b. rewrite (Nat.div_small i 2) by lia. cbn. done.
    + cbn [length] in Hi. destruct (IH l ltac:(simpl; lia) (i - 2)%nat ltac:(lia)) as (x & y & Hx & Hy & Hp).
      assert (i / 2 = S ((i - 2) / 2))%nat as E.
      { replace i with ((i - 2) + 1 * 2)%nat at 1 by lia. rewrite Nat.div_add by lia. lia. }
      exists x, y. rewrite E. replace (2 * S ((i - 2) / 2))%nat with (S (S (2 * ((i - 2) / 2)))) by lia.
      split; [done|]. split; [|done].
      cbn [length]. destruct (decide (2 * ((i - 2) / 2) + 1 < length l)%nat).
      * rewrite decide_True by lia. done.
      * rewrite decide_False by lia. done.
Qed.

(** One step of a generated proof leads to the parent. *)
Lemma step_parent l i x :
  l !! i = Some x ->
  exists h, l !! sibling_index i (length l) = Some h
    /\ parents l !! (i / 2)%nat
       = Some (verify_step x (mkProofStep h (if decide (i `mod` 2 = 0)%nat then Right else Left))).
Proof.
  intros Hx. pose proof (lookup_lt_Some _ _ _ Hx) as Hi.
  destruct (parents_lookup l i Hi) as (a & b & Ha & Hb & Hp). rewrite Hp.
  pose proof (Nat.div_mod i 2 ltac:(lia)) as Hdm. pose proof (Nat.mod_upper_bound i 2 ltac:(lia)) as Hm.
  unfold sibling_index. destruct (decide (i `mod` 2 = 0)%nat) as [E|E].
  - assert (2 * (i / 2) = i)%nat as Ei by lia. rewrite Ei in *. exists b.
    assert (a = x) as -> by congruence. by destruct (decide (i + 1 < length l)%nat).
  - assert (2 * (i / 2) + 1 = i)%nat as Ei by lia. rewrite Ei in *.
    rewrite decide_True in Hb by done. exists a. assert (b = x) as -> by congruence.
    split; [|done]. by replace (i - 1)%nat with (2 * (i / 2))%nat by lia.
Qed.

Lemma walk_tower ls l i x :
  tower (l :: ls) -> l !! i = Some x ->
  exists p r, walk (removelast (l :: ls)) i = Some p /\ last (l :: ls) = Some [r]
    /\ foldl verify_step x p = r.
Proof.
  revert l i x. induction ls as [|l' ls IH]; intros l i x Ht Hx.
  - inversion Ht; subst. destruct i; [|done]. injection Hx as <-. by exists [], h.
  - inversion Ht as [|? ? Hl Ht']; subst. destruct (step_parent l i x Hx) as (h & Hh & Hp).
    destruct (IH _ _ _ Ht' Hp) as (p & r & Hw & Hr & Hf).
    exists (mkProofStep h (if decide (i `mod` 2 = 0)%nat then Right else Left) :: p), r.
    change (removelast (l :: parents l :: ls)) with (l :: removelast (parents l :: ls)).
    cbn [walk]. rewrite Hh. cbn [mbind option_bind]. rewrite Hw. cbn [mbind option_bind].
    split; [done|]. split; [exact Hr|exact Hf].
Qed.

(** Inclusion proofs are complete.  For every leaf of a tree that is not the sentinel
    of the empty tree, [generate_proof] returns, without an index out of bounds, a proof
    of that leaf against the root of the tree, and the proof verifies. *)
Theorem proof_complete leaves i leaf :
  leaves !! i = Some leaf -> leaves <> [ZERO] ->
  exists t p, build leaves = Some t /\ generate_proof t i = Some (Some p)
    /\ leaf_hash p = leaf /\ proof_root p = root t /\ verify_proof p = true.
Proof.
  intros Hl Hz. destruct (build_total leaves) as [t Ht]. destruct (build_tower _ _ Ht) as [Htow Hhd].
  destruct leaves as [|a l]; [done|]. destruct t as [[|l0 ls]]; [done|]. cbn in Htow, Hhd.
  injection Hhd as ->. destruct (walk_tower ls (a :: l) i leaf Htow Hl) as (p & r & Hw & Hr & Hf).
  exists (mkMerkleTree ((a :: l) :: ls)), (mkMerkleProof leaf p r). split; [done|].
  assert (root (mkMerkleTree ((a :: l) :: ls)) = r) as Hroot.
  { unfold root. cbn [levels]. by rewrite Hr. }
  unfold generate_proof. cbn [levels]. rewrite decide_False by done. rewrite Hl, Hw.
  cbn [mbind option_bind]. rewrite Hroot. split; [done|]. split; [done|]. split; [done|].
  unfold verify_proof. by rewrite bool_decide_true.
Qed.

(** ** Soundness *)

(** The inputs hashed by a tree and along a proof. *)
Fixpoint pair_inputs (level : list Hash) : list bytes :=
  match level with
  | [] => []
  | [a] => [a ++ a]
  | a :: b :: rest => (a ++ b) :: pair_inputs rest
  end.

Definition tree_inputs (t : MerkleTree) : list bytes := levels t ≫= pair_inputs.

Definition step_input (current : Hash) (s : ProofStep) : bytes :=
  match direction s with
  | Left => step_hash s ++ current
  | Right => current ++ step_hash s
  end.

Fixpoint proof_inputs (current : Hash) (p : list ProofStep) : list bytes :=
  match p with
  | [] => []
  | s :: p => step_input current s :: proof_inputs (verify_step current s) p
  end.

(** Two of the inputs are different and have the same hash. *)
Definition collision (xs ys : list bytes) : Prop :=
  exists x y, x ∈ xs /\ y ∈ ys /\ x <> y /\ sha256 x = sha256 y.

Definition is_hash (h : Hash) : Prop := length h = 32%nat.

Lemma verify_step_input h s : verify_step h s = sha256 (step_input h s).
Proof. unfold verify_step, step_input, hash_pair. by destruct (direction s). Qed.

Lemma parents_pair l h :
  h ∈ parents l -> exists a b, a ∈ l /\ b ∈ l /\ h = sha256 (a ++ b) /\ a ++ b ∈ pair_inputs l.
Proof.
  induction l as [l IH] using (induction_ltof1 _ (@length Hash)). unfold ltof in IH.
  destruct l as [|a [|b l]]; cbn [parents pair_inputs].
  - by rewrite elem_of_nil.
  - rewrite elem_of_cons, elem_of_nil. intros [->|[]]. exists a, a. set_solver.
  - rewrite elem_of_cons. intros [->|Hh].
    + exists a, b. set_solver.
    + destruct (IH l ltac:(simpl; lia) Hh) as (x & y & ? & ? & ? & ?). exists x, y. set_solver.
Qed.

(** The node below a step: the input of the step is the pair of nodes it came from. *)
Lemma step_below l h s :
  is_hash h -> is_hash (step_hash s) -> Forall is_hash l -> verify_step h s ∈ parents l ->
  h ∈ l \/ collision [step_input h s] (pair_inputs l).
Proof.
  unfold is_hash. intros Hh Hs Hl Hp. rewrite verify_step_input in Hp.
  destruct (parents_pair _ _ Hp) as (a & b & Ha & Hb & Heq & Hin).
  destruct (decide (step_input h s = a ++ b)) as [E|E].
  - left. rewrite Forall_forall in Hl. pose proof (Hl a Ha). pose proof (Hl b Hb).
    unfold step_input in E.
    destruct (direction s); apply app_inj_1 in E as [E1 E2]; congruence.
  - right. exists (step_input h s), (a ++ b). set_solver.
Qed.

Lemma sound_tower p ls l h r :
  (forall b, is_hash (sha256 b)) -> tower (l :: ls) -> Forall is_hash l -> is_hash h ->
  Forall (fun s => is_hash (step_hash s)) p -> length p = length ls ->
  last (l :: ls) = Some [r] -> foldl verify_step h p = r ->
  h ∈ l \/ collision (proof_inputs h p) ((l :: ls) ≫= pair_inputs).
Proof.
  intros Hsha. revert p l h. induction ls as [|l' ls IH]; intros p l h Ht Hl Hh Hp Hlen Hr Hf.
  - destruct p; [|done]. cbn in Hr, Hf. injection Hr as ->. left. subst. set_solver.
  - destruct p as [|s p]; [done|]. inversion Ht as [|? ? Hlt Ht']; subst.
    apply Forall_cons in Hp as [Hs Hp]. cbn in Hlen.
    destruct (IH p (parents l) (verify_step h s)) as [Hin|Hcol]; try done.
    + apply Forall_forall. intros x Hx. destruct (parents_pair _ _ Hx) as (? & ? & ? & ? & -> & ?).
      apply Hsha.
    + rewrite verify_step_input. apply Hsha.
    + lia.
    + destruct (step_below l h s) as [?|(x & y & Hx & Hy & Hne & Heq)]; try done; [by left|].
      right. exists x, y. cbn. set_solver.
    + right. destruct Hcol as (x & y & Hx & Hy & Hne & Heq). exists x, y. cbn in *. set_solver.
Qed.

Lemma tree_sound leaves t h p :
  (forall b, is_hash (sha256 b)) -> Forall is_hash leaves -> leaves <> [] ->
  build leaves = Some t -> is_hash h -> Forall (fun s => is_hash (step_hash s)) p ->
  length p = depth t -> foldl verify_step h p = root t ->
  h ∈ leaves \/ collision (proof_inputs h p) (tree_inputs t).
Proof.
  intros Hsha Hl Hne Hb Hlh Hp Hlen Hv. destruct (build_tower _ _ Hb) as [Ht Hhd].
  destruct leaves as [|a l]; [done|]. destruct t as [[|l0 ls]]; [done|]. cbn in Ht, Hhd, Hlen.
  injection Hhd as ->.
  destruct (walk_tower ls (a :: l) 0 a Ht eq_refl) as (_ & r & _ & Hr & _).
  unfold tree_inputs. cbn [levels]. eapply (sound_tower p ls (a :: l) _ r); try done.
  rewrite Hv. unfold root. cbn [levels]. by rewrite Hr.
Qed.

(** The hashes of a generated proof are hashes. *)
Lemma tower_hashes l ls :
  (forall b, is_hash (sha256 b)) -> tower (l :: ls) -> Forall is_hash l -> Forall (Forall is_hash) (l :: ls).
Proof.
  intros Hsha. revert l. induction ls as [|l' ls IH]; intros l Ht Hl; [by repeat constructor|].
  inversion Ht as [|? ? Hlt Ht']; subst. constructor; [done|]. apply IH; [done|].
  apply Forall_forall. intros x Hx. destruct (parents_pair _ _ Hx) as (? & ? & ? & ? & -> & ?). apply Hsha.
Qed.

Lemma walk_hashes ls i p :
  Forall (Forall is_hash) ls -> walk ls i = Some p -> Forall (fun s => is_hash (step_hash s)) p.
Proof.
  intros Hls. revert i p. induction Hls as [|l ls Hl _ IH]; intros i p; cbn [walk]; [by intros [= <-]|].
  intros Hw. apply bind_Some in Hw as (h & Hh & Hw). apply bind_Some in Hw as (rest & Hr & [= <-]).
  constructor; [|by eapply IH]. cbn. eapply Forall_lookup_1; done.
Qed.

Lemma generated_hashes leaves t i p :
  (forall b, is_hash (sha256 b)) -> Forall is_hash leaves -> leaves <> [] -> build leaves = Some t ->
  generate_proof t i = Some (Some p) -> Forall (fun s => is_hash (step_hash s)) (path p).
Proof.
  intros Hsha Hl Hne Hb. destruct (build_tower _ _ Hb) as [Ht Hhd].
  destruct leaves as [|a l]; [done|]. destruct t as [[|l0 ls]]; [done|]. cbn in Ht, Hhd. injection Hhd as ->.
  apply tower_hashes in Ht; [|done|done]. unfold generate_proof. cbn [levels].
  case_decide; [done|]. destruct ((a :: l) !! i) as [leaf|]; [|done].
  destruct (walk _ i) as [q|] eqn:Hw; [|done]. intros [= <-]. cbn.
  eapply walk_hashes; [|exact Hw]. apply Forall_forall. intros x Hx. rewrite Forall_forall in Ht. apply Ht.
  eapply elem_of_sublist; [exact Hx|]. clear. generalize ((a :: l) :: ls). intros k.
  induction k as [|y [|z k] IH]; [done|apply sublist_nil_l|]. cbn [removelast]. by apply sublist_skip.
Qed.

(** Inclusion proofs are sound.  A proof of the depth of a tree that verifies against
    its root proves a leaf of the tree, unless one of the byte strings the verifier
    hashes differs from one the tree hashed and has the same SHA-256 digest. *)
Theorem proof_sound leaves t p :
  (forall b, is_hash (sha256 b)) -> Forall is_hash leaves -> leaves <> [] ->
  build leaves = Some t -> is_hash (leaf_hash p) ->
  Forall (fun s => is_hash (step_hash s)) (path p) ->
  length (path p) = depth t -> proof_root p = root t -> verify_proof p = true ->
  leaf_hash p ∈ leaves \/ collision (proof_inputs (leaf_hash p) (path p)) (tree_inputs t).
Proof.
  intros Hsha Hl Hne Hb Hlh Hp Hlen Hroot Hv%bool_decide_eq_true_1.
  apply tree_sound; try done. by rewrite Hv.
Qed.

(** ** The root *)

Lemma next_level_parents l : next_level l = parents l.
Proof.
  induction l as [l IH] using (induction_ltof1 _ (@length Hash)). unfold ltof in IH.
  destruct l as [|a [|b l]]; [done| |]; cbn [next_level parents]; unfold sha256_multi, hash_pair;
    cbn [concat]; rewrite app_nil_r; [done|]. rewrite IH by (simpl; lia). done.
Qed.

Lemma merkle_loop_levels n l above :
  build_loop n l = Some above -> (1 <= length l)%nat ->
  merkle_loop n l = last (l :: above) ≫= head.
Proof.
  revert l above. induction n as [|n IH]; intros l above; cbn [build_loop].
  - case_decide; [|done]. intros [= <-] Hl. destruct l as [|h [|h' l]]; simpl in *; try lia. done.
  - case_decide as Hd.
    + intros [= <-] Hl. destruct l as [|h [|h' l]]; simpl in *; try lia. done.
    + destruct (build_loop n (parents l)) as [rest|] eqn:E; [|done]. intros [= <-] Hl.
      destruct l as [|a [|b l]]; simpl in Hd; try lia. cbn [merkle_loop]. rewrite next_level_parents.
      rewrite (IH _ _ E); [done|]. rewrite parents_length. cbn [length].
      apply Nat.div_le_lower_bound; lia.
Qed.

(** The state layer's root is the one block production puts in a header. *)
Lemma build_root leaves : (root <$> build leaves) = merkle_root leaves.
Proof.
  destruct leaves as [|a [|b l]]; [done|done|].
  destruct (build_loop_total (length (a :: b :: l)) (a :: b :: l)) as [above E]; [lia|].
  unfold build, merkle_root. rewrite E. cbn [mbind option_bind fmap option_fmap option_map].
  rewrite (merkle_loop_levels _ _ _ E) by (simpl; lia). unfold root. cbn [levels].
  pose proof (build_loop_tower (length (a :: b :: l)) (a :: b :: l) above ltac:(simpl; lia) E) as Ht.
  destruct (walk_tower above (a :: b :: l) 0 a Ht eq_refl) as (_ & r & _ & Hr & _). by rewrite Hr.
Qed.

(** Repeating the last of an odd number of leaves does not change the root: two
    different lists of leaves share it. *)
Lemma duplicate_leaf_same_root a b c :
  (root <$> build [a; b; c]) = (root <$> build [a; b; c; c]).
Proof. done. Qed.
End merkle.

(** ** Witnesses *)

#[local] Existing Instance reference_hash.

Lemma proof_complete_witness :
  exists t p, build [[1]; [2]; [3]] = Some t /\ generate_proof t 2 = Some (Some p)
    /\ verify_proof p = true.
Proof.
  destruct (proof_complete [[1]; [2]; [3]] 2 [3]) as (t & p & Ht & Hp & _ & _ & Hv);
    [reflexivity|discriminate|]. by exists t, p.
Defined.

(** A hash of 32 numbers. *)
Definition wide_hash : HashLib := {|
  sha256 := fun b => replicate 32 (foldl (fun a x => (a * 257 + x) mod 251) 7 b);
  hex_encode := fun _ => "hex"
|}.

Definition three : list Hash := [replicate 32 1; replicate 32 2; replicate 32 3].

Definition three_tree : MerkleTree :=
  default (mkMerkleTree []) (build (H := wide_hash) three).

Definition three_proof : MerkleProof :=
  default (mkMerkleProof [] [] []) (default None (generate_proof three_tree 1)).

Lemma proof_sound_witness :
  leaf_hash three_proof ∈ three
  \/ collision (H := wide_hash)
       (proof_inputs (H := wide_hash) (leaf_hash three_proof) (path three_proof))
       (tree_inputs three_tree).
Proof.
  apply (proof_sound (H := wide_hash) three three_tree three_proof);
    [intros b; apply length_replicate|decide_now|discriminate|vm_compute; reflexivity
    |vm_compute; reflexivity|decide_now|vm_compute; reflexivity|vm_compute; reflexivity
    |vm_compute; reflexivity].
Defined.

End Merkle.
