(* ===== verification/StateStore.v ===== *)
(** * gratia-state: storage

    [crates/gratia-state/src/db.rs]: the trait [StateStore] as a class, the in-memory
    backend, and the typed database [StateDb] over any store.  A store method returns the
    store after the call; [RwLock] poisoning needs a panic while the lock is held and is
    not modelled.  RocksDB is third-party code: a backend is a store that meets
    [StoreSpec], the interface the state layer is proved against. *)

From stdpp Require Import base tactics strings gmap list sorting fin_maps.
From Stdlib Require Import ZArith Lia.
From S2P Require Import Prelude CoreTypes ThirdParty Crypto Blocks.
Local Open Scope Z_scope.

(** ** Computations over a store that may fail *)

Definition SM (S A : Type) : Type := S -> S * result GratiaError A.

Definition sret {S A} (a : A) : SM S A := fun s => (s, Ok a).
Definition sfail {S A} (e : GratiaError) : SM S A := fun s => (s, Err e).
Definition slift {S A} (r : result GratiaError A) : SM S A := fun s => (s, r).
Definition sread {S A} (f : S -> result GratiaError A) : SM S A := fun s => (s, f s).
Definition sbind {S A B} (m : SM S A) (k : A -> SM S B) : SM S B := fun s =>
  match m s with
  | (s, Ok a) => k a s
  | (s, Err e) => (s, Err e)
  end.

Notation "'let@' x := m 'in' k" := (sbind m (fun x => k))
  (at level 10, x name, m at level 100, k at level 200) : gratia_scope.

Lemma sbind_ok {S A B} (m : SM S A) (k : A -> SM S B) s s' b :
  sbind m k s = (s', Ok b) -> exists s1 a, m s = (s1, Ok a) /\ k a s1 = (s', Ok b).
Proof. unfold sbind. destruct (m s) as [s1 [a|e]]; [eauto|done]. Qed.

Lemma sbind_run {S A B} (m : SM S A) (k : A -> SM S B) s s1 a :
  m s = (s1, Ok a) -> sbind m k s = k a s1.
Proof. unfold sbind. by intros ->. Qed.

(** [for x in l { f(x)?; }] *)
Fixpoint sfor {S A} (f : A -> SM S unit) (l : list A) : SM S unit :=
  match l with
  | [] => sret tt
  | x :: l => let@ _u := f x in sfor f l
  end.

(** An error given by [bincode]. *)
Definition ser {A} (r : result string A) : result GratiaError A :=
  match r with Ok a => Ok a | Err e => Err (SerializationError e) end.

(** ** Stores *)

Definition CF_BLOCKS : string := "blocks".
Definition CF_TRANSACTIONS : string := "transactions".
Definition CF_ACCOUNTS : string := "accounts".
Definition CF_STATE : string := "state".
Definition CF_ATTESTATIONS : string := "attestations".

Definition ALL_COLUMN_FAMILIES : list string :=
  [CF_BLOCKS; CF_TRANSACTIONS; CF_ACCOUNTS; CF_STATE; CF_ATTESTATIONS].

Definition STATE_KEY_CHAIN_TIP : bytes := str_bytes "chain_tip".
Definition STATE_KEY_BLOCK_HEIGHT : bytes := str_bytes "block_height".
Definition STATE_KEY_STATE_ROOT : bytes := str_bytes "state_root".

Abbreviation column := (gmap (list Z) bytes).
Abbreviation batch := (list (string * bytes * option bytes)).

Class StateStore (S : Type) := {
  store_put : string -> bytes -> bytes -> SM S unit;
  store_get : S -> string -> bytes -> result GratiaError (option bytes);
  store_delete : string -> bytes -> SM S unit;
  store_batch_write : batch -> SM S unit;
  store_iter_cf : S -> string -> result GratiaError (list (bytes * bytes));
  store_iter_cf_limit : S -> string -> nat -> result GratiaError (list (bytes * bytes));
  store_count_keys : S -> string -> result GratiaError Z;
  store_estimate_size_bytes : S -> result GratiaError Z
}.

(** The entries of a column in key order. *)
Definition key_le (x y : bytes * bytes) : Prop := cmp_bytes x.1 y.1 <> Gt.

#[export] Instance key_le_dec : RelDecision key_le.
Proof. intros x y. unfold key_le. solve_decision. Defined.

Definition sorted_entries (c : column) : list (bytes * bytes) := merge_sort key_le (map_to_list c).

Lemma sorted_entries_perm c : sorted_entries c ≡ₚ map_to_list c.
Proof. apply merge_sort_Permutation. Qed.

Definition apply_op (c : column) (k : bytes) (v : option bytes) : column :=
  match v with Some v => <[k := v]> c | None => delete k c end.

(** What the state layer relies on: the columns of a store, the effect of each method on
    them, and iteration in key order.  The size is an estimate of the backend. *)
Class StoreSpec (S : Type) `{!StateStore S} := {
  col : S -> string -> column;
  store_ok : S -> Prop;
  spec_get s cf k : store_ok s -> cf ∈ ALL_COLUMN_FAMILIES -> store_get s cf k = Ok (col s cf !! k);
  spec_put s cf k v : store_ok s -> cf ∈ ALL_COLUMN_FAMILIES ->
    exists s', store_put cf k v s = (s', Ok tt) /\ store_ok s'
      /\ col s' cf = <[k := v]> (col s cf) /\ (forall c, c <> cf -> col s' c = col s c);
  spec_delete s cf k : store_ok s -> cf ∈ ALL_COLUMN_FAMILIES ->
    exists s', store_delete cf k s = (s', Ok tt) /\ store_ok s'
      /\ col s' cf = delete k (col s cf) /\ (forall c, c <> cf -> col s' c = col s c);
  spec_batch s ops : store_ok s -> Forall (fun o => o.1.1 ∈ ALL_COLUMN_FAMILIES) ops ->
    exists s', store_batch_write ops s = (s', Ok tt) /\ store_ok s'
      /\ (forall c, col s' c = foldl (fun m o => if decide (o.1.1 = c) then apply_op m o.1.2 o.2 else m)
                                 (col s c) ops);
  spec_iter s cf : store_ok s -> cf ∈ ALL_COLUMN_FAMILIES ->
    store_iter_cf s cf = Ok (sorted_entries (col s cf));
  spec_iter_limit s cf n : store_ok s -> cf ∈ ALL_COLUMN_FAMILIES ->
    store_iter_cf_limit s cf n = Ok (take n (sorted_entries (col s cf)));
  spec_count s cf : store_ok s -> cf ∈ ALL_COLUMN_FAMILIES ->
    store_count_keys s cf = Ok (Z.of_nat (size (col s cf)));
  spec_size s : store_ok s -> exists n, store_estimate_size_bytes s = Ok n
}.

(** ** InMemoryStore *)

Record InMemoryStore := mkInMemoryStore { data : gmap string column }.

Module InMemory.

Definition new : InMemoryStore :=
  mkInMemoryStore (list_to_map ((fun cf => (cf, ∅)) <$> ALL_COLUMN_FAMILIES)).

Definition unknown {A} (cf : string) : result GratiaError A :=
  Err (StorageError ("unknown column family: " +:+ cf)).

Definition write (cf : string) (k : bytes) (v : option bytes) : SM InMemoryStore unit := fun s =>
  match data s !! cf with
  | None => (s, unknown cf)
  | Some c => (mkInMemoryStore (<[cf := apply_op c k v]> (data s)), Ok tt)
  end.

Definition put (cf : string) (k v : bytes) : SM InMemoryStore unit := write cf k (Some v).
Definition delete (cf : string) (k : bytes) : SM InMemoryStore unit := write cf k None.

Definition batch_write (ops : batch) : SM InMemoryStore unit :=
  sfor (fun o => write o.1.1 o.1.2 o.2) ops.

Definition column_of {A} (f : column -> A) (s : InMemoryStore) (cf : string)
  : result GratiaError A :=
  match data s !! cf with
  | None => unknown cf
  | Some c => Ok (f c)
  end.

Definition get (s : InMemoryStore) (cf : string) (k : bytes) : result GratiaError (option bytes) :=
  column_of (fun c => c !! k) s cf.
Definition iter_cf (s : InMemoryStore) (cf : string) : result GratiaError (list (bytes * bytes)) :=
  column_of sorted_entries s cf.
Definition iter_cf_limit (s : InMemoryStore) (cf : string) (limit : nat)
  : result GratiaError (list (bytes * bytes)) :=
  column_of (fun c => take limit (sorted_entries c)) s cf.
Definition count_keys (s : InMemoryStore) (cf : string) : result GratiaError Z :=
  column_of (fun c => Z.of_nat (size c)) s cf.

Definition entry_size (kv : bytes * bytes) : Z :=
  Z.of_nat (length kv.1) + Z.of_nat (length kv.2).

Definition estimate_size_bytes (s : InMemoryStore) : result GratiaError Z :=
  Ok (wrap 64 (map_fold (fun _ c n => foldl (fun n kv => n + entry_size kv) n (map_to_list c))
                 0 (data s))).

(** [data.entry(cf).or_insert_with(BTreeMap::new)] *)
Definition ensure_cf (m : gmap string column) (cf : string) : gmap string column :=
  match m !! cf with Some _ => m | None => <[cf := ∅]> m end.

(** [load_from_file], given what the file holds: [None] when it cannot be read, [Err] when
    its contents do not decode. *)
Definition load (file : option (result string (gmap string column))) : InMemoryStore :=
  match file with
  | Some (Ok d) =>
      mkInMemoryStore (foldl ensure_cf d ALL_COLUMN_FAMILIES)
  | Some (Err _) | None => new
  end.

End InMemory.

#[export] Instance in_memory : StateStore InMemoryStore := {
  store_put := InMemory.put;
  store_get := InMemory.get;
  store_delete := InMemory.delete;
  store_batch_write := InMemory.batch_write;
  store_iter_cf := InMemory.iter_cf;
  store_iter_cf_limit := InMemory.iter_cf_limit;
  store_count_keys := InMemory.count_keys;
  store_estimate_size_bytes := InMemory.estimate_size_bytes
}.

(** Every column family is there. *)
Definition complete (s : InMemoryStore) : Prop :=
  Forall (fun cf => is_Some (data s !! cf)) ALL_COLUMN_FAMILIES.

Definition column_at (s : InMemoryStore) (cf : string) : column := default ∅ (data s !! cf).

Lemma complete_at s cf :
  complete s -> cf ∈ ALL_COLUMN_FAMILIES -> data s !! cf = Some (column_at s cf).
Proof.
  intros Hs Hcf. unfold complete in Hs. rewrite Forall_forall in Hs.
  destruct (Hs cf Hcf) as [c E]. unfold column_at. by rewrite E.
Qed.

Lemma write_spec s cf k v :
  complete s -> cf ∈ ALL_COLUMN_FAMILIES ->
  exists s', InMemory.write cf k v s = (s', Ok tt) /\ complete s'
    /\ column_at s' cf = apply_op (column_at s cf) k v
    /\ (forall c, c <> cf -> column_at s' c = column_at s c).
Proof.
  intros Hs Hcf. unfold InMemory.write. rewrite (complete_at s cf Hs Hcf). eexists. split; [done|].
  split; [|split].
  - unfold complete in *. eapply Forall_impl; [exact Hs|]. intros c Hc. cbn.
    destruct (decide (c = cf)) as [->|?]; [rewrite lookup_insert_eq|rewrite lookup_insert_ne by done]; eauto.
  - unfold column_at at 1. cbn. by rewrite lookup_insert_eq.
  - intros c Hc. unfold column_at. cbn. by rewrite lookup_insert_ne.
Qed.

Lemma batch_spec s ops :
  complete s -> Forall (fun o => o.1.1 ∈ ALL_COLUMN_FAMILIES) ops ->
  exists s', InMemory.batch_write ops s = (s', Ok tt) /\ complete s'
    /\ (forall c, column_at s' c
          = foldl (fun m o => if decide (o.1.1 = c) then apply_op m o.1.2 o.2 else m) (column_at s c) ops).
Proof.
  intros Hs Hops. revert s Hs. induction Hops as [|[[cf k] v] ops Hcf _ IH]; intros s Hs.
  - by exists s.
  - destruct (write_spec s cf k v Hs Hcf) as (s1 & E & Hs1 & Hc & Hne).
    destruct (IH s1 Hs1) as (s2 & E2 & Hs2 & Hf). exists s2.
    unfold InMemory.batch_write in *. cbn [sfor]. rewrite (sbind_run _ _ _ _ _ E).
    split; [done|]. split; [done|]. intros c. rewrite Hf. cbn [foldl fst snd].
    destruct (decide (cf = c)) as [->|Hn]; [by rewrite Hc|by rewrite Hne by done].
Qed.

#[export] Instance in_memory_spec : StoreSpec InMemoryStore.
Proof.
  refine {| col := column_at; store_ok := complete |}.
  - intros s cf k Hs Hcf. cbn. unfold InMemory.get, InMemory.column_of. by rewrite (complete_at s cf).
  - intros s cf k v. apply write_spec.
  - intros s cf k. apply write_spec.
  - apply batch_spec.
  - intros s cf Hs Hcf. cbn. unfold InMemory.iter_cf, InMemory.column_of. by rewrite (complete_at s cf).
  - intros s cf n Hs Hcf. cbn. unfold InMemory.iter_cf_limit, InMemory.column_of. by rewrite (complete_at s cf).
  - intros s cf Hs Hcf. cbn. unfold InMemory.count_keys, InMemory.column_of. by rewrite (complete_at s cf).
  - intros s _. by eexists.
Defined.

Lemma new_complete : complete InMemory.new.
Proof. unfold complete. repeat constructor; vm_compute; by eexists. Qed.

(** A saved store that has every column family is loaded as it was; an unreadable file
    gives an empty store that works. *)
Lemma load_saved s : complete s -> InMemory.load (Some (Ok (data s))) = s.
Proof.
  intros Hs. unfold InMemory.load. destruct s as [d]. cbn [data]. f_equal.
  unfold complete in Hs. cbn [data] in Hs. revert Hs. generalize ALL_COLUMN_FAMILIES. intros l Hl.
  induction Hl as [|cf l [c Hc] _ IH]; [done|]. cbn [foldl]. unfold InMemory.ensure_cf at 2.
  by rewrite Hc.
Qed.

Lemma ensure_keeps m cf c : is_Some (m !! c) -> is_Some (InMemory.ensure_cf m cf !! c).
Proof.
  intros Hc. unfold InMemory.ensure_cf. destruct (m !! cf) eqn:E; [done|].
  destruct (decide (c = cf)) as [->|?]; [rewrite lookup_insert_eq; eauto|by rewrite lookup_insert_ne].
Qed.

Lemma ensure_all l m c : is_Some (m !! c) \/ c ∈ l -> is_Some (foldl InMemory.ensure_cf m l !! c).
Proof.
  revert m. induction l as [|cf l IH]; intros m [Hc|Hc]; cbn [foldl].
  - done.
  - by apply elem_of_nil in Hc.
  - apply IH. left. by apply ensure_keeps.
  - apply elem_of_cons in Hc as [->|Hc]; apply IH; [left|by right].
    unfold InMemory.ensure_cf. destruct (m !! cf) eqn:E; [rewrite E|rewrite lookup_insert_eq]; eauto.
Qed.

Lemma load_complete f : complete (InMemory.load f).
Proof.
  destruct f as [[d|e]|]; [|apply new_complete..]. unfold complete. apply Forall_forall.
  intros cf Hcf. apply ensure_all. by right.
Qed.
