(* ===== verification/StateDb.v ===== *)
(** * gratia-state: the typed database

    The [StateDb] of [crates/gratia-state/src/db.rs] over any [StateStore], with [bincode]
    as a parameter, and the typed view of a store that the state layer is proved
    against. *)

From stdpp Require Import base tactics strings gmap list fin_maps.
From Stdlib Require Import ZArith Lia.
From S2P Require Import Prelude CoreTypes ThirdParty Crypto Blocks StateStore.
Local Open Scope Z_scope.

Record AccountState := mkAccount {
  balance : Lux;
  acct_nonce : Z;
  staked : Lux;
  overflow_stake : Lux;
  pol_valid : bool;
  pol_consecutive_days : Z;
  last_pol_date : option Z;
  acct_node_id : option NodeId
}.

Definition default_AccountState : AccountState := mkAccount 0 0 0 0 false 0 None None.

(** [bincode] of what the database stores; blocks and attestations are encoded with
    [Bincode]. *)
Class StateCodec `{!FloatLib} := {
  encode_account : AccountState -> result string bytes;
  decode_account : bytes -> result string AccountState;
  encode_tx : Transaction -> result string bytes;
  decode_tx : bytes -> result string Transaction;
  decode_block : bytes -> result string Block;
  decode_attestation : bytes -> result string ProofOfLifeAttestation
}.

Section db.
Context `{!FloatLib, !HashLib, !Bincode, !StateCodec} {S : Type} `{!StateStore S}.

(** ** Blocks *)

Definition put_block (b : Block) : SM S unit :=
  let@ hash := slift (header_hash (bl_header b)) in
  let@ encoded := slift (ser (encode_block b)) in
  let@ _u := store_put CF_BLOCKS hash encoded in
  store_put CF_BLOCKS (be_bytes 8 (height (bl_header b))) hash.

Definition get_block (s : S) (hash : Hash) : result GratiaError (option Block) :=
  let?? d := store_get s CF_BLOCKS hash in
  match d with
  | Some d => let?? b := ser (decode_block d) in Ok (Some b)
  | None => Ok None
  end.

Definition get_block_by_height (s : S) (h : Z) : result GratiaError (option Block) :=
  let?? d := store_get s CF_BLOCKS (be_bytes 8 h) in
  match d with
  | Some hash =>
      if decide (length hash <> 32%nat) then Err (StorageError "corrupt block height index")
      else get_block s hash
  | None => Ok None
  end.

Definition delete_block (hash : Hash) : SM S unit :=
  let@ b := sread (fun s => get_block s hash) in
  let@ _u := match b with
             | Some b => store_delete CF_BLOCKS (be_bytes 8 (height (bl_header b)))
             | None => sret tt
             end in
  store_delete CF_BLOCKS hash.

(** ** Transactions *)

Definition put_transaction (tx : Transaction) : SM S unit :=
  let@ encoded := slift (ser (encode_tx tx)) in
  store_put CF_TRANSACTIONS (tx_hash tx) encoded.

Definition get_transaction (s : S) (hash : Hash) : result GratiaError (option Transaction) :=
  let?? d := store_get s CF_TRANSACTIONS hash in
  match d with
  | Some d => let?? t := ser (decode_tx d) in Ok (Some t)
  | None => Ok None
  end.

Definition delete_transaction (hash : Hash) : SM S unit := store_delete CF_TRANSACTIONS hash.

(** ** Accounts *)

Definition put_account (a : Address) (x : AccountState) : SM S unit :=
  let@ encoded := slift (ser (encode_account x)) in
  store_put CF_ACCOUNTS a encoded.

Definition get_account (s : S) (a : Address) : result GratiaError AccountState :=
  let?? d := store_get s CF_ACCOUNTS a in
  match d with
  | Some d => ser (decode_account d)
  | None => Ok default_AccountState
  end.

Definition get_balance (s : S) (a : Address) : result GratiaError Lux :=
  let?? x := get_account s a in Ok (balance x).

Definition get_nonce (s : S) (a : Address) : result GratiaError Z :=
  let?? x := get_account s a in Ok (acct_nonce x).

(** ** Attestations *)

Definition put_attestation (a : ProofOfLifeAttestation) : SM S unit :=
  let@ encoded := slift (ser (encode_attestation a)) in
  store_put CF_ATTESTATIONS (nullifier a) encoded.

Definition get_attestation_by_nullifier (s : S) (n : Hash)
  : result GratiaError (option ProofOfLifeAttestation) :=
  let?? d := store_get s CF_ATTESTATIONS n in
  match d with
  | Some d => let?? a := ser (decode_attestation d) in Ok (Some a)
  | None => Ok None
  end.

Definition has_nullifier (s : S) (n : Hash) : result GratiaError bool :=
  let?? d := store_get s CF_ATTESTATIONS n in Ok (bool_decide (is_Some d)).

(** ** General state *)

Definition set_chain_tip (hash : Hash) : SM S unit := store_put CF_STATE STATE_KEY_CHAIN_TIP hash.

Definition get_chain_tip (s : S) : result GratiaError (option Hash) :=
  let?? d := store_get s CF_STATE STATE_KEY_CHAIN_TIP in
  match d with
  | Some d => if decide (length d <> 32%nat) then Err (StorageError "corrupt chain tip") else Ok (Some d)
  | None => Ok None
  end.

Definition set_block_height (h : Z) : SM S unit :=
  store_put CF_STATE STATE_KEY_BLOCK_HEIGHT (be_bytes 8 h).

Definition get_block_height (s : S) : result GratiaError Z :=
  let?? d := store_get s CF_STATE STATE_KEY_BLOCK_HEIGHT in
  match d with
  | Some d => if decide (length d <> 8%nat) then Err (StorageError "corrupt block height")
              else Ok (of_le_bytes (rev d))
  | None => Ok 0
  end.

Definition set_state_root (r : Hash) : SM S unit := store_put CF_STATE STATE_KEY_STATE_ROOT r.

Definition get_state_root (s : S) : result GratiaError Hash :=
  let?? d := store_get s CF_STATE STATE_KEY_STATE_ROOT in
  match d with
  | Some d => if decide (length d <> 32%nat) then Err (StorageError "corrupt state root") else Ok d
  | None => Ok (replicate 32 0)
  end.

(** ** The typed view *)

Context `{!StoreSpec S}.

(** What the database relies on: [bincode] reads back the accounts and blocks it wrote,
    and a SHA-256 digest has 32 bytes. *)
Class CodecLaws : Prop := {
  account_roundtrip x : exists d, encode_account x = Ok d /\ decode_account d = Ok x;
  block_roundtrip b d : encode_block b = Ok d -> decode_block d = Ok b;
  tx_roundtrip t d : encode_tx t = Ok d -> decode_tx d = Ok t;
  digest_length b : length (sha256 b) = 32%nat
}.
Context `{!CodecLaws}.

Definition decoded (d : bytes) : option AccountState :=
  match decode_account d with Ok x => Some x | Err _ => None end.

(** The accounts of a store, and the account of an address. *)
Definition accounts (s : S) : gmap (list Z) AccountState := omap decoded (col s CF_ACCOUNTS).
Definition acct (s : S) (a : Address) : AccountState := default default_AccountState (accounts s !! a).

Definition height_of (s : S) : Z :=
  match col s CF_STATE !! STATE_KEY_BLOCK_HEIGHT with Some d => of_le_bytes (rev d) | None => 0 end.
Definition tip_of (s : S) : option Hash := col s CF_STATE !! STATE_KEY_CHAIN_TIP.

Record db_ok (s : S) : Prop := {
  db_store : store_ok s;
  db_accounts : map_Forall (fun _ d => is_Some (decoded d)) (col s CF_ACCOUNTS);
  db_height : forall d, col s CF_STATE !! STATE_KEY_BLOCK_HEIGHT = Some d -> length d = 8%nat /\ Forall byte_ok d;
  db_tip : forall d, tip_of s = Some d -> length d = 32%nat
}.

(** Only the column [cf] differs. *)
Definition only (cf : string) (s s' : S) : Prop := forall c, c <> cf -> col s' c = col s c.

Lemma only_trans cf s1 s2 s3 : only cf s1 s2 -> only cf s2 s3 -> only cf s1 s3.
Proof. intros H12 H23 c Hc. by rewrite H23, H12. Qed.

Ltac in_cf := rewrite list_elem_of_In; vm_compute; tauto.

Lemma get_account_spec s a : db_ok s -> get_account s a = Ok (acct s a).
Proof.
  intros Hs. unfold get_account. rewrite spec_get; [|apply Hs|in_cf].
  unfold acct, accounts. rewrite lookup_omap.
  destruct (col s CF_ACCOUNTS !! a) as [d|] eqn:E; cbn [mbind option_bind]; [|done].
  destruct (db_accounts s Hs a d E) as [x Hx]. rewrite Hx. unfold decoded in Hx.
  by destruct (decode_account d); simplify_eq/=.
Qed.

Lemma put_account_spec s a x :
  db_ok s -> exists s', put_account a x s = (s', Ok tt) /\ db_ok s' /\ only CF_ACCOUNTS s s'
    /\ accounts s' = <[a := x]> (accounts s).
Proof.
  intros Hs. destruct (account_roundtrip x) as (d & He & Hd).
  destruct (spec_put s CF_ACCOUNTS a d (db_store s Hs) ltac:(in_cf)) as (s' & E & Hs' & Hc & Hne).
  exists s'. unfold put_account, sbind, slift. rewrite He. cbn. split; [done|].
  assert (decoded d = Some x) as Hdd by (unfold decoded; by rewrite Hd).
  split; [|split; [done|]].
  - destruct Hs as [Hst Ha Hh Ht]. split; [done| | |].
    + rewrite Hc. apply map_Forall_insert_2; [by rewrite Hdd|done].
    + rewrite (Hne CF_STATE) by done. done.
    + unfold tip_of in *. rewrite (Hne CF_STATE) by done. done.
  - unfold accounts. rewrite Hc, omap_insert, Hdd. done.
Qed.

Lemma get_height_spec s : db_ok s -> get_block_height s = Ok (height_of s).
Proof.
  intros Hs. unfold get_block_height, height_of. rewrite spec_get; [|apply Hs|in_cf].
  destruct (col s CF_STATE !! STATE_KEY_BLOCK_HEIGHT) as [d|] eqn:E; [|done].
  destruct (db_height s Hs d E) as [Hl _]. by rewrite decide_False by lia.
Qed.

Lemma get_tip_spec s : db_ok s -> get_chain_tip s = Ok (tip_of s).
Proof.
  intros Hs. unfold get_chain_tip. rewrite spec_get; [|apply Hs|in_cf]. fold (tip_of s).
  destruct (tip_of s) as [d|] eqn:E; [|done]. by rewrite decide_False by (rewrite (db_tip s Hs d E); lia).
Qed.

Lemma height_of_ge s : db_ok s -> 0 <= height_of s < 2 ^ 64.
Proof.
  intros Hs. unfold height_of. destruct (col s CF_STATE !! STATE_KEY_BLOCK_HEIGHT) as [d|] eqn:E; [|lia].
  destruct (db_height s Hs d E) as [Hl Hb].
  pose proof (of_le_bytes_range (rev d)) as Hr. rewrite length_rev, Hl in Hr.
  apply Hr. by apply Forall_rev.
Qed.

(** A write to a column other than the accounts and the state. *)
Lemma put_other_spec s cf k v :
  db_ok s -> cf ∈ [CF_BLOCKS; CF_TRANSACTIONS; CF_ATTESTATIONS] ->
  exists s', store_put cf k v s = (s', Ok tt) /\ db_ok s' /\ only cf s s'
    /\ col s' cf = <[k := v]> (col s cf).
Proof.
  intros Hs Hcf.
  assert (cf ∈ ALL_COLUMN_FAMILIES /\ cf <> CF_ACCOUNTS /\ cf <> CF_STATE) as (Hin & Ha & Hst).
  { rewrite !elem_of_cons, elem_of_nil in Hcf. destruct Hcf as [->|[->|[->|[]]]];
      (split; [in_cf|by split]). }
  destruct (spec_put s cf k v (db_store s Hs) Hin) as (s' & E & Hs' & Hc & Hne). exists s'.
  split; [done|]. split; [|by split]. destruct Hs as [Hs0 Hacc Hh Ht]. split; [done| | |].
  - by rewrite (Hne CF_ACCOUNTS) by congruence.
  - by rewrite (Hne CF_STATE) by congruence.
  - unfold tip_of in *. by rewrite (Hne CF_STATE) by congruence.
Qed.

Lemma delete_other_spec s cf k :
  db_ok s -> cf ∈ [CF_BLOCKS; CF_TRANSACTIONS; CF_ATTESTATIONS] ->
  exists s', store_delete cf k s = (s', Ok tt) /\ db_ok s' /\ only cf s s'
    /\ col s' cf = delete k (col s cf).
Proof.
  intros Hs Hcf.
  assert (cf ∈ ALL_COLUMN_FAMILIES /\ cf <> CF_ACCOUNTS /\ cf <> CF_STATE) as (Hin & Ha & Hst).
  { rewrite !elem_of_cons, elem_of_nil in Hcf. destruct Hcf as [->|[->|[->|[]]]];
      (split; [in_cf|by split]). }
  destruct (spec_delete s cf k (db_store s Hs) Hin) as (s' & E & Hs' & Hc & Hne). exists s'.
  split; [done|]. split; [|by split]. destruct Hs as [Hs0 Hacc Hh Ht]. split; [done| | |].
  - by rewrite (Hne CF_ACCOUNTS) by congruence.
  - by rewrite (Hne CF_STATE) by congruence.
  - unfold tip_of in *. by rewrite (Hne CF_STATE) by congruence.
Qed.

(** Writes of the general state. *)
Lemma put_state_spec s k v :
  db_ok s ->
  (k = STATE_KEY_BLOCK_HEIGHT -> length v = 8%nat /\ Forall byte_ok v) ->
  (k = STATE_KEY_CHAIN_TIP -> length v = 32%nat) ->
  exists s', store_put CF_STATE k v s = (s', Ok tt) /\ db_ok s' /\ only CF_STATE s s'
    /\ col s' CF_STATE = <[k := v]> (col s CF_STATE).
Proof.
  intros Hs Hk Ht. destruct (spec_put s CF_STATE k v (db_store s Hs) ltac:(in_cf)) as (s' & E & Hs' & Hc & Hne).
  exists s'. split; [done|]. split; [|by split]. destruct Hs as [Hs0 Hacc Hh Htip].
  split; [done|by rewrite (Hne CF_ACCOUNTS) by done| |].
  - intros d. rewrite Hc. destruct (decide (k = STATE_KEY_BLOCK_HEIGHT)) as [->|Hn].
    + rewrite lookup_insert_eq. intros [= <-]. by apply Hk.
    + rewrite lookup_insert_ne by done. apply Hh.
  - intros d. unfold tip_of in *. rewrite Hc. destruct (decide (k = STATE_KEY_CHAIN_TIP)) as [->|Hn].
    + rewrite lookup_insert_eq. intros [= <-]. by apply Ht.
    + rewrite lookup_insert_ne by done. apply Htip.
Qed.

Lemma be_bytes_ok n x : Forall byte_ok (be_bytes n x).
Proof. apply Forall_rev, le_bytes_ok. Qed.

Lemma be_bytes_length n x : length (be_bytes n x) = n.
Proof. unfold be_bytes. by rewrite length_rev, le_bytes_length. Qed.

Lemma be_bytes_inj x y : in_range 64 x -> in_range 64 y -> be_bytes 8 x = be_bytes 8 y -> x = y.
Proof.
  unfold in_range, be_bytes. intros Hx Hy E. apply rev_inj in E.
  pose proof (of_le_bytes_le_bytes 8 x) as Ex. pose proof (of_le_bytes_le_bytes 8 y) as Ey.
  rewrite E, Ey, !Z.mod_small in Ex by (cbn; lia). done.
Qed.

Lemma header_hash_length hd h : header_hash hd = Ok h -> length h = 32%nat.
Proof.
  unfold header_hash. destruct (encode_header hd); [|done]. intros [= <-]. apply digest_length.
Qed.

(** An index key is never the key of a block. *)
Lemma index_not_hash hd h x : header_hash hd = Ok h -> be_bytes 8 x <> h.
Proof.
  intros Hh E. apply header_hash_length in Hh. rewrite <-E, be_bytes_length in Hh. lia.
Qed.

Lemma put_block_spec s b s' u :
  db_ok s -> put_block b s = (s', Ok u) ->
  exists h d, header_hash (bl_header b) = Ok h /\ encode_block b = Ok d
    /\ db_ok s' /\ only CF_BLOCKS s s'
    /\ col s' CF_BLOCKS = <[be_bytes 8 (height (bl_header b)) := h]> (<[h := d]> (col s CF_BLOCKS)).
Proof.
  intros Hs. unfold put_block, sbind, slift. destruct (header_hash (bl_header b)) as [h|] eqn:Eh; [|done].
  destruct (encode_block b) as [d|] eqn:Ed; cbn [ser]; [|done].
  destruct (put_other_spec s CF_BLOCKS h d Hs) as (s1 & -> & Hs1 & Ho1 & Hc1); [set_solver|].
  destruct (put_other_spec s1 CF_BLOCKS (be_bytes 8 (height (bl_header b))) h Hs1)
    as (s2 & -> & Hs2 & Ho2 & Hc2); [set_solver|].
  intros [= <- _]. exists h, d. split; [done|]. split; [done|]. split; [done|].
  split; [by eapply only_trans|]. by rewrite Hc2, Hc1.
Qed.

Lemma get_block_spec s h b d :
  db_ok s -> col s CF_BLOCKS !! h = Some d -> decode_block d = Ok b -> get_block s h = Ok (Some b).
Proof.
  intros Hs E Hd. unfold get_block. rewrite spec_get; [|apply Hs|in_cf]. rewrite E, Hd. done.
Qed.

Lemma get_block_none s h : db_ok s -> col s CF_BLOCKS !! h = None -> get_block s h = Ok None.
Proof. intros Hs E. unfold get_block. rewrite spec_get; [|apply Hs|in_cf]. by rewrite E. Qed.

End db.
Arguments CodecLaws {_ _ _ _}.
