(* ===== verification/Pruning.v ===== *)
(** * gratia-state: pruning

    [crates/gratia-state/src/pruning.rs]: the pruning of old blocks, transactions and
    attestations, and the interval-based [PruningManager].

    Theorems: a pruning cycle keeps the accounts, the chain state and every recent block
    ([pruning_keeps_recent]), and removes an old block with its header (an example is
    [LedgerSamples.pruned_header_gone]). *)

From stdpp Require Import base tactics strings gmap list fin_maps.
From Stdlib Require Import ZArith Lia.
From S2P Require Import Prelude CoreTypes ThirdParty Ieee Crypto Blocks StateStore StateDb.
Local Open Scope Z_scope.

Record PruningPolicy := mkPruningPolicy {
  max_db_size_bytes : Z;
  block_retention_count : Z;
  transaction_retention_count : Z;
  attestation_retention_days : Z;
  warning_threshold : Z
}.

(** The threshold 0.8 by its bits. *)
Definition default_PruningPolicy : PruningPolicy :=
  mkPruningPolicy (3 * 1024 * 1024 * 1024) 100000 50000 30 0x3FE999999999999A.

Record PruningResult := mkPruningResult {
  blocks_pruned : Z;
  transactions_pruned : Z;
  attestations_pruned : Z;
  bytes_freed : Z
}.

Module Pruning.

Section pruning.
Context `{!FloatLib, !HashLib, !Bincode, !StateCodec} {S : Type} `{!StateStore S}.

Definition should_prune (p : PruningPolicy) (s : S) : result GratiaError bool :=
  let?? current_size := store_estimate_size_bytes s in
  Ok (bool_decide (current_size > max_db_size_bytes p)).

(** The size, the limit and the utilization as an [f64]. *)
Definition estimate_db_size (p : PruningPolicy) (s : S) : result GratiaError (Z * Z * Z) :=
  let?? current_size := store_estimate_size_bytes s in
  let max_size := max_db_size_bytes p in
  let utilization := if decide (max_size > 0)
                     then Ieee.fdiv Ieee.f64 (Ieee.of_int Ieee.f64 current_size) (Ieee.of_int Ieee.f64 max_size)
                     else 0 in
  Ok (current_size, max_size, utilization).

(** One iteration of the loop over the heights: the number of blocks removed. *)
Definition prune_height (h : Z) : SM S Z :=
  let@ d := sread (fun s => store_get s CF_BLOCKS (be_bytes 8 h)) in
  match d with
  | Some hash_bytes =>
      if decide (length hash_bytes = 32%nat)
      then let@ _u := store_delete CF_BLOCKS hash_bytes in sret 1
      else sret 0
  | None => sret 0
  end.

Fixpoint prune_heights (heights : list Z) (pruned : Z) : SM S Z :=
  match heights with
  | [] => sret pruned
  | h :: heights => let@ n := prune_height h in prune_heights heights (wadd 64 pruned n)
  end.

Definition prune_old_blocks (p : PruningPolicy) (current_height : Z) : SM S Z :=
  if decide (current_height <= block_retention_count p) then sret 0
  else
    let cutoff_height := current_height - block_retention_count p in
    prune_heights (Z.of_nat <$> seq 0 (Z.to_nat cutoff_height)) 0.

(** [sort_by_key] on the timestamp. *)
Definition sort_by_time (l : list (bytes * DateTime)) : list (bytes * DateTime) :=
  sort_by (fun x y => x.2 <=? y.2) l.

(** The stored transactions that decode, with their timestamps. *)
Definition timestamped (all_txs : list (bytes * bytes)) : list (bytes * DateTime) :=
  omap (fun kv => match decode_tx kv.2 with
                  | Ok tx => Some (kv.1, tx_timestamp tx)
                  | Err _ => None
                  end) all_txs.

Definition deletions (cf : string) (keys : list bytes) : batch :=
  (fun k => (cf, k, None)) <$> keys.

Definition prune_old_transactions (p : PruningPolicy) (current_height : Z) : SM S Z :=
  if decide (current_height <= transaction_retention_count p) then sret 0
  else
    let@ count := sread (fun s => store_count_keys s CF_TRANSACTIONS) in
    let max_expected_txs := wmul 64 (transaction_retention_count p) 1000 in
    if decide (count <= max_expected_txs) then sret 0
    else
      let@ all_txs := sread (fun s => store_iter_cf s CF_TRANSACTIONS) in
      let excess := count - max_expected_txs in
      let keys := fst <$> take (Z.to_nat excess) (sort_by_time (timestamped all_txs)) in
      match keys with
      | [] => sret 0
      | _ => let@ _u := store_batch_write (deletions CF_TRANSACTIONS keys) in
             sret (Z.of_nat (length keys))
      end.

Definition prune_old_attestations (p : PruningPolicy) : SM S Z :=
  let max_retained := wmul 64 (attestation_retention_days p) 10000 in
  let@ count := sread (fun s => store_count_keys s CF_ATTESTATIONS) in
  if decide (count <= max_retained) then sret 0
  else
    let prune_count := count - max_retained in
    let@ to_prune := sread (fun s => store_iter_cf_limit s CF_ATTESTATIONS (Z.to_nat prune_count)) in
    let keys := fst <$> to_prune in
    match keys with
    | [] => sret 0
    | _ => let@ _u := store_batch_write (deletions CF_ATTESTATIONS keys) in
           sret (Z.of_nat (length keys))
    end.

Definition run_pruning_cycle (p : PruningPolicy) (current_height : Z) : SM S PruningResult :=
  let@ size_before := sread store_estimate_size_bytes in
  let@ blocks := prune_old_blocks p current_height in
  let@ txs := prune_old_transactions p current_height in
  let@ atts := prune_old_attestations p in
  let@ size_after := sread store_estimate_size_bytes in
  sret (mkPruningResult blocks txs atts (saturating_sub size_before size_after)).

(** ** What a cycle changes *)

Context `{!StoreSpec S, !CodecLaws}.

(** Every change of a cycle: the accounts and the chain state stay, the block column
    loses the digests [gone]. *)
Definition pruned (gone : list bytes) (s s' : S) : Prop :=
  db_ok s' /\ col s' CF_ACCOUNTS = col s CF_ACCOUNTS /\ col s' CF_STATE = col s CF_STATE
  /\ forall k, k ∉ gone -> col s' CF_BLOCKS !! k = col s CF_BLOCKS !! k.

Lemma pruned_refl g s : db_ok s -> pruned g s s.
Proof. by intros Hs. Qed.

Lemma pruned_trans g s1 s2 s3 : pruned g s1 s2 -> pruned g s2 s3 -> pruned g s1 s3.
Proof.
  intros (_ & Ha & Hs & Hb) (Hok & Ha' & Hs' & Hb'). split; [done|].
  split; [congruence|]. split; [congruence|]. intros k Hk. by rewrite Hb', Hb.
Qed.

(** Deletions in the transaction or attestation column. *)
Lemma batch_pruned s cf keys :
  db_ok s -> cf ∈ [CF_TRANSACTIONS; CF_ATTESTATIONS] ->
  exists s', store_batch_write (deletions cf keys) s = (s', Ok tt) /\ pruned [] s s'.
Proof.
  intros Hs Hcf.
  assert (cf ∈ ALL_COLUMN_FAMILIES /\ cf <> CF_ACCOUNTS /\ cf <> CF_STATE /\ cf <> CF_BLOCKS)
    as (Hin & Ha & Hst & Hbl).
  { rewrite !elem_of_cons, elem_of_nil in Hcf.
    destruct Hcf as [->|[->|[]]]; (split; [rewrite list_elem_of_In; vm_compute; tauto|done]). }
  destruct (spec_batch s (deletions cf keys) (db_store s Hs)) as (s' & E & Hs' & Hc).
  { apply Forall_fmap, Forall_forall. by intros. }
  assert (forall c, c <> cf -> col s' c = col s c) as Hne.
  { intros c Hn. rewrite Hc. unfold deletions. clear -Hn. generalize (col s c). induction keys as [|k l IH];
      intros m; [done|]. cbn [fmap list_fmap foldl fst snd]. by rewrite decide_False. }
  exists s'. split; [done|]. split; [|by rewrite !Hne by congruence].
  destruct Hs as [Hs0 Hacc Hh Ht]. unfold tip_of in *.
  split; [done|..]; unfold tip_of; rewrite !Hne by congruence; done.
Qed.

(** The digests the index has for the heights below the cutoff. *)
Definition indexed (s : S) (heights : list Z) : list bytes :=
  omap (fun h => col s CF_BLOCKS !! be_bytes 8 h) heights.

Lemma prune_height_ok s h g :
  db_ok s -> (forall d, col s CF_BLOCKS !! be_bytes 8 h = Some d -> length d = 32%nat -> d ∈ g) ->
  exists s' n, prune_height h s = (s', Ok n) /\ pruned g s s'
    /\ (forall d, col s CF_BLOCKS !! be_bytes 8 h = Some d -> length d = 32%nat -> col s' CF_BLOCKS !! d = None)
    /\ (forall k, col s CF_BLOCKS !! k = None -> col s' CF_BLOCKS !! k = None)
    /\ (forall k, length k <> 32%nat -> col s' CF_BLOCKS !! k = col s CF_BLOCKS !! k).
Proof.
  intros Hs Hg. unfold prune_height, sbind, sread.
  rewrite spec_get; [|apply Hs|rewrite list_elem_of_In; vm_compute; tauto].
  destruct (col s CF_BLOCKS !! be_bytes 8 h) as [d|] eqn:E; [|by exists s, 0].
  case_decide as Hl.
  2: { exists s, 0. split; [done|]. split; [by apply pruned_refl|]. split; [|done]. by intros d' [= <-]. }
  destruct (delete_other_spec s CF_BLOCKS d Hs) as (s' & -> & Hs' & Ho & Hc); [set_solver|].
  exists s', 1. split; [done|]. split; [|split; [|split]].
  - split; [done|]. rewrite (Ho CF_ACCOUNTS), (Ho CF_STATE) by done. split; [done|]. split; [done|].
    intros k Hk. rewrite Hc. rewrite lookup_delete_ne; [done|]. intros ->. by apply Hk, Hg.
  - intros d' [= <-] _. rewrite Hc. apply lookup_delete_eq.
  - intros k Hk. rewrite Hc. rewrite lookup_delete_None. by right.
  - intros k Hk. rewrite Hc. rewrite lookup_delete_ne; [done|]. by intros ->.
Qed.

Lemma prune_heights_ok heights s n g :
  db_ok s -> (forall h d, h ∈ heights -> col s CF_BLOCKS !! be_bytes 8 h = Some d -> length d = 32%nat -> d ∈ g) ->
  exists s' m, prune_heights heights n s = (s', Ok m) /\ pruned g s s'
    /\ (forall h d, h ∈ heights -> col s CF_BLOCKS !! be_bytes 8 h = Some d -> length d = 32%nat ->
          col s' CF_BLOCKS !! d = None)
    /\ (forall k, col s CF_BLOCKS !! k = None -> col s' CF_BLOCKS !! k = None)
    /\ (forall k, length k <> 32%nat -> col s' CF_BLOCKS !! k = col s CF_BLOCKS !! k).
Proof.
  revert s n. induction heights as [|h heights IH]; intros s n Hs Hg.
  - exists s, n. split; [done|]. split; [by apply pruned_refl|]. split; [|done].
    intros h d Hh. by apply elem_of_nil in Hh.
  - destruct (prune_height_ok s h g Hs) as (s1 & n1 & E1 & Hp1 & Hd1 & Hn1 & Hk1); [set_solver|].
    destruct (IH s1 (wadd 64 n n1)) as (s2 & m & E2 & Hp2 & Hd2 & Hn2 & Hk2); [by destruct Hp1| |].
    { intros h' d Hh'. rewrite Hk1 by (rewrite be_bytes_length; lia). set_solver. }
    exists s2, m. cbn [prune_heights]. rewrite (sbind_run _ _ _ _ _ E1). split; [done|].
    split; [by eapply pruned_trans|]. split; [|split].
    + intros h' d Hh' Hc Hl. apply elem_of_cons in Hh' as [->|Hh']; [eauto|].
      eapply Hd2; [done| |done]. by rewrite Hk1 by (rewrite be_bytes_length; lia).
    + eauto.
    + intros k Hk. by rewrite Hk2, Hk1.
Qed.

Lemma prune_txs_ok p h s :
  db_ok s -> exists s' n, prune_old_transactions p h s = (s', Ok n) /\ pruned [] s s'.
Proof.
  intros Hs. unfold prune_old_transactions.
  case_decide; [exists s, 0; by split; [|apply pruned_refl]|]. unfold sbind, sread.
  rewrite spec_count; [|apply Hs|rewrite list_elem_of_In; vm_compute; tauto]. cbv zeta.
  case_decide; [exists s, 0; by split; [|apply pruned_refl]|].
  rewrite spec_iter; [|apply Hs|rewrite list_elem_of_In; vm_compute; tauto]. cbv zeta.
  destruct (fst <$> _) as [|k keys] eqn:E; [exists s, 0; by split; [|apply pruned_refl]|].
  destruct (batch_pruned s CF_TRANSACTIONS (k :: keys) Hs) as (s' & -> & Hp); [set_solver|].
  by eexists _, _.
Qed.

Lemma prune_atts_ok p s :
  db_ok s -> exists s' n, prune_old_attestations p s = (s', Ok n) /\ pruned [] s s'.
Proof.
  intros Hs. unfold prune_old_attestations, sbind, sread. cbv zeta.
  rewrite spec_count; [|apply Hs|rewrite list_elem_of_In; vm_compute; tauto]. cbv zeta.
  case_decide; [exists s, 0; by split; [|apply pruned_refl]|].
  rewrite spec_iter_limit; [|apply Hs|rewrite list_elem_of_In; vm_compute; tauto].
  destruct (fst <$> _) as [|k keys] eqn:E; [exists s, 0; by split; [|apply pruned_refl]|].
  destruct (batch_pruned s CF_ATTESTATIONS (k :: keys) Hs) as (s' & -> & Hp); [set_solver|].
  by eexists _, _.
Qed.

(** The heights below the cutoff. *)
Definition old (p : PruningPolicy) (current_height h : Z) : Prop :=
  0 <= h < current_height - block_retention_count p.

Lemma prune_blocks_ok p h s :
  db_ok s -> exists s' n, prune_old_blocks p h s = (s', Ok n)
    /\ pruned (indexed s (Z.of_nat <$> seq 0 (Z.to_nat (h - block_retention_count p)))) s s'
    /\ (forall i d, old p h i -> col s CF_BLOCKS !! be_bytes 8 i = Some d -> length d = 32%nat ->
          col s' CF_BLOCKS !! d = None)
    /\ (forall k, length k <> 32%nat -> col s' CF_BLOCKS !! k = col s CF_BLOCKS !! k).
Proof.
  intros Hs. unfold prune_old_blocks, old. case_decide as Hh.
  - exists s, 0. split; [done|]. split; [by apply pruned_refl|]. split; [|done]. intros i d Hi. lia.
  - destruct (prune_heights_ok (Z.of_nat <$> seq 0 (Z.to_nat (h - block_retention_count p))) s 0
                (indexed s (Z.of_nat <$> seq 0 (Z.to_nat (h - block_retention_count p)))) Hs)
      as (s' & m & E & Hp & Hd & _ & Hk).
    { intros i d Hi Hc _. unfold indexed. apply list_elem_of_omap. by exists i. }
    exists s', m. split; [done|]. split; [done|]. split; [|done]. intros i d Hi. apply Hd.
    apply list_elem_of_fmap. exists (Z.to_nat i). split; [lia|]. apply elem_of_seq. lia.
Qed.

(** A cycle always completes. *)
Lemma cycle_ok p h s :
  db_ok s -> exists s' r, run_pruning_cycle p h s = (s', Ok r)
    /\ pruned (indexed s (Z.of_nat <$> seq 0 (Z.to_nat (h - block_retention_count p)))) s s'
    /\ (forall i d, old p h i -> col s CF_BLOCKS !! be_bytes 8 i = Some d -> length d = 32%nat ->
          col s' CF_BLOCKS !! d = None)
    /\ (forall k, length k <> 32%nat -> col s' CF_BLOCKS !! k = col s CF_BLOCKS !! k).
Proof.
  intros Hs. destruct (spec_size s (db_store s Hs)) as [n0 En0].
  destruct (prune_blocks_ok p h s Hs) as (s1 & n1 & E1 & Hp1 & Hd1 & Hk1).
  destruct (prune_txs_ok p h s1 (proj1 Hp1)) as (s2 & n2 & E2 & Hp2).
  destruct (prune_atts_ok p s2 (proj1 Hp2)) as (s3 & n3 & E3 & Hp3).
  destruct (spec_size s3 (db_store s3 (proj1 Hp3))) as [n4 En4].
  exists s3. eexists. unfold run_pruning_cycle.
  rewrite (sbind_run _ _ s s n0) by (unfold sread; by rewrite En0).
  rewrite (sbind_run _ _ _ _ _ E1), (sbind_run _ _ _ _ _ E2), (sbind_run _ _ _ _ _ E3).
  rewrite (sbind_run _ _ s3 s3 n4) by (unfold sread; by rewrite En4). split; [done|].
  destruct Hp1 as (_ & Ha1 & Hs1 & Hb1), Hp2 as (_ & Ha2 & Hs2 & Hb2), Hp3 as (Hok & Ha3 & Hs3 & Hb3).
  split; [|split].
  - split; [done|]. split; [congruence|]. split; [congruence|].
    intros k Hk. rewrite Hb3, Hb2, Hb1; [done|done|set_solver..].
  - intros i d Hi Hc Hl. rewrite Hb3, Hb2 by set_solver. eauto.
  - intros k Hk. rewrite Hb3, Hb2 by set_solver. eauto.
Qed.

(** No two heights are indexed by the same digest. *)
Definition index_injective (s : S) : Prop :=
  forall i j d, in_range 64 i -> in_range 64 j ->
    col s CF_BLOCKS !! be_bytes 8 i = Some d -> col s CF_BLOCKS !! be_bytes 8 j = Some d -> i = j.

(** Pruning keeps what the node needs.  A pruning cycle always completes; it leaves
    every account, the chain tip and the height as they were; every block at or above the
    cutoff is still found by its height; below the cutoff a block whose index entry is a
    digest is not. *)
Theorem pruning_keeps_recent p s h :
  db_ok s -> index_injective s -> in_range 64 h -> 0 <= block_retention_count p ->
  exists s' r, run_pruning_cycle p h s = (s', Ok r)
    /\ db_ok s' /\ accounts s' = accounts s /\ tip_of s' = tip_of s /\ height_of s' = height_of s
    /\ (forall k, in_range 64 k -> h - block_retention_count p <= k ->
          get_block_by_height s' k = get_block_by_height s k)
    /\ (forall k d, old p h k -> col s CF_BLOCKS !! be_bytes 8 k = Some d -> length d = 32%nat ->
          get_block_by_height s' k = Ok None).
Proof.
  intros Hs Hinj Hh Hret. destruct (cycle_ok p h s Hs) as (s' & r & E & (Hok & Ha & Hst & Hb) & Hd & Hk).
  exists s', r. split; [done|]. split; [done|]. unfold accounts, tip_of, height_of. rewrite Ha, Hst.
  split; [done|]. split; [done|]. split; [done|].
  assert (CF_BLOCKS ∈ ALL_COLUMN_FAMILIES) as Hin by (rewrite list_elem_of_In; vm_compute; tauto).
  split.
  - intros k Hr Hge. unfold get_block_by_height. rewrite !spec_get; [|apply Hs|done|apply Hok|done].
    rewrite (Hk (be_bytes 8 k)) by (rewrite be_bytes_length; lia).
    destruct (col s CF_BLOCKS !! be_bytes 8 k) as [d|] eqn:Ek; [|done]. case_decide; [done|].
    unfold get_block. rewrite !spec_get; [|apply Hs|done|apply Hok|done].
    rewrite (Hb d); [done|]. unfold indexed. rewrite list_elem_of_omap. intros (i & Hi & Ei).
    apply list_elem_of_fmap in Hi as (n & -> & Hn). apply elem_of_seq in Hn.
    assert (Z.of_nat n = k); [|lia]. unfold in_range in *. apply (Hinj _ _ d); unfold in_range; done || lia.
  - intros k d Hold Ek Hl. unfold get_block_by_height. rewrite spec_get; [|apply Hok|done].
    rewrite (Hk (be_bytes 8 k)) by (rewrite be_bytes_length; lia). rewrite Ek.
    rewrite decide_False by lia. by apply get_block_none; [|eapply Hd].
Qed.

End pruning.

End Pruning.
