(* ===== verification/PruningManager.v ===== *)
(** * gratia-state: the pruning manager

    The interval-based [PruningManager] of [crates/gratia-state/src/pruning.rs]: when a
    pruning cycle runs, and the statistics of the cycles.  [prune_cadence]: with one tick
    and one check per block a cycle runs at exactly every [prune_interval_blocks]-th
    block. *)

From stdpp Require Import base tactics strings gmap list.
From Stdlib Require Import ZArith Lia.
From S2P Require Import Prelude CoreTypes.
Local Open Scope Z_scope.

Record PruningConfig := mkPruningConfig {
  max_blocks_retained : Z;
  max_state_size_bytes : Z;
  prune_interval_blocks : Z;
  keep_recent_txs_days : Z
}.

Definition default_PruningConfig : PruningConfig := mkPruningConfig 10000 2147483648 100 90.

Record PruneStats := mkPruneStats {
  total_blocks_pruned : Z;
  total_bytes_freed : Z;
  last_prune_height : Z;
  last_prune_timestamp : DateTime
}.

Definition default_PruneStats : PruneStats := mkPruneStats 0 0 0 0.

Record PruningManager := mkPruningManager {
  pm_config : PruningConfig;
  blocks_since_last_prune : Z;
  prune_stats : PruneStats
}.

Module PruneManager.

Definition new (c : PruningConfig) : PruningManager := mkPruningManager c 0 default_PruneStats.
Definition with_defaults : PruningManager := new default_PruningConfig.

Definition tick (m : PruningManager) : PruningManager :=
  mkPruningManager (pm_config m) (wadd 64 (blocks_since_last_prune m) 1) (prune_stats m).

Definition should_prune (m : PruningManager) : PruningManager * bool :=
  if decide (blocks_since_last_prune m >= prune_interval_blocks (pm_config m))
  then (mkPruningManager (pm_config m) 0 (prune_stats m), true)
  else (m, false).

Definition calculate_prune_target (m : PruningManager) (current_height : Z) : Z :=
  saturating_sub current_height (max_blocks_retained (pm_config m)).

Definition estimate_storage_bytes (block_count tx_count : Z) : Z :=
  saturating_add 64 (saturating_mul 64 block_count 450) (saturating_mul 64 tx_count 300).

Definition record_prune (m : PruningManager) (blocks freed height : Z) (now : DateTime)
  : PruningManager :=
  let st := prune_stats m in
  mkPruningManager (pm_config m) (blocks_since_last_prune m)
    (mkPruneStats (wadd 64 (total_blocks_pruned st) blocks) (wadd 64 (total_bytes_freed st) freed)
       height now).

(** [n] applied blocks, one tick and one check each: the manager and the number of
    cycles. *)
Fixpoint after_blocks (n : nat) (m : PruningManager) : PruningManager * Z :=
  match n with
  | O => (m, 0)
  | S n => let '(m, k) := after_blocks n m in
           let '(m, fired) := should_prune (tick m) in (m, if fired then k + 1 else k)
  end.

Lemma prune_cadence c n :
  0 < prune_interval_blocks c < 2 ^ 64 ->
  pm_config (after_blocks n (new c)).1 = c
  /\ (after_blocks n (new c)).2 = Z.of_nat n / prune_interval_blocks c
  /\ blocks_since_last_prune (after_blocks n (new c)).1 = Z.of_nat n mod prune_interval_blocks c.
Proof.
  intros Hi. set (i := prune_interval_blocks c) in *. induction n as [|n (Hc & Hk & Hb)].
  - cbn. by rewrite Z.div_0_l, Z.mod_0_l by lia.
  - cbn [after_blocks]. destruct (after_blocks n (new c)) as [m k]. cbn in Hc, Hk, Hb. subst k.
    pose proof (Z.mod_pos_bound (Z.of_nat n) i ltac:(lia)) as Hm.
    pose proof (Z.div_mod (Z.of_nat n) i ltac:(lia)) as Hd.
    unfold should_prune, tick. cbn [blocks_since_last_prune pm_config]. rewrite Hb, Hc. fold i.
    rewrite wadd_small by (unfold in_range; lia). case_decide as Hf; cbn.
    + replace (Z.of_nat (S n)) with ((Z.of_nat n / i + 1) * i) by lia.
      rewrite Z.div_mul, Z.mod_mul by lia. done.
    + assert (Z.of_nat (S n) = i * (Z.of_nat n / i) + (Z.of_nat n mod i + 1)) as E by lia.
      split; [done|]. split.
      * apply (Z.div_unique_pos _ _ _ (Z.of_nat n mod i + 1)); lia.
      * apply (Z.mod_unique_pos _ _ (Z.of_nat n / i)); lia.
Qed.

(** The estimate never wraps: it is exact or the largest 64-bit number. *)
Lemma estimate_exact b t :
  0 <= b -> 0 <= t -> b * 450 + t * 300 < 2 ^ 64 -> estimate_storage_bytes b t = b * 450 + t * 300.
Proof. unfold estimate_storage_bytes. intros. ulia. Qed.

End PruneManager.
