(* ===== verification/LedgerAccounts.v ===== *)
(** * gratia-state: the ledger of accounts

    The effect of transactions on the accounts alone, as functions on finite maps, and
    the refinement: the database operations of [Ledger] implement them.  Two maps that
    give every address the same account are equivalent ([same_accounts]); reverting
    respects the equivalence and undoes a transaction ([revert_undoes]). *)

From stdpp Require Import base tactics strings gmap list fin_maps.
From Stdlib Require Import ZArith Lia Setoid Morphisms.
From S2P Require Import Prelude CoreTypes ThirdParty Crypto Blocks StateStore StateDb Merkle Pruning Ledger.
Local Open Scope Z_scope.

Module LedgerAccounts.
Import Ledger.

Abbreviation book := (gmap (list Z) AccountState).

Definition look (m : book) (a : Address) : AccountState := default default_AccountState (m !! a).

Definition same_accounts (m m' : book) : Prop := forall a, look m a = look m' a.

#[export] Instance same_accounts_equiv : Equivalence same_accounts.
Proof. split; [done|by intros m m' Hm a|]. intros m1 m2 m3 H12 H23 a. by rewrite H12. Qed.

#[export] Instance look_proper : Proper (same_accounts ==> eq ==> eq) look.
Proof. intros m m' Hm a _ <-. apply Hm. Qed.

Lemma look_insert_eq m a x : look (<[a := x]> m) a = x.
Proof. unfold look. by rewrite lookup_insert_eq. Qed.

Lemma look_insert_ne m a b x : a <> b -> look (<[a := x]> m) b = look m b.
Proof. intros. unfold look. by rewrite lookup_insert_ne. Qed.

#[export] Instance insert_proper a x : Proper (same_accounts ==> same_accounts) (<[a := x]>).
Proof.
  intros m m' Hm b. destruct (decide (a = b)) as [->|?];
    [by rewrite !look_insert_eq|by rewrite !look_insert_ne].
Qed.

Section transactions.
Context `{!FloatLib, !HashLib, !SignLib}.

Definition sender_of (tx : Transaction) : result GratiaError Address :=
  address_from_pubkey (sender_pubkey tx).

(** The sender pays [debit]; its stake becomes [st]. *)
Definition charge (m : book) (a : Address) (x : AccountState) (b st : Z) : book :=
  <[a := set_funds x b st (wadd 64 (acct_nonce x) 1)]> m.

Definition ledger_tx (m : book) (tx : Transaction) : result GratiaError book :=
  let?? a := sender_of tx in
  let x := look m a in
  match payload tx with
  | Transfer to amount =>
      match checked_add 64 amount (fee tx) with
      | None => Err (Other "transfer amount overflow")
      | Some total =>
          if decide (balance x < total) then Err (InsufficientBalance (balance x) total)
          else if decide (acct_nonce x <> nonce tx) then Err (NonceMismatch (acct_nonce x) (nonce tx))
          else
            let m := charge m a x (wsub 64 (balance x) total) (staked x) in
            let y := look m to in
            match checked_add 64 (balance y) amount with
            | None => Err (Other "recipient balance overflow")
            | Some b => Ok (<[to := set_funds y b (staked y) (acct_nonce y)]> m)
            end
      end
  | Stake amount =>
      match checked_add 64 amount (fee tx) with
      | None => Err (Other "stake amount overflow")
      | Some total =>
          if decide (balance x < total) then Err (InsufficientBalance (balance x) total)
          else if decide (acct_nonce x <> nonce tx) then Err (NonceMismatch (acct_nonce x) (nonce tx))
          else match checked_add 64 (staked x) amount with
          | None => Err (Other "staked amount overflow")
          | Some st => Ok (charge m a x (wsub 64 (balance x) total) st)
          end
      end
  | Unstake amount =>
      if decide (balance x < fee tx) then Err (InsufficientBalance (balance x) (fee tx))
      else if decide (staked x < amount) then Err (InsufficientStake (staked x) amount)
      else if decide (acct_nonce x <> nonce tx) then Err (NonceMismatch (acct_nonce x) (nonce tx))
      else Ok (charge m a x (wadd 64 (wsub 64 (balance x) (fee tx)) amount) (wsub 64 (staked x) amount))
  | _ =>
      if decide (balance x < fee tx) then Err (InsufficientBalance (balance x) (fee tx))
      else if decide (acct_nonce x <> nonce tx) then Err (NonceMismatch (acct_nonce x) (nonce tx))
      else Ok (charge m a x (wsub 64 (balance x) (fee tx)) (staked x))
  end.

Fixpoint ledger_txs (m : book) (l : list Transaction) : result GratiaError book :=
  match l with
  | [] => Ok m
  | tx :: l => let?? m := ledger_tx m tx in ledger_txs m l
  end.

(** The accounts after a revert; [None] for the error of the source. *)
Definition ledger_revert (m : book) (tx : Transaction) : option book :=
  match sender_of tx with
  | Err _ => None
  | Ok a =>
      let x := look m a in
      match payload tx with
      | Transfer to amount =>
          if decide (acct_nonce x < 1) then None
          else
            let m := <[a := set_funds x (wadd 64 (balance x) (wadd 64 amount (fee tx))) (staked x)
                              (acct_nonce x - 1)]> m in
            let y := look m to in
            Some (<[to := set_funds y (saturating_sub (balance y) amount) (staked y) (acct_nonce y)]> m)
      | Stake amount =>
          Some (<[a := set_funds x (wadd 64 (balance x) (wadd 64 amount (fee tx)))
                         (saturating_sub (staked x) amount) (wsub 64 (acct_nonce x) 1)]> m)
      | Unstake amount =>
          Some (<[a := set_funds x (wadd 64 (saturating_sub (balance x) amount) (fee tx))
                         (wadd 64 (staked x) amount) (wsub 64 (acct_nonce x) 1)]> m)
      | _ => Some (<[a := set_funds x (wadd 64 (balance x) (fee tx)) (staked x)
                            (wsub 64 (acct_nonce x) 1)]> m)
      end
  end.

Fixpoint ledger_reverts (m : book) (l : list Transaction) : option book :=
  match l with
  | [] => Some m
  | tx :: l => m ← ledger_revert m tx; ledger_reverts m l
  end.

(** ** Invariant of the accounts and value conservation *)

Definition account_ok (x : AccountState) : Prop :=
  0 <= balance x /\ 0 <= staked x /\ in_range 64 (acct_nonce x).

Definition value (x : AccountState) : Z := balance x + staked x.
Definition supply (m : book) : Z := map_sum value m.

(** Every account is well-formed and the supply fits 63 bits (all the Lux there will ever
    be are fewer). *)
Definition book_ok (m : book) : Prop := map_Forall (fun _ => account_ok) m /\ supply m < 2 ^ 63.

(** The amounts of a transaction are 64-bit numbers, and its nonce is not the last one. *)
Definition amount_of (tx : Transaction) : Z :=
  match payload tx with
  | Transfer _ amount | Stake amount | Unstake amount => amount
  | _ => 0
  end.

Definition tx_ok (tx : Transaction) : Prop :=
  in_range 64 (amount_of tx) /\ in_range 64 (fee tx) /\ 0 <= nonce tx < max_val 64.

Lemma default_ok : account_ok default_AccountState.
Proof. unfold account_ok, in_range. cbn. lia. Qed.

Lemma look_ok m a : book_ok m -> account_ok (look m a).
Proof.
  intros [Hm _]. unfold look. destruct (m !! a) as [x|] eqn:E; [by apply (Hm a)|apply default_ok].
Qed.

Lemma value_nonneg m : book_ok m -> forall i x, m !! i = Some x -> 0 <= value x.
Proof. intros [Hm _] i x Hx. destruct (Hm i x Hx) as (? & ? & ?). unfold value. lia. Qed.

Lemma look_value m a : value (look m a) = from_option value 0 (m !! a).
Proof. unfold look. by destruct (m !! a). Qed.

Lemma look_le m a : book_ok m -> 0 <= value (look m a) <= supply m.
Proof.
  intros Hm. unfold look. destruct (m !! a) as [x|] eqn:E; cbn [from_option id].
  - pose proof (value_nonneg m Hm a x E). pose proof (map_sum_lookup_le value m a x (value_nonneg m Hm) E).
    unfold supply. lia.
  - pose proof (map_sum_nonneg value m (value_nonneg m Hm)). unfold supply. change (value default_AccountState) with 0. lia.
Qed.

Lemma supply_insert m a x : supply (<[a := x]> m) = supply m + value x - value (look m a).
Proof. unfold supply. rewrite map_sum_insert, look_value. lia. Qed.

Lemma book_insert m a x :
  book_ok m -> account_ok x -> value x <= value (look m a) -> book_ok (<[a := x]> m).
Proof.
  intros Hm Hx Hv. destruct Hm as [Hf Hs]. split; [by apply map_Forall_insert_2|].
  rewrite supply_insert. lia.
Qed.

Ltac funds :=
  unfold account_ok, value, in_range in *; cbn [set_funds balance staked acct_nonce] in *.

(** What a transaction does, for the proofs about runs: it is from the sender, with the
    sender's nonce, and burns exactly its fee. *)
Lemma nonce_next x : account_ok x -> in_range 64 (wadd 64 (acct_nonce x) 1).
Proof. intros _. apply wrap_range. lia. Qed.

Lemma charge_ok m a x b st f :
  book_ok m -> x = look m a -> 0 <= b -> 0 <= st -> 0 <= f -> b + st = value x - f ->
  book_ok (charge m a x b st) /\ supply (charge m a x b st) = supply m - f.
Proof.
  intros Hm -> Hb Hst Hf Heq. pose proof (look_ok m a Hm) as Hx. split.
  - apply book_insert; [done| |]; funds; [|lia]. split; [lia|]. split; [lia|].
    by apply nonce_next.
  - unfold charge. rewrite supply_insert. funds. lia.
Qed.

Lemma ledger_tx_conserves m tx m' :
  book_ok m -> tx_ok tx -> ledger_tx m tx = Ok m' ->
  book_ok m' /\ supply m' = supply m - fee tx.
Proof.
  intros Hm (Ha & Hf & _). unfold ledger_tx. destruct (sender_of tx) as [a|]; [|done]. cbv zeta.
  pose proof (look_ok m a Hm) as Hx. pose proof (look_le m a Hm) as Hle. pose proof (proj2 Hm) as Hs.
  unfold amount_of, checked_add in *.
  destruct (payload tx) as [to amount| | amount|amount| | | | | |] eqn:Ep;
    repeat case_decide; try done; intros [= <-]; rewrite ?wsub_small, ?wadd_small by (funds; lia);
    try (by apply charge_ok; [exact Hm|reflexivity|funds; lia..]).
  destruct (charge_ok m a (look m a) (balance (look m a) - (amount + fee tx)) (staked (look m a))
              (amount + fee tx) Hm eq_refl) as [Hm1 Hs1]; [funds; lia..|].
  rewrite wsub_small in * by (funds; lia). set (m1 := charge _ _ _ _ _) in *.
  pose proof (look_ok m1 to Hm1) as Hy. destruct Hm1 as [Hf1 Hlt]. split.
  - split.
    + apply map_Forall_insert_2; [|done]. funds. lia.
    + rewrite supply_insert. funds. lia.
  - rewrite supply_insert. funds. lia.
Qed.

(** ** Nonces *)

Lemma nonce_charge m a x b st c :
  acct_nonce (look (charge m a x b st) c)
  = if decide (a = c) then wadd 64 (acct_nonce x) 1 else acct_nonce (look m c).
Proof.
  unfold charge. destruct (decide (a = c)) as [->|?];
    [by rewrite look_insert_eq|by rewrite look_insert_ne].
Qed.

(** A transaction is applied at the sender's nonce, which it increments; no other nonce
    changes. *)
Lemma ledger_tx_nonce m tx m' :
  tx_ok tx -> ledger_tx m tx = Ok m' ->
  exists a, sender_of tx = Ok a /\ acct_nonce (look m a) = nonce tx
    /\ forall c, acct_nonce (look m' c) = acct_nonce (look m c) + (if decide (a = c) then 1 else 0).
Proof.
  intros (_ & _ & Hn). unfold ledger_tx. destruct (sender_of tx) as [a|] eqn:Es; [|done]. cbv zeta.
  unfold checked_add. intros Heq. exists a. split; [done|].
  assert (wadd 64 (nonce tx) 1 = nonce tx + 1) as Hw by (apply wadd_small; ulia).
  destruct (payload tx) as [to amount| | amount|amount| | | | | |] eqn:Ep;
    repeat case_decide; try done; (assert (acct_nonce (look m a) = nonce tx) as Hx by
      (destruct (decide (acct_nonce (look m a) = nonce tx)); [done|contradiction]));
    injection Heq as <-; (split; [done|]); intros c;
    try (rewrite nonce_charge, Hx, Hw; destruct (decide (a = c)) as [->|]; lia).
  set (m1 := charge _ _ _ _ _).
  assert (forall d, acct_nonce (look m1 d) = acct_nonce (look m d) + (if decide (a = d) then 1 else 0)) as Hm1.
  { intros d. unfold m1. rewrite nonce_charge, Hx, Hw. destruct (decide (a = d)) as [->|]; lia. }
  rewrite <-Hm1. destruct (decide (to = c)) as [->|?];
    [by rewrite look_insert_eq|by rewrite look_insert_ne].
Qed.

(** ** Reverting *)

Lemma set_funds_twice x b st n b' st' n' : set_funds (set_funds x b st n) b' st' n' = set_funds x b' st' n'.
Proof. done. Qed.

Lemma set_funds_same x b st n :
  b = balance x -> st = staked x -> n = acct_nonce x -> set_funds x b st n = x.
Proof. intros -> -> ->. by destruct x. Qed.

Lemma look_charge m a x b st :
  look (charge m a x b st) a = set_funds x b st (wadd 64 (acct_nonce x) 1).
Proof. apply look_insert_eq. Qed.

Lemma undo_charge m a b st b' st' n' :
  b' = balance (look m a) -> st' = staked (look m a) -> n' = acct_nonce (look m a) ->
  same_accounts (<[a := set_funds (look (charge m a (look m a) b st) a) b' st' n']>
                   (charge m a (look m a) b st)) m.
Proof.
  intros -> -> -> c. rewrite look_charge. unfold charge. rewrite insert_insert_eq.
  destruct (decide (a = c)) as [->|?]; [rewrite look_insert_eq|by rewrite look_insert_ne].
  rewrite set_funds_twice. by apply set_funds_same.
Qed.

(** A transfer, paid from [a] to [to], and back. *)
Lemma undo_transfer m a to amount f n :
  book_ok m -> in_range 64 amount -> in_range 64 f -> n + 1 < 2 ^ 64 -> 0 <= n ->
  acct_nonce (look m a) = n -> amount + f <= balance (look m a) ->
  let m1 := charge m a (look m a) (balance (look m a) - (amount + f)) (staked (look m a)) in
  let y := look m1 to in
  let m2 := <[to := set_funds y (balance y + amount) (staked y) (acct_nonce y)]> m1 in
  let x := look m2 a in
  let m3 := <[a := set_funds x (wadd 64 (balance x) (wadd 64 amount f)) (staked x) (acct_nonce x - 1)]> m2 in
  let z := look m3 to in
  0 < acct_nonce x
  /\ same_accounts (<[to := set_funds z (saturating_sub (balance z) amount) (staked z) (acct_nonce z)]> m3) m.
Proof.
  intros Hm Ha Hf Hn Hn0 Hna Hbal. cbv zeta. pose proof (look_ok m a Hm) as Hx.
  pose proof (look_le m a Hm) as Hle. pose proof (proj2 Hm) as Hs.
  assert (wadd 64 n 1 = n + 1) as Hw by (apply wadd_small; ulia).
  assert (wadd 64 amount f = amount + f) as Hwf by (apply wadd_small; funds; lia).
  destruct (decide (a = to)) as [<-|Hne].
  - rewrite look_charge, Hna, Hw. rewrite !look_insert_eq. cbn [set_funds balance staked acct_nonce].
    split; [lia|]. intros c. rewrite !insert_insert_eq. unfold charge. rewrite insert_insert_eq.
    destruct (decide (a = c)) as [->|?]; [rewrite look_insert_eq|by rewrite look_insert_ne].
    rewrite !set_funds_twice. apply set_funds_same; [|done|lia].
    rewrite Hwf, wadd_small by (funds; lia). unfold saturating_sub. funds. lia.
  - rewrite (look_insert_ne _ to a) by done. rewrite look_charge, Hna, Hw.
    rewrite (look_insert_ne _ a to) by done. rewrite look_insert_eq. unfold charge.
    rewrite !(look_insert_ne _ a to) by done. rewrite !set_funds_twice.
    cbn [set_funds balance staked acct_nonce]. split; [lia|].
    pose proof (look_ok m to Hm) as Hy.
    intros c. destruct (decide (to = c)) as [->|Hto].
    + rewrite look_insert_eq. apply set_funds_same; [|done..]. unfold saturating_sub. funds. lia.
    + rewrite look_insert_ne by done. destruct (decide (a = c)) as [->|Hac].
      * rewrite look_insert_eq. apply set_funds_same; [|done|lia].
        rewrite Hwf, wadd_small by (funds; lia). lia.
      * rewrite !look_insert_ne by done. done.
Qed.

(** A fee, paid and back. *)
Lemma undo_fee m a f n m' :
  book_ok m -> in_range 64 f -> 0 <= n < max_val 64 -> acct_nonce (look m a) = n ->
  f <= balance (look m a) ->
  Ok (E := GratiaError) (charge m a (look m a) (wsub 64 (balance (look m a)) f) (staked (look m a))) = Ok m' ->
  exists m'', Some (<[a := set_funds (look m' a) (wadd 64 (balance (look m' a)) f) (staked (look m' a))
                           (wsub 64 (acct_nonce (look m' a)) 1)]> m') = Some m''
    /\ same_accounts m'' m.
Proof.
  intros Hm Hf Hn Hna Hbal [= <-]. pose proof (look_ok m a Hm) as Hx. pose proof (look_le m a Hm) as Hle.
  pose proof (proj2 Hm) as Hs. eexists. split; [done|].
  apply undo_charge; rewrite ?look_charge; cbn [set_funds balance staked acct_nonce]; [|done|].
  - rewrite wsub_small by (funds; lia). rewrite wadd_small by (funds; lia). lia.
  - rewrite Hna, wadd_small, wsub_small by ulia. lia.
Qed.

(** Reverting undoes a transaction. *)
Lemma revert_undoes m tx m' :
  book_ok m -> tx_ok tx -> ledger_tx m tx = Ok m' ->
  exists m'', ledger_revert m' tx = Some m'' /\ same_accounts m'' m.
Proof.
  intros Hm (Ha & Hf & Hn). unfold ledger_tx, ledger_revert.
  destruct (sender_of tx) as [a|]; [|done]. cbv zeta.
  pose proof (look_ok m a Hm) as Hx. pose proof (look_le m a Hm) as Hle. pose proof (proj2 Hm) as Hs.
  assert (wadd 64 (nonce tx) 1 = nonce tx + 1) as Hw by (apply wadd_small; ulia).
  assert (wsub 64 (nonce tx + 1) 1 = nonce tx) as Hw' by (rewrite wsub_small by ulia; lia).
  unfold amount_of, checked_add in *.
  destruct (payload tx) as [to amount| | amount|amount| | | | | |] eqn:Ep;
    [destruct (decide (amount + fee tx < 2 ^ 64)); [|done]|
    |destruct (decide (amount + fee tx < 2 ^ 64)); [|done]|..];
    (destruct (decide (balance (look m a) < _)); [done|]);
    try (destruct (decide (staked (look m a) < amount)); [done|]);
    (destruct (decide (acct_nonce (look m a) <> nonce tx)) as [?|Hnn]; [done|apply dec_stable in Hnn]);
    try (by apply undo_fee with (n := nonce tx); try done; lia).
  - rewrite wsub_small by (funds; lia). case_decide; [|done]. intros [= <-].
    destruct (undo_transfer m a to amount (fee tx) (nonce tx)) as [Hpos Hsame]; try done; [ulia|lia|lia|].
    rewrite decide_False by lia. by eexists.
  - destruct (decide (staked (look m a) + amount < 2 ^ 64)); [|done]. intros [= <-]. eexists.
    split; [done|]. apply undo_charge; rewrite ?look_charge; cbn [set_funds balance staked acct_nonce];
      [| |by rewrite Hnn, Hw].
    + rewrite wsub_small by (funds; lia). rewrite (wadd_small 64 amount) by (funds; lia).
      rewrite wadd_small by (funds; lia). lia.
    + unfold saturating_sub. funds. lia.
  - intros [= <-]. eexists. split; [done|]. apply undo_charge; rewrite ?look_charge;
      cbn [set_funds balance staked acct_nonce]; [| |by rewrite Hnn, Hw].
    + rewrite wsub_small by (funds; lia). rewrite (wadd_small 64 _ amount) by (funds; lia).
      unfold saturating_sub. rewrite wadd_small by (funds; lia). funds. lia.
    + rewrite wsub_small by (funds; lia). rewrite wadd_small by (funds; lia). lia.
Qed.


(** Reverting depends only on the accounts of the addresses. *)
Lemma revert_same m1 m2 tx n1 :
  same_accounts m1 m2 -> ledger_revert m1 tx = Some n1 ->
  exists n2, ledger_revert m2 tx = Some n2 /\ same_accounts n1 n2.
Proof.
  intros Hm. unfold ledger_revert. destruct (sender_of tx) as [a|]; [|done]. cbv zeta.
  rewrite !(Hm a).
  destruct (payload tx) as [to amount| | amount|amount| | | | | |];
    try (intros [= <-]; eexists; split; [done|]; by rewrite Hm).
  case_decide; [done|]. intros [= <-]. eexists. split; [done|].
  assert (forall x, same_accounts (<[a:=x]> m1) (<[a:=x]> m2)) as Hx by (intros x; by rewrite Hm).
  rewrite !(Hx _ to). by rewrite Hm.
Qed.

Lemma reverts_same l m1 m2 n1 :
  same_accounts m1 m2 -> ledger_reverts m1 l = Some n1 ->
  exists n2, ledger_reverts m2 l = Some n2 /\ same_accounts n1 n2.
Proof.
  revert m1 m2. induction l as [|tx l IH]; intros m1 m2 Hm; cbn [ledger_reverts].
  - intros [= <-]. by exists m2.
  - destruct (ledger_revert m1 tx) as [k1|] eqn:E; [|done]. cbn.
    destruct (revert_same _ _ _ _ Hm E) as (k2 & -> & Hk). by apply IH.
Qed.

Lemma reverts_app l1 l2 m : ledger_reverts m (l1 ++ l2) = ledger_reverts m l1 ≫= fun m => ledger_reverts m l2.
Proof.
  revert m. induction l1 as [|tx l IH]; intros m; [done|]. cbn. destruct (ledger_revert m tx); [apply IH|done].
Qed.

Lemma ledger_txs_ok m l m' :
  book_ok m -> Forall tx_ok l -> ledger_txs m l = Ok m' ->
  book_ok m' /\ supply m' = supply m - foldr (fun tx n => fee tx + n) 0 l.
Proof.
  intros Hm Hl. revert m Hm. induction Hl as [|tx l Ht _ IH]; intros m Hm; cbn.
  - intros [= <-]. split; [done|lia].
  - destruct (ledger_tx m tx) as [m1|] eqn:E; [|done].
    destruct (ledger_tx_conserves _ _ _ Hm Ht E) as [Hm1 Hs1]. intros Heq.
    destruct (IH m1 Hm1 Heq) as [? ->]. split; [done|lia].
Qed.

(** Reverting the transactions of a block in reverse order restores the accounts. *)
Lemma reverts_undo m l m' :
  book_ok m -> Forall tx_ok l -> ledger_txs m l = Ok m' ->
  exists m'', ledger_reverts m' (rev l) = Some m'' /\ same_accounts m'' m.
Proof.
  intros Hm Hl. revert m Hm. induction Hl as [|tx l Ht _ IH]; intros m Hm; cbn.
  - intros [= <-]. by exists m.
  - destruct (ledger_tx m tx) as [m1|] eqn:E; [|done]. intros Heq.
    destruct (IH m1 (proj1 (ledger_tx_conserves _ _ _ Hm Ht E)) Heq) as (k & Hk & Hsame).
    destruct (revert_undoes _ _ _ Hm Ht E) as (n1 & Hn & Hsame1). symmetry in Hsame.
    destruct (revert_same _ _ _ _ Hsame Hn) as (n2 & Hn2 & Hsame2).
    exists n2. rewrite reverts_app, Hk. cbn. rewrite Hn2. split; [done|]. by rewrite <-Hsame2.
Qed.

End transactions.

(** ** The database implements the ledger *)

Section refinement.
Context `{!FloatLib, !HashLib, !Bincode, !SignLib, !StateCodec} {S : Type} `{!StateStore S}.
Context `{!StoreSpec S, !CodecLaws}.

Lemma read_account {A} s a (k : AccountState -> SM S A) :
  db_ok s -> sbind (sread (fun s => get_account s a)) k s = k (look (accounts s) a) s.
Proof. intros Hs. unfold sbind, sread. by rewrite get_account_spec. Qed.

(** The outcome of a database operation on the accounts: on success the accounts are
    [m]. *)
Definition implements (s : S) (x : S * result GratiaError unit) (r : result GratiaError book) : Prop :=
  db_ok x.1 /\ only CF_ACCOUNTS s x.1
  /\ match r with
     | Ok m => x.2 = Ok tt /\ accounts x.1 = m
     | Err e => x.2 = Err e
     end.

Lemma implements_fail s e : db_ok s -> implements s (sfail e s) (Err e).
Proof. by intros Hs. Qed.

Lemma implements_put s a x : db_ok s -> implements s (put_account a x s) (Ok (<[a := x]> (accounts s))).
Proof. intros Hs. by destruct (put_account_spec s a x Hs) as (s' & -> & ? & ? & ?). Qed.

Lemma implements_put_then s a x k r :
  db_ok s -> (forall s1, db_ok s1 -> accounts s1 = <[a := x]> (accounts s) -> implements s1 (k tt s1) r) ->
  implements s (sbind (put_account a x) k s) r.
Proof.
  intros Hs Hk. destruct (put_account_spec s a x Hs) as (s1 & E & Hs1 & Ho & Ha).
  rewrite (sbind_run _ _ _ _ _ E). destruct (Hk s1 Hs1 Ha) as (Hs2 & Ho2 & Hr). split; [done|].
  split; [|done]. by eapply only_trans.
Qed.

Hint Resolve implements_fail implements_put : gratia.

Lemma apply_transaction_refines s tx :
  db_ok s -> implements s (apply_transaction tx s) (ledger_tx (accounts s) tx).
Proof.
  intros Hs. unfold apply_transaction, ledger_tx, sender_of.
  destruct (address_from_pubkey (sender_pubkey tx)) as [a|e]; [|by apply implements_fail].
  unfold sbind at 1, slift. cbv zeta.
  destruct (payload tx) as [to amount| | amount|amount| | | | | |];
    unfold apply_transfer, apply_stake, apply_unstake, apply_fee_and_nonce; rewrite read_account by done;
    [|repeat (case_decide || destruct (checked_add _ _ _)); auto with gratia..].
  destruct (checked_add 64 amount (fee tx)); [|auto with gratia]. repeat (case_decide; [auto with gratia|]).
  apply implements_put_then; [done|]. intros s1 Hs1 Ha. rewrite read_account by done. rewrite Ha.
  unfold charge. destruct (checked_add _ _ _); [|by apply implements_fail]. rewrite <-Ha.
  by apply implements_put.
Qed.

Lemma revert_transaction_refines s tx m :
  db_ok s -> ledger_revert (accounts s) tx = Some m -> implements s (revert_transaction tx s) (Ok m).
Proof.
  intros Hs. unfold revert_transaction, ledger_revert, sender_of.
  destruct (address_from_pubkey (sender_pubkey tx)) as [a|e]; [|done].
  unfold sbind at 1, slift. cbv zeta.
  destruct (payload tx) as [to amount| | amount|amount| | | | | |]; rewrite read_account by done;
    try (intros [= <-]; by apply implements_put).
  case_decide; [done|]. intros [= <-]. apply implements_put_then; [done|].
  intros s1 Hs1 Ha. rewrite read_account by done. rewrite <-Ha. by apply implements_put.
Qed.

Lemma sfor_apply s l m :
  db_ok s -> ledger_txs (accounts s) l = Ok m -> implements s (sfor apply_transaction l s) (Ok m).
Proof.
  revert s. induction l as [|tx l IH]; intros s Hs; cbn [sfor ledger_txs].
  - by intros [= <-].
  - pose proof (apply_transaction_refines s tx Hs) as (Hs1 & Ho1 & Hr1).
    destruct (apply_transaction tx s) as [s1 r] eqn:E. cbn [fst snd] in *.
    destruct (ledger_tx (accounts s) tx) as [m1|]; [|done]. destruct Hr1 as [-> <-]. intros Heq.
    rewrite (sbind_run _ _ _ _ _ E). destruct (IH s1 Hs1 Heq) as (Hs2 & Ho2 & Hr2). split; [done|].
    split; [|done]. by eapply only_trans.
Qed.

(** A block's transactions applied by the database: the accounts are those of the
    ledger. *)
Lemma sfor_apply_inv s l s' u :
  db_ok s -> sfor apply_transaction l s = (s', Ok u) ->
  db_ok s' /\ only CF_ACCOUNTS s s' /\ ledger_txs (accounts s) l = Ok (accounts s').
Proof.
  revert s. induction l as [|tx l IH]; intros s Hs; cbn [sfor ledger_txs].
  - by intros [= <- _].
  - intros Hrun. apply sbind_ok in Hrun as (s1 & [] & E & Hrun).
    pose proof (apply_transaction_refines s tx Hs) as (Hs1 & Ho1 & Hr1). rewrite E in *. cbn [fst snd] in *.
    destruct (ledger_tx (accounts s) tx) as [m1|]; [|done]. destruct Hr1 as [_ <-].
    destruct (IH s1 Hs1 Hrun) as (Hs2 & Ho2 & Hr2). split; [done|]. split; [|done]. by eapply only_trans.
Qed.

Lemma sfor_revert s l m :
  db_ok s -> ledger_reverts (accounts s) l = Some m -> implements s (sfor revert_transaction l s) (Ok m).
Proof.
  revert s. induction l as [|tx l IH]; intros s Hs; cbn [sfor ledger_reverts].
  - by intros [= <-].
  - destruct (ledger_revert (accounts s) tx) as [m1|] eqn:E1; [|done]. cbn.
    pose proof (revert_transaction_refines s tx m1 Hs E1) as (Hs1 & Ho1 & Hr1 & Ha1).
    destruct (revert_transaction tx s) as [s1 r] eqn:E. cbn [fst snd] in *. subst r m1. intros Heq.
    rewrite (sbind_run _ _ _ _ _ E). destruct (IH s1 Hs1 Heq) as (Hs2 & Ho2 & Hr2). split; [done|].
    split; [|done]. by eapply only_trans.
Qed.
End refinement.

End LedgerAccounts.
