(* ===== verification/LedgerTheorems.v ===== *)
(** * gratia-state: theorems

    Applying and reverting blocks over any store that meets [StoreSpec]: a block burns
    exactly its fees and creates nothing, reverting the last block restores every
    account, an applied transaction cannot be applied again, and the node serves its most
    recent blocks by height, linked by their parent hashes. *)

From stdpp Require Import base tactics strings gmap list fin_maps.
From Stdlib Require Import ZArith Lia.
From S2P Require Import Prelude CoreTypes ThirdParty Crypto Blocks StateStore StateDb Merkle Pruning.
From S2P Require Import Ledger LedgerAccounts.
Local Open Scope Z_scope.

Module LedgerTheorems.
Import Ledger LedgerAccounts.

Section blocks.
Context `{!FloatLib, !HashLib, !Bincode, !SignLib, !StateCodec} {S : Type} `{!StateStore S}.
Context `{!StoreSpec S, !CodecLaws}.

(** ** What a successful [apply_block] did *)

Lemma sfor_only {A} cf (f : A -> SM S unit) l s s' u :
  (forall x s s' u, db_ok s -> f x s = (s', Ok u) -> db_ok s' /\ only cf s s') ->
  db_ok s -> sfor f l s = (s', Ok u) -> db_ok s' /\ only cf s s'.
Proof.
  intros Hf. revert s. induction l as [|x l IH]; intros s Hs; cbn [sfor].
  - by intros [= <- _].
  - intros Hrun. apply sbind_ok in Hrun as (s1 & [] & E & Hrun). destruct (Hf x s s1 tt Hs E) as [Hs1 Ho1].
    destruct (IH s1 Hs1 Hrun) as [Hs2 Ho2]. split; [done|]. by eapply only_trans.
Qed.

Lemma put_transaction_only tx s s' u :
  db_ok s -> put_transaction tx s = (s', Ok u) -> db_ok s' /\ only CF_TRANSACTIONS s s'.
Proof.
  intros Hs. unfold put_transaction, sbind, slift. destruct (ser (encode_tx tx)) as [d|]; [|done].
  destruct (put_other_spec s CF_TRANSACTIONS (tx_hash tx) d Hs) as (s1 & -> & ? & ? & _); [set_solver|].
  by intros [= <- _].
Qed.

Lemma put_attestation_only a s s' u :
  db_ok s -> put_attestation a s = (s', Ok u) -> db_ok s' /\ only CF_ATTESTATIONS s s'.
Proof.
  intros Hs. unfold put_attestation, sbind, slift. destruct (ser (encode_attestation a)) as [d|]; [|done].
  destruct (put_other_spec s CF_ATTESTATIONS (nullifier a) d Hs) as (s1 & -> & ? & ? & _); [set_solver|].
  by intros [= <- _].
Qed.

Lemma read_be x : in_range 64 x -> of_le_bytes (rev (be_bytes 8 x)) = x.
Proof.
  intros Hx. unfold be_bytes. rewrite rev_involutive, of_le_bytes_le_bytes. by apply Z.mod_small.
Qed.

(** The three writes of the chain state at the end of a block. *)
Lemma finish_block s r h n :
  db_ok s -> length h = 32%nat -> in_range 64 n ->
  exists s1 s2 s3, set_state_root r s = (s1, Ok tt) /\ set_chain_tip h s1 = (s2, Ok tt)
    /\ set_block_height n s2 = (s3, Ok tt)
    /\ db_ok s3 /\ only CF_STATE s s3 /\ height_of s3 = n /\ tip_of s3 = Some h.
Proof.
  intros Hs Hh Hn.
  destruct (put_state_spec s STATE_KEY_STATE_ROOT r Hs) as (s1 & E1 & Hs1 & Ho1 & Hc1); [done..|].
  destruct (put_state_spec s1 STATE_KEY_CHAIN_TIP h Hs1) as (s2 & E2 & Hs2 & Ho2 & Hc2); [done..|].
  destruct (put_state_spec s2 STATE_KEY_BLOCK_HEIGHT (be_bytes 8 n) Hs2) as (s3 & E3 & Hs3 & Ho3 & Hc3).
  { intros _. split; [apply be_bytes_length|apply be_bytes_ok]. }
  { done. }
  exists s1, s2, s3. split; [done|]. split; [done|]. split; [done|]. split; [done|].
  split; [by repeat (eapply only_trans; [done|])|]. unfold height_of, tip_of. rewrite Hc3.
  rewrite lookup_insert_eq. split; [by apply read_be|].
  rewrite lookup_insert_ne by done. rewrite Hc2. by rewrite lookup_insert_eq.
Qed.

(** What pruning may do after the block. *)
Definition then_pruned (p : PruningPolicy) (n : Z) (s s' : S) : Prop :=
  s' = s \/ Pruning.pruned (Pruning.indexed s (Z.of_nat <$> seq 0 (Z.to_nat (n - block_retention_count p)))) s s'
            /\ forall k, length k <> 32%nat -> col s' CF_BLOCKS !! k = col s CF_BLOCKS !! k.

Record applied (p : PruningPolicy) (b : Block) (s s' : S) (h : Hash) (d : bytes) : Prop := {
  ap_hash : header_hash (bl_header b) = Ok h;
  ap_encoded : encode_block b = Ok d;
  ap_height : height (bl_header b) = wadd 64 (height_of s) 1;
  ap_parent : height_of s > 0 -> forall tip, tip_of s = Some tip -> parent_hash (bl_header b) = tip;
  ap_ok : db_ok s';
  ap_accounts : ledger_txs (accounts s) (transactions b) = Ok (accounts s');
  ap_new_height : height_of s' = height (bl_header b);
  ap_tip : tip_of s' = Some h;
  ap_blocks : exists s1,
    col s1 CF_BLOCKS = <[be_bytes 8 (height (bl_header b)) := h]> (<[h := d]> (col s CF_BLOCKS))
    /\ then_pruned p (height (bl_header b)) s1 s'
}.

Lemma continuity_inv s b :
  db_ok s -> check_continuity b s = Ok tt ->
  height (bl_header b) = wadd 64 (height_of s) 1
  /\ (height_of s > 0 -> forall tip, tip_of s = Some tip -> parent_hash (bl_header b) = tip).
Proof.
  intros Hs. unfold check_continuity. rewrite get_height_spec, get_tip_spec by done. cbv zeta.
  case_decide as Hh; [done|]. intros Hrest. split; [done|].
  intros Hpos tip Htip. rewrite Htip in Hrest. rewrite decide_True in Hrest by done.
  by case_decide.
Qed.

Lemma apply_block_inv p b s s' u :
  db_ok s -> apply_block p b s = (s', Ok u) -> exists h d, applied p b s s' h d.
Proof.
  intros Hs Hrun. unfold apply_block in Hrun.
  apply sbind_ok in Hrun as (s0 & [] & E0 & Hrun). injection E0 as <- E0.
  destruct (continuity_inv s b Hs E0) as [Hh Hp]. clear E0.
  apply sbind_ok in Hrun as (s1 & [] & E1 & Hrun). destruct (sfor_apply_inv _ _ _ _ Hs E1) as (Hs1 & Ho1 & Ha1).
  apply sbind_ok in Hrun as (s2 & [] & E2 & Hrun).
  destruct (put_block_spec _ _ _ _ Hs1 E2) as (h & d & Hhash & Henc & Hs2 & Ho2 & Hc2).
  apply sbind_ok in Hrun as (s3 & [] & E3 & Hrun).
  destruct (sfor_only CF_TRANSACTIONS _ _ _ _ _ put_transaction_only Hs2 E3) as [Hs3 Ho3].
  apply sbind_ok in Hrun as (s4 & [] & E4 & Hrun).
  destruct (sfor_only CF_ATTESTATIONS _ _ _ _ _ put_attestation_only Hs3 E4) as [Hs4 Ho4].
  apply sbind_ok in Hrun as (s5 & r & E5 & Hrun). injection E5 as <- _.
  assert (in_range 64 (height (bl_header b))) as Hr by (rewrite Hh; apply wrap_range; lia).
  destruct (finish_block s4 r h (height (bl_header b)) Hs4 (header_hash_length _ _ Hhash) Hr)
    as (t1 & t2 & t3 & F1 & F2 & F3 & Ht3 & Hot & Hht & Htt).
  rewrite (sbind_run _ _ _ _ _ F1) in Hrun. unfold slift in Hrun. rewrite Hhash in Hrun.
  unfold sbind at 1 in Hrun. rewrite (sbind_run _ _ _ _ _ F2), (sbind_run _ _ _ _ _ F3) in Hrun.
  apply sbind_ok in Hrun as (t4 & full & E6 & Hrun). injection E6 as <- _.
  assert (accounts t3 = accounts s1) as Hacc.
  { unfold accounts. by rewrite (Hot CF_ACCOUNTS), (Ho4 CF_ACCOUNTS), (Ho3 CF_ACCOUNTS), (Ho2 CF_ACCOUNTS). }
  assert (col t3 CF_BLOCKS = col s2 CF_BLOCKS) as Hblk
    by (by rewrite (Hot CF_BLOCKS), (Ho4 CF_BLOCKS), (Ho3 CF_BLOCKS)).
  rewrite (Ho1 CF_BLOCKS) in Hc2 by done. rewrite Hc2 in Hblk.
  exists h, d. destruct full.
  - apply sbind_ok in Hrun as (t5 & res & E7 & Hrun). injection Hrun as <- _.
    destruct (Pruning.cycle_ok p (height (bl_header b)) t3 Ht3) as (t6 & r6 & E8 & Hpr & _ & Hk).
    rewrite E7 in E8. injection E8 as <- _. destruct Hpr as (Ht5 & Hpa & Hps & Hpb).
    split; try done.
    + by rewrite Ha1, <-Hacc; unfold accounts; rewrite Hpa.
    + unfold height_of. by rewrite Hps.
    + unfold tip_of. by rewrite Hps.
    + exists t3. split; [done|]. right. split; [|done]. by split; [|split; [|split]].
  - injection Hrun as <- _. split; try done.
    + by rewrite Ha1, <-Hacc.
    + exists t3. split; [done|]. by left.
Qed.

(** ** Value *)

Definition fees (l : list Transaction) : Z := foldr (fun tx n => fee tx + n) 0 l.

(** C2: a block creates no value and burns exactly its fees.  The sum of all balances and
    stakes after a successful [apply_block] is the sum before minus the fees of the
    block's transactions; no balance wraps, and the accounts stay well-formed for the
    next block. *)
Theorem block_conserves_value p b s s' u :
  db_ok s -> book_ok (accounts s) -> Forall tx_ok (transactions b) ->
  apply_block p b s = (s', Ok u) ->
  db_ok s' /\ book_ok (accounts s')
  /\ supply (accounts s') = supply (accounts s) - fees (transactions b).
Proof.
  intros Hs Hb Ht Hrun. destruct (apply_block_inv _ _ _ _ _ Hs Hrun) as (h & d & [_ _ _ _ Hs' Ha _ _ _]).
  split; [done|]. by apply (ledger_txs_ok _ _ _ Hb Ht Ha).
Qed.

(** ** Reverting *)

(** The digest [h] is not the index entry of any height. *)
Definition fresh (s : S) (h : Hash) : Prop := forall i, col s CF_BLOCKS !! be_bytes 8 i <> Some h.

Lemma applied_height_range p b s s' h d : applied p b s s' h d -> in_range 64 (height (bl_header b)).
Proof. intros Hap. rewrite (ap_height _ _ _ _ _ _ Hap). apply wrap_range. lia. Qed.

(** The block just applied survives the pruning that follows it. *)
Lemma applied_stored p b s s' h d :
  applied p b s s' h d -> 0 < block_retention_count p -> fresh s h ->
  col s' CF_BLOCKS !! h = Some d.
Proof.
  intros Hap Hret Hfresh. pose proof (applied_height_range _ _ _ _ _ _ Hap) as Hr.
  destruct Hap as [Hh _ _ _ _ _ _ _ (s1 & Hc & Hpr)].
  assert (col s1 CF_BLOCKS !! h = Some d) as Hd1.
  { rewrite Hc, lookup_insert_ne by (by eapply index_not_hash). by rewrite lookup_insert_eq. }
  destruct Hpr as [->|[(_ & _ & _ & Hb) _]]; [done|]. rewrite Hb; [done|].
  unfold Pruning.indexed. rewrite list_elem_of_omap. intros (i & Hi & Ei).
  apply list_elem_of_fmap in Hi as (k & -> & Hk). apply elem_of_seq in Hk. unfold in_range in Hr.
  assert (be_bytes 8 (Z.of_nat k) <> be_bytes 8 (height (bl_header b))) as Hne.
  { intros E. apply be_bytes_inj in E; unfold in_range; lia. }
  rewrite Hc, lookup_insert_ne in Ei by done.
  rewrite lookup_insert_ne in Ei by (intros E; by eapply index_not_hash).
  by apply (Hfresh (Z.of_nat k)).
Qed.

Lemma delete_txs_ok s (l : list Transaction) :
  db_ok s -> exists s', sfor (fun tx => delete_transaction (tx_hash tx)) l s = (s', Ok tt)
    /\ db_ok s' /\ only CF_TRANSACTIONS s s'.
Proof.
  revert s. induction l as [|tx l IH]; intros s Hs; cbn [sfor].
  - by exists s.
  - destruct (delete_other_spec s CF_TRANSACTIONS (tx_hash tx) Hs) as (s1 & E & Hs1 & Ho1 & _); [set_solver|].
    destruct (IH s1 Hs1) as (s2 & E2 & Hs2 & Ho2). exists s2. unfold delete_transaction at 1.
    rewrite (sbind_run _ _ _ _ _ E). split; [done|]. split; [done|]. by eapply only_trans.
Qed.

Lemma delete_block_ok s h b d :
  db_ok s -> col s CF_BLOCKS !! h = Some d -> decode_block d = Ok b ->
  exists s', delete_block h s = (s', Ok tt) /\ db_ok s' /\ only CF_BLOCKS s s'.
Proof.
  intros Hs Hc Hd. unfold delete_block, sbind, sread. rewrite (get_block_spec s h b d) by done.
  destruct (delete_other_spec s CF_BLOCKS (be_bytes 8 (height (bl_header b))) Hs)
    as (s1 & -> & Hs1 & Ho1 & _); [set_solver|].
  destruct (delete_other_spec s1 CF_BLOCKS h Hs1) as (s2 & -> & Hs2 & Ho2 & _); [set_solver|].
  exists s2. split; [done|]. split; [done|]. by eapply only_trans.
Qed.

Lemma compute_root_ok s : db_ok s -> exists r, compute_state_root s = Ok r.
Proof.
  intros Hs. unfold compute_state_root.
  rewrite spec_iter; [by eexists|apply Hs|rewrite list_elem_of_In; vm_compute; tauto].
Qed.

(** The chain state written by a revert. *)
Lemma restore_chain s h n :
  db_ok s -> length h = 32%nat -> in_range 64 n ->
  exists s1 s2, set_chain_tip h s = (s1, Ok tt) /\ set_block_height n s1 = (s2, Ok tt)
    /\ db_ok s2 /\ only CF_STATE s s2 /\ height_of s2 = n /\ tip_of s2 = Some h.
Proof.
  intros Hs Hh Hn.
  destruct (put_state_spec s STATE_KEY_CHAIN_TIP h Hs) as (s1 & E1 & Hs1 & Ho1 & Hc1); [done..|].
  destruct (put_state_spec s1 STATE_KEY_BLOCK_HEIGHT (be_bytes 8 n) Hs1) as (s2 & E2 & Hs2 & Ho2 & Hc2).
  { intros _. split; [apply be_bytes_length|apply be_bytes_ok]. }
  { done. }
  exists s1, s2. split; [done|]. split; [done|]. split; [done|]. split; [by eapply only_trans|].
  unfold height_of, tip_of. rewrite Hc2, lookup_insert_eq. split; [by apply read_be|].
  rewrite lookup_insert_ne by done. by rewrite Hc1, lookup_insert_eq.
Qed.

Lemma set_root_ok s r :
  db_ok s -> exists s', set_state_root r s = (s', Ok tt) /\ db_ok s' /\ accounts s' = accounts s
    /\ height_of s' = height_of s /\ tip_of s' = tip_of s.
Proof.
  intros Hs. destruct (put_state_spec s STATE_KEY_STATE_ROOT r Hs) as (s1 & E1 & Hs1 & Ho1 & Hc1); [done..|].
  exists s1. split; [done|]. split; [done|]. unfold accounts, height_of, tip_of.
  rewrite (Ho1 CF_ACCOUNTS) by done. rewrite Hc1. by rewrite !lookup_insert_ne by done.
Qed.

(** C8: reverting undoes a block.  After a successful [apply_block] (pruning included),
    [revert_block] succeeds, gives every address the account it had before, and restores
    the height and, past genesis, the chain tip. *)
Theorem revert_restores p b s s1 u :
  db_ok s -> book_ok (accounts s) -> Forall tx_ok (transactions b) ->
  0 < block_retention_count p -> height_of s < max_val 64 -> length (parent_hash (bl_header b)) = 32%nat ->
  (forall h, header_hash (bl_header b) = Ok h -> fresh s h) ->
  apply_block p b s = (s1, Ok u) ->
  exists s2, revert_block s1 = (s2, Ok tt) /\ db_ok s2
    /\ same_accounts (accounts s2) (accounts s) /\ height_of s2 = height_of s
    /\ (height_of s > 0 -> is_Some (tip_of s) -> tip_of s2 = tip_of s).
Proof.
  intros Hs Hb Ht Hret Hmax Hlen Hfresh Hrun.
  destruct (apply_block_inv _ _ _ _ _ Hs Hrun) as (h & d & Hap).
  pose proof (applied_stored _ _ _ _ _ _ Hap Hret (Hfresh h (ap_hash _ _ _ _ _ _ Hap))) as Hst.
  destruct Hap as [Hh He Hht Hpar Hs1 Ha Hnh Htip _].
  pose proof (height_of_ge s Hs) as Hge. rewrite wadd_small in Hht by ulia.
  pose proof (block_roundtrip b d He) as Hdec.
  destruct (reverts_undo _ _ _ Hb Ht Ha) as (m & Hm & Hsame).
  destruct (sfor_revert s1 _ m Hs1 Hm) as (Hs2 & Ho2 & Er & Ham).
  destruct (sfor revert_transaction (rev (transactions b)) s1) as [t2 r2] eqn:E2. cbn [fst snd] in *. subst r2.
  destruct (delete_txs_ok t2 (transactions b) Hs2) as (t3 & E3 & Hs3 & Ho3).
  destruct (delete_block_ok t3 h b d Hs3) as (t4 & E4 & Hs4 & Ho4); [|done|].
  { by rewrite (Ho3 CF_BLOCKS), (Ho2 CF_BLOCKS). }
  destruct (restore_chain t4 (parent_hash (bl_header b)) (height_of s) Hs4 Hlen) as
    (t5 & t6 & E5 & E6 & Hs6 & Ho6 & Hh6 & Ht6); [ulia|].
  destruct (compute_root_ok t6 Hs6) as [r Hr].
  destruct (set_root_ok t6 r Hs6) as (t7 & E7 & Hs7 & Ha7 & Hh7 & Ht7).
  exists t7. split.
  - unfold revert_block. unfold sbind at 1, sread. rewrite get_height_spec by done. rewrite Hnh, Hht.
    rewrite decide_False by lia. unfold sbind at 1. rewrite get_tip_spec by done. rewrite Htip.
    unfold sbind at 1. rewrite (get_block_spec s1 h b d) by done.
    rewrite (sbind_run _ _ _ _ _ E2), (sbind_run _ _ _ _ _ E3), (sbind_run _ _ _ _ _ E4),
      (sbind_run _ _ _ _ _ E5). replace (height_of s + 1 - 1) with (height_of s) by lia.
    rewrite (sbind_run _ _ _ _ _ E6). unfold sbind. by rewrite Hr.
  - split; [done|]. split; [|split; [by rewrite Hh7|]].
    + rewrite Ha7. unfold accounts at 1. rewrite (Ho6 CF_ACCOUNTS), (Ho4 CF_ACCOUNTS), (Ho3 CF_ACCOUNTS) by done.
      fold (accounts t2). by rewrite Ham.
    + intros Hpos [tip E]. rewrite Ht7, Ht6, E. f_equal. by apply Hpar.
Qed.

(** ** Replays *)

Lemma ledger_txs_nonce m l m' :
  Forall tx_ok l -> ledger_txs m l = Ok m' ->
  (forall a, acct_nonce (look m a) <= acct_nonce (look m' a))
  /\ forall tx, tx ∈ l -> exists a, sender_of tx = Ok a /\ nonce tx < acct_nonce (look m' a).
Proof.
  intros Hl. revert m. induction Hl as [|tx l Ht _ IH]; intros m; cbn [ledger_txs].
  - intros [= <-]. split; [done|]. intros tx Htx. by apply elem_of_nil in Htx.
  - destruct (ledger_tx m tx) as [m1|] eqn:E; [|done]. intros Heq.
    destruct (ledger_tx_nonce _ _ _ Ht E) as (a & Ha & Hna & Hc). destruct (IH m1 Heq) as [Hmono Hin]. split.
    + intros c. specialize (Hmono c). rewrite Hc in Hmono. destruct (decide (a = c)); lia.
    + intros tx' Htx. apply elem_of_cons in Htx as [->|Htx]; [|by apply Hin].
      exists a. split; [done|]. specialize (Hmono a). rewrite Hc, decide_True in Hmono by done. lia.
Qed.

(** A chain of blocks, applied one after the other. *)
Fixpoint apply_blocks (p : PruningPolicy) (bs : list Block) : SM S unit :=
  match bs with
  | [] => sret tt
  | b :: bs => let@ _u := apply_block p b in apply_blocks p bs
  end.

Lemma apply_blocks_nonce p bs s s' u :
  db_ok s -> Forall (fun b => Forall tx_ok (transactions b)) bs ->
  apply_blocks p bs s = (s', Ok u) ->
  db_ok s' /\ (forall a, acct_nonce (acct s a) <= acct_nonce (acct s' a))
  /\ forall b tx, b ∈ bs -> tx ∈ transactions b ->
       exists a, sender_of tx = Ok a /\ nonce tx < acct_nonce (acct s' a).
Proof.
  intros Hs Hbs. revert s Hs. induction Hbs as [|b bs Hb _ IH]; intros s Hs; cbn [apply_blocks].
  - intros [= <- _]. split; [done|]. split; [done|]. intros b tx Hin. by apply elem_of_nil in Hin.
  - intros Hrun. apply sbind_ok in Hrun as (s1 & [] & E & Hrun).
    destruct (apply_block_inv _ _ _ _ _ Hs E) as (h & d & [_ _ _ _ Hs1 Ha _ _ _]).
    destruct (ledger_txs_nonce _ _ _ Hb Ha) as [Hmono1 Hin1].
    destruct (IH s1 Hs1 Hrun) as (Hs' & Hmono & Hin). split; [done|]. split.
    + intros a. etrans; [apply (Hmono1 a)|apply Hmono].
    + intros b' tx Hb' Htx. apply elem_of_cons in Hb' as [->|Hb']; [|by eapply Hin].
      destruct (Hin1 tx Htx) as (a & Hsnd & Hlt). exists a. split; [done|].
      specialize (Hmono a). change (acct s1 a) with (look (accounts s1) a) in Hmono. lia.
Qed.

(** C25: an applied transaction cannot be replayed.  Once a chain of blocks has been
    applied, no later block that contains one of their transactions again can be
    applied. *)
Theorem applied_tx_not_replayable p bs bs' b b' tx s s1 s2 u v :
  db_ok s -> Forall (fun b => Forall tx_ok (transactions b)) (bs ++ bs') ->
  apply_blocks p bs s = (s1, Ok u) -> b ∈ bs -> tx ∈ transactions b ->
  apply_blocks p bs' s1 = (s2, Ok v) -> tx ∈ transactions b' ->
  Forall tx_ok (transactions b') ->
  forall s3 w, apply_block p b' s2 <> (s3, Ok w).
Proof.
  intros Hs Hok Hrun1 Hb Htx Hrun2 Htx' Hok' s3 w Hrun3. apply Forall_app in Hok as [Hok1 Hok2].
  destruct (apply_blocks_nonce _ _ _ _ _ Hs Hok1 Hrun1) as (Hs1 & _ & Hin1).
  destruct (Hin1 b tx Hb Htx) as (a & Ha & Hlt).
  destruct (apply_blocks_nonce _ _ _ _ _ Hs1 Hok2 Hrun2) as (Hs2 & Hmono & _). specialize (Hmono a).
  destruct (apply_block_inv _ _ _ _ _ Hs2 Hrun3) as (h & d & [_ _ _ _ _ Hacc _ _ _]).
  assert (forall l m m', Forall tx_ok l -> tx ∈ l -> nonce tx < acct_nonce (look m a) -> ledger_txs m l <> Ok m') as Hno.
  { clear -Ha. induction l as [|t l IH]; intros m m' Hl Hin Hlt; [by apply elem_of_nil in Hin|]. cbn [ledger_txs].
    apply Forall_cons in Hl as [Ht Hl]. destruct (ledger_tx m t) as [m1|] eqn:E; [|done].
    destruct (ledger_tx_nonce _ _ _ Ht E) as (c & Hc & Hnc & Hall).
    apply elem_of_cons in Hin as [->|Hin]; [rewrite Ha in Hc; injection Hc as <-; lia|].
    apply IH; [done|done|]. rewrite Hall. destruct (decide (c = a)); lia. }
  apply (Hno (transactions b') (accounts s2) (accounts s3)); [done|done| |done].
  change (look (accounts s2) a) with (acct s2 a). lia.
Qed.

(** ** The stored chain *)

(** The digest at index [j] of the chain with digests [hs]: heights start at 1. *)
Definition digest_at (hs : list Hash) (j : nat) : option Hash :=
  match j with O => None | Datatypes.S i => hs !! i end.

(** The blocks [bs] with digests [hs] have been applied to an empty chain. *)
Record chain_inv (p : PruningPolicy) (bs : list Block) (hs : list Hash) (s : S) : Prop := {
  ch_ok : db_ok s;
  ch_hashes : Forall2 (fun b h => header_hash (bl_header b) = Ok h) bs hs;
  ch_height : height_of s = Z.of_nat (length bs);
  ch_tip : bs <> [] -> tip_of s = last hs;
  ch_heights : forall i b, bs !! i = Some b -> height (bl_header b) = Z.of_nat i + 1;
  ch_parents : forall i b c, bs !! i = Some b -> bs !! Datatypes.S i = Some c ->
    header_hash (bl_header b) = Ok (parent_hash (bl_header c));
  ch_index : forall j, Z.of_nat j < 2 ^ 64 -> col s CF_BLOCKS !! be_bytes 8 (Z.of_nat j) = digest_at hs j;
  ch_stored : forall i b h, bs !! i = Some b -> hs !! i = Some h ->
    Z.of_nat (length bs) - block_retention_count p <= Z.of_nat i + 1 ->
    exists d, col s CF_BLOCKS !! h = Some d /\ decode_block d = Ok b
}.

Lemma digest_snoc hs h j :
  digest_at (hs ++ [h]) j = if decide (j = Datatypes.S (length hs)) then Some h else digest_at hs j.
Proof.
  destruct j as [|i]; [done|]. cbn [digest_at]. destruct (decide _) as [E|E].
  - injection E as ->. apply list_lookup_middle. done.
  - destruct (decide (i < length hs)%nat).
    + by rewrite lookup_app_l.
    + rewrite !lookup_ge_None_2; [done|lia|]. rewrite length_app. cbn. lia.
Qed.

(** The index and the block column after one more block. *)
Lemma extended_column (p : PruningPolicy) (bs : list Block) (hs : list Hash) (s : S) (b : Block)
    (h : Hash) (d : bytes) (c : column) :
  chain_inv p bs hs s -> header_hash (bl_header b) = Ok h -> Z.of_nat (length bs) + 1 < 2 ^ 64 ->
  c = <[be_bytes 8 (Z.of_nat (length bs) + 1) := h]> (<[h := d]> (col s CF_BLOCKS)) ->
  (forall j, Z.of_nat j < 2 ^ 64 -> c !! be_bytes 8 (Z.of_nat j) = digest_at (hs ++ [h]) j)
  /\ (forall k, length k = 32%nat -> c !! k = if decide (k = h) then Some d else col s CF_BLOCKS !! k).
Proof.
  intros Hc Hh Hlt ->. pose proof (Forall2_length _ _ _ (ch_hashes _ _ _ _ Hc)) as Hlen. split.
  - intros j Hj. rewrite digest_snoc. destruct (decide _) as [->|E].
    + replace (Z.of_nat (Datatypes.S (length hs))) with (Z.of_nat (length bs) + 1) by lia.
      by rewrite lookup_insert_eq.
    + rewrite lookup_insert_ne; [|intros Eb; apply be_bytes_inj in Eb; unfold in_range; lia].
      rewrite lookup_insert_ne by (intros Eb; by eapply index_not_hash). by apply Hc.
  - intros k Hk. rewrite lookup_insert_ne by (intros Eb; rewrite <-Eb, be_bytes_length in Hk; lia).
    destruct (decide (k = h)) as [->|E]; [by rewrite lookup_insert_eq|by rewrite lookup_insert_ne].
Qed.

Lemma hashes_length bs hs i h :
  Forall2 (fun b h => header_hash (bl_header b) = Ok h) bs hs -> hs !! i = Some h -> length h = 32%nat.
Proof.
  intros Hf Hi. destruct (Forall2_lookup_r _ _ _ _ _ Hf Hi) as (b & _ & Hb). by eapply header_hash_length.
Qed.

Lemma chain_extend p bs hs s b s' u :
  chain_inv p bs hs s -> Z.of_nat (length bs) + 1 < 2 ^ 64 -> 0 <= block_retention_count p ->
  (forall h, header_hash (bl_header b) = Ok h -> NoDup (hs ++ [h])) ->
  apply_block p b s = (s', Ok u) -> exists h, chain_inv p (bs ++ [b]) (hs ++ [h]) s'.
Proof.
  intros Hc Hlt Hret0 Hnd Hrun. destruct (apply_block_inv _ _ _ _ _ (ch_ok _ _ _ _ Hc) Hrun) as (h & d & Hap).
  destruct Hap as [Hh He Hht Hpar Hs' _ Hnh Htip (s1 & Hcol & Hpr)]. exists h.
  rewrite (ch_height _ _ _ _ Hc) in Hht. rewrite wadd_small in Hht by (unfold in_range; lia).
  pose proof (Forall2_length _ _ _ (ch_hashes _ _ _ _ Hc)) as Hlen. specialize (Hnd h Hh).
  rewrite Hht in Hcol, Hpr, Hnh.
  destruct (extended_column p bs hs s b h d _ Hc Hh Hlt Hcol) as [Hidx Hblk].
  assert (forall j, Z.of_nat j < 2 ^ 64 -> col s' CF_BLOCKS !! be_bytes 8 (Z.of_nat j) = digest_at (hs ++ [h]) j) as Hidx'.
  { intros j Hj. destruct Hpr as [->|[_ Hk]]; [by apply Hidx|].
    rewrite Hk by (rewrite be_bytes_length; lia). by apply Hidx. }
  assert (Forall2 (fun b h => header_hash (bl_header b) = Ok h) (bs ++ [b]) (hs ++ [h])) as Hf2.
  { apply Forall2_app; [apply Hc|by repeat constructor]. }
  split; [done|done| | | | |done|].
  - rewrite Hnh, length_app. cbn. lia.
  - intros _. by rewrite Htip, last_snoc.
  - intros i x Hx. apply lookup_snoc_Some in Hx as [[_ Hx]|[-> <-]]; [by apply Hc|lia].
  - intros i x y Hx Hy. apply lookup_snoc_Some in Hy as [[Hi Hy]|[Hi <-]].
    + rewrite lookup_app_l in Hx by lia. by eapply (ch_parents _ _ _ _ Hc).
    + rewrite lookup_app_l in Hx by lia. destruct (Forall2_lookup_l _ _ _ _ _ (ch_hashes _ _ _ _ Hc) Hx) as (hx & Ehx & Hhx).
      rewrite Hhx. f_equal. symmetry. apply Hpar; [rewrite (ch_height _ _ _ _ Hc); lia|].
      rewrite (ch_tip _ _ _ _ Hc) by (intros ->; done). rewrite last_lookup, <-Hlen, <-Hi. done.
  - intros i x hx Hx Hhx Hret. rewrite length_app in Hret. cbn in Hret.
    assert (exists d', col s1 CF_BLOCKS !! hx = Some d' /\ decode_block d' = Ok x) as (d' & Hd' & Hdec).
    { rewrite Hblk by (by eapply hashes_length).
      apply lookup_snoc_Some in Hx as [[Hi Hx]|[Hi <-]].
      - rewrite lookup_app_l in Hhx by lia. rewrite decide_False.
        + eapply (ch_stored _ _ _ _ Hc); [done|done|lia].
        + intros ->. apply NoDup_app in Hnd as (_ & Hni & _). apply (Hni h); [by eapply list_elem_of_lookup_2|set_solver].
      - assert (hx = h) as ->. { rewrite Hi, Hlen, list_lookup_middle in Hhx by done. congruence. }
        rewrite decide_True by done. exists d. split; [done|]. by apply block_roundtrip. }
    exists d'. split; [|done]. destruct Hpr as [->|[(_ & _ & _ & Hb) _]]; [done|]. rewrite Hb; [done|].
    unfold Pruning.indexed. rewrite list_elem_of_omap. intros (k & Hk & Ek).
    apply list_elem_of_fmap in Hk as (j & -> & Hj). apply elem_of_seq in Hj. rewrite Hidx in Ek by lia.
    destruct j as [|j]; [done|]. cbn [digest_at] in Ek.
    pose proof (NoDup_lookup _ _ _ _ Hnd Ek Hhx). lia.
Qed.

(** The node serves its recent chain.  After a chain of blocks has been applied to an
    empty chain, block [i] has height [i] and its digest is the parent hash of the next
    one; each of the last [block_retention_count] blocks is found by its height, also
    when pruning ran in between. *)
Theorem recent_blocks_served p bs s s' u :
  db_ok s -> height_of s = 0 -> (forall i, col s CF_BLOCKS !! be_bytes 8 i = None) ->
  0 <= block_retention_count p -> Z.of_nat (length bs) < 2 ^ 64 ->
  (forall i j b c h, bs !! i = Some b -> bs !! j = Some c ->
     header_hash (bl_header b) = Ok h -> header_hash (bl_header c) = Ok h -> i = j) ->
  apply_blocks p bs s = (s', Ok u) ->
  height_of s' = Z.of_nat (length bs)
  /\ forall i b, bs !! i = Some b ->
       height (bl_header b) = Z.of_nat i + 1
       /\ (forall c, bs !! Datatypes.S i = Some c -> header_hash (bl_header b) = Ok (parent_hash (bl_header c)))
       /\ (Z.of_nat (length bs) - block_retention_count p <= Z.of_nat i + 1 ->
           get_block_by_height s' (Z.of_nat i + 1) = Ok (Some b)).
Proof.
  intros Hs Hh0 Hempty Hret Hlen Hdist Hrun.
  assert (forall rest pre hs s, chain_inv p pre hs s -> bs = pre ++ rest ->
    apply_blocks p rest s = (s', Ok u) -> exists hs', chain_inv p bs hs' s') as Hgen.
  { clear s Hs Hh0 Hempty Hrun. induction rest as [|b rest IH]; intros pre hs s Hc Hbs Hrun.
    - rewrite app_nil_r in Hbs. injection Hrun as <- _. subst. by exists hs.
    - cbn [apply_blocks] in Hrun. apply sbind_ok in Hrun as (s1 & [] & E & Hrun).
      destruct (chain_extend p pre hs s b s1 tt Hc) as [h Hc1]; [|done| |done|].
      + subst bs. rewrite length_app in Hlen. cbn in Hlen. lia.
      + intros h Hh. apply NoDup_alt. intros i j x Hi Hj.
        assert (Forall2 (fun b h => header_hash (bl_header b) = Ok h) (pre ++ [b]) (hs ++ [h])) as Hf
          by (apply Forall2_app; [apply Hc|by repeat constructor]).
        destruct (Forall2_lookup_r _ _ _ _ _ Hf Hi) as (bi & Ebi & Hbi).
        destruct (Forall2_lookup_r _ _ _ _ _ Hf Hj) as (bj & Ebj & Hbj).
        assert (bs = (pre ++ [b]) ++ rest) as Hbs' by (rewrite <-app_assoc; done).
        eapply (Hdist i j bi bj x); [rewrite Hbs'; by apply lookup_app_l_Some..|done|done].
      + eapply (IH (pre ++ [b])); [done| |done]. by rewrite <-app_assoc. }
  destruct (Hgen bs [] [] s) as [hs Hc]; [|done|done|].
  { split; try done.
    - intros j Hj. rewrite Hempty. by destruct j. }
  split; [apply Hc|]. intros i b Hb. split; [by apply Hc|]. split; [intros c; by apply (ch_parents _ _ _ _ Hc)|].
  intros Hi. destruct (Forall2_lookup_l _ _ _ _ _ (ch_hashes _ _ _ _ Hc) Hb) as (h & Eh & Hh).
  destruct (ch_stored _ _ _ _ Hc i b h Hb Eh Hi) as (d & Hd & Hdec).
  pose proof (lookup_lt_Some _ _ _ Hb).
  unfold get_block_by_height. rewrite spec_get; [|apply Hc|rewrite list_elem_of_In; vm_compute; tauto].
  replace (Z.of_nat i + 1) with (Z.of_nat (Datatypes.S i)) by lia.
  rewrite (ch_index _ _ _ _ Hc) by lia. cbn [digest_at]. rewrite Eh.
  rewrite decide_False by (rewrite (header_hash_length _ _ Hh); lia).
  apply (get_block_spec _ _ _ d); [apply Hc|done|done].
Qed.

End blocks.
End LedgerTheorems.
