(* ===== verification/LedgerSamples.v ===== *)
(** * gratia-state: examples

    A concrete store, codec and chain of blocks at which the theorems of the state layer
    are evaluated, and the behaviours of the code that its documentation describes
    otherwise: a rejected block that leaves its first transactions applied, a revert that
    changes the state root, and a pruned block whose header is gone. *)

From stdpp Require Import base tactics strings gmap list fin_maps.
From Stdlib Require Import ZArith Lia.
From S2P Require Import Prelude CoreTypes ThirdParty GovVoting GovPolling Crypto Blocks StateStore StateDb.
From S2P Require Import Merkle Pruning.
From S2P Require Import Ledger LedgerAccounts LedgerTheorems.
Local Open Scope Z_scope.

Module LedgerSamples.
Import Ledger LedgerAccounts LedgerTheorems.

#[local] Existing Instance reference_float.
#[local] Existing Instance Merkle.wide_hash.

#[local] Instance sample_sign : SignLib := {|
  VerifyingKey := list Z; SigningKey := Z;
  vk_from_bytes := Some; vk_to_bytes := fun k => k;
  vk_of := fun k => replicate 32 k;
  ed25519_sign := fun k _ => replicate 64 k;
  ed25519_verify := fun k _ s => bool_decide (s = replicate 64 (hd 0 k))
|}.

(** ** A codec that reads back what it wrote *)

#[local] Instance float_eq : EqDecision (f64 (FloatLib := reference_float)) := Z.eq_dec.
#[local] Instance filter_eq : EqDecision GeographicFilter.
Proof. solve_decision. Defined.
#[local] Instance vote_eq : EqDecision Vote.
Proof. solve_decision. Defined.
#[local] Instance payload_eq : EqDecision TransactionPayload.
Proof. solve_decision. Defined.
#[local] Instance tx_eq : EqDecision Transaction.
Proof. solve_decision. Defined.
#[local] Instance header_eq : EqDecision BlockHeader.
Proof. solve_decision. Defined.
#[local] Instance flags_eq : EqDecision SensorFlags.
Proof. solve_decision. Defined.
#[local] Instance attestation_eq : EqDecision ProofOfLifeAttestation.
Proof. solve_decision. Defined.
#[local] Instance signature_eq : EqDecision ValidatorSignature.
Proof. solve_decision. Defined.
#[local] Instance block_eq : EqDecision Block.
Proof. solve_decision. Defined.

(** Values are encoded by their position in a list of known values. *)
Section positions.
Context {A : Type} `{!EqDecision A}.

Definition position (known : list A) (x : A) : result string bytes :=
  match list_find (x =.) known with
  | Some (i, _) => Ok [Z.of_nat i]
  | None => Err "not a known value"
  end.

Definition at_position (known : list A) (d : bytes) : result string A :=
  match d with
  | [i] => match known !! Z.to_nat i with Some x => Ok x | None => Err "out of range" end
  | _ => Err "not a position"
  end.

Lemma position_roundtrip known x d : position known x = Ok d -> at_position known d = Ok x.
Proof.
  unfold position. destruct (list_find _ known) as [[i y]|] eqn:E; [|done]. intros [= <-].
  apply list_find_Some in E as (Hi & -> & _). cbn. by rewrite Nat2Z.id, Hi.
Qed.
End positions.

Definition account_bytes (x : AccountState) : bytes :=
  [balance x; acct_nonce x; staked x; overflow_stake x; if pol_valid x then 1 else 0; pol_consecutive_days x]
  ++ match last_pol_date x with Some d => [1; d] | None => [0; 0] end
  ++ match acct_node_id x with Some n => 1 :: n | None => [0] end.

Definition account_of (d : bytes) : result string AccountState :=
  match d with
  | b :: n :: st :: o :: v :: days :: has_date :: date :: has_node :: node =>
      Ok (mkAccount b n st o (bool_decide (v = 1)) days
            (if decide (has_date = 1) then Some date else None)
            (if decide (has_node = 1) then Some node else None))
  | _ => Err "too short"
  end.

Lemma account_of_bytes x : account_of (account_bytes x) = Ok x.
Proof. by destruct x as [? ? ? ? [] ? [] []]. Qed.

(** ** The blocks *)

Definition alice_key : bytes := replicate 32 5.
Definition alice : Address := default [] (match address_from_pubkey alice_key with Ok a => Some a | _ => None end).
Definition bob : Address := replicate 32 9.

Definition pay (amount tx_fee tx_nonce : Z) : Transaction :=
  mkTransaction [tx_nonce] (Transfer bob amount) alice_key [] tx_nonce 1 tx_fee 0.
Definition lock (amount tx_fee tx_nonce : Z) : Transaction :=
  mkTransaction [tx_nonce] (Stake amount) alice_key [] tx_nonce 1 tx_fee 0.

Definition header_at (h : Z) (parent : Hash) : BlockHeader :=
  mkBlockHeader h 0 parent [] [] [] [] [] 1 1 [].

Definition header_bytes (h : BlockHeader) : bytes := height h :: parent_hash h.
Definition digest (h : BlockHeader) : Hash := sha256 (header_bytes h).

Definition header1 : BlockHeader := header_at 1 (replicate 32 0).
Definition block1 : Block := mkBlock header1 [pay 100 10 0; lock 50 5 1] [] [].
Definition header2 : BlockHeader := header_at 2 (digest header1).
Definition block2 : Block := mkBlock header2 [pay 200 10 2] [] [].
Definition header3 : BlockHeader := header_at 3 (digest header2).

(** A third block that pays again, and one that repeats a transaction of the first. *)
Definition block3 : Block := mkBlock header3 [lock 1 1 3] [] [].
Definition replay3 : Block := mkBlock header3 [pay 100 10 0] [] [].
(** Its second transaction has a nonce out of order. *)
Definition bad1 : Block := mkBlock header1 [pay 100 10 0; pay 100 10 7] [] [].

Definition known_txs : list Transaction := [pay 100 10 0; lock 50 5 1; pay 200 10 2; lock 1 1 3].
Definition known_blocks : list Block := [block1; block2; block3].

#[local] Instance sample_bincode : Bincode := {|
  encode_header := fun h => Ok (header_bytes h);
  encode_payload := fun _ => Ok [];
  encode_attestation := fun _ => Ok [];
  encode_block := position known_blocks
|}.

#[local] Instance sample_codec : StateCodec := {|
  encode_account := fun x => Ok (account_bytes x);
  decode_account := account_of;
  encode_tx := position known_txs;
  decode_tx := at_position known_txs;
  decode_block := at_position known_blocks;
  decode_attestation := fun _ => Err "no attestations"
|}.

#[local] Instance sample_laws : CodecLaws.
Proof.
  split.
  - intros x. exists (account_bytes x). split; [done|apply account_of_bytes].
  - intros b d. apply position_roundtrip.
  - intros t d. apply position_roundtrip.
  - intros b. apply length_replicate.
Defined.

(** ** The store *)

Lemma column_new cf : column_at InMemory.new cf = ∅.
Proof.
  unfold column_at. destruct (data InMemory.new !! cf) as [c|] eqn:E; [|done].
  unfold InMemory.new in E. cbn [data] in E. apply elem_of_list_to_map_2 in E.
  apply list_elem_of_fmap in E as (x & [= -> ->] & _). done.
Qed.

Lemma new_db_ok : db_ok InMemory.new.
Proof.
  split.
  - apply new_complete.
  - cbn [col in_memory_spec]. rewrite column_new. apply map_Forall_empty.
  - intros d. cbn [col in_memory_spec]. rewrite column_new. done.
  - intros d. unfold tip_of. cbn [col in_memory_spec]. by rewrite column_new.
Qed.

Definition funded : AccountState := mkAccount 1000 0 0 0 false 0 None None.
Definition genesis : InMemoryStore := (put_account alice funded InMemory.new).1.

Lemma genesis_spec :
  db_ok genesis /\ only CF_ACCOUNTS InMemory.new genesis /\ accounts genesis = {[alice := funded]}.
Proof.
  destruct (put_account_spec InMemory.new alice funded new_db_ok) as (s & E & Hs & Ho & Ha).
  unfold genesis. rewrite E. cbn [fst]. split; [done|]. split; [done|]. rewrite Ha.
  unfold accounts. cbn [col in_memory_spec]. rewrite column_new. by rewrite omap_empty, insert_empty.
Qed.

Lemma genesis_book : book_ok (accounts genesis).
Proof.
  destruct genesis_spec as (_ & _ & ->). split.
  - apply map_Forall_singleton. decide_now.
  - decide_now.
Qed.

Definition policy : PruningPolicy := default_PruningPolicy.
(** Prune at every block and keep one block below the tip. *)
Definition tight : PruningPolicy := mkPruningPolicy 0 1 1 1 0.

Lemma ran {S A} (m : S * result GratiaError A) s a : s = m.1 -> m.2 = Ok a -> m = (s, Ok a).
Proof. intros -> <-. by destruct m. Qed.

Ltac run := refine (ran _ _ _ _ _); [reflexivity|vm_compute; reflexivity].

Ltac txs_ok := repeat constructor; decide_now.

Lemma new_index i : col genesis CF_BLOCKS !! be_bytes 8 i = None.
Proof.
  destruct genesis_spec as (_ & Ho & _). rewrite (Ho CF_BLOCKS) by done. cbn [col in_memory_spec].
  by rewrite column_new.
Qed.

Lemma block_conserves_value_witness :
  supply (accounts (apply_block policy block1 genesis).1) = 985.
Proof.
  destruct (block_conserves_value policy block1 genesis (apply_block policy block1 genesis).1 tt) as (_ & _ & ->).
  - apply genesis_spec.
  - apply genesis_book.
  - txs_ok.
  - run.
  - destruct genesis_spec as (_ & _ & ->). vm_compute. reflexivity.
Defined.

Lemma revert_restores_witness :
  (revert_block (apply_block tight block1 genesis).1).2 = Ok tt
  /\ same_accounts (accounts (revert_block (apply_block tight block1 genesis).1).1) (accounts genesis).
Proof.
  destruct (revert_restores tight block1 genesis (apply_block tight block1 genesis).1 tt)
    as (s2 & -> & _ & Hs & _).
  - apply genesis_spec.
  - apply genesis_book.
  - txs_ok.
  - decide_now.
  - decide_now.
  - reflexivity.
  - intros h _ i. rewrite new_index. discriminate.
  - run.
  - split; [reflexivity|exact Hs].
Defined.

Definition one_block : InMemoryStore := (apply_blocks policy [block1] genesis).1.
Definition two_blocks : InMemoryStore := (apply_blocks policy [block2] one_block).1.

Lemma applied_tx_not_replayable_witness :
  snd (apply_block policy replay3 two_blocks) <> Ok tt.
Proof.
  destruct (apply_block policy replay3 two_blocks) as [s r] eqn:E. intros Hr; cbn in Hr; subst r.
  revert E. apply (applied_tx_not_replayable policy [block1] [block2] block1 replay3 (pay 100 10 0) genesis
           one_block two_blocks tt tt).
  - apply genesis_spec.
  - repeat (constructor; [txs_ok|]); constructor.
  - run.
  - decide_now.
  - decide_now.
  - run.
  - decide_now.
  - txs_ok.
Defined.

Definition three_blocks : InMemoryStore := (apply_blocks tight [block1; block2; block3] genesis).1.

(** Pruning ran after every block: the first block is gone, the others are served. *)
Lemma recent_blocks_served_witness :
  get_block_by_height three_blocks 3 = Ok (Some block3)
  /\ get_block_by_height three_blocks 2 = Ok (Some block2)
  /\ get_block_by_height three_blocks 1 = Ok None.
Proof.
  destruct (recent_blocks_served tight [block1; block2; block3] genesis three_blocks tt) as [_ Hserved].
  - apply genesis_spec.
  - vm_compute. reflexivity.
  - apply new_index.
  - decide_now.
  - decide_now.
  - intros i j b c h Hi Hj Hb Hc.
    assert (forall k x, [block1; block2; block3] !! k = Some x ->
      k = 0%nat /\ x = block1 \/ k = 1%nat /\ x = block2 \/ k = 2%nat /\ x = block3) as Hcase.
    { intros [|[|[|k]]] x; cbn; intros [= <-]; tauto. }
    destruct (Hcase i b Hi) as [[-> ->]|[[-> ->]|[-> ->]]], (Hcase j c Hj) as [[-> ->]|[[-> ->]|[-> ->]]];
      try reflexivity; exfalso; revert Hb Hc; vm_compute; congruence.
  - run.
  - split; [|split].
    + apply (Hserved 2%nat block3); [reflexivity|decide_now].
    + apply (Hserved 1%nat block2); [reflexivity|decide_now].
    + vm_compute. reflexivity.
Defined.


Lemma two_blocks_ok : db_ok two_blocks.
Proof.
  destruct (apply_blocks_nonce policy [block1] genesis one_block tt) as (Hs1 & _).
  - apply genesis_spec.
  - by repeat (constructor; [txs_ok|]).
  - run.
  - destruct (apply_blocks_nonce policy [block2] one_block two_blocks tt) as (Hs2 & _); [done| |run|done].
    by repeat (constructor; [txs_ok|]).
Qed.

Definition injective_column (c : column) : bool :=
  let l := map_to_list c in
  forallb (fun x => forallb (fun y =>
    bool_decide (length x.1 = 8%nat -> length y.1 = 8%nat -> x.2 = y.2 -> x.1 = y.1)) l) l.

Lemma column_injective (s : InMemoryStore) :
  injective_column (col s CF_BLOCKS) = true -> Pruning.index_injective s.
Proof.
  intros Hc i j d Hi Hj Ei Ej. apply be_bytes_inj; [done|done|].
  unfold injective_column in Hc. rewrite forallb_forall in Hc.
  apply elem_of_map_to_list in Ei, Ej. apply list_elem_of_In in Ei, Ej.
  specialize (Hc _ Ei). rewrite forallb_forall in Hc. specialize (Hc _ Ej).
  apply bool_decide_eq_true_1 in Hc. apply Hc; [apply be_bytes_length..|done].
Qed.

Lemma two_blocks_injective : Pruning.index_injective two_blocks.
Proof. apply column_injective. vm_compute. reflexivity. Qed.

Definition cycled : InMemoryStore := (Pruning.run_pruning_cycle tight 3 two_blocks).1.

(** A cycle at height 3 that keeps one block below it removes the first block. *)
Lemma pruning_keeps_recent_witness :
  get_block_by_height cycled 2 = get_block_by_height two_blocks 2
  /\ get_block_by_height cycled 1 = Ok None.
Proof.
  destruct (Pruning.pruning_keeps_recent tight two_blocks 3) as (s' & r & E & _ & _ & _ & _ & Hk & Hg).
  - apply two_blocks_ok.
  - apply two_blocks_injective.
  - decide_now.
  - decide_now.
  - unfold cycled. rewrite E. cbn [fst]. split.
    + apply Hk; decide_now.
    + apply (Hg 1 (digest header1)); [decide_now|vm_compute; reflexivity|reflexivity].
Defined.

(** ** What the documentation describes otherwise *)

Definition alice_after (s : InMemoryStore) : result GratiaError Lux := get_balance s alice.

(** [apply_block] is documented as atomic ("if any step fails, no state is modified").
    A block whose second transaction is rejected is rejected, but its first transaction
    stays applied. *)
Example failed_block_not_atomic :
  (apply_block policy bad1 genesis).2 = Err (NonceMismatch 1 7)
  /\ alice_after genesis = Ok 1000
  /\ alice_after (apply_block policy bad1 genesis).1 = Ok 890.
Proof. vm_compute. done. Qed.

(** The root of the accounts is not restored by [revert_block]: the recipient's account,
    created by the block, stays in the store with an empty balance. *)
Example revert_changes_root :
  compute_state_root (revert_block (apply_block policy block1 genesis).1).1 <> compute_state_root genesis.
Proof. vm_compute. discriminate. Qed.

(** Pruning is documented to keep the headers of pruned blocks.  The block is removed with
    its header: only the index entry is left. *)
Example pruned_header_gone :
  store_get cycled CF_BLOCKS (digest header1) = Ok None
  /\ store_get cycled CF_BLOCKS (be_bytes 8 1) = Ok (Some (digest header1)).
Proof. vm_compute. done. Qed.

End LedgerSamples.
