(* ===== verification/PolTypes.v ===== *)
(** * gratia-core: Proof of Life data

    The types of [crates/gratia-core/src/types.rs] and the configuration that describe a
    day of phone use, the check of a day ([is_valid]) and the Presence Score of a set of
    sensors ([calculate_score]).  Counters are [u32] and scores [u8], kept in range by the
    code that builds them. *)

From stdpp Require Import base tactics list.
From Stdlib Require Import ZArith Lia.
From S2P Require Import Prelude CoreTypes ThirdParty GovVoting GovPolling Crypto Blocks.
Local Open Scope Z_scope.

Record ProofOfLifeConfig := mkPolConfig {
  min_daily_unlocks : Z;
  min_unlock_spread_hours : Z;
  min_interaction_sessions : Z;
  min_distinct_bt_environments : Z;
  onboarding_days : Z;
  grace_period_days : Z;
  consensus_threshold_score : Z;
  gps_sample_interval_secs : Z
}.

Definition default_ProofOfLifeConfig : ProofOfLifeConfig := mkPolConfig 10 6 3 2 1 1 40 1800.

Record OptionalSensorData `{!FloatLib} := mkOptionalSensors {
  gyroscope_active : bool;
  ambient_light_active : bool;
  cellular_connected : bool;
  cell_tower_count : option Z;
  barometer_reading : option f32;
  magnetometer_active : bool;
  nfc_available : bool;
  secure_enclave_attested : bool;
  biometric_confirmed : bool;
  camera_env_hash : option Hash;
  microphone_env_hash : option Hash
}.

Definition default_OptionalSensorData `{!FloatLib} : OptionalSensorData :=
  mkOptionalSensors _ false false false None None false false false false None None.

Record DailyProofOfLifeData `{!FloatLib} := mkDailyData {
  unlock_count : Z;
  first_unlock : option DateTime;
  last_unlock : option DateTime;
  interaction_sessions : Z;
  orientation_changed : bool;
  human_motion_detected : bool;
  gps_fix_obtained : bool;
  approximate_location : option GeoLocation;
  distinct_wifi_networks : Z;
  distinct_bt_environments : Z;
  bt_environment_change_count : Z;
  charge_cycle_event : bool;
  optional_sensors : OptionalSensorData
}.

Inductive MiningState := ProofOfLife | PendingActivation | Mining | Throttled | BatteryLow.

#[export] Instance MiningState_eq_dec : EqDecision MiningState.
Proof. solve_decision. Defined.

Record PowerState := mkPowerState {
  is_plugged_in : bool;
  battery_percent : Z;
  cpu_temp_celsius : Z;
  is_throttled : bool
}.

Module Pol.

Section data.
Context `{!FloatLib}.

(** [DailyProofOfLifeData::is_valid] *)
Definition is_valid (d : DailyProofOfLifeData) (c : ProofOfLifeConfig) : bool :=
  let unlock_spread := match first_unlock d, last_unlock d with
                       | Some first, Some last =>
                           bool_decide (num_hours (last - first) >= min_unlock_spread_hours c)
                       | _, _ => false
                       end in
  let interactions_ok := bool_decide (interaction_sessions d >= min_interaction_sessions c) in
  let network_ok := bool_decide (distinct_wifi_networks d >= 1)
                    || bool_decide (distinct_bt_environments d >= 1) in
  let bt_variation_ok := bool_decide (distinct_bt_environments d = 0)
                         || (bool_decide (distinct_bt_environments d >= min_distinct_bt_environments c)
                             && bool_decide (bt_environment_change_count d >= 1)) in
  bool_decide (unlock_count d >= min_daily_unlocks c)
  && unlock_spread && interactions_ok && orientation_changed d && human_motion_detected d
  && gps_fix_obtained d && network_ok && bt_variation_ok && charge_cycle_event d.
End data.

(** [PowerState::can_mine] *)
Definition can_mine (p : PowerState) : bool :=
  is_plugged_in p && bool_decide (battery_percent p >= 80) && negb (is_throttled p).

(** ** The Presence Score *)

Definition add_if (b : bool) (points score : Z) : Z :=
  if b then saturating_add 8 score points else score.

Definition calculate_score (f : SensorFlags) (participation_days : Z) : Z :=
  let score := 40 in
  let score := add_if (gyroscope f) 5 score in
  let score := add_if (ambient_light f) 3 score in
  let score := add_if (bluetooth f && wifi f) 5 score in
  let score := add_if (cellular f) 8 score in
  let score := add_if (barometer f) 5 score in
  let score := add_if (magnetometer f) 4 score in
  let score := add_if (nfc f) 5 score in
  let score := add_if (secure_enclave f) 8 score in
  let score := add_if (biometric f) 5 score in
  let score := add_if (camera_hash f) 4 score in
  let score := add_if (microphone_hash f) 4 score in
  let score := add_if (bool_decide (participation_days >= 30)) 2 score in
  let score := add_if (bool_decide (participation_days >= 90)) 2 score in
  Z.min score 100.

Lemma add_if_mono b c p s t :
  0 <= p -> (b = true -> c = true) -> s <= t <= 255 -> add_if b p s <= add_if c p t <= 255.
Proof.
  intros Hp Hbc Hs. unfold add_if, saturating_add, max_val. change (2 ^ 8 - 1) with 255.
  destruct b, c; try (specialize (Hbc eq_refl); done); lia.
Qed.

(** [f] has every sensor that [g] has. *)
Definition fewer_sensors (f g : SensorFlags) : Prop :=
  (gyroscope f = true -> gyroscope g = true) /\ (ambient_light f = true -> ambient_light g = true)
  /\ (bluetooth f = true -> bluetooth g = true) /\ (wifi f = true -> wifi g = true)
  /\ (cellular f = true -> cellular g = true) /\ (barometer f = true -> barometer g = true)
  /\ (magnetometer f = true -> magnetometer g = true) /\ (nfc f = true -> nfc g = true)
  /\ (secure_enclave f = true -> secure_enclave g = true) /\ (biometric f = true -> biometric g = true)
  /\ (camera_hash f = true -> camera_hash g = true) /\ (microphone_hash f = true -> microphone_hash g = true).

(** The score is between 40 and 100 and never falls when sensors or days are added. *)
Lemma score_bounds f d : 40 <= calculate_score f d <= 100.
Proof.
  assert (forall b p s, 0 <= p -> 40 <= s -> 40 <= add_if b p s) as Hlow.
  { intros [] p s Hp Hs; unfold add_if, saturating_add, max_val; lia. }
  unfold calculate_score. cbv zeta. split; [|lia]. apply Z.min_glb; [|lia].
  repeat (apply Hlow; [lia|]). lia.
Qed.

Lemma score_mono f g d e :
  fewer_sensors f g -> d <= e -> calculate_score f d <= calculate_score g e.
Proof.
  intros (? & ? & ? & ? & ? & ? & ? & ? & ? & ? & ? & ?) Hd. unfold calculate_score. cbv zeta.
  apply Z.min_le_compat_r.
  match goal with |- ?a <= ?b => enough (a <= b <= 255) by lia end.
  repeat (apply add_if_mono; [lia|rewrite ?andb_true_iff, ?bool_decide_eq_true; try tauto; lia|]). lia.
Qed.

End Pol.
