(* ===== verification/PolZk.v ===== *)
(** * gratia-zk: range proofs of a day of Proof of Life

    [crates/gratia-zk/src/bulletproofs.rs]: both interfaces over the [bulletproofs] crate,
    which is the parameter [RangeProofLib].  Random blinding factors are arguments.

    Theorems: a phone that meets the thresholds obtains a proof, and every node accepts it
    for that day ([pol_proof_complete]); the proof says nothing about the thresholds of the
    network ([pol_thresholds_not_bound]). *)

From stdpp Require Import base tactics strings pretty list.
From Stdlib Require Import ZArith Lia.
From S2P Require Import Prelude CoreTypes ThirdParty GovVoting GovPolling Crypto Blocks PolTypes.
Local Open Scope Z_scope.

(** [merlin::Transcript]: the label it was made with and the values appended. *)
Record Transcript := mkTranscript { tr_label : bytes; tr_values : list (bytes * Z) }.

(** [bulletproofs::RangeProof] and [CompressedRistretto]. *)
Class RangeProofLib := {
  RangeProof : Type;
  Scalar : Type;
  Point : Type;
  prove_multiple : Transcript -> list Z -> list Scalar -> Z -> result string (RangeProof * list Point);
  verify_multiple : RangeProof -> Transcript -> list Point -> Z -> bool;
  rp_to_bytes : RangeProof -> bytes;
  rp_from_bytes : bytes -> option RangeProof;
  point_to_bytes : Point -> bytes;
  point_from_slice : bytes -> option Point
}.

Inductive ZkError :=
| ProofGenerationFailed (reason : string)
| VerificationFailed (reason : string)
| InvalidInput (reason : string)
| ZkSerializationError (reason : string).

Definition show_ZkError (e : ZkError) : string :=
  match e with
  | ProofGenerationFailed reason => "proof generation failed: " +:+ reason
  | VerificationFailed reason => "verification failed: " +:+ reason
  | InvalidInput reason => "invalid input: " +:+ reason
  | ZkSerializationError reason => "serialization error: " +:+ reason
  end.

(** [impl From<ZkError> for GratiaError] *)
Definition zk_to_gratia (e : ZkError) : GratiaError :=
  match e with
  | ProofGenerationFailed reason | VerificationFailed reason => InvalidZkProof reason
  | InvalidInput reason => ProofOfLifeInvalid reason
  | ZkSerializationError reason => SerializationError reason
  end.

Record PolProofInput := mkPolProofInput {
  pi_unlock_count : Z;
  pi_unlock_spread_hours : Z;
  pi_interaction_sessions : Z;
  pi_bt_environments : Z
}.

Record PolThresholds := mkPolThresholds {
  min_unlocks : Z;
  min_spread : Z;
  min_interactions : Z;
  min_bt_envs : Z
}.

Definition default_PolThresholds : PolThresholds := mkPolThresholds 10 6 3 2.

Record PolRangeProof := mkPolRangeProof {
  proof_bytes : bytes;
  commitments : list bytes;
  parameter_count : Z;
  rp_epoch_day : Z
}.

Record ProofOfLifeProof := mkProofOfLifeProof {
  pl_range_proof : bytes;
  pl_commitments : list bytes;
  pl_epoch_day : Z
}.

Module Zk.

Definition POL_PARAMETER_COUNT : nat := 8.
Definition FLEXIBLE_PARAMETER_COUNT : nat := 4.
Definition RANGE_PROOF_BITS : Z := 32.
Definition RANGE_PROOF_BITS_LEGACY : Z := 16.
Definition POL_TRANSCRIPT_DOMAIN : bytes := str_bytes "gratia-proof-of-life-v1".
Definition POL_RANGE_TRANSCRIPT_DOMAIN : bytes := str_bytes "gratia-pol-range-proof-v1".
Definition POL_MINIMUMS : list Z := [10; 6; 3; 1; 1; 1; 1; 1].

Definition day_transcript (label : bytes) (epoch_day : Z) : Transcript :=
  mkTranscript label [(str_bytes "epoch_day", epoch_day)].

Section zk.
Context `{!RangeProofLib}.

(** ** The flexible interface *)

Definition input_values (d : PolProofInput) : list Z :=
  [pi_unlock_count d; pi_unlock_spread_hours d; pi_interaction_sessions d; pi_bt_environments d].
Definition minimums (t : PolThresholds) : list Z :=
  [min_unlocks t; min_spread t; min_interactions t; min_bt_envs t].
Definition param_names : list string :=
  ["unlock_count"; "unlock_spread_hours"; "interaction_sessions"; "bt_environments"].

(** The loop that shifts the values by their minimums. *)
Fixpoint shift (names : list string) (values mins : list Z) : result ZkError (list Z) :=
  match names, values, mins with
  | n :: names, v :: values, m :: mins =>
      if decide (v < m) then
        Err (InvalidInput (n +:+ " is " +:+ pretty v +:+ " but must be at least " +:+ pretty m))
      else let?? rest := shift names values mins in Ok (v - m :: rest)
  | _, _, _ => Ok []
  end.

Definition generate_pol_proof (d : PolProofInput) (t : PolThresholds) (epoch_day : Z)
    (blindings : list Scalar) : result ZkError PolRangeProof :=
  let?? shifted := shift param_names (input_values d) (minimums t) in
  match prove_multiple (day_transcript POL_RANGE_TRANSCRIPT_DOMAIN epoch_day) shifted blindings
          RANGE_PROOF_BITS with
  | Err e => Err (ProofGenerationFailed ("Bulletproof prove_multiple failed: " +:+ e))
  | Ok (proof, cs) =>
      Ok (mkPolRangeProof (rp_to_bytes proof) (point_to_bytes <$> cs)
            (Z.of_nat FLEXIBLE_PARAMETER_COUNT) epoch_day)
  end.

Definition decode_commitment (b : bytes) : result ZkError Point :=
  if decide (length b <> 32%nat) then
    Err (ZkSerializationError ("commitment must be 32 bytes, got " +:+ pretty (Z.of_nat (length b))))
  else match point_from_slice b with
  | None => Err (ZkSerializationError "invalid compressed Ristretto point")
  | Some p => Ok p
  end.

(** [collect::<Result<Vec<_>, _>>()] *)
Fixpoint collect {A E B} (f : A -> result E B) (l : list A) : result E (list B) :=
  match l with
  | [] => Ok []
  | x :: l => let?? y := f x in let?? rest := collect f l in Ok (y :: rest)
  end.

Definition verify_pol_proof (p : PolRangeProof) (thresholds : PolThresholds) (expected_epoch_day : Z)
  : result ZkError bool :=
  if decide (rp_epoch_day p <> expected_epoch_day) then
    Err (VerificationFailed ("epoch_day mismatch: proof is for day " +:+ pretty (rp_epoch_day p)
                               +:+ " but expected day " +:+ pretty expected_epoch_day))
  else if decide (length (commitments p) <> FLEXIBLE_PARAMETER_COUNT) then
    Err (InvalidInput ("expected " +:+ pretty (Z.of_nat FLEXIBLE_PARAMETER_COUNT)
                         +:+ " commitments, got " +:+ pretty (Z.of_nat (length (commitments p)))))
  else if decide (parameter_count p <> Z.of_nat FLEXIBLE_PARAMETER_COUNT) then
    Err (InvalidInput ("parameter_count is " +:+ pretty (parameter_count p) +:+ " but expected "
                         +:+ pretty (Z.of_nat FLEXIBLE_PARAMETER_COUNT)))
  else match rp_from_bytes (proof_bytes p) with
  | None => Err (ZkSerializationError "invalid range proof encoding")
  | Some range_proof =>
      let?? cs := collect decode_commitment (commitments p) in
      if verify_multiple range_proof (day_transcript POL_RANGE_TRANSCRIPT_DOMAIN (rp_epoch_day p)) cs
           RANGE_PROOF_BITS
      then Ok true
      else Err (VerificationFailed
        "range proof verification failed: one or more PoL parameters not in valid range")
  end.

(** ** The daily interface *)

Section daily.
Context `{!FloatLib}.

Definition bit (b : bool) : Z := if b then 1 else 0.

Definition raw_values (d : DailyProofOfLifeData) : list Z :=
  let unlock_spread_hours := match first_unlock d, last_unlock d with
                             | Some first, Some last => Z.max (num_hours (last - first)) 0
                             | _, _ => 0
                             end in
  [unlock_count d; unlock_spread_hours; interaction_sessions d; bit (orientation_changed d);
   bit (human_motion_detected d); bit (gps_fix_obtained d); distinct_bt_environments d;
   bit (charge_cycle_event d)].

Fixpoint shift_raw (i : Z) (values mins : list Z) : result GratiaError (list Z) :=
  match values, mins with
  | v :: values, m :: mins =>
      if decide (v < m) then
        Err (ProofOfLifeInvalid ("parameter " +:+ pretty i +:+ " has value " +:+ pretty v
                                   +:+ " but requires at least " +:+ pretty m))
      else let?? rest := shift_raw (i + 1) values mins in Ok (v - m :: rest)
  | _, _ => Ok []
  end.

Definition encode_pol_parameters (d : DailyProofOfLifeData) : result GratiaError (list Z) :=
  shift_raw 0 (raw_values d) POL_MINIMUMS.

Definition prove_daily_attestation (d : DailyProofOfLifeData) (epoch_day : Z) (blindings : list Scalar)
  : result GratiaError ProofOfLifeProof :=
  let?? encoded := encode_pol_parameters d in
  match prove_multiple (day_transcript POL_TRANSCRIPT_DOMAIN epoch_day) encoded blindings
          RANGE_PROOF_BITS_LEGACY with
  | Err e => Err (InvalidZkProof ("Bulletproof generation failed: " +:+ e))
  | Ok (proof, cs) => Ok (mkProofOfLifeProof (rp_to_bytes proof) (point_to_bytes <$> cs) epoch_day)
  end.

Definition verify_daily_attestation (p : ProofOfLifeProof) (expected_epoch_day : Z)
  : result GratiaError unit :=
  if decide (pl_epoch_day p <> expected_epoch_day) then
    Err (InvalidZkProof ("epoch_day mismatch: proof is for day " +:+ pretty (pl_epoch_day p)
                           +:+ " but expected day " +:+ pretty expected_epoch_day))
  else if decide (length (pl_commitments p) <> POL_PARAMETER_COUNT) then
    Err (InvalidZkProof ("expected " +:+ pretty (Z.of_nat POL_PARAMETER_COUNT)
                           +:+ " commitments, got " +:+ pretty (Z.of_nat (length (pl_commitments p)))))
  else match rp_from_bytes (pl_range_proof p) with
  | None => Err (InvalidZkProof "invalid range proof encoding")
  | Some range_proof =>
      match collect (fun b => ok_or (point_from_slice b) tt) (pl_commitments p) with
      | Err _ => Err (InvalidZkProof "invalid commitment point encoding")
      | Ok cs =>
          if verify_multiple range_proof (day_transcript POL_TRANSCRIPT_DOMAIN (pl_epoch_day p)) cs
               RANGE_PROOF_BITS_LEGACY
          then Ok tt
          else Err (InvalidZkProof
            "range proof verification failed: PoL parameters not in valid range")
      end
  end.
End daily.

(** ** What the proof system promises *)

(** The documented completeness of the range proofs and the encodings of the crates: one
    blinding per value, a number of values and of bits that the crate supports, values in
    range. *)
Class RangeProofLaws : Prop := {
  prove_verify t values blindings bits :
    length blindings = length values -> length values = 4%nat \/ length values = 8%nat ->
    bits = 16 \/ bits = 32 -> Forall (in_range bits) values ->
    exists proof cs, prove_multiple t values blindings bits = Ok (proof, cs)
      /\ length cs = length values /\ verify_multiple proof t cs bits = true;
  proof_bytes_back p : rp_from_bytes (rp_to_bytes p) = Some p;
  point_bytes_back c : point_from_slice (point_to_bytes c) = Some c;
  point_bytes_length c : length (point_to_bytes c) = 32%nat
}.
Context `{!RangeProofLaws}.

Lemma shift_spec names vs ms :
  length names = length vs -> length names = length ms ->
  match shift names vs ms with
  | Ok l => Forall2 Z.le ms vs /\ l = zip_with Z.sub vs ms
  | Err _ => ~ Forall2 Z.le ms vs
  end.
Proof.
  revert vs ms. induction names as [|n names IH]; intros [|v vs] [|m ms]; try done.
  cbn. intros [= Hv] [= Hm]. case_decide as Hlt.
  - intros Hf. apply Forall2_cons_1 in Hf as [? _]. lia.
  - specialize (IH vs ms Hv Hm). destruct (shift names vs ms) as [l|e]; cbn.
    + destruct IH as [Hf ->]. split; [constructor; [lia|done]|done].
    + intros Hf. by apply Forall2_cons_1 in Hf as [_ Hf].
Qed.

Lemma collect_points cs : collect decode_commitment (point_to_bytes <$> cs) = Ok cs.
Proof.
  induction cs as [|c cs IH]; [done|]. cbn. unfold decode_commitment at 1.
  rewrite decide_False by (rewrite point_bytes_length; lia). rewrite point_bytes_back. cbn.
  by rewrite IH.
Qed.

Lemma verify_honest proof cs day t :
  length cs = 4%nat ->
  verify_multiple proof (day_transcript POL_RANGE_TRANSCRIPT_DOMAIN day) cs RANGE_PROOF_BITS = true ->
  verify_pol_proof (mkPolRangeProof (rp_to_bytes proof) (point_to_bytes <$> cs)
                      (Z.of_nat FLEXIBLE_PARAMETER_COUNT) day) t day = Ok true.
Proof.
  intros Hl Hv. unfold verify_pol_proof. cbn [rp_epoch_day commitments parameter_count proof_bytes].
  rewrite decide_False by lia. rewrite decide_False by (rewrite length_fmap, Hl; by intros []).
  rewrite decide_False by lia. by rewrite proof_bytes_back, collect_points, Hv.
Qed.

(** The values meet the thresholds, and exceed them by less than [2^32]. *)
Definition meets (d : PolProofInput) (t : PolThresholds) : Prop :=
  Forall2 Z.le (minimums t) (input_values d).
Definition representable (d : PolProofInput) (t : PolThresholds) : Prop :=
  Forall2 (fun v m => v - m < 2 ^ 32) (input_values d) (minimums t).

(** A phone obtains a proof exactly when its values meet the thresholds it is given;
    every node then accepts the proof for the day it was made for, and for no other. *)
Theorem pol_proof_complete d t day blindings :
  length blindings = 4%nat -> representable d t ->
  match generate_pol_proof d t day blindings with
  | Ok p => meets d t /\ (forall t', verify_pol_proof p t' day = Ok true)
            /\ (forall t' day', day' <> day -> verify_pol_proof p t' day' <> Ok true)
  | Err _ => ~ meets d t
  end.
Proof.
  intros Hb Hrep. unfold generate_pol_proof.
  pose proof (shift_spec param_names (input_values d) (minimums t) eq_refl eq_refl) as Hs.
  destruct (shift _ _ _) as [l|e]; [|done]. destruct Hs as [Hm ->].
  set (tr := day_transcript _ _).
  assert (Forall (in_range 32) (zip_with Z.sub (input_values d) (minimums t))) as Hr.
  { unfold meets, representable, input_values, minimums, in_range in *.
    repeat match goal with H : Forall2 _ (_ :: _) _ |- _ => apply Forall2_cons_1 in H as [? ?] end.
    cbn [zip_with]. rewrite !Forall_cons. split_and!; [lia..|constructor]. }
  destruct (prove_verify tr (zip_with Z.sub (input_values d) (minimums t)) blindings 32)
    as (proof & cs & E & Hl & Hv); [done|by left|by right|done|].
  change RANGE_PROOF_BITS with 32. rewrite E. split; [done|]. split.
  - intros t'. by apply verify_honest.
  - intros t' day' Hd. unfold verify_pol_proof. cbn [rp_epoch_day]. by rewrite decide_True by done.
Qed.

(** The thresholds of the network are not bound by a proof.  Verification gives the
    same answer for all thresholds, and a phone that saw no unlock, no interaction and no
    Bluetooth peer obtains a proof that every node accepts under any thresholds. *)
Theorem pol_thresholds_not_bound :
  (forall p t t' day, verify_pol_proof p t day = verify_pol_proof p t' day)
  /\ forall day blindings, length blindings = 4%nat ->
       exists p, generate_pol_proof (mkPolProofInput 0 0 0 0) (mkPolThresholds 0 0 0 0) day blindings = Ok p
         /\ forall t, verify_pol_proof p t day = Ok true.
Proof.
  split; [done|]. intros day blindings Hb.
  set (d := mkPolProofInput 0 0 0 0). set (t := mkPolThresholds 0 0 0 0).
  unfold generate_pol_proof. change (shift param_names (input_values d) (minimums t)) with (Ok (E := ZkError) [0; 0; 0; 0]).
  destruct (prove_verify (day_transcript POL_RANGE_TRANSCRIPT_DOMAIN day) [0; 0; 0; 0] blindings 32)
    as (proof & cs & E & Hl & Hv);
    [done|by left|by right|repeat constructor; unfold in_range; lia|].
  change RANGE_PROOF_BITS with 32. rewrite E. eexists. split; [done|].
  intros t'. by apply verify_honest.
Qed.

(** ** Wi-Fi-only phones *)

Context `{!FloatLib}.

(** A valid day of a phone that uses Wi-Fi and sees no Bluetooth peer. *)
Definition wifi_day : DailyProofOfLifeData :=
  mkDailyData _ 40 (Some 0) (Some (12 * 3600 * NANOS)) 12 true true true None 3 0 0 true
    default_OptionalSensorData.

(** Parameter 6 is documented as "wifi >= 1 OR bt >= 1"; it is the number of Bluetooth
    environments.  A phone that uses Wi-Fi alone has a valid day and cannot prove it. *)
Lemma wifi_only_cannot_prove :
  Pol.is_valid wifi_day default_ProofOfLifeConfig = true
  /\ forall d day blindings, distinct_bt_environments d = 0 ->
       exists e, prove_daily_attestation d day blindings = Err e.
Proof.
  split; [done|]. intros d day blindings Hbt. unfold prove_daily_attestation.
  assert (exists e, encode_pol_parameters d = Err e) as [e ->]; [|by exists e].
  unfold encode_pol_parameters, raw_values. rewrite Hbt. cbv zeta.
  cbn [shift_raw POL_MINIMUMS]. repeat (case_decide; [by eexists|]). lia.
Qed.
End zk.
End Zk.
