(* ===== verification/Mempool.v ===== *)
(** * gratia-core: the mempool

    [crates/gratia-core/src/mempool.rs]: [ValidatedMempool], which checks a transaction's
    digest and signature before it is queued for a block.

    Theorems: over every history of operations the queue holds at most [max_size]
    transactions, each with a valid digest and signature, each digest once
    ([mempool_invariant]); a transaction that was ever accepted is never accepted again
    ([accepted_once]); the queue is first-in first-out ([drained_in_order]). *)

From stdpp Require Import base tactics strings gmap list sets.
From Stdlib Require Import ZArith Lia.
From S2P Require Import Prelude CoreTypes ThirdParty Crypto Blocks.
Local Open Scope Z_scope.

(** The variants of [MempoolError]. *)
Inductive MempoolError :=
| MpInvalidSignature
| MpInvalidHash
| MpDuplicateTransaction
| MpMempoolFull.

Definition show_MempoolError (e : MempoolError) : string :=
  match e with
  | MpInvalidSignature => "invalid transaction signature"
  | MpInvalidHash => "transaction hash does not match content"
  | MpDuplicateTransaction => "duplicate transaction"
  | MpMempoolFull => "mempool is full"
  end.

Record ValidatedMempool `{!FloatLib} := mkMempool {
  pending : list Transaction;
  seen_hashes : gset (list Z);
  max_size : Z
}.

Module Mempool.

Definition DEFAULT_MAX_SIZE : Z := 1000.

Section mempool.
Context `{!FloatLib, !HashLib, !Bincode, !SignLib}.

Definition new (max : Z) : ValidatedMempool := mkMempool _ [] ∅ max.
Definition default_mempool : ValidatedMempool := new DEFAULT_MAX_SIZE.

(** ** Digests *)

Definition compute_signable_bytes (tx : Transaction) : result MempoolError bytes :=
  match encode_payload (payload tx) with
  | Err _ => Err MpInvalidHash
  | Ok payload_bytes =>
      Ok (payload_bytes ++ le_bytes 8 (nonce tx) ++ le_bytes 4 (chain_id tx) ++ le_bytes 8 (fee tx)
            ++ le_bytes 8 (timestamp_millis (tx_timestamp tx)))
  end.

Definition compute_tx_hash (pubkey signable signature : bytes) : Hash :=
  sha256 (pubkey ++ signable ++ signature).

(** ** Operations *)

Definition add_transaction (m : ValidatedMempool) (tx : Transaction)
  : ValidatedMempool * result MempoolError unit :=
  if decide (tx_hash tx ∈ seen_hashes m) then (m, Err MpDuplicateTransaction)
  else if decide (Z.of_nat (length (pending m)) >= max_size m) then (m, Err MpMempoolFull)
  else
    let? signable := compute_signable_bytes tx at m in
    let expected_hash := compute_tx_hash (sender_pubkey tx) signable (tx_signature tx) in
    if decide (tx_hash tx <> expected_hash) then (m, Err MpInvalidHash)
    else
      match verify_signature (sender_pubkey tx) signable (tx_signature tx) with
      | Err _ => (m, Err MpInvalidSignature)
      | Ok _ => (mkMempool _ (pending m ++ [tx]) ({[tx_hash tx]} ∪ seen_hashes m) (max_size m), Ok tt)
      end.

Definition drain_for_block (m : ValidatedMempool) (max_txs : Z) : ValidatedMempool * list Transaction :=
  let drain_count := Z.to_nat (Z.min (Z.of_nat (length (pending m))) max_txs) in
  (mkMempool _ (drop drain_count (pending m)) (seen_hashes m) (max_size m),
   take drain_count (pending m)).

Definition remove_confirmed (m : ValidatedMempool) (hashes : list Hash) : ValidatedMempool :=
  if decide (hashes = []) then m
  else
    let hash_set : gset (list Z) := list_to_set hashes in
    mkMempool _ (filter (fun tx => tx_hash tx ∉ hash_set) (pending m)) (seen_hashes m) (max_size m).

Definition len (m : ValidatedMempool) : Z := Z.of_nat (length (pending m)).
Definition is_empty (m : ValidatedMempool) : bool := bool_decide (pending m = []).
Definition seen_count (m : ValidatedMempool) : Z := Z.of_nat (size (seen_hashes m)).

(** ** Histories *)

Inductive op :=
| Add (tx : Transaction)
| Drain (max_txs : Z)
| Remove (hashes : list Hash).

(** A step, with the transactions it takes in and gives out. *)
Definition step (m : ValidatedMempool) (o : op) : ValidatedMempool * list Transaction * list Transaction :=
  match o with
  | Add tx => match add_transaction m tx with
              | (m, Ok _) => (m, [tx], [])
              | (m, Err _) => (m, [], [])
              end
  | Drain n => let '(m, out) := drain_for_block m n in (m, [], out)
  | Remove hs => (remove_confirmed m hs, [], [])
  end.

Fixpoint run (m : ValidatedMempool) (l : list op) : ValidatedMempool * list Transaction * list Transaction :=
  match l with
  | [] => (m, [], [])
  | o :: l => let '(m, i, out) := step m o in
              let '(m, i', out') := run m l in (m, i ++ i', out ++ out')
  end.

(** ** The invariant *)

(** The digest and the signature of a transaction are right. *)
Definition authentic (tx : Transaction) : Prop :=
  exists s, compute_signable_bytes tx = Ok s
    /\ tx_hash tx = compute_tx_hash (sender_pubkey tx) s (tx_signature tx)
    /\ verify_signature (sender_pubkey tx) s (tx_signature tx) = Ok tt.

Record mempool_ok (m : ValidatedMempool) : Prop := {
  mp_authentic : Forall authentic (pending m);
  mp_nodup : NoDup (tx_hash <$> pending m);
  mp_seen : Forall (fun tx => tx_hash tx ∈ seen_hashes m) (pending m);
  mp_bound : Z.of_nat (length (pending m)) <= max_size m
}.

(** The behaviour of [add_transaction]: it accepts exactly an unseen, authentic
    transaction while there is room. *)
Lemma add_transaction_cases m tx :
  match add_transaction m tx with
  | (m', Ok _) => tx_hash tx ∉ seen_hashes m /\ len m < max_size m /\ authentic tx
      /\ m' = mkMempool _ (pending m ++ [tx]) ({[tx_hash tx]} ∪ seen_hashes m) (max_size m)
  | (m', Err _) => m' = m /\ ~ (tx_hash tx ∉ seen_hashes m /\ len m < max_size m /\ authentic tx)
  end.
Proof.
  unfold add_transaction, len. case_decide as Hs; [split; [done|]; naive_solver|].
  case_decide as Hl; [split; [done|]; naive_solver lia|].
  destruct (compute_signable_bytes tx) as [s|e] eqn:Es; cbn.
  2: { split; [done|]. intros (_ & _ & s & ? & _). congruence. }
  case_decide as Hh.
  { split; [done|]. intros (_ & _ & s' & E & Hh' & _). rewrite Es in E. injection E as <-. done. }
  destruct (verify_signature _ _ _) as [[]|e] eqn:Ev.
  - split; [done|]. split; [lia|]. split; [|done]. by exists s.
  - split; [done|]. intros (_ & _ & s' & E & _ & Hv). rewrite Es in E. injection E as <-. congruence.
Qed.

Lemma add_ok m tx : mempool_ok m -> mempool_ok (add_transaction m tx).1.
Proof.
  intros Hm. pose proof (add_transaction_cases m tx) as Hc.
  destruct (add_transaction m tx) as [m' [[]|e]]; cbn [fst].
  - destruct Hc as (Hs & Hl & Ha & ->), Hm as [M1 M2 M3 M4]. unfold len in Hl. split; cbn.
    + apply Forall_app. by split; [|constructor].
    + rewrite fmap_app. apply NoDup_app. split; [done|]. split; [|apply NoDup_singleton].
      intros h Hh. apply list_elem_of_fmap in Hh as (t & -> & Ht). rewrite Forall_forall in M3.
      specialize (M3 t Ht). intros E%list_elem_of_singleton. cbn in E. by rewrite E in M3.
    + apply Forall_app. split; [eapply Forall_impl; [done|]; set_solver|].
      repeat constructor. set_solver.
    + rewrite length_app. cbn. lia.
  - by destruct Hc as [-> _].
Qed.

(** The invariant is inherited by every part of the queue. *)
Lemma part_ok m l :
  mempool_ok m -> l `sublist_of` pending m -> mempool_ok (mkMempool _ l (seen_hashes m) (max_size m)).
Proof.
  intros [M1 M2 M3 M4] Hl. split; cbn.
  - apply Forall_forall. intros t Ht. rewrite Forall_forall in M1. apply M1. by eapply elem_of_sublist.
  - eapply sublist_NoDup; [done|]. by apply fmap_sublist.
  - apply Forall_forall. intros t Ht. rewrite Forall_forall in M3. apply M3. by eapply elem_of_sublist.
  - apply sublist_length in Hl. lia.
Qed.

Lemma remove_ok m hs : mempool_ok m -> mempool_ok (remove_confirmed m hs).
Proof.
  intros Hm. unfold remove_confirmed. case_decide; [done|]. apply part_ok; [done|apply sublist_filter].
Qed.

Lemma drain_ok m n : mempool_ok m -> mempool_ok (drain_for_block m n).1.
Proof. intros Hm. apply part_ok; [done|apply sublist_drop]. Qed.

(** What one step does to the queue, the accepted and the drained transactions. *)
Lemma step_spec m o m' i out :
  mempool_ok m -> step m o = (m', i, out) ->
  mempool_ok m' /\ out ++ pending m' `sublist_of` pending m ++ i
  /\ Forall authentic i /\ NoDup (tx_hash <$> i)
  /\ (forall h, h ∈ tx_hash <$> i -> h ∉ seen_hashes m)
  /\ seen_hashes m' = list_to_set (tx_hash <$> i) ∪ seen_hashes m.
Proof.
  intros Hm. destruct o as [tx|n|hs]; cbn [step].
  - pose proof (add_transaction_cases m tx) as Hc. pose proof (add_ok m tx Hm) as Hok.
    destruct (add_transaction m tx) as [m1 [[]|e]]; intros [= <- <- <-]; cbn [fst] in Hok.
    + destruct Hc as (Hs & _ & Ha & ->). split; [done|]. split; [done|]. split; [by constructor|].
      split; [apply NoDup_singleton|]. split; [set_solver|]. cbn. set_solver.
    + destruct Hc as [-> _]. split; [done|]. rewrite app_nil_r. split; [done|]. split; [done|].
      split; [apply NoDup_nil_2|]. split; [set_solver|]. cbn. set_solver.
  - intros [= <- <- <-]. split; [by apply (drain_ok m n)|]. cbn. rewrite take_drop, app_nil_r.
    split; [done|]. split; [done|]. split; [apply NoDup_nil_2|]. split; [set_solver|set_solver].
  - intros [= <- <- <-]. split; [by apply remove_ok|]. unfold remove_confirmed. case_decide; cbn; rewrite app_nil_r;
      (split; [by try apply sublist_filter|]); (split; [done|]); (split; [apply NoDup_nil_2|]); set_solver.
Qed.

Lemma run_spec l m m' i out :
  mempool_ok m -> run m l = (m', i, out) ->
  mempool_ok m' /\ out ++ pending m' `sublist_of` pending m ++ i
  /\ Forall authentic i /\ NoDup (tx_hash <$> i)
  /\ (forall h, h ∈ tx_hash <$> i -> h ∉ seen_hashes m)
  /\ seen_hashes m' = list_to_set (tx_hash <$> i) ∪ seen_hashes m.
Proof.
  revert m i out. induction l as [|o l IH]; intros m i out Hm; cbn [run].
  - intros [= <- <- <-]. split; [done|]. rewrite app_nil_r. split; [done|]. split; [done|].
    split; [apply NoDup_nil_2|]. split; [set_solver|set_solver].
  - destruct (step m o) as [[m1 i1] o1] eqn:E1. destruct (run m1 l) as [[m2 i2] o2] eqn:E2. intros [= <- <- <-].
    destruct (step_spec _ _ _ _ _ Hm E1) as (Hm1 & Hq1 & Ha1 & Hn1 & Hf1 & Hs1).
    destruct (IH _ _ _ Hm1 E2) as (Hm2 & Hq2 & Ha2 & Hn2 & Hf2 & Hs2). split; [done|]. split; [|split; [|split; [|split]]].
    + rewrite <-app_assoc. etrans; [by apply sublist_app|]. rewrite !app_assoc. by apply sublist_app.
    + by apply Forall_app.
    + rewrite fmap_app. apply NoDup_app. split; [done|]. split; [|done]. intros h Hh Hh2.
      apply (Hf2 h Hh2). rewrite Hs1. set_solver.
    + intros h. rewrite fmap_app. intros [Hh|Hh]%elem_of_app; [by apply Hf1|].
      specialize (Hf2 h Hh). rewrite Hs1 in Hf2. set_solver.
    + rewrite Hs2, Hs1, fmap_app, list_to_set_app_L. set_solver.
Qed.

(** C26: the mempool over every history of additions, drains and confirmations.  The queue
    never exceeds its capacity and holds only transactions with a right digest and
    signature, no digest twice.  A digest is accepted at most once, also after its
    transaction was drained or confirmed, and what is drained for blocks, followed by what
    is still queued, is a part of the accepted transactions in the order of acceptance. *)
Theorem mempool_correct n l m i out :
  0 <= n -> run (new n) l = (m, i, out) ->
  mempool_ok m /\ max_size m = n /\ Forall authentic (out ++ pending m)
  /\ NoDup (tx_hash <$> i) /\ out ++ pending m `sublist_of` i.
Proof.
  intros Hn Hrun. assert (mempool_ok (new n)) as Hnew.
  { split; cbn; [done|apply NoDup_nil_2|done|done]. }
  destruct (run_spec l _ _ _ _ Hnew Hrun) as (Hm & Hq & Ha & Hnd & _ & _). split; [done|]. split.
  - assert (forall l m m' i out, run m l = (m', i, out) -> max_size m' = max_size m) as Hmax.
    { clear. induction l as [|o l IH]; intros m m' i out; cbn [run]; [by intros [= <- _ _]|].
      destruct (step m o) as [[m1 i1] o1] eqn:E1. destruct (run m1 l) as [[m2 i2] o2] eqn:E2. intros [= <- _ _].
      rewrite (IH _ _ _ _ E2). destruct o as [tx|k|hs]; cbn [step] in E1.
      - pose proof (add_transaction_cases m tx) as Hc.
        destruct (add_transaction m tx) as [m' [[]|e]]; injection E1 as <- _ _;
          [by destruct Hc as (_ & _ & _ & ->)|by destruct Hc as [-> _]].
      - by injection E1 as <- _ _.
      - injection E1 as <- _ _. unfold remove_confirmed. by case_decide. }
    by rewrite (Hmax _ _ _ _ _ Hrun).
  - split; [|by split]. cbn [pending new app] in Hq. apply Forall_forall. intros tx Htx.
    rewrite Forall_forall in Ha. apply Ha. by eapply elem_of_sublist.
Qed.
End mempool.
End Mempool.
