(* ===== verification/Validation.v ===== *)
(** * gratia-consensus: transaction and block validation

    [crates/gratia-consensus/src/validation.rs].  [Utc::now()] is an argument and the
    text of a timestamp the parameter [show_time].

    Theorems: [validate_block] accepts exactly the blocks of its specification
    ([block_validation_exact]); the body of a block is not bound by its header
    ([body_not_bound_by_header]). *)

From stdpp Require Import base tactics strings pretty list sets gmap.
From Stdlib Require Import ZArith Lia.
From S2P Require Import Prelude CoreTypes ThirdParty GovVoting GovPolling Crypto Blocks Vrf Committee.
From S2P Require Import PolTypes PolZk Mempool.
Local Open Scope Z_scope.

(** [chrono]'s [Display] of a timestamp. *)
Class TimeLib := { show_time : Z -> string }.

Record ValidationContext := mkValidationContext {
  vc_current_height : Z;
  vc_previous_block_hash : Hash;
  vc_committee : ValidatorCommittee;
  vc_max_block_size : Z;
  vc_min_transaction_fee : Lux;
  vc_previous_block_timestamp : option DateTime;
  vc_pol_thresholds : PolThresholds
}.

Module Validation.

Definition MAX_BLOCK_SIZE : Z := 262144.
Definition MIN_TRANSACTION_FEE : Lux := 1000.
Definition MAX_TRANSACTIONS_PER_BLOCK : Z := 512.
Definition MAX_CONTRACT_BYTECODE_SIZE : Z := 65536.
Definition MAX_TRANSACTION_PAYLOAD_SIZE : Z := 131072.

Definition invalid {A} (reason : string) : result GratiaError A := Err (BlockValidationFailed reason).

Section validation.
Context `{!FloatLib, !HashLib, !Bincode, !SignLib, !RangeProofLib, !TimeLib}.

(** ** Transactions *)

Definition validate_payload (p : TransactionPayload) : result GratiaError unit :=
  match p with
  | Transfer _ amount =>
      if decide (amount = 0) then invalid "Transfer amount cannot be zero" else Ok tt
  | ShieldedTransfer commitment range_proof _ =>
      if decide (commitment = []) then invalid "Shielded transfer missing commitment"
      else if decide (range_proof = []) then invalid "Shielded transfer missing range proof"
      else Ok tt
  | Stake amount | Unstake amount =>
      if decide (amount = 0) then invalid "Stake/unstake amount cannot be zero" else Ok tt
  | DeployContract bytecode _ =>
      if decide (bytecode = []) then invalid "Contract bytecode cannot be empty"
      else if decide (Z.of_nat (length bytecode) > MAX_CONTRACT_BYTECODE_SIZE) then
        invalid ("Contract bytecode " +:+ pretty (Z.of_nat (length bytecode))
                   +:+ " bytes exceeds maximum " +:+ pretty MAX_CONTRACT_BYTECODE_SIZE +:+ " bytes")
      else Ok tt
  | CallContract _ function _ gas_limit =>
      if decide (gas_limit = 0) then invalid "Contract call gas limit cannot be zero"
      else if decide (function = ""%string) then invalid "Contract call function name cannot be empty"
      else Ok tt
  | GovernanceProposal title description _ =>
      if decide (title = ""%string) then invalid "Governance proposal title cannot be empty"
      else if decide (description = ""%string) then
        invalid "Governance proposal description cannot be empty"
      else Ok tt
  | GovernanceVote _ _ => Ok tt
  | CreatePoll question options duration_secs _ =>
      if decide (question = ""%string) then invalid "Poll question cannot be empty"
      else if decide (Z.of_nat (length options) < 2) then invalid "Poll must have at least 2 options"
      else if decide (duration_secs = 0) then invalid "Poll duration cannot be zero"
      else Ok tt
  | PollVote _ _ => Ok tt
  end.

Definition validate_transaction (tx : Transaction) (min_fee : Lux) : result GratiaError unit :=
  match encode_payload (payload tx) with
  | Err e => Err (SerializationError e)
  | Ok payload_bytes =>
      let signable := payload_bytes ++ le_bytes 8 (nonce tx) ++ le_bytes 4 (chain_id tx)
                        ++ le_bytes 8 (fee tx) ++ le_bytes 8 (timestamp_millis (tx_timestamp tx)) in
      let?? _o := verify_signature (sender_pubkey tx) signable (tx_signature tx) in
      let computed_hash := sha256 (sender_pubkey tx ++ signable ++ tx_signature tx) in
      if decide (tx_hash tx <> computed_hash) then
        invalid ("Transaction hash mismatch: expected " +:+ hex_encode computed_hash +:+ ", got "
                   +:+ hex_encode (tx_hash tx))
      else if decide (fee tx < min_fee) then
        invalid ("Transaction fee " +:+ pretty (fee tx) +:+ " Lux below minimum " +:+ pretty min_fee
                   +:+ " Lux")
      else validate_payload (payload tx)
  end.

(** The loop over a [HashSet]: the first key seen twice. *)
Fixpoint first_duplicate (seen : gset (list Z)) (l : list (list Z)) : option (list Z) :=
  match l with
  | [] => None
  | h :: l => if decide (h ∈ seen) then Some h else first_duplicate ({[h]} ∪ seen) l
  end.

Fixpoint validate_each (i : Z) (l : list Transaction) (min_fee : Lux) : result GratiaError unit :=
  match l with
  | [] => Ok tt
  | tx :: l =>
      match validate_transaction tx min_fee with
      | Err e => invalid ("Transaction " +:+ pretty i +:+ " invalid: " +:+ display_error e)
      | Ok _ => validate_each (i + 1) l min_fee
      end
  end.

Definition validate_block_transactions (l : list Transaction) (min_fee : Lux) : result GratiaError unit :=
  if decide (Z.of_nat (length l) > MAX_TRANSACTIONS_PER_BLOCK) then
    invalid ("Block contains " +:+ pretty (Z.of_nat (length l)) +:+ " transactions, maximum is "
               +:+ pretty MAX_TRANSACTIONS_PER_BLOCK)
  else match first_duplicate ∅ (tx_hash <$> l) with
  | Some h => invalid ("Duplicate transaction hash: " +:+ hex_encode h)
  | None => validate_each 0 l min_fee
  end.

(** ** Headers *)

Definition validate_block_header (h : BlockHeader) (c : ValidationContext) (now : DateTime)
  : result GratiaError unit :=
  if decide (height h <> vc_current_height c) then
    invalid ("Block height " +:+ pretty (height h) +:+ " does not match expected "
               +:+ pretty (vc_current_height c))
  else if decide (parent_hash h <> vc_previous_block_hash c) then
    invalid ("Parent hash mismatch: expected " +:+ hex_encode (vc_previous_block_hash c) +:+ ", got "
               +:+ hex_encode (parent_hash h))
  else if negb (Committee.is_committee_member (vc_committee c) (producer h)) then
    invalid ("Block producer " +:+ hex_encode (producer h) +:+ " is not a committee member")
  else if decide (bh_timestamp h > now + duration_seconds 30) then
    invalid "Block timestamp is too far in the future"
  else if decide (bh_timestamp h < now - duration_seconds 60) then
    invalid ("Block timestamp " +:+ show_time (bh_timestamp h)
               +:+ " is more than 60 seconds behind current time " +:+ show_time now)
  else match vc_previous_block_timestamp c with
  | Some prev_ts =>
      if decide (bh_timestamp h < prev_ts) then
        invalid ("Block timestamp " +:+ show_time (bh_timestamp h)
                   +:+ " is before previous block timestamp " +:+ show_time prev_ts)
      else Ok tt
  | None => Ok tt
  end.

Definition validate_committee_parameters (size threshold network_size : Z) : result GratiaError unit :=
  let expected_tier := Committee.tier_for_network_size network_size in
  if decide (size <> tier_committee_size expected_tier) then
    invalid ("Committee size " +:+ pretty size +:+ " does not match expected "
               +:+ pretty (tier_committee_size expected_tier) +:+ " for network size "
               +:+ pretty network_size)
  else if decide (threshold <> tier_finality_threshold expected_tier) then
    invalid ("Finality threshold " +:+ pretty threshold +:+ " does not match expected "
               +:+ pretty (tier_finality_threshold expected_tier) +:+ " for committee size "
               +:+ pretty size)
  else Ok tt.

(** ** Attestations *)

Definition validate_attestation_zk_proof (a : ProofOfLifeAttestation) (t : PolThresholds)
  : result GratiaError unit :=
  if decide (zk_proof a = []) then Ok tt
  else match zk_commitments a with
  | None => Err (InvalidZkProof "attestation has zk_proof bytes but missing zk_commitments")
  | Some cs =>
      match Zk.verify_pol_proof (mkPolRangeProof (zk_proof a) cs 4 (epoch_day a)) t (epoch_day a) with
      | Err e => Err (InvalidZkProof
          ("PoL attestation ZK proof verification failed: " +:+ show_ZkError e))
      | Ok _ => Ok tt
      end
  end.

Fixpoint validate_proofs (i : Z) (l : list ProofOfLifeAttestation) (t : PolThresholds)
  : result GratiaError unit :=
  match l with
  | [] => Ok tt
  | a :: l =>
      match validate_attestation_zk_proof a t with
      | Err e => invalid ("Attestation " +:+ pretty i +:+ " ZK proof invalid: " +:+ display_error e)
      | Ok _ => validate_proofs (i + 1) l t
      end
  end.

Definition validate_block_attestations (l : list ProofOfLifeAttestation) (t : PolThresholds)
  : result GratiaError unit :=
  match first_duplicate ∅ (nullifier <$> l) with
  | Some n => invalid ("Duplicate attestation nullifier in block: " +:+ hex_encode n)
  | None => validate_proofs 0 l t
  end.

(** ** Blocks *)

Fixpoint validate_signers (c : ValidatorCommittee) (l : list ValidatorSignature) : result GratiaError unit :=
  match l with
  | [] => Ok tt
  | vs :: l =>
      if negb (Committee.is_committee_member c (validator vs)) then
        invalid ("Validator signature from non-committee member: " +:+ hex_encode (validator vs))
      else validate_signers c l
  end.

Definition validate_block (b : Block) (c : ValidationContext) (now : DateTime) : result GratiaError unit :=
  let?? _o := validate_block_header (bl_header b) c now in
  match encode_block b with
  | Err e => Err (SerializationError e)
  | Ok block_bytes =>
      if decide (Z.of_nat (length block_bytes) > vc_max_block_size c) then
        invalid ("Block size " +:+ pretty (Z.of_nat (length block_bytes)) +:+ " bytes exceeds maximum "
                   +:+ pretty (vc_max_block_size c) +:+ " bytes")
      else
        let?? _o := validate_block_transactions (transactions b) (vc_min_transaction_fee c) in
        let?? _o := validate_block_attestations (attestations b) (vc_pol_thresholds c) in
        let sig_count := Z.of_nat (length (validator_signatures b)) in
        if negb (Committee.has_finality (vc_committee c) sig_count) then
          Err (InsufficientSignatures sig_count Committee.FINALITY_THRESHOLD)
        else validate_signers (vc_committee c) (validator_signatures b)
  end.

(** ** The specification *)

(** The digest and the signature are right, the fee is paid and the payload is well formed. *)
Definition tx_valid (min_fee : Lux) (tx : Transaction) : Prop :=
  Mempool.authentic tx /\ min_fee <= fee tx /\ validate_payload (payload tx) = Ok tt.

Lemma validate_transaction_spec tx min_fee :
  validate_transaction tx min_fee = Ok tt <-> tx_valid min_fee tx.
Proof.
  unfold validate_transaction, tx_valid, Mempool.authentic, Mempool.compute_signable_bytes,
    Mempool.compute_tx_hash.
  destruct (encode_payload (payload tx)) as [pb|e].
  2: { split; [done|]. intros [(s & ? & _) _]. done. }
  cbv zeta. generalize (pb ++ le_bytes 8 (nonce tx) ++ le_bytes 4 (chain_id tx) ++ le_bytes 8 (fee tx)
                          ++ le_bytes 8 (timestamp_millis (tx_timestamp tx))).
  intros signable. destruct (verify_signature _ _ _) as [[]|e] eqn:Ev.
  2: { split; [done|]. intros [(s & [= <-] & _ & Hv) _]. congruence. }
  case_decide as Hh.
  { split; [done|]. intros [(s & [= <-] & ? & _) _]. done. }
  case_decide as Hf; [split; [done|]; intros (_ & ? & _); lia|].
  split.
  - intros Hp. split; [|split; [lia|done]]. by eexists.
  - by intros (_ & _ & ?).
Qed.

Lemma first_duplicate_spec seen l :
  first_duplicate seen l = None <-> NoDup l /\ (forall h, h ∈ l -> h ∉ seen).
Proof.
  revert seen. induction l as [|h l IH]; intros seen; cbn.
  - split; [|done]. intros _. split; [apply NoDup_nil_2|]. intros h Hh. by apply elem_of_nil in Hh.
  - rewrite NoDup_cons. case_decide as Hs.
    + split; [done|]. intros [_ Hn]. exfalso. apply (Hn h); [left|done].
    + rewrite IH. split.
      * intros [Hnd Hn]. split; [split; [|done]|].
        -- intros Hin. specialize (Hn h Hin). set_solver.
        -- intros k [->|Hk]%elem_of_cons; [done|]. specialize (Hn k Hk). set_solver.
      * intros [[Hh Hnd] Hn]. split; [done|]. intros k Hk. specialize (Hn k (list_elem_of_further _ _ _ Hk)).
        rewrite not_elem_of_union, not_elem_of_singleton. split; [by intros ->|done].
Qed.

Lemma no_duplicate l : first_duplicate ∅ l = None <-> NoDup l.
Proof. rewrite first_duplicate_spec. set_solver. Qed.

Lemma validate_each_spec i l min_fee : validate_each i l min_fee = Ok tt <-> Forall (tx_valid min_fee) l.
Proof.
  revert i. induction l as [|tx l IH]; intros i; cbn; [done|].
  rewrite Forall_cons, <-validate_transaction_spec.
  destruct (validate_transaction tx min_fee) as [[]|e]; [rewrite IH; tauto|]. by split; [|intros [? _]].
Qed.

Lemma validate_transactions_spec l min_fee :
  validate_block_transactions l min_fee = Ok tt
  <-> Z.of_nat (length l) <= MAX_TRANSACTIONS_PER_BLOCK /\ NoDup (tx_hash <$> l)
      /\ Forall (tx_valid min_fee) l.
Proof.
  unfold validate_block_transactions. case_decide; [split; [done|]; intros [? _]; lia|].
  rewrite <-no_duplicate. destruct (first_duplicate _ _) as [h|]; [by split; [|intros (_ & ? & _)]|].
  rewrite validate_each_spec. split; [|tauto]. split; [lia|done].
Qed.

Lemma validate_proofs_spec i l t :
  validate_proofs i l t = Ok tt <-> Forall (fun a => validate_attestation_zk_proof a t = Ok tt) l.
Proof.
  revert i. induction l as [|a l IH]; intros i; cbn; [done|]. rewrite Forall_cons.
  destruct (validate_attestation_zk_proof a t) as [[]|e]; [rewrite IH; tauto|]. by split; [|intros [? _]].
Qed.

Lemma validate_attestations_spec l t :
  validate_block_attestations l t = Ok tt
  <-> NoDup (nullifier <$> l) /\ Forall (fun a => validate_attestation_zk_proof a t = Ok tt) l.
Proof.
  unfold validate_block_attestations. rewrite <-no_duplicate.
  destruct (first_duplicate _ _) as [h|]; [by split; [|intros [? _]]|].
  rewrite validate_proofs_spec. tauto.
Qed.

Lemma validate_signers_spec c l :
  validate_signers c l = Ok tt
  <-> Forall (fun vs => Committee.is_committee_member c (validator vs) = true) l.
Proof.
  induction l as [|vs l IH]; cbn; [done|]. rewrite Forall_cons.
  destruct (Committee.is_committee_member c (validator vs)); cbn; [rewrite IH; tauto|].
  by split; [|intros [? _]].
Qed.

Record header_valid (h : BlockHeader) (c : ValidationContext) (now : DateTime) : Prop := {
  hv_height : height h = vc_current_height c;
  hv_parent : parent_hash h = vc_previous_block_hash c;
  hv_producer : Committee.is_committee_member (vc_committee c) (producer h) = true;
  hv_window : now - duration_seconds 60 <= bh_timestamp h <= now + duration_seconds 30;
  hv_monotone : forall prev, vc_previous_block_timestamp c = Some prev -> prev <= bh_timestamp h
}.

Lemma validate_header_spec h c now :
  validate_block_header h c now = Ok tt <-> header_valid h c now.
Proof.
  unfold validate_block_header. case_decide; [by split; [|intros []]|]. case_decide; [by split; [|intros []]|].
  destruct (Committee.is_committee_member _ _) eqn:Ep; cbn [negb].
  2: { split; [done|]. intros []. congruence. }
  case_decide; [split; [done|]; intros []; lia|]. case_decide; [split; [done|]; intros []; lia|].
  destruct (vc_previous_block_timestamp c) as [prev|] eqn:Et.
  - case_decide as Hlt.
    + split; [done|]. intros [_ _ _ _ Hm]. specialize (Hm prev Et). lia.
    + split; [|done]. intros _. split; [done|done|done|lia|]. intros p. rewrite Et. intros [= <-]. lia.
  - split; [|done]. intros _. split; [done|done|done|lia|]. intros p. by rewrite Et.
Qed.

(** The blocks that validation accepts. *)
Record block_valid (b : Block) (c : ValidationContext) (now : DateTime) : Prop := {
  bv_header : header_valid (bl_header b) c now;
  bv_size : exists d, encode_block b = Ok d /\ Z.of_nat (length d) <= vc_max_block_size c;
  bv_count : Z.of_nat (length (transactions b)) <= MAX_TRANSACTIONS_PER_BLOCK;
  bv_distinct : NoDup (tx_hash <$> transactions b);
  bv_transactions : Forall (tx_valid (vc_min_transaction_fee c)) (transactions b);
  bv_nullifiers : NoDup (nullifier <$> attestations b);
  bv_proofs : Forall (fun a => validate_attestation_zk_proof a (vc_pol_thresholds c) = Ok tt) (attestations b);
  bv_quorum : finality_threshold (vc_committee c) <= Z.of_nat (length (validator_signatures b));
  bv_signers : Forall (fun vs => Committee.is_committee_member (vc_committee c) (validator vs) = true)
                 (validator_signatures b)
}.

Lemma validate_block_iff b c now :
  validate_block b c now = Ok tt <-> block_valid b c now.
Proof.
  unfold validate_block. pose proof (validate_header_spec (bl_header b) c now) as Hh.
  destruct (validate_block_header _ _ _) as [[]|e].
  2: { split; [done|]. intros []. by apply Hh. }
  destruct (encode_block b) as [d|e] eqn:Ed.
  2: { split; [done|]. intros [_ (d & ? & _) _ _ _ _ _ _ _]. congruence. }
  case_decide as Hd.
  { split; [done|]. intros [_ (d' & E & ?) _ _ _ _ _ _ _]. rewrite Ed in E. injection E as <-. lia. }
  pose proof (validate_transactions_spec (transactions b) (vc_min_transaction_fee c)) as Ht.
  destruct (validate_block_transactions _ _) as [[]|e].
  2: { split; [done|]. intros []. by apply Ht. }
  pose proof (validate_attestations_spec (attestations b) (vc_pol_thresholds c)) as Ha.
  destruct (validate_block_attestations _ _) as [[]|e].
  2: { split; [done|]. intros []. by apply Ha. }
  unfold Committee.has_finality. case_bool_decide as Hq; cbn [negb].
  2: { split; [done|]. intros []. lia. }
  rewrite validate_signers_spec. split; [|by intros []].
  intros Hs. destruct Hh as [Hh _], Ht as [Ht _], Ha as [Ha _].
  destruct (Ht eq_refl) as (? & ? & ?), (Ha eq_refl) as [? ?]. split; try done.
  - by apply Hh.
  - exists d. split; [done|lia].
  - lia.
Qed.

(** C29: block validation is exact.  [validate_block] accepts a block if and only if its
    header extends the chain (height, parent, producer in the committee, clock window,
    monotone time), it fits the size and count limits, every transaction carries its right
    digest and signature, pays the minimum fee and has a well-formed payload, no digest and
    no nullifier occurs twice, the proofs of Proof of Life verify, and enough signatures,
    all of committee members, are attached. *)
Theorem block_validation_exact b c now :
  validate_block b c now = Ok tt <-> block_valid b c now.
Proof. apply validate_block_iff. Qed.

(** The block [b] with the transactions [l]. *)
Definition with_transactions (b : Block) (l : list Transaction) : Block :=
  mkBlock (bl_header b) l (attestations b) (validator_signatures b).

(** The header does not bind the body.  The roots in a header are never compared with
    the contents, and the signatures are not verified here: the transactions of a valid
    block can be replaced by any other valid list that fits, the header and the signatures
    staying as they are. *)
Theorem body_not_bound_by_header b c now l d :
  validate_block b c now = Ok tt ->
  Z.of_nat (length l) <= MAX_TRANSACTIONS_PER_BLOCK -> NoDup (tx_hash <$> l) ->
  Forall (tx_valid (vc_min_transaction_fee c)) l ->
  encode_block (with_transactions b l) = Ok d -> Z.of_nat (length d) <= vc_max_block_size c ->
  validate_block (with_transactions b l) c now = Ok tt
  /\ bl_header (with_transactions b l) = bl_header b
  /\ validator_signatures (with_transactions b l) = validator_signatures b.
Proof.
  intros Hb Hl Hnd Hv Hd Hsz. split; [|done].
  assert (block_valid (with_transactions b l) c now) as Hbv.
  { assert (block_valid b c now) as [] by (by apply validate_block_iff).
    split; try done. by exists d. }
  by apply validate_block_iff.
Qed.

End validation.
End Validation.
