(* ===== verification/Keystore.v ===== *)
(** * gratia-wallet: key storage

    [crates/gratia-wallet/src/keystore.rs]: the trait [Keystore] as a class with the
    specification the wallet is proved against, and its instances [SoftwareKeystore] and
    [FileKeystore].  The key [SigningKey::generate] draws, the random salt and nonce and
    the outcome of the file operations are arguments ([KeyEnv]); AES-GCM and JSON are the
    parameter [KeyCipher].

    Theorems: a file keystore that was told to store a key gives it back after a restart,
    and a failed write leaves the stored key as it was ([file_keystore_persists]); a file
    of the old XOR format is read and upgraded ([legacy_file_upgraded]). *)

From stdpp Require Import base tactics strings list gmap.
From Stdlib Require Import ZArith Lia.
From S2P Require Import Prelude CoreTypes ThirdParty Crypto.
Local Open Scope Z_scope.

(** The secret bytes of a signing key. *)
Class SecretLib `{!SignLib} := {
  sk_to_bytes : SigningKey -> bytes;
  sk_from_bytes : bytes -> SigningKey
}.

Record EncryptedKeyMaterial := mkEkm {
  ciphertext : bytes;
  salt : bytes;
  ekm_nonce : bytes;
  ekm_address : Address
}.

(** [ring::aead] with AES-256-GCM (key, nonce, associated data) and [serde_json]. *)
Class KeyCipher := {
  aead_seal : bytes -> bytes -> bytes -> bytes -> bytes;
  aead_open : bytes -> bytes -> bytes -> bytes -> option bytes;
  ekm_to_json : EncryptedKeyMaterial -> result string bytes;
  ekm_from_json : bytes -> option EncryptedKeyMaterial
}.

(** What a call draws at random and how its file operations end ([None]: success); a failed
    write also says what it left in the file it was writing, if it touched it. *)
Record KeyEnv `{!SignLib} := mkKeyEnv {
  rng_key : SigningKey;
  rng_salt : bytes;
  rng_nonce : bytes;
  io_create_dir : option string;
  io_write : option (string * option bytes);
  io_rename : option string;
  io_remove : option string
}.

Class Keystore `{!SignLib} (K : Type) := {
  generate_keypair : KeyEnv -> K -> K * result GratiaError bytes;
  sign : K -> bytes -> result GratiaError bytes;
  public_key_bytes : K -> result GratiaError bytes;
  has_keypair : K -> bool;
  export_secret_key : K -> result GratiaError bytes;
  import_secret_key : KeyEnv -> K -> bytes -> K * result GratiaError bytes
}.

(** What the wallet relies on: a keystore holds at most one key, signs with it and keeps
    it when storing another one fails. *)
Class KeystoreSpec `{!SignLib} (K : Type) `{!Keystore K} := {
  stored_key : K -> option SigningKey;
  spec_has k : has_keypair k = bool_decide (is_Some (stored_key k));
  spec_sign k m :
    sign k m = match stored_key k with Some sk => Ok (ed25519_sign sk m) | None => Err WalletLocked end;
  spec_public k :
    public_key_bytes k
    = match stored_key k with Some sk => Ok (vk_to_bytes (vk_of sk)) | None => Err WalletLocked end;
  spec_generate env k :
    match generate_keypair env k with
    | (k', Ok pk) => stored_key k' = Some (rng_key env) /\ pk = vk_to_bytes (vk_of (rng_key env))
    | (k', Err _) => stored_key k' = stored_key k
    end;
  spec_import env k secret :
    match import_secret_key env k secret with
    | (k', Ok pk) => exists sk, stored_key k' = Some sk /\ pk = vk_to_bytes (vk_of sk)
    | (k', Err _) => stored_key k' = stored_key k
    end
}.

Definition option_key {A} (o : option A) : result GratiaError A := ok_or o WalletLocked.

Module Keystore.

Section derivation.
Context `{!HashLib, !SignLib}.

(** [Address::from_public_key] and [NodeId::from_public_key] *)
Definition address_of_key (vk : VerifyingKey) : Address :=
  sha256 (str_bytes "gratia-address-v1:" ++ vk_to_bytes vk).
Definition node_id_of_key (vk : VerifyingKey) : NodeId :=
  sha256 (str_bytes "gratia-node-id-v1:" ++ vk_to_bytes vk).

Definition parse_key (pubkey : bytes) : result GratiaError VerifyingKey :=
  if decide (length pubkey <> 32%nat) then Err InvalidSignature
  else ok_or (vk_from_bytes pubkey) InvalidSignature.

Definition address_from_pubkey_bytes (pubkey : bytes) : result GratiaError Address :=
  let?? vk := parse_key pubkey in Ok (address_of_key vk).

Definition node_id_from_pubkey_bytes (pubkey : bytes) : result GratiaError NodeId :=
  let?? vk := parse_key pubkey in Ok (node_id_of_key vk).
End derivation.
End Keystore.

(** ** SoftwareKeystore *)

Record SoftwareKeystore `{!SignLib} := mkSoftware { sw_key : option SigningKey }.

Module Software.
Section software.
Context `{!SignLib, !SecretLib}.

Definition new : SoftwareKeystore := mkSoftware _ None.

Definition generate (env : KeyEnv) (k : SoftwareKeystore) : SoftwareKeystore * result GratiaError bytes :=
  (mkSoftware _ (Some (rng_key env)), Ok (vk_to_bytes (vk_of (rng_key env)))).

Definition sign (k : SoftwareKeystore) (message : bytes) : result GratiaError bytes :=
  let?? key := option_key (sw_key k) in Ok (ed25519_sign key message).

Definition public_key (k : SoftwareKeystore) : result GratiaError bytes :=
  let?? key := option_key (sw_key k) in Ok (vk_to_bytes (vk_of key)).

Definition has (k : SoftwareKeystore) : bool := bool_decide (is_Some (sw_key k)).

Definition export (k : SoftwareKeystore) : result GratiaError bytes :=
  let?? key := option_key (sw_key k) in Ok (sk_to_bytes key).

Definition import (env : KeyEnv) (k : SoftwareKeystore) (secret : bytes)
  : SoftwareKeystore * result GratiaError bytes :=
  if decide (length secret <> 32%nat) then (k, Err (Other "secret key must be exactly 32 bytes"))
  else
    let key := sk_from_bytes secret in
    (mkSoftware _ (Some key), Ok (vk_to_bytes (vk_of key))).

#[export] Instance keystore : Keystore SoftwareKeystore := {
  generate_keypair := generate;
  sign := sign;
  public_key_bytes := public_key;
  has_keypair := has;
  export_secret_key := export;
  import_secret_key := import
}.

#[export] Instance keystore_spec : KeystoreSpec SoftwareKeystore.
Proof.
  refine {| stored_key := sw_key |}.
  - done.
  - intros k m. cbn. unfold sign. by destruct (sw_key k).
  - intros k. cbn. unfold public_key. by destruct (sw_key k).
  - done.
  - intros env k secret. cbn. unfold import. case_decide; [done|]. by eexists.
Defined.
End software.
End Software.

(** ** FileKeystore *)

(** The keystore with the files of its directory. *)
Record FileKeystore `{!SignLib} := mkFileKeystore {
  fk_key : option SigningKey;
  key_path : string;
  fk_disk : gmap string bytes
}.

Module File.

Section file.
Context `{!HashLib, !SignLib, !SecretLib, !KeyCipher}.

Definition AAD : bytes := str_bytes "gratia-wallet-v2".

Definition derive_encryption_key (salt : bytes) : bytes :=
  sha256 (str_bytes "gratia-keystore-v1" ++ salt).

Definition encrypt_key_material (env : KeyEnv) (secret : bytes) (address : Address)
  : EncryptedKeyMaterial :=
  mkEkm (aead_seal (derive_encryption_key (rng_salt env)) (rng_nonce env) AAD secret)
    (rng_salt env) (rng_nonce env) address.

Definition decrypt_key_material_legacy (e : EncryptedKeyMaterial) : result GratiaError bytes :=
  if decide (length (ciphertext e) <> 32%nat) then Err (Other "invalid legacy ciphertext length")
  else
    let keystream := sha256 (derive_encryption_key (salt e) ++ ekm_nonce e) in
    Ok (zip_with Z.lxor (ciphertext e) keystream).

Definition decrypt_key_material (e : EncryptedKeyMaterial) : result GratiaError bytes :=
  if decide (length (ciphertext e) <> 48%nat) then
    if decide (length (ciphertext e) = 32%nat) then decrypt_key_material_legacy e
    else Err (Other "invalid ciphertext length")
  else if decide (length (ekm_nonce e) <> 12%nat) then Err (Other "invalid nonce length")
  else match aead_open (derive_encryption_key (salt e)) (ekm_nonce e) AAD (ciphertext e) with
  | Some plaintext => Ok plaintext
  | None => Err (Other "keystore file corrupted or tampered: AES-GCM authentication failed")
  end.

Definition tmp_path (path : string) : string := path +:+ ".tmp".

Definition save_key (env : KeyEnv) (disk : gmap string bytes) (path : string) (key : SigningKey)
  : gmap string bytes * result GratiaError unit :=
  match io_create_dir env with
  | Some e => (disk, Err (Other ("failed to create key directory: " +:+ e)))
  | None =>
      let address := Keystore.address_of_key (vk_of key) in
      let ekm := encrypt_key_material env (sk_to_bytes key) address in
      match ekm_to_json ekm with
      | Err e => (disk, Err (Other ("failed to serialize encrypted key: " +:+ e)))
      | Ok json =>
          match io_write env with
          | Some (e, rest) =>
              (from_option (fun b => <[tmp_path path := b]> disk) disk rest,
               Err (Other ("failed to write temp key file: " +:+ e)))
          | None =>
              let disk := <[tmp_path path := json]> disk in
              match io_rename env with
              | Some e =>
                  ((if decide (io_remove env = None) then delete (tmp_path path) disk else disk),
                   Err (Other ("failed to rename temp key file: " +:+ e)))
              | None => (<[path := json]> (delete (tmp_path path) disk), Ok tt)
              end
          end
      end
  end.

Definition load_encrypted_key (file : bytes) : option (SigningKey * bool) :=
  match ekm_from_json file with
  | None => None
  | Some e =>
      let is_legacy := bool_decide (length (ciphertext e) = 32%nat) in
      match decrypt_key_material e with
      | Err _ => None
      | Ok d => if decide (length d <> 32%nat) then None else Some (sk_from_bytes d, is_legacy)
      end
  end.

(** [debug] is [cfg(debug_assertions)]. *)
Definition load_key (debug : bool) (env : KeyEnv) (disk : gmap string bytes) (path : string)
  : gmap string bytes * option SigningKey :=
  match disk !! path with
  | None => (disk, None)
  | Some file =>
      match load_encrypted_key file with
      | Some (key, needs_upgrade) =>
          ((if needs_upgrade : bool then (save_key env disk path key).1 else disk), Some key)
      | None =>
          if debug && bool_decide (length file = 32%nat) then (disk, Some (sk_from_bytes file))
          else (disk, None)
      end
  end.

Definition new (debug : bool) (env : KeyEnv) (disk : gmap string bytes) (data_dir : string) : FileKeystore :=
  let path := data_dir +:+ "/wallet_key.bin" in
  let '(disk, key) := load_key debug env disk path in
  mkFileKeystore _ key path disk.

(** Saving, then keeping the key: the common part of generating and importing. *)
Definition store_key (env : KeyEnv) (k : FileKeystore) (key : SigningKey)
  : FileKeystore * result GratiaError bytes :=
  let pubkey := vk_to_bytes (vk_of key) in
  let '(disk, r) := save_key env (fk_disk k) (key_path k) key in
  match r with
  | Err e => (mkFileKeystore _ (fk_key k) (key_path k) disk, Err e)
  | Ok _ => (mkFileKeystore _ (Some key) (key_path k) disk, Ok pubkey)
  end.

Definition generate (env : KeyEnv) (k : FileKeystore) : FileKeystore * result GratiaError bytes :=
  store_key env k (rng_key env).

Definition sign (k : FileKeystore) (message : bytes) : result GratiaError bytes :=
  let?? key := option_key (fk_key k) in Ok (ed25519_sign key message).

Definition public_key (k : FileKeystore) : result GratiaError bytes :=
  let?? key := option_key (fk_key k) in Ok (vk_to_bytes (vk_of key)).

Definition has (k : FileKeystore) : bool := bool_decide (is_Some (fk_key k)).

Definition export (k : FileKeystore) : result GratiaError bytes :=
  let?? key := option_key (fk_key k) in Ok (sk_to_bytes key).

Definition import (env : KeyEnv) (k : FileKeystore) (secret : bytes)
  : FileKeystore * result GratiaError bytes :=
  if decide (length secret <> 32%nat) then (k, Err (Other "secret key must be exactly 32 bytes"))
  else store_key env k (sk_from_bytes secret).

#[export] Instance keystore : Keystore FileKeystore := {
  generate_keypair := generate;
  sign := sign;
  public_key_bytes := public_key;
  has_keypair := has;
  export_secret_key := export;
  import_secret_key := import
}.

Lemma store_key_spec env k key :
  match store_key env k key with
  | (k', Ok pk) => fk_key k' = Some key /\ pk = vk_to_bytes (vk_of key)
  | (k', Err _) => fk_key k' = fk_key k
  end.
Proof. unfold store_key. by destruct (save_key _ _ _ _) as [disk [[]|e]]. Qed.

#[export] Instance keystore_spec : KeystoreSpec FileKeystore.
Proof.
  refine {| stored_key := fk_key |}.
  - done.
  - intros k m. cbn. unfold sign. by destruct (fk_key k).
  - intros k. cbn. unfold public_key. by destruct (fk_key k).
  - intros env k. apply store_key_spec.
  - intros env k secret. cbn. unfold import. case_decide; [done|].
    pose proof (store_key_spec env k (sk_from_bytes secret)) as Hs.
    destruct (store_key _ _ _) as [k' [pk|e]]; [by eexists|done].
Defined.

(** ** Persistence *)

(** The documented behaviour of the crates: a sealed text is 16 bytes longer and opens
    with the same key, nonce and data, JSON reads back what it wrote, and a signing key is
    its 32 bytes. *)
Class CipherLaws : Prop := {
  open_seal key n aad p : aead_open key n aad (aead_seal key n aad p) = Some p;
  seal_length key n aad p : length (aead_seal key n aad p) = (length p + 16)%nat;
  json_back e j : ekm_to_json e = Ok j -> ekm_from_json j = Some e;
  secret_length sk : length (sk_to_bytes sk) = 32%nat;
  secret_back sk : sk_from_bytes (sk_to_bytes sk) = sk
}.
Context `{!CipherLaws}.

Lemma saved_file_loads env disk path key disk' :
  length (rng_nonce env) = 12%nat -> save_key env disk path key = (disk', Ok tt) ->
  exists file, disk' !! path = Some file /\ load_encrypted_key file = Some (key, false).
Proof.
  intros Hn. unfold save_key. destruct (io_create_dir env); [done|].
  destruct (ekm_to_json _) as [j|] eqn:Ej; [|done]. destruct (io_write env) as [[]|]; [done|].
  destruct (io_rename env); [done|]. intros [= <-]. exists j. split; [apply lookup_insert_eq|].
  unfold load_encrypted_key. rewrite (json_back _ _ Ej). unfold decrypt_key_material.
  cbn [ciphertext encrypt_key_material salt ekm_nonce].
  assert (length (aead_seal (derive_encryption_key (rng_salt env)) (rng_nonce env) AAD (sk_to_bytes key)) = 48%nat)
    as Hl by (by rewrite seal_length, secret_length).
  rewrite decide_False by lia. rewrite decide_False by lia. rewrite open_seal.
  rewrite decide_False by (rewrite secret_length; lia).
  rewrite secret_back, bool_decide_eq_false_2 by lia. done.
Qed.

Lemma tmp_path_fresh path : tmp_path path <> path.
Proof. unfold tmp_path. induction path as [|c path IH]; [done|]. intros [= Hx]. by apply IH. Qed.

(** A failed save touches nothing but the temporary file. *)
Lemma failed_save env disk path key disk' e :
  save_key env disk path key = (disk', Err e) -> delete (tmp_path path) disk' = delete (tmp_path path) disk.
Proof.
  unfold save_key. destruct (io_create_dir env); [by intros [= <- _]|].
  destruct (ekm_to_json _) as [json|]; [|by intros [= <- _]].
  destruct (io_write env) as [[x rest]|]; [|destruct (io_rename env); [|done]]; intros [= <- _].
  - destruct rest; cbn; [apply delete_insert_eq|done].
  - case_decide; rewrite ?delete_delete_eq; apply delete_insert_eq.
Qed.

(** What a start finds depends on the key file only. *)
Lemma load_key_file debug env disk disk' path :
  disk' !! path = disk !! path -> (load_key debug env disk' path).2 = (load_key debug env disk path).2.
Proof. intros Hf. unfold load_key. rewrite Hf. repeat case_match; done. Qed.

Lemma new_key debug env disk dir :
  fk_key (new debug env disk dir) = (load_key debug env disk (dir +:+ "/wallet_key.bin")).2.
Proof. unfold new. by destruct (load_key _ _ _ _). Qed.

(** The two ways to put a key in the keystore: a fresh one, or an imported secret. *)
Definition put_key (env : KeyEnv) (k : FileKeystore) (secret : option bytes)
  : FileKeystore * result GratiaError bytes :=
  match secret with None => generate_keypair env k | Some s => import_secret_key env k s end.

Definition new_key_of (env : KeyEnv) (secret : option bytes) : SigningKey :=
  match secret with None => rng_key env | Some s => sk_from_bytes s end.

(** The keystore did not change, the temporary file apart. *)
Definition same_keys (k k' : FileKeystore) : Prop :=
  fk_key k' = fk_key k /\ key_path k' = key_path k
  /\ delete (tmp_path (key_path k)) (fk_disk k') = delete (tmp_path (key_path k)) (fk_disk k).

Lemma same_keys_restart debug env k k' dir :
  key_path k = (dir +:+ "/wallet_key.bin")%string -> same_keys k k' ->
  fk_key (new debug env (fk_disk k') dir) = fk_key (new debug env (fk_disk k) dir).
Proof.
  intros Hp (_ & _ & Hd). rewrite !new_key, <- Hp. apply load_key_file.
  rewrite <- (lookup_delete_ne (fk_disk k') (tmp_path (key_path k)) (key_path k)), Hd by apply tmp_path_fresh.
  by apply lookup_delete_ne, tmp_path_fresh.
Qed.

Lemma store_key_persists debug env env' k dir key :
  key_path k = (dir +:+ "/wallet_key.bin")%string -> length (rng_nonce env) = 12%nat ->
  match store_key env k key with
  | (k', Ok pk) =>
      new debug env' (fk_disk k') dir = k' /\ fk_key k' = Some key /\ public_key k' = Ok pk
  | (k', Err _) => same_keys k k'
  end.
Proof.
  intros Hp Hn. unfold store_key.
  destruct (save_key env (fk_disk k) (key_path k) key) as [disk r] eqn:E. destruct r as [[]|e].
  - destruct (saved_file_loads _ _ _ _ _ Hn E) as (file & Hf & Hl). split; [|done].
    unfold new, load_key. cbn [fk_disk]. rewrite <-Hp, Hf, Hl. done.
  - split; [done|]. split; [done|]. by eapply failed_save.
Qed.

(** C28: a stored wallet key survives a restart.  When generating or importing a key
    succeeds, a keystore opened later on the same directory (in release and debug builds)
    holds that key and leaves the files as they are; when it fails, at whatever file
    operation, the key in memory, every file but the temporary one, and the key a restart
    loads are the ones from before. *)
Theorem file_keystore_persists debug env env' k dir secret :
  key_path k = (dir +:+ "/wallet_key.bin")%string -> length (rng_nonce env) = 12%nat ->
  match put_key env k secret with
  | (k', Ok pk) =>
      new debug env' (fk_disk k') dir = k' /\ stored_key k' = Some (new_key_of env secret)
      /\ public_key_bytes k' = Ok pk
  | (k', Err _) =>
      same_keys k k' /\ stored_key (new debug env' (fk_disk k') dir) = stored_key (new debug env' (fk_disk k) dir)
  end.
Proof.
  intros Hp Hn.
  assert (Hs : forall key, match store_key env k key with
    | (k', Ok pk) => new debug env' (fk_disk k') dir = k' /\ fk_key k' = Some key /\ public_key k' = Ok pk
    | (k', Err _) => same_keys k k' /\ fk_key (new debug env' (fk_disk k') dir) = fk_key (new debug env' (fk_disk k) dir)
    end).
  { intros key. pose proof (store_key_persists debug env env' k dir key Hp Hn) as Hs.
    destruct (store_key env k key) as [k' [pk|e]]; [done|]. split; [done|]. by apply same_keys_restart. }
  destruct secret as [secret|]; cbn; [|apply Hs]. unfold import. case_decide; [|apply Hs]. by repeat split.
Qed.

(** A file of the old format: the key XORed with a stream derived from salt and nonce. *)
Definition legacy_file (key : SigningKey) (e : EncryptedKeyMaterial) : Prop :=
  length (ciphertext e) = 32%nat
  /\ zip_with Z.lxor (ciphertext e) (sha256 (derive_encryption_key (salt e) ++ ekm_nonce e))
     = sk_to_bytes key.

Lemma legacy_loads key e file :
  ekm_from_json file = Some e -> legacy_file key e -> load_encrypted_key file = Some (key, true).
Proof.
  intros Hj [Hl Hx]. unfold load_encrypted_key. rewrite Hj. unfold decrypt_key_material.
  rewrite decide_True by lia. rewrite decide_True by done. unfold decrypt_key_material_legacy.
  rewrite decide_False by (by intros []). rewrite Hx. rewrite decide_False by (rewrite secret_length; by intros []).
  by rewrite secret_back, bool_decide_eq_true_2.
Qed.

(** A key file of the old XOR format is read, and upgraded when the directory can be
    written: the keystore then holds the same key, and the file is of the authenticated
    format, which a restart reads without touching it again. *)
Theorem legacy_file_upgraded debug env env' disk dir key e file :
  disk !! (dir +:+ "/wallet_key.bin")%string = Some file -> ekm_from_json file = Some e ->
  legacy_file key e -> length (rng_nonce env) = 12%nat ->
  let k := new debug env disk dir in
  stored_key k = Some key
  /\ ((save_key env disk (key_path k) key).2 = Ok tt -> new debug env' (fk_disk k) dir = k).
Proof.
  intros Hf Hj Hleg Hn. cbv zeta. unfold new, load_key. rewrite Hf.
  rewrite (legacy_loads key e file Hj Hleg). cbn [key_path fk_disk]. split; [done|].
  destruct (save_key env disk _ key) as [disk' r] eqn:E. cbn [fst snd]. intros ->.
  destruct (saved_file_loads _ _ _ _ _ Hn E) as (file' & Hf' & Hl').
  rewrite Hf', Hl'. done.
Qed.
End file.
End File.
