(* ===== verification/Recovery.v ===== *)
(** * gratia-wallet: recovery

    [crates/gratia-wallet/src/recovery.rs]: recovery claims as a state machine, seed
    phrases and the inheritance switch.  [Utc::now()] is an argument; BIP39 is the
    parameter [MnemonicLib]; the zeroing of dropped secrets is not modelled.

    Theorems: a claim is only verified after at least seven days of data with a match of
    80% at the end, the owner can reject it at any moment before that, and an outcome is
    final ([recovery_sound]). *)

From stdpp Require Import base tactics strings pretty list relations.
From Stdlib Require Import ZArith Lia.
From S2P Require Import Prelude CoreTypes ThirdParty Crypto.
Local Open Scope Z_scope.

Inductive RejectionReason :=
| OwnerRejected
| InsufficientBehavioralMatch (confidence required : Z)
| Expired.

Inductive RecoveryState :=
| NewClaim (claimant_address : Address) (claimed_at : DateTime)
| Pending (claimant_address : Address) (claimed_at : DateTime) (match_confidence days_collected : Z)
| Verified (claimant_address : Address) (verified_at : DateTime)
| Rejected (claimant_address : Address) (rejected_at : DateTime) (reason : RejectionReason).

Record RecoveryClaim := mkClaim {
  wallet_address : Address;
  claim_state : RecoveryState
}.

Record SeedPhrase := mkSeedPhrase { entropy : bytes }.

Record InheritanceConfig := mkInheritance {
  beneficiary : Address;
  designated_at : DateTime;
  timeout_days : Z;
  last_proof_of_life : DateTime
}.

(** [bip39::Mnemonic] and [hex::decode]. *)
Class MnemonicLib := {
  words_of_entropy : bytes -> result string string;
  entropy_of_words : string -> result string bytes;
  hex_decode : string -> result string bytes
}.

Module Recovery.

Definition RECOVERY_MATCH_THRESHOLD : Z := 80.
Definition MIN_RECOVERY_DAYS : Z := 7.
Definition MAX_RECOVERY_DAYS : Z := 14.

(** ** Claims *)

Definition new (wallet claimant : Address) (now : DateTime) : RecoveryClaim :=
  mkClaim wallet (NewClaim claimant now).

Definition update_behavioral_match (c : RecoveryClaim) (confidence days : Z) (now : DateTime)
  : RecoveryClaim * result GratiaError unit :=
  let new_confidence := Z.min confidence 100 in
  let become s := (mkClaim (wallet_address c) s, Ok tt) in
  match claim_state c with
  | NewClaim claimant claimed_at => become (Pending claimant claimed_at new_confidence days)
  | Pending claimant claimed_at _ prev_days =>
      if decide (days < prev_days) then
        (c, Err (Other ("days_collected must be monotonically increasing: " +:+ pretty days +:+ " < "
                          +:+ pretty prev_days)))
      else if decide (new_confidence >= RECOVERY_MATCH_THRESHOLD /\ days >= MIN_RECOVERY_DAYS) then
        become (Verified claimant now)
      else if decide (days >= MAX_RECOVERY_DAYS) then
        become (Rejected claimant now
                  (InsufficientBehavioralMatch new_confidence RECOVERY_MATCH_THRESHOLD))
      else become (Pending claimant claimed_at new_confidence days)
  | Verified _ _ | Rejected _ _ _ => (c, Err (Other "cannot update a finalized recovery claim"))
  end.

Definition owner_reject (c : RecoveryClaim) (now : DateTime) : RecoveryClaim * result GratiaError unit :=
  match claim_state c with
  | NewClaim claimant _ | Pending claimant _ _ _ =>
      (mkClaim (wallet_address c) (Rejected claimant now OwnerRejected), Ok tt)
  | Verified _ _ => (c, Err (Other "cannot reject an already-verified claim"))
  | Rejected _ _ _ => (c, Err (Other "claim is already rejected"))
  end.

Definition is_finalized (c : RecoveryClaim) : bool :=
  match claim_state c with Verified _ _ | Rejected _ _ _ => true | _ => false end.

Definition wallet_is_frozen (c : RecoveryClaim) : bool :=
  match claim_state c with NewClaim _ _ | Pending _ _ _ _ => true | _ => false end.

(** ** Seed phrases *)

Section seed.
Context `{!HashLib, !MnemonicLib}.

Definition from_secret_key (secret : bytes) : result GratiaError SeedPhrase :=
  if decide (length secret <> 32%nat) then Err (Other "secret key must be exactly 32 bytes")
  else Ok (mkSeedPhrase secret).

Definition to_secret_key_bytes (p : SeedPhrase) : bytes := entropy p.
Definition to_hex (p : SeedPhrase) : string := hex_encode (entropy p).

Definition from_hex (s : string) : result GratiaError SeedPhrase :=
  match hex_decode s with
  | Err e => Err (Other ("invalid hex seed phrase: " +:+ e))
  | Ok b => from_secret_key b
  end.

Definition to_words (p : SeedPhrase) : result GratiaError string :=
  match words_of_entropy (entropy p) with
  | Err e => Err (Other ("failed to generate mnemonic: " +:+ e))
  | Ok w => Ok w
  end.

Definition from_words (phrase : string) : result GratiaError SeedPhrase :=
  match entropy_of_words phrase with
  | Err e => Err (Other ("invalid seed phrase: " +:+ e))
  | Ok e =>
      if decide (length e <> 32%nat) then
        Err (Other "seed phrase must encode exactly 256 bits (24 words)")
      else Ok (mkSeedPhrase e)
  end.
End seed.

(** ** Inheritance *)

Definition DEFAULT_INHERITANCE_TIMEOUT_DAYS : Z := 365.
Definition days (n : Z) : Duration := duration_seconds (n * 86400).
Definition num_days (d : Duration) : Z := Z.quot d (86400 * NANOS).

Definition new_inheritance (to : Address) (now : DateTime) : InheritanceConfig :=
  mkInheritance to now DEFAULT_INHERITANCE_TIMEOUT_DAYS now.

Definition with_timeout (to : Address) (timeout : Z) (now : DateTime)
  : result GratiaError InheritanceConfig :=
  if decide (timeout < 30) then Err (Other "inheritance timeout must be at least 30 days")
  else let c := new_inheritance to now in
       Ok (mkInheritance (beneficiary c) (designated_at c) timeout (last_proof_of_life c)).

Definition record_proof_of_life (c : InheritanceConfig) (now : DateTime) : InheritanceConfig :=
  mkInheritance (beneficiary c) (designated_at c) (timeout_days c) now.

Definition is_triggered (c : InheritanceConfig) (now : DateTime) : bool :=
  bool_decide (now > last_proof_of_life c + days (timeout_days c)).

Definition days_remaining (c : InheritanceConfig) (now : DateTime) : Z :=
  let remaining := last_proof_of_life c + days (timeout_days c) - now in
  if decide (num_days remaining < 0) then 0 else wrap 32 (num_days remaining).

(** The switch triggers exactly when the timeout has passed since the last proof: a proof
    of life always disarms it for the whole timeout. *)
Lemma proof_disarms c now t :
  0 <= timeout_days c -> t <= now + days (timeout_days c) ->
  is_triggered (record_proof_of_life c now) t = false.
Proof. intros Hd Ht. apply bool_decide_eq_false. cbn. lia. Qed.

Lemma triggered_no_days c now : is_triggered c now = true -> days_remaining c now = 0.
Proof.
  unfold is_triggered, days_remaining, num_days, NANOS. rewrite bool_decide_eq_true. intros Ht. cbv zeta.
  set (r := _ - now). assert (r < 0) by lia. case_decide as Hn; [done|].
  assert (Z.quot r (86400 * 1000000000) = 0) as ->; [|done].
  pose proof (Z.quot_le_mono r 0 (86400 * 1000000000)). rewrite Z.quot_0_l in H0 by lia. lia.
Qed.

(** ** The claim as a state machine *)

(** One call on a claim, by the claimant's device or by the owner. *)
Inductive claim_step : RecoveryState -> RecoveryState -> Prop :=
| step_update s confidence n now s' w :
    update_behavioral_match (mkClaim w s) confidence n now = (mkClaim w s', Ok tt) -> claim_step s s'
| step_reject s now s' w :
    owner_reject (mkClaim w s) now = (mkClaim w s', Ok tt) -> claim_step s s'.

Definition outcome (s : RecoveryState) : Prop :=
  match s with Verified _ _ | Rejected _ _ _ => True | _ => False end.

Definition claimant_of (s : RecoveryState) : Address :=
  match s with NewClaim a _ | Pending a _ _ _ | Verified a _ | Rejected a _ _ => a end.

(** The states a claim of [a] made at [t] can be in. *)
Definition shape (a : Address) (t : DateTime) (s : RecoveryState) : Prop :=
  match s with
  | NewClaim b u | Pending b u _ _ => b = a /\ u = t
  | Verified b _ | Rejected b _ _ => b = a
  end.

Lemma step_from_active s s' : claim_step s s' -> ~ outcome s.
Proof. destruct 1 as [s0 conf n now s1 w E|s0 now s1 w E]; intros Ho; destruct s0; cbn in *; done. Qed.

Lemma step_shape a t s s' : shape a t s -> claim_step s s' -> shape a t s'.
Proof.
  intros Hs Hst. revert Hs. destruct Hst as [s0 conf n now s1 w E|s0 now s1 w E]; intros Hs.
  - unfold update_behavioral_match in E. cbn [claim_state wallet_address] in E.
    destruct s0; cbn in Hs; [|repeat case_decide|..]; try done; injection E as <-; cbn; tauto.
  - unfold owner_reject in E. cbn [claim_state wallet_address] in E. destruct s0; try done; injection E as <-; cbn in *; tauto.
Qed.

Lemma reachable_shape a t s : rtc claim_step (NewClaim a t) s -> shape a t s.
Proof.
  intros Hr. remember (NewClaim a t) as s0 eqn:E. assert (shape a t s0) as Hs by (by subst).
  clear E. induction Hr; eauto using step_shape.
Qed.

(** The only step to [Verified]. *)
Lemma verified_step s b v :
  claim_step s (Verified b v) ->
  exists t prev_conf prev conf n w,
    s = Pending b t prev_conf prev /\ prev <= n /\ MIN_RECOVERY_DAYS <= n
    /\ RECOVERY_MATCH_THRESHOLD <= Z.min conf 100
    /\ update_behavioral_match (mkClaim w s) conf n v = (mkClaim w (Verified b v), Ok tt).
Proof.
  intros Hst. inversion Hst as [s0 conf n now s1 w E|s0 now s1 w E]; subst.
  - pose proof E as E'. unfold update_behavioral_match in E. cbn [claim_state wallet_address] in E.
    destruct s as [a t|a t c0 n0|a u|a u r]; [done| |done|done].
    case_decide; [done|]. case_decide as Hv; [|by case_decide].
    injection E as -> ->. exists t, c0, n0, conf, n, w. split; [done|].
    split; [lia|]. split; [lia|]. split; [lia|done].
  - unfold owner_reject in E. cbn [claim_state wallet_address] in E. by destruct s.
Qed.

(** C27: recovery of a wallet, over every sequence of updates and rejections.  The claimant
    never changes; a claim becomes [Verified] only from [Pending], by an update with a match
    of at least 80% after at least seven days, never on the first update; an outcome is
    final; and as long as there is none the wallet is frozen and the owner's rejection
    succeeds at once. *)
Theorem recovery_sound a t s :
  rtc claim_step (NewClaim a t) s ->
  claimant_of s = a
  /\ (outcome s -> forall s', ~ claim_step s s')
  /\ (~ outcome s -> forall w now,
        wallet_is_frozen (mkClaim w s) = true
        /\ owner_reject (mkClaim w s) now = (mkClaim w (Rejected a now OwnerRejected), Ok tt))
  /\ (forall b v, s = Verified b v ->
        exists prev_conf prev conf n w,
          rtc claim_step (NewClaim a t) (Pending a t prev_conf prev)
          /\ prev <= n /\ MIN_RECOVERY_DAYS <= n /\ RECOVERY_MATCH_THRESHOLD <= Z.min conf 100
          /\ update_behavioral_match (mkClaim w (Pending a t prev_conf prev)) conf n v = (mkClaim w s, Ok tt)).
Proof.
  intros Hr. pose proof (reachable_shape a t s Hr) as Hs. split; [|split; [|split]].
  - by destruct s; cbn in Hs; [destruct Hs as [-> _]|destruct Hs as [-> _]|subst|subst].
  - intros Ho s' Hst. by apply (step_from_active s s').
  - intros Hn w now. destruct s; cbn in Hn, Hs; [destruct Hs as [-> _]; done..|tauto|tauto].
  - intros b v ->. apply rtc_inv_r in Hr as [E|(y & Hy & Hst)]; [done|].
    destruct (verified_step _ _ _ Hst) as (u & c0 & n0 & conf & n & w & -> & ? & ? & ? & E).
    destruct (reachable_shape a t _ Hy) as [-> ->]. by exists c0, n0, conf, n, w.
Qed.

Definition a_wallet : Address := replicate 32 1.
Definition thief : Address := replicate 32 2.

Lemma recovery_sound_witness :
  claimant_of (Verified thief 9) = thief /\ forall s', ~ claim_step (Verified thief 9) s'.
Proof.
  destruct (recovery_sound thief 5 (Verified thief 9)) as (Hc & Hfinal & _).
  - eapply rtc_l; [apply (step_update (NewClaim thief 5) 50 3 6 (Pending thief 5 50 3) a_wallet); reflexivity|].
    eapply rtc_l; [|apply rtc_refl].
    apply (step_update (Pending thief 5 50 3) 85 8 9 (Verified thief 9) a_wallet). reflexivity.
  - exact (conj Hc (Hfinal I)).
Defined.

(** The original device is unfrozen when a recovery is verified: the freeze ends with the
    claim, also when the claimant won. *)
Example verified_recovery_unfreezes : wallet_is_frozen (mkClaim a_wallet (Verified thief 9)) = false.
Proof. reflexivity. Qed.

End Recovery.
