(* ===== verification/Nfc.v ===== *)
(** * gratia-wallet: tap-to-pay sessions

    [crates/gratia-wallet/src/nfc.rs].  The random session nonce and [Utc::now()] are
    arguments; [bincode] of the messages is the parameter [NfcCodec].

    Theorems: a payment confirmed with the nonce of the request within the session's 30
    seconds is accepted and handed on unchanged, and one with another nonce, role, version
    or after the timeout is rejected ([nfc_session_exact]); a payment that the fee rule
    makes free of charge is rejected by block validation ([zero_fee_payment_invalid]). *)

From stdpp Require Import base tactics strings pretty list.
From Stdlib Require Import ZArith Lia.
From S2P Require Import Prelude CoreTypes ThirdParty GovVoting GovPolling Crypto Blocks Vrf Committee.
From S2P Require Import PolTypes PolZk Mempool Validation.
Local Open Scope Z_scope.

Inductive NfcSessionMessage `{!FloatLib} :=
| PaymentRequest (version : Z) (receiver_address : Address) (requested_amount : option Lux)
    (label : option string) (session_nonce : bytes) (msg_timestamp : DateTime)
| PaymentConfirmation (version : Z) (transaction : Transaction) (session_nonce : bytes)
| PaymentAcknowledgment (version : Z) (ack_tx_hash : Hash) (will_broadcast : bool).

Inductive NfcRole := Sender | Receiver.
Inductive NfcSessionState :=
  AwaitingRequest | PendingConfirmation | TransactionSent | Completed | NfcFailed.

#[export] Instance NfcRole_eq_dec : EqDecision NfcRole.
Proof. solve_decision. Defined.

Record NfcSession `{!FloatLib} := mkNfcSession {
  role : NfcRole;
  session_nonce : bytes;
  created_at : DateTime;
  nfc_state : NfcSessionState;
  nfc_transaction : option Transaction;
  nfc_requested_amount : option Lux;
  nfc_label : option string
}.

(** [bincode] of session messages. *)
Class NfcCodec `{!FloatLib} := {
  encode_nfc : NfcSessionMessage -> result string bytes;
  decode_nfc : bytes -> result string NfcSessionMessage
}.

Module Nfc.

Definition DEFAULT_NFC_ZERO_FEE_THRESHOLD : Lux := 10000000.
Definition NFC_SESSION_TIMEOUT_SECS : Z := 30.
Definition NFC_PROTOCOL_VERSION : Z := 1.

Section nfc.
Context `{!FloatLib}.

Definition new_receiver (requested : option Lux) (label : option string) (nonce : bytes) (now : DateTime)
  : NfcSession :=
  mkNfcSession _ Receiver nonce now AwaitingRequest None requested label.

Definition is_expired (s : NfcSession) (now : DateTime) : bool :=
  bool_decide (now - created_at s > duration_seconds NFC_SESSION_TIMEOUT_SECS).

Definition create_payment_request (s : NfcSession) (receiver : Address) (now : DateTime)
  : result GratiaError NfcSessionMessage :=
  if decide (role s <> Receiver) then Err (Other "only the receiver can create a payment request")
  else if is_expired s now then Err (Other "NFC session has expired")
  else Ok (PaymentRequest NFC_PROTOCOL_VERSION receiver (nfc_requested_amount s) (nfc_label s)
             (session_nonce s) (created_at s)).

Definition unsupported {A} (version : Z) : result GratiaError A :=
  Err (Other ("unsupported NFC protocol version: " +:+ pretty version +:+ " (expected "
                +:+ pretty NFC_PROTOCOL_VERSION +:+ ")")).

Definition receive_payment_request (request : NfcSessionMessage) (now : DateTime)
  : result GratiaError NfcSession :=
  match request with
  | PaymentRequest version _ requested label nonce timestamp =>
      if decide (version <> NFC_PROTOCOL_VERSION) then unsupported version
      else if decide (now - timestamp > duration_seconds NFC_SESSION_TIMEOUT_SECS) then
        Err (Other "NFC payment request has expired")
      else Ok (mkNfcSession _ Sender nonce now PendingConfirmation None requested label)
  | _ => Err (Other "expected PaymentRequest message")
  end.

Definition is_zero_fee (amount threshold : Lux) : bool := bool_decide (amount <= threshold).

Definition calculate_fee (amount zero_fee_threshold standard_fee : Lux) : Lux :=
  if is_zero_fee amount zero_fee_threshold then 0 else standard_fee.

Definition validate_confirmation (s : NfcSession) (confirmation : NfcSessionMessage) (now : DateTime)
  : result GratiaError Transaction :=
  if decide (role s <> Receiver) then Err (Other "only the receiver can validate a confirmation")
  else if is_expired s now then Err (Other "NFC session has expired")
  else match confirmation with
  | PaymentConfirmation version transaction nonce =>
      if decide (version <> NFC_PROTOCOL_VERSION) then unsupported version
      else if decide (nonce <> session_nonce s) then
        Err (Other "session nonce mismatch: confirmation does not match this payment request")
      else Ok transaction
  | _ => Err (Other "expected PaymentConfirmation message")
  end.

Definition serialize_nfc_message `{!NfcCodec} (m : NfcSessionMessage) : result GratiaError bytes :=
  match encode_nfc m with Ok b => Ok b | Err e => Err (SerializationError e) end.
Definition deserialize_nfc_message `{!NfcCodec} (b : bytes) : result GratiaError NfcSessionMessage :=
  match decode_nfc b with Ok m => Ok m | Err e => Err (SerializationError e) end.

(** A tap-to-pay session.  A request of a receiver that is read within 30 seconds gives
    the sender a session with the receiver's nonce and amount; the receiver then accepts
    exactly the confirmations that echo this nonce in the right version while the session
    lives, and hands on the transaction they carry. *)
Theorem nfc_session_exact amount label nonce t0 t1 t2 receiver request :
  create_payment_request (new_receiver amount label nonce t0) receiver t1 = Ok request ->
  (t2 - t0 <= duration_seconds NFC_SESSION_TIMEOUT_SECS ->
     exists s, receive_payment_request request t2 = Ok s
       /\ role s = Sender /\ session_nonce s = nonce /\ nfc_requested_amount s = amount)
  /\ (forall m now tx, validate_confirmation (new_receiver amount label nonce t0) m now = Ok tx
        <-> m = PaymentConfirmation NFC_PROTOCOL_VERSION tx nonce
            /\ now - t0 <= duration_seconds NFC_SESSION_TIMEOUT_SECS).
Proof.
  unfold create_payment_request. cbn [role new_receiver]. rewrite decide_False by (by intros []).
  destruct (is_expired _ t1); [done|]. intros [= <-]. split.
  - intros Ht. eexists. unfold receive_payment_request. cbn [created_at].
    rewrite decide_False by (by intros []). rewrite decide_False by (cbn [new_receiver created_at]; lia). done.
  - intros m now tx. unfold validate_confirmation. cbn [role new_receiver].
    rewrite decide_False by (by intros []). unfold is_expired. cbn [created_at new_receiver session_nonce].
    case_bool_decide as He; [split; [done|]; intros [_ ?]; lia|].
    destruct m as [|v t n|]; [by split; [|intros [? _]]| |by split; [|intros [? _]]].
    case_decide as Hv; [split; [done|]; intros [[= -> -> ->] _]; done|].
    case_decide as Hn; cbn in Hn; [split; [done|]; intros [[= -> -> ->] _]; done|].
    split; [intros [= <-]; split; [by subst|lia]|]. by intros [[= -> -> ->] _].
Qed.

(** ** Fees *)

Context `{!HashLib, !Bincode, !SignLib}.

(** A payment under the zero-fee threshold carries no fee, and block validation demands at
    least [MIN_TRANSACTION_FEE] of every transaction: no block can contain it. *)
Lemma zero_fee_payment_invalid tx amount threshold standard_fee :
  amount <= threshold -> fee tx = calculate_fee amount threshold standard_fee ->
  Validation.validate_transaction tx Validation.MIN_TRANSACTION_FEE <> Ok tt.
Proof.
  intros Ha Hf Hv. apply Validation.validate_transaction_spec in Hv as (_ & Hmin & _).
  unfold calculate_fee, is_zero_fee in Hf. rewrite bool_decide_eq_true_2 in Hf by done.
  unfold Validation.MIN_TRANSACTION_FEE in Hmin. lia.
Qed.
End nfc.

#[local] Existing Instance reference_float.
Definition tap : NfcSession := new_receiver (Some 5) None [7] 100.

Lemma nfc_session_exact_witness :
  exists s, receive_payment_request (PaymentRequest 1 [9] (Some 5) None [7] 100) 200 = Ok s
    /\ session_nonce s = [7].
Proof.
  destruct (nfc_session_exact (Some 5) None [7] 100 150 200 [9] (PaymentRequest 1 [9] (Some 5) None [7] 100))
    as [Hs _]; [reflexivity|].
  destruct Hs as (s & E & _ & Hn & _); [decide_now|]. exists s. split; [exact E|exact Hn].
Defined.
End Nfc.
