(* ===== verification/Wallet.v ===== *)
(** * gratia-wallet: transactions and the wallet manager

    [crates/gratia-wallet/src/transactions.rs] (building, signing and verifying
    transactions) and [crates/gratia-wallet/src/lib.rs] ([WalletManager] over any
    keystore).  [Utc::now()], the randomness of the keystore and the outcome of writing
    the balance file are arguments; log output is not modelled. *)

From stdpp Require Import base tactics strings list gmap.
From Stdlib Require Import ZArith Lia.
From S2P Require Import Prelude CoreTypes ThirdParty GovVoting GovPolling Crypto Blocks Keystore Recovery.
Local Open Scope Z_scope.

Inductive TransactionDirection := Sent | Received.
Inductive TransactionStatus := TsPending | TsConfirmed | TsFailed.

Record TransactionRecord := mkTransactionRecord {
  tr_hash : string;
  direction : TransactionDirection;
  tr_amount : Lux;
  counterparty : option Address;
  tr_timestamp : DateTime;
  status : TransactionStatus
}.

(** [balance_file] is the contents of [wallet_balance.bin]. *)
Record WalletManager (K : Type) := mkWallet {
  keystore : K;
  w_nonce : Z;
  w_balance : Lux;
  data_dir : option string;
  balance_file : option bytes;
  history : list TransactionRecord;
  active_recovery : option RecoveryClaim;
  inheritance : option InheritanceConfig
}.
Arguments mkWallet {_}.
Arguments keystore {_}.
Arguments w_nonce {_}.
Arguments w_balance {_}.
Arguments data_dir {_}.
Arguments balance_file {_}.
Arguments history {_}.
Arguments active_recovery {_}.
Arguments inheritance {_}.

Module WalletTx.

Definition DEFAULT_CHAIN_ID : Z := 2.

Record TransactionBuilder (K : Type) := mkBuilder {
  tb_keystore : K;
  tb_nonce : Z;
  tb_fee : Lux;
  tb_chain_id : Z
}.
Arguments mkBuilder {_}.
Arguments tb_keystore {_}.
Arguments tb_nonce {_}.
Arguments tb_fee {_}.
Arguments tb_chain_id {_}.

Section builder.
Context `{!FloatLib, !HashLib, !Bincode, !SignLib} {K : Type} `{!Keystore K}.

Definition new (k : K) (n : Z) (f : Lux) : TransactionBuilder K := mkBuilder k n f DEFAULT_CHAIN_ID.
Definition with_chain_id (k : K) (n : Z) (f : Lux) (c : Z) : TransactionBuilder K := mkBuilder k n f c.

Definition signable_bytes (p : TransactionPayload) (n c : Z) (f : Lux) (t : DateTime)
  : result GratiaError bytes :=
  match encode_payload p with
  | Err e => Err (SerializationError e)
  | Ok payload_bytes =>
      Ok (payload_bytes ++ le_bytes 8 n ++ le_bytes 4 c ++ le_bytes 8 f ++ le_bytes 8 (timestamp_millis t))
  end.

Definition compute_tx_hash (pubkey signable signature : bytes) : Hash :=
  sha256 (pubkey ++ signable ++ signature).

Definition build_and_sign (b : TransactionBuilder K) (p : TransactionPayload) (now : DateTime)
  : result GratiaError Transaction :=
  let?? pubkey := public_key_bytes (tb_keystore b) in
  let?? signable := signable_bytes p (tb_nonce b) (tb_chain_id b) (tb_fee b) now in
  let?? signature := sign (tb_keystore b) signable in
  let hash := compute_tx_hash pubkey signable signature in
  Ok (mkTransaction hash p pubkey signature (tb_nonce b) (tb_chain_id b) (tb_fee b) now).

Definition build_transfer (b : TransactionBuilder K) (to : Address) (amount : Lux) (now : DateTime) :=
  build_and_sign b (Transfer to amount) now.
Definition build_stake (b : TransactionBuilder K) (amount : Lux) (now : DateTime) :=
  build_and_sign b (Stake amount) now.
Definition build_unstake (b : TransactionBuilder K) (amount : Lux) (now : DateTime) :=
  build_and_sign b (Unstake amount) now.

Definition verify_transaction (tx : Transaction) : result GratiaError unit :=
  let?? signable := signable_bytes (payload tx) (nonce tx) (chain_id tx) (fee tx) (tx_timestamp tx) in
  let?? _o := verify_signature (sender_pubkey tx) signable (tx_signature tx) in
  if decide (tx_hash tx <> compute_tx_hash (sender_pubkey tx) signable (tx_signature tx)) then
    Err (BlockValidationFailed "transaction hash mismatch")
  else Ok tt.

Definition sender_address (tx : Transaction) : result GratiaError Address :=
  Keystore.address_from_pubkey_bytes (sender_pubkey tx).
End builder.
End WalletTx.

Module Wallet.

Section wallet.
Context `{!FloatLib, !HashLib, !Bincode, !SignLib, !SecretLib, !KeyCipher, !MnemonicLib}.
Context {K : Type} `{!Keystore K}.
Abbreviation wallet := (WalletManager K).

(** ** Field updates *)

Definition set_keystore (w : wallet) (k : K) : wallet :=
  mkWallet k (w_nonce w) (w_balance w) (data_dir w) (balance_file w) (history w) (active_recovery w)
    (inheritance w).
Definition set_funds (w : wallet) (b n : Z) (h : list TransactionRecord) : wallet :=
  mkWallet (keystore w) n b (data_dir w) (balance_file w) h (active_recovery w) (inheritance w).
Definition set_recovery (w : wallet) (r : option RecoveryClaim) : wallet :=
  mkWallet (keystore w) (w_nonce w) (w_balance w) (data_dir w) (balance_file w) (history w) r
    (inheritance w).
Definition set_heir (w : wallet) (i : option InheritanceConfig) : wallet :=
  mkWallet (keystore w) (w_nonce w) (w_balance w) (data_dir w) (balance_file w) (history w)
    (active_recovery w) i.

(** ** Creation and identity *)

Definition with_keystore (k : K) : wallet := mkWallet k 0 0 None None [] None None.

Definition create_wallet (w : wallet) (env : KeyEnv) : wallet * result GratiaError Address :=
  if has_keypair (keystore w) then
    (w, Err (Other "wallet already exists — use recovery to change devices"))
  else
    let '(k, r) := generate_keypair env (keystore w) in
    let w := set_keystore w k in
    let? pubkey := r at w in
    (w, Keystore.address_from_pubkey_bytes pubkey).

Definition address (w : wallet) : result GratiaError Address :=
  let?? pubkey := public_key_bytes (keystore w) in Keystore.address_from_pubkey_bytes pubkey.

Definition node_id (w : wallet) : result GratiaError NodeId :=
  let?? pubkey := public_key_bytes (keystore w) in Keystore.node_id_from_pubkey_bytes pubkey.

(** ** Synchronisation with the chain *)

Definition set_nonce (w : wallet) (n : Z) : wallet := set_funds w (w_balance w) n (history w).
Definition sync_nonce (w : wallet) (confirmed : Z) : wallet := set_nonce w confirmed.

(** [io]: the error of writing the file, if any. *)
Definition save_balance_to_file (w : wallet) (io : option string) : wallet :=
  match data_dir w, io with
  | Some _, None =>
      mkWallet (keystore w) (w_nonce w) (w_balance w) (data_dir w) (Some (le_bytes 8 (w_balance w)))
        (history w) (active_recovery w) (inheritance w)
  | _, _ => w
  end.

Definition sync_balance (w : wallet) (confirmed : Lux) (io : option string) : wallet :=
  let w := set_funds w confirmed (w_nonce w) (history w) in
  if data_dir w then save_balance_to_file w io else w.

(** ** Sending *)

Definition is_frozen (w : wallet) : bool :=
  match active_recovery w with Some r => Recovery.wallet_is_frozen r | None => false end.

Definition check_not_frozen (w : wallet) : result GratiaError unit :=
  if is_frozen w then Err RecoveryClaimPending else Ok tt.

(** The bookkeeping after a transaction was built. *)
Definition sent (w : wallet) (tx : Transaction) (cost amount : Lux) (to : option Address) : wallet :=
  set_funds w (wsub 64 (w_balance w) cost) (wadd 64 (w_nonce w) 1)
    (history w ++ [mkTransactionRecord (hex_encode (tx_hash tx)) Sent amount to (tx_timestamp tx) TsConfirmed]).

Definition send_transfer (w : wallet) (to : Address) (amount f : Lux) (now : DateTime)
  : wallet * result GratiaError Transaction :=
  let? _o := check_not_frozen w at w in
  if decide (amount = 0) then (w, Err (Other "Transfer amount cannot be zero"))
  else match checked_add 64 amount f with
  | None => (w, Err (Other "amount + fee overflow"))
  | Some total_cost =>
      if decide (w_balance w < total_cost) then (w, Err (InsufficientBalance (w_balance w) total_cost))
      else
        let? tx := WalletTx.build_transfer (WalletTx.new (keystore w) (w_nonce w) f) to amount now at w in
        (sent w tx total_cost amount (Some to), Ok tx)
  end.

Definition send_stake (w : wallet) (amount f : Lux) (now : DateTime)
  : wallet * result GratiaError Transaction :=
  let? _o := check_not_frozen w at w in
  match checked_add 64 amount f with
  | None => (w, Err (Other "amount + fee overflow"))
  | Some total_cost =>
      if decide (w_balance w < total_cost) then (w, Err (InsufficientBalance (w_balance w) total_cost))
      else
        let? tx := WalletTx.build_stake (WalletTx.new (keystore w) (w_nonce w) f) amount now at w in
        (sent w tx total_cost amount None, Ok tx)
  end.

Definition send_unstake (w : wallet) (amount f : Lux) (now : DateTime)
  : wallet * result GratiaError Transaction :=
  let? _o := check_not_frozen w at w in
  if decide (w_balance w < f) then (w, Err (InsufficientBalance (w_balance w) f))
  else
    let? tx := WalletTx.build_unstake (WalletTx.new (keystore w) (w_nonce w) f) amount now at w in
    (sent w tx f amount None, Ok tx).

Definition sign_transaction (w : wallet) (p : TransactionPayload) (f : Lux) (now : DateTime)
  : wallet * result GratiaError Transaction :=
  let? _o := check_not_frozen w at w in
  let? tx := WalletTx.build_and_sign (WalletTx.new (keystore w) (w_nonce w) f) p now at w in
  (set_funds w (w_balance w) (wadd 64 (w_nonce w) 1) (history w), Ok tx).

Definition record_incoming_transfer (w : wallet) (hash_hex : string) (from : Address) (amount : Lux)
    (t : DateTime) : wallet :=
  if existsb (fun r => bool_decide (tr_hash r = hash_hex)) (history w) then w
  else set_funds w (w_balance w) (w_nonce w)
         (history w ++ [mkTransactionRecord hash_hex Received amount (Some from) t TsConfirmed]).

(** ** Recovery *)

Definition set_recovery_claim (w : wallet) (c : RecoveryClaim) : wallet := set_recovery w (Some c).

Definition reject_recovery_claim (w : wallet) (now : DateTime) : wallet * result GratiaError unit :=
  match active_recovery w with
  | None => (w, Err (Other "no active recovery claim to reject"))
  | Some c => let '(c, r) := Recovery.owner_reject c now in (set_recovery w (Some c), r)
  end.

Definition export_seed_phrase (w : wallet) : result GratiaError SeedPhrase :=
  let?? secret := export_secret_key (keystore w) in Recovery.from_secret_key secret.

Definition import_seed_phrase (w : wallet) (env : KeyEnv) (p : SeedPhrase)
  : wallet * result GratiaError Address :=
  let '(k, r) := import_secret_key env (keystore w) (Recovery.to_secret_key_bytes p) in
  let w := set_keystore w k in
  let? pubkey := r at w in
  (w, Keystore.address_from_pubkey_bytes pubkey).

Definition export_seed_words (w : wallet) : result GratiaError string :=
  let?? p := export_seed_phrase w in Recovery.to_words p.

Definition import_seed_words (w : wallet) (env : KeyEnv) (words : string)
  : wallet * result GratiaError Address :=
  let? p := Recovery.from_words words at w in import_seed_phrase w env p.

(** ** Inheritance *)

Definition set_inheritance (w : wallet) (to : Address) (now : DateTime) : wallet * result GratiaError unit :=
  (set_heir w (Some (Recovery.new_inheritance to now)), Ok tt).

Definition set_inheritance_with_timeout (w : wallet) (to : Address) (timeout : Z) (now : DateTime)
  : wallet * result GratiaError unit :=
  let? c := Recovery.with_timeout to timeout now at w in (set_heir w (Some c), Ok tt).

Definition clear_inheritance (w : wallet) : wallet := set_heir w None.

Definition record_proof_of_life (w : wallet) (now : DateTime) : wallet :=
  match inheritance w with
  | Some c => set_heir w (Some (Recovery.record_proof_of_life c now))
  | None => w
  end.

Definition signing_key_bytes (w : wallet) : result GratiaError bytes :=
  let?? b := export_secret_key (keystore w) in
  if decide (length b <> 32%nat) then Err (Other "signing key is not 32 bytes") else Ok b.
End wallet.

(** ** Wallets over the two keystores *)

Section instances.
Context `{!FloatLib, !HashLib, !Bincode, !SignLib, !SecretLib, !KeyCipher, !MnemonicLib}.

Definition new_software : WalletManager SoftwareKeystore :=
  mkWallet Software.new 0 0 None None [] None None.

(** [None]: the file cannot be read. *)
Definition load_balance (file : option bytes) : Lux :=
  match file with
  | Some b => if decide (length b = 8%nat) then of_le_bytes b else 0
  | None => 0
  end.

Definition with_file_keystore (debug : bool) (env : KeyEnv) (disk : gmap string bytes)
    (dir : string) : WalletManager FileKeystore :=
  let file := disk !! (dir +:+ "/wallet_balance.bin")%string in
  mkWallet (File.new debug env disk dir) 0 (load_balance file) (Some dir) file [] None None.
End instances.
End Wallet.
