(* ===== verification/WalletTheorems.v ===== *)
(** * gratia-wallet: theorems

    The wallet is proved against the interface of its keystore.  A payment it signs passes
    every check of the node (mempool, wallet verification, block validation, the engine's
    check of incoming blocks) and settles on the ledger exactly as the wallet accounted for
    it; a frozen wallet signs nothing; a session of sends uses each nonce once; a seed
    phrase restores the wallet on another device. *)

From stdpp Require Import base tactics strings pretty list gmap.
From Stdlib Require Import ZArith Lia.
From S2P Require Import Prelude CoreTypes ThirdParty GovVoting GovPolling Crypto Blocks Vrf Committee.
From S2P Require Import BlockProduction Engine PolTypes PolZk Mempool Validation.
From S2P Require Import StateStore StateDb Merkle Pruning Ledger LedgerAccounts.
From S2P Require Import Keystore Recovery Wallet.
Local Open Scope Z_scope.

(** What Ed25519 promises: encodings have their fixed size and parse back, and a signature
    of a key verifies under it. *)
Class SignLaws `{!SignLib} : Prop := {
  vk_back vk : vk_from_bytes (vk_to_bytes vk) = Some vk;
  vk_length vk : length (vk_to_bytes vk) = 32%nat;
  signature_length sk m : length (ed25519_sign sk m) = 64%nat;
  signature_verifies sk m : ed25519_verify (vk_of sk) m (ed25519_sign sk m) = true
}.

Module WalletTheorems.
Import Wallet.

Section wallet.
Context `{!FloatLib, !HashLib, !Bincode, !SignLib, !SecretLib, !KeyCipher, !MnemonicLib}.
Context {K : Type} `{!Keystore K, !KeystoreSpec K, !SignLaws}.
Abbreviation wallet := (WalletManager K).

(** ** A signed transaction *)

Lemma verify_signed sk m :
  verify_signature (vk_to_bytes (vk_of sk)) m (ed25519_sign sk m) = Ok tt.
Proof.
  unfold verify_signature. rewrite decide_False by (rewrite vk_length; lia). rewrite vk_back.
  cbn [ok_or]. rewrite decide_False by (rewrite signature_length; lia). by rewrite signature_verifies.
Qed.

Lemma parse_key_back vk : Keystore.parse_key (vk_to_bytes vk) = Ok vk.
Proof.
  unfold Keystore.parse_key. rewrite decide_False by (rewrite vk_length; lia). by rewrite vk_back.
Qed.

(** What [build_and_sign] returns. *)
Lemma built b p now tx :
  WalletTx.build_and_sign b p now = Ok tx ->
  exists sk, stored_key (WalletTx.tb_keystore b) = Some sk
    /\ payload tx = p /\ nonce tx = WalletTx.tb_nonce b /\ fee tx = WalletTx.tb_fee b
    /\ sender_pubkey tx = vk_to_bytes (vk_of sk) /\ length (tx_signature tx) = 64%nat
    /\ Mempool.authentic tx.
Proof.
  unfold WalletTx.build_and_sign, WalletTx.signable_bytes. rewrite spec_public.
  destruct (stored_key (WalletTx.tb_keystore b)) as [sk|] eqn:Ek; [|done].
  destruct (encode_payload p) as [pb|] eqn:Ep; [|done]. rewrite spec_sign, Ek. intros [= <-].
  exists sk. cbn [payload nonce fee sender_pubkey tx_signature]. split; [done|]. split; [done|].
  split; [done|]. split; [done|]. split; [done|]. split; [apply signature_length|].
  unfold Mempool.authentic, Mempool.compute_signable_bytes. cbn [payload nonce chain_id fee tx_timestamp].
  rewrite Ep. eexists. split; [done|]. split; [done|]. apply verify_signed.
Qed.

Lemma authentic_verifies tx : Mempool.authentic tx -> WalletTx.verify_transaction tx = Ok tt.
Proof.
  intros (s & Es & Hh & Hv). unfold WalletTx.verify_transaction, WalletTx.signable_bytes.
  unfold Mempool.compute_signable_bytes in Es. destruct (encode_payload (payload tx)) as [pb|]; [|done].
  assert (forall x, Ok (E := MempoolError) x = Ok s -> x = s) as Hinj by (by intros x [= ->]).
  apply Hinj in Es. rewrite Es, Hv. by rewrite decide_False by (unfold WalletTx.compute_tx_hash; by intros []).
Qed.

Lemma authentic_engine `{!RistrettoLib} i tx :
  Mempool.authentic tx -> length (tx_signature tx) = 64%nat -> length (sender_pubkey tx) = 32%nat ->
  Engine.check_transaction i tx = Ok tt.
Proof.
  intros (s & Es & _ & Hv) Hs Hp. unfold Engine.check_transaction, Engine.signable.
  rewrite decide_False by (by intros []). rewrite decide_False by (by intros []).
  unfold Mempool.compute_signable_bytes in Es. destruct (encode_payload (payload tx)) as [pb|]; [|done].
  assert (forall x, Ok (E := MempoolError) x = Ok s -> x = s) as Hinj by (by intros x [= ->]).
  apply Hinj in Es. by rewrite Es, Hv.
Qed.

(** What a successful [send_transfer] did. *)
Lemma sent_transfer w to amount f now w' tx :
  send_transfer w to amount f now = (w', Ok tx) ->
  is_frozen w = false /\ amount <> 0 /\ amount + f < 2 ^ 64 /\ amount + f <= w_balance w
  /\ w' = sent w tx (amount + f) amount (Some to)
  /\ WalletTx.build_and_sign (WalletTx.new (keystore w) (w_nonce w) f) (Transfer to amount) now = Ok tx.
Proof.
  unfold send_transfer, check_not_frozen. destruct (is_frozen w); [done|]. cbn.
  case_decide; [done|]. unfold checked_add. case_decide; [|done]. case_decide; [done|].
  unfold WalletTx.build_transfer. destruct (WalletTx.build_and_sign _ _ _) as [t|]; [|done].
  intros [= <- <-]. split; [done|]. split; [done|]. split; [lia|]. split; [lia|]. done.
Qed.

(** The ledger's side of a payment between two addresses. *)
Lemma ledger_payment m tx a to amount :
  LedgerAccounts.book_ok m -> LedgerAccounts.sender_of tx = Ok a -> payload tx = Transfer to amount ->
  a <> to -> 0 <= amount -> 0 <= fee tx -> amount + fee tx <= balance (LedgerAccounts.look m a) ->
  acct_nonce (LedgerAccounts.look m a) = nonce tx -> 0 <= nonce tx < max_val 64 ->
  exists m', LedgerAccounts.ledger_tx m tx = Ok m' /\ LedgerAccounts.book_ok m'
    /\ balance (LedgerAccounts.look m' a) = balance (LedgerAccounts.look m a) - (amount + fee tx)
    /\ acct_nonce (LedgerAccounts.look m' a) = nonce tx + 1
    /\ balance (LedgerAccounts.look m' to) = balance (LedgerAccounts.look m to) + amount.
Proof.
  intros Hb Hsnd Hp Hne Ha Hf Hle Hn Hr.
  pose proof (LedgerAccounts.look_le m a Hb) as La. pose proof (LedgerAccounts.look_le m to Hb) as Lt.
  pose proof (LedgerAccounts.look_ok m a Hb) as Oa. pose proof (LedgerAccounts.look_ok m to Hb) as Ot.
  pose proof (proj2 Hb) as Hs. unfold LedgerAccounts.account_ok, LedgerAccounts.value, in_range in *.
  set (m1 := LedgerAccounts.charge m a (LedgerAccounts.look m a)
               (balance (LedgerAccounts.look m a) - (amount + fee tx)) (staked (LedgerAccounts.look m a))).
  assert (LedgerAccounts.look m1 to = LedgerAccounts.look m to) as Hy
    by (by apply LedgerAccounts.look_insert_ne).
  assert (LedgerAccounts.ledger_tx m tx
          = Ok (<[to := Ledger.set_funds (LedgerAccounts.look m to) (balance (LedgerAccounts.look m to) + amount)
                          (staked (LedgerAccounts.look m to)) (acct_nonce (LedgerAccounts.look m to))]> m1)) as Hl.
  { unfold LedgerAccounts.ledger_tx. rewrite Hsnd, Hp. cbv zeta. unfold checked_add.
    rewrite decide_True by lia. rewrite decide_False by lia. rewrite decide_False by lia.
    rewrite wsub_small by (unfold in_range; lia). fold m1. rewrite Hy. by rewrite decide_True by lia. }
  eexists. split; [exact Hl|]. split; [|split; [|split]].
  - eapply LedgerAccounts.ledger_tx_conserves; [exact Hb| |exact Hl].
    unfold LedgerAccounts.tx_ok, LedgerAccounts.amount_of, in_range. rewrite Hp. lia.
  - rewrite LedgerAccounts.look_insert_ne by done. unfold m1. by rewrite LedgerAccounts.look_charge.
  - rewrite LedgerAccounts.look_insert_ne by done. unfold m1. rewrite LedgerAccounts.look_charge. cbn.
    rewrite Hn. apply wadd_small. unfold in_range, max_val in *. lia.
  - by rewrite LedgerAccounts.look_insert_eq.
Qed.

Section settlement.
Context `{!RistrettoLib, !RangeProofLib, !TimeLib, !StateCodec} {S : Type} `{!StateStore S}.
Context `{!StoreSpec S, !CodecLaws}.

(** The wallet's cache agrees with its account on the chain. *)
Definition in_sync (w : wallet) (s : S) : Prop :=
  exists a, address w = Ok a /\ balance (acct s a) = w_balance w /\ acct_nonce (acct s a) = w_nonce w.

(** C4: a payment settles as the wallet says.  A transfer that an unfrozen wallet sends
    to another address, with a fee of at least the minimum, passes block validation, the engine's check of
    incoming blocks and the wallet's own verification, and a mempool with room that has not
    seen its digest queues it.  On any store whose ledger is well-formed and agrees with the
    wallet, applying it succeeds, moves the amount to the recipient, and leaves the ledger
    in agreement with the wallet's new balance and nonce. *)
Theorem wallet_payment_settles w to amount f now w' tx min_fee i m s :
  send_transfer w to amount f now = (w', Ok tx) ->
  0 <= amount -> 0 <= f -> min_fee <= f -> 0 <= w_nonce w < max_val 64 ->
  tx_hash tx ∉ seen_hashes m -> Z.of_nat (length (pending m)) < max_size m ->
  db_ok s -> LedgerAccounts.book_ok (accounts s) -> in_sync w s -> address w <> Ok to ->
  WalletTx.verify_transaction tx = Ok tt
  /\ (Mempool.add_transaction m tx).2 = Ok tt
  /\ Validation.validate_transaction tx min_fee = Ok tt
  /\ Engine.check_transaction i tx = Ok tt
  /\ exists s', Ledger.apply_transaction tx s = (s', Ok tt) /\ db_ok s'
       /\ LedgerAccounts.book_ok (accounts s') /\ in_sync w' s'
       /\ balance (acct s' to) = balance (acct s to) + amount.
Proof.
  intros Hsend Ha Hf Hmin Hn Hseen Hroom Hs Hbook (a & Haddr & Hbal & Hnonce) Hself.
  destruct (sent_transfer _ _ _ _ _ _ _ Hsend) as (Hfr & Hnz & Hov & Hle & -> & Hbuilt).
  destruct (built _ _ _ _ Hbuilt) as (sk & Hk & Hp & Hnt & Hft & Hpk & Hsl & Hauth).
  cbn [WalletTx.tb_keystore WalletTx.tb_nonce WalletTx.tb_fee WalletTx.new] in *.
  assert (a = Keystore.address_of_key (vk_of sk)) as ->.
  { revert Haddr. unfold address, Keystore.address_from_pubkey_bytes. rewrite spec_public, Hk, parse_key_back.
    by intros [= <-]. }
  split; [by apply authentic_verifies|]. split; [|split; [|split]].
  - pose proof (Mempool.add_transaction_cases m tx) as Hc.
    destruct (Mempool.add_transaction m tx) as [m' [[]|e]]; [done|]. destruct Hc as [_ Hc].
    exfalso. apply Hc. split; [done|]. split; [done|done].
  - apply Validation.validate_transaction_spec. split; [done|]. split; [lia|]. rewrite Hp. cbn.
    by rewrite decide_False.
  - apply authentic_engine; [done|done|]. rewrite Hpk. apply vk_length.
  - pose proof (LedgerAccounts.apply_transaction_refines s tx Hs) as (Hs' & _ & Hr).
    set (ad := Keystore.address_of_key (vk_of sk)) in *.
    assert (LedgerAccounts.sender_of tx = Ok ad) as Hsnd.
    { unfold LedgerAccounts.sender_of, Ledger.address_from_pubkey. rewrite Hpk.
      rewrite decide_False by (rewrite vk_length; lia). by rewrite vk_back. }
    destruct (ledger_payment (accounts s) tx ad to amount Hbook Hsnd Hp) as (m' & Hl & Hb' & Eb & En & Et);
      rewrite ?Hft, ?Hnt; try done.
    { by intros <-. }
    { change (LedgerAccounts.look (accounts s) ad) with (acct s ad). lia. }
    rewrite Hl in Hr. destruct Hr as [Hr <-]. exists (Ledger.apply_transaction tx s).1.
    split; [rewrite <-Hr; by destruct (Ledger.apply_transaction tx s)|]. split; [done|]. split; [done|].
    split; [|exact Et]. exists ad. split; [done|]. unfold sent. cbn [w_balance w_nonce set_funds].
    change (acct ?x ad) with (LedgerAccounts.look (accounts x) ad) in *. pose proof (LedgerAccounts.look_ok (accounts s) ad Hbook) as Hok.
    pose proof (LedgerAccounts.look_le (accounts s) ad Hbook) as Hle'. pose proof (proj2 Hbook) as Hsup.
    rewrite Eb, En, Hft, Hnt, Hbal.
    unfold max_val, LedgerAccounts.account_ok, LedgerAccounts.value, in_range in *. rewrite wsub_small, wadd_small; unfold in_range; lia.
Qed.
End settlement.

(** ** Frozen wallets *)

(** A wallet under an open recovery claim signs nothing: transfers, stakes, unstakes
    and arbitrary payloads all fail with [RecoveryClaimPending] and change nothing.  The
    owner's rejection lifts the freeze at once and touches neither the key, the balance nor
    the nonce. *)
Theorem frozen_wallet_signs_nothing w :
  is_frozen w = true ->
  (forall to amount f now, send_transfer w to amount f now = (w, Err RecoveryClaimPending))
  /\ (forall amount f now, send_stake w amount f now = (w, Err RecoveryClaimPending))
  /\ (forall amount f now, send_unstake w amount f now = (w, Err RecoveryClaimPending))
  /\ (forall p f now, sign_transaction w p f now = (w, Err RecoveryClaimPending))
  /\ (forall now, exists w', reject_recovery_claim w now = (w', Ok tt) /\ is_frozen w' = false
        /\ keystore w' = keystore w /\ w_balance w' = w_balance w /\ w_nonce w' = w_nonce w).
Proof.
  intros Hf. unfold send_transfer, send_stake, send_unstake, sign_transaction, check_not_frozen.
  rewrite Hf. split; [done|]. split; [done|]. split; [done|]. split; [done|].
  intros now. unfold reject_recovery_claim. unfold is_frozen in Hf.
  destruct (active_recovery w) as [[wa [a t|a t c n|a v|a v r]]|] eqn:Er; try done; cbn; by eexists.
Qed.

(** ** Sessions *)

Inductive wallet_op :=
| OpTransfer (to : Address) (amount f : Lux) (now : DateTime)
| OpStake (amount f : Lux) (now : DateTime)
| OpUnstake (amount f : Lux) (now : DateTime)
| OpSign (p : TransactionPayload) (f : Lux) (now : DateTime)
| OpIncoming (hash_hex : string) (from : Address) (amount : Lux) (t : DateTime)
| OpClaim (c : RecoveryClaim)
| OpReject (now : DateTime)
| OpProofOfLife (now : DateTime).

(** What an operation costs the wallet when it succeeds. *)
Definition cost (o : wallet_op) : Z :=
  match o with
  | OpTransfer _ amount f _ | OpStake amount f _ => amount + f
  | OpUnstake _ f _ => f
  | _ => 0
  end.

Definition op_ok (o : wallet_op) : Prop :=
  match o with
  | OpTransfer _ amount f _ | OpStake amount f _ | OpUnstake amount f _ => 0 <= amount /\ 0 <= f
  | _ => True
  end.

Definition signed (x : wallet * result GratiaError Transaction) (c : Z) : wallet * list (Transaction * Z) :=
  match x with (w, Ok tx) => (w, [(tx, c)]) | (w, Err _) => (w, []) end.

(** An operation, with the transaction it signs and its cost. *)
Definition wallet_step (w : wallet) (o : wallet_op) : wallet * list (Transaction * Z) :=
  match o with
  | OpTransfer to amount f now => signed (send_transfer w to amount f now) (cost o)
  | OpStake amount f now => signed (send_stake w amount f now) (cost o)
  | OpUnstake amount f now => signed (send_unstake w amount f now) (cost o)
  | OpSign p f now => signed (sign_transaction w p f now) (cost o)
  | OpIncoming h from amount t => (record_incoming_transfer w h from amount t, [])
  | OpClaim c => (set_recovery_claim w c, [])
  | OpReject now => ((reject_recovery_claim w now).1, [])
  | OpProofOfLife now => (record_proof_of_life w now, [])
  end.

Fixpoint session (w : wallet) (l : list wallet_op) : wallet * list (Transaction * Z) :=
  match l with
  | [] => (w, [])
  | o :: l => let '(w, txs) := wallet_step w o in
              let '(w, txs') := session w l in (w, txs ++ txs')
  end.

Definition total (l : list (Transaction * Z)) : Z := foldr (fun x n => x.2 + n) 0 l.

Lemma total_app l k : total (l ++ k) = total l + total k.
Proof. unfold total. induction l as [|x l IH]; cbn; [done|]. rewrite IH. lia. Qed.

(** The effect of one operation: no transaction, or one with the wallet's nonce. *)
Definition step_effect (w : wallet) (o : wallet_op) (w' : wallet) (txs : list (Transaction * Z)) : Prop :=
  keystore w' = keystore w
  /\ (txs = [] /\ w_nonce w' = w_nonce w /\ w_balance w' = w_balance w
      \/ exists tx, txs = [(tx, cost o)] /\ Mempool.authentic tx /\ nonce tx = w_nonce w
          /\ w_nonce w' = wadd 64 (w_nonce w) 1 /\ cost o <= w_balance w
          /\ w_balance w' = wsub 64 (w_balance w) (cost o)).

Lemma signed_effect w o b p now f w1 amount to :
  WalletTx.build_and_sign b p now = Ok w1 -> b = WalletTx.new (keystore w) (w_nonce w) f ->
  cost o <= w_balance w -> step_effect w o (sent w w1 (cost o) amount to) [(w1, cost o)].
Proof.
  intros Hb -> Hc. split; [done|]. right. exists w1.
  destruct (built _ _ _ _ Hb) as (sk & _ & _ & Hn & _ & _ & _ & Ha). done.
Qed.

Lemma wsub_zero b : in_range 64 b -> wsub 64 b 0 = b.
Proof. intros Hb. unfold in_range in Hb. rewrite wsub_small; unfold in_range; lia. Qed.

Lemma wallet_step_effect w o w' txs :
  in_range 64 (w_balance w) -> wallet_step w o = (w', txs) -> step_effect w o w' txs.
Proof.
  intros Hr. destruct o as [to amount f now|amount f now|amount f now|p f now|h from amount t|c|now|now];
    cbn [wallet_step].
  - unfold send_transfer, check_not_frozen. destruct (is_frozen w); cbn; [intros [= <- <-]; split; [done|by left]|].
    case_decide; [intros [= <- <-]; split; [done|by left]|]. unfold checked_add.
    case_decide; [|intros [= <- <-]; split; [done|by left]].
    case_decide; [intros [= <- <-]; split; [done|by left]|].
    unfold WalletTx.build_transfer. destruct (WalletTx.build_and_sign _ _ _) as [tx|] eqn:Eb;
      [|intros [= <- <-]; split; [done|by left]].
    intros [= <- <-]. eapply (signed_effect w (OpTransfer to amount f now)); [done|done|cbn; lia].
  - unfold send_stake, check_not_frozen. destruct (is_frozen w); cbn; [intros [= <- <-]; split; [done|by left]|].
    unfold checked_add. case_decide; [|intros [= <- <-]; split; [done|by left]].
    case_decide; [intros [= <- <-]; split; [done|by left]|].
    unfold WalletTx.build_stake. destruct (WalletTx.build_and_sign _ _ _) as [tx|] eqn:Eb;
      [|intros [= <- <-]; split; [done|by left]].
    intros [= <- <-]. eapply (signed_effect w (OpStake amount f now)); [done|done|cbn; lia].
  - unfold send_unstake, check_not_frozen. destruct (is_frozen w); cbn; [intros [= <- <-]; split; [done|by left]|].
    case_decide; [intros [= <- <-]; split; [done|by left]|].
    unfold WalletTx.build_unstake. destruct (WalletTx.build_and_sign _ _ _) as [tx|] eqn:Eb;
      [|intros [= <- <-]; split; [done|by left]].
    intros [= <- <-]. eapply (signed_effect w (OpUnstake amount f now)); [done|done|cbn; lia].
  - unfold sign_transaction, check_not_frozen. destruct (is_frozen w); cbn; [intros [= <- <-]; split; [done|by left]|].
    destruct (WalletTx.build_and_sign _ _ _) as [tx|] eqn:Eb; [|intros [= <- <-]; split; [done|by left]].
    intros [= <- <-]. destruct (built _ _ _ _ Eb) as (sk & _ & _ & Hn & _ & _ & _ & Ha).
    split; [done|]. right. exists tx. cbn. rewrite wsub_zero by done. unfold in_range in Hr.
    split; [done|]. split; [done|]. split; [done|]. split; [done|]. split; [lia|done].
  - intros [= <- <-]. unfold record_incoming_transfer. destruct (existsb _ _); split; try done; by left.
  - intros [= <- <-]. split; [done|by left].
  - intros [= <- <-]. unfold reject_recovery_claim. destruct (active_recovery w) as [c|]; [|split; [done|by left]].
    destruct (Recovery.owner_reject c now) as [c' r]. split; [done|by left].
  - intros [= <- <-]. unfold record_proof_of_life. destruct (inheritance w); split; try done; by left.
Qed.

(** A wallet session.  Over any sequence of sends, incoming payments, claims,
    rejections and proofs of life, failing ones included, the signed transactions all carry
    a right digest and signature and use consecutive nonces starting at the wallet's, each
    once; the balance falls by exactly what they cost and never wraps. *)
Theorem wallet_session_accounts l w w' txs :
  in_range 64 (w_balance w) -> 0 <= w_nonce w -> w_nonce w + Z.of_nat (length l) < 2 ^ 64 ->
  Forall op_ok l -> session w l = (w', txs) ->
  Forall (fun x => Mempool.authentic x.1) txs
  /\ (nonce ∘ fst <$> txs) = seqZ (w_nonce w) (Z.of_nat (length txs))
  /\ w_nonce w' = w_nonce w + Z.of_nat (length txs)
  /\ w_balance w' = w_balance w - total txs /\ 0 <= w_balance w' <= w_balance w
  /\ keystore w' = keystore w.
Proof.
  intros Hb Hn Hlt Hok. revert w txs Hb Hn Hlt. induction Hok as [|o l Ho _ IH]; intros w txs Hb Hn Hlt; cbn [session].
  - intros [= <- <-]. change (total []) with 0. unfold in_range in Hb. split; [done|].
    split; [done|]. split; [cbn; lia|]. split; [lia|]. split; [lia|done].
  - destruct (wallet_step w o) as [w1 t1] eqn:E1. destruct (session w1 l) as [w2 t2] eqn:E2. intros [= <- <-].
    cbn [length] in Hlt.
    destruct (wallet_step_effect w o w1 t1 Hb E1) as [Hk [(-> & Hn1 & Hb1)|(tx & -> & Ha & Htn & Hn1 & Hc & Hb1)]].
    + destruct (IH w1 t2) as (I1 & I2 & I3 & I4 & I5 & I6); [by rewrite Hb1|lia|lia|done|].
      rewrite Hn1, Hb1 in *. cbn [app]. split; [done|]. split; [done|]. split; [done|]. split; [done|]. split; [done|congruence].
    + assert (0 <= cost o) as Hc0 by (destruct o; cbn in *; lia).
      unfold in_range in Hb. rewrite wadd_small in Hn1 by (unfold in_range; lia).
      rewrite wsub_small in Hb1 by (unfold in_range; lia).
      destruct (IH w1 t2) as (I1 & I2 & I3 & I4 & I5 & I6); [unfold in_range; lia|lia|lia|done|].
      split; [by constructor|]. split; [|split; [|split; [|split]]].
      * cbn [app fmap list_fmap length]. rewrite I2, Hn1, Nat2Z.inj_succ. rewrite (seqZ_cons (w_nonce w) (Z.succ _)) by lia.
        cbn. rewrite Htn. f_equal. f_equal; lia.
      * rewrite I3, Hn1. cbn. lia.
      * rewrite I4, Hb1, total_app. change (total [(tx, cost o)]) with (cost o + 0). lia.
      * lia.
      * congruence.
Qed.
End wallet.

(** ** Seed phrases *)

Section seed.
#[local] Existing Instances Software.keystore Software.keystore_spec.
Context `{!FloatLib, !HashLib, !Bincode, !SignLib, !SecretLib, !KeyCipher, !MnemonicLib}.

(** BIP39 gives the entropy of its words back; a signing key is its 32 bytes. *)
Class SeedLaws : Prop := {
  words_back e : length e = 32%nat -> exists s, words_of_entropy e = Ok s /\ entropy_of_words s = Ok e;
  seed_length sk : length (sk_to_bytes sk) = 32%nat;
  seed_back sk : sk_from_bytes (sk_to_bytes sk) = sk
}.
Context `{!SeedLaws}.

(** A seed phrase restores the wallet.  The words exported by a wallet that has a key,
    typed into a fresh wallet on another device, give that wallet the same key, and so the
    same address and the same signatures. *)
Theorem seed_phrase_restores (w : WalletManager SoftwareKeystore) sk env w2 :
  stored_key (keystore w) = Some sk ->
  exists words, export_seed_words w = Ok words
    /\ let '(w3, r) := import_seed_words (K := SoftwareKeystore) w2 env words in
       keystore w3 = keystore w /\ r = address w.
Proof.
  intros Hk. cbn in Hk. destruct (words_back (sk_to_bytes sk) (seed_length sk)) as (s & Hs & He).
  exists s. unfold export_seed_words, export_seed_phrase. cbn [export_secret_key Software.keystore].
  unfold Software.export. rewrite Hk. cbn [option_key ok_or]. unfold Recovery.from_secret_key.
  rewrite decide_False by (rewrite seed_length; lia). unfold Recovery.to_words. cbn [entropy]. rewrite Hs.
  split; [done|]. unfold import_seed_words, Recovery.from_words. rewrite He.
  rewrite decide_False by (rewrite seed_length; lia). unfold import_seed_phrase, Recovery.to_secret_key_bytes.
  cbn [entropy import_secret_key Software.keystore]. unfold Software.import.
  rewrite decide_False by (rewrite seed_length; lia). rewrite seed_back. cbn [set_keystore keystore].
  unfold address. cbn [public_key_bytes Software.keystore]. unfold Software.public_key. rewrite Hk.
  destruct (keystore w). cbn in *. by subst.
Qed.
End seed.
End WalletTheorems.
