(* ===== verification/WalletSamples.v ===== *)
(** * gratia-wallet: examples

    Concrete keys, ciphers, range proofs and stores at which the theorems of the mempool,
    the validation, the Proof of Life proofs and the wallet are evaluated. *)

From stdpp Require Import base tactics strings list gmap fin_maps.
From Stdlib Require Import ZArith Lia.
From S2P Require Import Prelude CoreTypes ThirdParty GovVoting GovPolling Crypto Blocks Vrf Committee.
From S2P Require Import BlockProduction Engine PolTypes PolZk Mempool Validation.
From S2P Require Import StateStore StateDb Merkle Pruning Ledger LedgerAccounts LedgerTheorems LedgerSamples.
From S2P Require Import Keystore Recovery Wallet WalletTheorems.
Local Open Scope Z_scope.

Module WalletSamples.
Import Wallet WalletTheorems.

#[local] Existing Instances reference_float Merkle.wide_hash LedgerSamples.sample_bincode
  LedgerSamples.sample_codec LedgerSamples.sample_laws Vrf.reference_ristretto.

(** ** Signatures, secrets and ciphers *)

#[local] Instance toy_sign : SignLib := {|
  VerifyingKey := Z; SigningKey := Z;
  vk_from_bytes := head; vk_to_bytes := fun k => replicate 32 k;
  vk_of := fun k => k;
  ed25519_sign := fun k _ => replicate 64 k;
  ed25519_verify := fun k _ s => bool_decide (s = replicate 64 k)
|}.

#[local] Instance toy_sign_laws : SignLaws.
Proof.
  split; cbn [vk_from_bytes vk_to_bytes ed25519_sign ed25519_verify vk_of toy_sign].
  - done.
  - intros k. apply length_replicate.
  - intros k m. apply length_replicate.
  - intros k m. by apply bool_decide_eq_true_2.
Qed.

#[local] Instance toy_secret : SecretLib := {|
  sk_to_bytes := fun k => replicate 32 k;
  sk_from_bytes := fun b => hd 0 b
|}.

(** A sealed text is the text with sixteen zeros; JSON is a list that starts with the
    lengths of its parts. *)
Definition toy_json (e : EncryptedKeyMaterial) : bytes :=
  Z.of_nat (length (ciphertext e)) :: Z.of_nat (length (salt e)) :: Z.of_nat (length (ekm_nonce e))
  :: ciphertext e ++ salt e ++ ekm_nonce e ++ ekm_address e.

Definition toy_unjson (b : bytes) : option EncryptedKeyMaterial :=
  match b with
  | c :: s :: n :: rest =>
      let c := Z.to_nat c in let s := Z.to_nat s in let n := Z.to_nat n in
      Some (mkEkm (take c rest) (take s (drop c rest)) (take n (drop s (drop c rest)))
              (drop n (drop s (drop c rest))))
  | _ => None
  end.

#[local] Instance toy_cipher : KeyCipher := {|
  aead_seal := fun _ _ _ p => p ++ replicate 16 0;
  aead_open := fun _ _ _ c => Some (take (length c - 16) c);
  ekm_to_json := fun e => Ok (toy_json e);
  ekm_from_json := toy_unjson
|}.

Lemma toy_json_back e : toy_unjson (toy_json e) = Some e.
Proof.
  destruct e as [c s n a]. unfold toy_unjson, toy_json. cbn [ciphertext salt ekm_nonce ekm_address].
  rewrite !Nat2Z.id. rewrite take_app_length, drop_app_length, take_app_length, drop_app_length,
    take_app_length, drop_app_length. done.
Qed.

#[local] Instance toy_cipher_laws : File.CipherLaws.
Proof.
  split; cbn [aead_open aead_seal ekm_to_json ekm_from_json sk_to_bytes sk_from_bytes toy_cipher toy_secret].
  - intros _ _ _ p. f_equal. rewrite length_app, length_replicate. rewrite take_app_le by lia.
    apply take_ge. lia.
  - intros _ _ _ p. by rewrite length_app, length_replicate.
  - intros e j [= <-]. apply toy_json_back.
  - intros k. apply length_replicate.
  - done.
Qed.

#[local] Instance toy_words : MnemonicLib := {|
  words_of_entropy := fun e => Ok "words";
  entropy_of_words := fun _ => Ok (replicate 32 7);
  hex_decode := fun _ => Err "no hex"
|}.

Definition an_env : KeyEnv := mkKeyEnv _ 7 (replicate 16 1) (replicate 12 2) None None None None.

(** ** Keystores *)

#[local] Existing Instances File.keystore File.keystore_spec Software.keystore Software.keystore_spec.

Definition key7 : @SigningKey toy_sign := 7.

Definition a_dir : string := "/data".
Definition empty_keystore : FileKeystore := mkFileKeystore _ None (a_dir +:+ "/wallet_key.bin") ∅.

Lemma file_keystore_persists_witness :
  File.new false an_env (fk_disk (File.generate an_env empty_keystore).1) a_dir
  = (File.generate an_env empty_keystore).1.
Proof.
  pose proof (File.file_keystore_persists false an_env an_env empty_keystore a_dir None eq_refl eq_refl) as Hp.
  cbn [File.put_key generate_keypair File.keystore] in Hp.
  assert ((File.generate an_env empty_keystore).2 = Ok (replicate 32 7)) as Hok by (vm_compute; reflexivity).
  destruct (File.generate an_env empty_keystore) as [k' r]. cbn [snd] in Hok. rewrite Hok in Hp.
  exact (proj1 Hp).
Defined.

(** The key 7, XORed with the stream of salt 1 and nonce 2. *)
Definition legacy_ekm : EncryptedKeyMaterial :=
  mkEkm (zip_with Z.lxor (replicate 32 7) (sha256 (File.derive_encryption_key [1] ++ [2]))) [1] [2] [].

Definition legacy_disk : gmap string bytes := {[ (a_dir +:+ "/wallet_key.bin")%string := toy_json legacy_ekm ]}.

Lemma legacy_file_upgraded_witness :
  stored_key (File.new false an_env legacy_disk a_dir) = Some key7.
Proof.
  destruct (File.legacy_file_upgraded false an_env an_env legacy_disk a_dir key7 legacy_ekm (toy_json legacy_ekm))
    as [Hk _].
  - apply lookup_singleton_eq.
  - apply toy_json_back.
  - split; vm_compute; reflexivity.
  - reflexivity.
  - exact Hk.
Defined.

(** ** The mempool *)

Definition alice_wallet : WalletManager SoftwareKeystore :=
  mkWallet (mkSoftware _ (Some key7)) 0 1000 None None [] None None.

Definition bob : Address := replicate 32 9.
Definition dummy_tx : Transaction := mkTransaction [] (Stake 0) [] [] 0 0 0 0.

Definition signed_tx (r : WalletManager SoftwareKeystore * result GratiaError Transaction) : Transaction :=
  match r with (_, Ok tx) => tx | _ => dummy_tx end.

Definition payment : Transaction := signed_tx (send_transfer alice_wallet bob 100 10 5).

Definition pool_history : list Mempool.op :=
  [Mempool.Add payment; Mempool.Add payment; Mempool.Drain 5; Mempool.Add payment].

Lemma mempool_correct_witness :
  exists m i out, Mempool.run (Mempool.new 10) pool_history = (m, i, out)
    /\ out = [payment] /\ NoDup (tx_hash <$> i).
Proof.
  destruct (Mempool.run (Mempool.new 10) pool_history) as [[m i] out] eqn:E.
  exists m, i, out.
  destruct (Mempool.mempool_correct 10 pool_history m i out) as (_ & _ & _ & Hnd & _); [decide_now|exact E|].
  split; [reflexivity|]. split; [|exact Hnd].
  assert ((Mempool.run (Mempool.new 10) pool_history).2 = out) as <- by (rewrite E; reflexivity).
  vm_compute. reflexivity.
Defined.

(** ** Payments *)

Definition home : Address := Keystore.address_of_key key7.
Definition home_account : AccountState := mkAccount 1000 0 0 0 false 0 None None.
Definition ledger0 : InMemoryStore := (put_account home home_account InMemory.new).1.

Lemma ledger0_spec : db_ok ledger0 /\ accounts ledger0 = {[home := home_account]}.
Proof.
  destruct (put_account_spec InMemory.new home home_account LedgerSamples.new_db_ok) as (s & E & Hs & _ & Ha).
  unfold ledger0. rewrite E. cbn [fst]. split; [done|]. rewrite Ha.
  unfold accounts. cbn [col in_memory_spec]. rewrite LedgerSamples.column_new. by rewrite omap_empty, insert_empty.
Qed.

Lemma ledger0_book : LedgerAccounts.book_ok (accounts ledger0).
Proof.
  destruct ledger0_spec as [_ ->]. split; [apply map_Forall_singleton|]; decide_now.
Qed.

Lemma ledger0_sync : in_sync alice_wallet ledger0.
Proof.
  exists home. unfold acct. destruct ledger0_spec as [_ ->]. rewrite lookup_singleton_eq.
  split; [vm_compute; reflexivity|done].
Qed.

Lemma wallet_payment_settles_witness :
  Engine.check_transaction 0 payment = Ok tt
  /\ exists s', Ledger.apply_transaction payment ledger0 = (s', Ok tt)
      /\ balance (acct s' bob) = balance (acct ledger0 bob) + 100.
Proof.
  destruct (wallet_payment_settles alice_wallet bob 100 10 5 (send_transfer alice_wallet bob 100 10 5).1
              payment 10 0 (Mempool.new 10) ledger0)
    as (_ & _ & _ & Hc & s' & E & _ & _ & _ & Hb).
  - reflexivity.
  - decide_now.
  - decide_now.
  - decide_now.
  - decide_now.
  - apply not_elem_of_empty.
  - decide_now.
  - apply ledger0_spec.
  - apply ledger0_book.
  - apply ledger0_sync.
  - vm_compute. discriminate.
  - split; [exact Hc|]. exists s'. split; [exact E|exact Hb].
Defined.

Definition frozen_alice : WalletManager SoftwareKeystore :=
  set_recovery_claim alice_wallet (Recovery.new home bob 3).

Lemma frozen_wallet_signs_nothing_witness :
  send_transfer frozen_alice bob 100 10 5 = (frozen_alice, Err RecoveryClaimPending).
Proof. exact (proj1 (frozen_wallet_signs_nothing frozen_alice eq_refl) bob 100 10 5). Defined.

Definition a_session : list wallet_op :=
  [OpTransfer bob 100 10 5; OpStake 5000 1 6; OpStake 50 1 7; OpClaim (Recovery.new home bob 8);
   OpUnstake 50 1 9; OpReject 10; OpUnstake 50 1 11].

Lemma wallet_session_accounts_witness :
  (nonce ∘ fst <$> (session alice_wallet a_session).2) = [0; 1; 2].
Proof.
  destruct (wallet_session_accounts a_session alice_wallet (session alice_wallet a_session).1
              (session alice_wallet a_session).2) as (_ & Hn & _).
  - decide_now.
  - decide_now.
  - decide_now.
  - repeat constructor; decide_now.
  - reflexivity.
  - rewrite Hn. vm_compute. reflexivity.
Defined.

(** ** Seed phrases *)

(** A word list that numbers the entropies: the number is written in unary. *)
#[local] Instance unary_words : MnemonicLib := {|
  words_of_entropy := fun e =>
    Ok (String.string_of_list_ascii (replicate (Pos.to_nat (encode e)) Ascii.zero));
  entropy_of_words := fun s =>
    match decode (Pos.of_nat (length (String.list_ascii_of_string s))) with
    | Some e => Ok e
    | None => Err "unknown words"
    end;
  hex_decode := fun _ => Err "no hex"
|}.

#[local] Instance unary_laws : SeedLaws.
Proof.
  split; cbn [sk_to_bytes sk_from_bytes toy_secret].
  - intros e _. eexists. split; [reflexivity|]. cbn [entropy_of_words unary_words].
    rewrite String.list_ascii_of_string_of_list_ascii, length_replicate, Pos2Nat.id, decode_encode. done.
  - intros k. apply length_replicate.
  - done.
Qed.

Lemma seed_phrase_restores_witness :
  exists words, export_seed_words alice_wallet = Ok words
    /\ (import_seed_words new_software an_env words).2 = address alice_wallet.
Proof.
  destruct (seed_phrase_restores alice_wallet key7 an_env new_software) as (words & E & Hi); [reflexivity|].
  exists words. split; [exact E|].
  destruct (import_seed_words new_software an_env words) as [w3 r]. exact (proj2 Hi).
Defined.

(** ** Proofs of a day *)

(** Range proofs that show the values. *)
#[local] Instance open_proofs : RangeProofLib := {|
  RangeProof := unit; Scalar := unit; Point := Z;
  prove_multiple := fun _ vs _ _ => Ok (tt, vs);
  verify_multiple := fun _ _ cs bits => bool_decide (Forall (in_range bits) cs);
  rp_to_bytes := fun _ => []; rp_from_bytes := fun _ => Some tt;
  point_to_bytes := fun c => replicate 32 c; point_from_slice := head
|}.

#[local] Instance open_proofs_laws : Zk.RangeProofLaws.
Proof.
  split; cbn.
  - intros t vs bl bits _ _ _ Hr. exists tt, vs. split; [done|]. split; [done|]. by apply bool_decide_eq_true_2.
  - by intros [].
  - done.
  - done.
Qed.

Definition busy_day : PolProofInput := mkPolProofInput 40 12 8 3.
Definition four : list (@Scalar open_proofs) := [tt; tt; tt; tt].

Lemma pol_proof_complete_witness :
  exists p, Zk.generate_pol_proof busy_day default_PolThresholds 19 four = Ok p
    /\ Zk.verify_pol_proof p default_PolThresholds 19 = Ok true.
Proof.
  pose proof (Zk.pol_proof_complete busy_day default_PolThresholds 19 four eq_refl) as Hc.
  assert (Zk.representable busy_day default_PolThresholds) as Hr
    by (repeat (constructor; [vm_compute; reflexivity|]); constructor).
  specialize (Hc Hr).
  assert (exists p, Zk.generate_pol_proof busy_day default_PolThresholds 19 four = Ok p) as [p E]
    by (vm_compute; eexists; reflexivity).
  rewrite E in Hc. exists p. split; [exact E|]. exact (proj1 (proj2 Hc) default_PolThresholds).
Defined.

Lemma pol_thresholds_not_bound_witness :
  exists p, Zk.verify_pol_proof p (mkPolThresholds 1000 24 1000 1000) 19 = Ok true.
Proof.
  destruct (proj2 Zk.pol_thresholds_not_bound 19 four eq_refl) as (p & _ & Hv). exists p. apply Hv.
Defined.

(** ** Blocks *)

#[local] Instance free_bincode : Bincode := {|
  encode_header := fun _ => Ok []; encode_payload := fun _ => Ok [];
  encode_attestation := fun _ => Ok []; encode_block := fun _ => Ok []
|}.
#[local] Instance no_time : TimeLib := {| show_time := fun _ => "now" |}.

Definition one_member : ValidatorCommittee :=
  mkCommittee (mkEpoch 0 0 10 0 []) [mkMember [1] (mkVrfPublicKey []) 70 (mkVrfProof [] []) 0 []] 1 1 1.
Definition a_context : ValidationContext :=
  mkValidationContext 1 [] one_member 1000 10 None default_PolThresholds.
Definition a_block : Block :=
  mkBlock (mkBlockHeader 1 0 [] [] [] [] [1] [] 1 1 []) [] [] [mkValidatorSignature [1] []].

(** The empty block of the committee stays valid with a payment its producer never saw. *)
Lemma body_not_bound_by_header_witness :
  Validation.validate_block (Validation.with_transactions a_block [payment]) a_context 0 = Ok tt.
Proof.
  apply (Validation.body_not_bound_by_header a_block a_context 0 [payment] []).
  - vm_compute. reflexivity.
  - decide_now.
  - decide_now.
  - constructor; [|constructor]. apply Validation.validate_transaction_spec. vm_compute. reflexivity.
  - reflexivity.
  - decide_now.
Defined.
End WalletSamples.
