(* ===== verification/BodyBinding.v ===== *)
(** * gratia-consensus: what the signatures of an incoming block cover

    A validator signs the digest of a block's header.  The header names the root of the
    block's transactions, but no code compares that root with the transactions that came
    with the block: [incoming_body_not_bound] shows it for [process_incoming_block], the
    check a node makes of the blocks of its peers. *)

From stdpp Require Import base tactics strings list gmap.
From Stdlib Require Import ZArith Lia.
From S2P Require Import Prelude CoreTypes ThirdParty GovVoting GovPolling Crypto Blocks Vrf Committee.
From S2P Require Import BlockProduction Engine EngineSafety.
Local Open Scope Z_scope.

Module BodyBinding.
Import Engine.

Section body.
Context `{!FloatLib, !HashLib, !RistrettoLib, !Bincode, !SignLib}.

(** The block [b] with other transactions and attestations. *)
Definition with_body (b : Block) (l : list Transaction) (a : list ProofOfLifeAttestation) : Block :=
  mkBlock (bl_header b) l a (validator_signatures b).

Lemma validate_body e b ff l a :
  validate_incoming e b ff = Ok tt -> check_transactions 0 l = Ok tt ->
  validate_incoming e (with_body b l a) ff = Ok tt.
Proof.
  unfold validate_incoming, check_producer. cbn [with_body bl_header validator_signatures transactions].
  destruct (current_committee e) as [c|]; [|done].
  destruct (if ff then _ else _) as [[]|]; [|done]. case_decide; [done|].
  by destruct (check_signatures _ _ _) as [[]|].
Qed.

(** C30: the body of an accepted block is not authenticated.  When a node accepts a block of
    a peer, it would have accepted the same header and signatures with any other list of
    correctly signed transactions and with any attestations, and would have ended in the
    same state: whoever relays a block can replace its contents. *)
Theorem incoming_body_not_bound e b e' l a :
  process_incoming_block e b = (e', Ok Accepted) -> check_transactions 0 l = Ok tt ->
  process_incoming_block e (with_body b l a) = (e', Ok Accepted).
Proof.
  unfold process_incoming_block. cbn [with_body bl_header]. cbv zeta.
  case_decide; [done|]. case_decide; [done|]. destruct (negb _ && _); [done|].
  destruct (header_hash (bl_header b)) as [h|]; [|done].
  destruct (other_block _ _); [done|]. set (e1 := set_seen _ _). set (ff := bool_decide _).
  intros Hrun Hl. destruct (validate_incoming e1 b ff) as [[]|] eqn:Hv; [|done].
  fold (with_body b l a). by rewrite (validate_body e1 b ff l a Hv Hl).
Qed.
End body.

Module Sample.
Import EngineSafety.Sample.
#[local] Existing Instances sample_float sample_hash sample_ristretto sample_bincode sample_sign.

(** A transfer signed by a stranger, put into the block of validator 2. *)
Definition inserted : Transaction :=
  mkTransaction [] (Transfer [9] 1000000) (replicate 32 4) (replicate 64 4) 0 2 1000 0.

Lemma incoming_body_not_bound_witness :
  snd (process_incoming_block e2 (with_body incoming [inserted] [])) = Ok Accepted.
Proof.
  rewrite (incoming_body_not_bound e2 incoming (fst (process_incoming_block e2 incoming)) [inserted] []);
    [reflexivity|apply injective_projections; [reflexivity|vm_compute; reflexivity]|vm_compute; reflexivity].
Defined.
End Sample.
End BodyBinding.
