(* ===== verification/ChainSync.v ===== *)
(** * gratia-consensus: block sync

    [crates/gratia-consensus/src/sync.rs]: the state machine with which a node that has
    fallen behind downloads blocks in batches.

    Theorems: a response is accepted exactly when its blocks continue the local chain by
    consecutive heights and hash links and fit the buffer, and a rejected one changes
    nothing ([sync_response_exact]); the buffer is bounded over every history
    ([sync_buffer_bounded]); with a peer that serves its chain a node reaches the network
    height, up to the threshold below which gossip takes over, in the expected number of
    batches ([sync_catches_up]). *)

From stdpp Require Import base tactics strings gmap list sets pretty.
From Stdlib Require Import ZArith Lia.
From S2P Require Import Prelude CoreTypes ThirdParty Crypto Blocks Ieee.
Local Open Scope Z_scope.

(** ** Pairs of neighbours

    [for window in l.windows(2) { ... }], where the body may return early. *)

Fixpoint windows2 {A E} (body : A -> A -> result E unit) (l : list A) : result E unit :=
  match l with
  | a :: (b :: _) as rest => let?? _ := body a b in windows2 body rest
  | _ => Ok tt
  end.

Lemma windows2_ok {A E} (body : A -> A -> result E unit) l :
  windows2 body l = Ok tt
  <-> forall i a b, l !! i = Some a -> l !! S i = Some b -> body a b = Ok tt.
Proof.
  induction l as [|x [|y l] IH]; [by split|by split; [intros _ [|i]|]|].
  cbn [windows2]. destruct (body x y) as [[]|e] eqn:Hxy.
  - rewrite IH. split; intros Hl i a b; [destruct i as [|i]; [by intros [= <-] [= <-]|apply (Hl i)]|].
    apply (Hl (S i)).
  - split; [done|]. intros Hl. specialize (Hl 0%nat x y eq_refl eq_refl). congruence.
Qed.

Lemma windows2_err {A E} (body : A -> A -> result E unit) l :
  windows2 body l <> Ok tt -> exists e, windows2 body l = Err e.
Proof. destruct (windows2 body l) as [[]|e]; [done|by exists e]. Qed.

Lemma filter_none {A} (P : A -> Prop) `{!forall x, Decision (P x)} (l : list A) :
  (forall x, x ∈ l -> ~ P x) -> filter P l = [].
Proof.
  intros Hl. destruct (filter P l) as [|x r] eqn:Hf; [done|].
  assert (x ∈ filter P l) as Hx by (rewrite Hf; left).
  apply list_elem_of_filter in Hx as [HP Hx]. by destruct (Hl x Hx).
Qed.

(** ** Data *)

Inductive SyncState :=
| Idle
| Requesting
| Downloading (target_height current : Z)
| Applying
| Synced.

Record SyncRequest := mkSyncRequest {
  from_height : Z;
  to_height : Z;
  requester : NodeId
}.

Record SyncResponse `{!FloatLib} := mkSyncResponse {
  sr_blocks : list Block;
  sr_from_height : Z;
  has_more : bool
}.

Record SyncProtocol `{!FloatLib} := mkSyncProtocol {
  sp_state : SyncState;
  sp_node_id : NodeId;
  our_height : Z;
  network_height : Z;
  sync_target : Z;
  blocks_received : list Block
}.

Inductive SyncError :=
| UnexpectedHeight (expected got : Z)
| NonContiguousBlocks (expected got : Z)
| InvalidBlock (height : Z) (reason : string)
| BufferFull (current incoming max : Z).

Definition show_SyncError (e : SyncError) : string :=
  match e with
  | UnexpectedHeight expected got =>
      "Expected blocks starting at height " +:+ pretty expected +:+ ", got " +:+ pretty got
  | NonContiguousBlocks expected got =>
      "Non-contiguous blocks: expected height " +:+ pretty expected +:+ ", got " +:+ pretty got
  | InvalidBlock height reason => "Invalid block at height " +:+ pretty height +:+ ": " +:+ reason
  | BufferFull current incoming max =>
      "Block buffer full: " +:+ pretty current +:+ " buffered + " +:+ pretty incoming
        +:+ " incoming exceeds max " +:+ pretty max
  end.

Module ChainSync.

Definition SYNC_BATCH_SIZE : Z := 50.
Definition SYNC_THRESHOLD : Z := 5.
Definition MAX_BUFFER_SIZE : Z := 200.

Definition is_synced (s : SyncState) : bool :=
  match s with Synced | Idle => true | _ => false end.

(** The [f64] shown by the user interface, as its bits. *)
Definition progress (s : SyncState) : Z :=
  match s with
  | Idle | Synced => Ieee.of_int Ieee.f64 1
  | Requesting => Ieee.of_int Ieee.f64 0
  | Downloading target_height current =>
      if decide (target_height = 0) then Ieee.of_int Ieee.f64 1
      else Ieee.fmin Ieee.f64
             (Ieee.fdiv Ieee.f64 (Ieee.of_int Ieee.f64 current) (Ieee.of_int Ieee.f64 target_height))
             (Ieee.of_int Ieee.f64 1)
  | Applying => Ieee.flit Ieee.f64 99 100
  end.

Definition needs_sync (our_height network_height : Z) : bool :=
  bool_decide (network_height > our_height)
  && bool_decide (network_height - our_height >= SYNC_THRESHOLD).

Section protocol.
Context `{!FloatLib, !HashLib, !Bincode}.

Definition new (node_id : NodeId) (initial_height : Z) : SyncProtocol :=
  mkSyncProtocol _ Idle node_id initial_height 0 0 [].

Definition set_state (s : SyncProtocol) (st : SyncState) : SyncProtocol :=
  mkSyncProtocol _ st (sp_node_id s) (our_height s) (network_height s) (sync_target s)
    (blocks_received s).

Definition set_target (s : SyncProtocol) (t : Z) : SyncProtocol :=
  mkSyncProtocol _ (sp_state s) (sp_node_id s) (our_height s) (network_height s) t
    (blocks_received s).

Definition create_sync_request (s : SyncProtocol) : SyncProtocol * option SyncRequest :=
  if negb (needs_sync (our_height s) (network_height s)) then (set_state s Synced, None)
  else
    let s := if decide (sync_target s <= our_height s) then set_target s (network_height s) else s in
    let from_height := wadd 64 (our_height s) 1 in
    let to_height := Z.min (wsub 64 (wadd 64 from_height SYNC_BATCH_SIZE) 1) (sync_target s) in
    (set_state s Requesting, Some (mkSyncRequest from_height to_height (sp_node_id s))).

(** The two loops over neighbouring blocks. *)
Definition contiguous (a b : Block) : result SyncError unit :=
  let prev := height (bl_header a) in
  let next := height (bl_header b) in
  if decide (next <> wadd 64 prev 1) then Err (NonContiguousBlocks (wadd 64 prev 1) next)
  else Ok tt.

Definition linked (a b : Block) : result SyncError unit :=
  match header_hash (bl_header a) with
  | Err _ => Err (InvalidBlock (height (bl_header a)) "Failed to compute block hash")
  | Ok prev_hash =>
      if decide (parent_hash (bl_header b) <> prev_hash) then
        Err (InvalidBlock (height (bl_header b))
               ("Parent hash mismatch: expected " +:+ hex_encode prev_hash +:+ ", got "
                  +:+ hex_encode (parent_hash (bl_header b))))
      else Ok tt
  end.

Definition process_sync_response (s : SyncProtocol) (response : SyncResponse)
  : SyncProtocol * result SyncError (list Block) :=
  let blocks := sr_blocks response in
  match blocks with
  | [] =>
      (set_state s (if decide (our_height s >= sync_target s) then Synced else Idle), Ok [])
  | first :: _ =>
      let first_height := height (bl_header first) in
      let expected_start := wadd 64 (our_height s) 1 in
      if decide (first_height <> expected_start) then
        (s, Err (UnexpectedHeight expected_start first_height))
      else
      let? _ := windows2 contiguous blocks at s in
      let? _ := windows2 linked blocks at s in
      let block_count := Z.of_nat (length blocks) in
      let? last_block := ok_or (last blocks)
          (InvalidBlock 0 "Sync response contained no blocks after validation") at s in
      let last_height := height (bl_header last_block) in
      if decide (Z.of_nat (length (blocks_received s)) + block_count > MAX_BUFFER_SIZE) then
        (s, Err (BufferFull (Z.of_nat (length (blocks_received s))) block_count MAX_BUFFER_SIZE))
      else
        (mkSyncProtocol _ (Downloading (sync_target s) last_height) (sp_node_id s) (our_height s)
           (network_height s) (sync_target s) (blocks_received s ++ blocks), Ok blocks)
  end.

Definition on_block_received (s : SyncProtocol) (h : Z) : SyncProtocol :=
  let s := if decide (h > network_height s) then
             mkSyncProtocol _ (sp_state s) (sp_node_id s) (our_height s) h (sync_target s)
               (blocks_received s)
           else s in
  match sp_state s with
  | Idle | Synced =>
      if needs_sync (our_height s) (network_height s) then set_state s Idle else s
  | _ => s
  end.

Definition mark_blocks_applied (s : SyncProtocol) (new_height : Z) : SyncProtocol :=
  let s := mkSyncProtocol _ (sp_state s) (sp_node_id s) new_height (network_height s)
             (sync_target s)
             (filter (fun b => height (bl_header b) > new_height) (blocks_received s)) in
  if decide (our_height s >= sync_target s) then
    if needs_sync (our_height s) (network_height s) then
      set_state (set_target s (network_height s)) Idle
    else set_state s Synced
  else set_state s (Downloading (sync_target s) (our_height s)).

Definition sync_progress (s : SyncProtocol) : Z * Z :=
  match sp_state s with
  | Idle | Synced => (our_height s, our_height s)
  | Requesting => (our_height s, sync_target s)
  | Downloading target_height current => (current, target_height)
  | Applying => (our_height s, sync_target s)
  end.

Definition reset (s : SyncProtocol) (h : Z) : SyncProtocol :=
  mkSyncProtocol _ Idle (sp_node_id s) h 0 0 [].

Definition buffered_block_count (s : SyncProtocol) : Z := Z.of_nat (length (blocks_received s)).

(** ** What a response must be *)

(** The blocks [l] are the heights [h], [h + 1], ... of one chain. *)
Record segment (h : Z) (l : list Block) : Prop := {
  segment_height : forall i b, l !! i = Some b -> height (bl_header b) = h + Z.of_nat i;
  segment_link : forall i a b, l !! i = Some a -> l !! S i = Some b ->
    header_hash (bl_header a) = Ok (parent_hash (bl_header b))
}.

Lemma contiguous_ok a b :
  contiguous a b = Ok tt <-> height (bl_header b) = wadd 64 (height (bl_header a)) 1.
Proof. unfold contiguous. case_decide; split; congruence. Qed.

Lemma linked_ok a b :
  linked a b = Ok tt <-> header_hash (bl_header a) = Ok (parent_hash (bl_header b)).
Proof.
  unfold linked. destruct (header_hash (bl_header a)) as [h|e]; [|done].
  case_decide; split; congruence.
Qed.

Lemma contiguous_heights h b0 l :
  height (bl_header b0) = h -> 0 <= h -> in_range 64 (h + Z.of_nat (length l)) ->
  windows2 contiguous (b0 :: l) = Ok tt
  <-> forall i b, (b0 :: l) !! i = Some b -> height (bl_header b) = h + Z.of_nat i.
Proof.
  intros <- Hpos Hr. rewrite windows2_ok. split; intros Hl.
  - intros i. induction i as [|i IH]; intros b Hb; [injection Hb as <-; lia|].
    destruct (lookup_lt_is_Some_2 (b0 :: l) i) as [a Ha]; [apply lookup_lt_Some in Hb; lia|].
    specialize (Hl i a b Ha Hb). apply contiguous_ok in Hl as ->. rewrite (IH a Ha).
    apply lookup_lt_Some in Hb; cbn in Hb. rewrite wadd_small; unfold in_range in *; lia.
  - intros i a b Ha Hb. apply contiguous_ok. rewrite (Hl i a Ha), (Hl (S i) b Hb).
    apply lookup_lt_Some in Hb; cbn in Hb. rewrite wadd_small; unfold in_range in *; lia.
Qed.

(** The state after an accepted response. *)
Definition accepted (s : SyncProtocol) (blocks : list Block) : SyncProtocol :=
  mkSyncProtocol _ (Downloading (sync_target s) (our_height s + Z.of_nat (length blocks)))
    (sp_node_id s) (our_height s) (network_height s) (sync_target s) (blocks_received s ++ blocks).

Lemma checks_segment s b0 l :
  0 <= our_height s -> in_range 64 (our_height s + 1 + Z.of_nat (length l)) ->
  segment (our_height s + 1) (b0 :: l)
  <-> height (bl_header b0) = wadd 64 (our_height s) 1
      /\ windows2 contiguous (b0 :: l) = Ok tt /\ windows2 linked (b0 :: l) = Ok tt.
Proof.
  intros Hpos Hr. rewrite wadd_small by (unfold in_range in *; lia).
  assert (forall R : Prop, (R <-> windows2 linked (b0 :: l) = Ok tt) ->
    (R <-> forall i a b, (b0 :: l) !! i = Some a -> (b0 :: l) !! S i = Some b ->
      header_hash (bl_header a) = Ok (parent_hash (bl_header b)))) as Hlink.
  { intros R ->. rewrite windows2_ok. split; intros Hl i a b Ha Hb; apply linked_ok; eauto. }
  specialize (Hlink _ (iff_refl _)).
  split.
  - intros [Hh Hk]. assert (height (bl_header b0) = our_height s + 1) as Hb0
      by (rewrite (Hh 0%nat b0 eq_refl); lia).
    split; [done|]. split; [|by apply Hlink].
    rewrite (contiguous_heights (our_height s + 1)); [done|done|lia|done].
  - intros (Hb0 & Hc & Hk). split; [|by apply Hlink].
    rewrite (contiguous_heights (our_height s + 1)) in Hc; [done|done|lia|done].
Qed.

(** A non-empty response is accepted exactly when its blocks have the heights right
    above the local chain, each is the hash parent of the next and the buffer has room for
    them; then the blocks are returned and buffered.  Otherwise the caller gets an error
    and the protocol state does not change at all. *)
Theorem sync_response_exact s r :
  0 <= our_height s -> sr_blocks r <> [] ->
  in_range 64 (our_height s + Z.of_nat (length (sr_blocks r))) ->
  let fits := segment (our_height s + 1) (sr_blocks r)
              /\ buffered_block_count s + Z.of_nat (length (sr_blocks r)) <= MAX_BUFFER_SIZE in
  (fits -> process_sync_response s r = (accepted s (sr_blocks r), Ok (sr_blocks r)))
  /\ (~ fits -> exists e, process_sync_response s r = (s, Err e)).
Proof.
  intros Hpos Hne Hr. cbn zeta. unfold process_sync_response, buffered_block_count.
  destruct (sr_blocks r) as [|b0 l] eqn:Hbl; [done|]. cbn [length] in Hr.
  assert (in_range 64 (our_height s + 1 + Z.of_nat (length l))) as Hr'
    by (revert Hr; unfold in_range; lia).
  pose proof (checks_segment s b0 l Hpos Hr') as Hiff.
  destruct (last (b0 :: l)) as [lb|] eqn:Hlast; [|by apply last_None in Hlast].
  split.
  - intros [Hseg Hfit]. destruct (proj1 Hiff Hseg) as (Hb0 & Hc & Hk).
    rewrite decide_False by (intros ?; contradiction). rewrite Hc, Hk. cbn [ok_or].
    rewrite decide_False by lia. unfold accepted. rewrite last_lookup in Hlast.
    rewrite (segment_height _ _ Hseg _ _ Hlast). cbn [length pred].
    assert (our_height s + 1 + Z.of_nat (length l) = our_height s + Z.of_nat (S (length l))) as ->
      by lia. done.
  - intros Hnot. case_decide as Hd; [by eexists|].
    destruct (windows2 contiguous (b0 :: l)) as [[]|e] eqn:Hc; [|by eexists].
    destruct (windows2 linked (b0 :: l)) as [[]|e] eqn:Hk; [|by eexists]. cbn [ok_or].
    case_decide as Hfull; [by eexists|]. exfalso. apply Hnot. split; [|lia].
    apply Hiff. destruct (decide (height (bl_header b0) = wadd 64 (our_height s) 1)); done.
Qed.

(** ** Histories *)

Inductive sync_step : SyncProtocol -> SyncProtocol -> Prop :=
| step_request s : sync_step s (fst (create_sync_request s))
| step_response s r : sync_step s (fst (process_sync_response s r))
| step_gossip s h : sync_step s (on_block_received s h)
| step_applied s h : sync_step s (mark_blocks_applied s h)
| step_reset s h : sync_step s (reset s h).

Lemma response_state s r :
  fst (process_sync_response s r) = s
  \/ (exists st, fst (process_sync_response s r) = set_state s st)
  \/ (buffered_block_count s + Z.of_nat (length (sr_blocks r)) <= MAX_BUFFER_SIZE
      /\ blocks_received (fst (process_sync_response s r)) = blocks_received s ++ sr_blocks r).
Proof.
  unfold process_sync_response, buffered_block_count.
  destruct (sr_blocks r) as [|b0 l]; [right; left; by eexists|].
  case_decide; [by left|]. destruct (windows2 contiguous _) as [[]|]; [|by left].
  destruct (windows2 linked _) as [[]|]; [|by left].
  destruct (ok_or _ _); [|by left]. case_decide; [by left|]. right; right. split; [lia|done].
Qed.

(** The buffer of a phone never holds more than [MAX_BUFFER_SIZE] blocks. *)
Theorem sync_buffer_bounded node h s :
  rtc sync_step (new node h) s -> buffered_block_count s <= MAX_BUFFER_SIZE.
Proof.
  intros Hr. refine (rtc_ind_r (fun s => buffered_block_count s <= MAX_BUFFER_SIZE) _ _ _ s Hr); [done|].
  clear. intros s t _ Hst IH; destruct Hst as [s|s r|s g|s g|s g]; unfold buffered_block_count in *.
  - unfold create_sync_request. destruct (negb _); [done|]. by case_decide.
  - destruct (response_state s r) as [->|[[st ->]|[Hle ->]]]; [done|done|].
    unfold buffered_block_count in Hle. rewrite length_app. lia.
  - unfold on_block_received. case_decide; cbn [sp_state]; destruct (sp_state s); try done;
      cbn [needs_sync]; destruct (needs_sync _ _); done.
  - assert (forall k : Z, Z.of_nat (length (filter (fun b => height (bl_header b) > k) (blocks_received s)))
        <= MAX_BUFFER_SIZE) as Hf
      by (intros k; pose proof (length_filter (fun b => height (bl_header b) > k) (blocks_received s)); lia).
    unfold mark_blocks_applied. cbn [our_height sync_target network_height].
    case_decide; [destruct (needs_sync _ _)|]; apply Hf.
  - cbn. unfold MAX_BUFFER_SIZE. lia.
Qed.

(** ** Catching up *)

(** A peer that serves the heights of its chain. *)
Section honest_peer.
Variable chain : Z -> Block.
Hypothesis chain_height : forall h, height (bl_header (chain h)) = h.
Hypothesis chain_link : forall h,
  header_hash (bl_header (chain h)) = Ok (parent_hash (bl_header (chain (h + 1)))).

Definition serve (r : SyncRequest) : SyncResponse :=
  mkSyncResponse _ (chain <$> seqZ (from_height r) (to_height r - from_height r + 1))
    (from_height r) true.

(** One batch: request, response, and the blocks applied by the caller. *)
Definition sync_round (s : SyncProtocol) : SyncProtocol :=
  match create_sync_request s with
  | (s, None) => s
  | (s, Some r) =>
      match process_sync_response s (serve r) with
      | (s, Ok blocks) =>
          match last blocks with
          | Some b => mark_blocks_applied s (height (bl_header b))
          | None => s
          end
      | (s, Err _) => s
      end
  end.

Lemma served_segment from n : segment from (chain <$> seqZ from n).
Proof.
  split.
  - intros i b. rewrite list_lookup_fmap, fmap_Some. intros (k & Hk & ->).
    apply lookup_seqZ in Hk as [-> _]. apply chain_height.
  - intros i a b. rewrite !list_lookup_fmap, !fmap_Some. intros (k & Hk & ->) (k' & Hk' & ->).
    apply lookup_seqZ in Hk as [-> _]. apply lookup_seqZ in Hk' as [-> _]. rewrite chain_link.
    do 4 f_equal. lia.
Qed.

(** The states between two batches. *)
Record between (tip : Z) (s : SyncProtocol) : Prop := {
  bt_pos : 0 <= our_height s;
  bt_net : network_height s = tip;
  bt_our : our_height s <= tip;
  bt_target : sync_target s <= tip;
  bt_range : tip < 2 ^ 64 - SYNC_BATCH_SIZE;
  bt_buffer : blocks_received s = []
}.

(** A batch of a node that is behind ends where it should and keeps the buffer empty. *)
Lemma round_advances tip s :
  between tip s -> needs_sync (our_height s) tip = true ->
  let target := if decide (sync_target s <= our_height s) then tip else sync_target s in
  let h := Z.min (our_height s + SYNC_BATCH_SIZE) target in
  between tip (sync_round s) /\ our_height (sync_round s) = h
  /\ (sync_target (sync_round s) = target \/ our_height s < h /\ sync_target (sync_round s) = tip /\ h = target).
Proof.
  intros [Hpos <- Hour Htar Hrange Hbuf] Hneed. cbn zeta.
  set (target := if decide (sync_target s <= our_height s) then network_height s else sync_target s).
  assert (our_height s < target <= network_height s) as Ht.
  { unfold needs_sync in Hneed. apply andb_true_iff in Hneed as [Hgt _].
    apply bool_decide_eq_true in Hgt. unfold target. case_decide; lia. }
  unfold sync_round, create_sync_request. rewrite Hneed. cbn [negb].
  set (s1 := if decide (sync_target s <= our_height s) then _ else s).
  assert (s1 = set_target s target) as ->.
  { unfold s1, target. case_decide; [done|]. by destruct s. }
  cbn [set_target our_height sync_target sp_node_id].
  unfold SYNC_BATCH_SIZE in *.
  rewrite (wadd_small 64 (our_height s) 1) by (unfold in_range; lia).
  rewrite (wadd_small 64 (our_height s + 1) 50) by (unfold in_range; lia).
  rewrite wsub_small by (unfold in_range; lia).
  replace (our_height s + 1 + 50 - 1) with (our_height s + 50) by lia.
  set (h := Z.min (our_height s + 50) target).
  set (s2 := set_state _ Requesting). set (r := serve _).
  assert (sr_blocks r = chain <$> seqZ (our_height s + 1) (h - our_height s)) as Hbl.
  { unfold r, serve. cbn. do 2 f_equal. lia. }
  assert (length (sr_blocks r) = Z.to_nat (h - our_height s)) as Hlen
    by (rewrite Hbl, length_fmap, length_seqZ; done).
  destruct (sync_response_exact s2 r) as [Hok _].
  { cbn. lia. }
  { intros Hnil. rewrite Hnil in Hlen. cbn in Hlen. lia. }
  { change (our_height s2) with (our_height s). rewrite Hlen. unfold in_range. lia. }
  rewrite Hok; clear Hok.
  2:{ split; [rewrite Hbl; apply served_segment|]. rewrite Hlen. unfold buffered_block_count, MAX_BUFFER_SIZE.
      change (blocks_received s2) with (blocks_received s). rewrite Hbuf. cbn [length]. lia. }
  assert (last (sr_blocks r) = Some (chain h)) as Hlast.
  { rewrite last_lookup, Hlen, Hbl, list_lookup_fmap, lookup_seqZ_lt by lia. cbn [fmap option_fmap option_map].
    do 2 f_equal. lia. }
  rewrite Hlast, chain_height. unfold mark_blocks_applied.
  unfold accepted. cbn [our_height sync_target network_height blocks_received sp_node_id].
  change (blocks_received s2) with (blocks_received s). change (sync_target s2) with target.
  change (network_height s2) with (network_height s).
  rewrite Hbuf. cbn [app].
  assert (filter (fun b => height (bl_header b) > h) (sr_blocks r) = []) as Hnil.
  { apply filter_none. intros b Hb Hgt. rewrite Hbl in Hb.
    apply list_elem_of_fmap in Hb as (k & -> & Hk). apply elem_of_seqZ in Hk.
    rewrite chain_height in Hgt. lia. }
  rewrite Hnil. case_decide as Hge; [destruct (needs_sync h (network_height s))|].
  - split; [by split; cbn; try lia|]. split; [done|]. right. cbn. lia.
  - split; [by split; cbn; try lia|]. split; [done|]. by left.
  - split; [by split; cbn; try lia|]. split; [done|]. by left.
Qed.

Lemma needs_sync_spec a b : needs_sync a b = true <-> a + SYNC_THRESHOLD <= b.
Proof.
  unfold needs_sync, SYNC_THRESHOLD. rewrite andb_true_iff, !bool_decide_eq_true. lia.
Qed.

Lemma rounds_synced tip s n :
  between tip s -> needs_sync (our_height s) tip = false ->
  Nat.iter (S n) sync_round s = set_state s Synced.
Proof.
  intros [_ <- _ _ _ _] Hneed. induction n as [|n IH].
  - cbn. unfold sync_round, create_sync_request. by rewrite Hneed.
  - rewrite Nat.iter_succ, IH. unfold sync_round, create_sync_request. cbn. by rewrite Hneed.
Qed.

(** [p] batches of [SYNC_BATCH_SIZE] blocks to the target of a session that is under way,
    [q] from there. *)
Lemma rounds_reach tip p q s :
  between tip s -> sync_target s - our_height s <= SYNC_BATCH_SIZE * Z.of_nat p ->
  tip - Z.max (sync_target s) (our_height s) <= SYNC_BATCH_SIZE * Z.of_nat q ->
  let t := Nat.iter (S (p + q)) sync_round s in
  sp_state t = Synced /\ between tip t /\ tip < our_height t + SYNC_THRESHOLD.
Proof.
  intros Hs. remember (p + q)%nat as n eqn:Hn. revert p q s Hs Hn.
  induction n as [|n IH]; intros p q s Hs Hn Hp Hq; cbn zeta;
    destruct (needs_sync (our_height s) tip) eqn:Hneed.
  2, 4: rewrite (rounds_synced tip) by done; split; [done|]; split; [by destruct Hs; split|];
    apply not_true_iff_false in Hneed; rewrite needs_sync_spec in Hneed; cbn; lia.
  - apply needs_sync_spec in Hneed. unfold SYNC_THRESHOLD, SYNC_BATCH_SIZE in *. lia.
  - destruct (round_advances tip s Hs Hneed) as (Hs' & Hour & Htar).
    apply needs_sync_spec in Hneed. pose proof (bt_target _ _ Hs). rewrite Nat.iter_succ_r.
    unfold SYNC_THRESHOLD, SYNC_BATCH_SIZE in Hneed, Hour, Hp, Hq, Htar. case_decide as Hd.
    + apply (IH n 0%nat); unfold SYNC_BATCH_SIZE; [done|lia|lia|lia].
    + destruct Htar as [Htar|(Hlt & Htar & Hh)].
      * apply (IH (p - 1)%nat q); unfold SYNC_BATCH_SIZE; [done|lia|lia|lia].
      * apply (IH q (p - 1)%nat); unfold SYNC_BATCH_SIZE; [done|lia|lia|lia].
Qed.
End honest_peer.

(** C11: catching up.  A node at height [h] that has heard of height [tip] and syncs with a
    peer that serves its chain ends up [Synced] after one batch per 50 missing blocks and
    a last check, at most four blocks below [tip] (gaps under the threshold are left to
    gossip), never above it, and with an empty buffer. *)
Theorem sync_catches_up (chain : Z -> Block) node h tip n :
  (forall k, height (bl_header (chain k)) = k) ->
  (forall k, header_hash (bl_header (chain k)) = Ok (parent_hash (bl_header (chain (k + 1))))) ->
  0 <= h <= tip -> tip < 2 ^ 64 - SYNC_BATCH_SIZE -> tip - h <= SYNC_BATCH_SIZE * Z.of_nat n ->
  let t := Nat.iter (S n) (sync_round chain) (on_block_received (new node h) tip) in
  sp_state t = Synced /\ tip - SYNC_THRESHOLD < our_height t <= tip /\ blocks_received t = [].
Proof.
  intros Hh Hl Hr Hmax Hn. set (s := on_block_received _ tip).
  assert (between tip s /\ our_height s = h /\ sync_target s = 0) as (Hs & Ho & Ht).
  { unfold s, on_block_received, new. cbn. case_decide; cbn; destruct (needs_sync _ _); cbn;
      (split; [split; cbn; try done; lia|done]). }
  destruct (rounds_reach chain Hh Hl tip 0 n s Hs) as (Hst & Hb & Hlt);
    [lia|unfold SYNC_BATCH_SIZE in *; lia|]. cbn [Nat.add] in *.
  split; [done|]. split; [pose proof (bt_our _ _ Hb); lia|apply Hb].
Qed.

(** [is_synced] of a state is documented as being fully caught up: it also holds for a node
    that has just learnt that it is a thousand blocks behind. *)
Theorem behind_reported_synced node :
  let s := on_block_received (new node 0) 1000 in
  needs_sync (our_height s) (network_height s) = true /\ is_synced (sp_state s) = true
  /\ sync_progress s = (0, 0).
Proof. done. Qed.
End protocol.

(** ** A concrete chain *)

Module Sample.

#[local] Existing Instance reference_hash.
#[local] Existing Instance reference_float.

(** A codec that encodes a header by its height. *)
#[local] Instance by_height : Bincode := {|
  encode_header := fun h => Ok (le_bytes 8 (height h));
  encode_payload := fun _ => Ok [];
  encode_attestation := fun _ => Ok [];
  encode_block := fun _ => Ok []
|}.

Definition chain (k : Z) : Block :=
  mkBlock (mkBlockHeader k 0 (sha256 (le_bytes 8 (k - 1))) [] [] [] [] [] 0 0 []) [] [] [].

Lemma sync_catches_up_witness :
  let t := Nat.iter 4 (sync_round chain) (on_block_received (new [1] 3) 120) in
  sp_state t = Synced /\ 120 - SYNC_THRESHOLD < our_height t <= 120 /\ blocks_received t = [].
Proof.
  apply (sync_catches_up chain [1] 3 120 3).
  - done.
  - intros k. unfold header_hash, chain. cbn [encode_header by_height bl_header height parent_hash].
    by replace (k + 1 - 1) with k by lia.
  - lia.
  - unfold SYNC_BATCH_SIZE. lia.
  - unfold SYNC_BATCH_SIZE. lia.
Defined.

(** The batches end at heights 53, 103 and 120. *)
Example batches :
  (fun n => our_height (Nat.iter n (sync_round chain) (on_block_received (new [1] 3) 120))) <$> [1; 2; 3; 4]%nat
  = [53; 103; 120; 120].
Proof. vm_compute. done. Qed.

(** A block that is not the child of the one before it is refused. *)
Lemma sync_response_exact_witness :
  let r := mkSyncResponse _ [chain 4; chain 4] 4 false in
  exists e, process_sync_response (new [1] 3) r = (new [1] 3, Err e).
Proof.
  apply (sync_response_exact (new [1] 3) (mkSyncResponse _ [chain 4; chain 4] 4 false)).
  - cbn. lia.
  - done.
  - cbn. unfold in_range. lia.
  - intros [[Hh _] _]. specialize (Hh 1%nat (chain 4) eq_refl). cbn in Hh. lia.
Defined.

End Sample.
End ChainSync.
