(* ===== verification/NetSync.v ===== *)
(** * gratia-network: state synchronization

    [crates/gratia-network/src/sync.rs]: the [SyncManager], which tracks the chain tips of
    the peers and hands out block ranges to fetch, and the sync handlers of the network
    event loop ([crates/gratia-network/src/lib.rs]).

    The order in which a [HashMap] is iterated is not specified: it is the class
    [HashOrder].  A libp2p [PeerId] is any countable type with its byte encoding.

    Theorems: over every history at most three ranges are outstanding, each of at most 50
    blocks, pairwise disjoint ([sync_ranges_disjoint]); the network height lies within the
    heights of the honest peers when they are a majority ([network_height_honest]); an
    honest peer's answer to a request is exactly the range asked for and is accepted
    ([sync_exchange]).  [unsolicited_blocks_stop_sync] and [later_batch_skips_earlier] show
    two ways in which the handlers lose track of missing blocks. *)

From stdpp Require Import base tactics strings gmap list sets sorting pretty fin_maps.
From Stdlib Require Import ZArith Lia.
From S2P Require Import Prelude CoreTypes ThirdParty Crypto Blocks Ieee ChainSync.
Local Open Scope Z_scope.

(** The iteration order of a [HashMap]: some permutation of its entries. *)
Class HashOrder (K : Type) `{Countable K} := {
  hash_iter : forall V, gmap K V -> list (K * V);
  hash_iter_perm : forall V (m : gmap K V), hash_iter V m ≡ₚ map_to_list m
}.
Arguments hash_iter {_ _ _ _} {_} _.

Inductive NetworkError :=
| NetTransport (msg : string)
| NetDialFailure (msg : string)
| NetListenFailure (msg : string)
| NetPublishError (msg : string)
| NetSubscriptionError (topic reason : string)
| NetDiscoveryError (msg : string)
| NetPeerNotFound (msg : string)
| NetSyncError (msg : string)
| NetMessageTooLarge (size max : nat)
| NetDuplicateMessage (msg : string)
| NetInvalidMessage (msg : string)
| NetSerialization (msg : string)
| NetNotStarted
| NetAlreadyStarted
| NetConnectionLimitReached (current max : nat)
| NetBootstrapFailed
| NetChannelError (msg : string).

Definition show_NetworkError (e : NetworkError) : string :=
  match e with
  | NetTransport msg => "Transport error: " +:+ msg
  | NetDialFailure msg => "Failed to dial peer: " +:+ msg
  | NetListenFailure msg => "Failed to listen on address: " +:+ msg
  | NetPublishError msg => "Gossipsub publish failed: " +:+ msg
  | NetSubscriptionError topic reason =>
      "Gossipsub subscription failed for topic '" +:+ topic +:+ "': " +:+ reason
  | NetDiscoveryError msg => "Peer discovery failed: " +:+ msg
  | NetPeerNotFound msg => "Peer not found: " +:+ msg
  | NetSyncError msg => "Sync error: " +:+ msg
  | NetMessageTooLarge size max =>
      "Message too large: " +:+ pretty size +:+ " bytes (max: " +:+ pretty max +:+ " bytes)"
  | NetDuplicateMessage msg => "Duplicate message: " +:+ msg
  | NetInvalidMessage msg => "Invalid message: " +:+ msg
  | NetSerialization msg => "Serialization error: " +:+ msg
  | NetNotStarted => "Network not started"
  | NetAlreadyStarted => "Network already started"
  | NetConnectionLimitReached current max =>
      "Connection limit reached: " +:+ pretty current +:+ "/" +:+ pretty max
  | NetBootstrapFailed => "Bootstrap failed: no bootstrap peers reachable"
  | NetChannelError msg => "Channel send error: " +:+ msg
  end.

Module NetSync.

(** ** Data *)

Inductive SyncState :=
| Synced
| Syncing (local_height target_height : Z)
| Behind (local_height network_height : Z)
| Unknown.

Inductive SyncRequest :=
| GetBlocks (from_height to_height : Z)
| GetChainTip
| GetHeaders (from_height to_height : Z)
| ForwardAnnouncement (data : bytes).

Record PeerChainState := mkPeerChainState {
  pc_height : Z;
  tip_hash : Hash;
  last_updated : DateTime
}.

Definition MAX_BLOCKS_PER_REQUEST : Z := 50.
Definition MIN_PEERS_FOR_SYNC_DECISION : Z := 1.
Definition SYNC_REQUEST_TIMEOUT_SECS : Z := 30.
Definition PEER_STALE_TIMEOUT_SECS : Z := 300.
Definition MAX_CONCURRENT_SYNC_REQUESTS : Z := 3.

Definition is_synced (s : SyncState) : bool := match s with Synced => true | _ => false end.

Definition ratio (a b : Z) : Z :=
  if decide (b = 0) then Ieee.of_int Ieee.f64 1
  else Ieee.fdiv Ieee.f64 (Ieee.of_int Ieee.f64 a) (Ieee.of_int Ieee.f64 b).

(** The [f64] shown by the user interface, as its bits. *)
Definition progress (s : SyncState) : Z :=
  match s with
  | Synced => Ieee.of_int Ieee.f64 1
  | Syncing local_height target_height => ratio local_height target_height
  | Behind local_height network_height => ratio local_height network_height
  | Unknown => Ieee.of_int Ieee.f64 1
  end.

Record SyncMaintenanceSummary := mkSummary {
  stale_peers_evicted : Z;
  timed_out_requests : Z
}.

Section manager.
Context {PeerId : Type} `{!EqDecision PeerId, !Countable PeerId, !HashOrder PeerId}.
Context `{!FloatLib, !HashLib, !Bincode}.

Inductive SyncResponse :=
| Blocks (blocks : list Block)
| ChainTip (height : Z) (hash : Hash)
| Headers (headers : list (Z * Hash))
| Error (msg : string)
| AnnounceAck.

Inductive SyncPayload :=
| Request (r : SyncRequest)
| Response (r : SyncResponse).

Record SyncProtocolMessage := mkMessage {
  source : bytes;
  target : bytes;
  sm_payload : SyncPayload
}.

Definition is_for_peer (m : SyncProtocolMessage) (peer_bytes : bytes) : bool :=
  bool_decide (target m = []) || bool_decide (target m = peer_bytes).

(** A range that was asked for: first and last height, time of the request. *)
Record PendingRange := mkRange {
  pr_from : Z;
  pr_to : Z;
  requested_at : DateTime
}.

Record SyncManager := mkSyncManager {
  state : SyncState;
  local_height : Z;
  local_tip : Hash;
  peer_states : gmap PeerId PeerChainState;
  pending_requests : gmap PeerId PendingRange;
  consecutive_failures : Z
}.

Definition new (local_height : Z) (local_tip : Hash) : SyncManager :=
  mkSyncManager Unknown local_height local_tip ∅ ∅ 0.

Definition set_state (m : SyncManager) (s : SyncState) : SyncManager :=
  mkSyncManager s (local_height m) (local_tip m) (peer_states m) (pending_requests m)
    (consecutive_failures m).
Definition set_peers (m : SyncManager) ps pend : SyncManager :=
  mkSyncManager (state m) (local_height m) (local_tip m) ps pend (consecutive_failures m).
Definition set_failures (m : SyncManager) (n : Z) : SyncManager :=
  mkSyncManager (state m) (local_height m) (local_tip m) (peer_states m) (pending_requests m) n.
Definition failed (m : SyncManager) : SyncManager :=
  set_failures m (wadd 32 (consecutive_failures m) 1).

(** ** Peers and the network height *)

(** The median of the reported heights. *)
Definition best_network_height (m : SyncManager) : option Z :=
  if decide (Z.of_nat (size (peer_states m)) < MIN_PEERS_FOR_SYNC_DECISION) then None
  else
    let heights := merge_sort Z.le (pc_height ∘ snd <$> hash_iter (peer_states m)) in
    heights !! (length heights / 2)%nat.

Definition reevaluate_sync_state (m : SyncManager) : SyncManager :=
  match best_network_height m with
  | None => set_state m Unknown
  | Some network_height =>
      if decide (local_height m >= network_height) then set_state m Synced
      else if decide (pending_requests m = ∅) then
        set_state m (Behind (local_height m) network_height)
      else set_state m (Syncing (local_height m) network_height)
  end.

Definition update_local_state (m : SyncManager) (h : Z) (tip : Hash) : SyncManager :=
  reevaluate_sync_state
    (mkSyncManager (state m) h tip (peer_states m) (pending_requests m) (consecutive_failures m)).

Definition update_peer_state (m : SyncManager) (peer : PeerId) (h : Z) (tip : Hash) (now : DateTime)
  : SyncManager :=
  reevaluate_sync_state
    (set_peers m (<[peer := mkPeerChainState h tip now]> (peer_states m)) (pending_requests m)).

Definition remove_peer (m : SyncManager) (peer : PeerId) : SyncManager :=
  reevaluate_sync_state
    (set_peers m (delete peer (peer_states m)) (delete peer (pending_requests m))).

Definition drop_peers (m : SyncManager) (peers : list PeerId) : SyncManager :=
  foldl (fun m peer => set_peers m (delete peer (peer_states m)) (delete peer (pending_requests m)))
    m peers.

Definition evict_stale_peers (m : SyncManager) (now : DateTime) : SyncManager * Z :=
  let stale_cutoff := duration_seconds PEER_STALE_TIMEOUT_SECS in
  let stale_peers :=
    fst <$> filter (fun '(_, st) => now - last_updated st > stale_cutoff) (hash_iter (peer_states m)) in
  let count := Z.of_nat (length stale_peers) in
  let m := drop_peers m stale_peers in
  ((if decide (count > 0) then reevaluate_sync_state m else m), count).

Definition drop_pending (m : SyncManager) (peers : list PeerId) : SyncManager :=
  foldl (fun m peer => set_peers m (peer_states m) (delete peer (pending_requests m))) m peers.

Definition cancel_timed_out_requests (m : SyncManager) (now : DateTime) : SyncManager * list PeerId :=
  let timeout := duration_seconds SYNC_REQUEST_TIMEOUT_SECS in
  let timed_out :=
    fst <$> filter (fun '(_, r) => now - requested_at r > timeout) (hash_iter (pending_requests m)) in
  let m := drop_pending m timed_out in
  match timed_out with
  | [] => (m, [])
  | _ => (reevaluate_sync_state (failed m), timed_out)
  end.

Definition tick_maintenance (m : SyncManager) (now now' : DateTime) : SyncManager * SyncMaintenanceSummary :=
  let '(m, stale_evicted) := evict_stale_peers m now in
  let '(m, timed_out) := cancel_timed_out_requests m now' in
  (m, mkSummary stale_evicted (Z.of_nat (length timed_out))).

(** ** Requests *)

Definition max_list (l : list Z) : option Z :=
  match l with [] => None | x :: l => Some (foldl Z.max x l) end.

Definition highest_requested (m : SyncManager) : Z :=
  default (local_height m) (max_list (pr_to ∘ snd <$> hash_iter (pending_requests m))).

Definition next_sync_request (m : SyncManager) (now : DateTime)
  : SyncManager * option (PeerId * SyncRequest) :=
  if decide (Z.of_nat (size (pending_requests m)) >= MAX_CONCURRENT_SYNC_REQUESTS) then (m, None)
  else
  match best_network_height m with
  | None => (m, None)
  | Some network_height =>
      if decide (local_height m >= network_height) then (m, None)
      else
      match checked_add 64 (highest_requested m) 1 with
      | None => (m, None)
      | Some from =>
          if decide (from > network_height) then (m, None)
          else
          let to := Z.min (default network_height (checked_add 64 from (MAX_BLOCKS_PER_REQUEST - 1)))
                      network_height in
          match filter (fun '(peer_id, st) => pc_height st >= to /\ pending_requests m !! peer_id = None)
                  (hash_iter (peer_states m)) with
          | [] => (m, None)
          | (peer, _) :: _ =>
              (set_state (set_peers m (peer_states m) (<[peer := mkRange from to now]> (pending_requests m)))
                 (Syncing (local_height m) network_height),
               Some (peer, GetBlocks from to))
          end
      end
  end.

(** ** Responses *)

Definition contiguous (a b : Block) : result NetworkError unit :=
  if decide (height (bl_header b) <> wadd 64 (height (bl_header a)) 1) then
    Err (NetSyncError "Received non-contiguous blocks")
  else Ok tt.

Definition linked (a b : Block) : result NetworkError unit :=
  match header_hash (bl_header a) with
  | Ok prev_hash =>
      if decide (parent_hash (bl_header b) <> prev_hash) then
        Err (NetSyncError ("Hash chain broken at height " +:+ pretty (height (bl_header b))
                             +:+ ": parent_hash mismatch"))
      else Ok tt
  | Err e =>
      Err (NetSyncError ("Failed to hash block at height " +:+ pretty (height (bl_header a)) +:+ ": "
                           +:+ display_error e))
  end.

(** The checks of an answer to the range that starts at [from]. *)
Definition check_range (from : Z) (blocks : list Block) : result NetworkError unit :=
  let?? _ :=
    match blocks with
    | first :: _ =>
        if decide (height (bl_header first) <> from) then
          Err (NetSyncError ("Expected blocks starting at height " +:+ pretty from +:+ ", got "
                               +:+ pretty (height (bl_header first))))
        else Ok tt
    | [] => Ok tt
    end in
  let?? _ := windows2 contiguous blocks in
  windows2 linked blocks.

Definition handle_blocks_response (m : SyncManager) (peer : PeerId) (blocks : list Block)
  : SyncManager * result NetworkError (list Block) :=
  let expected := pending_requests m !! peer in
  let m := set_peers m (peer_states m) (delete peer (pending_requests m)) in
  match expected with
  | Some r =>
      match check_range (pr_from r) blocks with
      | Err e => (failed m, Err e)
      | Ok _ => (set_failures m 0, Ok blocks)
      end
  | None => (set_failures m 0, Ok blocks)
  end.

Fixpoint collect_headers (blocks : list Block) : result string (list (Z * Hash)) :=
  match blocks with
  | [] => Ok []
  | b :: rest =>
      match header_hash (bl_header b) with
      | Err e => Err ("Failed to hash header at height " +:+ pretty (height (bl_header b)) +:+ ": "
                        +:+ display_error e)
      | Ok hash => let?? rest := collect_headers rest in Ok ((height (bl_header b), hash) :: rest)
      end
  end.

Definition handle_sync_request (m : SyncManager) (request : SyncRequest)
    (get_blocks : Z -> Z -> option (list Block)) : SyncResponse :=
  match request with
  | GetChainTip => ChainTip (local_height m) (local_tip m)
  | GetBlocks from_height to_height =>
      let clamped_to := Z.min to_height (wsub 64 (wadd 64 from_height MAX_BLOCKS_PER_REQUEST) 1) in
      if decide (from_height > local_height m) then
        Error ("Requested height " +:+ pretty from_height +:+ " is above our chain tip "
                 +:+ pretty (local_height m))
      else
      match get_blocks from_height clamped_to with
      | Some blocks => Blocks blocks
      | None => Error "Failed to retrieve blocks"
      end
  | ForwardAnnouncement _ => AnnounceAck
  | GetHeaders from_height to_height =>
      let clamped_to := Z.min to_height (wsub 64 (wadd 64 from_height MAX_BLOCKS_PER_REQUEST) 1) in
      match get_blocks from_height clamped_to with
      | Some blocks =>
          match collect_headers blocks with
          | Ok headers => Headers headers
          | Err msg => Error msg
          end
      | None => Error "Failed to retrieve headers"
      end
  end.

Definition tracked_peer_count (m : SyncManager) : Z := Z.of_nat (size (peer_states m)).
Definition pending_request_count (m : SyncManager) : Z := Z.of_nat (size (pending_requests m)).

(** ** The handlers of the event loop *)

(** [bincode] of the sync messages and the byte encoding of peer ids. *)
Class SyncCodec := {
  encode_message : SyncProtocolMessage -> result string bytes;
  decode_message : bytes -> result string SyncProtocolMessage;
  peer_to_bytes : PeerId -> bytes;
  peer_from_bytes : bytes -> result string PeerId
}.

Context `{!SyncCodec}.

Definition to_bytes (msg : SyncProtocolMessage) : result NetworkError bytes :=
  match encode_message msg with Ok b => Ok b | Err e => Err (NetSerialization e) end.
Definition from_bytes (data : bytes) : result NetworkError SyncProtocolMessage :=
  match decode_message data with Ok b => Ok b | Err e => Err (NetSerialization e) end.

(** What a handler does besides changing the manager: a direct request to a peer, a
    message published to the sync topic, an event for the application. *)
Inductive SyncAction :=
| SendRequest (peer : PeerId) (r : SyncRequest)
| Publish (data : bytes)
| SyncStateChanged (s : SyncState)
| SyncBlocksReceived (blocks : list Block).

Definition publish (msg : SyncProtocolMessage) : list SyncAction :=
  match to_bytes msg with Ok data => [Publish data] | Err _ => [] end.

(** [while let Some((peer, request)) = sync_manager.next_sync_request()]; [clock] is the
    time read by each call.  Each iteration adds a pending request, so the loop ends
    within the limit of concurrent requests. *)
Fixpoint send_loop (fuel : nat) (m : SyncManager) (clock : nat -> DateTime)
  : SyncManager * list SyncAction :=
  match fuel with
  | O => (m, [])
  | S fuel =>
      match next_sync_request m (clock 0%nat) with
      | (m, Some (peer, request)) =>
          let '(m, rest) := send_loop fuel m (clock ∘ S) in (m, SendRequest peer request :: rest)
      | (m, None) => (m, [])
      end
  end.

Definition try_send_next_sync_request (m : SyncManager) (clock : nat -> DateTime)
  : SyncManager * list SyncAction := send_loop 4 m clock.

(** The local height follows the last block of an accepted batch. *)
Definition note_last (m : SyncManager) (blocks : list Block) : SyncManager :=
  match last blocks with
  | Some b =>
      match header_hash (bl_header b) with
      | Ok hash => update_local_state m (height (bl_header b)) hash
      | Err _ => m
      end
  | None => m
  end.

(** The response of a peer to a direct request. *)
Definition handle_direct_response (m : SyncManager) (peer : PeerId) (response : SyncResponse)
    (clock : nat -> DateTime) : SyncManager * list SyncAction :=
  match response with
  | Blocks blocks =>
      match handle_blocks_response m peer blocks with
      | (m, Err _) => (m, [])
      | (m, Ok []) => (m, [])
      | (m, Ok validated_blocks) =>
          let '(m, requests) := try_send_next_sync_request (note_last m validated_blocks) clock in
          (m, SyncBlocksReceived validated_blocks :: requests)
      end
  | ChainTip h hash =>
      let m := update_peer_state m peer h hash (clock 0%nat) in
      let '(m, requests) := try_send_next_sync_request m (clock ∘ S) in
      (m, requests ++ [SyncStateChanged (state m)])
  | Headers _ | AnnounceAck | Error _ => (m, [])
  end.

Definition request_next (local_peer_bytes : bytes) (m : SyncManager) (now : DateTime)
  : SyncManager * list SyncAction :=
  match next_sync_request m now with
  | (m, Some (peer, request)) =>
      (m, publish (mkMessage local_peer_bytes (peer_to_bytes peer) (Request request)))
  | (m, None) => (m, [])
  end.

(** A message of the sync topic. *)
Definition handle_sync_message (data local_peer_bytes : bytes) (m : SyncManager)
    (provider : Z -> Z -> list Block) (clock : nat -> DateTime) : SyncManager * list SyncAction :=
  match from_bytes data with
  | Err _ => (m, [])
  | Ok msg =>
      if negb (is_for_peer msg local_peer_bytes) then (m, [])
      else if decide (source msg = local_peer_bytes) then (m, [])
      else
      match peer_from_bytes (source msg) with
      | Err _ => (m, [])
      | Ok source_peer =>
          match sm_payload msg with
          | Request request =>
              let response := handle_sync_request m request
                (fun from to => match provider from to with [] => None | blocks => Some blocks end) in
              (m, publish (mkMessage local_peer_bytes (source msg) (Response response)))
          | Response (ChainTip h hash) =>
              let m := update_peer_state m source_peer h hash (clock 0%nat) in
              let '(m, requests) := request_next local_peer_bytes m (clock 1%nat) in
              (m, requests ++ [SyncStateChanged (state m)])
          | Response (Blocks blocks) =>
              let '(m, actions) :=
                match handle_blocks_response m source_peer blocks with
                | (m, Err _) => (m, [])
                | (m, Ok []) => (m, [])
                | (m, Ok validated_blocks) =>
                    let '(m, requests) :=
                      request_next local_peer_bytes (note_last m validated_blocks) (clock 0%nat) in
                    (m, SyncBlocksReceived validated_blocks :: requests)
                end in
              (m, actions ++ [SyncStateChanged (state m)])
          | Response (Headers _) | Response (Error _) | Response AnnounceAck => (m, [])
          end
      end
  end.

(** ** Outstanding ranges *)

Definition disjoint_ranges (r r' : PendingRange) : Prop := pr_to r < pr_from r' \/ pr_to r' < pr_from r.

(** At most three ranges are outstanding, each holds between 1 and 50 heights, and no height
    is asked for twice. *)
Record ranges_ok (pend : gmap PeerId PendingRange) : Prop := {
  ro_count : Z.of_nat (size pend) <= MAX_CONCURRENT_SYNC_REQUESTS;
  ro_width : forall p r, pend !! p = Some r -> pr_from r <= pr_to r < pr_from r + MAX_BLOCKS_PER_REQUEST;
  ro_disjoint : forall p p' r r', p <> p' -> pend !! p = Some r -> pend !! p' = Some r' ->
    disjoint_ranges r r'
}.

Lemma ranges_ok_empty : ranges_ok ∅.
Proof. split; [done| |]; intros *; [|intros ?]; by rewrite lookup_empty. Qed.

Lemma ranges_ok_sub pend pend' : ranges_ok pend -> pend' ⊆ pend -> ranges_ok pend'.
Proof.
  intros [Hc Hw Hd] Hsub. split.
  - apply (map_subseteq_size pend' pend) in Hsub. lia.
  - intros p r Hp. apply (Hw p). by eapply lookup_weaken.
  - intros p p' r r' Hne Hp Hp'. apply (Hd p p'); [done| |]; by eapply lookup_weaken.
Qed.

Lemma reevaluate_pending m : pending_requests (reevaluate_sync_state m) = pending_requests m.
Proof. unfold reevaluate_sync_state. destruct (best_network_height m); [|done]. by repeat case_decide. Qed.

Lemma drop_peers_pending l m : pending_requests (drop_peers m l) ⊆ pending_requests m.
Proof.
  revert m. induction l as [|p l IH]; intros m; [done|]. etrans; [apply IH|]. apply delete_subseteq.
Qed.

Lemma drop_pending_sub l m : pending_requests (drop_pending m l) ⊆ pending_requests m.
Proof.
  revert m. induction l as [|p l IH]; intros m; [done|]. etrans; [apply IH|]. apply delete_subseteq.
Qed.

Lemma evict_pending m now : pending_requests (fst (evict_stale_peers m now)) ⊆ pending_requests m.
Proof.
  unfold evict_stale_peers. cbn [fst]. case_decide; [rewrite reevaluate_pending|];
    apply drop_peers_pending.
Qed.

Lemma cancel_pending m now : pending_requests (fst (cancel_timed_out_requests m now)) ⊆ pending_requests m.
Proof.
  unfold cancel_timed_out_requests. destruct (fst <$> _) as [|p l]; [done|]. cbn [fst].
  rewrite reevaluate_pending. apply drop_pending_sub.
Qed.

Lemma blocks_response_pending m peer blocks :
  pending_requests (fst (handle_blocks_response m peer blocks)) = delete peer (pending_requests m).
Proof.
  unfold handle_blocks_response. destruct (pending_requests m !! peer) as [r|]; [|done].
  by destruct (check_range _ _).
Qed.

Lemma foldl_max_le l x y : y = x \/ y ∈ l -> y <= foldl Z.max x l.
Proof.
  revert x y. induction l as [|z l IH]; intros x y; cbn.
  - rewrite elem_of_nil. lia.
  - rewrite elem_of_cons. intros [->|[->|Hy]].
    + etrans; [|apply IH; by left]. lia.
    + etrans; [|apply IH; by left]. lia.
    + apply IH. by right.
Qed.

Lemma highest_requested_max m p r : pending_requests m !! p = Some r -> pr_to r <= highest_requested m.
Proof.
  intros Hp. unfold highest_requested.
  assert (pr_to r ∈ (pr_to ∘ snd <$> hash_iter (pending_requests m))) as Hin.
  { apply list_elem_of_fmap. exists (p, r). split; [done|].
    rewrite hash_iter_perm. by apply elem_of_map_to_list. }
  destruct (_ <$> _) as [|x l] eqn:Hl; [by apply not_elem_of_nil in Hin|].
  cbn. apply foldl_max_le. by apply elem_of_cons in Hin.
Qed.

(** What a request says: the next blocks nobody was asked for, from a peer that has them. *)
Record request_spec (m : SyncManager) (now : DateTime) (m' : SyncManager) (peer : PeerId)
    (from to network_height : Z) : Prop := {
  rs_pending : pending_requests m' = <[peer := mkRange from to now]> (pending_requests m);
  rs_local : local_height m' = local_height m /\ peer_states m' = peer_states m;
  rs_room : Z.of_nat (size (pending_requests m)) < MAX_CONCURRENT_SYNC_REQUESTS;
  rs_fresh : pending_requests m !! peer = None;
  rs_peer : exists st, peer_states m !! peer = Some st /\ to <= pc_height st;
  rs_from : from = highest_requested m + 1;
  rs_to : from <= to <= Z.min (from + MAX_BLOCKS_PER_REQUEST - 1) network_height;
  rs_net : best_network_height m = Some network_height /\ local_height m < network_height
}.

Lemma next_request_spec m now m' peer req :
  next_sync_request m now = (m', Some (peer, req)) ->
  (forall h, best_network_height m = Some h -> h < 2 ^ 64) ->
  exists from to H, req = GetBlocks from to /\ request_spec m now m' peer from to H.
Proof.
  unfold next_sync_request. case_decide as Hroom; [done|].
  destruct (best_network_height m) as [net|] eqn:Hnet; [|done].
  case_decide as Hloc; [done|]. unfold checked_add at 1.
  case_decide as Hov; [|done]. case_decide as Hfrom; [done|].
  set (to := Z.min _ net).
  destruct (filter _ _) as [|[p st] l] eqn:Hf; [done|]. intros [= <- <- <-] Hrange.
  assert ((p, st) ∈ filter (fun '(peer_id, st) => pc_height st >= to /\ pending_requests m !! peer_id = None)
            (hash_iter (peer_states m))) as Hin by (rewrite Hf; left).
  apply list_elem_of_filter in Hin as [[Hhas Hfree] Hin]. rewrite hash_iter_perm in Hin.
  apply elem_of_map_to_list in Hin.
  exists (highest_requested m + 1), to, net. split; [done|].
  split; [done|done|lia|done|exists st; split; [done|lia]|done| |by split; [|lia]].
  specialize (Hrange net eq_refl). clear Hf Hhas. unfold to, checked_add, MAX_BLOCKS_PER_REQUEST.
  case_decide as Hadd; cbn [default from_option id]; lia.
Qed.

Lemma request_ranges_ok m now m' peer from to net :
  ranges_ok (pending_requests m) -> request_spec m now m' peer from to net ->
  ranges_ok (pending_requests m').
Proof.
  intros [Hc Hw Hd] [Hp _ Hroom Hfree _ Hfrom Hto _]. rewrite Hp.
  assert (forall p r, pending_requests m !! p = Some r -> disjoint_ranges r (mkRange from to now)) as Hnew.
  { intros p r Hr. left. cbn. apply highest_requested_max in Hr. lia. }
  split.
  - rewrite map_size_insert_None by done. lia.
  - intros p r. rewrite lookup_insert_Some. intros [[<- <-]|[_ Hr]]; [cbn; lia|by apply (Hw p)].
  - intros p p' r r' Hne. rewrite !lookup_insert_Some.
    intros [[<- <-]|[Hn Hr]] [[<- <-]|[Hn' Hr']]; [done| | |by apply (Hd p p')].
    + destruct (Hnew _ _ Hr'); [by right|by left].
    + by apply (Hnew p).
Qed.

(** Reported heights are [u64] values. *)
Definition heights_ok (m : SyncManager) : Prop :=
  forall p st, peer_states m !! p = Some st -> in_range 64 (pc_height st).

Lemma best_height_reported m h :
  best_network_height m = Some h -> exists p st, peer_states m !! p = Some st /\ pc_height st = h.
Proof.
  unfold best_network_height. case_decide; [done|]. intros Hh%list_elem_of_lookup_2.
  rewrite (merge_sort_Permutation Z.le) in Hh. apply list_elem_of_fmap in Hh as ([p st] & -> & Hin).
  rewrite hash_iter_perm in Hin. apply elem_of_map_to_list in Hin. by exists p, st.
Qed.

Lemma best_height_range m h : heights_ok m -> best_network_height m = Some h -> in_range 64 h.
Proof. intros Hm (p & st & Hp & <-)%best_height_reported. by apply (Hm p). Qed.

Lemma next_request_ranges m now :
  heights_ok m -> ranges_ok (pending_requests m) ->
  ranges_ok (pending_requests (fst (next_sync_request m now))).
Proof.
  intros Hh Hr. destruct (next_sync_request m now) as [m' [[peer req]|]] eqn:Hn.
  - destruct (next_request_spec _ _ _ _ _ Hn) as (from & to & net & _ & Hs).
    { intros h Hb. apply (best_height_range m) in Hb; [apply Hb|done]. }
    by eapply request_ranges_ok.
  - assert (m' = m) as ->; [|done]. revert Hn. unfold next_sync_request.
    repeat (case_decide; [by intros [= ->]|]).
    destruct (best_network_height m); [|by intros [= ->]]. case_decide; [by intros [= ->]|].
    destruct (checked_add _ _ _); [|by intros [= ->]]. case_decide; [by intros [= ->]|].
    destruct (filter _ _) as [|[]]; [by intros [= ->]|done].
Qed.

(** ** Histories *)

Inductive net_step : SyncManager -> SyncManager -> Prop :=
| step_local m h tip : net_step m (update_local_state m h tip)
| step_peer m p h tip now : in_range 64 h -> net_step m (update_peer_state m p h tip now)
| step_remove m p : net_step m (remove_peer m p)
| step_evict m now : net_step m (fst (evict_stale_peers m now))
| step_cancel m now : net_step m (fst (cancel_timed_out_requests m now))
| step_next m now : net_step m (fst (next_sync_request m now))
| step_blocks m p blocks : net_step m (fst (handle_blocks_response m p blocks)).

Lemma reevaluate_peers m : peer_states (reevaluate_sync_state m) = peer_states m.
Proof. unfold reevaluate_sync_state. destruct (best_network_height m); [|done]. by repeat case_decide. Qed.

Lemma drop_peers_peers l m : peer_states (drop_peers m l) ⊆ peer_states m.
Proof.
  revert m. induction l as [|p l IH]; intros m; [done|]. etrans; [apply IH|]. apply delete_subseteq.
Qed.

Lemma drop_pending_peers l m : peer_states (drop_pending m l) = peer_states m.
Proof. revert m. induction l as [|p l IH]; intros m; [done|].
  etrans; [apply (IH (set_peers m (peer_states m) (delete p (pending_requests m))))|done].
Qed.

Lemma heights_ok_sub m m' : heights_ok m -> peer_states m' ⊆ peer_states m -> heights_ok m'.
Proof. intros Hm Hsub p st Hp. apply (Hm p). by eapply lookup_weaken. Qed.

Lemma next_request_peers m now : peer_states (fst (next_sync_request m now)) = peer_states m.
Proof.
  unfold next_sync_request. case_decide; [done|]. destruct (best_network_height m); [|done].
  case_decide; [done|]. destruct (checked_add _ _ _); [|done]. case_decide; [done|].
  by destruct (filter _ _) as [|[]].
Qed.

Lemma step_peers m m' : net_step m m' -> heights_ok m -> heights_ok m'.
Proof.
  intros Hst Hm. destruct Hst as [m h tip|m p h tip now Hh|m p|m now|m now|m now|m p blocks].
  - eapply heights_ok_sub; [done|]. unfold update_local_state. by rewrite reevaluate_peers.
  - intros q st. unfold update_peer_state. rewrite reevaluate_peers. cbn.
    rewrite lookup_insert_Some. intros [[_ <-]|[_ Hq]]; [done|by apply (Hm q)].
  - eapply heights_ok_sub; [done|]. unfold remove_peer. rewrite reevaluate_peers. apply delete_subseteq.
  - eapply heights_ok_sub; [done|]. unfold evict_stale_peers. cbn [fst].
    case_decide; [rewrite reevaluate_peers|]; apply drop_peers_peers.
  - eapply heights_ok_sub; [done|]. unfold cancel_timed_out_requests.
    destruct (fst <$> _); [done|]. cbn [fst]. rewrite reevaluate_peers. cbn. by rewrite drop_pending_peers.
  - eapply heights_ok_sub; [done|]. by rewrite next_request_peers.
  - eapply heights_ok_sub; [done|]. unfold handle_blocks_response.
    destruct (pending_requests m !! p); [|done]. by destruct (check_range _ _).
Qed.

Lemma step_ranges m m' :
  net_step m m' -> heights_ok m -> ranges_ok (pending_requests m) -> ranges_ok (pending_requests m').
Proof.
  intros Hst Hm Hr. destruct Hst as [m h tip|m p h tip now Hh|m p|m now|m now|m now|m p blocks].
  - unfold update_local_state. by rewrite reevaluate_pending.
  - unfold update_peer_state. by rewrite reevaluate_pending.
  - eapply ranges_ok_sub; [done|]. unfold remove_peer. rewrite reevaluate_pending. apply delete_subseteq.
  - eapply ranges_ok_sub; [done|]. apply evict_pending.
  - eapply ranges_ok_sub; [done|]. apply cancel_pending.
  - by apply next_request_ranges.
  - eapply ranges_ok_sub; [done|]. rewrite blocks_response_pending. apply delete_subseteq.
Qed.

(** The outstanding block requests.  Over every history of a sync manager at most three
    requests are outstanding, each for between 1 and 50 heights, and no two of them ask for
    the same height. *)
Theorem sync_ranges_disjoint h tip m :
  rtc net_step (new h tip) m -> ranges_ok (pending_requests m).
Proof.
  intros Hr. refine (proj2 (rtc_ind_r (fun m => heights_ok m /\ ranges_ok (pending_requests m)) _ _ _ m Hr)).
  - split; [|apply ranges_ok_empty]. intros p st. cbn. by rewrite lookup_empty.
  - clear. intros m m' _ Hst [Hm Hp]. split; [by eapply step_peers|by eapply step_ranges].
Qed.

(** ** The network height *)

Lemma filter_forall {A} (Q : A -> Prop) `{!forall x, Decision (Q x)} (l : list A) :
  Forall Q l -> filter Q l = l.
Proof. induction 1 as [|x l Hx _ IH]; [done|]. rewrite filter_cons_True by done. by rewrite IH. Qed.

Lemma length_filter_fmap {A B} (f : A -> B) (Q : B -> Prop) (R : A -> Prop)
    `{!forall x, Decision (Q x)} `{!forall x, Decision (R x)} l :
  (forall x, x ∈ l -> Q (f x) -> R x) -> (length (filter Q (f <$> l)) <= length (filter R l))%nat.
Proof.
  induction l as [|x l IH]; intros Hl; [done|]. rewrite fmap_cons, !filter_cons.
  assert (length (filter Q (f <$> l)) <= length (filter R l))%nat
    by (apply IH; intros y Hy; apply Hl; by right).
  pose proof (Hl x ltac:(left)). destruct (decide (Q (f x))), (decide (R x)); cbn; try lia. tauto.
Qed.

Definition outside (lo hi z : Z) : Prop := ~ (lo <= z <= hi).
#[local] Instance outside_dec lo hi z : Decision (outside lo hi z) := _.

(** An element of a sorted list that lies outside a range takes all elements on its side
    with it. *)
Lemma sorted_outside l i x lo hi :
  StronglySorted Z.le l -> l !! i = Some x -> outside lo hi x ->
  (Nat.min (S i) (length l - i) <= length (filter (outside lo hi) l))%nat.
Proof.
  intros Hs Hi Hx. assert (i < length l)%nat as Hlt by by eapply lookup_lt_Some.
  apply list_elem_of_split_length in Hi as (l1 & l2 & -> & ->).
  apply StronglySorted_app in Hs as (Hleft & _ & Hs2).
  apply StronglySorted_cons in Hs2 as [Hright _]. rewrite Forall_forall in Hright.
  rewrite !filter_app, !length_app. unfold outside in Hx.
  destruct (decide (x < lo)).
  - rewrite (filter_forall _ l1).
    2:{ apply Forall_forall. intros z Hz. specialize (Hleft z x Hz ltac:(left)). unfold outside. lia. }
    rewrite filter_cons_True by done. cbn [length]. lia.
  - rewrite (filter_forall _ (x :: l2)).
    2:{ apply Forall_forall. intros z [->|Hz]%elem_of_cons; [done|].
        specialize (Hright z Hz). unfold outside. lia. }
    cbn [length]. lia.
Qed.

Lemma size_filter_split (P : PeerId -> Prop) `{!forall p, Decision (P p)} (ps : gmap PeerId PeerChainState) :
  (size (filter (fun x => P x.1) ps) + length (filter (fun x => ~ P x.1) (map_to_list ps)) = size ps)%nat.
Proof.
  assert (size (filter (fun x => P x.1) ps) = length (filter (fun x => P x.1) (map_to_list ps))) as ->.
  { rewrite <- length_map_to_list, map_filter_alt, map_to_list_to_map; [done|].
    eapply sublist_NoDup; [apply (NoDup_fst_map_to_list ps)|apply fmap_sublist, sublist_filter]. }
  rewrite <- length_app, filter_app_complement. apply length_map_to_list.
Qed.

(** The network height under dishonest peers.  When more than half of the tracked peers
    report heights between [lo] and [hi], the height that decides about syncing lies between
    them, whatever the others report and in whatever order the map is read. *)
Theorem network_height_honest m (honest : PeerId -> Prop) `{!forall p, Decision (honest p)} lo hi :
  (forall p st, peer_states m !! p = Some st -> honest p -> lo <= pc_height st <= hi) ->
  (size (peer_states m) < 2 * size (filter (fun x => honest x.1) (peer_states m)))%nat ->
  exists h, best_network_height m = Some h /\ lo <= h <= hi.
Proof.
  intros Hh Hmaj. unfold best_network_height, MIN_PEERS_FOR_SYNC_DECISION.
  pose proof (map_size_filter (fun x => honest x.1) (peer_states m)).
  rewrite decide_False by lia.
  set (l := merge_sort Z.le _).
  assert (l ≡ₚ (pc_height ∘ snd <$> map_to_list (peer_states m))) as Hl.
  { unfold l. rewrite merge_sort_Permutation. by rewrite hash_iter_perm. }
  assert (length l = size (peer_states m)) as Hlen.
  { by rewrite Hl, length_fmap, length_map_to_list. }
  destruct (lookup_lt_is_Some_2 l (length l / 2)) as [x Hx].
  { apply Nat.div_lt; lia. }
  exists x. split; [done|]. destruct (decide (lo <= x <= hi)) as [|Hout]; [done|exfalso].
  apply (sorted_outside l _ x lo hi) in Hx; [|apply StronglySorted_merge_sort; apply _|done].
  pose proof (size_filter_split honest (peer_states m)) as Hsplit.
  assert (length (filter (outside lo hi) l)
          <= length (filter (fun x => ~ honest x.1) (map_to_list (peer_states m))))%nat as Hle.
  { rewrite Hl. apply length_filter_fmap. intros [p st] Hin%elem_of_map_to_list Hout' Hp.
    by apply Hout', (Hh p). }
  assert (length l / 2 < size (filter (fun x => honest x.1) (peer_states m)))%nat.
  { apply Nat.Div0.div_lt_upper_bound. lia. }
  pose proof (Nat.div_mod_eq (length l) 2). pose proof (Nat.mod_upper_bound (length l) 2 ltac:(lia)). lia.
Qed.

(** ** An exchange with a peer *)

Lemma check_range_ok from blocks :
  0 <= from -> in_range 64 (from + Z.of_nat (length blocks)) ->
  ChainSync.segment from blocks -> check_range from blocks = Ok tt.
Proof.
  intros Hpos Hr [Hh Hl]. unfold check_range. destruct blocks as [|b0 l]; [done|].
  specialize (Hh 0%nat b0 eq_refl) as Hb0. rewrite decide_False by (rewrite Hb0; lia).
  assert (windows2 contiguous (b0 :: l) = Ok tt) as ->.
  { apply windows2_ok. intros i a b Ha Hb. unfold contiguous. rewrite decide_False; [done|].
    rewrite (Hh _ _ Ha), (Hh _ _ Hb). apply lookup_lt_Some in Hb.
    rewrite wadd_small by (unfold in_range in *; lia). lia. }
  apply windows2_ok. intros i a b Ha Hb. unfold linked. rewrite (Hl _ _ _ Ha Hb).
  by rewrite decide_False by tauto.
Qed.

(** An exchange.  Whatever range a node asks of a peer, a peer whose manager is at least
    at the last height of the range and whose storage serves its chain answers with exactly
    the blocks of the range; the node accepts them, forgets the request and its failures,
    and after noting the last block it is at that height. *)
Theorem sync_exchange m now m' peer from to server (provider : Z -> Z -> option (list Block)) chain :
  heights_ok m -> 0 <= local_height m ->
  (forall p r, pending_requests m !! p = Some r -> 0 <= pr_to r) ->
  next_sync_request m now = (m', Some (peer, GetBlocks from to)) ->
  to <= local_height server -> to < 2 ^ 64 - MAX_BLOCKS_PER_REQUEST ->
  (forall a b, provider a b = Some (chain <$> seqZ a (b - a + 1))) ->
  (forall k, height (bl_header (chain k)) = k) ->
  (forall k, header_hash (bl_header (chain k)) = Ok (parent_hash (bl_header (chain (k + 1))))) ->
  let blocks := chain <$> seqZ from (to - from + 1) in
  handle_sync_request server (GetBlocks from to) provider = Blocks blocks
  /\ exists m'', handle_blocks_response m' peer blocks = (m'', Ok blocks)
     /\ pending_requests m'' = pending_requests m /\ consecutive_failures m'' = 0
     /\ local_height (note_last m'' blocks) = to.
Proof.
  intros Hho Hloc Hpend Hn Hserver Hmax Hprov Hh Hl blocks.
  destruct (next_request_spec _ _ _ _ _ Hn) as (f & t & net & [= <- <-] & Hs).
  { intros h Hb. apply (best_height_range m) in Hb; [apply Hb|done]. }
  destruct Hs as [Hp _ _ Hfree _ Hfrom Hto _]. unfold MAX_BLOCKS_PER_REQUEST in *.
  assert (0 <= highest_requested m) as Hhi.
  { unfold highest_requested. destruct (max_list _) as [x|] eqn:Hx; [|done]. cbn.
    destruct (_ <$> hash_iter _) as [|y l] eqn:Hy; [done|]. cbn in Hx. injection Hx as <-.
    transitivity y; [|apply foldl_max_le; by left].
    assert (y ∈ (pr_to ∘ snd <$> hash_iter (pending_requests m))) as Hin by (rewrite Hy; left).
    apply list_elem_of_fmap in Hin as ([p r] & -> & Hin). rewrite hash_iter_perm in Hin.
    apply elem_of_map_to_list in Hin. by apply (Hpend p). }
  assert (length blocks = Z.to_nat (to - from + 1)) as Hlen
    by (unfold blocks; rewrite length_fmap, length_seqZ; done).
  split.
  - cbn. rewrite (wadd_small 64 from) by (unfold in_range, MAX_BLOCKS_PER_REQUEST; lia).
    rewrite wsub_small by (unfold in_range, MAX_BLOCKS_PER_REQUEST; lia).
    unfold MAX_BLOCKS_PER_REQUEST.
    rewrite Z.min_l by lia. rewrite decide_False by lia. by rewrite Hprov.
  - unfold handle_blocks_response. rewrite Hp, lookup_insert_eq. cbn [pr_from].
    rewrite check_range_ok; [|lia|rewrite Hlen; unfold in_range; lia|by apply ChainSync.served_segment].
    eexists. split; [done|]. cbn [pending_requests set_failures set_peers consecutive_failures].
    split; [by rewrite delete_insert_eq, delete_id|]. split; [done|].
    unfold note_last. assert (last blocks = Some (chain to)) as ->.
    { unfold blocks. rewrite last_lookup, length_fmap, length_seqZ, list_lookup_fmap, lookup_seqZ_lt by lia.
      cbn [fmap option_fmap option_map]. do 2 f_equal. lia. }
    rewrite Hl, Hh. unfold update_local_state, reevaluate_sync_state.
    destruct (best_network_height _); [repeat case_decide|]; done.
Qed.

(** ** The request loop *)

Lemma next_request_none m now : (next_sync_request m now).2 = None -> (next_sync_request m now).1 = m.
Proof.
  unfold next_sync_request. case_decide; [done|]. destruct (best_network_height m); [|done].
  case_decide; [done|]. destruct (checked_add _ _ _); [|done]. case_decide; [done|].
  by destruct (filter _ _) as [|[]].
Qed.

Lemma next_request_grows m now m' x :
  next_sync_request m now = (m', Some x) ->
  size (pending_requests m') = S (size (pending_requests m))
  /\ Z.of_nat (size (pending_requests m)) < MAX_CONCURRENT_SYNC_REQUESTS.
Proof.
  unfold next_sync_request. case_decide; [done|]. destruct (best_network_height m); [|done].
  case_decide; [done|]. destruct (checked_add _ _ _); [|done]. case_decide; [done|].
  destruct (filter _ _) as [|[p st] l] eqn:Hf; [done|]. intros [= <- <-].
  assert (pending_requests m !! p = None) as Hfree.
  { assert ((p, st) ∈ (p, st) :: l) as Hin by left. rewrite <- Hf in Hin.
    by apply list_elem_of_filter in Hin as [[_ ?] _]. }
  cbn. rewrite map_size_insert_None by done. split; [done|lia].
Qed.

(** The loop that hands out requests runs until there is nothing more to ask: its fuel
    covers the limit of concurrent requests. *)
Theorem request_loop_exhausts m clock :
  exists now, (next_sync_request (fst (try_send_next_sync_request m clock)) now).2 = None.
Proof.
  assert (forall n m clock, (4 <= n + size (pending_requests m))%nat ->
    exists now, (next_sync_request (fst (send_loop n m clock)) now).2 = None) as Hloop.
  { clear. induction n as [|n IH]; intros m clock Hn; cbn [send_loop].
    - exists 0. cbn. unfold next_sync_request. rewrite decide_True; [done|].
      unfold MAX_CONCURRENT_SYNC_REQUESTS. lia.
    - destruct (next_sync_request m (clock 0%nat)) as [m' [[p r]|]] eqn:Hnext.
      + destruct (next_request_grows _ _ _ _ Hnext) as [Hsize _].
        destruct (IH m' (clock ∘ S)) as [now Hnow]; [lia|]. exists now.
        by destruct (send_loop n m' (clock ∘ S)).
      + pose proof (next_request_none m (clock 0%nat)) as Hnone. rewrite Hnext in Hnone.
        cbn in Hnone. rewrite Hnone in * by done. exists (clock 0%nat). cbn [fst]. by rewrite Hnext. }
  apply Hloop. lia.
Qed.

(** ** Responses nobody asked for *)

(** Blocks that a node never asked for stop its synchronization.  A peer without an
    outstanding request can send any single block [b] it makes up: the block is not
    checked, and the node takes its height for its own.  With the greatest height the
    node considers itself ahead of every network and requests nothing. *)
Theorem unsolicited_blocks_stop_sync m peer b hash clock now :
  pending_requests m !! peer = None -> header_hash (bl_header b) = Ok hash ->
  height (bl_header b) = max_val 64 -> heights_ok m ->
  let m' := fst (handle_direct_response m peer (Blocks [b]) clock) in
  local_height m' = max_val 64 /\ (next_sync_request m' now).2 = None.
Proof.
  intros Hp Hhash Hmax Hho. cbn zeta. unfold handle_direct_response, handle_blocks_response.
  rewrite Hp. set (m1 := set_failures _ 0).
  set (m2 := note_last m1 [b]).
  assert (local_height m2 = max_val 64 /\ heights_ok m2) as [Hloc Hho2].
  { unfold m2, note_last. cbn [last]. rewrite Hhash, Hmax. unfold update_local_state.
    split; [|intros p st; rewrite reevaluate_peers; apply (Hho p)].
    unfold reevaluate_sync_state. destruct (best_network_height _); [repeat case_decide|]; done. }
  assert (forall now, next_sync_request m2 now = (m2, None)) as Hnone.
  { intros t. unfold next_sync_request. case_decide; [done|].
    destruct (best_network_height m2) as [h|] eqn:Hb; [|done].
    apply (best_height_range m2) in Hb; [|done]. unfold in_range in Hb.
    rewrite decide_True; [done|]. rewrite Hloc. unfold max_val. lia. }
  unfold try_send_next_sync_request. cbn [send_loop]. rewrite Hnone. cbn [fst].
  by rewrite Hnone.
Qed.

End manager.

(** ** Concrete networks *)

Module Sample.

#[local] Existing Instance reference_hash.
#[local] Existing Instance reference_float.
#[local] Existing Instance ChainSync.Sample.by_height.

#[local] Instance in_order : HashOrder Z := {|
  hash_iter := fun V m => map_to_list m;
  hash_iter_perm := fun V m => reflexivity _
|}.

#[local] Instance sample_codec : SyncCodec (PeerId := Z) := {|
  encode_message := fun _ => Ok [];
  decode_message := fun _ => Err "empty";
  peer_to_bytes := fun p => [p];
  peer_from_bytes := fun b => match b with [p] => Ok p | _ => Err "peer" end
|}.

Definition chain := ChainSync.Sample.chain.
Definition batch (from to : Z) : list Block := chain <$> seqZ from (to - from + 1).

(** A node at height 0 that has heard from three peers, the third of them a liar. *)
Definition two_tips : SyncManager :=
  update_peer_state (update_peer_state (new 0 []) 1 100 [] 0) 2 100 [] 0.
Definition liar : SyncManager := update_peer_state two_tips 3 999999 [] 0.

Lemma network_height_honest_witness :
  exists h, best_network_height liar = Some h /\ 100 <= h <= 100.
Proof.
  apply (network_height_honest liar (fun p => p <> 3) 100 100).
  - intros p st Hp Hne.
    assert (Forall (fun x : Z * PeerChainState => x.1 <> 3 -> 100 <= pc_height x.2 <= 100)
              (map_to_list (peer_states liar))) as Hall.
    { decide_now. }
    rewrite Forall_forall in Hall. apply (Hall (p, st)); [by apply elem_of_map_to_list|done].
  - vm_compute. lia.
Defined.

Lemma two_tips_heights : heights_ok two_tips.
Proof.
  intros p st Hp. assert (Forall (fun x : Z * PeerChainState => in_range 64 (pc_height x.2))
    (map_to_list (peer_states two_tips))) as Hall by decide_now.
  rewrite Forall_forall in Hall. apply (Hall (p, st)). by apply elem_of_map_to_list.
Qed.

Definition asked : SyncManager := fst (next_sync_request two_tips 10).

Lemma sync_ranges_disjoint_witness : ranges_ok (pending_requests asked).
Proof.
  apply (sync_ranges_disjoint 0 [] asked).
  eapply rtc_l; [by apply (step_peer _ 1 100 [] 0)|].
  eapply rtc_l; [by apply (step_peer _ 2 100 [] 0)|].
  eapply rtc_l; [apply (step_next _ 10)|]. apply rtc_refl.
Defined.

Lemma sync_exchange_witness :
  handle_sync_request (PeerId := Z) (new 100 []) (GetBlocks 1 50)
    (fun a b => Some (batch a b)) = Blocks (batch 1 50).
Proof.
  assert (exists peer, next_sync_request two_tips 10 = (asked, Some (peer, GetBlocks 1 50))) as [peer Hn].
  { eexists. apply injective_projections; [done|vm_compute; done]. }
  refine (proj1 (sync_exchange two_tips 10 asked peer 1 50 (new 100 []) (fun a b => Some (batch a b)) chain
    _ _ _ Hn _ _ _ _ _)).
  - apply two_tips_heights.
  - vm_compute. done.
  - intros p r. change (pending_requests two_tips) with (∅ : gmap Z PendingRange).
    by rewrite lookup_empty.
  - vm_compute. done.
  - vm_compute. done.
  - done.
  - done.
  - intros k. unfold header_hash, chain, ChainSync.Sample.chain.
    cbn [encode_header ChainSync.Sample.by_height bl_header height parent_hash].
    by replace (k + 1 - 1) with k by lia.
Defined.

Lemma unsolicited_blocks_stop_sync_witness :
  let m' := fst (handle_direct_response two_tips 7 (Blocks [chain (max_val 64)]) (fun _ => 20)) in
  local_height m' = max_val 64 /\ (next_sync_request m' 30).2 = None.
Proof.
  refine (unsolicited_blocks_stop_sync two_tips 7 (chain (max_val 64)) (sha256 (le_bytes 8 (max_val 64)))
            (fun _ => 20) 30 _ _ _ _).
  - vm_compute. done.
  - done.
  - done.
  - apply two_tips_heights.
Defined.

(** Two batches are on their way, heights 1 to 50 and 51 to 100.  The second arrives, the
    first never does: the node takes itself for synced and asks for nothing more. *)
Definition both_asked : SyncManager := fst (try_send_next_sync_request two_tips (fun _ => 10)).
Definition second_arrived : SyncManager :=
  let late := match (try_send_next_sync_request two_tips (fun _ => 10)).2 with
              | [_; SendRequest p _] => p | _ => 0 end in
  fst (handle_direct_response both_asked late (Blocks (batch 51 100)) (fun _ => 20)).
Definition first_lost : SyncManager := fst (cancel_timed_out_requests second_arrived (40 * NANOS)).

Theorem later_batch_skips_earlier :
  pending_request_count both_asked = 2 /\ pending_request_count first_lost = 0
  /\ state first_lost = Synced /\ local_height first_lost = 100
  /\ (next_sync_request first_lost (40 * NANOS)).2 = None.
Proof. vm_compute. done. Qed.

End Sample.

End NetSync.
