(* ===== verification/Sharding.v ===== *)
(** * gratia-state: geographic shards

    [crates/gratia-state/src/sharding.rs]: the [ShardManager], which maps nodes to shards
    and tracks the state of every shard.  Coordinates are the bit patterns of [f32] values.

    Theorems: every assignment names an existing shard, for any coordinates, NaN and
    infinities included, and every call on an assigned shard succeeds
    ([assigned_shard_exists]); health, split and merge decisions exclude each other
    ([shard_decisions]). *)

From stdpp Require Import base tactics strings list relations.
From Stdlib Require Import ZArith Lia.
From S2P Require Import Prelude CoreTypes Crypto Ieee.
Local Open Scope Z_scope.

(** A location: latitude and longitude as the bits of [f32]. *)
Record ShardLocation := mkShardLocation { lat : Z; lon : Z }.

Record ShardConfig := mkShardConfig {
  active_shards : Z;
  min_nodes_per_shard : Z;
  split_multiplier : Z;
  split_persistence_days : Z;
  split_throughput_threshold_pct : Z;
  merge_persistence_days : Z
}.

Inductive ShardHealth := Healthy | Warning | Critical.

Record ShardHealthMetrics := mkMetrics {
  health : ShardHealth;
  finality_rate : Z;
  max_validator_concentration : Z;
  weekly_churn_rate : Z;
  days_below_minimum : Z;
  days_above_split : Z
}.

Record ShardState := mkShardState {
  ss_shard_id : Z;
  block_height : Z;
  ss_state_root : Hash;
  active_nodes : Z;
  center : option ShardLocation;
  health_metrics : ShardHealthMetrics
}.

Record CrossShardReceipt := mkReceipt {
  cr_tx_hash : Hash;
  source_shard : Z;
  dest_shard : Z;
  inclusion_proof : bytes;
  source_block_height : Z
}.

Record ShardManager := mkShardManager {
  sm_config : ShardConfig;
  shard_states : list ShardState
}.

Module Sharding.

Definition MAX_SHARDS : Z := 20.
Definition DEFAULT_ACTIVE_SHARDS : Z := 4.
Definition SHARDING_ACTIVATION_THRESHOLD : Z := 10000.
Definition CROSS_SHARD_COMMITTEE_PCT : Z := 20.

Definition default_ShardConfig : ShardConfig :=
  mkShardConfig DEFAULT_ACTIVE_SHARDS 50 5 30 70 7.

Definition default_ShardHealthMetrics : ShardHealthMetrics :=
  mkMetrics Healthy (Ieee.of_int Ieee.f64 1) (Ieee.of_int Ieee.f64 0) (Ieee.of_int Ieee.f64 0) 0 0.

Definition new_ShardState (shard_id : Z) : ShardState :=
  mkShardState shard_id 0 (replicate 32 0) 0 None default_ShardHealthMetrics.

(** [None]: the assertion that there is a shard fails. *)
Definition new (config : ShardConfig) : option ShardManager :=
  if decide (active_shards config > 0)
  then Some (mkShardManager config (new_ShardState <$> seqZ 0 (active_shards config)))
  else None.

Definition with_defaults : option ShardManager := new default_ShardConfig.

Definition active_shard_count (m : ShardManager) : Z := active_shards (sm_config m).

(** ** Assignment *)

Definition shard_from_location (m : ShardManager) (location : ShardLocation) : Z :=
  let d n := Ieee.of_int Ieee.f64 n in
  let normalized_lon :=
    Ieee.frem_euclid Ieee.f64 (Ieee.fadd Ieee.f64 (Ieee.convert Ieee.f32 Ieee.f64 (lon location)) (d 180))
      (d 360) in
  let band_width := Ieee.fdiv Ieee.f64 (d 360) (d (active_shards (sm_config m))) in
  let shard_index := Ieee.to_int Ieee.f64 0 (max_val 16) (Ieee.fdiv Ieee.f64 normalized_lon band_width) in
  Z.min shard_index (wsub 16 (active_shards (sm_config m)) 1).

(** [u16::from_be_bytes] of the first two bytes. *)
Definition address_prefix (address : Address) : Z :=
  match address with a :: b :: _ => a * 256 + b | _ => 0 end.

(** The manager has a shard, so the remainder is not a division by zero. *)
Definition shard_from_address (m : ShardManager) (address : Address) : Z :=
  address_prefix address mod active_shards (sm_config m).

Definition assign_shard (m : ShardManager) (location : option ShardLocation) (fallback_address : Address) : Z :=
  match location with
  | Some loc => shard_from_location m loc
  | None => shard_from_address m fallback_address
  end.

Definition shard_for_transaction (m : ShardManager) (sender_location : option ShardLocation)
    (sender_address : Address) : Z := assign_shard m sender_location sender_address.

Definition cross_shard_routing (m : ShardManager) (sender_location : option ShardLocation)
    (sender_address : Address) (recipient_location : option ShardLocation) (recipient_address : Address)
  : option (Z * Z) :=
  let source := assign_shard m sender_location sender_address in
  let dest := assign_shard m recipient_location recipient_address in
  if decide (source = dest) then None else Some (source, dest).

(** ** Shard states *)

Definition get_shard_state (m : ShardManager) (shard_id : Z) : result GratiaError ShardState :=
  ok_or (shard_states m !! Z.to_nat shard_id) (ShardNotAvailable shard_id).

(** An update through [get_shard_state_mut]. *)
Definition with_shard (m : ShardManager) (shard_id : Z) (f : ShardState -> ShardState)
  : ShardManager * result GratiaError unit :=
  match shard_states m !! Z.to_nat shard_id with
  | None => (m, Err (ShardNotAvailable shard_id))
  | Some st => (mkShardManager (sm_config m) (<[Z.to_nat shard_id := f st]> (shard_states m)), Ok tt)
  end.

Definition update_shard (m : ShardManager) (shard_id new_height : Z) (new_state_root : Hash)
  : ShardManager * result GratiaError unit :=
  with_shard m shard_id (fun st =>
    mkShardState (ss_shard_id st) new_height new_state_root (active_nodes st) (center st)
      (health_metrics st)).

Definition set_active_nodes (m : ShardManager) (shard_id count : Z) : ShardManager * result GratiaError unit :=
  with_shard m shard_id (fun st =>
    mkShardState (ss_shard_id st) (block_height st) (ss_state_root st) count (center st)
      (health_metrics st)).

Definition is_shard_healthy (m : ShardManager) (shard_id : Z) : result GratiaError bool :=
  let?? st := get_shard_state m shard_id in
  Ok (bool_decide (active_nodes st >= min_nodes_per_shard (sm_config m))).

Definition evaluate_shard_health (m : ShardManager) (shard_id : Z) : result GratiaError ShardHealth :=
  let?? st := get_shard_state m shard_id in
  let min := min_nodes_per_shard (sm_config m) in
  Ok (if decide (active_nodes st < min) then Critical
      else if decide (active_nodes st < wmul 64 min 2) then Warning else Healthy).

Definition should_split (m : ShardManager) (shard_id : Z) : result GratiaError bool :=
  let?? st := get_shard_state m shard_id in
  let threshold := wmul 64 (min_nodes_per_shard (sm_config m)) (split_multiplier (sm_config m)) in
  Ok (bool_decide (active_nodes st > threshold)
      && bool_decide (active_shards (sm_config m) < MAX_SHARDS)
      && bool_decide (days_above_split (health_metrics st) >= split_persistence_days (sm_config m))).

Definition should_merge (m : ShardManager) (shard_id : Z) : result GratiaError bool :=
  let?? st := get_shard_state m shard_id in
  Ok (bool_decide (active_nodes st < min_nodes_per_shard (sm_config m))
      && bool_decide (days_below_minimum (health_metrics st) >= merge_persistence_days (sm_config m))
      && bool_decide (active_shards (sm_config m) > 1)).

Definition should_activate_sharding (m : ShardManager) (total_network_nodes : Z) : bool :=
  bool_decide (total_network_nodes >= SHARDING_ACTIVATION_THRESHOLD)
  && bool_decide (active_shards (sm_config m) <= 1).

Definition cross_shard_validator_count (committee_size : Z) : Z :=
  wadd 64 (wmul 64 committee_size CROSS_SHARD_COMMITTEE_PCT) 99 / 100.

(** ** Managers *)

(** The managers a program can build: a new one, after any updates. *)
Inductive manager_step : ShardManager -> ShardManager -> Prop :=
| step_update m id h r : manager_step m (fst (update_shard m id h r))
| step_nodes m id n : manager_step m (fst (set_active_nodes m id n)).

Definition built (m : ShardManager) : Prop :=
  exists config m0, in_range 16 (active_shards config) /\ new config = Some m0 /\ rtc manager_step m0 m.

Record manager_ok (m : ShardManager) : Prop := {
  mo_active : 0 < active_shards (sm_config m) < 2 ^ 16;
  mo_states : ss_shard_id <$> shard_states m = seqZ 0 (active_shards (sm_config m))
}.

Lemma with_shard_ok m id f :
  (forall st, ss_shard_id (f st) = ss_shard_id st) -> manager_ok m -> manager_ok (fst (with_shard m id f)).
Proof.
  intros Hf [Ha Hs]. unfold with_shard. destruct (shard_states m !! Z.to_nat id) as [st|] eqn:Hst; [|done].
  split; [done|]. cbn [fst sm_config shard_states]. rewrite list_fmap_insert, Hf, <- Hs.
  apply list_insert_id. by rewrite list_lookup_fmap, Hst.
Qed.

Lemma built_ok m : built m -> manager_ok m.
Proof.
  intros (config & m0 & Hr & Hnew & Hsteps).
  assert (manager_ok m0) as Hm0.
  { unfold new in Hnew. case_decide; [|done]. injection Hnew as <-. split; cbn; [unfold in_range in Hr; lia|].
    rewrite <- list_fmap_compose. apply list_fmap_id. }
  refine (rtc_ind_r manager_ok m0 Hm0 _ m Hsteps).
  clear. intros m m' _ Hst Hm. destruct Hst as [m id h r|m id n]; by apply with_shard_ok.
Qed.

Lemma manager_ok_lookup m id :
  manager_ok m -> 0 <= id < active_shards (sm_config m) ->
  exists st, shard_states m !! Z.to_nat id = Some st /\ ss_shard_id st = id.
Proof.
  intros [_ Hs] Hid.
  assert ((ss_shard_id <$> shard_states m) !! Z.to_nat id = Some id) as Hl.
  { rewrite Hs, lookup_seqZ_lt by lia. f_equal. lia. }
  rewrite list_lookup_fmap in Hl. apply fmap_Some in Hl as (st & -> & ->). by exists st.
Qed.

(** Every node has a shard.  Whatever location a phone reports, NaN and infinities
    included, and also without one, the assigned shard is one of the active shards, and
    every operation on it succeeds. *)
Theorem assigned_shard_exists m location address h r :
  built m -> Forall byte_ok address ->
  let id := assign_shard m location address in
  0 <= id < active_shard_count m
  /\ (exists st, get_shard_state m id = Ok st /\ ss_shard_id st = id)
  /\ snd (update_shard m id h r) = Ok tt.
Proof.
  intros Hm%built_ok Ha id.
  assert (0 <= id < active_shard_count m) as Hid.
  { unfold id, active_shard_count. pose proof (mo_active _ Hm). destruct location as [loc|]; cbn [assign_shard].
    - unfold shard_from_location. rewrite wsub_small by (unfold in_range; lia).
      set (x := Ieee.fdiv _ _ _).
      pose proof (Ieee.to_int_range Ieee.f64 0 (max_val 16) x ltac:(unfold max_val; lia)). lia.
    - apply Z.mod_pos_bound. lia. }
  split; [done|]. destruct (manager_ok_lookup m id Hm Hid) as (st & Hst & Hss). split.
  - exists st. unfold get_shard_state. by rewrite Hst.
  - unfold update_shard, with_shard. by rewrite Hst.
Qed.

(** The four bands of the default configuration, at their borders. *)
Example default_bands :
  match with_defaults with
  | Some m => (fun l => shard_from_location m (mkShardLocation 0 (Ieee.of_int Ieee.f32 l)))
                <$> [-180; -91; -90; -1; 0; 89; 90; 179; 180]
  | None => []
  end = [0; 0; 1; 1; 2; 2; 3; 3; 0].
Proof. vm_compute. done. Qed.

(** Decisions about a shard agree: one that is to be split is healthy and is not to be
    merged, and one that is to be merged is critical, as long as a split asks for at least
    twice the minimum. *)
Theorem shard_decisions m id :
  in_range 32 (min_nodes_per_shard (sm_config m)) -> in_range 32 (split_multiplier (sm_config m)) ->
  2 <= split_multiplier (sm_config m) ->
  (should_split m id = Ok true ->
     evaluate_shard_health m id = Ok Healthy /\ should_merge m id = Ok false)
  /\ (should_merge m id = Ok true ->
     evaluate_shard_health m id = Ok Critical /\ is_shard_healthy m id = Ok false
     /\ should_split m id = Ok false).
Proof.
  unfold in_range. intros Hmin Hmul H2. unfold should_split, should_merge, evaluate_shard_health, is_shard_healthy.
  destruct (get_shard_state m id) as [st|e]; [|done].
  set (a := active_nodes st). set (lo := min_nodes_per_shard (sm_config m)) in *.
  set (k := split_multiplier (sm_config m)) in *.
  assert (wmul 64 lo k = lo * k /\ wmul 64 lo 2 = lo * 2) as [-> ->].
  { unfold wmul, wrap. split; apply Z.mod_small; nia. }
  assert (lo * 2 <= lo * k) by nia.
  split; intros [= Hb]; rewrite !andb_true_iff, !bool_decide_eq_true in Hb; destruct Hb as [[Hn _] _].
  - rewrite decide_False by lia. rewrite decide_False by lia. split; [done|].
    by rewrite (bool_decide_eq_false_2 (a < lo)) by lia.
  - rewrite decide_True by lia. split; [done|]. split; [by rewrite bool_decide_eq_false_2 by lia|].
    by rewrite (bool_decide_eq_false_2 (a > lo * k)) by nia.
Qed.

(** A phone without a location and one whose coordinates are not numbers. *)
Definition default_manager : ShardManager :=
  mkShardManager default_ShardConfig (new_ShardState <$> seqZ 0 4).

Lemma assigned_shard_exists_witness :
  let id := assign_shard default_manager (Some (mkShardLocation 0 (Ieee.quiet_nan Ieee.f32))) [] in
  0 <= id < 4.
Proof.
  refine (proj1 (assigned_shard_exists default_manager (Some (mkShardLocation 0 (Ieee.quiet_nan Ieee.f32)))
    [] 0 [] _ _)).
  - exists default_ShardConfig, default_manager. split; [vm_compute; done|]. split; [done|apply rtc_refl].
  - constructor.
Defined.

End Sharding.
