(* ===== verification/ShardedConsensus.v ===== *)
(** * gratia-consensus: consensus per shard

    [crates/gratia-consensus/src/sharded_consensus.rs]: the committee of a shard, drawn
    from its own validators and those of the neighbouring shards, block checks, receipts
    of transactions between shards, and the coordinator that holds the engines of a node.

    Theorems: a shard committee has distinct members, at most the configured number, each
    from the shard or a neighbour, and two quorums of it share more than a third
    ([shard_committee_safe]); the receipt check agrees with the Merkle proofs of the state
    layer, so a receipt that is accepted names a leaf of the tree or exhibits a SHA-256
    collision ([receipt_sound]).  [local_members_finalize], [shard_height_unchecked] and
    [state_root_is_a_receipt] show where the code is weaker than its comments. *)

From stdpp Require Import base tactics strings list gmap sets relations pretty sorting.
From Stdlib Require Import ZArith Lia.
From S2P Require Import Prelude CoreTypes ThirdParty Crypto Blocks Vrf Committee CommitteeSelection.
From S2P Require Import Ieee Merkle Sharding.
Local Open Scope Z_scope.

Record ValidatorInfo := mkValidatorInfo {
  vi_node_id : NodeId;
  vi_presence_score : Z;
  vi_location : option ShardLocation;
  vi_stake : Z;
  vi_shard_id : Z;
  vi_vrf_pubkey : VrfPublicKey;
  vi_has_valid_pol : bool;
  vi_meets_minimum_stake : bool;
  vi_pol_days : Z
}.

Record ShardConsensusConfig := mkShardConsensusConfig {
  sc_shard_id : Z;
  sc_committee_size : Z;
  sc_finality_threshold : Z;
  cross_shard_pct : Z
}.

Record ShardedConsensus := mkShardedConsensus {
  sc_config : ShardConsensusConfig;
  local_committee : list CommitteeMember;
  cross_shard_members : list CommitteeMember;
  combined_committee : option ValidatorCommittee;
  shard_height : Z;
  shard_state_root : Hash
}.

Record ShardCoordinator := mkShardCoordinator {
  primary_shard : Z;
  shard_engines : gmap Z ShardedConsensus;
  cross_shard_queue : list CrossShardReceipt;
  co_active_shard_count : Z
}.

Module ShardedConsensus.
Import Committee Selection.

Definition CROSS_SHARD_COMMITTEE_PCT : Z := 20.
Definition MIN_VALIDATORS_PER_SHARD : Z := 5.
Definition SHARD_COMMITTEE_DOMAIN : bytes := str_bytes "gratia-shard-committee-v1".

Definition to_eligible_node (v : ValidatorInfo) : EligibleNode :=
  mkEligibleNode (vi_node_id v) (vi_vrf_pubkey v) (vi_presence_score v) (vi_has_valid_pol v)
    (vi_meets_minimum_stake v) (vi_pol_days v) [] [].

Definition for_shard (shard_id shard_validator_count : Z) : ShardConsensusConfig :=
  let tier := tier_for_network_size shard_validator_count in
  mkShardConsensusConfig shard_id (tier_committee_size tier) (tier_finality_threshold tier)
    CROSS_SHARD_COMMITTEE_PCT.

Definition new (config : ShardConsensusConfig) : ShardedConsensus :=
  mkShardedConsensus config [] [] None 0 (replicate 32 0).

Definition cross_shard_validator_count (committee_size pct : Z) : Z :=
  wadd 64 (wmul 64 committee_size pct) 99 / 100.

(** [sort_by] on the selection value. *)
Definition value_le (a b : CommitteeMember) : bool := selection_value a <=? selection_value b.
Definition sort_by_value (l : list CommitteeMember) : list CommitteeMember := sort_by value_le l.

(** [((actual_size as f64 * 2.0 / 3.0).ceil() as usize).max(1)], 1 without members. *)
Definition combined_finality (actual_size : Z) : Z :=
  if decide (actual_size = 0) then 1
  else
    let d n := Ieee.of_int Ieee.f64 n in
    Z.max (Ieee.to_int Ieee.f64 0 (max_val 64)
             (Ieee.fceil Ieee.f64 (Ieee.fdiv Ieee.f64 (Ieee.fmul Ieee.f64 (d actual_size) (d 2)) (d 3)))) 1.

Definition build_combined_committee (s : ShardedConsensus) (seed : Hash) (now : DateTime) : ShardedConsensus :=
  let all_members := sort_by_value (local_committee s ++ cross_shard_members s) in
  let actual_size := Z.of_nat (length all_members) in
  let epoch := mkEpoch 0 0 SLOTS_PER_EPOCH now seed in
  mkShardedConsensus (sc_config s) (local_committee s) (cross_shard_members s)
    (Some (mkCommittee epoch all_members actual_size (combined_finality actual_size) 0))
    (shard_height s) (shard_state_root s).

Section engine.
Context `{!HashLib, !RistrettoLib}.

Definition local_validators (s : ShardedConsensus) (validators : list ValidatorInfo)
    (shard_assignments : gmap NodeId Z) : list ValidatorInfo :=
  filter (fun v => shard_assignments !! vi_node_id v = Some (sc_shard_id (sc_config s))) validators.

Definition neighbor_validators (validators : list ValidatorInfo) (shard_assignments : gmap NodeId Z)
    (neighbor_shards : list Z) : list ValidatorInfo :=
  filter (fun v => match shard_assignments !! vi_node_id v with
                   | Some shard => bool_decide (shard ∈ neighbor_shards)
                   | None => false
                   end = true) validators.

Definition shard_seed (s : ShardedConsensus) (vrf_seed : Hash) : Hash :=
  sha256 (SHARD_COMMITTEE_DOMAIN ++ vrf_seed ++ be_bytes 2 (sc_shard_id (sc_config s))).

(** The best [count] nodes of a pool, none when the pool has no eligible node. *)
Definition select_from (pool : list ValidatorInfo) (seed : Hash) (count : Z) (now : DateTime)
  : list CommitteeMember :=
  let eligible := to_eligible_node <$> pool in
  match select_committee_with_network_size eligible seed 0 0 (Z.of_nat (length eligible)) None now with
  | Ok committee => take (Z.to_nat count) (members committee)
  | Err _ => []
  end.

Definition select_committee (s : ShardedConsensus) (validators : list ValidatorInfo)
    (shard_assignments : gmap NodeId Z) (neighbor_shards : list Z) (vrf_seed : Hash) (now : DateTime)
  : ShardedConsensus * result GratiaError unit :=
  let local := local_validators s validators shard_assignments in
  let neighbors := neighbor_validators validators shard_assignments neighbor_shards in
  let total_committee := sc_committee_size (sc_config s) in
  let cross_shard_count := cross_shard_validator_count total_committee (cross_shard_pct (sc_config s)) in
  let local_count := saturating_sub total_committee cross_shard_count in
  let seed := shard_seed s vrf_seed in
  let local_selected := select_from local seed local_count now in
  let cross_shard_seed := sha256 (str_bytes "gratia-cross-shard-v1:" ++ seed) in
  let cross_shard_selected :=
    if decide (neighbors <> [] /\ cross_shard_count > 0)
    then select_from neighbors cross_shard_seed cross_shard_count now else [] in
  let s := mkShardedConsensus (sc_config s) local_selected cross_shard_selected (combined_committee s)
             (shard_height s) (shard_state_root s) in
  (build_combined_committee s seed now, Ok tt).

Definition select_block_producer (s : ShardedConsensus) (slot : Z) : option CommitteeMember :=
  combined_committee s ≫= (fun c => block_producer_for_slot c slot).

Definition committee (s : ShardedConsensus) : list CommitteeMember :=
  match combined_committee s with Some c => members c | None => [] end.

Definition advance_height (s : ShardedConsensus) (new_height : Z) (new_state_root : Hash) : ShardedConsensus :=
  mkShardedConsensus (sc_config s) (local_committee s) (cross_shard_members s) (combined_committee s)
    new_height new_state_root.

Section blocks.
Context `{!FloatLib}.

(** A height ahead of the shard's chain is only logged. *)
Definition validate_shard_block (s : ShardedConsensus) (block : Block) (shard_id : Z)
  : result GratiaError bool :=
  if decide (shard_id <> sc_shard_id (sc_config s)) then
    Err (BlockValidationFailed ("Block shard_id " +:+ pretty shard_id +:+ " does not match this shard's id "
                                  +:+ pretty (sc_shard_id (sc_config s))))
  else
  let?? committee := ok_or (combined_committee s)
      (BlockValidationFailed "No active committee for shard validation") in
  if negb (is_committee_member committee (producer (bl_header block))) then
    Err (BlockValidationFailed ("Block producer " +:+ hex_encode (producer (bl_header block))
           +:+ " is not a member of shard " +:+ pretty (sc_shard_id (sc_config s)) +:+ " committee"))
  else Ok true.
End blocks.

(** ** Receipts *)

Definition ENTRY_SIZE : nat := 33.

(** One 33-byte entry: the side of the sibling and its hash. *)
Definition inclusion_step (current : Hash) (chunk : bytes) : Hash :=
  let sibling := drop 1 chunk in
  if decide (hd 0 chunk <> 0) then sha256 (current ++ sibling) else sha256 (sibling ++ current).

(** [chunks_exact(33)]; the number of bytes bounds the number of chunks. *)
Fixpoint chunks (fuel : nat) (l : bytes) : list bytes :=
  match fuel with
  | O => []
  | S fuel => if decide (length l < ENTRY_SIZE)%nat then []
              else take ENTRY_SIZE l :: chunks fuel (drop ENTRY_SIZE l)
  end.

Definition verify_merkle_inclusion (leaf_hash : Hash) (proof_bytes : bytes) (expected_root : Hash) : bool :=
  if decide (length proof_bytes `mod` ENTRY_SIZE <> 0)%nat then false
  else if decide (proof_bytes = []) then bool_decide (leaf_hash = expected_root)
  else bool_decide (foldl inclusion_step leaf_hash (chunks (length proof_bytes) proof_bytes) = expected_root).

Definition verify_cross_shard_receipt (s : ShardedConsensus) (receipt : CrossShardReceipt)
    (source_state_root : Hash) : result GratiaError bool :=
  if decide (dest_shard receipt <> sc_shard_id (sc_config s)) then
    Err (BlockValidationFailed ("Cross-shard receipt destination " +:+ pretty (dest_shard receipt)
           +:+ " does not match this shard " +:+ pretty (sc_shard_id (sc_config s))))
  else if negb (verify_merkle_inclusion (cr_tx_hash receipt) (inclusion_proof receipt) source_state_root) then
    Err (BlockValidationFailed ("Invalid Merkle proof for cross-shard receipt (tx "
           +:+ hex_encode (take 8 (cr_tx_hash receipt)) +:+ ")"))
  else Ok true.

(** ** The coordinator *)

Definition new_coordinator (primary_shard active_shard_count : Z) : ShardCoordinator :=
  mkShardCoordinator primary_shard ∅ [] active_shard_count.

Definition neighbor_shards (c : ShardCoordinator) (id : Z) : list Z :=
  let count := co_active_shard_count c in
  if decide (count <= 1) then []
  else
    let prev := if decide (id = 0) then count - 1 else id - 1 in
    let next := if decide (id = count - 1) then 0 else wadd 16 id 1 in
    if decide (prev = next) then [prev] else [prev; next].

Definition count_shards (validators : list ValidatorInfo) : gmap Z Z :=
  foldl (fun m v => <[vi_shard_id v := wadd 64 (default 0 (m !! vi_shard_id v)) 1]> m) ∅ validators.

(** [collect] into a [HashMap]: the last entry of a node wins. *)
Definition assignments_of (validators : list ValidatorInfo) : gmap NodeId Z :=
  foldl (fun m v => <[vi_node_id v := vi_shard_id v]> m) ∅ validators.

Definition shard_engine (c : ShardCoordinator) (validators : list ValidatorInfo) (vrf_seed : Hash)
    (now : DateTime) (id : Z) : ShardedConsensus :=
  let counts := count_shards validators in
  fst (select_committee (new (for_shard id (default 0 (counts !! id)))) validators
         (assignments_of validators) (neighbor_shards c id) vrf_seed now).

Definition initialize_shards (c : ShardCoordinator) (all_validators : list ValidatorInfo) (vrf_seed : Hash)
    (now : DateTime) : ShardCoordinator :=
  let shard_counts := count_shards all_validators in
  let engine := shard_engine c all_validators vrf_seed now in
  let engines := <[primary_shard c := engine (primary_shard c)]> (shard_engines c) in
  let engines :=
    foldl (fun m neighbor_id =>
             if decide (default 0 (shard_counts !! neighbor_id) < MIN_VALIDATORS_PER_SHARD) then m
             else <[neighbor_id := engine neighbor_id]> m)
      engines (neighbor_shards c (primary_shard c)) in
  mkShardCoordinator (primary_shard c) engines (cross_shard_queue c) (co_active_shard_count c).

Definition shard_from_location (location : ShardLocation) (active_shards : Z) : Z :=
  let d n := Ieee.of_int Ieee.f64 n in
  let normalized_lon :=
    Ieee.frem_euclid Ieee.f64 (Ieee.fadd Ieee.f64 (Ieee.convert Ieee.f32 Ieee.f64 (lon location)) (d 180))
      (d 360) in
  let band_width := Ieee.fdiv Ieee.f64 (d 360) (d active_shards) in
  let shard_index := Ieee.to_int Ieee.f64 0 (max_val 16) (Ieee.fdiv Ieee.f64 normalized_lon band_width) in
  Z.min shard_index (wsub 16 active_shards 1).

(** [None]: a remainder by zero panics. *)
Definition shard_from_address (address : Address) (active_shards : Z) : option Z :=
  if decide (active_shards = 0) then None
  else Some (match address with a :: b :: _ => a * 256 + b | _ => 0 end mod active_shards).

Definition route_transaction (c : ShardCoordinator) (sender_location : option ShardLocation)
    (sender_address : Address) : option Z :=
  match sender_location with
  | Some loc => Some (shard_from_location loc (co_active_shard_count c))
  | None => shard_from_address sender_address (co_active_shard_count c)
  end.

Definition handle_cross_shard_tx (c : ShardCoordinator) (receipt : CrossShardReceipt) (source_state_root : Hash)
  : ShardCoordinator * result GratiaError unit :=
  let queued := mkShardCoordinator (primary_shard c) (shard_engines c) (cross_shard_queue c ++ [receipt])
                  (co_active_shard_count c) in
  match shard_engines c !! dest_shard receipt with
  | Some engine =>
      match verify_cross_shard_receipt engine receipt source_state_root with
      | Ok _ => (queued, Ok tt)
      | Err e => (c, Err e)
      end
  | None => (queued, Ok tt)
  end.

Definition drain_cross_shard_queue (c : ShardCoordinator) : ShardCoordinator * list CrossShardReceipt :=
  (mkShardCoordinator (primary_shard c) (shard_engines c) [] (co_active_shard_count c), cross_shard_queue c).

(** ** Committees *)

Lemma sort_by_value_perm l : sort_by_value l ≡ₚ l.
Proof. apply sort_by_perm. Qed.

Definition by_value (a b : CommitteeMember) : Prop := selection_value a <= selection_value b.

Lemma sort_by_value_sorted l : StronglySorted by_value (sort_by_value l).
Proof.
  apply (sorted_impl value_le); [|apply sort_by_sorted; unfold value_le; lia].
  unfold value_le, by_value. intros a b Hab%Is_true_true. lia.
Qed.

Lemma combined_finality_eq n : 0 <= n <= MAX_COMMITTEE_SIZE -> combined_finality n = Z.max 1 ((2 * n + 2) / 3).
Proof.
  intros Hn. assert (Forall (fun n => combined_finality n = Z.max 1 ((2 * n + 2) / 3)) (seqZ 0 22)) as Hall
    by decide_now.
  rewrite Forall_forall in Hall. apply Hall, elem_of_seqZ. unfold MAX_COMMITTEE_SIZE in Hn. lia.
Qed.

Lemma select_from_spec pool seed count now :
  NoDup (vi_node_id <$> pool) ->
  let l := select_from pool seed count now in
  NoDup (node_id <$> l) /\ (forall m, m ∈ l -> exists v, v ∈ pool /\ node_id m = vi_node_id v)
  /\ (length l <= Z.to_nat count)%nat.
Proof.
  intros Hnd. unfold select_from, select_committee_with_network_size.
  set (nodes := to_eligible_node <$> pool).
  assert (NoDup (en_node_id <$> nodes)) as Hn by (unfold nodes; by rewrite <- list_fmap_compose).
  case_decide; [split; [constructor|]; split; [by intros m Hm%not_elem_of_nil|cbn; lia]|].
  cbn [members apply_cooldown]. set (tier := tier_for_network_size _). set (input := selection_input _ _).
  set (cands := omap _ _). rewrite take_take. set (k := (_ `min` _)%nat).
  assert (sublist (take k (sort_members cands)) (sort_members cands)) as Hsub by apply sublist_take.
  split; [|split].
  - eapply sublist_NoDup; [|by apply fmap_sublist]. rewrite sort_members_perm.
    by apply candidates_NoDup, (pool_NoDup nodes tier None).
  - intros m Hm. eapply elem_of_sublist in Hm; [|done]. rewrite sort_members_perm in Hm.
    apply list_elem_of_omap in Hm as (n & Hin & Hc). apply candidate_id in Hc.
    assert (n ∈ nodes) as Hnn by (eapply elem_of_sublist; [done|apply (pool_sublist nodes tier None)]).
    apply list_elem_of_fmap in Hnn as (v & -> & Hv). by exists v.
  - rewrite length_take. unfold k. lia.
Qed.

Lemma size_list_to_set_NoDup (l : list NodeId) :
  NoDup l -> size (list_to_set l : gset NodeId) = length l.
Proof. intros. by apply size_list_to_set. Qed.

(** The seats of the configured committees. *)
Lemma seats id n :
  let cfg := for_shard id n in
  let cross := cross_shard_validator_count (sc_committee_size cfg) (cross_shard_pct cfg) in
  0 < cross <= sc_committee_size cfg /\ sc_committee_size cfg <= MAX_COMMITTEE_SIZE
  /\ combined_finality (sc_committee_size cfg) <= sc_committee_size cfg - cross.
Proof.
  cbn zeta. destruct (tier_cases n) as (t & Ht & Heq). unfold for_shard. rewrite Heq.
  assert (Forall (fun t =>
    0 < cross_shard_validator_count (tier_committee_size t) CROSS_SHARD_COMMITTEE_PCT <= tier_committee_size t
    /\ tier_committee_size t <= MAX_COMMITTEE_SIZE
    /\ combined_finality (tier_committee_size t)
       <= tier_committee_size t - cross_shard_validator_count (tier_committee_size t) CROSS_SHARD_COMMITTEE_PCT)
    SCALING_TIERS) as Hall
    by decide_now.
  rewrite Forall_forall in Hall. by apply Hall.
Qed.

Definition seat_count (cfg : ShardConsensusConfig) : Z :=
  cross_shard_validator_count (sc_committee_size cfg) (cross_shard_pct cfg).

Lemma filter_ids_NoDup (P : ValidatorInfo -> Prop) `{!forall v, Decision (P v)} l :
  NoDup (vi_node_id <$> l) -> NoDup (vi_node_id <$> filter P l).
Proof. intros. eapply sublist_NoDup; [done|]. apply fmap_sublist, sublist_filter. Qed.

(** Both groups of members of a selected committee. *)
Lemma select_committee_groups s validators assign neighbors seed now :
  NoDup (vi_node_id <$> validators) ->
  let s' := fst (select_committee s validators assign neighbors seed now) in
  let cross := seat_count (sc_config s) in
  (NoDup (node_id <$> local_committee s')
   /\ (forall m, m ∈ local_committee s' -> assign !! node_id m = Some (sc_shard_id (sc_config s)))
   /\ (length (local_committee s') <= Z.to_nat (sc_committee_size (sc_config s) - cross))%nat)
  /\ (NoDup (node_id <$> cross_shard_members s')
   /\ (forall m, m ∈ cross_shard_members s' ->
         exists k, k ∈ neighbors /\ assign !! node_id m = Some k)
   /\ (length (cross_shard_members s') <= Z.to_nat cross)%nat).
Proof.
  intros Hnd. cbn zeta. unfold select_committee, build_combined_committee.
  cbn [fst local_committee cross_shard_members]. fold (seat_count (sc_config s)).
  set (cross := seat_count _). split.
  - set (pool := local_validators _ _ _).
    destruct (select_from_spec pool (shard_seed s seed)
      (saturating_sub (sc_committee_size (sc_config s)) cross) now) as (G1 & G2 & G3).
    { by apply filter_ids_NoDup. }
    split; [done|]. split; [|etrans; [exact G3|unfold saturating_sub; lia]].
    intros m Hm. destruct (G2 m Hm) as (v & Hv & ->). by apply list_elem_of_filter in Hv as [? _].
  - case_decide; [|split; [constructor|]; split; [by intros m Hm%not_elem_of_nil|cbn; lia]].
    set (pool := neighbor_validators _ _ _). set (sd := sha256 _).
    destruct (select_from_spec pool sd cross now) as (G1 & G2 & G3); [by apply filter_ids_NoDup|].
    split; [done|]. split; [|done].
    intros m Hm. destruct (G2 m Hm) as (v & Hv & ->). apply list_elem_of_filter in Hv as [Hk _].
    destruct (assign !! vi_node_id v) as [k|]; [|done]. exists k. by apply bool_decide_eq_true in Hk.
Qed.

(** What a selected committee guarantees: its members are distinct, at most as many as the
    tier allows, sorted by their selection value, each assigned to the shard or to one of its
    neighbours, at most a fifth (rounded up) to a neighbour; and any two groups of members
    that reach the finality threshold share more than [f] members for every [f] below a third
    of the committee. *)
Record committee_safe (assign : gmap NodeId Z) (neighbors : list Z) (s : ShardedConsensus)
    (c : ValidatorCommittee) : Prop := {
  cs_combined : combined_committee s = Some c;
  cs_distinct : NoDup (node_id <$> members c);
  cs_size : Z.of_nat (length (members c)) <= sc_committee_size (sc_config s);
  cs_sorted : StronglySorted by_value (members c);
  cs_region : forall m, m ∈ members c ->
    exists k, k ∈ sc_shard_id (sc_config s) :: neighbors /\ assign !! node_id m = Some k;
  cs_cross : Z.of_nat (length (cross_shard_members s)) <= seat_count (sc_config s);
  cs_quorums : forall (X Y : gset NodeId) f,
    X ⊆ list_to_set (node_id <$> members c) -> Y ⊆ list_to_set (node_id <$> members c) ->
    has_finality c (Z.of_nat (size X)) = true -> has_finality c (Z.of_nat (size Y)) = true ->
    3 * f < committee_size c -> f < Z.of_nat (size (X ∩ Y))
}.

Lemma quorums_of_members (l : list CommitteeMember) (X Y : gset NodeId) f :
  NoDup (node_id <$> l) -> Z.of_nat (length l) <= MAX_COMMITTEE_SIZE ->
  X ⊆ list_to_set (node_id <$> l) -> Y ⊆ list_to_set (node_id <$> l) ->
  combined_finality (Z.of_nat (length l)) <= Z.of_nat (size X) ->
  combined_finality (Z.of_nat (length l)) <= Z.of_nat (size Y) ->
  3 * f < Z.of_nat (length l) -> f < Z.of_nat (size (X ∩ Y)).
Proof.
  intros Hnd Hmax HX HY HfX HfY Hf. rewrite combined_finality_eq in HfX, HfY by lia.
  pose proof (quorums_intersect (list_to_set (node_id <$> l)) X Y (Z.of_nat (length l))
    (Z.max 1 ((2 * Z.of_nat (length l) + 2) / 3))) as Hq.
  rewrite size_list_to_set_NoDup, length_fmap in Hq by done. specialize (Hq ltac:(lia) HX HY HfX HfY).
  pose proof (Z.div_mod (2 * Z.of_nat (length l) + 2) 3 ltac:(lia)).
  pose proof (Z.mod_pos_bound (2 * Z.of_nat (length l) + 2) 3 ltac:(lia)). lia.
Qed.

Lemma shard_committee_safe id n validators assign neighbors seed now :
  NoDup (vi_node_id <$> validators) -> id ∉ neighbors ->
  exists c, committee_safe assign neighbors
    (fst (select_committee (new (for_shard id n)) validators assign neighbors seed now)) c.
Proof.
  intros Hnd Hid. set (cfg := for_shard id n). set (s := fst _).
  destruct (select_committee_groups (new cfg) validators assign neighbors seed now Hnd)
    as [(Hl1 & Hl2 & Hl3) (Hc1 & Hc2 & Hc3)]. fold s in Hl1, Hl2, Hl3, Hc1, Hc2, Hc3.
  pose proof (seats id n) as (Hseat & Hmax & _). fold cfg in Hseat, Hmax. cbn [new sc_config] in *.
  change (cross_shard_validator_count _ _) with (seat_count cfg) in Hseat.
  set (all := local_committee s ++ cross_shard_members s).
  assert (NoDup (node_id <$> sort_by_value all)) as Hall.
  { rewrite sort_by_value_perm. unfold all. rewrite fmap_app. apply NoDup_app. split; [done|]. split; [|done].
    intros x Hx Hx'. apply list_elem_of_fmap in Hx as (m & -> & Hm). apply list_elem_of_fmap in Hx' as (m' & He & Hm').
    destruct (Hc2 m' Hm') as (k & Hk & Ha). rewrite <- He, (Hl2 m Hm) in Ha. injection Ha as <-. done. }
  assert (length (sort_by_value all) = length (local_committee s) + length (cross_shard_members s))%nat as Hlen
    by (by rewrite sort_by_value_perm; unfold all; rewrite length_app).
  exists (mkCommittee (mkEpoch 0 0 SLOTS_PER_EPOCH now (shard_seed (new cfg) seed))
    (sort_by_value all) (Z.of_nat (length (sort_by_value all)))
    (combined_finality (Z.of_nat (length (sort_by_value all)))) 0).
  assert (sc_config s = cfg) as Hcfg by done.
  split; cbn [members committee_size]; rewrite ?Hcfg; [done|done|lia|apply sort_by_value_sorted| |lia|].
  - intros m Hm. rewrite sort_by_value_perm in Hm. apply elem_of_app in Hm as [Hm|Hm].
    + exists id. split; [left|by apply Hl2].
    + destruct (Hc2 m Hm) as (k & Hk & Ha). exists k. by split; [right|].
  - intros X Y f HX HY HfX HfY Hf. unfold has_finality in *. cbn [finality_threshold] in *.
    apply bool_decide_eq_true in HfX, HfY. apply (quorums_of_members (sort_by_value all)); try done; lia.
Qed.

(** ** The coordinator *)

Lemma neighbor_shards_ok c id k :
  0 <= id < co_active_shard_count c -> co_active_shard_count c < 2 ^ 16 ->
  k ∈ neighbor_shards c id -> 0 <= k < co_active_shard_count c /\ k <> id.
Proof.
  intros Hid Hmax. unfold neighbor_shards. case_decide as Hc; [by intros ?%not_elem_of_nil|].
  assert (id + 1 < 2 ^ 16 \/ id = co_active_shard_count c - 1) as Hadd by lia.
  assert (id <> co_active_shard_count c - 1 -> wadd 16 id 1 = id + 1) as Hw
    by (intros; apply wadd_small; unfold in_range; lia).
  destruct (decide (id = 0)), (decide (id = co_active_shard_count c - 1)); try (specialize (Hw ltac:(done)));
    case_decide; rewrite ?elem_of_cons, elem_of_nil; lia.
Qed.

Lemma engines_fold (P : Z -> ShardedConsensus -> Prop) (engine : Z -> ShardedConsensus)
    (skip : Z -> Prop) `{!forall k, Decision (skip k)} l (m : gmap Z ShardedConsensus) :
  (forall k e, m !! k = Some e -> P k e) -> (forall k, k ∈ l -> P k (engine k)) ->
  forall k e, foldl (fun m k => if decide (skip k) then m else <[k := engine k]> m) m l !! k = Some e -> P k e.
Proof.
  revert m. induction l as [|x l IH]; intros m Hm Hl; [done|]. cbn [foldl]. apply IH.
  - intros k e. case_decide; [apply Hm|]. rewrite lookup_insert_Some.
    intros [[<- <-]|[_ Hk]]; [apply Hl; left|by apply Hm].
  - intros k Hk. apply Hl. by right.
Qed.

(** C12: consensus per shard.  For validators with distinct identities, every engine a node
    holds after it has set up its shards belongs to its own shard or a neighbouring one,
    carries the id it is stored under, and has a committee whose members are distinct, at
    most as many as the tier allows, sorted by selection value, from that shard or its
    neighbours, with at most a fifth (rounded up) from neighbours, and in which any two
    groups that reach finality share more members than a third can corrupt. *)
Theorem shard_committees_safe p count validators seed now k e :
  0 <= p < count -> count < 2 ^ 16 -> NoDup (vi_node_id <$> validators) ->
  let c := initialize_shards (new_coordinator p count) validators seed now in
  shard_engines c !! k = Some e ->
  (k = p \/ k ∈ neighbor_shards c p) /\ sc_shard_id (sc_config e) = k
  /\ exists com, committee_safe (assignments_of validators) (neighbor_shards c k) e com.
Proof.
  intros Hp Hmax Hnd. cbn zeta. unfold initialize_shards. cbn [shard_engines new_coordinator primary_shard].
  set (c := new_coordinator p count).
  set (Q := fun k e => (k = p \/ k ∈ neighbor_shards c p) /\ sc_shard_id (sc_config e) = k
    /\ exists com, committee_safe (assignments_of validators) (neighbor_shards c k) e com).
  assert (forall k, 0 <= k < count -> (k = p \/ k ∈ neighbor_shards c p) ->
    Q k (shard_engine c validators seed now k)) as Heng.
  { intros i Hi Hin. split; [done|]. split; [done|]. apply shard_committee_safe; [done|].
    intros Hself. by destruct (neighbor_shards_ok c i i Hi Hmax Hself) as [_ ?]. }
  apply (engines_fold Q (shard_engine c validators seed now)
    (fun i => default 0 (count_shards validators !! i) < MIN_VALIDATORS_PER_SHARD)).
  - intros i f. rewrite lookup_insert_Some, lookup_empty. intros [[<- <-]|[_ [=]]]. apply Heng; [done|by left].
  - intros i Hi. destruct (neighbor_shards_ok c p i Hp Hmax Hi) as [Hr _]. apply Heng; [done|by right].
Qed.

(** Both layers send a transaction to the same shard. *)
Theorem routing_agrees m c location address :
  0 < Sharding.active_shard_count m -> co_active_shard_count c = Sharding.active_shard_count m ->
  route_transaction c location address = Some (Sharding.assign_shard m location address).
Proof.
  unfold Sharding.active_shard_count. intros Hm Hc. unfold route_transaction. rewrite Hc.
  destruct location as [loc|].
  - unfold shard_from_location, Sharding.assign_shard, Sharding.shard_from_location. reflexivity.
  - unfold shard_from_address. rewrite decide_False by lia. reflexivity.
Qed.

Lemma select_combined s validators assign neighbors seed now c :
  let s' := fst (select_committee s validators assign neighbors seed now) in
  combined_committee s' = Some c ->
  members c = sort_by_value (local_committee s' ++ cross_shard_members s')
  /\ finality_threshold c = combined_finality (Z.of_nat (length (members c))).
Proof. intros s' [= <-]. done. Qed.

(** ** Where the code is weaker than its comments *)

(** The members from neighbouring shards have no say.  Whenever all seats of a shard
    committee are taken, the members of the shard alone reach finality, whatever the size
    of the network: the comments promise that a region cannot finalize blocks without
    agreement of adjacent shards. *)
Theorem local_members_finalize id n validators assign neighbors seed now c :
  NoDup (vi_node_id <$> validators) ->
  let s := fst (select_committee (new (for_shard id n)) validators assign neighbors seed now) in
  combined_committee s = Some c -> Z.of_nat (length (members c)) = sc_committee_size (for_shard id n) ->
  has_finality c (Z.of_nat (length (local_committee s))) = true.
Proof.
  intros Hnd s Hc Hfull. set (cfg := for_shard id n) in *.
  destruct (select_committee_groups (new cfg) validators assign neighbors seed now Hnd)
    as [(_ & _ & Hl3) (_ & _ & Hc3)]. fold s in Hl3, Hc3.
  pose proof (seats id n) as (Hseat & _ & Hfin). fold cfg in Hseat, Hfin. cbn [new sc_config] in *.
  change (cross_shard_validator_count _ _) with (seat_count cfg) in Hseat, Hfin.
  destruct (select_combined _ _ _ _ _ _ _ Hc) as [Hm Hf]. fold s in Hm.
  assert (length (members c) = length (local_committee s) + length (cross_shard_members s))%nat as Hlen
    by (by rewrite Hm, sort_by_value_perm, length_app).
  unfold has_finality. rewrite Hf, Hfull. apply bool_decide_eq_true. lia.
Qed.

(** The height of a shard block is not checked.  Whether a shard accepts a block depends
    on its producer and the claimed shard only: a block of any other height, behind or far
    ahead of the shard's chain, is accepted as well, although the comments list the height
    among the checks. *)
Theorem shard_height_unchecked `{!FloatLib} s b b' id :
  producer (bl_header b') = producer (bl_header b) ->
  validate_shard_block s b' id = validate_shard_block s b id.
Proof. intros Hp. unfold validate_shard_block. by rewrite Hp. Qed.

(** ** Receipts *)

(** An entry as a step of a Merkle proof. *)
Definition decode_step (chunk : bytes) : Merkle.ProofStep :=
  Merkle.mkProofStep (drop 1 chunk) (if decide (hd 0 chunk <> 0) then Merkle.Right else Merkle.Left).
Definition encode_step (s : Merkle.ProofStep) : bytes :=
  match Merkle.direction s with Merkle.Left => 0 | Merkle.Right => 1 end :: Merkle.step_hash s.

Lemma inclusion_step_eq h chunk : inclusion_step h chunk = Merkle.verify_step h (decode_step chunk).
Proof. unfold inclusion_step, Merkle.verify_step, decode_step. by case_decide. Qed.

Lemma decode_encode s : decode_step (encode_step s) = s.
Proof. by destruct s as [h []]. Qed.

Lemma chunks_concat p fuel :
  Forall (fun s => Merkle.is_hash (Merkle.step_hash s)) p -> (length p <= fuel)%nat ->
  chunks fuel (concat (encode_step <$> p)) = encode_step <$> p.
Proof.
  intros Hp. revert fuel. induction Hp as [|s p Hs _ IH]; intros fuel Hf.
  - by destruct fuel.
  - destruct fuel as [|fuel]; [cbn in Hf; lia|]. cbn [fmap list_fmap concat chunks].
    assert (length (encode_step s) = ENTRY_SIZE) as Hlen by (cbn; by rewrite Hs).
    rewrite decide_False by (rewrite length_app; lia).
    rewrite take_app_length', drop_app_length' by done. rewrite IH by (cbn in Hf; lia). done.
Qed.

Lemma chunks_length fuel l : Forall (fun c => length c = ENTRY_SIZE) (chunks fuel l).
Proof.
  revert l. induction fuel as [|fuel IH]; intros l; cbn [chunks]; [constructor|].
  case_decide; [constructor|]. constructor; [rewrite length_take; lia|apply IH].
Qed.

Lemma chunks_count fuel l n :
  length l = (ENTRY_SIZE * n)%nat -> (n <= fuel)%nat -> length (chunks fuel l) = n.
Proof.
  unfold ENTRY_SIZE. revert l n. induction fuel as [|fuel IH]; intros l n Hl Hn; cbn [chunks]; [cbn; lia|].
  unfold ENTRY_SIZE. case_decide; [cbn; lia|]. cbn [length]. rewrite (IH _ (n - 1)%nat); [lia| |lia].
  rewrite length_drop. lia.
Qed.

(** The check of a receipt is the check of a Merkle proof. *)
Lemma verify_inclusion_fold h proof r :
  verify_merkle_inclusion h proof r = true <->
  (length proof `mod` ENTRY_SIZE = 0)%nat
  /\ foldl Merkle.verify_step h (decode_step <$> chunks (length proof) proof) = r.
Proof.
  assert (foldl Merkle.verify_step h (decode_step <$> chunks (length proof) proof)
          = foldl inclusion_step h (chunks (length proof) proof)) as ->.
  { generalize (chunks (length proof) proof). intros l. revert h. induction l as [|c l IH]; intros h; [done|].
    cbn. by rewrite IH, inclusion_step_eq. }
  unfold verify_merkle_inclusion. case_decide as Hd; [split; [done|by intros [? _]]|].
  case_decide as Hn.
  - subst. rewrite bool_decide_eq_true. cbn. tauto.
  - rewrite bool_decide_eq_true. tauto.
Qed.

(** Receipts of transactions between shards.  Against the root of a Merkle tree over 32-byte
    hashes the destination shard accepts a receipt for every leaf, and a receipt with as many
    entries as the tree is deep only for a leaf, unless a byte string it hashes along the way
    collides with one the tree hashed. *)
Theorem receipt_exact s leaves t :
  (forall b, Merkle.is_hash (sha256 b)) -> Forall Merkle.is_hash leaves -> leaves <> [] ->
  Merkle.build leaves = Some t ->
  (forall i leaf src height, leaves !! i = Some leaf -> leaves <> [Merkle.ZERO] ->
     exists proof, verify_cross_shard_receipt s
       (mkReceipt leaf src (sc_shard_id (sc_config s)) proof height) (Merkle.root t) = Ok true)
  /\ (forall receipt, Merkle.is_hash (cr_tx_hash receipt) ->
     length (inclusion_proof receipt) = (ENTRY_SIZE * Merkle.depth t)%nat ->
     verify_cross_shard_receipt s receipt (Merkle.root t) = Ok true ->
     dest_shard receipt = sc_shard_id (sc_config s)
     /\ (cr_tx_hash receipt ∈ leaves
         \/ exists path, Merkle.collision (Merkle.proof_inputs (cr_tx_hash receipt) path) (Merkle.tree_inputs t))).
Proof.
  intros Hsha Hl Hne Hb. split.
  - intros i leaf src height Hi Hz.
    destruct (Merkle.proof_complete leaves i leaf Hi Hz) as (t' & p & Ht' & Hp & <- & Hroot & Hv).
    rewrite Hb in Ht'. injection Ht' as <-.
    pose proof (Merkle.generated_hashes _ _ _ _ Hsha Hl Hne Hb Hp) as Hh.
    exists (concat (encode_step <$> Merkle.path p)). unfold verify_cross_shard_receipt. cbn [dest_shard cr_tx_hash inclusion_proof].
    rewrite decide_False by tauto.
    assert (length (concat (encode_step <$> Merkle.path p)) = ENTRY_SIZE * length (Merkle.path p))%nat as Hlen.
    { clear -Hh. induction Hh as [|x l Hx _ IH]; [done|]. cbn [fmap list_fmap concat].
      rewrite length_app, IH. cbn. rewrite Hx. lia. }
    rewrite (proj2 (verify_inclusion_fold _ _ _)); [done|]. split.
    + rewrite Hlen, Nat.mul_comm. by apply Nat.Div0.mod_mul.
    + rewrite chunks_concat; [|done|rewrite Hlen; unfold ENTRY_SIZE; lia].
      assert (decode_step <$> (encode_step <$> Merkle.path p) = Merkle.path p) as ->.
      { clear. induction (Merkle.path p) as [|x l IH]; [done|]. cbn [fmap list_fmap].
        by rewrite decode_encode, IH. }
      apply bool_decide_eq_true_1 in Hv. by rewrite Hv.
  - intros receipt Htx Hlen. unfold verify_cross_shard_receipt. case_decide as Hd; [done|].
    destruct (verify_merkle_inclusion _ _ _) eqn:Hv; [|done]. intros _. split; [done|].
    apply verify_inclusion_fold in Hv as [_ Hv].
    destruct (Merkle.tree_sound leaves t (cr_tx_hash receipt)
      (decode_step <$> chunks (length (inclusion_proof receipt)) (inclusion_proof receipt))) as [Hin|Hcol];
      try done; [| |by left|right; by eexists].
    + apply Forall_fmap. eapply Forall_impl; [apply chunks_length|]. intros c Hc. unfold ENTRY_SIZE in Hc.
      unfold Merkle.is_hash, compose, decode_step. cbn [Merkle.step_hash]. rewrite length_drop. lia.
    + rewrite length_fmap. apply chunks_count; [done|]. rewrite Hlen. unfold ENTRY_SIZE. lia.
Qed.

(** The number of entries of a receipt is not checked.  Whoever knows a state root has a
    receipt for it: the root itself passes as a transaction with an empty proof, in every
    shard and for any source. *)
Theorem state_root_is_a_receipt s root src height :
  verify_cross_shard_receipt s (mkReceipt root src (sc_shard_id (sc_config s)) [] height) root = Ok true.
Proof.
  unfold verify_cross_shard_receipt, verify_merkle_inclusion. cbn.
  rewrite decide_False by tauto. by rewrite bool_decide_true.
Qed.
End engine.

(** ** A concrete network of two shards *)

Module Sample.

#[local] Existing Instance Merkle.wide_hash.
#[local] Instance sample_ristretto : RistrettoLib := Vrf.reference_ristretto.

Definition validator (i shard : Z) : ValidatorInfo :=
  mkValidatorInfo [i] 70 None 1000 shard (mkVrfPublicKey []) true true 40.
Definition validators : list ValidatorInfo :=
  map (fun i => validator i 0) [1; 2; 3; 4; 5; 6] ++ map (fun i => validator i 1) [11; 12; 13; 14; 15].

Lemma validators_distinct : NoDup (vi_node_id <$> validators).
Proof. decide_now. Qed.

Definition coordinator : ShardCoordinator := initialize_shards (new_coordinator 0 2) validators [9] 0.
Definition engine0 : ShardedConsensus := default (new (for_shard 0 0)) (shard_engines coordinator !! 0).

Lemma shard_committees_safe_witness :
  exists com, committee_safe (assignments_of validators) (neighbor_shards coordinator 0) engine0 com.
Proof.
  refine (proj2 (proj2 (shard_committees_safe 0 2 validators [9] 0 0 engine0 _ _ _ _))).
  - lia.
  - lia.
  - apply validators_distinct.
  - vm_compute. done.
Defined.

Definition committee0 : ValidatorCommittee := default Selection.Sample.no_committee (combined_committee engine0).

(** Two of the three members of shard 0 are local, and two signatures finalize. *)
Lemma local_members_finalize_witness : has_finality committee0 (Z.of_nat (length (local_committee engine0))) = true.
Proof.
  refine (local_members_finalize 0 6 validators (assignments_of validators) [1] [9] 0 committee0 _ _ _).
  - apply validators_distinct.
  - vm_compute. done.
  - vm_compute. done.
Defined.

Lemma receipt_exact_witness :
  exists proof, verify_cross_shard_receipt engine0
    (mkReceipt (replicate 32 2) 1 0 proof 5) (Merkle.root Merkle.three_tree) = Ok true.
Proof.
  refine (proj1 (receipt_exact engine0 Merkle.three Merkle.three_tree _ _ _ _) 1%nat _ 1 5 _ _).
  - intros b. unfold Merkle.is_hash. cbn [sha256 Merkle.wide_hash]. by rewrite length_replicate.
  - decide_now.
  - done.
  - vm_compute. done.
  - done.
  - done.
Defined.

End Sample.

End ShardedConsensus.
