(* ===== verification/PolCollector.v ===== *)
(** * gratia-pol: sensor events and the checks of a day

    [crates/gratia-pol/src/collector.rs]: the buffer that turns the sensor events of a day
    into a [DailyProofOfLifeData] record (Module [Collector]), and
    [crates/gratia-pol/src/validator.rs]: the check of the eight parameters and the
    phone-farm heuristics (Module [Validator]).

    Theorems: the record of a day is what its events say, in whatever order the sensors
    deliver them as far as that cannot matter ([collector_exact]); the validator, its error
    path and the check of [gratia-core] agree on every day ([pol_checks_agree]); a phone
    whose Bluetooth neighbourhood never changes has no valid day ([farm_day_invalid]). *)

From stdpp Require Import base tactics strings list gmap sets sorting.
From Stdlib Require Import ZArith Lia.
From S2P Require Import Prelude CoreTypes ThirdParty GovVoting GovPolling Crypto Blocks PolTypes Ieee.
Local Open Scope Z_scope.

Section data.
Context `{!FloatLib}.

Inductive SensorEvent :=
| Unlock (timestamp : DateTime)
| Interaction (timestamp : DateTime) (duration_secs : Z)
| OrientationChange (timestamp : DateTime)
| Motion (timestamp : DateTime)
| GpsUpdate (timestamp : DateTime) (lat lon : f32)
| WifiScan (timestamp : DateTime) (bssid_hashes : list Z)
| BluetoothScan (timestamp : DateTime) (peer_hashes : list Z)
| ChargeEvent (timestamp : DateTime) (is_charging : bool).

Record SensorEventBuffer := mkBuffer {
  unlock_timestamps : list DateTime;
  interaction_count : Z;
  sb_interaction_sessions : list (DateTime * Z);
  sb_orientation_changed : bool;
  sb_human_motion_detected : bool;
  last_gps : option (f32 * f32);
  sb_gps_fix_obtained : bool;
  wifi_bssids : gset Z;
  bt_environments : list (list Z);
  sb_distinct_bt_environments : Z;
  charge_event_occurred : bool;
  charge_timestamps : list DateTime;
  sb_optional_sensors : OptionalSensorData
}.
End data.

Module Collector.
Section collector.
Context `{!FloatLib}.

Definition new : SensorEventBuffer :=
  mkBuffer [] 0 [] false false None false ∅ [] 0 false [] default_OptionalSensorData.

Definition process_event (b : SensorEventBuffer) (event : SensorEvent) : SensorEventBuffer :=
  let 'mkBuffer unlocks icount isess orient motion gps gpsfix wifi bts nbt charged charges opt := b in
  match event with
  | Unlock timestamp =>
      mkBuffer (unlocks ++ [timestamp]) icount isess orient motion gps gpsfix wifi bts nbt charged charges opt
  | Interaction timestamp duration_secs =>
      mkBuffer unlocks (wadd 32 icount 1) (isess ++ [(timestamp, duration_secs)]) orient motion gps gpsfix
        wifi bts nbt charged charges opt
  | OrientationChange _ =>
      mkBuffer unlocks icount isess true motion gps gpsfix wifi bts nbt charged charges opt
  | Motion _ =>
      mkBuffer unlocks icount isess orient true gps gpsfix wifi bts nbt charged charges opt
  | GpsUpdate _ lat lon =>
      mkBuffer unlocks icount isess orient motion (Some (lat, lon)) true wifi bts nbt charged charges opt
  | WifiScan _ bssid_hashes =>
      mkBuffer unlocks icount isess orient motion gps gpsfix
        (foldl (fun s h => {[h]} ∪ s) wifi bssid_hashes) bts nbt charged charges opt
  | BluetoothScan _ peer_hashes =>
      let sorted := merge_sort Z.le peer_hashes in
      let is_new_environment :=
        match last bts with Some prev => bool_decide (prev <> sorted) | None => true end in
      if is_new_environment then
        mkBuffer unlocks icount isess orient motion gps gpsfix wifi (bts ++ [sorted]) (wadd 32 nbt 1)
          charged charges opt
      else b
  | ChargeEvent timestamp _ =>
      mkBuffer unlocks icount isess orient motion gps gpsfix wifi bts nbt true (charges ++ [timestamp]) opt
  end.

Definition process_events (b : SensorEventBuffer) (events : list SensorEvent) : SensorEventBuffer :=
  foldl process_event b events.

(** [iter().min()] and [iter().max()]. *)
Definition min_list (l : list Z) : option Z :=
  match l with [] => None | x :: l => Some (foldl Z.min x l) end.
Definition max_list (l : list Z) : option Z :=
  match l with [] => None | x :: l => Some (foldl Z.max x l) end.

Definition to_daily_data (b : SensorEventBuffer) : DailyProofOfLifeData :=
  mkDailyData _ (wrap 32 (Z.of_nat (length (unlock_timestamps b))))
    (min_list (unlock_timestamps b)) (max_list (unlock_timestamps b))
    (interaction_count b) (sb_orientation_changed b) (sb_human_motion_detected b) (sb_gps_fix_obtained b)
    ((fun '(lat, lon) => mkGeoLocation lat lon) <$> last_gps b)
    (wrap 32 (Z.of_nat (size (wifi_bssids b)))) (sb_distinct_bt_environments b)
    (if decide (sb_distinct_bt_environments b > 1) then sb_distinct_bt_environments b - 1 else 0)
    (charge_event_occurred b) (sb_optional_sensors b).

Definition reset (b : SensorEventBuffer) : SensorEventBuffer := new.

Definition set_optional_sensors (b : SensorEventBuffer) (sensors : OptionalSensorData) : SensorEventBuffer :=
  mkBuffer (unlock_timestamps b) (interaction_count b) (sb_interaction_sessions b) (sb_orientation_changed b)
    (sb_human_motion_detected b) (last_gps b) (sb_gps_fix_obtained b) (wifi_bssids b) (bt_environments b)
    (sb_distinct_bt_environments b) (charge_event_occurred b) (charge_timestamps b) sensors.

(** ** What the events of a day say *)

Definition unlocks (l : list SensorEvent) : list DateTime :=
  omap (fun e => match e with Unlock t => Some t | _ => None end) l.
Definition interactions (l : list SensorEvent) : Z :=
  Z.of_nat (length (filter (fun e => match e with Interaction _ _ => true | _ => false end = true) l)).
Definition some_event (p : SensorEvent -> bool) (l : list SensorEvent) : bool := existsb p l.
Definition networks (l : list SensorEvent) : list Z :=
  l ≫= (fun e => match e with WifiScan _ hs => hs | _ => [] end).
Definition scans (l : list SensorEvent) : list (list Z) :=
  omap (fun e => match e with BluetoothScan _ ps => Some (merge_sort Z.le ps) | _ => None end) l.

(** The scans without immediate repetitions. *)
Fixpoint environments (prev : option (list Z)) (l : list (list Z)) : list (list Z) :=
  match l with
  | [] => []
  | s :: l => if decide (prev = Some s) then environments prev l else s :: environments (Some s) l
  end.

Definition is_orientation (e : SensorEvent) : bool := match e with OrientationChange _ => true | _ => false end.
Definition is_motion (e : SensorEvent) : bool := match e with Motion _ => true | _ => false end.
Definition is_gps (e : SensorEvent) : bool := match e with GpsUpdate _ _ _ => true | _ => false end.
Definition is_charge (e : SensorEvent) : bool := match e with ChargeEvent _ _ => true | _ => false end.

(** What [to_daily_data] computes from a buffer in the state after some events. *)
Record reflects (b : SensorEventBuffer) (l : list SensorEvent) : Prop := {
  re_unlocks : unlock_timestamps b = unlocks l;
  re_interactions : interaction_count b = wrap 32 (interactions l);
  re_orientation : sb_orientation_changed b = some_event is_orientation l;
  re_motion : sb_human_motion_detected b = some_event is_motion l;
  re_gps : sb_gps_fix_obtained b = some_event is_gps l;
  re_wifi : wifi_bssids b = list_to_set (networks l);
  re_bt : bt_environments b = environments None (scans l);
  re_bt_count : sb_distinct_bt_environments b = wrap 32 (Z.of_nat (length (environments None (scans l))));
  re_charge : charge_event_occurred b = some_event is_charge l
}.

Definition latest (prev : option (list Z)) (l : list (list Z)) : option (list Z) :=
  match last l with Some y => Some y | None => prev end.

Lemma latest_cons prev x l : latest prev (x :: l) = latest (Some x) l.
Proof. unfold latest. rewrite last_cons. by destruct (last l). Qed.

Lemma environments_app prev l s :
  environments prev (l ++ [s])
  = environments prev l ++ (if decide (latest prev (environments prev l) = Some s) then [] else [s]).
Proof.
  revert prev. induction l as [|x l IH]; intros prev; cbn [environments app]; [done|].
  case_decide as Hx; [apply IH|]. rewrite IH, latest_cons. done.
Qed.

Lemma foldl_insert_set (l : list Z) (s : gset Z) :
  foldl (fun s h => {[h]} ∪ s) s l = s ∪ list_to_set l.
Proof.
  revert s. induction l as [|x l IH]; intros s; cbn; [set_solver|]. rewrite IH. set_solver.
Qed.

Lemma some_event_snoc p l e : some_event p (l ++ [e]) = some_event p l || p e.
Proof. unfold some_event. rewrite existsb_app. cbn. by rewrite orb_false_r. Qed.

Lemma interactions_snoc l e :
  interactions (l ++ [e]) = interactions l + (match e with Interaction _ _ => 1 | _ => 0 end).
Proof.
  unfold interactions. rewrite filter_app, length_app, filter_cons, filter_nil.
  destruct e; case_decide; try done; cbn [length]; lia.
Qed.

Lemma networks_snoc l e :
  networks (l ++ [e]) = networks l ++ (match e with WifiScan _ hs => hs | _ => [] end).
Proof. unfold networks. rewrite bind_app. cbn. by rewrite app_nil_r. Qed.

Lemma scans_snoc l e :
  scans (l ++ [e]) = scans l ++ (match e with BluetoothScan _ ps => [merge_sort Z.le ps] | _ => [] end).
Proof. unfold scans. rewrite omap_app. by destruct e. Qed.

Lemma unlocks_snoc l e : unlocks (l ++ [e]) = unlocks l ++ (match e with Unlock t => [t] | _ => [] end).
Proof. unfold unlocks. rewrite omap_app. by destruct e. Qed.

Lemma min_max_spec x l :
  foldl Z.min x l ∈ x :: l /\ foldl Z.max x l ∈ x :: l
  /\ Forall (fun t => foldl Z.min x l <= t <= foldl Z.max x l) (x :: l).
Proof.
  revert x. induction l as [|y l IH]; intros x; cbn [foldl].
  - rewrite elem_of_cons. split; [by left|]. split; [by left|]. repeat constructor; lia.
  - destruct (IH (Z.min x y)) as (Hmin & _ & Hmin'). destruct (IH (Z.max x y)) as (_ & Hmax & Hmax').
    rewrite Forall_cons in Hmin', Hmax'. destruct Hmin' as [Hm1 Hm2], Hmax' as [HM1 HM2].
    rewrite Forall_forall in Hm2, HM2. rewrite !elem_of_cons in Hmin, Hmax. rewrite !elem_of_cons.
    split; [destruct Hmin as [Hmin|?]; [|tauto]; rewrite Hmin; destruct (Z.min_spec x y) as [[_ ->]|[_ ->]]; tauto|].
    split; [destruct Hmax as [Hmax|?]; [|tauto]; rewrite Hmax; destruct (Z.max_spec x y) as [[_ ->]|[_ ->]]; tauto|].
    rewrite !Forall_cons, Forall_forall. split; [lia|]. split; [lia|].
    intros t Ht. specialize (Hm2 t Ht). specialize (HM2 t Ht). lia.
Qed.

(** The fields an event does not touch. *)
Ltac reflects_tac :=
  split; cbn [unlock_timestamps interaction_count sb_orientation_changed sb_human_motion_detected
    sb_gps_fix_obtained wifi_bssids bt_environments sb_distinct_bt_environments charge_event_occurred];
  rewrite ?unlocks_snoc, ?interactions_snoc, ?some_event_snoc, ?networks_snoc, ?scans_snoc,
    ?environments_app; cbn [is_orientation is_motion is_gps is_charge];
  rewrite ?app_nil_r, ?orb_false_r, ?orb_true_r, ?Z.add_0_r, ?foldl_insert_set, ?list_to_set_app_L;
  try done.

Lemma reflects_step b l e : reflects b l -> reflects (process_event b e) (l ++ [e]).
Proof.
  intros [Hu Hi Ho Hm Hg Hw Hb Hn Hc].
  destruct b as [us ic ss o m g gf w bts nbt c cs opt]. cbn in Hu, Hi, Ho, Hm, Hg, Hw, Hb, Hn, Hc. subst.
  destruct e as [t|t d|t|t|t la lo|t hs|t ps|t ch]; cbn [process_event].
  1, 2, 3, 4, 5, 6, 8: reflects_tac.
  - apply wadd_wrap.
  - assert ((match last (environments None (scans l)) with
             | Some prev => bool_decide (prev <> merge_sort Z.le ps) | None => true end)
            = if decide (latest None (environments None (scans l)) = Some (merge_sort Z.le ps))
              then false else true) as ->.
    { unfold latest. destruct (last _) as [x|]; [|done]. case_bool_decide; case_decide; congruence. }
    case_decide as Hd; reflects_tac.
    + by rewrite decide_True, app_nil_r.
    + by rewrite decide_True, app_nil_r.
    + by rewrite decide_False.
    + rewrite decide_False, length_app by done. rewrite wadd_wrap. f_equal. cbn. lia.
Qed.

Lemma process_reflects events : reflects (process_events new events) events.
Proof.
  unfold process_events. induction events as [|e l IH] using rev_ind; [by split|].
  rewrite foldl_app. by apply reflects_step.
Qed.

(** C31: the record of a day is what its sensor events say.  From the events since the start
    of the day the buffer computes the number of unlocks with the earliest and the latest,
    the number of sessions, whether there was an orientation change, a motion, a GPS fix and
    a charge event, the number of different networks, and the number of Bluetooth scans that
    saw another set of peers than the scan before; the changes of environment are one less.
    Counters wrap at 32 bits. *)
Theorem collector_exact events :
  let d := to_daily_data (process_events new events) in
  let u := unlocks events in
  let n := wrap 32 (Z.of_nat (length (environments None (scans events)))) in
  unlock_count d = wrap 32 (Z.of_nat (length u))
  /\ (u = [] -> first_unlock d = None /\ last_unlock d = None)
  /\ (u <> [] -> exists a z, first_unlock d = Some a /\ last_unlock d = Some z
        /\ a ∈ u /\ z ∈ u /\ Forall (fun t => a <= t <= z) u)
  /\ interaction_sessions d = wrap 32 (interactions events)
  /\ orientation_changed d = some_event is_orientation events
  /\ human_motion_detected d = some_event is_motion events
  /\ gps_fix_obtained d = some_event is_gps events
  /\ charge_cycle_event d = some_event is_charge events
  /\ distinct_wifi_networks d = wrap 32 (Z.of_nat (size (list_to_set (networks events) : gset Z)))
  /\ distinct_bt_environments d = n /\ bt_environment_change_count d = Z.max 0 (n - 1).
Proof.
  cbn zeta. destruct (process_reflects events) as [Hu Hi Ho Hm Hg Hw Hb Hn Hc].
  unfold to_daily_data. cbn. rewrite Hu, Hi, Ho, Hm, Hg, Hw, Hn, Hc.
  split; [done|]. split; [by intros ->|]. split.
  { destruct (unlocks events) as [|x l]; [done|]. intros _.
    destruct (min_max_spec x l) as (Ha & Hz & Hall). by exists (foldl Z.min x l), (foldl Z.max x l). }
  repeat (split; [done|]). case_decide; lia.
Qed.
End collector.
End Collector.

(** ** The validator *)

Record ParameterResults := mkParameterResults {
  pr_unlock_count : bool;
  pr_unlock_spread : bool;
  pr_interaction_sessions : bool;
  pr_orientation_change : bool;
  pr_human_motion : bool;
  pr_gps_fix : bool;
  pr_network_connectivity : bool;
  pr_bt_environment_variation : bool;
  pr_charge_cycle : bool
}.

Record SuspiciousPatterns := mkSuspicious {
  regular_interval_unlocks : bool;
  identical_session_timing : bool;
  automated_cluster_pattern : bool;
  suspicion_score : Z
}.

Record ValidationResult := mkValidationResult {
  passed : bool;
  parameter_results : ParameterResults;
  suspicious_patterns : SuspiciousPatterns
}.

Module Validator.

Definition all_passed (r : ParameterResults) : bool :=
  pr_unlock_count r && pr_unlock_spread r && pr_interaction_sessions r && pr_orientation_change r
  && pr_human_motion r && pr_gps_fix r && pr_network_connectivity r && pr_bt_environment_variation r
  && pr_charge_cycle r.

Definition failed_parameters (r : ParameterResults) : list string :=
  let name (b : bool) (s : string) := if b then [] else [s] in
  name (pr_unlock_count r) "unlock_count" ++ name (pr_unlock_spread r) "unlock_spread"
  ++ name (pr_interaction_sessions r) "interaction_sessions" ++ name (pr_orientation_change r) "orientation_change"
  ++ name (pr_human_motion r) "human_motion" ++ name (pr_gps_fix r) "gps_fix"
  ++ name (pr_network_connectivity r) "network_connectivity"
  ++ name (pr_bt_environment_variation r) "bt_environment_variation" ++ name (pr_charge_cycle r) "charge_cycle".

Definition any_flagged (p : SuspiciousPatterns) : bool :=
  regular_interval_unlocks p || identical_session_timing p || automated_cluster_pattern p.

Definition validate_unlock_spread (c : ProofOfLifeConfig) (first_unlock last_unlock : option DateTime) : bool :=
  match first_unlock, last_unlock with
  | Some first, Some last =>
      let spread_hours := num_hours (last - first) in
      bool_decide (spread_hours >= min_unlock_spread_hours c)
  | _, _ => false
  end.

(** [f64] arithmetic on bit patterns. *)
Local Abbreviation D := Ieee.f64 (only parsing).
Definition d64 (n : Z) : Z := Ieee.of_int D n.

Section validator.
Context `{!FloatLib}.

(** The first heuristic: the flag and the signals it adds. *)
Definition regular_unlocks (c : ProofOfLifeConfig) (d : DailyProofOfLifeData) : bool * list Z :=
  match first_unlock d, last_unlock d with
  | Some first, Some last =>
      let spread_secs := d64 (Z.max (num_seconds (last - first)) 1) in
      if decide (unlock_count d >= 2) then
        let intervals := Ieee.fsub D (d64 (unlock_count d)) (d64 1) in
        let avg_interval := Ieee.fdiv D spread_secs intervals in
        let exactly_minimum_unlocks := bool_decide (unlock_count d = min_daily_unlocks c) in
        let spread_hours := Ieee.fdiv D spread_secs (d64 3600) in
        let barely_meets_spread :=
          Ieee.flt D spread_hours (Ieee.fadd D (d64 (min_unlock_spread_hours c)) (Ieee.flit D 1 2)) in
        let '(flag, signals) :=
          if exactly_minimum_unlocks && barely_meets_spread then (true, [Ieee.flit D 6 10])
          else if exactly_minimum_unlocks then (false, [Ieee.flit D 2 10])
          else (false, []) in
        if decide (unlock_count d <= wadd 32 (min_daily_unlocks c) 2) then
          let perfect_spread := Ieee.fmul D avg_interval intervals in
          let deviation :=
            Ieee.fdiv D (Ieee.fabs D (Ieee.fsub D perfect_spread spread_secs)) spread_secs in
          if Ieee.flt D deviation (Ieee.flit D 1 100) then (true, signals ++ [Ieee.flit D 4 10])
          else (flag, signals)
        else (flag, signals)
      else (false, [])
  | _, _ => (false, [])
  end.

(** The third heuristic. *)
Definition cluster_pattern (c : ProofOfLifeConfig) (d : DailyProofOfLifeData) : bool :=
  match first_unlock d, last_unlock d with
  | Some first, Some last =>
      let spread_hours := Ieee.fdiv D (d64 (num_seconds (last - first))) (d64 3600) in
      let min_spread := d64 (min_unlock_spread_hours c) in
      let barely_meets :=
        Ieee.fle D min_spread spread_hours
        && Ieee.flt D spread_hours (Ieee.fadd D min_spread (Ieee.flit D 17 100)) in
      barely_meets && bool_decide (unlock_count d = min_daily_unlocks c)
      && bool_decide (interaction_sessions d = min_interaction_sessions c)
  | _, _ => false
  end.

Definition detect_suspicious_patterns (c : ProofOfLifeConfig) (d : DailyProofOfLifeData) : SuspiciousPatterns :=
  let '(regular, signals) := regular_unlocks c d in
  let identical := bool_decide (interaction_sessions d = min_interaction_sessions c) in
  let signals := if identical then signals ++ [Ieee.flit D 3 10] else signals in
  let cluster := cluster_pattern c d in
  let signals := if cluster then signals ++ [Ieee.flit D 8 10] else signals in
  mkSuspicious regular identical cluster
    (Ieee.fmin D (foldl (Ieee.fmax D) (d64 0) signals) (d64 1)).

Definition validate_daily_data (c : ProofOfLifeConfig) (d : DailyProofOfLifeData) : ValidationResult :=
  let parameter_results := mkParameterResults
    (bool_decide (unlock_count d >= min_daily_unlocks c))
    (validate_unlock_spread c (first_unlock d) (last_unlock d))
    (bool_decide (interaction_sessions d >= min_interaction_sessions c))
    (orientation_changed d) (human_motion_detected d) (gps_fix_obtained d)
    (bool_decide (distinct_wifi_networks d >= 1) || bool_decide (distinct_bt_environments d >= 1))
    (bool_decide (distinct_bt_environments d = 0)
     || (bool_decide (distinct_bt_environments d >= min_distinct_bt_environments c)
         && bool_decide (bt_environment_change_count d >= 1)))
    (charge_cycle_event d) in
  mkValidationResult (all_passed parameter_results) parameter_results (detect_suspicious_patterns c d).

Definition validate_or_error (c : ProofOfLifeConfig) (d : DailyProofOfLifeData) : result GratiaError unit :=
  let result := validate_daily_data c d in
  let pr := parameter_results result in
  if passed result then Ok tt
  else if negb (pr_unlock_count pr) then Err (InsufficientUnlocks (unlock_count d) (min_daily_unlocks c))
  else if negb (pr_unlock_spread pr) then
    let hours := match first_unlock d, last_unlock d with
                 | Some f, Some l => wrap 32 (num_hours (l - f))
                 | _, _ => 0
                 end in
    Err (UnlockSpreadTooNarrow hours (min_unlock_spread_hours c))
  else if negb (pr_charge_cycle pr) then Err NoChargeCycleEvent
  else if negb (pr_bt_environment_variation pr) then Err InsufficientBtVariation
  else Err (ProofOfLifeInvalid ("failed parameters: " +:+ String.concat ", " (failed_parameters pr))).

Lemma passed_is_valid c d : passed (validate_daily_data c d) = Pol.is_valid d c.
Proof. done. Qed.

Lemma failed_none r : failed_parameters r = [] <-> all_passed r = true.
Proof. destruct r as [[] [] [] [] [] [] [] [] []]; vm_compute; done. Qed.

(** The checks of a day agree.  The validator of the Proof of Life engine passes a day
    exactly when [gratia-core] does; its error path returns an error exactly for the days
    that do not pass; and a day passes exactly when the list of failed parameters is empty. *)
Theorem pol_checks_agree c d :
  passed (validate_daily_data c d) = Pol.is_valid d c
  /\ (validate_or_error c d = Ok tt <-> Pol.is_valid d c = true)
  /\ (failed_parameters (parameter_results (validate_daily_data c d)) = [] <-> Pol.is_valid d c = true).
Proof.
  split; [apply passed_is_valid|]. split.
  - rewrite <- passed_is_valid. unfold validate_or_error. destruct (passed _); [done|].
    split; [|done]. by repeat case_match.
  - rewrite <- passed_is_valid. apply failed_none.
Qed.

(** ** Phone farms *)

Lemma environments_same s l :
  Forall (eq s) l -> Collector.environments (Some s) l = [].
Proof. induction 1 as [|x l <- _ IH]; [done|]. cbn. by rewrite decide_True. Qed.

(** C32: a phone that never leaves the farm.  When all Bluetooth scans of a day, at least one,
    see the same peers in whatever order, the day is not valid, however many other events
    there are. *)
Theorem farm_day_invalid c events peers t0 p0 :
  BluetoothScan t0 p0 ∈ events ->
  (forall t ps, BluetoothScan t ps ∈ events -> ps ≡ₚ peers) ->
  Pol.is_valid (Collector.to_daily_data (Collector.process_events Collector.new events)) c = false.
Proof.
  intros Hin Hall. destruct (Collector.process_reflects events) as [_ _ _ _ _ _ _ Hn _].
  assert (Forall (eq (merge_sort Z.le peers)) (Collector.scans events)) as Hs.
  { apply Forall_forall. intros s Hs. apply list_elem_of_omap in Hs as (e & He & Hse).
    destruct e as [| | | | | |t ps|]; try done. injection Hse as <-.
    eapply (StronglySorted_unique Z.le); try apply StronglySorted_merge_sort; try apply _.
    by rewrite !merge_sort_Permutation, (Hall t ps He). }
  assert (length (Collector.environments None (Collector.scans events)) = 1%nat) as Hlen.
  { assert (merge_sort Z.le p0 ∈ Collector.scans events) as Hp.
    { apply list_elem_of_omap. by exists (BluetoothScan t0 p0). }
    destruct (Collector.scans events) as [|s l]; [by apply not_elem_of_nil in Hp|].
    apply Forall_cons in Hs as [<- Hs]. cbn. by rewrite environments_same. }
  rewrite Hlen in Hn. apply not_true_is_false. intros Hv. unfold Pol.is_valid in Hv. cbv zeta in Hv.
  rewrite !andb_true_iff, !orb_true_iff, andb_true_iff, !bool_decide_eq_true in Hv.
  destruct Hv as [[_ Hbt] _]. unfold Collector.to_daily_data in Hbt.
  cbn [distinct_bt_environments bt_environment_change_count] in Hbt. rewrite Hn in Hbt.
  change (wrap 32 (Z.of_nat 1)) with 1 in Hbt. rewrite decide_False in Hbt by lia.
  destruct Hbt as [?|[_ ?]]; lia.
Qed.
End validator.

(** ** Concrete days *)

Section days.
#[local] Existing Instance reference_float.

(** A person's day: twelve unlocks over fourteen hours, in bursts.  The heuristic recomputes
    the spread from its own average, so its deviation is zero for every pattern of unlocks:
    the day is flagged as regular all the same. *)
Definition human_day : DailyProofOfLifeData :=
  mkDailyData _ 12 (Some 0) (Some (14 * 3600 * NANOS)) 9 true true true None 3 2 1 true default_OptionalSensorData.

Theorem organic_day_flagged :
  Pol.is_valid human_day default_ProofOfLifeConfig = true
  /\ regular_interval_unlocks (detect_suspicious_patterns default_ProofOfLifeConfig human_day) = true
  /\ suspicion_score (detect_suspicious_patterns default_ProofOfLifeConfig human_day) = Ieee.flit Ieee.f64 4 10.
Proof. vm_compute. done. Qed.

Lemma farm_day_invalid_witness :
  let events := [Unlock 0; BluetoothScan 1 [7; 3]; ChargeEvent 2 true; BluetoothScan 5 [3; 7]] in
  Pol.is_valid (Collector.to_daily_data (Collector.process_events Collector.new events))
    default_ProofOfLifeConfig = false.
Proof.
  refine (farm_day_invalid default_ProofOfLifeConfig
    [Unlock 0; BluetoothScan 1 [7; 3]; ChargeEvent 2 true; BluetoothScan 5 [3; 7]] [3; 7] 1 [7; 3] _ _).
  - right. left.
  - intros t ps Hin. rewrite !elem_of_cons, elem_of_nil in Hin.
    destruct Hin as [[=]|[[= -> ->]|[[=]|[[= -> ->]|[]]]]]; [apply Permutation_swap|done].
Defined.
End days.
End Validator.
