(* ===== verification/PolTrust.v ===== *)
(** * gratia-pol: trust tiers and the Presence Score

    [crates/gratia-pol/src/trust.rs] (Module [Trust]) and
    [crates/gratia-pol/src/scoring.rs] (Module [Scoring]).

    Theorems: over every history the tier of a node is the one of its current streak of
    valid days, so privileges need the streak itself and one missed day or slash ends them
    ([trust_tracks_streak]); the adjusted score is the clamped sum of its parts and never
    falls when a part rises ([score_adjustment_exact]). *)

From stdpp Require Import base tactics list.
From Stdlib Require Import ZArith Lia.
From S2P Require Import Prelude CoreTypes Ieee.
Local Open Scope Z_scope.

Inductive TrustTier := Unverified | Provisional | Establishing | Established | Trusted.
Inductive ScrutinyLevel := Maximum | High | Standard | Normal.

#[export] Instance TrustTier_eq_dec : EqDecision TrustTier.
Proof. solve_decision. Defined.

Record TrustState := mkTrustState {
  tier : TrustTier;
  consecutive_pol_days : Z;
  total_pol_days : Z;
  first_pol_date : option DateTime;
  last_pol_date : option DateTime;
  slashing_resets : Z
}.

Record EnhancedPresenceScore := mkEnhancedScore {
  base_score : Z;
  tee_adjustment : Z;
  behavioral_bonus : Z;
  behavioral_raw : Z;
  final_score : Z
}.

Module Trust.

Definition PROVISIONAL_THRESHOLD : Z := 1.
Definition ESTABLISHING_THRESHOLD : Z := 7.
Definition ESTABLISHED_THRESHOLD : Z := 30.
Definition TRUSTED_THRESHOLD : Z := 90.

Definition from_consecutive_days (days : Z) : TrustTier :=
  if decide (days >= TRUSTED_THRESHOLD) then Trusted
  else if decide (days >= ESTABLISHED_THRESHOLD) then Established
  else if decide (days >= ESTABLISHING_THRESHOLD) then Establishing
  else if decide (days >= PROVISIONAL_THRESHOLD) then Provisional
  else Unverified.

Definition scrutiny_level (t : TrustTier) : ScrutinyLevel :=
  match t with
  | Unverified => Maximum
  | Provisional => High
  | Establishing => Standard
  | Established | Trusted => Normal
  end.

Definition is_committee_eligible (t : TrustTier) : bool :=
  match t with Established | Trusted => true | _ => false end.
Definition is_governance_eligible (t : TrustTier) : bool :=
  match t with Trusted => true | _ => false end.
Definition is_mining_eligible (t : TrustTier) : bool := true.

Definition days_until_next_tier (t : TrustTier) (current_days : Z) : option Z :=
  match t with
  | Unverified => Some (saturating_sub PROVISIONAL_THRESHOLD current_days)
  | Provisional => Some (saturating_sub ESTABLISHING_THRESHOLD current_days)
  | Establishing => Some (saturating_sub ESTABLISHED_THRESHOLD current_days)
  | Established => Some (saturating_sub TRUSTED_THRESHOLD current_days)
  | Trusted => None
  end.

(** The multipliers are [f64], as bits. *)
Definition challenge_frequency_multiplier (s : ScrutinyLevel) : Z :=
  match s with
  | Maximum => Ieee.of_int Ieee.f64 4
  | High => Ieee.of_int Ieee.f64 2
  | Standard | Normal => Ieee.of_int Ieee.f64 1
  end.
Definition behavioral_threshold_multiplier (s : ScrutinyLevel) : Z :=
  match s with
  | Maximum => Ieee.flit Ieee.f64 15 10
  | High => Ieee.flit Ieee.f64 125 100
  | Standard | Normal => Ieee.of_int Ieee.f64 1
  end.

(** ** The state of a node *)

Definition new : TrustState := mkTrustState Unverified 0 0 None None 0.

Definition record_valid_pol (s : TrustState) (date : DateTime) : TrustState :=
  let days := wadd 64 (consecutive_pol_days s) 1 in
  mkTrustState (from_consecutive_days days) days (wadd 64 (total_pol_days s) 1)
    (match first_pol_date s with None => Some date | some => some end) (Some date) (slashing_resets s).

Definition record_missed_pol (s : TrustState) : TrustState :=
  mkTrustState Unverified 0 (total_pol_days s) (first_pol_date s) (last_pol_date s) (slashing_resets s).

Definition apply_slashing_reset (s : TrustState) : TrustState :=
  mkTrustState Unverified 0 (total_pol_days s) (first_pol_date s) (last_pol_date s)
    (wadd 32 (slashing_resets s) 1).

(** ** Histories *)

Inductive trust_event := ValidDay (date : DateTime) | MissedDay | Slashed.

Definition trust_step (s : TrustState) (e : trust_event) : TrustState :=
  match e with
  | ValidDay date => record_valid_pol s date
  | MissedDay => record_missed_pol s
  | Slashed => apply_slashing_reset s
  end.

(** The valid days since the last miss or slash, most recent event last. *)
Definition streak (l : list trust_event) : Z :=
  foldl (fun n e => match e with ValidDay _ => n + 1 | _ => 0 end) 0 l.

Lemma streak_bounds l : 0 <= streak l <= Z.of_nat (length l).
Proof.
  induction l as [|e l IH] using rev_ind; [done|]. unfold streak in *. rewrite foldl_app, length_app.
  cbn. destruct e; lia.
Qed.

Definition valid_days (l : list trust_event) : list DateTime :=
  omap (fun e => match e with ValidDay d => Some d | _ => None end) l.

Lemma trust_invariant l :
  Z.of_nat (length l) < 2 ^ 32 ->
  let s := foldl trust_step new l in
  consecutive_pol_days s = streak l /\ tier s = from_consecutive_days (streak l)
  /\ total_pol_days s = Z.of_nat (length (valid_days l))
  /\ first_pol_date s = head (valid_days l) /\ last_pol_date s = last (valid_days l).
Proof.
  cbn zeta. induction l as [|e l IH] using rev_ind; [done|]. rewrite length_app. cbn [length]. intros Hl.
  destruct IH as (Hc & Ht & Htot & Hf & Hla); [lia|]. rewrite foldl_app. cbn [foldl].
  pose proof (streak_bounds l) as Hs. unfold streak, valid_days. rewrite foldl_app, omap_app.
  fold (streak l) (valid_days l). cbn [foldl].
  assert (length (valid_days l) <= length l)%nat as Hv.
  { clear. unfold valid_days. induction l as [|[] l IH]; cbn; lia. }
  destruct e as [d| |]; cbn [trust_step record_valid_pol record_missed_pol apply_slashing_reset
    consecutive_pol_days tier total_pol_days first_pol_date last_pol_date omap list_omap].
  - rewrite Hc, Htot, Hf. rewrite !wadd_small by (unfold in_range; lia). split; [done|]. split; [done|].
    split; [rewrite length_app; cbn; lia|]. split; [|by rewrite last_snoc].
    by destruct (valid_days l).
  - by rewrite !app_nil_r.
  - by rewrite !app_nil_r.
Qed.

Lemma tier_thresholds n :
  (is_committee_eligible (from_consecutive_days n) = true <-> ESTABLISHED_THRESHOLD <= n)
  /\ (is_governance_eligible (from_consecutive_days n) = true <-> TRUSTED_THRESHOLD <= n).
Proof.
  unfold from_consecutive_days, TRUSTED_THRESHOLD, ESTABLISHED_THRESHOLD, ESTABLISHING_THRESHOLD,
    PROVISIONAL_THRESHOLD. repeat case_decide; cbn; split; split; (lia || done).
Qed.

Lemma days_until_tier n :
  0 <= n -> match days_until_next_tier (from_consecutive_days n) n with
            | Some k => 0 < k /\ from_consecutive_days (n + k) <> from_consecutive_days n
                        /\ (forall j, 0 <= j < k -> from_consecutive_days (n + j) = from_consecutive_days n)
            | None => TRUSTED_THRESHOLD <= n
            end.
Proof.
  intros Hn. unfold from_consecutive_days, TRUSTED_THRESHOLD, ESTABLISHED_THRESHOLD, ESTABLISHING_THRESHOLD,
    PROVISIONAL_THRESHOLD. repeat case_decide; cbn; unfold saturating_sub, PROVISIONAL_THRESHOLD,
    ESTABLISHING_THRESHOLD, ESTABLISHED_THRESHOLD, TRUSTED_THRESHOLD; try lia;
    (split; [lia|]; split; [repeat case_decide; (done || lia)|intros j Hj; repeat case_decide; (done || lia)]).
Qed.

(** Trust is a streak.  Over every history of valid days, missed days and slashes, the
    tier of a node is that of its current streak: the committee is open to it exactly after
    30 and governance after 90 valid days in a row, a missed day or a slash takes both away
    at once, and the announced number of days to the next tier is exact. *)
Theorem trust_tracks_streak l e :
  Z.of_nat (length l) + 1 < 2 ^ 32 ->
  let s := foldl trust_step new l in
  consecutive_pol_days s = streak l
  /\ (is_committee_eligible (tier s) = true <-> ESTABLISHED_THRESHOLD <= streak l)
  /\ (is_governance_eligible (tier s) = true <-> TRUSTED_THRESHOLD <= streak l)
  /\ total_pol_days s = Z.of_nat (length (valid_days l))
  /\ (e <> MissedDay /\ e <> Slashed \/ tier (trust_step s e) = Unverified)
  /\ (forall k, days_until_next_tier (tier s) (consecutive_pol_days s) = Some k ->
       0 < k /\ from_consecutive_days (streak l + k) <> tier s).
Proof.
  intros Hl. destruct (trust_invariant l) as (Hc & Ht & Htot & _); [lia|]. cbn zeta.
  rewrite Hc, Ht, Htot. destruct (tier_thresholds (streak l)) as [H1 H2]. split; [done|]. split; [done|].
  split; [done|]. split; [done|]. split; [destruct e; [left; done|by right|by right]|].
  intros k Hk. pose proof (days_until_tier (streak l)) as Hd. rewrite Hk in Hd.
  destruct Hd as (? & ? & _); [apply streak_bounds|done].
Qed.

Lemma trust_tracks_streak_witness :
  let l := replicate 31 (ValidDay 0) in
  is_committee_eligible (tier (foldl trust_step new l)) = true <-> 30 <= streak l.
Proof.
  refine (proj1 (proj2 (trust_tracks_streak (replicate 31 (ValidDay 0)) MissedDay _))).
  vm_compute. done.
Defined.

End Trust.

Module Scoring.

(** [match score { 80..=100 => 10, 60..=79 => 7, 40..=59 => 4, _ => 0 }] *)
Definition consistency_bonus (score : Z) : Z :=
  if decide (80 <= score <= 100) then 10
  else if decide (60 <= score <= 79) then 7
  else if decide (40 <= score <= 59) then 4
  else 0.

Definition apply_security_adjustments (base_score tee_adjustment behavioral_consistency_score : Z) : Z :=
  let behavioral_bonus := consistency_bonus behavioral_consistency_score in
  let adjusted := base_score + tee_adjustment + behavioral_bonus in
  Z.min (Z.max adjusted 0) 100.

Definition compute_enhanced_presence_score (base_score tee_adjustment behavioral_consistency_score : Z)
  : EnhancedPresenceScore :=
  let final_score := apply_security_adjustments base_score tee_adjustment behavioral_consistency_score in
  mkEnhancedScore base_score tee_adjustment (consistency_bonus behavioral_consistency_score)
    behavioral_consistency_score final_score.

(** The final score is the clamped sum of its parts, never falls when a part rises (as long
    as the consistency score is one, at most 100), and a sum of [i8] and [u8] values cannot
    overflow the [i16] it is computed in. *)
Theorem score_adjustment_exact b t c b' t' c' :
  in_range 8 b -> -128 <= t <= 127 -> 0 <= c <= 100 -> b <= b' -> t <= t' -> c <= c' <= 100 ->
  let e := compute_enhanced_presence_score b t c in
  0 <= final_score e <= 100
  /\ -2 ^ 15 <= base_score e + tee_adjustment e + behavioral_bonus e < 2 ^ 15
  /\ final_score e = Z.min (Z.max (base_score e + tee_adjustment e + behavioral_bonus e) 0) 100
  /\ final_score e <= final_score (compute_enhanced_presence_score b' t' c').
Proof.
  unfold in_range. intros Hb Ht Hc Hbb Htt Hcc. cbn. unfold apply_security_adjustments.
  assert (0 <= consistency_bonus c <= 10 /\ consistency_bonus c <= consistency_bonus c') as [Hbo Hm].
  { unfold consistency_bonus. repeat case_decide; lia. }
  split; [lia|]. split; [lia|]. split; [done|]. lia.
Qed.

End Scoring.
