(* ===== verification/PolManager.v ===== *)
(** * gratia-pol: the Proof of Life of a phone

    [crates/gratia-pol/src/lib.rs]: the [ProofOfLifeManager], which records the events of a
    day, closes the day with its range proof, keeps the streak across days and restarts, and
    decides whether the phone may mine.

    A date is a number of days, an [Instant] a number of nanoseconds of the monotonic
    clock; [now] and the blinding factors of a proof are arguments, the state file is its
    content.

    Theorems: over every sequence of days, mining is open exactly to phones with a valid day
    behind them and at most the grace period of misses since ([pol_eligibility]); the state
    file restores the streak ([pol_state_restored]).  [manager_never_proves] and
    [restart_lifts_pause] show two defects: no history of a manager ever yields a range
    proof, and restarting the application lifts the pause after missed days. *)

From stdpp Require Import base tactics strings list gmap relations.
From Stdlib Require Import ZArith Lia.
From S2P Require Import Prelude CoreTypes ThirdParty GovVoting GovPolling Crypto Blocks PolTypes PolZk Ieee.
Local Open Scope Z_scope.

Record MiningConfig := mkMiningConfig {
  min_battery_percent : Z;
  max_cpu_temp_celsius : Z;
  power_check_interval_secs : Z
}.

(** The temperature is an [f32], as bits.  The parts of [Config] the manager reads. *)
Record PolConfig := mkPolManagerConfig {
  proof_of_life : ProofOfLifeConfig;
  mining : MiningConfig
}.

Record ProofOfLifeManager `{!FloatLib} := mkPolManager {
  pm_config : PolConfig;
  current_day_data : DailyProofOfLifeData;
  pm_valid_days : list Z;
  consecutive_valid_days : Z;
  consecutive_missed_days : Z;
  onboarding_complete : bool;
  mining_eligible : bool;
  last_zk_proof : option PolRangeProof;
  warm_start_until : option Z
}.

Module PolManager.

Definition default_MiningConfig : MiningConfig := mkMiningConfig 80 (Ieee.of_int Ieee.f32 40) 30.

Definition day_of (now : DateTime) : Z := now / (86400 * NANOS).

Section manager.
Context `{!FloatLib}.

Definition empty_day : DailyProofOfLifeData :=
  mkDailyData _ 0 None None 0 false false false None 0 0 0 false default_OptionalSensorData.

Definition new (config : PolConfig) : ProofOfLifeManager :=
  mkPolManager _ config empty_day [] 0 0 false false None None.

Definition with_day (m : ProofOfLifeManager) (d : DailyProofOfLifeData) : ProofOfLifeManager :=
  mkPolManager _ (pm_config m) d (pm_valid_days m) (consecutive_valid_days m) (consecutive_missed_days m)
    (onboarding_complete m) (mining_eligible m) (last_zk_proof m) (warm_start_until m).

(** ** Events of a day *)

Definition record_unlock (m : ProofOfLifeManager) (now : DateTime) : ProofOfLifeManager :=
  let d := current_day_data m in
  with_day m (mkDailyData _ (wadd 32 (unlock_count d) 1)
    (match first_unlock d with None => Some now | some => some end) (Some now)
    (interaction_sessions d) (orientation_changed d) (human_motion_detected d) (gps_fix_obtained d)
    (approximate_location d) (distinct_wifi_networks d) (distinct_bt_environments d)
    (bt_environment_change_count d) (charge_cycle_event d) (optional_sensors d)).

Definition record_interaction_session (m : ProofOfLifeManager) : ProofOfLifeManager :=
  let d := current_day_data m in
  with_day m (mkDailyData _ (unlock_count d) (first_unlock d) (last_unlock d)
    (wadd 32 (interaction_sessions d) 1) (orientation_changed d) (human_motion_detected d)
    (gps_fix_obtained d) (approximate_location d) (distinct_wifi_networks d) (distinct_bt_environments d)
    (bt_environment_change_count d) (charge_cycle_event d) (optional_sensors d)).

Definition record_orientation_change (m : ProofOfLifeManager) : ProofOfLifeManager :=
  let d := current_day_data m in
  with_day m (mkDailyData _ (unlock_count d) (first_unlock d) (last_unlock d) (interaction_sessions d)
    true (human_motion_detected d) (gps_fix_obtained d) (approximate_location d)
    (distinct_wifi_networks d) (distinct_bt_environments d) (bt_environment_change_count d)
    (charge_cycle_event d) (optional_sensors d)).

Definition record_human_motion (m : ProofOfLifeManager) : ProofOfLifeManager :=
  let d := current_day_data m in
  with_day m (mkDailyData _ (unlock_count d) (first_unlock d) (last_unlock d) (interaction_sessions d)
    (orientation_changed d) true (gps_fix_obtained d) (approximate_location d)
    (distinct_wifi_networks d) (distinct_bt_environments d) (bt_environment_change_count d)
    (charge_cycle_event d) (optional_sensors d)).

Definition record_gps_fix (m : ProofOfLifeManager) (lat lon : f32) : ProofOfLifeManager :=
  let d := current_day_data m in
  with_day m (mkDailyData _ (unlock_count d) (first_unlock d) (last_unlock d) (interaction_sessions d)
    (orientation_changed d) (human_motion_detected d) true (Some (mkGeoLocation lat lon))
    (distinct_wifi_networks d) (distinct_bt_environments d) (bt_environment_change_count d)
    (charge_cycle_event d) (optional_sensors d)).

Definition record_wifi_network (m : ProofOfLifeManager) : ProofOfLifeManager :=
  let d := current_day_data m in
  with_day m (mkDailyData _ (unlock_count d) (first_unlock d) (last_unlock d) (interaction_sessions d)
    (orientation_changed d) (human_motion_detected d) (gps_fix_obtained d) (approximate_location d)
    (wadd 32 (distinct_wifi_networks d) 1) (distinct_bt_environments d) (bt_environment_change_count d)
    (charge_cycle_event d) (optional_sensors d)).

Definition record_bt_environment_change (m : ProofOfLifeManager) : ProofOfLifeManager :=
  let d := current_day_data m in
  with_day m (mkDailyData _ (unlock_count d) (first_unlock d) (last_unlock d) (interaction_sessions d)
    (orientation_changed d) (human_motion_detected d) (gps_fix_obtained d) (approximate_location d)
    (distinct_wifi_networks d) (wadd 32 (distinct_bt_environments d) 1) (bt_environment_change_count d)
    (charge_cycle_event d) (optional_sensors d)).

Definition record_charge_event (m : ProofOfLifeManager) : ProofOfLifeManager :=
  let d := current_day_data m in
  with_day m (mkDailyData _ (unlock_count d) (first_unlock d) (last_unlock d) (interaction_sessions d)
    (orientation_changed d) (human_motion_detected d) (gps_fix_obtained d) (approximate_location d)
    (distinct_wifi_networks d) (distinct_bt_environments d) (bt_environment_change_count d)
    true (optional_sensors d)).

(** ** The end of a day *)

Definition proof_input (d : DailyProofOfLifeData) : PolProofInput :=
  mkPolProofInput (unlock_count d)
    (match first_unlock d, last_unlock d with
     | Some first, Some last => Z.max (num_hours (last - first)) 0
     | _, _ => 0
     end)
    (interaction_sessions d) (distinct_bt_environments d).

Definition thresholds (c : ProofOfLifeConfig) : PolThresholds :=
  mkPolThresholds (min_daily_unlocks c) (min_unlock_spread_hours c) (min_interaction_sessions c)
    (min_distinct_bt_environments c).

Section finalize.
Context `{!RangeProofLib}.

(** [while self.valid_days.len() > 365 { pop_front }] *)
Definition trim (l : list Z) : list Z := drop (length l - 365) l.

Definition finalize_day (m : ProofOfLifeManager) (epoch_day : Z) (now : DateTime) (blindings : list Scalar)
  : ProofOfLifeManager * bool :=
  let today := day_of now in
  let c := proof_of_life (pm_config m) in
  let d := current_day_data m in
  let is_valid := Pol.is_valid d c in
  let m' :=
    if is_valid then
      let proof := match Zk.generate_pol_proof (proof_input d) (thresholds c) epoch_day blindings with
                   | Ok proof => Some proof
                   | Err _ => None
                   end in
      mkPolManager _ (pm_config m) d (trim (pm_valid_days m ++ [today]))
        (wadd 64 (consecutive_valid_days m) 1) 0 true true proof (warm_start_until m)
    else
      let missed := wadd 32 (consecutive_missed_days m) 1 in
      if decide (missed >= wadd 32 (grace_period_days c) 1) then
        mkPolManager _ (pm_config m) d (pm_valid_days m) 0 missed (onboarding_complete m) false None
          (warm_start_until m)
      else
        mkPolManager _ (pm_config m) d (pm_valid_days m) (consecutive_valid_days m) missed
          (onboarding_complete m) (mining_eligible m) None (warm_start_until m) in
  (with_day m' empty_day, is_valid).
End finalize.

(** ** Queries *)

Definition is_mining_eligible (m : ProofOfLifeManager) : bool := onboarding_complete m && mining_eligible m.
Definition participation_days (m : ProofOfLifeManager) : Z := Z.of_nat (length (pm_valid_days m)).
Definition is_onboarding (m : ProofOfLifeManager) : bool := negb (onboarding_complete m).

Definition take_last_zk_proof (m : ProofOfLifeManager) : ProofOfLifeManager * option PolRangeProof :=
  (mkPolManager _ (pm_config m) (current_day_data m) (pm_valid_days m) (consecutive_valid_days m)
     (consecutive_missed_days m) (onboarding_complete m) (mining_eligible m) None (warm_start_until m),
   last_zk_proof m).

Definition in_grace_period (m : ProofOfLifeManager) : bool :=
  onboarding_complete m && bool_decide (consecutive_missed_days m > 0)
  && bool_decide (consecutive_missed_days m <= grace_period_days (proof_of_life (pm_config m))).

(** [now] and [now'] are two readings of the monotonic clock. *)
Definition current_day_valid (m : ProofOfLifeManager) (now now' : Z) : bool :=
  let day := Pol.is_valid (current_day_data m) (proof_of_life (pm_config m)) in
  match warm_start_until m with
  | Some until =>
      if bool_decide (Z.max 0 (now - until) / NANOS = 0) || bool_decide (now' < until) then true else day
  | None => day
  end.

Definition one_if (b : bool) : Z := if b then 1 else 0.

Definition parameters_met_count (m : ProofOfLifeManager) : Z :=
  let c := proof_of_life (pm_config m) in
  let d := current_day_data m in
  let spread_ok := match first_unlock d, last_unlock d with
                   | Some first, Some last => bool_decide (num_hours (last - first) >= min_unlock_spread_hours c)
                   | _, _ => false
                   end in
  one_if (bool_decide (unlock_count d >= min_daily_unlocks c) && spread_ok)
  + one_if (bool_decide (interaction_sessions d >= min_interaction_sessions c))
  + one_if (orientation_changed d) + one_if (human_motion_detected d) + one_if (gps_fix_obtained d)
  + one_if (bool_decide (distinct_wifi_networks d >= 1) || bool_decide (distinct_bt_environments d >= 1))
  + one_if (bool_decide (distinct_bt_environments d = 0)
            || (bool_decide (distinct_bt_environments d >= min_distinct_bt_environments c)
                && bool_decide (bt_environment_change_count d >= 1)))
  + one_if (charge_cycle_event d).

Definition determine_mining_state (m : ProofOfLifeManager) (power : PowerState) (has_minimum_stake : bool)
  : MiningState :=
  if negb (is_mining_eligible m) then ProofOfLife
  else if negb (is_plugged_in power) then ProofOfLife
  else if is_throttled power then Throttled
  else if decide (battery_percent power < min_battery_percent (mining (pm_config m))) then BatteryLow
  else if negb has_minimum_stake then PendingActivation
  else Mining.

(** ** The state file *)

Definition save_state (m : ProofOfLifeManager) : bytes :=
  le_bytes 8 (consecutive_valid_days m) ++ le_bytes 8 (Z.of_nat (length (pm_valid_days m)))
  ++ [if onboarding_complete m then 1 else 0].

(** [now] is the time of day, [instant] the monotonic clock. *)
Definition load_state (m : ProofOfLifeManager) (file : option bytes) (now : DateTime) (instant : Z)
  : ProofOfLifeManager :=
  match file with
  | None => m
  | Some data =>
      if decide (length data <> 17%nat) then m
      else
        let consecutive := of_le_bytes (take 8 data) in
        let total_days := of_le_bytes (take 8 (drop 8 data)) in
        let onboarded := bool_decide (nth 16 data 0 <> 0) in
        let today := day_of now in
        mkPolManager _ (pm_config m) (current_day_data m)
          ((fun i => today - i) <$> seqZ 0 (Z.min total_days 365))
          consecutive (consecutive_missed_days m) onboarded onboarded (last_zk_proof m)
          (if onboarded then Some (instant + 600 * NANOS) else warm_start_until m)
  end.

(** ** Days *)

Inductive pol_event :=
| EvUnlock (now : DateTime)
| EvInteraction
| EvOrientation
| EvMotion
| EvGps (lat lon : f32)
| EvWifi
| EvBluetooth
| EvCharge.

Definition record (m : ProofOfLifeManager) (e : pol_event) : ProofOfLifeManager :=
  match e with
  | EvUnlock now => record_unlock m now
  | EvInteraction => record_interaction_session m
  | EvOrientation => record_orientation_change m
  | EvMotion => record_human_motion m
  | EvGps lat lon => record_gps_fix m lat lon
  | EvWifi => record_wifi_network m
  | EvBluetooth => record_bt_environment_change m
  | EvCharge => record_charge_event m
  end.

Section days.
Context `{!RangeProofLib}.

(** A day: what was recorded, then its end. *)
Record pol_day := mkDay {
  day_events : list pol_event;
  day_epoch : Z;
  day_end : DateTime;
  day_blindings : list Scalar
}.

Definition run_day (m : ProofOfLifeManager) (day : pol_day) : ProofOfLifeManager * bool :=
  finalize_day (foldl record m (day_events day)) (day_epoch day) (day_end day) (day_blindings day).

(** The manager after some days and the outcome of each. *)
Definition run_days (m : ProofOfLifeManager) (days : list pol_day) : ProofOfLifeManager * list bool :=
  foldl (fun '(m, out) day => let '(m, ok) := run_day m day in (m, out ++ [ok])) (m, []) days.

Lemma run_days_snoc m days day :
  run_days m (days ++ [day])
  = let '(m', out) := run_days m days in let '(m'', ok) := run_day m' day in (m'', out ++ [ok]).
Proof. unfold run_days. rewrite foldl_app. cbn. by destruct (foldl _ _ _). Qed.

(** The misses at the end of a sequence of outcomes. *)
Definition misses (out : list bool) : Z :=
  foldl (fun n ok => if ok : bool then 0 else n + 1) 0 out.

(** Recording changes only the data of the day. *)
Lemma record_frame l m :
  let m' := foldl record m l in
  pm_config m' = pm_config m /\ pm_valid_days m' = pm_valid_days m
  /\ consecutive_valid_days m' = consecutive_valid_days m
  /\ consecutive_missed_days m' = consecutive_missed_days m
  /\ onboarding_complete m' = onboarding_complete m /\ mining_eligible m' = mining_eligible m.
Proof.
  revert m. induction l as [|e l IH]; intros m; [done|]. cbn [foldl].
  destruct (IH (record m e)) as (-> & -> & -> & -> & -> & ->). by destruct e.
Qed.

Lemma misses_bounds out : 0 <= misses out <= Z.of_nat (length out).
Proof.
  induction out as [|b l IH] using rev_ind; [done|]. unfold misses in *. rewrite foldl_app, length_app.
  cbn. destruct b; lia.
Qed.

(** What the outcomes determine. *)
Record follows (c : PolConfig) (m : ProofOfLifeManager) (out : list bool) : Prop := {
  fo_config : pm_config m = c;
  fo_missed : consecutive_missed_days m = misses out;
  fo_onboarded : onboarding_complete m = existsb id out;
  fo_eligible : mining_eligible m
    = existsb id out && bool_decide (misses out <= grace_period_days (proof_of_life c));
  fo_days : Z.of_nat (length (pm_valid_days m))
    = Z.min 365 (Z.of_nat (length (filter (fun b => b = true) out)))
}.

Lemma follows_day c m out day :
  0 <= grace_period_days (proof_of_life c) < 2 ^ 32 - 1 -> Z.of_nat (length out) + 1 < 2 ^ 32 ->
  follows c m out -> follows c (run_day m day).1 (out ++ [(run_day m day).2]).
Proof.
  intros Hg Hlen [Hc Hm Ho He Hd]. unfold run_day, finalize_day.
  destruct (record_frame (day_events day) m) as (Ec & Ev & Es & Em & Eo & Ee). cbn zeta in *.
  set (m1 := foldl record m (day_events day)) in *. pose proof (misses_bounds out) as Hb.
  rewrite Ec, Ev, Em, Eo, Ee, Hc, Hm, Ho, He. cbn [fst snd].
  rewrite (wadd_small 32 (misses out)), (wadd_small 32 (grace_period_days _)) by (unfold in_range; lia).
  destruct (Pol.is_valid _ _).
  - split; cbn; [done| | | |].
    + unfold misses. by rewrite foldl_app.
    + rewrite existsb_app. cbn. by rewrite orb_true_r.
    + rewrite existsb_app. cbn. rewrite orb_true_r. unfold misses. rewrite foldl_app. cbn.
      rewrite bool_decide_true; [done|lia].
    + unfold trim. rewrite filter_app, !length_drop, !length_app.
      rewrite filter_cons_True, filter_nil by done. cbn [length]. lia.
  - assert (misses (out ++ [false]) = misses out + 1) as Hms by (unfold misses; by rewrite foldl_app).
    assert (length (filter (fun b => b = true) (out ++ [false])) = length (filter (fun b => b = true) out)) as Hf
      by (by rewrite filter_app, app_nil_r).
    destruct (decide (misses out + 1 >= grace_period_days (proof_of_life c) + 1)) as [Hd'|Hd'];
      split; cbn; rewrite ?Hms, ?Hf, ?existsb_app; cbn; rewrite ?orb_false_r; try done.
    + rewrite bool_decide_false by lia. by rewrite andb_false_r.
    + rewrite (bool_decide_true (_ + 1 <= _)), (bool_decide_true (misses out <= _)) by lia. done.
Qed.

Lemma follows_days c days :
  0 <= grace_period_days (proof_of_life c) < 2 ^ 32 - 1 -> Z.of_nat (length days) < 2 ^ 32 ->
  let '(m, out) := run_days (new c) days in follows c m out /\ length out = length days.
Proof.
  intros Hg. induction days as [|day days IH] using rev_ind; intros Hl; [by repeat split|].
  rewrite length_app in Hl. cbn in Hl. rewrite run_days_snoc.
  destruct (run_days (new c) days) as [m out]. destruct IH as [Hf Hlen]; [lia|].
  pose proof (follows_day c m out day Hg ltac:(lia) Hf) as Hd.
  destruct (run_day m day) as [m' ok]. split; [done|]. rewrite !length_app. cbn. lia.
Qed.

(** C10: who may mine.  Over every sequence of days, a phone is eligible for mining exactly
    when it has had a valid day and has missed at most the grace period since the last one;
    it is in its grace period exactly when it is eligible with a miss; the counted days are
    the valid ones, at most a year; and a phone that is plugged in, cool and charged mines
    exactly when it is eligible and staked. *)
Theorem pol_eligibility c days power stake :
  0 <= grace_period_days (proof_of_life c) < 2 ^ 32 - 1 -> Z.of_nat (length days) < 2 ^ 32 ->
  let '(m, out) := run_days (new c) days in
  let eligible := existsb id out && bool_decide (misses out <= grace_period_days (proof_of_life c)) in
  is_mining_eligible m = eligible
  /\ in_grace_period m = eligible && bool_decide (0 < misses out)
  /\ participation_days m = Z.min 365 (Z.of_nat (length (filter (fun b => b = true) out)))
  /\ (determine_mining_state m power stake = Mining <->
      eligible = true /\ stake = true /\ is_plugged_in power = true /\ is_throttled power = false
      /\ min_battery_percent (mining c) <= battery_percent power).
Proof.
  intros Hg Hl. pose proof (follows_days c days Hg Hl) as Hf. destruct (run_days (new c) days) as [m out].
  destruct Hf as [[Hc Hm Ho He Hd] _]. cbn zeta.
  assert (is_mining_eligible m
    = existsb id out && bool_decide (misses out <= grace_period_days (proof_of_life c))) as Hel.
  { unfold is_mining_eligible. rewrite Ho, He. by destruct (existsb id out). }
  split; [done|]. split; [|split; [done|]].
  - unfold in_grace_period. rewrite Ho, Hm, Hc. destruct (existsb id out); [|done]. cbn [andb].
    rewrite andb_comm. f_equal. apply bool_decide_ext. lia.
  - unfold determine_mining_state. rewrite Hel, Hc. destruct (_ && _); cbn [negb]; [|split; [done|by intros [? _]]].
    destruct (is_plugged_in power); cbn [negb]; [|split; [done|by intros (_ & _ & ? & _)]].
    destruct (is_throttled power); [split; [done|by intros (_ & _ & _ & ? & _)]|].
    case_decide; [split; [done|intros (_ & _ & _ & _ & ?); lia]|].
    destruct stake; cbn [negb]; [|split; [done|by intros (_ & ? & _)]]. split; [|done]. intros _.
    split_and!; done || lia.
Qed.

(** ** Histories *)

Inductive pol_step : ProofOfLifeManager -> ProofOfLifeManager -> Prop :=
| step_record m e : pol_step m (record m e)
| step_finalize m epoch now blindings : pol_step m (finalize_day m epoch now blindings).1
| step_take m : pol_step m (take_last_zk_proof m).1
| step_load m file now instant : pol_step m (load_state m file now instant).

(** The manager never counts a change of the Bluetooth environment. *)
Record no_changes (c : PolConfig) (m : ProofOfLifeManager) : Prop := {
  nc_config : pm_config m = c;
  nc_count : bt_environment_change_count (current_day_data m) = 0;
  nc_proof : last_zk_proof m = None
}.

Lemma valid_without_bluetooth c m :
  no_changes c m -> Pol.is_valid (current_day_data m) (proof_of_life c) = true ->
  distinct_bt_environments (current_day_data m) = 0.
Proof.
  intros [_ Hn _] Hv. unfold Pol.is_valid in Hv. cbv zeta in Hv.
  rewrite !andb_true_iff, !orb_true_iff, andb_true_iff, !bool_decide_eq_true in Hv.
  destruct Hv as [[_ [Hbt|[_ Hbt]]] _]; [done|lia].
Qed.

Lemma no_bluetooth_no_proof c d day blindings :
  0 < min_distinct_bt_environments c -> distinct_bt_environments d = 0 ->
  exists e, Zk.generate_pol_proof (proof_input d) (thresholds c) day blindings = Err e.
Proof.
  intros Hc Hd. unfold Zk.generate_pol_proof.
  pose proof (Zk.shift_spec Zk.param_names (Zk.input_values (proof_input d)) (Zk.minimums (thresholds c))
    eq_refl eq_refl) as Hs.
  destruct (Zk.shift _ _ _) as [l|e]; [|by eexists]. destruct Hs as [Hs _]. exfalso.
  unfold Zk.minimums, Zk.input_values in Hs. rewrite !Forall2_cons in Hs.
  destruct Hs as (_ & _ & _ & Hs & _). cbn in Hs. lia.
Qed.

Lemma no_changes_step c m m' :
  0 < min_distinct_bt_environments (proof_of_life c) -> no_changes c m -> pol_step m m' -> no_changes c m'.
Proof.
  intros Hc Hm Hst. pose proof Hm as [Hcfg Hn Hp]. destruct Hst as [m e|m epoch now bl|m|m file now inst].
  - destruct e; by split.
  - unfold finalize_day. cbn [fst]. rewrite Hcfg. destruct (Pol.is_valid _ _) eqn:Hv.
    + pose proof (valid_without_bluetooth c m Hm Hv) as Hbt.
      destruct (no_bluetooth_no_proof (proof_of_life c) (current_day_data m) epoch bl Hc Hbt) as [e ->].
      by split.
    + by case_decide; split.
  - by split.
  - unfold load_state. destruct file as [data|]; [|done]. case_decide; [done|]. by split.
Qed.

(** No phone ever has a range proof of its day.  Over every history of a manager whose
    configuration asks for at least one Bluetooth environment, the manager holds no proof,
    and a day with a recorded change of the Bluetooth environment is not valid: the counter
    of changes that such a day needs is never raised, and a day without Bluetooth, which is
    valid, falls short of the threshold of the proof. *)
Theorem manager_never_proves c m epoch now blindings :
  0 < min_distinct_bt_environments (proof_of_life c) -> rtc pol_step (new c) m ->
  last_zk_proof m = None
  /\ (distinct_bt_environments (current_day_data m) <> 0 ->
      (finalize_day m epoch now blindings).2 = false).
Proof.
  intros Hc Hr. assert (no_changes c m) as Hm.
  { refine (rtc_ind_r (no_changes c) (new c) _ _ m Hr); [by split|].
    intros m1 m2 _ Hst Hm1. by eapply no_changes_step. }
  split; [apply Hm|]. intros Hbt. cbn. rewrite (nc_config _ _ Hm). apply not_true_is_false.
  intros Hv. by apply Hbt, (valid_without_bluetooth c m Hm).
Qed.

End days.

(** ** Restarts *)

(** The state file restores the streak, the number of valid days and the onboarding; a file
    of another size, or none, changes nothing. *)
Theorem pol_state_restored m m0 now instant :
  in_range 64 (consecutive_valid_days m) -> (length (pm_valid_days m) <= 365)%nat ->
  let m' := load_state m0 (Some (save_state m)) now instant in
  consecutive_valid_days m' = consecutive_valid_days m
  /\ participation_days m' = participation_days m
  /\ onboarding_complete m' = onboarding_complete m
  /\ (forall file, length file <> 17%nat -> load_state m0 (Some file) now instant = m0)
  /\ load_state m0 None now instant = m0.
Proof.
  intros Hr Hlen. cbn zeta. unfold load_state, save_state.
  set (a := le_bytes 8 (consecutive_valid_days m)). set (b := le_bytes 8 (Z.of_nat (length (pm_valid_days m)))).
  assert (length a = 8%nat /\ length b = 8%nat) as [Ha Hb] by (unfold a, b; by rewrite !le_bytes_length).
  rewrite decide_False by (rewrite !length_app, Ha, Hb; cbn; lia).
  cbn [consecutive_valid_days participation_days pm_valid_days onboarding_complete].
  assert (take 8 (a ++ b ++ [if onboarding_complete m then 1 else 0]) = a) as -> by (by apply take_app_length').
  assert (drop 8 (a ++ b ++ [if onboarding_complete m then 1 else 0])
          = b ++ [if onboarding_complete m then 1 else 0]) as -> by (by apply drop_app_length').
  assert (take 8 (b ++ [if onboarding_complete m then 1 else 0]) = b) as -> by (by apply take_app_length').
  assert (nth 16 (a ++ b ++ [if onboarding_complete m then 1 else 0]) 0
          = if onboarding_complete m then 1 else 0) as ->.
  { rewrite app_nth2, Ha by lia. rewrite app_nth2, Hb by lia. done. }
  unfold a, b. rewrite !of_le_bytes_le_bytes. unfold in_range in Hr.
  rewrite !Z.mod_small by lia. split; [done|]. split.
  { unfold participation_days. cbn [pm_valid_days]. rewrite length_fmap, length_seqZ. lia. }
  split; [by destruct (onboarding_complete m)|]. split; [|done].
  intros file Hf. by rewrite decide_True.
Qed.

(** Restarting the application lifts the pause.  A phone that had a valid day once and
    has lost its eligibility for missing days is eligible again as soon as it loads its own
    state file, and for ten minutes its empty day counts as valid. *)
Theorem restart_lifts_pause m now instant :
  onboarding_complete m = true -> is_mining_eligible m = false ->
  let m' := load_state (new (pm_config m)) (Some (save_state m)) now instant in
  is_mining_eligible m' = true
  /\ forall t t', instant <= t < instant + 600 * NANOS -> t <= t' < instant + 600 * NANOS ->
       current_day_valid m' t t' = true.
Proof.
  intros Ho He. cbn zeta. unfold load_state, save_state. rewrite Ho.
  rewrite decide_False by (rewrite !length_app, !le_bytes_length; cbn; lia).
  assert (nth 16 (le_bytes 8 (consecutive_valid_days m)
            ++ le_bytes 8 (Z.of_nat (length (pm_valid_days m))) ++ [1]) 0 = 1) as ->.
  { rewrite app_nth2; rewrite le_bytes_length; [|lia]. rewrite app_nth2; rewrite le_bytes_length; [done|lia]. }
  split; [done|]. intros t t' Ht Ht'. unfold current_day_valid. cbn [warm_start_until].
  assert (bool_decide (Z.max 0 (t - (instant + 600 * NANOS)) / NANOS = 0) = true) as Hw.
  { apply bool_decide_eq_true. by rewrite Z.max_l by lia. }
  change (bool_decide (1 <> 0)) with true. cbn [pm_config new]. by rewrite Hw.
Qed.
End manager.

(** ** A concrete phone *)

Module Sample.
#[local] Existing Instance reference_float.

#[local] Instance no_proofs : RangeProofLib := {|
  RangeProof := unit; Scalar := unit; Point := unit;
  prove_multiple := fun _ _ _ _ => Err "none";
  verify_multiple := fun _ _ _ _ => false;
  rp_to_bytes := fun _ => []; rp_from_bytes := fun _ => None;
  point_to_bytes := fun _ => []; point_from_slice := fun _ => None
|}.

Definition config : PolConfig := mkPolManagerConfig default_ProofOfLifeConfig default_MiningConfig.

(** Ten unlocks over nine hours, and Wi-Fi. *)
Definition good_events : list pol_event :=
  (EvUnlock ∘ (fun h => h * 3600 * NANOS) <$> [0; 1; 2; 3; 4; 5; 6; 7; 8; 9])
  ++ [EvInteraction; EvInteraction; EvInteraction; EvOrientation; EvMotion; EvWifi; EvGps 0 0; EvCharge].
Definition good_day : pol_day := mkDay good_events 1 0 [].
Definition idle_day : pol_day := mkDay [] 2 0 [].

Lemma pol_eligibility_witness :
  (run_days (new config) [good_day; idle_day; idle_day]).2 = [true; false; false]
  /\ let '(m, out) := run_days (new config) [good_day; idle_day; idle_day] in
     is_mining_eligible m = existsb id out && bool_decide (misses out <= 1).
Proof.
  split; [vm_compute; done|].
  refine (proj1 (pol_eligibility config [good_day; idle_day; idle_day] (mkPowerState true 90 30 false) true _ _)).
  - vm_compute. done.
  - vm_compute. done.
Defined.

Lemma manager_never_proves_witness :
  last_zk_proof (record_bt_environment_change (new config)) = None
  /\ (finalize_day (record_bt_environment_change (new config)) 1 0 []).2 = false.
Proof.
  destruct (manager_never_proves config (record_bt_environment_change (new config)) 1 0 []) as [Hp Hb].
  - vm_compute. done.
  - eapply rtc_l; [apply (step_record _ EvBluetooth)|apply rtc_refl].
  - split; [exact Hp|]. apply Hb. vm_compute. done.
Defined.

Definition paused : ProofOfLifeManager := (run_days (new config) [good_day; idle_day; idle_day]).1.

Lemma restart_lifts_pause_witness :
  is_mining_eligible paused = false
  /\ is_mining_eligible (load_state (new config) (Some (save_state paused)) 0 0) = true.
Proof.
  split; [vm_compute; done|].
  refine (proj1 (restart_lifts_pause paused 0 0 _ _)).
  - vm_compute. done.
  - vm_compute. done.
Defined.

End Sample.
End PolManager.
