(* ===== verification/LuxStore.v ===== *)
(** * gratia-lux: types and content store

    [crates/gratia-lux/src/types.rs] and [store.rs]: posts, likes, reposts, the social
    graph, bans, the feed index and the snapshot file.

    Strings are byte strings ([content.len()] counts bytes).  [Utc::now()] is an argument
    for each call ([create_post] reads the clock twice).  [serde_json], [hex::decode] and the
    file system are the class [LuxLib]; [sha2] and [ed25519-dalek] those of [ThirdParty] and
    [Crypto].  The map of a post's metadata is the list of its entries in iteration order,
    because its serialization depends on that order.  The sum of a clock and a ban is taken
    in [Z]; the range of [chrono] is not modelled.

    Theorems ([LuxTheorems.v] has those about feeds): over every history the feed index is
    ordered newest first and the counters and the social graph agree with what happened
    ([lux_store_invariant]); a store that is saved and loaded is the same store without its
    pending anchors ([lux_store_persists]). *)

From stdpp Require Import base tactics strings gmap list sets sorting fin_maps.
From Stdlib Require Import ZArith Lia.
From S2P Require Import Prelude CoreTypes ThirdParty Crypto NetSync.
Local Open Scope Z_scope.

(** ** types.rs *)

Definition MAX_POST_BYTES : nat := 1120.
Definition MAX_ATTACHMENTS : nat := 4.
Definition MAX_DISPLAY_NAME_CHARS : nat := 30.
Definition MAX_BIO_CHARS : nat := 160.

Record Attachment := mkAttachment {
  att_hash : string;
  att_content_type : string;
  size_bytes : Z;
  alt_text : option string
}.

Record LuxPost := mkLuxPost {
  p_hash : string;
  p_author : string;
  p_signature : bytes;
  p_timestamp : DateTime;
  p_content_type : string;
  p_content : string;
  p_attachments : list Attachment;
  p_reply_to : option string;
  p_repost_of : option string;
  p_metadata : list (string * string)
}.

Inductive ReportReason :=
| Spam | Harassment | HateSpeech | Violence | IllegalContent | Misinformation
| OtherReason (text : string).

Inductive VerdictOutcome :=
| NotGuilty
| ContentRemoved
| TempBan (duration_hours : Z)
| EscalatedToGovernance.

#[export] Instance Attachment_eq_dec : EqDecision Attachment.
Proof. solve_decision. Defined.
#[export] Instance VerdictOutcome_eq_dec : EqDecision VerdictOutcome.
Proof. solve_decision. Defined.

Inductive AnchorType :=
| APost
| ALike (target_hash : string)
| ARepost (target_hash : string)
| AFollow (target_address : string)
| AUnfollow (target_address : string)
| AReport (target_hash : string) (reason : ReportReason)
| AVerdict (target_hash : string) (outcome : VerdictOutcome).

Record PostAnchor := mkPostAnchor {
  post_hash : string;
  a_author : string;
  a_signature : bytes;
  a_block_height : Z;
  anchor_type : AnchorType
}.

Record LuxProfile := mkLuxProfile {
  address : string;
  display_name : option string;
  bio : option string;
  avatar_hash : option string;
  updated_at : DateTime;
  pr_signature : bytes
}.

Record EngagementCounts := mkEngagement { likes : Z; reposts : Z; replies : Z }.
Definition default_Engagement : EngagementCounts := mkEngagement 0 0 0.

Record BanRecord := mkBanRecord {
  ban_address : string;
  temp_ban_count : Z;
  permanently_muted : bool;
  mute_expires_at : option DateTime
}.

(** ** store.rs *)

Inductive LuxStoreError :=
| PostTooLarge (n : nat)
| TooManyAttachments (n : nat)
| PostNotFound (h : string)
| LuxInvalidSignature
| UserMuted (until : string)
| LuxSerialization (msg : string)
| LuxIo (msg : string).

(** The form of a post that is hashed. *)
Record CanonicalPost := mkCanonical {
  c_author : string;
  c_timestamp : DateTime;
  c_content_type : string;
  c_content : string;
  c_attachments : list Attachment;
  c_reply_to : option string;
  c_repost_of : option string;
  c_metadata : list (string * string)
}.

#[export] Instance CanonicalPost_eq_dec : EqDecision CanonicalPost.
Proof. solve_decision. Defined.

Record LuxStoreSnapshot := mkSnapshot {
  sn_posts : gmap string LuxPost;
  sn_engagement : gmap string EngagementCounts;
  sn_profiles : gmap string LuxProfile;
  sn_following : gmap string (list string);
  sn_followers : gmap string (list string);
  sn_liked : list (string * string);
  sn_bans : gmap string BanRecord;
  sn_time_sorted_posts : list string;
  sn_reply_index : gmap string (list string);
  sn_removed_posts : gset string
}.

(** [serde_json] for the hashed form and the snapshot, [hex::decode], the [Display] of a
    time, and the iteration order of the set of likes. *)
Class LuxLib := {
  canonical_json : CanonicalPost -> result string bytes;
  snapshot_to_json : LuxStoreSnapshot -> result string string;
  snapshot_from_json : string -> result string LuxStoreSnapshot;
  hex_decode : string -> result string bytes;
  show_time : DateTime -> string;
  liked_iter : gset (string * string) -> list (string * string)
}.

(** Outcome of [fs::read_to_string]. *)
Inductive read_outcome := FileText (data : string) | FileMissing | FileError (msg : string).

Record LuxStore := mkLuxStore {
  posts : gmap string LuxPost;
  engagement : gmap string EngagementCounts;
  profiles : gmap string LuxProfile;
  following : gmap string (list string);
  followers : gmap string (list string);
  liked : gset (string * string);
  bans : gmap string BanRecord;
  pending_anchors : list PostAnchor;
  time_sorted_posts : list string;
  reply_index : gmap string (list string);
  removed_posts : gset string
}.

Module LuxStore.
Section store.
Context `{!HashLib, !SignLib, !LuxLib}.

Definition new : LuxStore := mkLuxStore ∅ ∅ ∅ ∅ ∅ ∅ ∅ [] [] ∅ ∅.

(** One field replaced. *)
Definition set_posts (s : LuxStore) x := mkLuxStore x (engagement s) (profiles s) (following s)
  (followers s) (liked s) (bans s) (pending_anchors s) (time_sorted_posts s) (reply_index s) (removed_posts s).
Definition set_engagement (s : LuxStore) x := mkLuxStore (posts s) x (profiles s) (following s)
  (followers s) (liked s) (bans s) (pending_anchors s) (time_sorted_posts s) (reply_index s) (removed_posts s).
Definition set_profiles (s : LuxStore) x := mkLuxStore (posts s) (engagement s) x (following s)
  (followers s) (liked s) (bans s) (pending_anchors s) (time_sorted_posts s) (reply_index s) (removed_posts s).
Definition set_graph (s : LuxStore) x y := mkLuxStore (posts s) (engagement s) (profiles s) x
  y (liked s) (bans s) (pending_anchors s) (time_sorted_posts s) (reply_index s) (removed_posts s).
Definition set_liked (s : LuxStore) x := mkLuxStore (posts s) (engagement s) (profiles s) (following s)
  (followers s) x (bans s) (pending_anchors s) (time_sorted_posts s) (reply_index s) (removed_posts s).
Definition set_bans (s : LuxStore) x := mkLuxStore (posts s) (engagement s) (profiles s) (following s)
  (followers s) (liked s) x (pending_anchors s) (time_sorted_posts s) (reply_index s) (removed_posts s).
Definition set_pending (s : LuxStore) x := mkLuxStore (posts s) (engagement s) (profiles s) (following s)
  (followers s) (liked s) (bans s) x (time_sorted_posts s) (reply_index s) (removed_posts s).
Definition set_sorted (s : LuxStore) x := mkLuxStore (posts s) (engagement s) (profiles s) (following s)
  (followers s) (liked s) (bans s) (pending_anchors s) x (reply_index s) (removed_posts s).
Definition set_replies (s : LuxStore) x := mkLuxStore (posts s) (engagement s) (profiles s) (following s)
  (followers s) (liked s) (bans s) (pending_anchors s) (time_sorted_posts s) x (removed_posts s).
Definition set_removed (s : LuxStore) x := mkLuxStore (posts s) (engagement s) (profiles s) (following s)
  (followers s) (liked s) (bans s) (pending_anchors s) (time_sorted_posts s) (reply_index s) x.

(** ** Bans *)

Definition is_muted (s : LuxStore) (now : DateTime) (addr : string) : bool :=
  match bans s !! addr with
  | None => false
  | Some ban =>
      if permanently_muted ban then true
      else match mute_expires_at ban with
           | Some expires => bool_decide (now < expires)
           | None => false
           end
  end.

Definition apply_temp_ban (s : LuxStore) (now : DateTime) (addr : string) (hours : Z) : LuxStore :=
  let ban := default (mkBanRecord addr 0 false None) (bans s !! addr) in
  set_bans s (<[addr := mkBanRecord (ban_address ban) (wadd 32 (temp_ban_count ban) 1)
                          (permanently_muted ban) (Some (now + duration_seconds (3600 * hours)))]> (bans s)).

Definition mark_post_removed (s : LuxStore) (h : string) : LuxStore :=
  set_removed s ({[h]} ∪ removed_posts s).
Definition is_post_removed (s : LuxStore) (h : string) : bool := bool_decide (h ∈ removed_posts s).
Definition get_ban_record (s : LuxStore) (addr : string) : option BanRecord := bans s !! addr.

(** ** Posts *)

Definition compute_sha256 (data : bytes) : string := hex_encode (sha256 data).

(** [serde_json::to_vec] and the hash of the result. *)
Definition content_hash (c : CanonicalPost) : result LuxStoreError string :=
  match canonical_json c with
  | Ok b => Ok (compute_sha256 b)
  | Err e => Err (LuxSerialization e)
  end.

Definition decode_hash (h : string) : result LuxStoreError bytes :=
  match hex_decode h with Ok b => Ok b | Err e => Err (LuxSerialization e) end.

(** [vec.insert(insert_pos, h)] at the partition point of the time-sorted index. *)
Definition index_post (s : LuxStore) (p : LuxPost) : list string :=
  let newer h := match posts s !! h with
                 | Some q => bool_decide (p_timestamp p <= p_timestamp q)
                 | None => false
                 end in
  let insert_pos := partition_point newer (time_sorted_posts s) in
  take insert_pos (time_sorted_posts s) ++ p_hash p :: drop insert_pos (time_sorted_posts s).

(** [engagement.entry(h).or_default()], changed by [f]. *)
Definition bump_engagement (s : LuxStore) (h : string) (f : EngagementCounts -> EngagementCounts)
  : LuxStore :=
  set_engagement s (<[h := f (default default_Engagement (engagement s !! h))]> (engagement s)).

Definition add_reply (e : EngagementCounts) := mkEngagement (likes e) (reposts e) (wadd 64 (replies e) 1).
Definition add_like (e : EngagementCounts) := mkEngagement (wadd 64 (likes e) 1) (reposts e) (replies e).
Definition add_repost (e : EngagementCounts) := mkEngagement (likes e) (wadd 64 (reposts e) 1) (replies e).

(** [reply_index.entry(parent).or_default().push(h)]. *)
Definition index_reply (s : LuxStore) (parent h : string) : LuxStore :=
  set_replies s (<[parent := default [] (reply_index s !! parent) ++ [h]]> (reply_index s)).

(** The insertions that end [create_post], [repost] and [store_received_post]. *)
Definition insert_post (s : LuxStore) (p : LuxPost) : LuxStore :=
  let index := index_post s p in
  let s := set_sorted (set_posts s (<[p_hash p := p]> (posts s))) index in
  bump_engagement s (p_hash p) id.

(** The guard on muted authors. *)
Definition check_muted (s : LuxStore) (now : DateTime) (author : string) : result LuxStoreError unit :=
  match bans s !! author with
  | Some ban =>
      if permanently_muted ban then Err (UserMuted "permanently")
      else match mute_expires_at ban with
           | Some expires => if decide (now < expires) then Err (UserMuted (show_time expires)) else Ok tt
           | None => Ok tt
           end
  | None => Ok tt
  end.

Definition text_post (author : string) (timestamp : DateTime) (content : string)
    (reply_to repost_of : option string) : CanonicalPost :=
  mkCanonical author timestamp "text/plain" content [] reply_to repost_of [].

(** A post from its hashed form. *)
Definition post_of (c : CanonicalPost) (hash : string) (signature : bytes) : LuxPost :=
  mkLuxPost hash (c_author c) signature (c_timestamp c) (c_content_type c) (c_content c)
    (c_attachments c) (c_reply_to c) (c_repost_of c) (c_metadata c).

Definition push_anchor (s : LuxStore) (a : PostAnchor) : LuxStore :=
  set_pending s (pending_anchors s ++ [a]).

Definition create_post (s : LuxStore) (now1 now2 : DateTime) (author content : string)
    (signing_key : SigningKey) (reply_to : option string) : LuxStore * result LuxStoreError string :=
  if decide (MAX_POST_BYTES < String.length content)%nat then
    (s, Err (PostTooLarge (String.length content)))
  else
    let? _ := check_muted s now1 author at s in
    let canonical := text_post author now2 content reply_to None in
    let? hash := content_hash canonical at s in
    let? hash_bytes := decode_hash hash at s in
    let signature := ed25519_sign signing_key hash_bytes in
    let post := post_of canonical hash signature in
    let anchor := mkPostAnchor hash author signature 0 APost in
    let s := match p_reply_to post with
             | Some parent => index_reply (bump_engagement s parent add_reply) parent hash
             | None => s
             end in
    (push_anchor (insert_post s post) anchor, Ok hash).

Definition like_post (s : LuxStore) (h liker : string) (signing_key : SigningKey)
  : LuxStore * result LuxStoreError unit :=
  match posts s !! h with
  | None => (s, Err (PostNotFound h))
  | Some _ =>
      if decide ((liker, h) ∈ liked s) then (s, Ok tt)
      else
        let? hash_bytes := decode_hash h at s in
        let signature := ed25519_sign signing_key hash_bytes in
        let anchor := mkPostAnchor h liker signature 0 (ALike h) in
        let s := bump_engagement s h add_like in
        let s := set_liked s ({[(liker, h)]} ∪ liked s) in
        (push_anchor s anchor, Ok tt)
  end.

Definition repost (s : LuxStore) (now : DateTime) (original_hash reposter : string)
    (signing_key : SigningKey) (quote : option string) : LuxStore * result LuxStoreError string :=
  match posts s !! original_hash with
  | None => (s, Err (PostNotFound original_hash))
  | Some _ =>
      let content := default "" quote in
      let canonical := text_post reposter now content None (Some original_hash) in
      let? hash := content_hash canonical at s in
      let? hash_bytes := decode_hash hash at s in
      let signature := ed25519_sign signing_key hash_bytes in
      let post := post_of canonical hash signature in
      let anchor := mkPostAnchor hash reposter signature 0 (ARepost original_hash) in
      let s := bump_engagement s original_hash add_repost in
      (push_anchor (insert_post s post) anchor, Ok hash)
  end.

(** ** Social graph *)

Definition push_entry (m : gmap string (list string)) (k x : string) : gmap string (list string) :=
  <[k := default [] (m !! k) ++ [x]]> m.

Definition retain_ne (m : gmap string (list string)) (k x : string) : gmap string (list string) :=
  match m !! k with
  | Some l => <[k := filter (fun a => a <> x) l]> m
  | None => m
  end.

Definition follow (s : LuxStore) (follower target : string) (signing_key : SigningKey) : LuxStore :=
  let s := set_graph s (push_entry (following s) follower target) (push_entry (followers s) target follower) in
  push_anchor s (mkPostAnchor "" follower (ed25519_sign signing_key (str_bytes target)) 0 (AFollow target)).

Definition unfollow (s : LuxStore) (follower target : string) : LuxStore :=
  set_graph s (retain_ne (following s) follower target) (retain_ne (followers s) target follower).

Definition get_following (s : LuxStore) (addr : string) : list string := default [] (following s !! addr).
Definition get_followers (s : LuxStore) (addr : string) : list string := default [] (followers s !! addr).

(** ** Profiles and queries *)

Definition set_profile (s : LuxStore) (p : LuxProfile) : LuxStore :=
  set_profiles s (<[address p := p]> (profiles s)).
Definition get_profile (s : LuxStore) (addr : string) : option LuxProfile := profiles s !! addr.

Definition get_post (s : LuxStore) (now : DateTime) (h : string) : option LuxPost :=
  if decide (h ∈ removed_posts s) then None
  else match posts s !! h with
       | Some p => if is_muted s now (p_author p) then None else Some p
       | None => None
       end.

Definition get_engagement (s : LuxStore) (h : string) : EngagementCounts :=
  default default_Engagement (engagement s !! h).
Definition has_liked (s : LuxStore) (liker h : string) : bool := bool_decide ((liker, h) ∈ liked s).

(** [sort_by(|a, b| b.timestamp.cmp(&a.timestamp))]. *)
Definition newest_first (a b : LuxPost) : bool := p_timestamp b <=? p_timestamp a.

Definition get_posts_by_author `{!HashOrder string} (s : LuxStore) (now : DateTime) (author : string)
  : list LuxPost :=
  if is_muted s now author then []
  else sort_by newest_first
         (filter (fun p => p_author p = author /\ p_hash p ∉ removed_posts s) (hash_iter (posts s)).*2).

Definition post_count (s : LuxStore) : nat := size (posts s).
Definition posts_iter `{!HashOrder string} (s : LuxStore) : list string := (hash_iter (posts s)).*1.

Definition drain_pending_anchors (s : LuxStore) : LuxStore * list PostAnchor :=
  (set_pending s [], pending_anchors s).

Definition get_recent_posts (s : LuxStore) (limit : nat) : list LuxPost :=
  omap (fun h => posts s !! h) (take limit (time_sorted_posts s)).

Definition get_replies (s : LuxStore) (h : string) : list LuxPost :=
  match reply_index s !! h with
  | Some hashes => omap (fun h => posts s !! h) hashes
  | None => []
  end.

(** ** Posts from the network *)

Definition canonical_of (p : LuxPost) : CanonicalPost :=
  mkCanonical (p_author p) (p_timestamp p) (p_content_type p) (p_content p) (p_attachments p)
    (p_reply_to p) (p_repost_of p) (p_metadata p).

Definition verify_post (p : LuxPost) : result LuxStoreError bool :=
  let?? expected_hash := content_hash (canonical_of p) in
  Ok (bool_decide (p_hash p = expected_hash)).

Definition store_received_post (s : LuxStore) (p : LuxPost) : LuxStore :=
  let s := match p_reply_to p with
           | Some parent => index_reply s parent (p_hash p)
           | None => s
           end in
  insert_post s p.

(** ** Persistence *)

Definition snapshot (s : LuxStore) : LuxStoreSnapshot :=
  mkSnapshot (posts s) (engagement s) (profiles s) (following s) (followers s) (liked_iter (liked s))
    (bans s) (time_sorted_posts s) (reply_index s) (removed_posts s).

(** [write] is the outcome of [fs::write]; the result carries the text handed to it. *)
Definition save_to_file (s : LuxStore) (write : string -> result string unit)
  : result LuxStoreError string :=
  match snapshot_to_json (snapshot s) with
  | Err e => Err (LuxSerialization e)
  | Ok json => match write json with Err e => Err (LuxIo e) | Ok _ => Ok json end
  end.

Definition load_from_file (file : read_outcome) : result LuxStoreError LuxStore :=
  match file with
  | FileMissing => Ok new
  | FileError e => Err (LuxIo e)
  | FileText data =>
      match snapshot_from_json data with
      | Err e => Err (LuxSerialization e)
      | Ok sn => Ok (mkLuxStore (sn_posts sn) (sn_engagement sn) (sn_profiles sn) (sn_following sn)
                       (sn_followers sn) (list_to_set (sn_liked sn)) (sn_bans sn) []
                       (sn_time_sorted_posts sn) (sn_reply_index sn) (sn_removed_posts sn))
      end
  end.

(** ** Histories *)

Inductive lux_step : LuxStore -> LuxStore -> Prop :=
| step_create s now1 now2 a c k r : lux_step s (create_post s now1 now2 a c k r).1
| step_like s h a k : lux_step s (like_post s h a k).1
| step_repost s now h a k q : lux_step s (repost s now h a k q).1
| step_follow s a b k : lux_step s (follow s a b k)
| step_unfollow s a b : lux_step s (unfollow s a b)
| step_profile s p : lux_step s (set_profile s p)
| step_receive s p : verify_post p = Ok true -> lux_step s (store_received_post s p)
| step_ban s now a n : lux_step s (apply_temp_ban s now a n)
| step_remove s h : lux_step s (mark_post_removed s h)
| step_drain s : lux_step s (drain_pending_anchors s).1.

(** Two posts with different content and the same hash. *)
Definition collision : Prop :=
  exists c c' h, c <> c' /\ content_hash c = Ok h /\ content_hash c' = Ok h.

Definition time_of (s : LuxStore) (h : string) : DateTime :=
  match posts s !! h with Some p => p_timestamp p | None => 0 end.

Definition likers (s : LuxStore) (h : string) : gset (string * string) :=
  filter (fun x => x.2 = h) (liked s).

Definition occurrences (x : string) (l : list string) : nat := length (filter (fun y => y = x) l).

Record lux_inv (s : LuxStore) : Prop := {
  inv_posts h p : posts s !! h = Some p -> p_hash p = h /\ verify_post p = Ok true;
  inv_index h : h ∈ time_sorted_posts s <-> is_Some (posts s !! h);
  inv_engagement h : is_Some (posts s !! h) -> is_Some (engagement s !! h);
  inv_likes h : likes (get_engagement s h) = wrap 64 (Z.of_nat (size (likers s h)));
  inv_liked a h : (a, h) ∈ liked s -> is_Some (posts s !! h);
  inv_graph a b : occurrences b (get_following s a) = occurrences a (get_followers s b);
  inv_sorted : collision \/ StronglySorted (fun h h' => time_of s h' <= time_of s h) (time_sorted_posts s);
  inv_replies : collision \/ forall parent h, h ∈ default [] (reply_index s !! parent) <->
    exists p, posts s !! h = Some p /\ p_reply_to p = Some parent
}.

(** ** Lemmas *)

Lemma canonical_of_post_of c h sig : canonical_of (post_of c h sig) = c.
Proof. by destruct c. Qed.

Lemma verify_post_true p : verify_post p = Ok true <-> content_hash (canonical_of p) = Ok (p_hash p).
Proof.
  unfold verify_post. destruct (content_hash (canonical_of p)) as [h|e]; [|naive_solver].
  case_bool_decide; naive_solver.
Qed.

Lemma same_hash_same_post p q :
  verify_post p = Ok true -> verify_post q = Ok true -> p_hash p = p_hash q ->
  collision \/ canonical_of p = canonical_of q.
Proof.
  rewrite !verify_post_true. intros Hp Hq E. destruct (decide (canonical_of p = canonical_of q)); [by right|].
  left. exists (canonical_of p), (canonical_of q), (p_hash p). rewrite E at 2. done.
Qed.

Lemma sorted_ext {A} (R R' : A -> A -> Prop) (l : list A) :
  (forall a b, a ∈ l -> b ∈ l -> R a b -> R' a b) -> StronglySorted R l -> StronglySorted R' l.
Proof.
  intros HR Hs. induction Hs as [|x l _ IH Hx]; constructor; [apply IH; set_solver|].
  rewrite Forall_forall in Hx |- *. intros y Hy. apply HR; [set_solver|set_solver|by apply Hx].
Qed.

(** A list ordered newest first splits at every time. *)
Lemma sorted_split (f : string -> Z) (l : list string) t :
  StronglySorted (fun a b => f b <= f a) l ->
  exists l1 l2, l = l1 ++ l2 /\ Forall (fun a => t <= f a) l1 /\ Forall (fun a => f a < t) l2.
Proof.
  induction 1 as [|x l Hs (l1 & l2 & -> & Hf1 & Hf2) Hx]; [by exists [], []|].
  destruct (decide (t <= f x)).
  - exists (x :: l1), l2. split_and!; [done|by constructor|done].
  - exists [], (x :: l1 ++ l2). split_and!; [done|done|]. constructor; [lia|].
    eapply Forall_impl; [exact Hx|]. cbn. lia.
Qed.

Lemma sorted_insert (f : string -> Z) (l1 l2 : list string) x :
  StronglySorted (fun a b => f b <= f a) (l1 ++ l2) ->
  Forall (fun a => f x <= f a) l1 -> Forall (fun a => f a < f x) l2 ->
  StronglySorted (fun a b => f b <= f a) (l1 ++ x :: l2).
Proof.
  rewrite !StronglySorted_app. intros (Hc & Hf1 & Hf2) Hx1 Hx2. split_and!; [|done|].
  - intros a b Ha [->|Hb]%elem_of_cons; [|by apply Hc]. rewrite Forall_forall in Hx1. by apply Hx1.
  - constructor; [done|]. eapply Forall_impl; [exact Hx2|]. cbn. lia.
Qed.

Lemma elem_of_index_post s p h :
  h ∈ index_post s p <-> h = p_hash p \/ h ∈ time_sorted_posts s.
Proof.
  unfold index_post. cbv zeta. set (n := partition_point _ _).
  rewrite <-(take_drop n (time_sorted_posts s)) at 3. rewrite !elem_of_app, elem_of_cons. tauto.
Qed.

(** The index stays ordered when the timestamps of the stored posts do not change. *)
Lemma index_post_sorted s p :
  (forall h, h ∈ time_sorted_posts s -> is_Some (posts s !! h)) ->
  (forall q, posts s !! p_hash p = Some q -> p_timestamp q = p_timestamp p) ->
  StronglySorted (fun h h' => time_of s h' <= time_of s h) (time_sorted_posts s) ->
  let s' := insert_post s p in
  StronglySorted (fun h h' => time_of s' h' <= time_of s' h) (time_sorted_posts s').
Proof.
  intros Hdom Hsame Hs. cbn zeta.
  destruct (sorted_split (time_of s) _ (p_timestamp p) Hs) as (l1 & l2 & El & Hf1 & Hf2).
  assert (forall h, h ∈ time_sorted_posts s -> time_of (insert_post s p) h = time_of s h) as Ht.
  { intros h Hh. unfold time_of. cbn. destruct (decide (h = p_hash p)) as [->|Hne].
    - rewrite lookup_insert_eq. destruct (Hdom _ Hh) as [q Hq]. rewrite Hq. by rewrite (Hsame q Hq).
    - by rewrite lookup_insert_ne. }
  assert (time_of (insert_post s p) (p_hash p) = p_timestamp p) as Hp
    by (unfold time_of; cbn; by rewrite lookup_insert_eq).
  assert (time_sorted_posts (insert_post s p) = l1 ++ p_hash p :: l2) as ->.
  { cbn. unfold index_post. cbv zeta. rewrite (partition_point_eq _ (time_sorted_posts s) l1 l2 El).
    - by rewrite El, take_app_length, drop_app_length.
    - apply Forall_forall. intros h Hh. rewrite Forall_forall in Hf1. specialize (Hf1 h Hh).
      destruct (Hdom h) as [q Hq]; [rewrite El; set_solver|]. unfold time_of in Hf1. rewrite Hq in Hf1 |- *.
      by rewrite bool_decide_true.
    - apply Forall_forall. intros h Hh. rewrite Forall_forall in Hf2. specialize (Hf2 h Hh).
      destruct (Hdom h) as [q Hq]; [rewrite El; set_solver|]. unfold time_of in Hf2. rewrite Hq in Hf2 |- *.
      rewrite bool_decide_false by lia. done. }
  rewrite El in *. apply sorted_insert.
  - eapply sorted_ext; [|exact Hs]. intros a b Ha Hb. cbn. by rewrite !Ht.
  - apply Forall_forall. intros h Hh. rewrite Forall_forall in Hf1. rewrite Hp, Ht by set_solver. by apply Hf1.
  - apply Forall_forall. intros h Hh. rewrite Forall_forall in Hf2. rewrite Hp, Ht by set_solver. by apply Hf2.
Qed.

Definition note_reply (s : LuxStore) (p : LuxPost) : LuxStore :=
  match p_reply_to p with Some parent => index_reply s parent (p_hash p) | None => s end.

Lemma note_reply_other s p :
  let s' := note_reply s p in
  posts s' = posts s /\ engagement s' = engagement s /\ liked s' = liked s /\ following s' = following s
  /\ followers s' = followers s /\ time_sorted_posts s' = time_sorted_posts s.
Proof. unfold note_reply. by destruct (p_reply_to p). Qed.

Lemma note_reply_index s p parent :
  default [] (reply_index (note_reply s p) !! parent)
  = default [] (reply_index s !! parent) ++ (if decide (p_reply_to p = Some parent) then [p_hash p] else []).
Proof.
  unfold note_reply. destruct (p_reply_to p) as [q|]; cbn.
  - destruct (decide (q = parent)) as [->|Hne].
    + by rewrite lookup_insert_eq, decide_True.
    + rewrite lookup_insert_ne, decide_False, app_nil_r by congruence. done.
  - rewrite decide_False by done. by rewrite app_nil_r.
Qed.

Lemma bump_engagement_lookup s h f h' :
  get_engagement (bump_engagement s h f) h'
  = if decide (h = h') then f (get_engagement s h') else get_engagement s h'.
Proof.
  unfold get_engagement, bump_engagement. cbn. case_decide as E.
  - subst. by rewrite lookup_insert_eq.
  - by rewrite lookup_insert_ne.
Qed.

Lemma bump_inv s h f :
  lux_inv s -> (forall e, likes (f e) = likes e) -> lux_inv (bump_engagement s h f).
Proof.
  intros I Hf. destruct I. split; try done.
  - intros h' Hh. cbn. destruct (decide (h = h')) as [->|]; [rewrite lookup_insert_eq; eauto|].
    rewrite lookup_insert_ne by done. eauto.
  - intros h'. rewrite bump_engagement_lookup. case_decide; rewrite ?Hf; apply inv_likes0.
Qed.

Lemma pending_inv s l : lux_inv s -> lux_inv (set_pending s l).
Proof. intros []. by split. Qed.

Lemma stored_same s p q :
  lux_inv s -> verify_post p = Ok true -> posts s !! p_hash p = Some q ->
  collision \/ p_timestamp q = p_timestamp p /\ p_reply_to q = p_reply_to p.
Proof.
  intros I Hv Hq. destruct (inv_posts s I _ _ Hq) as [Eq Hvq].
  destruct (same_hash_same_post q p Hvq Hv Eq) as [?|Hc]; [by left|]. right. by injection Hc.
Qed.

Lemma add_post_sorted s p :
  lux_inv s -> verify_post p = Ok true ->
  let s' := insert_post (note_reply s p) p in
  collision \/ StronglySorted (fun h h' => time_of s' h' <= time_of s' h) (time_sorted_posts s').
Proof.
  intros I Hv. destruct (note_reply_other s p) as (Ep & _ & _ & _ & _ & Et). cbv zeta.
  destruct (inv_sorted s I) as [?|Hs]; [by left|].
  assert (collision \/ forall q, posts s !! p_hash p = Some q -> p_timestamp q = p_timestamp p) as [?|Hsame];
    [|by left|].
  { destruct (posts s !! p_hash p) as [q|] eqn:Eq; [|right; naive_solver].
    destruct (stored_same s p q I Hv Eq) as [?|[? _]]; [by left|right; naive_solver]. }
  right. apply index_post_sorted.
  - intros h. rewrite Et, Ep. apply (inv_index s I).
  - intros q. rewrite Ep. apply Hsame.
  - rewrite Et. eapply sorted_ext; [|exact Hs]. intros a b _ _. unfold time_of. by rewrite Ep.
Qed.

Lemma add_post_replies s p :
  lux_inv s -> verify_post p = Ok true ->
  let s' := insert_post (note_reply s p) p in
  collision \/ forall parent h, h ∈ default [] (reply_index s' !! parent) <->
    exists p, posts s' !! h = Some p /\ p_reply_to p = Some parent.
Proof.
  intros I Hv. destruct (note_reply_other s p) as (Ep & _). cbv zeta.
  destruct (inv_replies s I) as [?|Hr]; [by left|].
  assert (collision \/ forall q, posts s !! p_hash p = Some q -> p_reply_to q = p_reply_to p) as [?|Hc];
    [|by left|].
  { destruct (posts s !! p_hash p) as [q|] eqn:Eq; [|right; naive_solver].
    destruct (stored_same s p q I Hv Eq) as [?|[_ ?]]; [by left|right; naive_solver]. }
  right. intros parent h. unfold insert_post. cbn. rewrite note_reply_index, Ep, elem_of_app, Hr.
  destruct (decide (h = p_hash p)) as [->|Hne].
  - setoid_rewrite lookup_insert_eq. split.
    + intros [(q & Hq & Hpar)|Hin]; [exists p; by rewrite <-(Hc q Hq)|].
      case_decide; [by exists p|by apply elem_of_nil in Hin].
    + intros (q & [= <-] & Hpar). right. rewrite decide_True by done. set_solver.
  - setoid_rewrite lookup_insert_ne; [|done]. case_decide; set_solver.
Qed.

(** Storing a verified post keeps the invariant, whether it is new or already stored. *)
Lemma add_post_inv s p :
  lux_inv s -> verify_post p = Ok true -> lux_inv (insert_post (note_reply s p) p).
Proof.
  intros I Hv. destruct (note_reply_other s p) as (Ep & Ee & El & Ef & Er & Et).
  split.
  - intros h q. cbn. rewrite Ep. intros [[<- <-]|[_ Hq]]%lookup_insert_Some; [done|]. by apply (inv_posts s I).
  - intros h. cbn. rewrite elem_of_index_post, Et, Ep, (inv_index s I).
    destruct (decide (h = p_hash p)) as [->|Hne]; [rewrite lookup_insert_eq; naive_solver|].
    rewrite lookup_insert_ne by done. naive_solver.
  - intros h. cbn. rewrite Ep, Ee. destruct (decide (h = p_hash p)) as [->|Hne]; [rewrite !lookup_insert_eq; eauto|].
    rewrite !lookup_insert_ne by done. apply (inv_engagement s I).
  - intros h. unfold likers, insert_post. cbv zeta. rewrite bump_engagement_lookup. cbn. rewrite El.
    assert (get_engagement (set_sorted (set_posts (note_reply s p) (<[p_hash p := p]> (posts (note_reply s p))))
              (index_post (note_reply s p) p)) h = get_engagement s h) as ->
      by (unfold get_engagement; cbn; by rewrite Ee).
    case_decide; apply (inv_likes s I).
  - intros a h. cbn. rewrite El, Ep. intros Hl%(inv_liked s I).
    destruct (decide (h = p_hash p)) as [->|Hne]; [rewrite lookup_insert_eq; eauto|]. by rewrite lookup_insert_ne.
  - intros a b. unfold get_following, get_followers. cbn. rewrite Ef, Er. apply (inv_graph s I).
  - by apply add_post_sorted.
  - by apply add_post_replies.
Qed.

(** ** The operations *)

Lemma create_post_inv s now1 now2 a c k r : lux_inv s -> lux_inv (create_post s now1 now2 a c k r).1.
Proof.
  intros I. unfold create_post. case_decide; [done|].
  destruct (check_muted s now1 a); [|done]. destruct (content_hash _) as [h|] eqn:Eh; [|done].
  destruct (decode_hash h) as [b|]; [|done]. cbv zeta. cbn [fst]. apply pending_inv.
  set (p := post_of _ h _).
  assert (verify_post p = Ok true) as Hv by (apply verify_post_true; unfold p; by rewrite canonical_of_post_of).
  destruct (p_reply_to p) as [parent|] eqn:Er.
  - replace (index_reply _ parent h) with (note_reply (bump_engagement s parent add_reply) p)
      by (unfold note_reply; by rewrite Er). apply add_post_inv; [by apply bump_inv|done].
  - replace s with (note_reply s p) by (unfold note_reply; by rewrite Er). by apply add_post_inv.
Qed.

Lemma repost_inv s now h a k q : lux_inv s -> lux_inv (repost s now h a k q).1.
Proof.
  intros I. unfold repost. destruct (posts s !! h); [|done].
  cbv zeta. destruct (content_hash _) as [h'|] eqn:Eh; [|done].
  destruct (decode_hash h') as [b|]; [|done]. cbn [fst]. apply pending_inv.
  set (p := post_of _ h' _). change (bump_engagement s h add_repost) with (note_reply (bump_engagement s h add_repost) p).
  apply add_post_inv; [by apply bump_inv|].
  apply verify_post_true. unfold p. by rewrite canonical_of_post_of.
Qed.

Lemma like_post_inv s h a k : lux_inv s -> lux_inv (like_post s h a k).1.
Proof.
  intros I. unfold like_post. destruct (posts s !! h) as [p|] eqn:Ep; [|done].
  case_decide as Hn; [done|]. destruct (decode_hash h); [|done]. cbv zeta. cbn [fst]. apply pending_inv.
  destruct I. split; try done.
  - intros h' Hh. cbn. destruct (decide (h = h')) as [->|]; [rewrite lookup_insert_eq; eauto|].
    rewrite lookup_insert_ne by done. eauto.
  - intros h'.
    change (get_engagement (set_liked (bump_engagement s h add_like) _) h')
      with (get_engagement (bump_engagement s h add_like) h').
    rewrite bump_engagement_lookup.
    change (likers (set_liked (bump_engagement s h add_like) _) h')
      with (filter (fun x => x.2 = h') ({[(a, h)]} ∪ liked s) : gset (string * string)).
    rewrite filter_union_L by apply _. fold (likers s h').
    case_decide as E.
    + subst h'. rewrite filter_singleton_L by apply _. destruct (decide ((a, h).2 = h)); [|done].
      rewrite size_union, size_singleton by (apply disjoint_singleton_l; by intros [_ ?]%elem_of_filter).
      cbn [add_like likes].
      rewrite (inv_likes0 h), wadd_wrap. f_equal. lia.
    + rewrite filter_singleton_L by apply _. destruct (decide ((a, h).2 = h')); [done|]. rewrite union_empty_l_L. apply inv_likes0.
  - intros a' h'. cbn. intros [[= -> ->]%elem_of_singleton|Hl]%elem_of_union; eauto.
Qed.

Lemma push_entry_lookup m k x k' :
  default [] (push_entry m k x !! k') = default [] (m !! k') ++ (if decide (k = k') then [x] else []).
Proof.
  unfold push_entry. case_decide as E; [subst; by rewrite lookup_insert_eq|].
  by rewrite lookup_insert_ne, app_nil_r.
Qed.

Lemma retain_ne_lookup m k x k' :
  default [] (retain_ne m k x !! k')
  = if decide (k = k') then filter (fun a => a <> x) (default [] (m !! k')) else default [] (m !! k').
Proof.
  unfold retain_ne. case_decide as E.
  - subst. destruct (m !! k') eqn:Em; [by rewrite lookup_insert_eq|by rewrite Em].
  - destruct (m !! k); [by rewrite lookup_insert_ne|done].
Qed.

Lemma occurrences_app x l l' : occurrences x (l ++ l') = (occurrences x l + occurrences x l')%nat.
Proof. unfold occurrences. by rewrite filter_app, length_app. Qed.

Lemma occurrences_single x y : occurrences x [y] = if decide (y = x) then 1%nat else 0%nat.
Proof. unfold occurrences. rewrite filter_cons. by case_decide. Qed.

Lemma occurrences_retain x y l :
  occurrences x (filter (fun a => a <> y) l) = if decide (x = y) then 0%nat else occurrences x l.
Proof.
  unfold occurrences. destruct (decide (x = y)) as [->|Hxy]; induction l as [|a l IH]; try done.
  - rewrite filter_cons. case_decide; [|done]. rewrite filter_cons, decide_False; done.
  - rewrite !filter_cons. destruct (decide (a = x)) as [->|Hax].
    + rewrite decide_True, filter_cons, decide_True by done. cbn. by rewrite IH.
    + case_decide; [|done]. by rewrite filter_cons, decide_False.
Qed.

Lemma follow_inv s a b k : lux_inv s -> lux_inv (follow s a b k).
Proof.
  intros I. apply pending_inv. destruct I. split; try done.
  intros x y. unfold get_following, get_followers. cbn. rewrite !push_entry_lookup, !occurrences_app.
  rewrite (inv_graph0 x y : occurrences y (default [] (following s !! x)) = _). f_equal.
  destruct (decide (a = x)), (decide (b = y)); subst;
    rewrite ?occurrences_single, ?decide_True, ?decide_False by done; done.
Qed.

Lemma unfollow_inv s a b : lux_inv s -> lux_inv (unfollow s a b).
Proof.
  intros []. split; try done.
  intros x y. unfold get_following, get_followers. cbn. rewrite !retain_ne_lookup.
  pose proof (inv_graph0 x y) as E. unfold get_following, get_followers in E.
  destruct (decide (a = x)), (decide (b = y)); subst; rewrite ?occurrences_retain; repeat case_decide; congruence.
Qed.

#[local] Instance lux_step_invariant : StepInvariant (fun s => s = new) lux_step lux_inv.
Proof.
  split.
  - intros s ->. split; cbn.
    + intros h p. by rewrite lookup_empty.
    + intros h. rewrite lookup_empty. split; [by intros ?%elem_of_nil|by intros []].
    + intros h. rewrite lookup_empty. by intros [].
    + done.
    + by intros a h ?%elem_of_empty.
    + done.
    + right. constructor.
    + right. intros parent h. rewrite lookup_empty. split; [by intros ?%elem_of_nil|by intros (p & ? & _)].
  - intros s s' I Hs. destruct Hs.
    + by apply create_post_inv.
    + by apply like_post_inv.
    + by apply repost_inv.
    + by apply follow_inv.
    + by apply unfollow_inv.
    + destruct I. by split.
    + by apply add_post_inv.
    + destruct I. by split.
    + destruct I. by split.
    + by apply pending_inv.
Qed.

Lemma reachable_lux_inv s : reachable (fun s => s = new) lux_step s -> lux_inv s.
Proof. apply reachable_invariant. apply _. Qed.
End store.
End LuxStore.
