(* ===== verification/LuxFeed.v ===== *)
(** * gratia-lux: feeds

    [crates/gratia-lux/src/feed.rs] over the store of [LuxStore], and the theorems about
    both.  [now i] is the clock at the [i]-th check of a ban within one call.

    Theorems: the home feed holds the newest visible posts of the followed accounts and of
    the user ([home_feed_exact]); a post removed by a verdict never returns to a feed
    ([removed_post_hidden]); the index, the counters and the social graph agree over every
    history ([lux_store_invariant]); a saved store loads again ([lux_store_persists]).
    [reply_thread_shows_removed], [forged_post_accepted], [muted_user_reposts] and
    [redelivery_duplicates] show where the code does not do what it documents. *)

From stdpp Require Import base tactics strings gmap list sets sorting fin_maps relations.
From Stdlib Require Import ZArith Lia.
From S2P Require Import Prelude CoreTypes ThirdParty Crypto NetSync LuxStore.
Local Open Scope Z_scope.

Record FeedItem := mkFeedItem {
  f_post : LuxPost;
  f_engagement : EngagementCounts;
  author_display_name : option string;
  liked_by_me : bool
}.

Module LuxFeed.
Import LuxStore.
Section feed.
Context `{!HashLib, !SignLib, !LuxLib, !HashOrder string}.

(** The item of a post for a viewer; [profile_of] is the address whose name is shown. *)
Definition feed_item (s : LuxStore) (viewer profile_of : string) (p : LuxPost) : FeedItem :=
  mkFeedItem p (get_engagement s (p_hash p)) (get_profile s profile_of ≫= display_name)
    (has_liked s viewer (p_hash p)).

(** [sort_by(|a, b| b.post.timestamp.cmp(&a.post.timestamp))]. *)
Definition item_newest_first (a b : FeedItem) : bool := newest_first (f_post a) (f_post b).

Definition home_feed (s : LuxStore) (now : nat -> DateTime) (user : string) (limit : nat) : list FeedItem :=
  let followed := get_following s user in
  let items := mjoin (imap (fun i a => feed_item s user a <$> get_posts_by_author s (now i) a) followed) in
  let items := items ++ (feed_item s user user <$> get_posts_by_author s (now (length followed)) user) in
  take limit (sort_by item_newest_first items).

Definition profile_feed (s : LuxStore) (now : DateTime) (profile_address viewer : string) (limit : nat)
  : list FeedItem :=
  feed_item s viewer profile_address <$> take limit (get_posts_by_author s now profile_address).

(** Replies are ordered oldest first. *)
Definition reply_thread (s : LuxStore) (h viewer : string) : list FeedItem :=
  sort_by (fun a b => p_timestamp (f_post a) <=? p_timestamp (f_post b))
    ((fun p => feed_item s viewer (p_author p) p) <$> get_replies s h).

Definition global_feed (s : LuxStore) (now : nat -> DateTime) (viewer : string) (limit : nat) : list FeedItem :=
  let items := mjoin (imap (fun i h => match get_post s (now i) h with
                                        | Some p => [feed_item s viewer (p_author p) p]
                                        | None => []
                                        end) (posts_iter s)) in
  take limit (sort_by item_newest_first items).

(** ** Lemmas *)

Lemma newest_first_sorted l : StronglySorted newest_first (sort_by newest_first l).
Proof. apply sort_by_sorted; unfold newest_first; intros; lia. Qed.

(** What a truncated sort leaves out is not newer than what it keeps. *)
Lemma take_newest (l : list FeedItem) limit :
  let f := take limit (sort_by item_newest_first l) in
  StronglySorted (fun a b => p_timestamp (f_post b) <= p_timestamp (f_post a)) f
  /\ (length f <= limit)%nat
  /\ (forall x, x ∈ f -> x ∈ l)
  /\ (forall x, x ∈ l -> x ∈ f \/ length f = limit
        /\ forall y, y ∈ f -> p_timestamp (f_post x) <= p_timestamp (f_post y)).
Proof.
  cbn zeta. set (l' := sort_by item_newest_first l).
  assert (StronglySorted (fun a b => p_timestamp (f_post b) <= p_timestamp (f_post a)) l') as Hs.
  { eapply sorted_impl; [|apply sort_by_sorted; unfold item_newest_first, newest_first; intros; lia].
    unfold item_newest_first, newest_first. intros a b Hab%Is_true_true. lia. }
  rewrite <-(take_drop limit l') in Hs. apply StronglySorted_app in Hs as (Hc & Ht & _).
  split; [done|]. split; [rewrite length_take; lia|]. split.
  - intros x Hx%elem_of_take. destruct Hx as (i & Hi & _). apply list_elem_of_lookup_2 in Hi.
    by apply elem_of_sort_by in Hi.
  - intros x Hx. apply (elem_of_sort_by item_newest_first) in Hx. fold l' in Hx.
    rewrite <-(take_drop limit l') in Hx. apply elem_of_app in Hx as [Hx|Hx]; [by left|]. right. split.
    + rewrite length_take. apply list_elem_of_lookup in Hx as [i Hi]. apply lookup_lt_Some in Hi.
      rewrite length_drop in Hi. lia.
    + intros y Hy. by apply Hc.
Qed.

Lemma take_newest_in l limit x : x ∈ take limit (sort_by item_newest_first l) -> x ∈ l.
Proof. apply take_newest. Qed.

Lemma elem_of_posts_by_author s now a p :
  p ∈ get_posts_by_author s now a <->
  is_muted s now a = false /\ (exists h, posts s !! h = Some p) /\ p_author p = a /\ p_hash p ∉ removed_posts s.
Proof.
  unfold get_posts_by_author. destruct (is_muted s now a).
  - split; [by intros ?%elem_of_nil|by intros [? _]].
  - rewrite elem_of_sort_by, list_elem_of_filter, hash_iter_perm, list_elem_of_fmap. split.
    + intros [[Ha Hr] ([h q] & -> & Hq)]. apply elem_of_map_to_list in Hq. eauto.
    + intros (_ & [h Hh] & Ha & Hr). split; [done|]. exists (h, p). split; [done|]. by apply elem_of_map_to_list.
Qed.

Lemma elem_of_home_items s (now : nat -> DateTime) user x :
  let followed := get_following s user in
  x ∈ mjoin (imap (fun i a => feed_item s user a <$> get_posts_by_author s (now i) a) followed)
      ++ (feed_item s user user <$> get_posts_by_author s (now (length followed)) user) <->
  exists i a p, (followed ++ [user]) !! i = Some a /\ p ∈ get_posts_by_author s (now i) a /\ x = feed_item s user a p.
Proof.
  cbn zeta. set (l := get_following s user). rewrite elem_of_app, list_elem_of_fmap, list_elem_of_join.
  setoid_rewrite elem_of_lookup_imap. split.
  - intros [(l' & Hx & (i & a & -> & Hi))|(p & -> & Hp)].
    + apply list_elem_of_fmap in Hx as (p & -> & Hp). exists i, a, p. split; [by apply lookup_app_l_Some|done].
    + exists (length l), user, p. by rewrite list_lookup_middle.
  - intros (i & a & p & Hi & Hp & ->). apply lookup_app_Some in Hi as [Hi|[Hle Hi]].
    + left. exists (feed_item s user a <$> get_posts_by_author s (now i) a).
      split; [by apply list_elem_of_fmap_2|]. by exists i, a.
    + right. apply list_lookup_singleton_Some in Hi as [Hi <-]. exists p.
      replace (length l) with i by lia. done.
Qed.

Lemma in_home_feed s now user limit x :
  x ∈ home_feed s now user limit ->
  exists i a p, (get_following s user ++ [user]) !! i = Some a /\ p ∈ get_posts_by_author s (now i) a
    /\ x = feed_item s user a p.
Proof.
  unfold home_feed. cbv zeta. intros Hx. apply elem_of_home_items. by apply (take_newest_in _ limit).
Qed.

Lemma in_global_feed s now viewer limit x :
  x ∈ global_feed s now viewer limit ->
  exists i h p, get_post s (now i) h = Some p /\ x = feed_item s viewer (p_author p) p.
Proof.
  unfold global_feed. cbv zeta. intros Hx%take_newest_in.
  apply list_elem_of_join in Hx as (l & Hx & Hl). apply elem_of_lookup_imap in Hl as (i & h & -> & _).
  destruct (get_post s (now i) h) as [p|] eqn:E; [|by apply elem_of_nil in Hx].
  apply list_elem_of_singleton in Hx as ->. by exists i, h, p.
Qed.

Lemma in_profile_feed s now a viewer limit x :
  x ∈ profile_feed s now a viewer limit ->
  exists p, p ∈ get_posts_by_author s now a /\ x = feed_item s viewer a p.
Proof.
  unfold profile_feed. intros (p & -> & Hp)%list_elem_of_fmap. exists p. split; [|done].
  apply elem_of_take in Hp as (i & Hi & _). by apply list_elem_of_lookup_2 in Hi.
Qed.

(** ** Home feed *)

(** A stored post that no verdict removed. *)
Definition shown (s : LuxStore) (p : LuxPost) : Prop :=
  posts s !! p_hash p = Some p /\ p_hash p ∉ removed_posts s.

(** The home feed of a user, over every history of the store: it is ordered newest
    first and no longer than the limit; every item is a stored post that was not removed,
    by an unmuted account that is the user or one the user follows, with the counts, name
    and like mark of the store; and a shown post of such an account is left out only when
    the feed is full of posts that are at least as new. *)
Theorem home_feed_exact s now user limit :
  reachable (fun s => s = new) lux_step s ->
  let feed := home_feed s now user limit in
  StronglySorted (fun a b => p_timestamp (f_post b) <= p_timestamp (f_post a)) feed
  /\ (length feed <= limit)%nat
  /\ (forall x, x ∈ feed -> exists i,
        let p := f_post x in
        (get_following s user ++ [user]) !! i = Some (p_author p) /\ shown s p
        /\ is_muted s (now i) (p_author p) = false /\ x = feed_item s user (p_author p) p)
  /\ (forall p i, shown s p -> (get_following s user ++ [user]) !! i = Some (p_author p) ->
        is_muted s (now i) (p_author p) = false ->
        feed_item s user (p_author p) p ∈ feed \/ length feed = limit
        /\ forall x, x ∈ feed -> p_timestamp p <= p_timestamp (f_post x)).
Proof.
  intros Hr%reachable_lux_inv. cbv zeta.
  destruct (take_newest (mjoin (imap (fun i a => feed_item s user a <$> get_posts_by_author s (now i) a)
    (get_following s user)) ++ (feed_item s user user <$> get_posts_by_author s (now (length (get_following s user))) user))
    limit) as (Hs & Hl & _ & Hbest). fold (home_feed s now user limit) in *.
  split_and!; [exact Hs|exact Hl| |].
  - intros x (i & a & p & Hi & Hp & ->)%in_home_feed. apply elem_of_posts_by_author in Hp as (Hm & [h Hh] & <- & Hrem).
    exists i. cbn [f_post feed_item]. destruct (inv_posts s Hr h p Hh) as [<- _]. done.
  - intros p i [Hp Hrem] Hi Hm. apply (Hbest (feed_item s user (p_author p) p)). apply elem_of_home_items.
    exists i, (p_author p), p. split; [done|]. split; [|done]. apply elem_of_posts_by_author. eauto.
Qed.

(** ** Moderation *)

Lemma removed_posts_grow s s' : rtc lux_step s s' -> removed_posts s ⊆ removed_posts s'.
Proof.
  induction 1 as [|s s' s'' Hs _ IH]; [done|]. etrans; [|exact IH]. clear IH.
  destruct Hs; try done.
  - unfold create_post. case_decide; [done|]. destruct (check_muted _ _ _); [|done].
    destruct (content_hash _) as [h|]; [|done]. destruct (decode_hash h); [|done]. cbn. by destruct r.
  - unfold like_post. destruct (posts s !! h); [|done]. case_decide; [done|]. by destruct (decode_hash h).
  - unfold repost. destruct (posts s !! h); [|done]. cbv zeta.
    destruct (content_hash _) as [h'|]; [|done]. by destruct (decode_hash h').
  - unfold store_received_post. by destruct (p_reply_to p).
  - cbn. set_solver.
Qed.

Lemma reachable_rtc s s' :
  reachable (fun s => s = new) lux_step s -> rtc lux_step s s' -> reachable (fun s => s = new) lux_step s'.
Proof. intros Hr. induction 1; [done|]. eauto using reachable_step. Qed.

(** A removed post stays hidden: after [mark_post_removed], whatever is posted, received,
    followed or banned later, the post is not returned by [get_post] and is in no home,
    profile or global feed of any viewer at any time. *)
Theorem removed_post_hidden s s' h :
  reachable (fun s => s = new) lux_step s -> rtc lux_step (mark_post_removed s h) s' ->
  forall (now : nat -> DateTime) viewer author limit,
    get_post s' (now 0%nat) h = None
    /\ (forall x, x ∈ home_feed s' now viewer limit -> p_hash (f_post x) <> h)
    /\ (forall x, x ∈ profile_feed s' (now 0%nat) author viewer limit -> p_hash (f_post x) <> h)
    /\ (forall x, x ∈ global_feed s' now viewer limit -> p_hash (f_post x) <> h).
Proof.
  intros Hr Hs now viewer author limit.
  assert (lux_inv s') as I.
  { apply reachable_lux_inv. eapply reachable_rtc; [|exact Hs]. eapply reachable_step; [exact Hr|constructor]. }
  assert (h ∈ removed_posts s') as Hin by (apply (removed_posts_grow _ _ Hs); cbn; set_solver).
  split_and!.
  - unfold get_post. by rewrite decide_True.
  - intros x (i & a & p & _ & Hp & ->)%in_home_feed. apply elem_of_posts_by_author in Hp as (_ & _ & _ & Hn).
    cbn. by intros <-.
  - intros x (p & Hp & ->)%in_profile_feed. apply elem_of_posts_by_author in Hp as (_ & _ & _ & Hn). cbn. by intros <-.
  - intros x (i & h' & p & Hp & ->)%in_global_feed. unfold get_post in Hp. case_decide as Hn; [done|].
    destruct (posts s' !! h') as [q|] eqn:Eq; [|done]. destruct (is_muted _ _ _); simplify_eq.
    destruct (inv_posts s' I _ _ Eq) as [Eh _]. cbn. congruence.
Qed.

(** The thread below a post is not filtered: a reply that a verdict removed, or whose
    author is muted for good, is still listed by [reply_thread] (unless two posts collide). *)
Theorem reply_thread_shows_removed s p parent viewer :
  reachable (fun s => s = new) lux_step s -> posts s !! p_hash p = Some p -> p_reply_to p = Some parent ->
  collision \/ exists x, x ∈ reply_thread (mark_post_removed s (p_hash p)) parent viewer /\ f_post x = p.
Proof.
  intros Hr%reachable_lux_inv Hp Hpar. destruct (inv_replies s Hr) as [?|Hin]; [by left|]. right.
  exists (feed_item (mark_post_removed s (p_hash p)) viewer (p_author p) p). split; [|done].
  unfold reply_thread. rewrite elem_of_sort_by, list_elem_of_fmap. exists p. split; [done|].
  unfold get_replies. cbn [reply_index mark_post_removed set_removed posts].
  assert (p_hash p ∈ default [] (reply_index s !! parent)) as Hi by (apply Hin; eauto).
  destruct (reply_index s !! parent) as [l|]; [|by apply elem_of_nil in Hi].
  apply list_elem_of_omap. eauto.
Qed.

(** ** Histories *)

Lemma omap_sorted {A B} (f : A -> option B) (R : A -> A -> Prop) (R' : B -> B -> Prop) (l : list A) :
  (forall a a' b b', f a = Some b -> f a' = Some b' -> R a a' -> R' b b') ->
  StronglySorted R l -> StronglySorted R' (omap f l).
Proof.
  intros HR. induction 1 as [|x l _ IH Hx]; [constructor|]. cbn. destruct (f x) as [b|] eqn:E; [|done].
  constructor; [done|]. apply Forall_forall. intros b' (a' & Ha & Hb)%list_elem_of_omap.
  rewrite Forall_forall in Hx. eauto.
Qed.

Lemma recent_posts_newest s :
  lux_inv s -> collision \/ forall limit,
  StronglySorted newest_first (get_recent_posts s limit)
  /\ forall p q, posts s !! p_hash p = Some p -> q ∈ get_recent_posts s limit ->
       p ∈ get_recent_posts s limit \/ p_timestamp p <= p_timestamp q.
Proof.
  intros I. destruct (inv_sorted s I) as [?|Hs]; [by left|]. right. intros limit.
  rewrite <-(take_drop limit (time_sorted_posts s)) in Hs. apply StronglySorted_app in Hs as (Hc & Ht & _).
  unfold get_recent_posts. split.
  - eapply omap_sorted; [|exact Ht]. cbn. unfold time_of, newest_first. intros a a' b b' -> -> Hle.
    apply Is_true_true. lia.
  - intros p q Hp (h & Hh & Hq)%list_elem_of_omap.
    assert (p_hash p ∈ time_sorted_posts s) as Hin by (apply (inv_index s I); eauto).
    rewrite <-(take_drop limit (time_sorted_posts s)) in Hin.
    apply elem_of_app in Hin as [Hin|Hin]; [left; apply list_elem_of_omap; eauto|]. right.
    specialize (Hc _ _ Hh Hin). unfold time_of in Hc. by rewrite Hp, Hq in Hc.
Qed.

(** Over every history of the store (posting, liking, reposting, following, receiving
    verified posts, moderation): the likes of a post count the accounts that liked it, once
    each; an account is listed as a follower as often as it follows; and unless two posts
    collide, the recent posts of any length are the newest stored ones, newest first, and
    the replies of a post are exactly the stored posts that answer it. *)
Theorem lux_store_invariant s :
  reachable (fun s => s = new) lux_step s ->
  (forall h, likes (get_engagement s h) = wrap 64 (Z.of_nat (size (likers s h))))
  /\ (forall a b, occurrences b (get_following s a) = occurrences a (get_followers s b))
  /\ (collision \/ forall limit,
        StronglySorted newest_first (get_recent_posts s limit)
        /\ forall p q, posts s !! p_hash p = Some p -> q ∈ get_recent_posts s limit ->
             p ∈ get_recent_posts s limit \/ p_timestamp p <= p_timestamp q)
  /\ (collision \/ forall h p, p ∈ get_replies s h <-> posts s !! p_hash p = Some p /\ p_reply_to p = Some h).
Proof.
  intros I%reachable_lux_inv. split_and!; [apply I|apply I| |].
  - by apply recent_posts_newest.
  - destruct (inv_replies s I) as [?|Hr]; [by left|]. right. intros h p. unfold get_replies.
    assert (p ∈ get_replies s h <-> exists h', h' ∈ default [] (reply_index s !! h) /\ posts s !! h' = Some p) as E.
    { unfold get_replies. destruct (reply_index s !! h); cbn; [by rewrite list_elem_of_omap|].
      split; [by intros ?%elem_of_nil|by intros (? & ?%elem_of_nil & _)]. }
    unfold get_replies in E. rewrite E. split.
    + intros (h' & Hin & Hp). destruct (inv_posts s I _ _ Hp) as [<- _]. split; [done|].
      apply Hr in Hin as (q & Hq & Hpar). congruence.
    + intros [Hp Hpar]. exists (p_hash p). split; [apply Hr; eauto|done].
Qed.

(** ** Posts from the network *)

(** [verify_post] does not look at the signature: for every account that is not muted,
    anybody can make a post in its name, with any signature bytes, that is accepted from the
    network and shown in the profile feed of that account. *)
Theorem forged_post_accepted s now victim viewer content time forged_signature h :
  reachable (fun s => s = new) lux_step s ->
  content_hash (text_post victim time content None None) = Ok h ->
  is_muted s now victim = false -> h ∉ removed_posts s ->
  let p := post_of (text_post victim time content None None) h forged_signature in
  verify_post p = Ok true
  /\ exists limit x, x ∈ profile_feed (store_received_post s p) now victim viewer limit /\ f_post x = p.
Proof.
  intros Hr Hh Hm Hrem. cbv zeta. set (p := post_of _ h forged_signature). split.
  { apply verify_post_true. unfold p. by rewrite canonical_of_post_of. }
  set (l := get_posts_by_author (store_received_post s p) now victim).
  assert (p ∈ l) as Hp.
  { apply elem_of_posts_by_author. split; [done|]. split; [|done]. exists h. cbn. by rewrite lookup_insert_eq. }
  exists (length l), (feed_item (store_received_post s p) viewer victim p). split; [|done].
  unfold profile_feed. fold l. rewrite firstn_all. by apply list_elem_of_fmap_2.
Qed.

(** A mute does not cover reposts: while [create_post] refuses every text of the muted
    account, [repost] publishes any text of any length in its name. *)
Theorem muted_user_reposts s now key author original quote h :
  is_muted s now author = true -> is_Some (posts s !! original) ->
  content_hash (text_post author now quote None (Some original)) = Ok h -> is_ok (decode_hash h) ->
  (forall now2 content r, exists e, create_post s now now2 author content key r = (s, Err e))
  /\ exists s' p, repost s now original author key (Some quote) = (s', Ok h)
       /\ posts s' !! h = Some p /\ p_author p = author /\ p_content p = quote.
Proof.
  intros Hm [q Hq] Hh Hd. split.
  - intros now2 content r. unfold create_post. case_decide; [by eexists|].
    unfold is_muted in Hm. unfold check_muted. destruct (bans s !! author) as [[? ? [] [e|]]|]; cbn in *; try done.
    + by eexists.
    + by eexists.
    + apply bool_decide_eq_true in Hm. rewrite decide_True by done. by eexists.
  - unfold repost. rewrite Hq. cbv zeta. change (default "" (Some quote)) with quote. rewrite Hh. destruct (decode_hash h) as [b|]; [|done].
    eexists _, _. split; [done|]. cbn. by rewrite lookup_insert_eq.
Qed.

Lemma occurrences_cons x y l :
  occurrences x (y :: l) = if decide (y = x) then S (occurrences x l) else occurrences x l.
Proof. unfold occurrences. rewrite filter_cons. by case_decide. Qed.

(** A post delivered a second time is indexed a second time, so that [get_recent_posts]
    lists it again. *)
Theorem redelivery_duplicates s p :
  occurrences (p_hash p) (time_sorted_posts (store_received_post s p))
  = S (occurrences (p_hash p) (time_sorted_posts s)).
Proof.
  unfold store_received_post. set (s' := match p_reply_to p with Some _ => _ | None => s end).
  replace (time_sorted_posts s) with (time_sorted_posts s') by (unfold s'; by destruct (p_reply_to p)).
  change (time_sorted_posts (insert_post s' p)) with (index_post s' p). unfold index_post. cbv zeta.
  set (n := partition_point _ _). rewrite <-(take_drop n (time_sorted_posts s')) at 3.
  rewrite !occurrences_app, occurrences_cons, decide_True by done. lia.
Qed.

(** ** Persistence *)

(** A saved store loads as the same store without its pending anchors, provided that
    [serde_json] reads back the snapshot it wrote and a [HashSet] is iterated over its
    elements; a missing file is an empty store. *)
Theorem lux_store_persists s write json :
  liked_iter (liked s) ≡ₚ elements (liked s) ->
  (forall j, snapshot_to_json (snapshot s) = Ok j -> snapshot_from_json j = Ok (snapshot s)) ->
  save_to_file s write = Ok json ->
  load_from_file (FileText json) = Ok (set_pending s [])
  /\ load_from_file FileMissing = Ok new.
Proof.
  intros Hl Hj Hs. split; [|done]. unfold save_to_file in Hs.
  destruct (snapshot_to_json (snapshot s)) as [j|] eqn:E; [|done]. destruct (write j); simplify_eq.
  cbn. rewrite (Hj json eq_refl). cbn. unfold set_pending. f_equal. f_equal.
  apply set_eq. intros x. by rewrite elem_of_list_to_set, Hl, elem_of_elements.
Qed.
End feed.

(** ** A concrete run *)

Module Sample.
#[local] Instance hash : HashLib := {|
  sha256 := fun b => b;
  hex_encode := fun b => String.string_of_list_ascii (map (fun z => Ascii.ascii_of_N (Z.to_N z)) b)
|}.
#[local] Instance sign_lib : SignLib := {|
  VerifyingKey := Z; SigningKey := Z; vk_from_bytes := head; vk_to_bytes := fun k => [k]; vk_of := id;
  ed25519_sign := fun k m => k :: m; ed25519_verify := fun k m s => bool_decide (s = k :: m)
|}.
Definition some_snapshot : LuxStoreSnapshot := mkSnapshot ∅ ∅ ∅ ∅ ∅ [] ∅ [] ∅ ∅.
(** The text of a post, its author and its time are its serialization. *)
#[local] Instance lib : LuxLib := {|
  canonical_json := fun c => Ok (str_bytes (c_author c +:+ c_content c) ++ [c_timestamp c]);
  snapshot_to_json := fun _ => Ok "json";
  snapshot_from_json := fun _ => Ok some_snapshot;
  hex_decode := fun s => Ok (str_bytes s);
  show_time := fun _ => "later";
  liked_iter := elements
|}.
#[local] Program Instance order : HashOrder string := {| hash_iter := fun V m => map_to_list m |}.
Next Obligation. done. Qed.

Definition s1 := (create_post new 10 10 "alice" "hi" 1 None).1.
Definition h1 : string := Eval vm_compute in
  match (create_post new 10 10 "alice" "hi" 1 None).2 with Ok h => h | Err _ => "" end.
Definition s2 := follow s1 "bob" "alice" 2.
Definition s3 := (create_post s2 20 20 "carol" "yes" 3 (Some h1)).1.
Definition h3 : string := Eval vm_compute in
  match (create_post s2 20 20 "carol" "yes" 3 (Some h1)).2 with Ok h => h | Err _ => "" end.

Lemma s3_reachable : reachable (fun s => s = new) lux_step s3.
Proof.
  apply (reachable_step _ _ s2); [|constructor]. apply (reachable_step _ _ s1); [|constructor].
  apply (reachable_step _ _ new); [by constructor|constructor].
Qed.

Lemma home_feed_exact_witness :
  let feed := home_feed s3 (fun _ => 30) "bob" 5 in
  (p_content ∘ f_post <$> feed = ["hi"])
  /\ StronglySorted (fun a b => p_timestamp (f_post b) <= p_timestamp (f_post a)) feed.
Proof.
  split; [vm_compute; reflexivity|].
  exact (proj1 (home_feed_exact s3 (fun _ => 30) "bob" 5 s3_reachable)).
Defined.

Lemma removed_post_hidden_witness :
  length (home_feed s3 (fun _ => 30) "bob" 5) = 1%nat
  /\ forall x, x ∈ home_feed (mark_post_removed s3 h1) (fun _ => 30) "bob" 5 -> p_hash (f_post x) <> h1.
Proof.
  split; [vm_compute; reflexivity|].
  exact (proj1 (proj2 (removed_post_hidden s3 (mark_post_removed s3 h1) h1 s3_reachable (rtc_refl _ _)
    (fun _ => 30) "bob" "bob" 5))).
Defined.

Lemma reply_thread_shows_removed_witness :
  collision \/ exists x p, x ∈ reply_thread (mark_post_removed s3 h3) h1 "bob" /\ f_post x = p /\ p_content p = "yes".
Proof.
  destruct (posts s3 !! h3) as [p|] eqn:Ep; [|by vm_compute in Ep].
  assert (p_hash p = h3 /\ p_reply_to p = Some h1 /\ p_content p = "yes") as (Eh & Er & Ec).
  { vm_compute in Ep. by injection Ep as <-. }
  destruct (reply_thread_shows_removed s3 p h1 "bob" s3_reachable) as [?|(x & Hx & Hp)]; [by rewrite Eh|done|by left|].
  right. exists x, p. rewrite <-Eh. done.
Defined.

Lemma lux_store_invariant_witness :
  likes (get_engagement (like_post s3 h1 "bob" 2).1 h1) = 1
  /\ likes (get_engagement s3 h1) = wrap 64 (Z.of_nat (size (likers s3 h1))).
Proof. split; [vm_compute; reflexivity|]. exact (proj1 (lux_store_invariant s3 s3_reachable) h1). Defined.

Lemma forged_post_accepted_witness :
  exists limit x, x ∈ profile_feed (store_received_post s3
      (post_of (text_post "alice" 25 "forged" None None) ("aliceforged" +:+ String (Ascii.ascii_of_N 25) "") [0]))
      30 "alice" "bob" limit /\ p_content (f_post x) = "forged".
Proof.
  destruct (forged_post_accepted s3 30 "alice" "bob" "forged" 25 [0] ("aliceforged" +:+ String (Ascii.ascii_of_N 25) "")
    s3_reachable) as (_ & limit & x & Hx & Hp); [vm_compute; reflexivity..|decide_now|].
  exists limit, x. split; [exact Hx|]. by rewrite Hp.
Defined.

Lemma muted_user_reposts_witness :
  exists s' h, repost (apply_temp_ban s3 20 "bob" 24) 30 h1 "bob" 2 (Some "still here") = (s', Ok h).
Proof.
  destruct (muted_user_reposts (apply_temp_ban s3 20 "bob" 24) 30 (2 : @SigningKey sign_lib) "bob" h1 "still here"
    ("bobstill here" +:+ String (Ascii.ascii_of_N 30) "")) as (_ & s' & p & E & _);
    [vm_compute; reflexivity|decide_now|vm_compute; reflexivity|done|]. by eexists _, _.
Defined.

Lemma lux_store_persists_witness :
  load_from_file (FileText "json") = Ok (set_pending new []).
Proof.
  refine (proj1 (lux_store_persists new (fun _ => Ok tt) "json" _ _ _)); [done| |done].
  intros j _. reflexivity.
Defined.
End Sample.
End LuxFeed.
