(* ===== verification/LuxModeration.v ===== *)
(** * gratia-lux: jury moderation

    [crates/gratia-lux/src/moderation.rs]: reports, juries, votes, verdicts and appeals.
    The jury is chosen by the caller; [now] is the clock of a verdict.

    Theorems: every verdict of every history comes from a full jury of distinct members all
    of whom voted, its outcome is the one of the vote count, and a post gets at most two
    verdicts ([verdicts_sound]); a jury of distinct members decides its case once all of
    them voted, in any order and with any other votes in between ([jury_decides]); a jury
    with a repeated member never decides ([repeated_juror_blocks]). *)

From stdpp Require Import base tactics strings gmap list sets fin_maps.
From Stdlib Require Import ZArith Lia.
From S2P Require Import Prelude CoreTypes LuxStore.
Local Open Scope Z_scope.

Record Report := mkReport {
  r_post_hash : string;
  reporter : string;
  reason : ReportReason;
  context : option string;
  r_signature : bytes;
  r_timestamp : DateTime
}.

Record Verdict := mkVerdict {
  v_post_hash : string;
  jurors : list string;
  v_votes : list bool;
  outcome : VerdictOutcome;
  v_block_height : Z;
  v_timestamp : DateTime
}.

Record ModerationCase := mkCase {
  report : Report;
  jury : list string;
  votes : gmap string bool;
  resolved : bool;
  verdict : option Verdict;
  is_appeal : bool;
  appeal_count : Z
}.

Record JurySystem := mkJurySystem {
  cases : gmap string ModerationCase;
  verdict_history : list Verdict
}.

Module LuxModeration.

Definition STANDARD_JURY_SIZE : nat := 7.
Definition VOTES_TO_REMOVE : nat := 5.
Definition VOTES_TO_BAN : nat := 6.
Definition APPEAL_JURY_SIZE : nat := 11.
Definition APPEAL_VOTES_TO_UPHOLD : nat := 8.
Definition MAX_APPEALS : Z := 1.
Definition BANS_BEFORE_ESCALATION : Z := 3.
Definition TEMP_BAN_HOURS : Z := 24.

Definition new : JurySystem := mkJurySystem ∅ [].

Definition file_report (j : JurySystem) (r : Report) (selected_jury : list string)
  : JurySystem * option ModerationCase :=
  match cases j !! r_post_hash r with
  | Some c => (j, Some c)
  | None =>
      if decide (length selected_jury < STANDARD_JURY_SIZE)%nat then (j, None)
      else
        let case := mkCase r (take STANDARD_JURY_SIZE selected_jury) ∅ false None false 0 in
        (mkJurySystem (<[r_post_hash r := case]> (cases j)) (verdict_history j), Some case)
  end.

(** [votes.values().filter(|v| **v).count()]. *)
Definition guilty_votes (m : gmap string bool) : nat :=
  length (filter (fun b => b = true) (map_to_list m).*2).

Definition outcome_of (appeal : bool) (guilty_count : nat) : VerdictOutcome :=
  let votes_to_remove := if appeal then APPEAL_VOTES_TO_UPHOLD else VOTES_TO_REMOVE in
  let votes_to_ban := if appeal then APPEAL_VOTES_TO_UPHOLD else VOTES_TO_BAN in
  if decide (votes_to_ban <= guilty_count)%nat then TempBan TEMP_BAN_HOURS
  else if decide (votes_to_remove <= guilty_count)%nat then ContentRemoved
  else NotGuilty.

Definition resolve_case (j : JurySystem) (now : DateTime) (h : string) : JurySystem * option Verdict :=
  match cases j !! h with
  | None => (j, None)
  | Some c =>
      let v := mkVerdict h (jury c) ((fun x => default false (votes c !! x)) <$> jury c)
                 (outcome_of (is_appeal c) (guilty_votes (votes c))) 0 now in
      let c := mkCase (report c) (jury c) (votes c) true (Some v) (is_appeal c) (appeal_count c) in
      (mkJurySystem (<[h := c]> (cases j)) (verdict_history j ++ [v]), Some v)
  end.

Definition cast_vote (j : JurySystem) (now : DateTime) (h juror : string) (guilty : bool)
  : JurySystem * option Verdict :=
  match cases j !! h with
  | None => (j, None)
  | Some c =>
      if resolved c then (j, verdict c)
      else if negb (bool_decide (juror ∈ jury c)) then (j, None)
      else
        let c := mkCase (report c) (jury c) (<[juror := guilty]> (votes c)) (resolved c) (verdict c)
                   (is_appeal c) (appeal_count c) in
        let j := mkJurySystem (<[h := c]> (cases j)) (verdict_history j) in
        if decide (length (jury c) <= size (votes c))%nat then resolve_case j now h else (j, None)
  end.

Definition file_appeal (j : JurySystem) (h : string) (selected_jury : list string) : JurySystem * bool :=
  match cases j !! h with
  | Some existing =>
      if negb (resolved existing) then (j, false)
      else if bool_decide (outcome <$> verdict existing = Some NotGuilty) then (j, false)
      else if decide (appeal_count existing >= MAX_APPEALS) then (j, false)
      else if decide (length selected_jury < APPEAL_JURY_SIZE)%nat then (j, false)
      else
        let case := mkCase (report existing) (take APPEAL_JURY_SIZE selected_jury) ∅ false None true
                      (wadd 32 (appeal_count existing) 1) in
        (mkJurySystem (<[h := case]> (delete h (cases j))) (verdict_history j), true)
  | None => (j, false)
  end.

Definition has_active_case (j : JurySystem) (h : string) : bool :=
  match cases j !! h with Some c => negb (resolved c) | None => false end.
Definition get_verdict (j : JurySystem) (h : string) : option Verdict := cases j !! h ≫= verdict.
Definition active_case_count (j : JurySystem) : nat :=
  length (filter (fun c => resolved c = false) (map_to_list (cases j)).*2).

(** ** Histories *)

Inductive jury_step : JurySystem -> JurySystem -> Prop :=
| step_report j r l : jury_step j (file_report j r l).1
| step_vote j now h x g : jury_step j (cast_vote j now h x g).1
| step_appeal j h l : jury_step j (file_appeal j h l).1.

Abbreviation jury_reachable := (reachable (fun j => j = new) jury_step).

Definition jury_size (appeal : bool) : nat := if appeal then APPEAL_JURY_SIZE else STANDARD_JURY_SIZE.

(** What a verdict of a first or an appeal jury must look like. *)
Definition verdict_ok (appeal : bool) (v : Verdict) : Prop :=
  NoDup (jurors v) /\ length (jurors v) = jury_size appeal /\ length (v_votes v) = jury_size appeal
  /\ outcome v = outcome_of appeal (length (filter (fun b => b = true) (v_votes v))).

Record case_ok (h : string) (c : ModerationCase) : Prop := {
  co_size : length (jury c) = jury_size (is_appeal c);
  co_voters x : is_Some (votes c !! x) -> x ∈ jury c;
  co_count : appeal_count c = if is_appeal c then 1 else 0;
  co_open : resolved c = false -> verdict c = None /\ (size (votes c) < length (jury c))%nat;
  co_closed : resolved c = true -> exists v, verdict c = Some v /\ v_post_hash v = h
    /\ verdict_ok (is_appeal c) v /\ jurors v = jury c
}.

(** The verdicts a case has led to, its first hearing included. *)
Definition hearings (o : option ModerationCase) : nat :=
  match o with
  | Some c => (if is_appeal c then 1 else 0) + (if resolved c then 1 else 0)
  | None => 0
  end.

Definition verdicts_on (h : string) (l : list Verdict) : nat := length (filter (fun v => v_post_hash v = h) l).

Record jury_inv (j : JurySystem) : Prop := {
  ji_cases h c : cases j !! h = Some c -> case_ok h c;
  ji_history v : v ∈ verdict_history j -> exists appeal, verdict_ok appeal v;
  ji_latest h c v : cases j !! h = Some c -> verdict c = Some v -> v ∈ verdict_history j;
  ji_count h : verdicts_on h (verdict_history j) = hearings (cases j !! h)
}.

(** ** Lemmas *)

(** As many votes as jurors, all from jurors: the voters are the jury, without repetition. *)
Lemma all_voted (m : gmap string bool) (l : list string) :
  (forall x, is_Some (m !! x) -> x ∈ l) -> (length l <= size m)%nat -> (map_to_list m).*1 ≡ₚ l.
Proof.
  intros Hm Hl. apply submseteq_length_Permutation.
  - apply NoDup_submseteq; [apply NoDup_fst_map_to_list|].
    intros x ([y b] & -> & Hx)%list_elem_of_fmap. apply Hm. apply elem_of_map_to_list in Hx. eauto.
  - by rewrite length_fmap, length_map_to_list.
Qed.

Lemma votes_values (m : gmap string bool) (l : list (string * bool)) :
  Forall (fun x => m !! x.1 = Some x.2) l -> (fun x => default false (m !! x)) <$> l.*1 = l.*2.
Proof. induction 1 as [|[x b] l Hx _ IH]; [done|]. cbn in *. by rewrite Hx, IH. Qed.

(** The votes in jury order and the values of the map count the same. *)
Lemma guilty_votes_jury (m : gmap string bool) (l : list string) :
  (map_to_list m).*1 ≡ₚ l ->
  guilty_votes m = length (filter (fun b => b = true) ((fun x => default false (m !! x)) <$> l)).
Proof.
  intros Hl. unfold guilty_votes. rewrite <-Hl, votes_values; [done|].
  apply Forall_forall. intros [x b] Hx. by apply elem_of_map_to_list in Hx.
Qed.

Lemma resolved_case_ok h c now x g :
  case_ok h c -> resolved c = false -> x ∈ jury c -> (length (jury c) <= size (<[x := g]> (votes c)))%nat ->
  verdict_ok (is_appeal c)
    (mkVerdict h (jury c) ((fun y => default false (<[x := g]> (votes c) !! y)) <$> jury c)
       (outcome_of (is_appeal c) (guilty_votes (<[x := g]> (votes c)))) 0 now).
Proof.
  intros Hc Hr Hx Hs. assert ((map_to_list (<[x := g]> (votes c))).*1 ≡ₚ jury c) as Hp.
  { apply all_voted; [|done]. intros y Hy. destruct (decide (y = x)) as [->|]; [done|].
    rewrite lookup_insert_ne in Hy by done. by apply (co_voters h c Hc). }
  split_and!; cbn.
  - rewrite <-Hp. apply NoDup_fst_map_to_list.
  - apply (co_size h c Hc).
  - rewrite length_fmap. apply (co_size h c Hc).
  - by rewrite (guilty_votes_jury _ _ Hp).
Qed.

Lemma verdicts_on_app h l v :
  verdicts_on h (l ++ [v]) = (verdicts_on h l + if decide (v_post_hash v = h) then 1 else 0)%nat.
Proof. unfold verdicts_on. rewrite filter_app, length_app, filter_cons. by case_decide. Qed.

Lemma file_report_inv j r l : jury_inv j -> jury_inv (file_report j r l).1.
Proof.
  intros I. unfold file_report. destruct (cases j !! r_post_hash r) as [c|] eqn:Ec; [done|].
  case_decide as Hl; [done|]. destruct I. split; cbn [cases verdict_history fst]; [|done| |].
  - intros h c [[<- <-]|[_ Hc]]%lookup_insert_Some; [|eauto].
    split; cbn; [| |done| |done].
    + rewrite length_take. unfold jury_size, STANDARD_JURY_SIZE, APPEAL_JURY_SIZE in *. lia.
    + intros x. rewrite lookup_empty. by intros [].
    + intros _. split; [done|]. rewrite map_size_empty, length_take. unfold STANDARD_JURY_SIZE in *. lia.
  - intros h c v [[<- <-]|[_ Hc]]%lookup_insert_Some; [done|eauto].
  - intros h. rewrite ji_count0. destruct (decide (h = r_post_hash r)) as [->|];
      [by rewrite lookup_insert_eq, Ec|by rewrite lookup_insert_ne].
Qed.

Lemma cast_vote_inv j now h x g : jury_inv j -> jury_inv (cast_vote j now h x g).1.
Proof.
  intros I. unfold cast_vote. destruct (cases j !! h) as [c|] eqn:Ec; [|done].
  destruct (resolved c) eqn:Er; [done|]. case_bool_decide as Hx; [|done]. cbn [negb]. cbv zeta.
  pose proof (ji_cases j I h c Ec) as Hc. cbn [jury votes].
  assert (forall y, is_Some (<[x := g]> (votes c) !! y) -> y ∈ jury c) as Hv.
  { intros y Hy. destruct (decide (y = x)) as [->|]; [done|].
    rewrite lookup_insert_ne in Hy by done. by apply (co_voters h c Hc). }
  destruct (co_open h c Hc Er) as [En Hlt]. case_decide as Hs.
  - unfold resolve_case. cbn [cases]. rewrite lookup_insert_eq. cbn [jury votes is_appeal report appeal_count fst].
    rewrite insert_insert_eq. pose proof (resolved_case_ok h c now x g Hc Er Hx Hs) as Hok.
    set (v := mkVerdict h _ _ _ 0 now) in *. split; cbn [cases verdict_history].
    + intros h' c' [[<- <-]|[_ Hc']]%lookup_insert_Some; [|by apply (ji_cases j I)].
      split; cbn; [apply Hc|done|apply Hc|done|]. intros _. by exists v.
    + intros w [Hw|Hw%list_elem_of_singleton]%elem_of_app; [by apply (ji_history j I)|subst w; eauto].
    + intros h' c' w [[<- <-]|[_ Hc']]%lookup_insert_Some; cbn.
      * intros [= <-]. set_solver.
      * intros Hw. apply elem_of_app. left. by apply (ji_latest j I h' c').
    + intros h'. rewrite verdicts_on_app, (ji_count j I). cbn. case_decide as E.
      * subst. rewrite lookup_insert_eq, Ec. cbn. rewrite Er. lia.
      * rewrite lookup_insert_ne by done. lia.
  - split; cbn [cases verdict_history fst].
    + intros h' c' [[<- <-]|[_ Hc']]%lookup_insert_Some; [|by apply (ji_cases j I)].
      split; cbn; [apply Hc|done|apply Hc| |done]. intros _. split; [done|lia].
    + apply (ji_history j I).
    + intros h' c' w [[<- <-]|[_ Hc']]%lookup_insert_Some; cbn; [by rewrite En|by apply (ji_latest j I h' c')].
    + intros h'. rewrite (ji_count j I). destruct (decide (h = h')) as [<-|];
        [rewrite lookup_insert_eq, Ec; cbn; by rewrite Er|by rewrite lookup_insert_ne].
Qed.

Lemma file_appeal_inv j h l : jury_inv j -> jury_inv (file_appeal j h l).1.
Proof.
  intros I. unfold file_appeal. destruct (cases j !! h) as [c|] eqn:Ec; [|done].
  destruct (resolved c) eqn:Er; [|done]. cbn [negb]. case_bool_decide; [done|].
  case_decide as Ha; [done|]. case_decide as Hl; [done|]. cbn. rewrite insert_delete_eq.
  pose proof (ji_cases j I h c Ec) as Hc.
  assert (is_appeal c = false) as Hap.
  { rewrite (co_count h c Hc) in Ha. unfold MAX_APPEALS in Ha. destruct (is_appeal c); [lia|done]. }
  split; cbn [cases verdict_history fst].
  - intros h' c' [[<- <-]|[_ Hc']]%lookup_insert_Some; [|by apply (ji_cases j I)].
    split; cbn; [| | | |done].
    + rewrite length_take. unfold jury_size, STANDARD_JURY_SIZE, APPEAL_JURY_SIZE in *. lia.
    + intros x. rewrite lookup_empty. by intros [].
    + by rewrite (co_count h c Hc), Hap.
    + intros _. split; [done|]. rewrite map_size_empty, length_take. unfold APPEAL_JURY_SIZE in *. lia.
  - apply (ji_history j I).
  - intros h' c' w [[<- <-]|[_ Hc']]%lookup_insert_Some; cbn; [done|by apply (ji_latest j I h' c')].
  - intros h'. rewrite (ji_count j I). destruct (decide (h = h')) as [<-|];
      [rewrite lookup_insert_eq, Ec; cbn; by rewrite Er, Hap|by rewrite lookup_insert_ne].
Qed.

#[local] Instance jury_step_invariant : StepInvariant (fun j => j = new) jury_step jury_inv.
Proof.
  split.
  - intros j ->. split; unfold new; cbn [cases verdict_history].
    + intros h c. by rewrite lookup_empty.
    + by intros v ?%elem_of_nil.
    + intros h c v. by rewrite lookup_empty.
    + intros h. by rewrite lookup_empty.
  - intros j j' I Hs. destruct Hs; [by apply file_report_inv|by apply cast_vote_inv|by apply file_appeal_inv].
Qed.

Lemma reachable_jury_inv j : jury_reachable j -> jury_inv j.
Proof. apply reachable_invariant. apply _. Qed.

(** ** Verdicts *)

(** C33: Every verdict of every history of reports, votes and appeals: its jury has seven
    members, eleven on appeal, all distinct and all with a recorded vote; a first jury bans
    the author from six guilty votes on and removes the post with five, an appeal jury
    bans from eight on, and otherwise the author is acquitted.  A post gets at most two
    verdicts, and the verdict reported for it is one of the history. *)
Theorem verdicts_sound j :
  jury_reachable j ->
  (forall v, v ∈ verdict_history j -> exists appeal,
     NoDup (jurors v) /\ length (jurors v) = jury_size appeal /\ length (v_votes v) = jury_size appeal
     /\ let guilty := length (filter (fun b => b = true) (v_votes v)) in
        outcome v = if decide ((if appeal then 8 else 6) <= guilty)%nat then TempBan 24
                    else if decide (appeal = false /\ 5 <= guilty)%nat then ContentRemoved else NotGuilty)
  /\ (forall h, (verdicts_on h (verdict_history j) <= 2)%nat)
  /\ (forall h v, get_verdict j h = Some v -> v ∈ verdict_history j /\ v_post_hash v = h).
Proof.
  intros I%reachable_jury_inv. split_and!.
  - intros v Hv. destruct (ji_history j I v Hv) as (appeal & Hn & Hj & Hl & Ho). exists appeal.
    split_and!; [done..|]. cbv zeta. rewrite Ho. unfold outcome_of, VOTES_TO_BAN, VOTES_TO_REMOVE,
      APPEAL_VOTES_TO_UPHOLD, TEMP_BAN_HOURS. destruct appeal; repeat case_decide; naive_solver lia.
  - intros h. rewrite (ji_count j I). unfold hearings. destruct (cases j !! h) as [c|]; [|lia].
    destruct (is_appeal c), (resolved c); lia.
  - intros h v. unfold get_verdict. destruct (cases j !! h) as [c|] eqn:Ec; [|done]. cbn. intros Hv.
    split; [by apply (ji_latest j I h c)|]. pose proof (ji_cases j I h c Ec) as Hc.
    destruct (resolved c) eqn:Er.
    + destruct (co_closed h c Hc Er) as (w & Hw & Hh & _). congruence.
    + destruct (co_open h c Hc Er) as [Hw _]. congruence.
Qed.

(** ** Juries that decide, and juries that cannot *)

(** One vote: the case keeps its jury; unless it is closed the vote of a juror is recorded. *)
Lemma cast_vote_case j now h x g c :
  cases j !! h = Some c -> resolved c = false ->
  exists c', cases (cast_vote j now h x g).1 !! h = Some c' /\ jury c' = jury c
    /\ (resolved c' = true \/ resolved c' = false
         /\ (forall y, is_Some (votes c !! y) -> is_Some (votes c' !! y))
         /\ (x ∈ jury c -> is_Some (votes c' !! x))).
Proof.
  intros Hc Hr. unfold cast_vote. rewrite Hc, Hr. case_bool_decide as Hx; cbn [negb].
  - cbv zeta. cbn [jury votes]. case_decide as Hs.
    + unfold resolve_case. cbn [cases]. rewrite lookup_insert_eq. eexists. cbn [fst cases].
      rewrite lookup_insert_eq. split; [done|]. split; [done|by left].
    + eexists. cbn [fst cases]. rewrite lookup_insert_eq. split; [done|]. split; [done|]. right. cbn.
      split; [done|]. split; [|by rewrite lookup_insert_eq].
      intros y Hy. destruct (decide (y = x)) as [->|]; [by rewrite lookup_insert_eq|by rewrite lookup_insert_ne].
  - exists c. cbn. split; [done|]. split; [done|]. right. done.
Qed.

Lemma cast_vote_resolved j now h x g c :
  cases j !! h = Some c -> resolved c = true -> (cast_vote j now h x g).1 = j.
Proof. intros Hc Hr. unfold cast_vote. by rewrite Hc, Hr. Qed.

(** A series of votes on one post. *)
Definition cast_votes (j : JurySystem) (h : string) (l : list (DateTime * string * bool)) : JurySystem :=
  foldl (fun j v => (cast_vote j v.1.1 h v.1.2 v.2).1) j l.

Lemma cast_votes_case j h c l :
  cases j !! h = Some c -> resolved c = false ->
  exists c', cases (cast_votes j h l) !! h = Some c' /\ jury c' = jury c
    /\ (resolved c' = true \/ resolved c' = false
         /\ forall x, x ∈ l.*1.*2 -> x ∈ jury c -> is_Some (votes c' !! x)).
Proof.
  intros Hc Hr. induction l as [|v l IH] using rev_ind.
  { exists c. split; [done|]. split; [done|]. right. split; [done|]. by intros x ?%elem_of_nil. }
  destruct IH as (c' & Hc' & Hj & Hcl). unfold cast_votes. rewrite foldl_app. cbn [foldl].
  fold (cast_votes j h l). destruct Hcl as [Hcl|[Ho Hv]].
  - rewrite (cast_vote_resolved _ _ _ _ _ c') by done. exists c'. auto.
  - destruct (cast_vote_case (cast_votes j h l) v.1.1 h v.1.2 v.2 c' Hc' Ho) as (d & Hd & Hjd & Hcl).
    exists d. split; [done|]. split; [congruence|]. destruct Hcl as [?|(Hod & Hkeep & Hnew)]; [by left|].
    right. split; [done|]. intros x. rewrite !fmap_app. intros [Hx|Hx]%elem_of_app Hin.
    + apply Hkeep, Hv; done.
    + cbn in Hx. apply list_elem_of_singleton in Hx as ->. apply Hnew. by rewrite Hj.
Qed.

Lemma cast_votes_inv j h l : jury_inv j -> jury_inv (cast_votes j h l).
Proof.
  intros I. induction l as [|v l IH] using rev_ind; [done|]. unfold cast_votes. rewrite foldl_app.
  by apply cast_vote_inv.
Qed.

(** A jury of distinct members decides: once every juror of an open case has voted, in
    any order, with repeated votes and votes of outsiders in between, the post has a
    verdict of exactly this jury. *)
Theorem jury_decides j h c l :
  jury_reachable j -> cases j !! h = Some c -> resolved c = false -> NoDup (jury c) ->
  (forall x, x ∈ jury c -> x ∈ l.*1.*2) ->
  exists v, get_verdict (cast_votes j h l) h = Some v /\ jurors v = jury c
    /\ has_active_case (cast_votes j h l) h = false.
Proof.
  intros I%reachable_jury_inv Hc Hr Hn Hall.
  destruct (cast_votes_case j h c l Hc Hr) as (c' & Hc' & Hj & Hcl).
  pose proof (ji_cases _ (cast_votes_inv j h l I) h c' Hc') as Hok.
  unfold get_verdict, has_active_case. rewrite Hc'. cbn.
  destruct Hcl as [Hcl|[Ho Hv]].
  - destruct (co_closed h c' Hok Hcl) as (v & Hv & _ & _ & Hjv). exists v. rewrite Hcl, <-Hj. done.
  - destruct (co_open h c' Hok Ho) as [_ Hlt]. exfalso.
    assert (jury c ⊆+ (map_to_list (votes c')).*1) as Hsub%submseteq_length.
    { apply NoDup_submseteq; [done|]. intros x Hx. destruct (Hv x (Hall x Hx) Hx) as [b Hb].
      apply list_elem_of_fmap. exists (x, b). split; [done|]. by apply elem_of_map_to_list. }
    rewrite length_fmap, length_map_to_list in Hsub. rewrite Hj in Hlt. lia.
Qed.

Definition stuck (h : string) (l : list string) (j : JurySystem) : Prop :=
  exists c, cases j !! h = Some c /\ resolved c = false /\ jury c = l.

Lemma stuck_step h l j j' : ~ NoDup l -> jury_inv j -> stuck h l j -> jury_step j j' -> stuck h l j'.
Proof.
  intros Hn I (c & Hc & Hr & Hl) Hs. destruct Hs as [j r l'|j now h' x g|j h' l'].
  - unfold file_report. destruct (cases j !! r_post_hash r) eqn:E; [by exists c|]. case_decide; [by exists c|].
    exists c. cbn. rewrite lookup_insert_ne by congruence. done.
  - destruct (decide (h' = h)) as [->|Hne].
    + destruct (cast_vote_case j now h x g c Hc Hr) as (c' & Hc' & Hj & [Hcl|(Ho & _)]);
        [|exists c'; split_and!; congruence].
      pose proof (ji_cases _ (cast_vote_inv j now h x g I) h c' Hc') as Hok.
      destruct (co_closed h c' Hok Hcl) as (v & _ & _ & [Hv _] & Hjv). congruence.
    + exists c. split; [|done]. unfold cast_vote. destruct (cases j !! h') as [d|]; [|done].
      destruct (resolved d); [done|]. case_bool_decide; [|done]. cbn [negb]. cbv zeta. case_decide.
      * unfold resolve_case. cbn [cases]. rewrite lookup_insert_eq. cbn. by rewrite !lookup_insert_ne.
      * cbn. by rewrite lookup_insert_ne.
  - exists c. split; [|done]. unfold file_appeal. destruct (cases j !! h') as [d|] eqn:Ed; [|done].
    destruct (decide (h' = h)) as [->|Hne]; [simplify_eq; by rewrite Hr|].
    destruct (negb (resolved d)); [done|]. case_bool_decide; [done|]. repeat (case_decide; [done|]).
    cbn. by rewrite lookup_insert_ne, lookup_delete_ne.
Qed.

(** A jury in which a member is repeated, which [file_report] accepts, never reaches a
    verdict: the case stays open through every later report, vote and appeal. *)
Theorem repeated_juror_blocks j r l j' :
  jury_reachable j -> cases j !! r_post_hash r = None -> (7 <= length l)%nat -> ~ NoDup (take 7 l) ->
  rtc jury_step (file_report j r l).1 j' ->
  has_active_case j' (r_post_hash r) = true /\ get_verdict j' (r_post_hash r) = None.
Proof.
  intros Hr Hc Hl Hn Hs.
  assert (jury_inv (file_report j r l).1) as I0 by (apply file_report_inv, reachable_jury_inv, Hr).
  assert (stuck (r_post_hash r) (take 7 l) (file_report j r l).1) as S0.
  { unfold file_report. rewrite Hc, decide_False by (unfold STANDARD_JURY_SIZE; lia). eexists. cbn [fst cases].
    by rewrite lookup_insert_eq. }
  assert (jury_inv j' /\ stuck (r_post_hash r) (take 7 l) j') as [I (c & Hc' & Ho & _)].
  { clear Hr Hc. induction Hs as [|j1 j2 j3 H12 _ IH]; [done|]. apply IH.
    - destruct H12; [by apply file_report_inv|by apply cast_vote_inv|by apply file_appeal_inv].
    - by eapply stuck_step. }
  unfold has_active_case, get_verdict. rewrite Hc'. cbn. rewrite Ho. split; [done|].
  by destruct (co_open _ c (ji_cases j' I _ c Hc') Ho).
Qed.

Module Sample.
Definition rep : Report := mkReport "post" "eve" Spam None [] 0.
Definition jury7 : list string := ["a"; "b"; "c"; "d"; "e"; "f"; "g"].
Definition opened : JurySystem := (file_report new rep jury7).1.
Definition votes7 (guilty : string -> bool) : list (DateTime * string * bool) :=
  (fun x => (1, x, guilty x)) <$> jury7.
Definition five_guilty (x : string) : bool := negb (bool_decide (x = "a" \/ x = "b")).
Definition decided : JurySystem := cast_votes opened "post" (votes7 five_guilty).

Lemma cast_votes_reachable j h l : jury_reachable j -> jury_reachable (cast_votes j h l).
Proof.
  intros Hj. induction l as [|v l IH] using rev_ind; [done|]. unfold cast_votes. rewrite foldl_app.
  eapply reachable_step; [exact IH|constructor].
Qed.

Lemma opened_reachable : jury_reachable opened.
Proof. apply (reachable_step _ _ new); [by constructor|constructor]. Qed.

Lemma verdicts_sound_witness :
  outcome <$> verdict_history decided = [ContentRemoved]
  /\ (verdicts_on "post" (verdict_history decided) <= 2)%nat.
Proof.
  split; [vm_compute; reflexivity|].
  exact (proj1 (proj2 (verdicts_sound decided (cast_votes_reachable _ _ _ opened_reachable))) "post").
Defined.

Lemma jury_decides_witness : exists v, get_verdict decided "post" = Some v /\ jurors v = jury7.
Proof.
  destruct (jury_decides opened "post" (mkCase rep jury7 ∅ false None false 0) (votes7 five_guilty)
    opened_reachable) as (v & Hv & Hj & _).
  - vm_compute. reflexivity.
  - reflexivity.
  - decide_now.
  - intros x Hx. assert ((votes7 five_guilty).*1.*2 = jury7) as -> by (vm_compute; reflexivity). exact Hx.
  - exists v. split; [exact Hv|exact Hj].
Defined.

Lemma repeated_juror_blocks_witness :
  has_active_case (cast_votes (file_report new rep ["a"; "a"; "c"; "d"; "e"; "f"; "g"]).1 "post" []) "post" = true.
Proof.
  refine (proj1 (repeated_juror_blocks new rep ["a"; "a"; "c"; "d"; "e"; "f"; "g"] _ _ _ _ _ (rtc_refl _ _)));
    [by constructor|done|cbn; lia|].
  intros Hn. apply NoDup_cons in Hn as [Hn _]. apply Hn. cbn. set_solver.
Defined.

(** An author whose post was removed appeals and loses: the penalty grows to a ban. *)
Definition jury11 : list string := ["a"; "b"; "c"; "d"; "e"; "f"; "g"; "h"; "i"; "j"; "k"].
Example lost_appeal_adds_ban :
  let j := (file_appeal decided "post" jury11).1 in
  outcome <$> verdict_history (cast_votes j "post" ((fun x => (2, x, five_guilty x)) <$> jury11))
  = [ContentRemoved; TempBan 24].
Proof. vm_compute. reflexivity. Qed.
End Sample.
End LuxModeration.
