(* ===== verification/LuxFees.v ===== *)
(** * gratia-lux: posting fees

    [crates/gratia-lux/src/fees.rs].  Floats are the bits of an [f64] ([Ieee]); [f64::exp]
    of the platform is the class [ExpLib].

    Theorem: over every history of blocks and burns the fee stays between 1 Lux and the
    ceiling of e^20 Lux, and the burn total is the saturated sum ([lux_fee_bounds]). *)

From stdpp Require Import base tactics list.
From Stdlib Require Import ZArith Lia.
From Stdlib Require SpecFloat.
From S2P Require Import Prelude CoreTypes Ieee.
Local Open Scope Z_scope.

(** [f64::exp]. *)
Class ExpLib := f64_exp : Z -> Z.

Record FeeCalculator := mkFeeCalculator {
  ema_utilization : Z;
  current_fee_lux : Z;
  total_burned_lux : Z;
  blocks_processed : Z
}.

Module LuxFees.

Definition TARGET_UTILIZATION : Z := Ieee.flit Ieee.f64 5 10.
Definition FEE_STEEPNESS : Z := Ieee.flit Ieee.f64 455 10.
Definition EMA_ALPHA : Z := Ieee.flit Ieee.f64 125 1000.
Definition MIN_FEE_LUX : Z := 1.
Definition LIKE_FEE_LUX : Z := 1.
Definition REPOST_FEE_LUX : Z := 1.
Definition BLOCK_SIZE_BYTES : Z := 262144.

(** [f64::clamp]. *)
Definition fclamp (x lo hi : Z) : Z :=
  let x := if Ieee.flt Ieee.f64 x lo then lo else x in
  if Ieee.flt Ieee.f64 hi x then hi else x.

Definition new : FeeCalculator := mkFeeCalculator (Ieee.of_int Ieee.f64 0) MIN_FEE_LUX 0 0.

Section fees.
Context `{!ExpLib}.

Definition compute_fee (ema : Z) : Z :=
  let excess := Ieee.fmax Ieee.f64 (Ieee.fsub Ieee.f64 ema TARGET_UTILIZATION) (Ieee.of_int Ieee.f64 0) in
  let exponent := Ieee.fmul Ieee.f64 (Ieee.fmul Ieee.f64 FEE_STEEPNESS excess) excess in
  let exponent := Ieee.fmin Ieee.f64 exponent (Ieee.of_int Ieee.f64 20) in
  let fee := f64_exp exponent in
  Z.max (Ieee.to_int Ieee.f64 0 (max_val 64) fee) MIN_FEE_LUX.

Definition on_block_finalized (c : FeeCalculator) (block_bytes_used : Z) : FeeCalculator :=
  let utilization := Ieee.fdiv Ieee.f64 (Ieee.of_int Ieee.f64 block_bytes_used)
                       (Ieee.of_int Ieee.f64 BLOCK_SIZE_BYTES) in
  let utilization := fclamp utilization (Ieee.of_int Ieee.f64 0) (Ieee.of_int Ieee.f64 1) in
  let ema := Ieee.fadd Ieee.f64 (Ieee.fmul Ieee.f64 EMA_ALPHA utilization)
               (Ieee.fmul Ieee.f64 (Ieee.fsub Ieee.f64 (Ieee.of_int Ieee.f64 1) EMA_ALPHA) (ema_utilization c)) in
  mkFeeCalculator ema (compute_fee ema) (total_burned_lux c) (wadd 64 (blocks_processed c) 1).

Definition post_fee (c : FeeCalculator) : Z := current_fee_lux c.
Definition record_burn (c : FeeCalculator) (lux_amount : Z) : FeeCalculator :=
  mkFeeCalculator (ema_utilization c) (current_fee_lux c) (saturating_add 64 (total_burned_lux c) lux_amount)
    (blocks_processed c).
Definition total_burned (c : FeeCalculator) : Z := total_burned_lux c.

Definition estimate_fee_at_utilization (utilization : Z) : Z :=
  compute_fee (fclamp utilization (Ieee.of_int Ieee.f64 0) (Ieee.of_int Ieee.f64 1)).

(** ** Comparison of floats *)

Lemma SFcompare_swap a b :
  SpecFloat.SFcompare b a = CompOpp <$> SpecFloat.SFcompare a b.
Proof.
  destruct a as [[]|[]| |[] m e], b as [[]|[]| |[] m' e']; try done; cbn;
    rewrite (Z.compare_antisym e' e); destruct (e' ?= e); try done; cbn;
    change (Pos.compare_cont Eq m' m) with (Pos.compare m' m);
    change (Pos.compare_cont Eq m m') with (Pos.compare m m');
    rewrite (Pos.compare_antisym m m'); by destruct (m ?= m')%positive.
Qed.

Lemma not_flt_fle a b :
  Ieee.is_nan Ieee.f64 a = false -> Ieee.is_nan Ieee.f64 b = false ->
  Ieee.flt Ieee.f64 b a = false -> Ieee.fle Ieee.f64 a b = true.
Proof.
  unfold Ieee.is_nan, Ieee.flt, Ieee.fle, SpecFloat.SFltb, SpecFloat.SFleb.
  set (x := Ieee.decode Ieee.f64 a). set (y := Ieee.decode Ieee.f64 b). rewrite (SFcompare_swap x y).
  intros Hx Hy. destruct (SpecFloat.SFcompare x y) as [[]|] eqn:E; try done.
  destruct x as [[]|[]| |[]], y as [[]|[]| |[]]; cbn in E; try done; repeat case_match; done.
Qed.

Lemma fmin_le a b : Ieee.is_nan Ieee.f64 b = false -> Ieee.fle Ieee.f64 b b = true ->
  Ieee.fle Ieee.f64 (Ieee.fmin Ieee.f64 a b) b = true.
Proof.
  intros Hb Hbb. unfold Ieee.fmin. destruct (Ieee.is_nan Ieee.f64 a) eqn:Ea; [done|]. rewrite Hb.
  destruct (Ieee.flt Ieee.f64 b a) eqn:E; [done|]. by apply not_flt_fle.
Qed.

(** ** Histories *)

Inductive fee_event := Block (bytes_used : Z) | Burn (amount : Z).

Definition fee_step (c : FeeCalculator) (e : fee_event) : FeeCalculator :=
  match e with Block n => on_block_finalized c n | Burn n => record_burn c n end.

Definition burned (l : list fee_event) : Z := foldr (fun e n => match e with Burn x => x + n | Block _ => n end) 0 l.
Definition event_ok (e : fee_event) : Prop := match e with Block n | Burn n => 0 <= n end.

Lemma burned_app l l' : burned (l ++ l') = burned l + burned l'.
Proof. unfold burned in *. induction l as [|[n|n] l IH]; cbn [app foldr]; lia. Qed.

Lemma burned_nonneg l : Forall event_ok l -> 0 <= burned l.
Proof. unfold burned. induction 1 as [|[n|n] l Hn _ IH]; cbn [foldr event_ok] in *; lia. Qed.

Lemma compute_fee_bounds ema :
  (forall x, Ieee.fle Ieee.f64 x (Ieee.of_int Ieee.f64 20) = true ->
     Ieee.to_int Ieee.f64 0 (max_val 64) (f64_exp x) <= 485165195) ->
  1 <= compute_fee ema <= 485165195.
Proof.
  intros Hexp. unfold compute_fee. cbv zeta. set (e := Ieee.fmul _ _ _).
  pose proof (Hexp _ (fmin_le e (Ieee.of_int Ieee.f64 20) eq_refl eq_refl)). unfold MIN_FEE_LUX. lia.
Qed.

(** Over every history of blocks and burns the posting fee lies between 1 Lux and
    485,165,195 Lux, the whole part of e^20 (given that the platform's [exp] is correct to
    that extent), whatever the block sizes; the burn total is the sum of the burns,
    saturated at the largest [u64]. *)
Theorem lux_fee_bounds l :
  (forall x, Ieee.fle Ieee.f64 x (Ieee.of_int Ieee.f64 20) = true ->
     Ieee.to_int Ieee.f64 0 (max_val 64) (f64_exp x) <= 485165195) ->
  Forall event_ok l ->
  let c := foldl fee_step new l in
  1 <= post_fee c <= 485165195 /\ total_burned c = Z.min (burned l) (max_val 64).
Proof.
  intros Hexp Hl. cbv zeta. induction l as [|e l IH] using rev_ind; [done|].
  apply Forall_app in Hl as [Hl He]. apply Forall_cons in He as [He _]. destruct (IH Hl) as [Hf Hb].
  rewrite foldl_app, burned_app. cbn [foldl]. pose proof (burned_nonneg l Hl).
  destruct e as [n|n]; cbn [fee_step].
  - split; [by apply compute_fee_bounds|]. change (burned [Block n]) with 0. rewrite Z.add_0_r. exact Hb.
  - split; [exact Hf|]. unfold total_burned in *. cbn [record_burn total_burned_lux]. rewrite Hb.
    change (burned [Burn n]) with (n + 0). unfold saturating_add. unfold event_ok in He. lia.
Qed.
End fees.

Module Sample.
(** A step function in place of the exponential. *)
#[local] Instance exp : ExpLib := fun x => if Ieee.fle Ieee.f64 x (Ieee.of_int Ieee.f64 20) then Ieee.of_int Ieee.f64 87 else Ieee.of_int Ieee.f64 0.
Lemma lux_fee_bounds_witness :
  let c := foldl fee_step new [Block 262144; Burn 5; Burn 7] in
  1 <= post_fee c <= 485165195 /\ total_burned c = 12.
Proof.
  refine (lux_fee_bounds [Block 262144; Burn 5; Burn 7] _ _).
  - intros x Hx. unfold f64_exp, exp. rewrite Hx. vm_compute. discriminate.
  - repeat (apply Forall_cons_2; [cbn; lia|]). apply Forall_nil_2.
Defined.
End Sample.
End LuxFees.
