(* ===== verification/Reputation.v ===== *)
(** * gratia-network: peer reputation and rate limits

    [crates/gratia-network/src/reputation.rs]: the score and the bans of a peer, the
    [ReputationManager] and the sliding-window [RateLimiter].

    Each reading of the clock within a call is an argument ([readings]).  A [VecDeque] is a
    list with its front first.

    Theorems: the rate limiter admits an event exactly when fewer than the limit were
    admitted in the last minute, so no minute holds more ([rate_limit_exact]).  [rep_run_ok]
    is the invariant of the manager under all its events, links included;
    [stale_ban_evicted] and [inherited_ban_keeps_activity] show how an inherited ban ends
    early, and [valid_block_renews_ban] a rule that does not do what it documents.
    [Gossip.v] has the handler that applies both, and that bans are served. *)

From stdpp Require Import base tactics strings gmap list sets sorting fin_maps.
From Stdlib Require Import ZArith Lia.
From S2P Require Import Prelude CoreTypes.
Local Open Scope Z_scope.

Record PeerReputation := mkPeerReputation {
  score : Z;
  invalid_blocks_received : Z;
  invalid_txs_received : Z;
  spam_messages : Z;
  valid_blocks_received : Z;
  last_activity : DateTime;
  banned_until : option DateTime
}.

Record ReputationManager := mkReputationManager {
  peers : gmap string PeerReputation;
  node_to_peer : gmap string string
}.

Record RateLimiter := mkRateLimiter {
  windows : gmap (string * string) (list DateTime);
  limits : gmap string nat
}.

(** The clock in one call: at an eviction, a new entry, [last_activity] and the ban. *)
Record readings := mkReadings { t_evict : DateTime; t_new : DateTime; t_act : DateTime; t_ban : DateTime }.
Definition at_time (t : DateTime) : readings := mkReadings t t t t.

Definition duration_hours (h : Z) : Duration := duration_seconds (3600 * h).

Module Reputation.

Definition DEFAULT_SCORE : Z := 100.
Definition MIN_SCORE : Z := -100.
Definition MAX_SCORE : Z := 1000.
Definition VALID_BLOCK_REWARD : Z := 5.
Definition INVALID_BLOCK_PENALTY : Z := -20.
Definition VALID_TX_REWARD : Z := 1.
Definition INVALID_TX_PENALTY : Z := -10.
Definition SPAM_PENALTY : Z := -15.
Definition RATE_LIMIT_PENALTY : Z := -2.
Definition DISCONNECT_THRESHOLD : Z := -50.
Definition SHORT_BAN_DURATION_HOURS : Z := 1.
Definition HARD_BAN_DURATION_HOURS : Z := 24.
Definition RATE_WINDOW_SECS : Z := 60.
Definition MAX_BLOCKS_PER_MINUTE : nat := 25.
Definition MAX_TXS_PER_MINUTE : nat := 100.
Definition MAX_MESSAGES_PER_MINUTE : nat := 50.

(** ** One peer *)

Definition new_peer (now : DateTime) : PeerReputation := mkPeerReputation DEFAULT_SCORE 0 0 0 0 now None.

Definition set_score_ban (r : PeerReputation) (s : Z) (ban : option DateTime) : PeerReputation :=
  mkPeerReputation s (invalid_blocks_received r) (invalid_txs_received r) (spam_messages r)
    (valid_blocks_received r) (last_activity r) ban.

Definition ban_duration_for_score (r : PeerReputation) (now : DateTime) : option DateTime :=
  if decide (score r <= MIN_SCORE) then Some (now + duration_hours HARD_BAN_DURATION_HOURS)
  else if decide (score r < DISCONNECT_THRESHOLD) then Some (now + duration_hours SHORT_BAN_DURATION_HOURS)
  else None.

Definition evaluate_ban (r : PeerReputation) (now : DateTime) : PeerReputation :=
  let fresh := set_score_ban r (score r) (ban_duration_for_score r now) in
  match banned_until r with
  | Some until =>
      if decide (until > now) then
        match ban_duration_for_score r now with
        | Some new_until => if decide (new_until > until) then set_score_ban r (score r) (Some new_until) else r
        | None => r
        end
      else fresh
  | None => fresh
  end.

Definition clamp (x lo hi : Z) : Z := Z.min hi (Z.max lo x).

(** The sum stays far inside [i32]: the score is at most 1000 in magnitude. *)
Definition apply_delta (r : PeerReputation) (c : readings) (delta : Z) : PeerReputation :=
  evaluate_ban
    (mkPeerReputation (clamp (score r + delta) MIN_SCORE MAX_SCORE) (invalid_blocks_received r)
       (invalid_txs_received r) (spam_messages r) (valid_blocks_received r) (t_act c) (banned_until r))
    (t_ban c).

Definition is_banned_peer (r : PeerReputation) (now : DateTime) : bool :=
  match banned_until r with Some until => bool_decide (now < until) | None => false end.

(** ** The manager *)

Definition new : ReputationManager := mkReputationManager ∅ ∅.

Definition evict_stale_peers (m : ReputationManager) (now : DateTime) (max_age : Duration) : ReputationManager :=
  let cutoff := now - max_age in
  mkReputationManager (filter (fun e => last_activity e.2 > cutoff) (peers m)) (node_to_peer m).

(** [entry]: the map after a possible eviction, and the entry of the peer. *)
Definition entry (m : ReputationManager) (c : readings) (p : string) : ReputationManager * PeerReputation :=
  let m := if decide (1000 < Z.of_nat (size (peers m)) /\ peers m !! p = None)
           then evict_stale_peers m (t_evict c) (duration_hours 24) else m in
  let r := default (new_peer (t_new c)) (peers m !! p) in
  (mkReputationManager (<[p := r]> (peers m)) (node_to_peer m), r).

Definition update (m : ReputationManager) (c : readings) (p : string)
    (f : PeerReputation -> PeerReputation) : ReputationManager :=
  let (m, r) := entry m c p in mkReputationManager (<[p := f r]> (peers m)) (node_to_peer m).

Definition record_valid_block (m : ReputationManager) (c : readings) (p : string) : ReputationManager :=
  update m c p (fun r => apply_delta
    (mkPeerReputation (score r) (invalid_blocks_received r) (invalid_txs_received r) (spam_messages r)
       (wadd 32 (valid_blocks_received r) 1) (last_activity r) (banned_until r)) c VALID_BLOCK_REWARD).
Definition record_valid_tx (m : ReputationManager) (c : readings) (p : string) : ReputationManager :=
  update m c p (fun r => apply_delta r c VALID_TX_REWARD).
Definition record_invalid_block (m : ReputationManager) (c : readings) (p : string) : ReputationManager :=
  update m c p (fun r => apply_delta
    (mkPeerReputation (score r) (wadd 32 (invalid_blocks_received r) 1) (invalid_txs_received r) (spam_messages r)
       (valid_blocks_received r) (last_activity r) (banned_until r)) c INVALID_BLOCK_PENALTY).
Definition record_invalid_tx (m : ReputationManager) (c : readings) (p : string) : ReputationManager :=
  update m c p (fun r => apply_delta
    (mkPeerReputation (score r) (invalid_blocks_received r) (wadd 32 (invalid_txs_received r) 1) (spam_messages r)
       (valid_blocks_received r) (last_activity r) (banned_until r)) c INVALID_TX_PENALTY).
Definition record_spam (m : ReputationManager) (c : readings) (p : string) : ReputationManager :=
  update m c p (fun r => apply_delta
    (mkPeerReputation (score r) (invalid_blocks_received r) (invalid_txs_received r) (wadd 32 (spam_messages r) 1)
       (valid_blocks_received r) (last_activity r) (banned_until r)) c SPAM_PENALTY).
Definition record_rate_limited (m : ReputationManager) (c : readings) (p : string) : ReputationManager :=
  update m c p (fun r => apply_delta r c RATE_LIMIT_PENALTY).

Definition is_banned (m : ReputationManager) (now : DateTime) (p : string) : bool :=
  match peers m !! p with Some r => is_banned_peer r now | None => false end.
Definition should_disconnect (m : ReputationManager) (now : DateTime) (p : string) : bool :=
  match peers m !! p with
  | Some r => bool_decide (score r < DISCONNECT_THRESHOLD) || is_banned_peer r now
  | None => false
  end.
Definition get_score (m : ReputationManager) (p : string) : Z :=
  match peers m !! p with Some r => score r | None => DEFAULT_SCORE end.
Definition get_reputation (m : ReputationManager) (p : string) : option PeerReputation := peers m !! p.

(** The bad reputation of the peer id this node used before. *)
Definition transferred (m : ReputationManager) (node p : string) : option PeerReputation :=
  match node_to_peer m !! node with
  | Some old_peer =>
      if decide (old_peer = p) then None
      else match peers m !! old_peer with
           | Some r => if decide (score r < DEFAULT_SCORE) then Some r else None
           | None => None
           end
  | None => None
  end.

Definition link_node_id (m : ReputationManager) (c : readings) (node p : string) : ReputationManager :=
  let m := match transferred m node p with
           | Some old =>
               update m c p (fun r => if decide (score old < score r)
                                      then set_score_ban r (score old) (banned_until old) else r)
           | None => m
           end in
  mkReputationManager (peers m) (<[node := p]> (node_to_peer m)).

Definition is_node_banned (m : ReputationManager) (now : DateTime) (node : string) : bool :=
  match node_to_peer m !! node with Some p => is_banned m now p | None => false end.
Definition peer_count (m : ReputationManager) : nat := size (peers m).

(** ** The rate limiter *)

Definition default_limits : gmap string nat :=
  list_to_map [("block", MAX_BLOCKS_PER_MINUTE); ("tx", MAX_TXS_PER_MINUTE);
               ("message", MAX_MESSAGES_PER_MINUTE); ("announce", 30%nat); ("validator_sig", 30%nat)].
Definition new_limiter : RateLimiter := mkRateLimiter ∅ default_limits.
Definition with_limits (l : gmap string nat) : RateLimiter := mkRateLimiter ∅ l.

Definition limit_of (l : RateLimiter) (action : string) : nat :=
  default MAX_MESSAGES_PER_MINUTE (limits l !! action).

(** The loop that drops expired entries from the front. *)
Fixpoint drop_expired (start : DateTime) (q : list DateTime) : list DateTime :=
  match q with
  | front :: q' => if decide (front < start) then drop_expired start q' else q
  | [] => []
  end.

Definition check_rate (l : RateLimiter) (now : DateTime) (p action : string) : RateLimiter * bool :=
  let window_start := now - duration_seconds RATE_WINDOW_SECS in
  let q := drop_expired window_start (default [] (windows l !! (p, action))) in
  if decide (limit_of l action <= length q)%nat
  then (mkRateLimiter (<[(p, action) := q]> (windows l)) (limits l), false)
  else (mkRateLimiter (<[(p, action) := q ++ [now]]> (windows l)) (limits l), true).

Definition clear_peer (l : RateLimiter) (p : string) : RateLimiter :=
  mkRateLimiter (filter (fun e => e.1.1 <> p) (windows l)) (limits l).

Definition evict_stale_entries (l : RateLimiter) (now : DateTime) (max_age : Duration) : RateLimiter :=
  let cutoff := now - max_age in
  mkRateLimiter (filter (fun e => match last e.2 with Some ts => bool_decide (ts > cutoff) | None => false end = true) (windows l))
    (limits l).

(** ** Rate limits *)

Inductive rate_event :=
| Check (t : DateTime) (p action : string)
| EvictStale (t : DateTime) (max_age : Duration).

Definition event_time (e : rate_event) : DateTime := match e with Check t _ _ | EvictStale t _ => t end.

(** Evictions keep more than the window. *)
Definition event_ok (e : rate_event) : Prop :=
  match e with Check _ _ _ => True | EvictStale _ age => duration_seconds RATE_WINDOW_SECS < age end.

(** The limiter together with the log of what it admitted. *)
Definition rate_step (s : RateLimiter * list (string * string * DateTime)) (e : rate_event)
  : RateLimiter * list (string * string * DateTime) :=
  match e with
  | Check t p a => let (l, ok) := check_rate s.1 t p a in (l, if ok then s.2 ++ [(p, a, t)] else s.2)
  | EvictStale t age => (evict_stale_entries s.1 t age, s.2)
  end.

Definition rate_run (lim : gmap string nat) (evs : list rate_event)
  : RateLimiter * list (string * string * DateTime) :=
  foldl rate_step (with_limits lim, []) evs.

Definition times_of (k : string * string) (log : list (string * string * DateTime)) : list DateTime :=
  (filter (fun e => e.1 = k) log).*2.

Definition within (lo hi : DateTime) (l : list DateTime) : nat := length (filter (fun t => lo <= t <= hi) l).

Abbreviation WINDOW := (duration_seconds RATE_WINDOW_SECS).

(** The window of a key is the end of what was admitted; the rest has expired. *)
Record rate_inv (now : DateTime) (s : RateLimiter * list (string * string * DateTime)) : Prop := {
  ri_window k : exists expired,
    times_of k s.2 = expired ++ default [] (windows s.1 !! k) /\ Forall (fun t => t < now - WINDOW) expired;
  ri_sorted k : StronglySorted Z.le (times_of k s.2);
  ri_past k : Forall (fun t => t <= now) (times_of k s.2);
  ri_bound k t : (within (t - WINDOW) t (times_of k s.2) <= limit_of s.1 k.2)%nat
}.

Lemma drop_expired_sorted start q :
  StronglySorted Z.le q ->
  exists expired, q = expired ++ drop_expired start q /\ Forall (fun t => t < start) expired
    /\ Forall (fun t => start <= t) (drop_expired start q).
Proof.
  induction 1 as [|x q Hs (e & Hq & He & Hd) Hx]; [by exists []|]. cbn. case_decide as Hlt.
  - exists (x :: e). split; [cbn; by rewrite <-Hq|]. split; [by constructor|done].
  - exists []. split_and!; [done..|]. constructor; [lia|]. eapply Forall_impl; [exact Hx|]. cbn. lia.
Qed.

Lemma within_app lo hi l l' : within lo hi (l ++ l') = (within lo hi l + within lo hi l')%nat.
Proof. unfold within. by rewrite filter_app, length_app. Qed.

Lemma within_none lo hi l : Forall (fun t => t < lo \/ hi < t) l -> within lo hi l = 0%nat.
Proof.
  unfold within. induction 1 as [|x l Hx _ IH]; [done|]. rewrite filter_cons, decide_False by lia. done.
Qed.

Lemma within_all lo hi l : Forall (fun t => lo <= t <= hi) l -> within lo hi l = length l.
Proof.
  unfold within. induction 1 as [|x l Hx _ IH]; [done|]. rewrite filter_cons, decide_True by done. cbn. by rewrite IH.
Qed.

Lemma within_le lo hi lo' hi' l :
  Forall (fun t => t <= hi') l -> lo' <= lo -> (within lo hi l <= within lo' hi' l)%nat.
Proof.
  intros Hl Hlo. unfold within. induction Hl as [|x l Hx _ IH]; [done|]. rewrite !filter_cons.
  destruct (decide (lo <= x <= hi)); destruct (decide (lo' <= x <= hi')); cbn; lia.
Qed.

(** What the limiter counts is the number admitted in the last minute. *)
Lemma live_count now now' k s :
  rate_inv now s -> now <= now' ->
  let live := drop_expired (now' - WINDOW) (default [] (windows s.1 !! k)) in
  length live = within (now' - WINDOW) now' (times_of k s.2)
  /\ exists expired, times_of k s.2 = expired ++ live /\ Forall (fun t => t < now' - WINDOW) expired.
Proof.
  intros I Hn. cbv zeta. destruct (ri_window _ _ I k) as (e & Hk & He).
  pose proof (ri_sorted _ _ I k) as Hs. pose proof (ri_past _ _ I k) as Hp. rewrite Hk in Hs, Hp |- *.
  apply StronglySorted_app in Hs as (_ & _ & Hs). apply Forall_app in Hp as [_ Hp].
  destruct (drop_expired_sorted (now' - WINDOW) _ Hs) as (e' & Hq & He' & Hd).
  set (live := drop_expired _ _) in *. rewrite Hq in Hp |- *. apply Forall_app in Hp as [_ Hp].
  assert (Forall (fun t => t < now' - WINDOW) (e ++ e')) as Hall.
  { apply Forall_app. split; [|done]. eapply Forall_impl; [exact He|]. cbn. lia. }
  split; [|exists (e ++ e'); by rewrite <-app_assoc].
  rewrite app_assoc, within_app, (within_none _ _ (e ++ e')), within_all; [done| |].
  - apply Forall_forall. intros t Ht. rewrite Forall_forall in Hd, Hp. specialize (Hd t Ht). specialize (Hp t Ht).
    cbn in Hp. lia.
  - eapply Forall_impl; [exact Hall|]. cbn. lia.
Qed.

Lemma times_of_app k log e :
  times_of k (log ++ [e]) = times_of k log ++ (if decide (e.1 = k) then [e.2] else []).
Proof. unfold times_of. rewrite filter_app, fmap_app, filter_cons. by case_decide. Qed.

(** A key whose log did not change, at a later time. *)
Lemma window_later now now' (q l : list DateTime) :
  now <= now' -> (exists e, l = e ++ q /\ Forall (fun t => t < now - WINDOW) e) ->
  exists e, l = e ++ q /\ Forall (fun t => t < now' - WINDOW) e.
Proof.
  intros Hn (e & He & Hf). exists e. split; [done|]. eapply Forall_impl; [exact Hf|]. cbn. lia.
Qed.

Lemma past_later now now' (l : list DateTime) :
  now <= now' -> Forall (fun t => t <= now) l -> Forall (fun t => t <= now') l.
Proof. intros Hn Hl. eapply Forall_impl; [exact Hl|]. cbn. lia. Qed.

Lemma check_inv now s t p a :
  rate_inv now s -> now <= t -> rate_inv t (rate_step s (Check t p a)).
Proof.
  intros I Hn. destruct (live_count now t (p, a) s I Hn) as [Hc Hw]. cbn [rate_step]. unfold check_rate.
  cbv zeta. set (live := drop_expired _ _) in *. case_decide as Hl; cbn [fst snd].
  - split; cbn [fst snd windows]; try apply I.
    + intros k. destruct (decide (k = (p, a))) as [->|Hk]; [by rewrite lookup_insert_eq|].
      rewrite lookup_insert_ne by done. by apply (window_later now), I.
    + intros k. by apply (past_later now), I.
  - split; cbn [fst snd windows]; intros k; rewrite times_of_app; cbn [fst snd].
    + destruct (decide ((p, a) = k)) as [<-|Hk].
      * rewrite lookup_insert_eq. destruct Hw as (e & He & Hf). exists e. rewrite He. cbn. by rewrite <-app_assoc.
      * rewrite lookup_insert_ne, app_nil_r by done. by apply (window_later now), I.
    + case_decide; [|rewrite app_nil_r; apply I]. apply StronglySorted_app. split_and!; [|apply I|repeat constructor].
      intros x y Hx ->%list_elem_of_singleton. pose proof (ri_past _ _ I k) as Hp. rewrite Forall_forall in Hp.
      specialize (Hp x Hx). cbn in Hp. lia.
    + apply Forall_app. split; [by apply (past_later now), I|]. case_decide; [by apply Forall_singleton|done].
    + intros u. rewrite within_app. change (limit_of _ k.2) with (limit_of s.1 k.2).
      pose proof (ri_bound _ _ I k u) as Hb. case_decide as Hk; [|cbn; lia]. subst k. cbn [snd] in *.
      destruct (decide (t <= u)).
      * pose proof (within_le (u - WINDOW) u (t - WINDOW) t (times_of (p, a) s.2)
          (past_later now t _ Hn (ri_past _ _ I _)) ltac:(lia)).
        assert (within (u - WINDOW) u [t] <= 1)%nat by (unfold within; rewrite length_filter; cbn; lia). lia.
      * rewrite (within_none _ _ [t]); [lia|]. constructor; [lia|done].
Qed.

Lemma evict_inv now s t age :
  rate_inv now s -> now <= t -> WINDOW < age -> rate_inv t (rate_step s (EvictStale t age)).
Proof.
  intros I Hn Hage. split; cbn [rate_step fst snd evict_stale_entries windows]; try apply I.
  - intros k. destruct (window_later now t _ _ Hn (ri_window _ _ I k)) as (e & He & Hf).
    rewrite map_lookup_filter. destruct (windows s.1 !! k) as [q|] eqn:Ek; [|by exists e]. cbn in *.
    pose proof (ri_sorted _ _ I k) as Hs. rewrite He in Hs. apply StronglySorted_app in Hs as (_ & _ & Hs).
    destruct (last q) as [x|] eqn:El; [|apply last_None in El as ->; exists e; by rewrite option_guard_False].
    case_bool_decide as Hx; [exists e; by rewrite option_guard_True|].
    rewrite option_guard_False by done. exists (e ++ q). cbn. rewrite app_nil_r. split; [done|].
    apply Forall_app. split; [done|]. apply last_Some in El as [q' ->].
    apply StronglySorted_app in Hs as (Hc & _ & _). apply Forall_app. split; [|by constructor; [lia|]].
    apply Forall_forall. intros y Hy. specialize (Hc y x Hy ltac:(set_solver)). lia.
  - intros k. by apply (past_later now), I.
Qed.

Lemma rate_run_inv lim evs t0 :
  StronglySorted Z.le (event_time <$> evs) -> Forall event_ok evs -> (forall e, e ∈ evs -> event_time e <= t0) ->
  rate_inv t0 (rate_run lim evs).
Proof.
  revert t0. induction evs as [|e evs IH] using rev_ind; intros t0 Hs Ho Ht.
  { split; cbn; try done.
    - intros k. exists []. by rewrite lookup_empty.
    - intros k t. unfold within. cbn. lia. }
  rewrite fmap_app in Hs. apply StronglySorted_app in Hs as (Hc & Hs & _).
  apply Forall_app in Ho as [Ho He]. apply Forall_cons in He as [He _].
  assert (rate_inv (event_time e) (rate_run lim evs)) as I.
  { apply IH; [done..|]. intros e' He'. apply (Hc (event_time e') (event_time e)); [by apply list_elem_of_fmap_2|set_solver]. }
  assert (rate_inv (event_time e) (rate_run lim (evs ++ [e]))) as I'.
  { unfold rate_run. rewrite foldl_app. cbn [foldl]. fold (rate_run lim evs).
    destruct e as [t p a|t age]; [by apply (check_inv t)|by apply (evict_inv t)]. }
  assert (event_time e <= t0) as Hle by (apply Ht; set_solver). split; try apply I'.
  - intros k. by apply (window_later _ t0 _ _ Hle), I'.
  - intros k. by apply (past_later _ t0 _ Hle), I'.
Qed.

Lemma rate_run_limits lim evs : limits (rate_run lim evs).1 = lim.
Proof.
  induction evs as [|e evs IH] using rev_ind; [done|]. unfold rate_run. rewrite foldl_app. cbn [foldl].
  fold (rate_run lim evs). destruct e as [t p a|t age]; cbn; [|done]. unfold check_rate. by case_decide.
Qed.

(** C34: The rate limiter against its specification, over every history with a clock that
    does not run backwards (evictions of entries older than a minute included): in no span
    of sixty seconds are more events of a peer and action admitted than its limit, and the
    next event is admitted exactly when fewer were admitted in the last sixty seconds. *)
Theorem rate_limit_exact lim evs p action now :
  StronglySorted Z.le (event_time <$> evs) -> Forall event_ok evs ->
  (forall e, e ∈ evs -> event_time e <= now) ->
  let (l, admitted) := rate_run lim evs in
  let limit := default MAX_MESSAGES_PER_MINUTE (lim !! action) in
  (forall t, within (t - WINDOW) t (times_of (p, action) admitted) <= limit)%nat
  /\ (check_rate l now p action).2 = bool_decide (within (now - WINDOW) now (times_of (p, action) admitted) < limit)%nat.
Proof.
  intros Hs Ho Ht. pose proof (rate_run_inv lim evs now Hs Ho Ht) as I. pose proof (rate_run_limits lim evs) as Hl.
  destruct (rate_run lim evs) as [l admitted]. cbn [fst] in Hl. cbv zeta. split.
  - intros t. pose proof (ri_bound _ _ I (p, action) t) as Hb. unfold limit_of in Hb. cbn in Hb. by rewrite Hl in Hb.
  - destruct (live_count now now (p, action) _ I ltac:(lia)) as [Hc _]. unfold check_rate. cbv zeta.
    unfold limit_of. rewrite Hl. cbn [fst snd] in Hc. rewrite Hc.
    case_decide; cbn; symmetry; [apply bool_decide_eq_false|apply bool_decide_eq_true]; lia.
Qed.

(** ** Bans *)

(** What the event loop reports about a peer: the six records, and the node id of a message
    it sent. *)
Inductive rep_event :=
| ValidBlock | ValidTx | InvalidBlock | InvalidTx | SpamMessage | RateLimited
| Link (node : string).

Definition record_rep (m : ReputationManager) (c : readings) (e : rep_event) (p : string) : ReputationManager :=
  match e with
  | ValidBlock => record_valid_block m c p
  | ValidTx => record_valid_tx m c p
  | InvalidBlock => record_invalid_block m c p
  | InvalidTx => record_invalid_tx m c p
  | SpamMessage => record_spam m c p
  | RateLimited => record_rate_limited m c p
  | Link node => link_node_id m c node p
  end.

(** Events with their times, each call at one time. *)
Definition rep_run (m : ReputationManager) (l : list (DateTime * rep_event * string)) : ReputationManager :=
  foldl (fun m e => record_rep m (at_time e.1.1) e.1.2 e.2) m l.

Definition peer_ok (now : DateTime) (r : PeerReputation) : Prop :=
  MIN_SCORE <= score r <= MAX_SCORE /\ last_activity r <= now
  /\ forall u, banned_until r = Some u -> u <= now + duration_hours 24.

Definition manager_ok (now : DateTime) (m : ReputationManager) : Prop :=
  forall p r, peers m !! p = Some r -> peer_ok now r.

(** The record of [p] is [r], and no eviction removes it at [t]. *)
Definition holds (t : DateTime) (m : ReputationManager) (p : string) (r : PeerReputation) : Prop :=
  peers m !! p = Some r /\ t < last_activity r + duration_hours 24.

Lemma peer_ok_later now t r : now <= t -> peer_ok now r -> peer_ok t r.
Proof. intros Hn (? & ? & Hb). split; [done|]. split; [lia|]. intros u Hu. specialize (Hb u Hu). lia. Qed.

Lemma evaluate_ban_spec r now :
  let r' := evaluate_ban r now in
  score r' = score r /\ last_activity r' = last_activity r
  /\ (banned_until r' = banned_until r \/ banned_until r' = ban_duration_for_score r now)
  /\ (forall u, banned_until r = Some u -> now < u -> exists u', banned_until r' = Some u' /\ u <= u').
Proof.
  unfold evaluate_ban. destruct (banned_until r) as [v|] eqn:E.
  - case_decide as Hv.
    + destruct (ban_duration_for_score r now) as [w|] eqn:Ed.
      * case_decide as Hw; cbn; rewrite ?E; naive_solver lia.
      * rewrite E. naive_solver lia.
    + cbn. split_and!; auto. intros u [= <-]. lia.
  - cbn. naive_solver.
Qed.

Lemma ban_duration_le r now u : ban_duration_for_score r now = Some u -> u <= now + duration_hours 24.
Proof.
  unfold ban_duration_for_score, duration_hours, duration_seconds, NANOS, HARD_BAN_DURATION_HOURS,
    SHORT_BAN_DURATION_HOURS. repeat case_decide; intros [= <-]; lia.
Qed.

Lemma apply_delta_ok t r d :
  peer_ok t r -> peer_ok t (apply_delta r (at_time t) d)
  /\ (forall u, banned_until r = Some u -> t < u -> exists u', banned_until (apply_delta r (at_time t) d) = Some u' /\ u <= u').
Proof.
  intros (Hs & Hl & Hb). unfold apply_delta. cbn [at_time t_act t_ban].
  set (r0 := mkPeerReputation (clamp (score r + d) MIN_SCORE MAX_SCORE) _ _ _ _ t (banned_until r)).
  destruct (evaluate_ban_spec r0 t) as (Es & El & Eb & Hk). split; [|exact Hk].
  unfold peer_ok. rewrite Es, El. cbn [score last_activity r0]. split_and!.
  - unfold clamp, MIN_SCORE, MAX_SCORE. lia.
  - unfold clamp, MIN_SCORE, MAX_SCORE. lia.
  - lia.
  - intros u Hu. destruct Eb as [Eb|Eb]; rewrite Eb in Hu.
    + by apply Hb.
    + by apply ban_duration_le in Hu.
Qed.

(** The deltas and counters of the six records, one update each. *)
Lemma record_event_update m c e p :
  (forall node, e <> Link node) ->
  exists (g : PeerReputation -> PeerReputation) d,
    record_rep m c e p = update m c p (fun r => apply_delta (g r) c d)
    /\ forall r, score (g r) = score r /\ last_activity (g r) = last_activity r /\ banned_until (g r) = banned_until r.
Proof.
  intros Hl. destruct e as [| | | | | |node]; [..|by destruct (Hl node)]; cbn [record_rep];
    unfold record_valid_block, record_valid_tx, record_invalid_block, record_invalid_tx, record_spam, record_rate_limited.
  - exists (fun r => mkPeerReputation (score r) (invalid_blocks_received r) (invalid_txs_received r) (spam_messages r) (wadd 32 (valid_blocks_received r) 1) (last_activity r) (banned_until r)), VALID_BLOCK_REWARD. split; [reflexivity|intros r; cbn; auto].
  - exists id, VALID_TX_REWARD. split; [reflexivity|intros r; cbn; auto].
  - exists (fun r => mkPeerReputation (score r) (wadd 32 (invalid_blocks_received r) 1) (invalid_txs_received r) (spam_messages r) (valid_blocks_received r) (last_activity r) (banned_until r)), INVALID_BLOCK_PENALTY. split; [reflexivity|intros r; cbn; auto].
  - exists (fun r => mkPeerReputation (score r) (invalid_blocks_received r) (wadd 32 (invalid_txs_received r) 1) (spam_messages r) (valid_blocks_received r) (last_activity r) (banned_until r)), INVALID_TX_PENALTY. split; [reflexivity|intros r; cbn; auto].
  - exists (fun r => mkPeerReputation (score r) (invalid_blocks_received r) (invalid_txs_received r) (wadd 32 (spam_messages r) 1) (valid_blocks_received r) (last_activity r) (banned_until r)), SPAM_PENALTY. split; [reflexivity|intros r; cbn; auto].
  - exists id, RATE_LIMIT_PENALTY. split; [reflexivity|intros r; cbn; auto].
Qed.

(** The entry of a peer; eviction keeps every record with activity of the last day. *)
Lemma entry_ok t m p :
  manager_ok t m ->
  let (m', r) := entry m (at_time t) p in
  manager_ok t m' /\ peer_ok t r /\ (forall x, peers m !! p = Some x -> r = x)
  /\ (forall q x, holds t m q x -> peers m' !! q = Some x).
Proof.
  intros Hm. unfold entry.
  set (m0 := if decide _ then evict_stale_peers m (t_evict (at_time t)) (duration_hours 24) else m).
  assert (forall q x, peers m0 !! q = Some x -> peers m !! q = Some x) as Hsub.
  { intros q x. unfold m0. case_decide; [|done]. cbn. intros Hq. by apply map_lookup_filter_Some in Hq as [? _]. }
  assert (forall q x, holds t m q x -> peers m0 !! q = Some x) as Hkeep.
  { intros q x [Hq Ht]. unfold m0. case_decide; [|done].
    cbn. apply map_lookup_filter_Some. split; [done|]. cbn. lia. }
  assert (forall x, peers m !! p = Some x -> peers m0 !! p = Some x) as Hp.
  { intros x Hx. unfold m0. rewrite decide_False by (intros [_ ?]; congruence). done. }
  clearbody m0. cbv zeta. cbn [peers].
  assert (peer_ok t (default (new_peer (t_new (at_time t))) (peers m0 !! p))) as Hr.
  { destruct (peers m0 !! p) as [r|] eqn:Ep; [by apply (Hm p), Hsub|].
    split_and!; cbn; try done; unfold MIN_SCORE, MAX_SCORE, DEFAULT_SCORE; lia. }
  split_and!; [|done|by intros x ->%Hp|].
  - intros q x. cbn [peers]. intros [[<- <-]|[_ Hq]]%lookup_insert_Some; [done|by apply (Hm q), Hsub].
  - intros q x Hq%Hkeep. destruct (decide (p = q)) as [->|]; [by rewrite lookup_insert_eq, Hq|by rewrite lookup_insert_ne].
Qed.

Lemma update_ok t m p f :
  manager_ok t m -> (forall r, peer_ok t r -> peer_ok t (f r)) ->
  manager_ok t (update m (at_time t) p f)
  /\ (forall q x, q <> p -> holds t m q x -> peers (update m (at_time t) p f) !! q = Some x)
  /\ (forall r, peers m !! p = Some r -> peers (update m (at_time t) p f) !! p = Some (f r)).
Proof.
  intros Hm Hf. unfold update. pose proof (entry_ok t m p Hm) as He.
  destruct (entry m (at_time t) p) as [m1 r]. destruct He as (Hm1 & Hr & Hp & Hk). cbn [peers]. split_and!.
  - intros q x. cbn [peers]. intros [[<- <-]|[_ Hq]]%lookup_insert_Some; [by apply Hf|by apply (Hm1 q)].
  - intros q x Hne Hq. rewrite lookup_insert_ne by done. by apply Hk.
  - intros x Hx. rewrite lookup_insert_eq. by rewrite (Hp x Hx).
Qed.

(** A link gives the peer the score and the ban of a worse peer, and nothing else. *)
Lemma link_ok t m node p :
  manager_ok t m ->
  manager_ok t (link_node_id m (at_time t) node p)
  /\ (forall q x, q <> p -> holds t m q x -> peers (link_node_id m (at_time t) node p) !! q = Some x).
Proof.
  intros Hm. unfold link_node_id. destruct (transferred m node p) as [old|] eqn:Et.
  2:{ cbn [peers]. split; [done|]. by intros q x _ [? _]. }
  assert (peer_ok t old) as Ho.
  { unfold transferred in Et. destruct (node_to_peer m !! node) as [o|]; [|done]. case_decide; [done|].
    destruct (peers m !! o) as [x|] eqn:Ex; [|done]. case_decide; [|done]. injection Et as <-. by apply (Hm o). }
  destruct (update_ok t m p (fun r => if decide (score old < score r)
              then set_score_ban r (score old) (banned_until old) else r)) as (Hok & Hk & _); [done| |by split].
  intros r (? & Ha & ?). case_decide; [|done]. destruct Ho as (Hs & _ & Hu). exact (conj Hs (conj Ha Hu)).
Qed.

Lemma record_event_ok t m e p :
  manager_ok t m ->
  manager_ok t (record_rep m (at_time t) e p)
  /\ (forall q x, q <> p -> holds t m q x -> peers (record_rep m (at_time t) e p) !! q = Some x).
Proof.
  intros Hm.
  assert ((exists node, e = Link node) \/ forall node, e <> Link node) as [[node ->]|Hl]
    by (destruct e; eauto); [by apply link_ok|].
  destruct (record_event_update m (at_time t) e p Hl) as (g & d & -> & Hg).
  destruct (update_ok t m p (fun r => apply_delta (g r) (at_time t) d)) as (Hok & Hk & _); [done| |by split].
  intros r Hr. apply apply_delta_ok. destruct (Hg r) as (E1 & E2 & E3). unfold peer_ok. by rewrite E1, E2, E3.
Qed.

(** A record of the peer itself, good or bad, does not shorten a running ban. *)
Lemma record_keeps_ban t m e p r u :
  manager_ok t m -> (forall node, e <> Link node) ->
  peers m !! p = Some r -> banned_until r = Some u -> t < u ->
  exists r' u', peers (record_rep m (at_time t) e p) !! p = Some r' /\ banned_until r' = Some u' /\ u <= u'.
Proof.
  intros Hm Hl Hp Hu Ht.
  destruct (record_event_update m (at_time t) e p Hl) as (g & d & -> & Hg). destruct (Hg r) as (E1 & E2 & E3).
  assert (forall x, peer_ok t x -> peer_ok t (g x)) as Hgok.
  { intros x Hx. destruct (Hg x) as (F1 & F2 & F3). unfold peer_ok. by rewrite F1, F2, F3. }
  destruct (update_ok t m p (fun r => apply_delta (g r) (at_time t) d)) as (_ & _ & Hx); [done| |].
  { intros x Hx. by apply apply_delta_ok, Hgok. }
  rewrite (Hx r Hp). destruct (apply_delta_ok t (g r) d) as [_ Hk]; [by apply Hgok, (Hm p)|].
  destruct (Hk u) as (u' & ? & ?); [by rewrite E3|done|]. by eexists _, u'.
Qed.

Lemma rep_run_ok t m p l :
  manager_ok t m ->
  manager_ok t (rep_run m ((fun e => (t, e, p)) <$> l))
  /\ (forall q x, q <> p -> holds t m q x -> peers (rep_run m ((fun e => (t, e, p)) <$> l)) !! q = Some x).
Proof.
  revert m. induction l as [|e l IH]; intros m Hm; [split; [done|by intros q x _ [? _]]|].
  destruct (record_event_ok t m e p Hm) as [Hm1 Hk]. destruct (IH _ Hm1) as [Hm2 Hk2]. split; [done|].
  intros q x Hne Hq. apply Hk2; [done|]. split; [by apply Hk|apply Hq].
Qed.

(** A ban outlives the last activity of its peer by a day at most, once more than a thousand
    peers are known: the record is evicted with the ban. *)
Lemma stale_ban_evicted m p r t q e :
  (forall node, e <> Link node) ->
  1000 < Z.of_nat (size (peers m)) -> peers m !! q = None -> q <> p ->
  peers m !! p = Some r -> last_activity r <= t - duration_hours 24 ->
  is_banned (record_rep m (at_time t) e q) t p = false.
Proof.
  intros Hl Hn Hq Hne Hp Ha. destruct (record_event_update m (at_time t) e q Hl) as (g & d & -> & _).
  unfold is_banned, update, entry. rewrite decide_True by done. cbn. rewrite !lookup_insert_ne by done.
  assert (filter (fun x : string * PeerReputation => last_activity x.2 > t - duration_hours 24) (peers m) !! p = None)
    as ->; [|done].
  apply map_lookup_filter_None. right. intros x Hx. rewrite Hp in Hx. injection Hx as <-. cbn. lia.
Qed.

(** An inherited ban comes without activity: the peer that takes over the ban of a worse peer
    keeps its own, possibly old, date of last activity. *)
Lemma inherited_ban_keeps_activity m c node p old r :
  transferred m node p = Some old -> peers m !! p = Some r -> score old < score r ->
  peers (link_node_id m c node p) !! p = Some (set_score_ban r (score old) (banned_until old)).
Proof.
  intros Ht Hp Hs. unfold link_node_id, update, entry. rewrite Ht.
  rewrite (decide_False (P := 1000 < _ /\ _)) by (intros [_ ?]; congruence). cbn [peers].
  by rewrite lookup_insert_eq, Hp, decide_True.
Qed.

(** A peer whose ban has ended while its score is below -55 is banned for another hour by
    the next valid block it relays: good behaviour does not lead back. *)
Theorem valid_block_renews_ban m p r u t :
  peers m !! p = Some r -> banned_until r = Some u -> u <= t -> MIN_SCORE <= score r < -55 ->
  is_banned m t p = false
  /\ is_banned (record_valid_block m (at_time t) p) t p = true
  /\ get_score (record_valid_block m (at_time t) p) p = score r + 5.
Proof.
  intros Hp Hu Ht Hs. split.
  { unfold is_banned, is_banned_peer. rewrite Hp, Hu. by apply bool_decide_eq_false; lia. }
  unfold MIN_SCORE in Hs. unfold record_valid_block, update, entry.
  rewrite decide_False by (intros [_ ?]; congruence). rewrite Hp.
  change (default (new_peer (t_new (at_time t))) (Some r)) with r. cbn [peers].
  set (f := apply_delta _ _ _).
  assert (score f = score r + 5 /\ exists v, banned_until f = Some v /\ t < v) as [Es (v & Ev & Hv)].
  { unfold f, apply_delta, evaluate_ban. cbn [banned_until at_time t_ban]. rewrite Hu, decide_False by lia.
    cbn [score set_score_ban banned_until]. unfold ban_duration_for_score. cbn [score].
    unfold clamp, VALID_BLOCK_REWARD, MIN_SCORE, MAX_SCORE, DISCONNECT_THRESHOLD. split; [lia|].
    rewrite decide_False, decide_True by lia. eexists. split; [done|].
    unfold duration_hours, duration_seconds, NANOS, SHORT_BAN_DURATION_HOURS. lia. }
  unfold is_banned, get_score, is_banned_peer. cbn. rewrite lookup_insert_eq, Ev. split; [|done].
  by apply bool_decide_eq_true.
Qed.

Module Sample.
(** Three blocks in ten seconds with a limit of two, then one after the window. *)
Definition evs : list rate_event :=
  [Check 0 "p" "block"; Check (duration_seconds 5) "p" "block"; Check (duration_seconds 10) "p" "block"].

Lemma rate_limit_exact_witness :
  let '(l, admitted) := rate_run {[ "block" := 2%nat ]} evs in
  times_of ("p", "block") admitted = [0; duration_seconds 5]
  /\ (check_rate l (duration_seconds 61) "p" "block").2
     = bool_decide (within (duration_seconds 61 - WINDOW) (duration_seconds 61) (times_of ("p", "block") admitted) < 2)%nat.
Proof.
  pose proof (rate_limit_exact {[ "block" := 2%nat ]} evs "p" "block" (duration_seconds 61)) as W.
  assert (StronglySorted Z.le (event_time <$> evs)) as Hs.
  { repeat (apply StronglySorted_cons; split; [decide_now|]). constructor. }
  assert (Forall event_ok evs) as Ho by (repeat constructor).
  assert (forall e, e ∈ evs -> event_time e <= duration_seconds 61) as Ht.
  { apply Forall_forall. repeat (apply Forall_cons; split; [vm_compute; discriminate|]). constructor. }
  specialize (W Hs Ho Ht). destruct (rate_run {[ "block" := 2%nat ]} evs) as [l admitted] eqn:E.
  split; [|exact (proj2 W)]. change admitted with (l, admitted).2. rewrite <-E. vm_compute. reflexivity.
Defined.

(** Eight invalid blocks. *)
Definition bad : list (DateTime * rep_event * string) := replicate 8 (0, InvalidBlock, "p").

Lemma valid_block_renews_ban_witness :
  is_banned (rep_run new bad) (duration_hours 2) "p" = false
  /\ is_banned (record_valid_block (rep_run new (bad ++ [(0, InvalidBlock, "p")])) (at_time (duration_hours 2)) "p")
       (duration_hours 2) "p" = true.
Proof.
  split; [vm_compute; reflexivity|].
  destruct (peers (rep_run new (bad ++ [(0, InvalidBlock, "p")])) !! "p") as [r|] eqn:Er; [|by vm_compute in Er].
  assert (banned_until r = Some (duration_hours 1) /\ score r = -80) as [Hu Hs]
    by (vm_compute in Er; by injection Er as <-).
  refine (proj1 (proj2 (valid_block_renews_ban _ "p" r (duration_hours 1) (duration_hours 2) Er Hu _ _))).
  - vm_compute. discriminate.
  - rewrite Hs. unfold MIN_SCORE. lia.
Defined.
End Sample.
End Reputation.
