(* ===== verification/Gossip.v ===== *)
(** * gratia-network: gossip validation and admission

    [crates/gratia-network/src/gossip.rs]: the messages, their checks, the deduplication
    caches and the [GossipHandler]; and the handler of an incoming gossip message in the
    event loop of [crates/gratia-network/src/lib.rs], which puts the bans and rate limits of
    [Reputation] in front of it ([on_gossip]).

    [bincode], [VerifyingKey::verify_strict] and the [Display] of the errors of
    [ed25519-dalek] are the class [GossipLib].  The clock is an argument.

    Theorems: announcements and validator signatures that pass are signed by the node they
    name ([gossip_authentic]); a cache of [n] entries reports a message as a duplicate for
    the next [n - n/4] messages at least and never holds more than [n] ([dedup_remembers]);
    what an honest node publishes is accepted by a node that has not seen it
    ([gossip_roundtrip]).  Bans are served ([ban_is_served]).
    [forged_block_rewarded] and [victim_inherits_ban]: block
    signatures are not checked before a block is rewarded and its producer is linked to the
    sender, so that a sender can pass its own ban on to another node. *)

From stdpp Require Import base tactics strings gmap list sets sorting fin_maps pretty.
From Stdlib Require Import ZArith Lia.
From S2P Require Import Prelude CoreTypes ThirdParty Crypto Blocks ChainSync NetSync LuxStore Reputation.
Local Open Scope Z_scope.

Record NodeAnnouncement := mkNodeAnnouncement {
  ann_node_id : NodeId;
  vrf_pubkey_bytes : bytes;
  ann_presence_score : Z;
  pol_days : Z;
  ann_timestamp : DateTime;
  ed25519_pubkey : bytes;
  ann_signature : bytes;
  ann_height : Z
}.

Record ValidatorSignatureMessage := mkValidatorSignatureMessage {
  vm_block_hash : Hash;
  vm_height : Z;
  vm_signature : ValidatorSignature;
  validator_pubkey : bytes
}.

Record DeduplicationCache := mkCache {
  seen_set : gset bytes;
  seen_order : list bytes;
  max_entries : nat
}.

Record GossipHandler := mkGossipHandler {
  block_cache : DeduplicationCache;
  tx_cache : DeduplicationCache;
  attestation_cache : DeduplicationCache;
  announce_cache : DeduplicationCache;
  lux_cache : DeduplicationCache;
  sig_cache : DeduplicationCache
}.

Module Gossip.

Definition TOPIC_BLOCKS : string := "gratia/blocks/1".
Definition TOPIC_TRANSACTIONS : string := "gratia/transactions/1".
Definition TOPIC_ATTESTATIONS : string := "gratia/attestations/1".
Definition TOPIC_NODE_ANNOUNCE : string := "gratia/nodes/1".
Definition TOPIC_SYNC : string := "gratia/sync/1".
Definition TOPIC_LUX_POSTS : string := "gratia/lux/posts/1".
Definition TOPIC_VALIDATOR_SIGS : string := "gratia/validator-sigs/1".
Definition ALL_TOPICS : list string :=
  [TOPIC_BLOCKS; TOPIC_TRANSACTIONS; TOPIC_ATTESTATIONS; TOPIC_NODE_ANNOUNCE; TOPIC_SYNC;
   TOPIC_LUX_POSTS; TOPIC_VALIDATOR_SIGS].

Definition MAX_MESSAGE_SIZE : Z := 300 * 1024.

(** ** Deduplication *)

Definition new_cache (n : nat) : DeduplicationCache := mkCache ∅ [] n.

(** The loop that pops the oldest entries. *)
Fixpoint evict_oldest (n : nat) (set : gset bytes) (order : list bytes) : gset bytes * list bytes :=
  match n, order with
  | S n, old :: order => evict_oldest n (set ∖ {[old]}) order
  | S n, [] => evict_oldest n set []
  | O, _ => (set, order)
  end.

Definition check_and_insert (c : DeduplicationCache) (id : bytes) : DeduplicationCache * bool :=
  if decide (id ∈ seen_set c) then (c, false)
  else
    let (set, order) := if decide (max_entries c <= size (seen_set c))%nat
                        then evict_oldest (max_entries c / 4) (seen_set c) (seen_order c)
                        else (seen_set c, seen_order c) in
    (mkCache ({[id]} ∪ set) (order ++ [id]) (max_entries c), true).

Definition contains (c : DeduplicationCache) (id : bytes) : bool := bool_decide (id ∈ seen_set c).
Definition len (c : DeduplicationCache) : nat := size (seen_set c).
Definition is_empty (c : DeduplicationCache) : bool := bool_decide (seen_set c = ∅).
Definition clear (c : DeduplicationCache) : DeduplicationCache := mkCache ∅ [] (max_entries c).

Definition new_handler : GossipHandler :=
  mkGossipHandler (new_cache 1000) (new_cache (Z.to_nat 10000)) (new_cache (Z.to_nat 5000)) (new_cache 500)
    (new_cache (Z.to_nat 5000)) (new_cache (Z.to_nat 2000)).

(** ** Messages *)

Section messages.
Context `{!FloatLib, !HashLib, !Bincode}.

Inductive GossipMessage :=
| NewBlock (b : Block)
| NewTransaction (tx : Transaction)
| NewAttestation (att : ProofOfLifeAttestation)
| NodeAnnounced (ann : NodeAnnouncement)
| NewLuxPost (p : LuxPost)
| ValidatorSignatureMsg (m : ValidatorSignatureMessage).

Class GossipLib := {
  encode_gossip : GossipMessage -> result string bytes;
  decode_gossip : bytes -> result string GossipMessage;
  gossip_vk : Type;
  gossip_vk_from_bytes : bytes -> result string gossip_vk;
  verify_strict : gossip_vk -> bytes -> bytes -> result string unit
}.
Context `{!GossipLib}.

Definition topic (m : GossipMessage) : string :=
  match m with
  | NewBlock _ => TOPIC_BLOCKS
  | NewTransaction _ => TOPIC_TRANSACTIONS
  | NewAttestation _ => TOPIC_ATTESTATIONS
  | NodeAnnounced _ => TOPIC_NODE_ANNOUNCE
  | NewLuxPost _ => TOPIC_LUX_POSTS
  | ValidatorSignatureMsg _ => TOPIC_VALIDATOR_SIGS
  end.

Definition to_bytes (m : GossipMessage) : result NetworkError bytes :=
  match encode_gossip m with Ok b => Ok b | Err e => Err (NetSerialization e) end.
Definition from_bytes (data : bytes) : result NetworkError GossipMessage :=
  match decode_gossip data with Ok m => Ok m | Err e => Err (NetSerialization e) end.

Definition message_id (m : GossipMessage) : bytes :=
  match m with
  | NewBlock b =>
      str_bytes "block:" ++ match header_hash (bl_header b) with
                            | Ok h => h
                            | Err _ => be_bytes 8 (height (bl_header b))
                            end
  | NewTransaction tx => str_bytes "tx:" ++ tx_hash tx
  | NewAttestation att => str_bytes "att:" ++ nullifier att
  | NodeAnnounced ann => str_bytes "node:" ++ ann_node_id ann ++ be_bytes 8 (timestamp (ann_timestamp ann))
  | NewLuxPost p => str_bytes "lux:" ++ str_bytes (p_hash p)
  | ValidatorSignatureMsg m => str_bytes "vsig:" ++ vm_block_hash m ++ validator (vm_signature m)
  end.

Definition node_announcement_signing_payload (a : NodeAnnouncement) : bytes :=
  ann_node_id a ++ vrf_pubkey_bytes a ++ [ann_presence_score a] ++ be_bytes 8 (pol_days a)
    ++ be_bytes 8 (timestamp (ann_timestamp a)) ++ be_bytes 8 (ann_height a).

Definition verify_ed25519 (pubkey_bytes message sig_bytes : bytes) : result string unit :=
  match gossip_vk_from_bytes pubkey_bytes with
  | Err e => Err ("Invalid Ed25519 public key: " +:+ e)
  | Ok pubkey =>
      if decide (length sig_bytes <> 64%nat)
      then Err ("Invalid signature length: " +:+ pretty (length sig_bytes) +:+ " (expected 64)")
      else match verify_strict pubkey message sig_bytes with
           | Ok _ => Ok tt
           | Err e => Err ("Signature verification failed: " +:+ e)
           end
  end.

Definition node_id_from_pubkey (pubkey_bytes : bytes) : NodeId :=
  sha256 (str_bytes "gratia-node-id-v1:" ++ pubkey_bytes).

(** ** Checks *)

Definition invalid {A} (msg : string) : result NetworkError A := Err (NetInvalidMessage msg).

Definition check_block (b : Block) : result NetworkError unit :=
  if decide (10000 < Z.of_nat (length (transactions b))) then invalid "Block contains too many transactions"
  else if decide (height (bl_header b) > 0) then
    match find (fun vs => bool_decide (validator vs = producer (bl_header b))) (validator_signatures b) with
    | None => invalid "Block has no signature from its claimed producer"
    | Some vs =>
        if decide (length (vs_signature vs) <> 64%nat) then
          invalid ("Block producer signature length invalid: " +:+ pretty (length (vs_signature vs)) +:+ " (expected 64)")
        else Ok tt
    end
  else Ok tt.

Definition check_transaction (tx : Transaction) : result NetworkError unit :=
  if decide (tx_signature tx = []) then invalid "Transaction has empty signature"
  else if decide (length (tx_signature tx) <> 64%nat) then
    invalid ("Invalid signature length: " +:+ pretty (length (tx_signature tx)) +:+ " (expected 64)")
  else if decide (length (sender_pubkey tx) <> 32%nat) then
    invalid ("Invalid pubkey length: " +:+ pretty (length (sender_pubkey tx)) +:+ " (expected 32)")
  else Ok tt.

Definition check_attestation (a : ProofOfLifeAttestation) : result NetworkError unit :=
  if decide (zk_proof a = []) then invalid "Attestation has empty ZK proof"
  else if decide (att_presence_score a < 40 \/ 100 < att_presence_score a) then
    invalid ("Invalid presence score: " +:+ pretty (att_presence_score a) +:+ " (must be 40-100)")
  else Ok tt.

Definition check_announcement (now : DateTime) (a : NodeAnnouncement) : result NetworkError unit :=
  if decide (ann_presence_score a < 40 \/ 100 < ann_presence_score a) then
    invalid ("Invalid announcement presence score: " +:+ pretty (ann_presence_score a) +:+ " (must be 40-100)")
  else if decide (ann_signature a = []) then
    invalid "NodeAnnouncement has empty signature — unsigned announcements are rejected"
  else if decide (node_id_from_pubkey (ed25519_pubkey a) <> ann_node_id a) then
    invalid "NodeAnnouncement pubkey does not match node_id"
  else match verify_ed25519 (ed25519_pubkey a) (node_announcement_signing_payload a) (ann_signature a) with
       | Err e => invalid ("NodeAnnouncement signature invalid: " +:+ e)
       | Ok _ =>
           let age := now - ann_timestamp a in
           if decide (num_seconds age > 300) then
             invalid ("NodeAnnouncement timestamp too old: " +:+ pretty (num_seconds age) +:+ "s (max 300s)")
           else if decide (num_seconds age < -60) then
             invalid ("NodeAnnouncement timestamp in future: " +:+ pretty (- num_seconds age) +:+ "s")
           else Ok tt
       end.

Definition check_lux_post (p : LuxPost) : result NetworkError unit :=
  if decide (p_content p = "" /\ p_attachments p = []) then invalid "Lux post has no content and no attachments"
  else if decide (p_signature p = []) then invalid "Lux post has empty signature"
  else if decide (p_hash p = "") then invalid "Lux post has empty hash"
  else Ok tt.

Definition check_validator_signature (m : ValidatorSignatureMessage) : result NetworkError unit :=
  if decide (length (vs_signature (vm_signature m)) <> 64%nat) then
    invalid ("Invalid validator signature length: " +:+ pretty (length (vs_signature (vm_signature m)))
               +:+ " (expected 64)")
  else if decide (vm_block_hash m = replicate 32 0) then invalid "Validator signature has zero block hash"
  else if decide (validator_pubkey m = replicate 32 0) then
    invalid "ValidatorSignatureMsg has zero pubkey — unauthenticated signatures are rejected"
  else if decide (node_id_from_pubkey (validator_pubkey m) <> validator (vm_signature m)) then
    invalid "Validator pubkey does not match validator NodeId"
  else match verify_ed25519 (validator_pubkey m) (vm_block_hash m) (vs_signature (vm_signature m)) with
       | Err e => invalid ("Validator signature cryptographically invalid: " +:+ e)
       | Ok _ => Ok tt
       end.

Definition check_message (now : DateTime) (m : GossipMessage) : result NetworkError unit :=
  match m with
  | NewBlock b => check_block b
  | NewTransaction tx => check_transaction tx
  | NewAttestation a => check_attestation a
  | NodeAnnounced a => check_announcement now a
  | NewLuxPost p => check_lux_post p
  | ValidatorSignatureMsg m => check_validator_signature m
  end.

Definition validate_incoming_message (now : DateTime) (data : bytes) : result NetworkError GossipMessage :=
  if decide (MAX_MESSAGE_SIZE < Z.of_nat (length data)) then
    Err (NetMessageTooLarge (length data) (Z.to_nat MAX_MESSAGE_SIZE))
  else
    let?? m := from_bytes data in
    let?? _ := check_message now m in
    Ok m.

(** ** The handler *)

Definition cache_of (h : GossipHandler) (m : GossipMessage) : DeduplicationCache :=
  match m with
  | NewBlock _ => block_cache h
  | NewTransaction _ => tx_cache h
  | NewAttestation _ => attestation_cache h
  | NodeAnnounced _ => announce_cache h
  | NewLuxPost _ => lux_cache h
  | ValidatorSignatureMsg _ => sig_cache h
  end.

Definition set_cache (h : GossipHandler) (m : GossipMessage) (c : DeduplicationCache) : GossipHandler :=
  match m with
  | NewBlock _ => mkGossipHandler c (tx_cache h) (attestation_cache h) (announce_cache h) (lux_cache h) (sig_cache h)
  | NewTransaction _ => mkGossipHandler (block_cache h) c (attestation_cache h) (announce_cache h) (lux_cache h) (sig_cache h)
  | NewAttestation _ => mkGossipHandler (block_cache h) (tx_cache h) c (announce_cache h) (lux_cache h) (sig_cache h)
  | NodeAnnounced _ => mkGossipHandler (block_cache h) (tx_cache h) (attestation_cache h) c (lux_cache h) (sig_cache h)
  | NewLuxPost _ => mkGossipHandler (block_cache h) (tx_cache h) (attestation_cache h) (announce_cache h) c (sig_cache h)
  | ValidatorSignatureMsg _ =>
      mkGossipHandler (block_cache h) (tx_cache h) (attestation_cache h) (announce_cache h) (lux_cache h) c
  end.

Definition process_incoming (h : GossipHandler) (now : DateTime) (t : string) (data : bytes)
  : GossipHandler * result NetworkError (option GossipMessage) :=
  let? m := validate_incoming_message now data at h in
  if decide (topic m <> t) then
    (h, invalid ("Message type does not match topic: expected '" +:+ topic m +:+ "', received on '" +:+ t +:+ "'"))
  else
    let (c, is_new) := check_and_insert (cache_of h m) (message_id m) in
    (set_cache h m c, Ok (if is_new then Some m else None)).

(** [prepare_block] and its five siblings. *)
Definition prepare (m : GossipMessage) : result NetworkError (string * bytes) :=
  let?? data := to_bytes m in
  if decide (MAX_MESSAGE_SIZE < Z.of_nat (length data)) then
    Err (NetMessageTooLarge (length data) (Z.to_nat MAX_MESSAGE_SIZE))
  else Ok (topic m, data).

(** ** Admission in the event loop *)

Record GossipState := mkGossipState {
  rate_limiter : RateLimiter;
  reputation_mgr : ReputationManager;
  gossip_handler : GossipHandler
}.

Definition rate_action (t : string) : string :=
  if decide (t = TOPIC_BLOCKS) then "block"
  else if decide (t = TOPIC_TRANSACTIONS) then "tx"
  else if decide (t = TOPIC_NODE_ANNOUNCE) then "announce"
  else if decide (t = TOPIC_VALIDATOR_SIGS) then "validator_sig"
  else "message".

(** The [Display] of a node id. *)
Definition show_node (n : NodeId) : string := hex_encode n.

(** The effect of an accepted message on the reputation of its sender. *)
Definition reward (m : ReputationManager) (c : readings) (peer : string) (msg : GossipMessage) : ReputationManager :=
  if decide (peer = "") then m
  else match msg with
       | NewBlock b =>
           Reputation.record_valid_block
             (Reputation.link_node_id m c (show_node (producer (bl_header b))) peer) c peer
       | NewTransaction _ => Reputation.record_valid_tx m c peer
       | NodeAnnounced a => Reputation.link_node_id m c (show_node (ann_node_id a)) peer
       | ValidatorSignatureMsg s => Reputation.link_node_id m c (show_node (validator (vm_signature s))) peer
       | NewAttestation _ | NewLuxPost _ => m
       end.

(** A gossip message on a topic other than the sync topic; the result is the message passed
    on to the application. *)
Definition on_gossip (s : GossipState) (c : readings) (source : option string) (t : string) (data : bytes)
  : GossipState * option GossipMessage :=
  match source with
  | None => (s, None)
  | Some peer =>
      if Reputation.is_banned (reputation_mgr s) (t_act c) peer then (s, None)
      else
        let (rl, ok) := Reputation.check_rate (rate_limiter s) (t_act c) peer (rate_action t) in
        if negb ok then
          let r := if decide (rate_action t = "message") then Reputation.record_spam (reputation_mgr s) c peer
                   else Reputation.record_rate_limited (reputation_mgr s) c peer in
          (mkGossipState rl r (gossip_handler s), None)
        else
          match process_incoming (gossip_handler s) (t_act c) t data with
          | (h, Ok (Some msg)) => (mkGossipState rl (reward (reputation_mgr s) c peer msg) h, Some msg)
          | (h, Ok None) => (mkGossipState rl (reputation_mgr s) h, None)
          | (h, Err _) =>
              let r := if decide (peer <> "" /\ t = TOPIC_BLOCKS)
                       then Reputation.record_invalid_block (reputation_mgr s) c peer else reputation_mgr s in
              (mkGossipState rl r h, None)
          end
  end.

(** ** Deduplication *)

Definition cache_ok (c : DeduplicationCache) : Prop :=
  seen_set c = list_to_set (seen_order c) /\ NoDup (seen_order c) /\ (length (seen_order c) <= max_entries c)%nat.

Lemma evict_oldest_eq n (l : list bytes) :
  NoDup l -> evict_oldest n (list_to_set l) l = (list_to_set (drop n l), drop n l).
Proof.
  revert l. induction n as [|n IH]; intros [|x l] Hn; cbn [evict_oldest drop]; [done..| |].
  - change (list_to_set []) with (list_to_set (C := gset bytes) ([] : list bytes)).
    rewrite (IH []) by constructor. by destruct n.
  - apply NoDup_cons in Hn as [Hx Hn].
    assert (list_to_set (x :: l) ∖ {[x]} = (list_to_set l : gset bytes)) as ->
      by (apply set_eq; intros y; set_solver).
    by apply IH.
Qed.

Lemma cache_size c : cache_ok c -> size (seen_set c) = length (seen_order c).
Proof. intros (Hs & Hn & _). rewrite Hs. by apply size_list_to_set. Qed.

Lemma check_and_insert_spec c id :
  cache_ok c -> (4 <= max_entries c)%nat ->
  let (c', is_new) := check_and_insert c id in
  cache_ok c' /\ max_entries c' = max_entries c /\ is_new = bool_decide (id ∉ seen_order c)
  /\ seen_order c' = if bool_decide (id ∈ seen_order c) then seen_order c
                     else drop (if decide (max_entries c <= length (seen_order c))%nat then max_entries c / 4 else 0)
                            (seen_order c) ++ [id].
Proof.
  intros Hc Hm. pose proof (cache_size c Hc) as Hsz. destruct Hc as (Hs & Hn & Hl). unfold check_and_insert.
  rewrite Hs in Hsz |- *. case_decide as Hin; rewrite elem_of_list_to_set in Hin.
  { rewrite bool_decide_false, bool_decide_true by tauto. done. }
  rewrite (bool_decide_false _ Hin), (bool_decide_true _ Hin), Hsz.
  assert (max_entries c / 4 <= max_entries c /\ 1 <= max_entries c / 4)%nat as [H4 H4'].
  { split; [apply Nat.Div0.div_le_upper_bound; lia|apply Nat.div_le_lower_bound; lia]. }
  assert (forall k, NoDup (drop k (seen_order c) ++ [id])) as Hnd.
  { intros k. apply NoDup_app. split; [by eapply sublist_NoDup, sublist_drop|]. split; [|apply NoDup_singleton].
    intros x Hx ->%list_elem_of_singleton. apply Hin. by eapply subseteq_drop. }
  case_decide as Hfull.
  - rewrite evict_oldest_eq by done. split; [|done]. split_and!; cbn [seen_set seen_order max_entries].
    + apply set_eq. intros x. set_solver.
    + apply Hnd.
    + rewrite length_app, length_drop. cbn [length]. lia.
  - split; [|done]. split_and!; cbn [seen_set seen_order max_entries].
    + apply set_eq. intros x. set_solver.
    + apply (Hnd 0%nat).
    + rewrite length_app. cbn [length]. lia.
Qed.

Definition insert_all (c : DeduplicationCache) (ids : list bytes) : DeduplicationCache :=
  foldl (fun c id => (check_and_insert c id).1) c ids.

Lemma insert_all_ok c ids :
  cache_ok c -> (4 <= max_entries c)%nat -> cache_ok (insert_all c ids) /\ max_entries (insert_all c ids) = max_entries c.
Proof.
  revert c. induction ids as [|id ids IH]; intros c Hc Hm; [done|].
  change (insert_all c (id :: ids)) with (insert_all (check_and_insert c id).1 ids).
  pose proof (check_and_insert_spec c id Hc Hm) as Hs. destruct (check_and_insert c id) as [c' b].
  destruct Hs as (Hc' & Hm' & _). cbn [fst]. destruct (IH c' Hc') as [Ha Hb]; [lia|]. split; [done|congruence].
Qed.

(** An entry with fewer than [n - n/4] younger ones survives an insertion. *)
Lemma young_entry_stays c id x older younger :
  cache_ok c -> (4 <= max_entries c)%nat -> seen_order c = older ++ id :: younger ->
  (length younger + max_entries c / 4 < max_entries c)%nat ->
  exists older' younger', seen_order (check_and_insert c x).1 = older' ++ id :: younger'
    /\ (length younger' <= S (length younger))%nat.
Proof.
  intros Hc Hm Ho Hy. pose proof (check_and_insert_spec c x Hc Hm) as Hs.
  destruct (check_and_insert c x) as [c' b]. destruct Hs as (_ & _ & _ & E). cbn [fst].
  case_bool_decide; [exists older, younger; split; [congruence|lia]|].
  rewrite E, Ho. clear E. case_decide as Hfull.
  - destruct Hc as (_ & _ & Hl). rewrite Ho in Hl. rewrite length_app in Hl, Hfull. cbn [length] in Hl, Hfull.
    rewrite drop_app_le by lia. eexists _, (younger ++ [x]). rewrite <-app_assoc. split; [done|].
    rewrite length_app. cbn [length]. lia.
  - rewrite drop_0. exists older, (younger ++ [x]). rewrite <-app_assoc. split; [done|]. rewrite length_app. cbn [length]. lia.
Qed.

Lemma young_entry_remembered c id ids older younger :
  cache_ok c -> (4 <= max_entries c)%nat -> seen_order c = older ++ id :: younger ->
  (length younger + length ids + max_entries c / 4 <= max_entries c)%nat ->
  id ∈ seen_order (insert_all c ids).
Proof.
  revert c older younger. induction ids as [|x ids IH]; intros c older younger Hc Hm Ho Hy.
  { cbn. rewrite Ho. set_solver. }
  cbn [length] in Hy. destruct (young_entry_stays c id x older younger Hc Hm Ho) as (o & y & E & Hl); [lia|].
  pose proof (check_and_insert_spec c x Hc Hm) as Hs.
  change (insert_all c (x :: ids)) with (insert_all (check_and_insert c x).1 ids).
  destruct (check_and_insert c x) as [c' b]. destruct Hs as (Hc' & Hm' & _). cbn [fst] in *.
  apply (IH c' o y); [done|lia|done|rewrite Hm'; lia].
Qed.

(** A deduplication cache of [n >= 4] entries, after any messages: it holds at most [n]
    identifiers; and when a new identifier is followed by at most [n - n/4] others, new or
    not, delivering it again is still reported as a duplicate and changes nothing. *)
Theorem dedup_remembers n before id after :
  (4 <= n)%nat -> (length after <= n - n / 4)%nat ->
  let c := insert_all (new_cache n) before in
  (check_and_insert c id).2 = true ->
  let c' := insert_all (check_and_insert c id).1 after in
  (len c' <= n)%nat /\ check_and_insert c' id = (c', false).
Proof.
  intros Hn Ha. cbv zeta. set (c := insert_all (new_cache n) before). intros Hnew.
  assert (cache_ok (new_cache n)) as Hok0 by (split_and!; [done|constructor|cbn; lia]).
  destruct (insert_all_ok (new_cache n) before Hok0 Hn) as [Hc Hm]. fold c in Hc, Hm. cbn [max_entries new_cache] in Hm.
  pose proof (check_and_insert_spec c id Hc ltac:(lia)) as Hs. destruct (check_and_insert c id) as [c1 b].
  destruct Hs as (Hc1 & Hm1 & Hb & E). cbn [fst snd] in *. rewrite Hb in Hnew. apply bool_decide_eq_true in Hnew.
  rewrite bool_decide_false in E by done. set (k := if decide _ then _ else _) in E.
  destruct (insert_all_ok c1 after Hc1 ltac:(lia)) as [Hc' Hm'].
  assert (n / 4 <= n)%nat by (apply Nat.Div0.div_le_upper_bound; lia).
  assert (id ∈ seen_order (insert_all c1 after)) as Hin.
  { apply (young_entry_remembered c1 id after (drop k (seen_order c)) []); [done|lia|done|].
    rewrite Hm1, Hm. cbn [length]. lia. }
  split.
  - unfold len. rewrite cache_size by done. destruct Hc' as (_ & _ & Hl). lia.
  - unfold check_and_insert. rewrite decide_True; [done|]. destruct Hc' as (-> & _). by apply elem_of_list_to_set.
Qed.

(** ** Accepted messages *)

Definition signed_by (pubkey message sig : bytes) (node : NodeId) : Prop :=
  node = node_id_from_pubkey pubkey /\ length sig = 64%nat
  /\ exists vk, gossip_vk_from_bytes pubkey = Ok vk /\ verify_strict vk message sig = Ok tt.

Lemma verify_ed25519_ok pk m sg :
  verify_ed25519 pk m sg = Ok tt ->
  length sg = 64%nat /\ exists vk, gossip_vk_from_bytes pk = Ok vk /\ verify_strict vk m sg = Ok tt.
Proof.
  unfold verify_ed25519. destruct (gossip_vk_from_bytes pk) as [vk|]; [|done]. case_decide as Hl; [done|].
  destruct (verify_strict vk m sg) as [[]|] eqn:E; [|done]. intros _. split; [lia|eauto].
Qed.

Lemma process_incoming_accepts h now t data h' m :
  process_incoming h now t data = (h', Ok (Some m)) ->
  Z.of_nat (length data) <= MAX_MESSAGE_SIZE /\ decode_gossip data = Ok m /\ check_message now m = Ok tt /\ topic m = t
  /\ contains (cache_of h m) (message_id m) = false.
Proof.
  unfold process_incoming, validate_incoming_message, from_bytes. case_decide as Hsz; [done|].
  destruct (decode_gossip data) as [m'|] eqn:Ed; [|done].
  destruct (check_message now m') as [[]|] eqn:Ec; [|done]. case_decide as Ht; [done|].
  unfold check_and_insert. case_decide as Hin; [done|].
  destruct (if decide _ then _ else _) as [st od]. intros [= _ <-].
  split_and!; [lia|done|done|done|by apply bool_decide_eq_false].
Qed.

(** C36: What the gossip layer lets through is authentic where it is signed: an accepted
    node announcement carries a public key that hashes to the node it names and a strictly
    verified signature of that key over node, VRF key, score, days, time and height; its
    score is between 40 and 100 and its time at most five minutes old and one minute ahead
    (in whole seconds).  An accepted validator signature verifies over its block hash under
    a key that hashes to the validator.  Every accepted message arrived on its own topic and
    is at most 300 KiB. *)
Theorem gossip_authentic h now t data h' m :
  process_incoming h now t data = (h', Ok (Some m)) ->
  topic m = t /\ Z.of_nat (length data) <= MAX_MESSAGE_SIZE
  /\ match m with
     | NodeAnnounced a =>
         signed_by (ed25519_pubkey a) (node_announcement_signing_payload a) (ann_signature a) (ann_node_id a)
         /\ 40 <= ann_presence_score a <= 100 /\ -60 <= num_seconds (now - ann_timestamp a) <= 300
     | ValidatorSignatureMsg v =>
         signed_by (validator_pubkey v) (vm_block_hash v) (vs_signature (vm_signature v)) (validator (vm_signature v))
     | _ => True
     end.
Proof.
  intros (Hsz & _ & Hc & Ht & _)%process_incoming_accepts. split_and!; [done..|].
  destruct m as [|?|?|ann| |v]; try done; cbn in Hc.
  - unfold check_announcement in Hc. case_decide as Hs; [done|]. case_decide; [done|]. case_decide as Hid; [done|].
    destruct (verify_ed25519 _ _ _) as [[]|] eqn:Ev; [|done]. cbv zeta in Hc.
    case_decide; [done|]. case_decide; [done|]. apply verify_ed25519_ok in Ev as [Hl Hv].
    split; [by split; [symmetry|]|]. lia.
  - unfold check_validator_signature in Hc. case_decide as Hl; [done|]. case_decide; [done|]. case_decide; [done|].
    case_decide as Hid; [done|]. destruct (verify_ed25519 _ _ _) as [[]|] eqn:Ev; [|done].
    apply verify_ed25519_ok in Ev. by split; [symmetry|].
Qed.

Lemma set_cache_eq h m c : cache_of (set_cache h m c) m = c.
Proof. by destruct m. Qed.

Lemma process_incoming_eq h now t data m :
  Z.of_nat (length data) <= MAX_MESSAGE_SIZE -> decode_gossip data = Ok m -> check_message now m = Ok tt -> topic m = t ->
  process_incoming h now t data
  = (set_cache h m (check_and_insert (cache_of h m) (message_id m)).1,
     Ok (if contains (cache_of h m) (message_id m) then None else Some m)).
Proof.
  intros Hsz Hd Hc Ht. unfold process_incoming, validate_incoming_message, from_bytes.
  rewrite decide_False, Hd, Hc by lia. rewrite decide_False by (rewrite Ht; tauto).
  unfold contains. destruct (check_and_insert (cache_of h m) (message_id m)) as [c b] eqn:E.
  unfold check_and_insert in E. case_decide as Hin.
  - injection E as <- <-. by rewrite bool_decide_true.
  - rewrite bool_decide_false by done. destruct (if decide _ then _ else _). by injection E as <- <-.
Qed.

(** Publishing and receiving fit together: the bytes that [prepare] hands to gossipsub
    are accepted by every node that passes the checks and has not seen the message, exactly
    once: delivered again at once they are a duplicate. *)
Theorem gossip_roundtrip h now m t data :
  prepare m = Ok (t, data) -> decode_gossip data = Ok m -> check_message now m = Ok tt ->
  contains (cache_of h m) (message_id m) = false ->
  let (h', r) := process_incoming h now t data in
  r = Ok (Some m) /\ exists h'', process_incoming h' now t data = (h'', Ok None).
Proof.
  intros Hp Hd Hc Hn. unfold prepare, to_bytes in Hp. destruct (encode_gossip m) as [d|]; [|done].
  case_decide as Hsz; [done|]. injection Hp as <- ->.
  rewrite (process_incoming_eq h now (topic m) data m) by (done || lia). rewrite Hn. split; [done|].
  set (h' := set_cache _ _ _). exists (set_cache h' m (check_and_insert (cache_of h' m) (message_id m)).1).
  rewrite (process_incoming_eq h' now (topic m) data m) by (done || lia).
  assert (contains (cache_of h' m) (message_id m) = true) as ->; [|done].
  unfold h'. rewrite set_cache_eq. unfold contains in *. apply bool_decide_eq_false in Hn. apply bool_decide_eq_true.
  unfold check_and_insert. rewrite decide_False by done. destruct (if decide _ then _ else _). cbn. set_solver.
Qed.

(** ** Unchecked block producers *)

Lemma rate_action_topics :
  rate_action TOPIC_BLOCKS = "block" /\ rate_action TOPIC_NODE_ANNOUNCE = "announce".
Proof. vm_compute. done. Qed.

Lemma link_node_id_linked m c node p : node_to_peer (Reputation.link_node_id m c node p) !! node = Some p.
Proof. unfold Reputation.link_node_id. cbn. by rewrite lookup_insert_eq. Qed.

Lemma update_node_to_peer m c p f : node_to_peer (Reputation.update m c p f) = node_to_peer m.
Proof. unfold Reputation.update, Reputation.entry. cbn. by case_decide. Qed.

(** A block that nobody signed is passed on and rewarded: for every node id, a sender
    that is neither banned nor over its limit can send a block naming that node as the
    producer, with any 64 bytes as its signature.  The block reaches the application, and
    the named node is linked to the sender. *)
Theorem forged_block_rewarded s c peer b data junk rest :
  peer <> "" -> Reputation.is_banned (reputation_mgr s) (t_act c) peer = false ->
  (Reputation.check_rate (rate_limiter s) (t_act c) peer "block").2 = true ->
  length junk = 64%nat -> validator_signatures b = mkValidatorSignature (producer (bl_header b)) junk :: rest ->
  Z.of_nat (length (transactions b)) <= 10000 ->
  decode_gossip data = Ok (NewBlock b) -> Z.of_nat (length data) <= MAX_MESSAGE_SIZE ->
  contains (block_cache (gossip_handler s)) (message_id (NewBlock b)) = false ->
  let (s', out) := on_gossip s c (Some peer) TOPIC_BLOCKS data in
  out = Some (NewBlock b)
  /\ node_to_peer (reputation_mgr s') !! show_node (producer (bl_header b)) = Some peer
  /\ exists m, reputation_mgr s' = Reputation.record_valid_block m c peer.
Proof.
  intros Hp Hban Hrate Hj Hsig Htx Hd Hsz Hnew. unfold on_gossip. rewrite Hban.
  rewrite (proj1 rate_action_topics).
  destruct (Reputation.check_rate _ _ _ _) as [rl ok]. cbn in Hrate. subst ok. cbn [negb].
  assert (check_message (t_act c) (NewBlock b) = Ok tt) as Hc.
  { cbn. unfold check_block. rewrite decide_False by lia. case_decide; [|done]. rewrite Hsig. cbn [find validator].
    rewrite bool_decide_true by done. cbn [vs_signature]. by rewrite decide_False by lia. }
  rewrite (process_incoming_eq _ (t_act c) TOPIC_BLOCKS data (NewBlock b)) by done. cbn [cache_of]. rewrite Hnew.
  cbn [reputation_mgr]. unfold reward. rewrite decide_False by done. split_and!; [done| |eauto].
  unfold Reputation.record_valid_block. rewrite update_node_to_peer. apply link_node_id_linked.
Qed.

(** C37: The ban of a sender passes to the node it named: let a node id be linked to a peer
    whose ban ends at [u].  When the real node, on its own unbanned peer id with a better
    score, sends an authentic announcement, the announcement is accepted and the node is
    banned until [u]. *)
Theorem victim_inherits_ban s c ann data attacker victim old u :
  victim <> "" -> attacker <> victim ->
  node_to_peer (reputation_mgr s) !! show_node (ann_node_id ann) = Some attacker ->
  peers (reputation_mgr s) !! attacker = Some old -> banned_until old = Some u -> score old < 100 ->
  (forall r, peers (reputation_mgr s) !! victim = Some r -> score old < score r) ->
  Reputation.is_banned (reputation_mgr s) (t_act c) victim = false ->
  (Reputation.check_rate (rate_limiter s) (t_act c) victim "announce").2 = true ->
  decode_gossip data = Ok (NodeAnnounced ann) -> Z.of_nat (length data) <= MAX_MESSAGE_SIZE ->
  check_announcement (t_act c) ann = Ok tt ->
  contains (announce_cache (gossip_handler s)) (message_id (NodeAnnounced ann)) = false ->
  let (s', out) := on_gossip s c (Some victim) TOPIC_NODE_ANNOUNCE data in
  out = Some (NodeAnnounced ann)
  /\ forall t, t < u -> Reputation.is_banned (reputation_mgr s') t victim = true.
Proof.
  intros Hv Hav Hlink Hold Hu Hsc Hbetter Hban Hrate Hd Hsz Hc Hnew. unfold on_gossip. rewrite Hban.
  rewrite (proj2 rate_action_topics).
  destruct (Reputation.check_rate _ _ _ _) as [rl ok]. cbn in Hrate. subst ok. cbn [negb].
  rewrite (process_incoming_eq _ (t_act c) TOPIC_NODE_ANNOUNCE data (NodeAnnounced ann)) by done.
  cbn [cache_of]. rewrite Hnew. cbn [reputation_mgr]. unfold reward. rewrite decide_False by done. split; [done|].
  intros t Ht. unfold Reputation.link_node_id.
  assert (Reputation.transferred (reputation_mgr s) (show_node (ann_node_id ann)) victim = Some old) as ->.
  { unfold Reputation.transferred. rewrite Hlink, decide_False, Hold by done.
    by rewrite decide_True by (unfold Reputation.DEFAULT_SCORE; lia). }
  unfold Reputation.is_banned, Reputation.is_banned_peer. cbn [peers]. unfold Reputation.update, Reputation.entry.
  cbn [peers]. rewrite lookup_insert_eq. set (r := default (Reputation.new_peer (t_new c)) _).
  assert (score old < score r) as Hlt.
  { unfold r. case_decide as Hev.
    - destruct Hev as [_ Hnone]. cbn. assert (filter _ (peers (reputation_mgr s)) !! victim = None) as ->
        by (apply map_lookup_filter_None; by left). cbn. unfold Reputation.DEFAULT_SCORE. lia.
    - destruct (peers (reputation_mgr s) !! victim) as [x|] eqn:Ex; cbn; [by apply Hbetter|].
      unfold Reputation.DEFAULT_SCORE. lia. }
  rewrite decide_True by done. cbn. rewrite Hu. by apply bool_decide_eq_true.
Qed.
(** ** Bans in the event loop *)

(** A gossip message as the loop receives it. *)
Record incoming := mkIncoming {
  msg_time : DateTime;
  msg_source : option string;
  msg_topic : string;
  msg_data : bytes
}.

Definition gossip_step (s : GossipState) (m : incoming) : GossipState :=
  (on_gossip s (at_time (msg_time m)) (msg_source m) (msg_topic m) (msg_data m)).1.

Definition gossip_run (s : GossipState) (l : list incoming) : GossipState := foldl gossip_step s l.

(** What a message does to the reputations: events of its sender, none if it is banned. *)
Lemma on_gossip_events s t source tp data :
  exists l, reputation_mgr (on_gossip s (at_time t) source tp data).1
    = match source with
      | Some p => Reputation.rep_run (reputation_mgr s) ((fun e => (t, e, p)) <$> l)
      | None => reputation_mgr s
      end
    /\ (forall p, source = Some p -> Reputation.is_banned (reputation_mgr s) t p = true -> l = []).
Proof.
  unfold on_gossip. destruct source as [p|]; [|by exists []]. cbn [t_act at_time].
  destruct (Reputation.is_banned (reputation_mgr s) t p) eqn:Eb; [by exists []|].
  assert (forall l : list Reputation.rep_event, forall q, Some p = Some q ->
    Reputation.is_banned (reputation_mgr s) t q = true -> l = []) as Hb by (intros l q [= <-]; congruence).
  destruct (Reputation.check_rate _ _ _ _) as [rl []]; cbn [negb fst].
  2:{ case_decide; [exists [Reputation.SpamMessage]|exists [Reputation.RateLimited]]; (split; [done|apply Hb]). }
  destruct (process_incoming _ _ _ _) as [h [[msg|]|err]]; cbn [reputation_mgr fst].
  - unfold reward. case_decide; [exists []; (split; [done|apply Hb])|].
    destruct msg as [b|tx|att|ann|post|sg];
      [exists [Reputation.Link (show_node (producer (bl_header b))); Reputation.ValidBlock]
      |exists [Reputation.ValidTx]|exists []|exists [Reputation.Link (show_node (ann_node_id ann))]
      |exists []|exists [Reputation.Link (show_node (validator (vm_signature sg)))]]; (split; [done|apply Hb]).
  - exists []; (split; [done|apply Hb]).
  - case_decide; [exists [Reputation.InvalidBlock]|exists []]; (split; [done|apply Hb]).
Qed.

Lemma gossip_step_ok now s m :
  now <= msg_time m -> Reputation.manager_ok now (reputation_mgr s) ->
  Reputation.manager_ok (msg_time m) (reputation_mgr (gossip_step s m))
  /\ forall p r u, peers (reputation_mgr s) !! p = Some r -> banned_until r = Some u ->
       msg_time m < u -> msg_time m < last_activity r + duration_hours 24 ->
       peers (reputation_mgr (gossip_step s m)) !! p = Some r.
Proof.
  intros Hn Hm. unfold gossip_step. set (t := msg_time m) in *.
  assert (Reputation.manager_ok t (reputation_mgr s)) as Hmt.
  { intros q x Hq. eapply Reputation.peer_ok_later; [exact Hn|]. by apply (Hm q). }
  destruct (on_gossip_events s t (msg_source m) (msg_topic m) (msg_data m)) as (l & -> & Hl).
  destruct (msg_source m) as [q|]; [|by split].
  destruct (Reputation.rep_run_ok t (reputation_mgr s) q l Hmt) as [Hok Hk]. split; [done|].
  intros p r u Hp Hu Htu Hta. destruct (decide (p = q)) as [->|Hne]; [|by apply Hk].
  rewrite (Hl q eq_refl); [done|]. unfold Reputation.is_banned, Reputation.is_banned_peer.
  rewrite Hp, Hu. by apply bool_decide_eq_true.
Qed.

Lemma gossip_run_ok l t0 s :
  StronglySorted Z.le (t0 :: (msg_time <$> l)) -> Reputation.manager_ok t0 (reputation_mgr s) ->
  Reputation.manager_ok (default t0 (last (msg_time <$> l))) (reputation_mgr (gossip_run s l))
  /\ forall p r u, peers (reputation_mgr s) !! p = Some r -> banned_until r = Some u ->
       Forall (fun m => msg_time m < u /\ msg_time m < last_activity r + duration_hours 24) l ->
       peers (reputation_mgr (gossip_run s l)) !! p = Some r.
Proof.
  revert t0 s. induction l as [|m l IH]; intros t0 s Hs Hm; [done|].
  apply StronglySorted_cons in Hs as [Ht Hs]. cbn in Ht. apply Forall_cons in Ht as [Ht _].
  destruct (gossip_step_ok t0 s m Ht Hm) as [Hm' Hk].
  destruct (IH (msg_time m) _ Hs Hm') as [Hend Hrest]. split.
  - change (gossip_run s (m :: l)) with (gossip_run (gossip_step s m) l).
    rewrite fmap_cons, last_cons. by destruct (last (msg_time <$> l)).
  - intros p r u Hp Hu Hl. apply Forall_cons in Hl as [[Htu Hta] Hl].
    apply (Hrest p r u); [|done..]. by apply (Hk p r u).
Qed.

Lemma default_last_in (x : DateTime) l : default x (last l) ∈ x :: l.
Proof.
  destruct (last l) as [y|] eqn:E.
  - apply last_Some in E as [k ->]. right. apply elem_of_app. right. by apply list_elem_of_singleton.
  - left.
Qed.

(** C35: Bans are served.  Take any history of gossip messages, from any peers, on any topic,
    valid or not, with a clock that does not run backwards, and a peer that is banned until
    [u] at its end.  Whatever messages follow before [u] and within a day of the last
    activity of the peer, its own included, links of node ids and evictions of other peers
    included, its record does not change and it is banned at every time before [u].  No ban
    lasts longer than a day from the last message, so a ban given with a fresh activity is
    served in full; only a ban inherited through an announcement or a validator signature
    does not refresh the activity.  Even a call of the manager that records an event of the
    banned peer does not shorten the ban, and all scores lie between -100 and 1000. *)
Theorem ban_is_served lim h t0 l l' p r u :
  let run := gossip_run (mkGossipState lim Reputation.new h) in
  StronglySorted Z.le (t0 :: (msg_time <$> (l ++ l'))) ->
  peers (reputation_mgr (run l)) !! p = Some r -> banned_until r = Some u ->
  Forall (fun m => msg_time m < u /\ msg_time m < last_activity r + duration_hours 24) l' ->
  let m := reputation_mgr (run (l ++ l')) in
  peers m !! p = Some r
  /\ (forall t, t < u -> Reputation.is_banned m t p = true)
  /\ u <= default t0 (last (msg_time <$> l)) + duration_hours 24
  /\ (forall t e, default t0 (last (msg_time <$> (l ++ l'))) <= t < u ->
        (forall node, e <> Reputation.Link node) ->
        exists r' u', peers (Reputation.record_rep m (at_time t) e p) !! p = Some r'
          /\ banned_until r' = Some u' /\ u <= u')
  /\ (forall q, Reputation.MIN_SCORE <= Reputation.get_score m q <= Reputation.MAX_SCORE).
Proof.
  intros run Hs Hp Hu Hl' m. set (s0 := mkGossipState lim Reputation.new h) in *.
  assert (Reputation.manager_ok t0 (reputation_mgr s0)) as Hnew by (intros q x; cbn; by rewrite lookup_empty).
  destruct (gossip_run_ok (l ++ l') t0 s0 Hs Hnew) as [Hok _].
  rewrite fmap_app, app_comm_cons in Hs. apply StronglySorted_app in Hs as (Hc & Hs1 & Hs2).
  destruct (gossip_run_ok l t0 s0 Hs1 Hnew) as [Hm _].
  destruct (gossip_run_ok l' (default t0 (last (msg_time <$> l))) (run l)) as [_ Hk]; [|exact Hm|].
  { constructor; [done|]. apply Forall_forall. intros x Hx. apply Hc; [|done]. apply default_last_in. }
  assert (peers m !! p = Some r) as Hmp.
  { unfold m, run, gossip_run. rewrite foldl_app. by apply (Hk p r u). }
  split_and!.
  - done.
  - intros t Ht. unfold Reputation.is_banned, Reputation.is_banned_peer. rewrite Hmp, Hu. by apply bool_decide_eq_true.
  - by apply (Hm p r Hp).
  - intros t e [Ht Htu] Hl. eapply Reputation.record_keeps_ban; [|done..].
    intros q x Hq. eapply Reputation.peer_ok_later; [exact Ht|]. by apply (Hok q).
  - intros q. unfold Reputation.get_score. destruct (peers m !! q) as [x|] eqn:Eq; [by apply (Hok q)|].
    unfold Reputation.MIN_SCORE, Reputation.MAX_SCORE, Reputation.DEFAULT_SCORE. lia.
Qed.
End messages.

(** ** A concrete run *)

Module Sample.
#[local] Instance float : FloatLib := reference_float.
#[local] Instance hash : HashLib := {|
  sha256 := fun b => b;
  hex_encode := fun b => String.string_of_list_ascii (map (fun z => Ascii.ascii_of_N (Z.to_N z)) b)
|}.
#[local] Instance bin : Bincode := {|
  encode_header := fun h => Ok [height h]; encode_payload := fun _ => Ok []; encode_attestation := fun _ => Ok [];
  encode_block := fun _ => Ok []
|}.

Definition victim_key : bytes := [5].
Definition victim_node : NodeId := node_id_from_pubkey victim_key.
Definition junk : bytes := replicate 64 0.
Definition forged : Block :=
  mkBlock (mkBlockHeader 1 0 [] [] [] [] victim_node [] 0 0 []) [] [] [mkValidatorSignature victim_node junk].
Definition announcement : NodeAnnouncement :=
  mkNodeAnnouncement victim_node [] 70 30 0 victim_key (replicate 64 1) 0.

(** Two messages and their encodings; every other byte string is malformed. *)
#[local] Instance lib : GossipLib := {|
  encode_gossip := fun m => match m with NewBlock _ => Ok [1] | NodeAnnounced _ => Ok [2] | _ => Err "none" end;
  decode_gossip := fun b => if decide (b = [1]) then Ok (NewBlock forged)
                            else if decide (b = [2]) then Ok (NodeAnnounced announcement) else Err "malformed";
  gossip_vk := bytes;
  gossip_vk_from_bytes := Ok;
  verify_strict := fun vk m s => if decide (s = replicate 64 1) then Ok tt else Err "bad signature"
|}.

Definition s0 : GossipState := mkGossipState Reputation.new_limiter Reputation.new new_handler.
Definition now : readings := at_time 1.
Definition s1 : GossipState := (on_gossip s0 now (Some "mallory") TOPIC_BLOCKS [1]).1.
(** Eight malformed blocks ban the sender. *)
Definition s2 : GossipState :=
  foldl (fun s _ => (on_gossip s now (Some "mallory") TOPIC_BLOCKS [9]).1) s1 (seq 0 8).

Lemma dedup_remembers_witness :
  check_and_insert (insert_all (check_and_insert (new_cache 4) [7]).1 [[1]; [2]; [3]]) [7]
  = (insert_all (check_and_insert (new_cache 4) [7]).1 [[1]; [2]; [3]], false).
Proof.
  refine (proj2 (dedup_remembers 4 [] [7] [[1]; [2]; [3]] _ _ _)).
  - apply Nat.le_refl.
  - cbn. apply Nat.le_refl.
  - vm_compute. reflexivity.
Defined.

Lemma gossip_authentic_witness :
  topic (NodeAnnounced announcement) = TOPIC_NODE_ANNOUNCE
  /\ signed_by victim_key (node_announcement_signing_payload announcement) (replicate 64 1) victim_node.
Proof.
  assert (process_incoming new_handler 1 TOPIC_NODE_ANNOUNCE [2]
          = ((process_incoming new_handler 1 TOPIC_NODE_ANNOUNCE [2]).1, Ok (Some (NodeAnnounced announcement)))) as E
    by (vm_compute; reflexivity).
  destruct (gossip_authentic new_handler 1 TOPIC_NODE_ANNOUNCE [2] _ (NodeAnnounced announcement) E) as (Ht & _ & Hs & _).
  split; [exact Ht|exact Hs].
Defined.

Lemma gossip_roundtrip_witness :
  (process_incoming new_handler 1 TOPIC_NODE_ANNOUNCE [2]).2 = Ok (Some (NodeAnnounced announcement)).
Proof.
  pose proof (gossip_roundtrip new_handler 1 (NodeAnnounced announcement) TOPIC_NODE_ANNOUNCE [2]) as W.
  destruct (process_incoming new_handler 1 TOPIC_NODE_ANNOUNCE [2]) as [h r].
  refine (proj1 (W _ _ _ _)); vm_compute; reflexivity.
Defined.

Lemma forged_block_rewarded_witness :
  (on_gossip s0 now (Some "mallory") TOPIC_BLOCKS [1]).2 = Some (NewBlock forged).
Proof.
  pose proof (forged_block_rewarded s0 now "mallory" forged [1] junk []) as W.
  destruct (on_gossip s0 now (Some "mallory") TOPIC_BLOCKS [1]) as [s' out].
  refine (proj1 (W _ _ _ _ _ _ _ _ _)); first [discriminate|vm_compute; first [reflexivity|discriminate]].
Defined.

Lemma victim_inherits_ban_witness :
  Reputation.is_banned (reputation_mgr s2) 1 "victim" = false
  /\ Reputation.is_banned (reputation_mgr (on_gossip s2 now (Some "victim") TOPIC_NODE_ANNOUNCE [2]).1) 2 "victim" = true.
Proof.
  split; [vm_compute; reflexivity|].
  destruct (peers (reputation_mgr s2) !! "mallory") as [old|] eqn:Eo; [|by vm_compute in Eo].
  assert (banned_until old = Some (1 + duration_hours 1) /\ score old = -55) as [Hu Hs]
    by (vm_compute in Eo; by injection Eo as <-).
  pose proof (victim_inherits_ban s2 now announcement [2] "mallory" "victim" old (1 + duration_hours 1)) as W.
  destruct (on_gossip s2 now (Some "victim") TOPIC_NODE_ANNOUNCE [2]) as [s' out].
  refine (proj2 (W _ _ _ Eo Hu _ _ _ _ _ _ _ _) 2 _).
  - discriminate.
  - discriminate.
  - vm_compute. reflexivity.
  - rewrite Hs. reflexivity.
  - intros r Hr. vm_compute in Hr. discriminate.
  - vm_compute. reflexivity.
  - vm_compute. reflexivity.
  - vm_compute. reflexivity.
  - vm_compute. discriminate.
  - vm_compute. reflexivity.
  - vm_compute. reflexivity.
  - vm_compute. reflexivity.
Defined.

(** Eight malformed blocks of one peer; then the victim announces itself and the banned peer
    sends a block again. *)
Definition offence : list incoming := replicate 8 (mkIncoming 1 (Some "mallory") TOPIC_BLOCKS [9]).
Definition afterwards : list incoming :=
  [mkIncoming 2 (Some "victim") TOPIC_NODE_ANNOUNCE [2];
   mkIncoming (duration_seconds 60) (Some "mallory") TOPIC_BLOCKS [1]].

Lemma ban_is_served_witness :
  Reputation.is_banned (reputation_mgr (gossip_run s0 (offence ++ afterwards))) (duration_seconds 120) "mallory" = true.
Proof.
  destruct (peers (reputation_mgr (gossip_run s0 offence)) !! "mallory") as [r|] eqn:Er; [|by vm_compute in Er].
  assert (banned_until r = Some (1 + duration_hours 1) /\ last_activity r = 1) as [Hu Ha]
    by (vm_compute in Er; by injection Er as <-).
  refine (proj1 (proj2 (ban_is_served Reputation.new_limiter new_handler 0 offence afterwards "mallory" r
            (1 + duration_hours 1) _ Er Hu _)) (duration_seconds 120) _).
  - repeat (apply StronglySorted_cons; split; [decide_now|]). constructor.
  - rewrite Ha. decide_now.
  - reflexivity.
Defined.
End Sample.
End Gossip.
