(* ===== verification/GsSyntax.v ===== *)
(** * gratiascript: tokens, syntax trees and errors

    The data of the contract compiler: [crates/gratiascript/src/token.rs], [ast.rs] and
    [error.rs].  A [String] is the byte string of its UTF-8 form, an [f64] its 64 bits, a
    [usize] a [nat].  The text that [{:?}] prints for a float and for a string literal is
    a parameter (class [DebugText]), the rest of the messages is written out. *)

From stdpp Require Import base strings list pretty.
From Stdlib Require Import ZArith.
From S2P Require Import Prelude CoreTypes.
Local Open Scope Z_scope.

Module Gs.

(** ** Tokens *)

Record Span := mkSpan { sp_start : nat; sp_end : nat; sp_line : nat; sp_col : nat }.

Inductive TokenKind :=
| TkIntLiteral (v : Z) | TkFloatLiteral (bits : Z) | TkStringLiteral (s : string)
| TkBoolLiteral (b : bool)
| TkIdent (s : string)
| TkContract | TkFunction | TkLet | TkConst | TkIf | TkElse | TkWhile | TkFor | TkReturn
| TkEmit | TkImport
| TkTypeI32 | TkTypeI64 | TkTypeF32 | TkTypeF64 | TkTypeBool | TkTypeString | TkTypeBytes
| TkTypeVoid | TkTypeAddress
| TkAtLocation | TkAtProximity | TkAtPresence | TkAtSensor | TkAtBlockHeight
| TkAtBlockTime | TkAtCaller | TkAtBalance | TkAtStoreRead | TkAtStoreWrite
| TkPlus | TkMinus | TkStar | TkSlash | TkPercent | TkAssign | TkEq | TkNotEq | TkLt | TkGt
| TkLtEq | TkGtEq | TkAnd | TkOr | TkNot | TkBitAnd | TkBitOr | TkBitXor
| TkLParen | TkRParen | TkLBrace | TkRBrace | TkLBracket | TkRBracket
| TkComma | TkColon | TkSemicolon | TkArrow | TkDot
| TkEof.

#[export] Instance Span_eq_dec : EqDecision Span.
Proof. solve_decision. Defined.
#[export] Instance TokenKind_eq_dec : EqDecision TokenKind.
Proof. solve_decision. Defined.

Record Token := mkToken { tk_kind : TokenKind; tk_span : Span }.

(** The arms of [TokenKind::keyword] and [TokenKind::builtin]. *)
Definition keywords : list (string * TokenKind) :=
  [("contract", TkContract); ("function", TkFunction); ("let", TkLet); ("const", TkConst);
   ("if", TkIf); ("else", TkElse); ("while", TkWhile); ("for", TkFor); ("return", TkReturn);
   ("emit", TkEmit); ("import", TkImport); ("true", TkBoolLiteral true);
   ("false", TkBoolLiteral false); ("i32", TkTypeI32); ("i64", TkTypeI64); ("f32", TkTypeF32);
   ("f64", TkTypeF64); ("bool", TkTypeBool); ("string", TkTypeString); ("bytes", TkTypeBytes);
   ("void", TkTypeVoid); ("address", TkTypeAddress)].

Definition builtins : list (string * TokenKind) :=
  [("@location", TkAtLocation); ("@proximity", TkAtProximity); ("@presence", TkAtPresence);
   ("@sensor", TkAtSensor); ("@blockHeight", TkAtBlockHeight); ("@blockTime", TkAtBlockTime);
   ("@caller", TkAtCaller); ("@balance", TkAtBalance); ("@store.read", TkAtStoreRead);
   ("@store.write", TkAtStoreWrite)].

Fixpoint assoc {A} (s : string) (l : list (string * A)) : option A :=
  match l with
  | [] => None
  | (k, v) :: l => if bool_decide (s = k) then Some v else assoc s l
  end.

Definition keyword (s : string) : option TokenKind := assoc s keywords.
Definition builtin (s : string) : option TokenKind := assoc s builtins.

(** [std::mem::discriminant]: the variant without its payload. *)
Definition discriminant (k : TokenKind) : TokenKind :=
  match k with
  | TkIntLiteral _ => TkIntLiteral 0
  | TkFloatLiteral _ => TkFloatLiteral 0
  | TkStringLiteral _ => TkStringLiteral ""
  | TkBoolLiteral _ => TkBoolLiteral false
  | TkIdent _ => TkIdent ""
  | k => k
  end.

(** [{:?}] of a token kind. *)
Class DebugText := {
  debug_f64 : Z -> string;
  debug_str : string -> string
}.

Definition debug_bool (b : bool) : string := if b then "true" else "false".

Definition debug_kind `{!DebugText} (k : TokenKind) : string :=
  match k with
  | TkIntLiteral v => "IntLiteral(" +:+ pretty v +:+ ")"
  | TkFloatLiteral v => "FloatLiteral(" +:+ debug_f64 v +:+ ")"
  | TkStringLiteral s => "StringLiteral(" +:+ debug_str s +:+ ")"
  | TkBoolLiteral b => "BoolLiteral(" +:+ debug_bool b +:+ ")"
  | TkIdent s => "Ident(" +:+ debug_str s +:+ ")"
  | TkContract => "Contract" | TkFunction => "Function" | TkLet => "Let" | TkConst => "Const"
  | TkIf => "If" | TkElse => "Else" | TkWhile => "While" | TkFor => "For"
  | TkReturn => "Return" | TkEmit => "Emit" | TkImport => "Import"
  | TkTypeI32 => "TypeI32" | TkTypeI64 => "TypeI64" | TkTypeF32 => "TypeF32"
  | TkTypeF64 => "TypeF64" | TkTypeBool => "TypeBool" | TkTypeString => "TypeString"
  | TkTypeBytes => "TypeBytes" | TkTypeVoid => "TypeVoid" | TkTypeAddress => "TypeAddress"
  | TkAtLocation => "AtLocation" | TkAtProximity => "AtProximity"
  | TkAtPresence => "AtPresence" | TkAtSensor => "AtSensor"
  | TkAtBlockHeight => "AtBlockHeight" | TkAtBlockTime => "AtBlockTime"
  | TkAtCaller => "AtCaller" | TkAtBalance => "AtBalance" | TkAtStoreRead => "AtStoreRead"
  | TkAtStoreWrite => "AtStoreWrite"
  | TkPlus => "Plus" | TkMinus => "Minus" | TkStar => "Star" | TkSlash => "Slash"
  | TkPercent => "Percent" | TkAssign => "Assign" | TkEq => "Eq" | TkNotEq => "NotEq"
  | TkLt => "Lt" | TkGt => "Gt" | TkLtEq => "LtEq" | TkGtEq => "GtEq" | TkAnd => "And"
  | TkOr => "Or" | TkNot => "Not" | TkBitAnd => "BitAnd" | TkBitOr => "BitOr"
  | TkBitXor => "BitXor"
  | TkLParen => "LParen" | TkRParen => "RParen" | TkLBrace => "LBrace"
  | TkRBrace => "RBrace" | TkLBracket => "LBracket" | TkRBracket => "RBracket"
  | TkComma => "Comma" | TkColon => "Colon" | TkSemicolon => "Semicolon"
  | TkArrow => "Arrow" | TkDot => "Dot"
  | TkEof => "Eof"
  end.

(** ** Errors *)

Inductive CompileError :=
| LexerError (message : string) (line col : nat)
| ParseError (message : string) (line col : nat)
| TypeError (message : string) (line col : nat)
| CodegenError (message : string).

(** The constructors [CompileError::parse] and [CompileError::type_err]. *)
Definition parse_err (msg : string) (sp : Span) : CompileError :=
  ParseError msg (sp_line sp) (sp_col sp).
Definition type_err (msg : string) (sp : Span) : CompileError :=
  TypeError msg (sp_line sp) (sp_col sp).

(** What a call does: it returns, fails, aborts the process, or has not returned within
    the iterations it was given. *)
Inductive outcome (A : Type) :=
| Done (a : A)
| Fail (e : CompileError)
| Panicked
| NoFuel.
Arguments Done {A} a.
Arguments Fail {A} e.
Arguments Panicked {A}.
Arguments NoFuel {A}.

Definition obind {A B} (m : outcome A) (k : A -> outcome B) : outcome B :=
  match m with Done a => k a | Fail e => Fail e | Panicked => Panicked | NoFuel => NoFuel end.

Notation "'let!' x := m 'in' k" := (obind m (fun x => k))
  (at level 10, x pattern, m at level 100, k at level 200) : gratia_scope.

(** ** Syntax trees *)

Inductive GsType :=
| TyI32 | TyI64 | TyF32 | TyF64 | TyBool | TyString | TyBytes | TyVoid | TyAddress
| TyLocation.

#[export] Instance GsType_eq_dec : EqDecision GsType.
Proof. solve_decision. Defined.

Definition is_numeric (t : GsType) : bool :=
  match t with TyI32 | TyI64 | TyF32 | TyF64 => true | _ => false end.
Definition is_float (t : GsType) : bool :=
  match t with TyF32 | TyF64 => true | _ => false end.
Definition is_integer (t : GsType) : bool :=
  match t with TyI32 | TyI64 => true | _ => false end.

Definition show_type (t : GsType) : string :=
  match t with
  | TyI32 => "i32" | TyI64 => "i64" | TyF32 => "f32" | TyF64 => "f64" | TyBool => "bool"
  | TyString => "string" | TyBytes => "bytes" | TyVoid => "void" | TyAddress => "address"
  | TyLocation => "Location"
  end.

Inductive BinOp :=
| Add | Sub | Mul | Div | Mod | Eq | NotEq | Lt | Gt | LtEq | GtEq | And | Or
| BitAnd | BitOr | BitXor.

Inductive UnaryOp := Neg | Not.

Inductive Builtin :=
| Location | Proximity | Presence | Sensor | BlockHeight | BlockTime | Caller | Balance
| StoreRead.

#[export] Instance BinOp_eq_dec : EqDecision BinOp.
Proof. solve_decision. Defined.
#[export] Instance Builtin_eq_dec : EqDecision Builtin.
Proof. solve_decision. Defined.

(** [{:?}] of an operator. *)
Definition debug_binop (op : BinOp) : string :=
  match op with
  | Add => "Add" | Sub => "Sub" | Mul => "Mul" | Div => "Div" | Mod => "Mod" | Eq => "Eq"
  | NotEq => "NotEq" | Lt => "Lt" | Gt => "Gt" | LtEq => "LtEq" | GtEq => "GtEq"
  | And => "And" | Or => "Or" | BitAnd => "BitAnd" | BitOr => "BitOr" | BitXor => "BitXor"
  end.

Inductive Expr :=
| IntLit (v : Z) (sp : Span)
| FloatLit (bits : Z) (sp : Span)
| StringLit (s : string) (sp : Span)
| BoolLit (b : bool) (sp : Span)
| Ident (name : string) (sp : Span)
| EBinOp (op : BinOp) (left right : Expr) (sp : Span)
| EUnaryOp (op : UnaryOp) (operand : Expr) (sp : Span)
| ECall (name : string) (args : list Expr) (sp : Span)
| EBuiltinCall (b : Builtin) (args : list Expr) (sp : Span)
| EFieldAccess (object : Expr) (field : string) (sp : Span)
| ECast (e : Expr) (target_type : GsType) (sp : Span).

Definition expr_span (e : Expr) : Span :=
  match e with
  | IntLit _ s | FloatLit _ s | StringLit _ s | BoolLit _ s | Ident _ s
  | EBinOp _ _ _ s | EUnaryOp _ _ s | ECall _ _ s | EBuiltinCall _ _ s
  | EFieldAccess _ _ s | ECast _ _ s => s
  end.

Inductive Stmt :=
| VarDecl (name : string) (ty : option GsType) (mutable : bool) (initializer : Expr) (sp : Span)
| Assign (target : string) (value : Expr) (sp : Span)
| Return (value : option Expr) (sp : Span)
| If (condition : Expr) (then_body else_body : list Stmt) (sp : Span)
| While (condition : Expr) (body : list Stmt) (sp : Span)
| SExpr (e : Expr)
| Emit (topic data : Expr) (sp : Span)
| StoreWrite (key value : Expr) (sp : Span).

Record Param := mkParam { par_name : string; par_ty : GsType; par_span : Span }.

Record Field := mkField {
  fld_name : string; fld_ty : GsType; fld_mutable : bool;
  fld_initializer : option Expr; fld_span : Span }.

Record Function := mkFunction {
  fun_name : string; fun_params : list Param; fun_return_type : GsType;
  fun_body : list Stmt; fun_span : Span }.

Record Contract := mkContract {
  con_name : string; con_fields : list Field; con_functions : list Function;
  con_span : Span }.

(** Induction over expressions and statements with their nested lists. *)
Fixpoint Expr_nested (P : Expr -> Prop)
    (Hint : forall v s, P (IntLit v s)) (Hfloat : forall b s, P (FloatLit b s))
    (Hstr : forall t s, P (StringLit t s)) (Hbool : forall b s, P (BoolLit b s))
    (Hid : forall n s, P (Ident n s))
    (Hbin : forall op l r s, P l -> P r -> P (EBinOp op l r s))
    (Hun : forall op e s, P e -> P (EUnaryOp op e s))
    (Hcall : forall n l s, Forall P l -> P (ECall n l s))
    (Hbi : forall b l s, Forall P l -> P (EBuiltinCall b l s))
    (Hfa : forall e f s, P e -> P (EFieldAccess e f s))
    (Hcast : forall e t s, P e -> P (ECast e t s)) (e : Expr) {struct e} : P e.
Proof.
  pose (IH := Expr_nested P Hint Hfloat Hstr Hbool Hid Hbin Hun Hcall Hbi Hfa Hcast).
  destruct e; [apply Hint|apply Hfloat|apply Hstr|apply Hbool|apply Hid|apply Hbin; apply IH
    |apply Hun, IH|apply Hcall|apply Hbi|apply Hfa, IH|apply Hcast, IH];
    (induction args as [|x l IHl]; constructor; [exact (IH x)|exact IHl]).
Defined.

Fixpoint Stmt_nested (P : Stmt -> Prop)
    (Hvar : forall n t m e s, P (VarDecl n t m e s)) (Has : forall n e s, P (Assign n e s))
    (Hret : forall v s, P (Return v s))
    (Hif : forall c l1 l2 s, Forall P l1 -> Forall P l2 -> P (If c l1 l2 s))
    (Hwh : forall c l s, Forall P l -> P (While c l s)) (Hex : forall e, P (SExpr e))
    (Hem : forall t d s, P (Emit t d s)) (Hst : forall k v s, P (StoreWrite k v s))
    (x : Stmt) {struct x} : P x.
Proof.
  pose (IH := Stmt_nested P Hvar Has Hret Hif Hwh Hex Hem Hst).
  destruct x; [apply Hvar|apply Has|apply Hret|apply Hif|apply Hwh|apply Hex|apply Hem|apply Hst];
    match goal with |- Forall _ ?l =>
      induction l as [|y l IHl]; constructor; [exact (IH y)|exact IHl] end.
Defined.

End Gs.
