(* ===== verification/GsLexer.v ===== *)
(** * gratiascript: the lexer

    [crates/gratiascript/src/lexer.rs].  The source is a list of [char]s, each a Unicode
    scalar value; a lexer holds the characters from [pos] on together with its position,
    so [peek] is the head of the list and [advance] its tail. *)

From stdpp Require Import base strings list pretty.
From Stdlib Require Import ZArith Lia.
From S2P Require Import Prelude CoreTypes Ieee WasmModule GsSyntax.
Import Gs.
Local Open Scope Z_scope.

Module Lexer.

Record Cursor := mkCursor { pos : nat; line : nat; col : nat }.

Definition lexer : Type := list Z * Cursor.

Definition new (source : list Z) : lexer := (source, mkCursor 0 1 1).

(** ** Characters *)

Definition in_set (lo hi c : Z) : bool := (lo <=? c) && (c <=? hi).
Definition is_ascii_digit (c : Z) : bool := in_set 48 57 c.
Definition is_ascii_alphabetic (c : Z) : bool := in_set 65 90 c || in_set 97 122 c.
Definition is_ascii_alphanumeric (c : Z) : bool := is_ascii_alphabetic c || is_ascii_digit c.

(** [char::is_whitespace]: the code points with the property White_Space. *)
Definition is_whitespace (c : Z) : bool :=
  in_set 0x09 0x0D c || (c =? 0x20) || (c =? 0x85) || (c =? 0xA0) || (c =? 0x1680)
  || in_set 0x2000 0x200A c || in_set 0x2028 0x2029 c || (c =? 0x202F) || (c =? 0x205F)
  || (c =? 0x3000).

(** The UTF-8 bytes of a character. *)
Definition utf8 (c : Z) : bytes :=
  if c <? 0x80 then [c]
  else if c <? 0x800 then [0xC0 + c / 2 ^ 6; 0x80 + c mod 2 ^ 6]
  else if c <? 0x10000 then [0xE0 + c / 2 ^ 12; 0x80 + (c / 2 ^ 6) mod 2 ^ 6; 0x80 + c mod 2 ^ 6]
  else [0xF0 + c / 2 ^ 18; 0x80 + (c / 2 ^ 12) mod 2 ^ 6; 0x80 + (c / 2 ^ 6) mod 2 ^ 6;
        0x80 + c mod 2 ^ 6].

(** A [String] built by pushing characters. *)
Definition to_string (l : list Z) : string := Wasm.string_of_bytes (l ≫= utf8).

(** The characters of an ASCII string. *)
Definition chars (s : string) : list Z :=
  map (fun a => Z.of_N (Ascii.N_of_ascii a)) (String.list_ascii_of_string s).

Definition c_newline : Z := 10.
Definition c_quote : Z := 34.
Definition c_star : Z := 42.
Definition c_dot : Z := 46.
Definition c_slash : Z := 47.
Definition c_at : Z := 64.
Definition c_backslash : Z := 92.
Definition c_underscore : Z := 95.

(** ** Moving over the source *)

Definition peek (lx : lexer) : option Z := head lx.1.

Definition peek_ahead (offset : nat) (lx : lexer) : option Z := lx.1 !! offset.

(** The position after character [ch]. *)
Definition past (ch : Z) (c : Cursor) : Cursor :=
  if ch =? c_newline then mkCursor (S (pos c)) (S (line c)) 1
  else mkCursor (S (pos c)) (line c) (S (col c)).

Definition advance (lx : lexer) : option (Z * lexer) :=
  match lx with
  | ([], _) => None
  | (ch :: l, c) => Some (ch, (l, past ch c))
  end.

(** [self.advance();] *)
Definition skip1 (lx : lexer) : lexer := from_option snd lx (advance lx).

Fixpoint skip_whitespace_in (l : list Z) (c : Cursor) : lexer :=
  match l with
  | ch :: l' => if is_whitespace ch then skip_whitespace_in l' (past ch c) else (l, c)
  | [] => (l, c)
  end.

Definition skip_whitespace (lx : lexer) : lexer := skip_whitespace_in lx.1 lx.2.

Fixpoint skip_line_comment_in (l : list Z) (c : Cursor) : lexer :=
  match l with
  | [] => (l, c)
  | ch :: l => if ch =? c_newline then (l, past ch c) else skip_line_comment_in l (past ch c)
  end.

Definition skip_line_comment (lx : lexer) : lexer := skip_line_comment_in lx.1 lx.2.

Fixpoint skip_block_comment_in (err : CompileError) (l : list Z) (c : Cursor) : outcome lexer :=
  match l with
  | [] => Fail err
  | ch :: l =>
      let c := past ch c in
      match l with
      | ch' :: l' =>
          if (ch =? c_star) && (ch' =? c_slash) then Done (l', past ch' c)
          else skip_block_comment_in err l c
      | [] => skip_block_comment_in err l c
      end
  end.

Definition skip_block_comment (lx : lexer) : outcome lexer :=
  skip_block_comment_in
    (LexerError "unterminated block comment" (line lx.2) (col lx.2)) lx.1 lx.2.

(** The [while let] of identifiers and builtins: the characters of the word. *)
Definition is_word (c : Z) : bool := is_ascii_alphanumeric c || (c =? c_underscore).

Fixpoint take_word (l : list Z) (c : Cursor) : list Z * lexer :=
  match l with
  | ch :: l' =>
      if is_word ch then let '(w, lx) := take_word l' (past ch c) in (ch :: w, lx)
      else ([], (l, c))
  | [] => ([], (l, c))
  end.

(** [Span::new(start, self.pos, line, col)] of a token that started at [c]. *)
Definition span_from (c : Cursor) (lx : lexer) : Span :=
  mkSpan (pos c) (pos lx.2) (line c) (col c).

(** ** Tokens *)

Definition lex_at_builtin (lx : lexer) : outcome (Token * lexer) :=
  let start := lx.2 in
  let lx := skip1 lx in
  let '(w, lx) := take_word lx.1 lx.2 in
  let name := c_at :: w in
  let '(name, lx) :=
    if bool_decide (name = chars "@store") && bool_decide (peek lx = Some c_dot) then
      let lx := skip1 lx in
      let '(w, lx) := take_word lx.1 lx.2 in
      (name ++ c_dot :: w, lx)
    else (name, lx) in
  match builtin (to_string name) with
  | Some k => Done (mkToken k (span_from start lx), lx)
  | None => Fail (LexerError ("unknown builtin: " +:+ to_string name) (line start) (col start))
  end.

(** The value of a string of decimal digits. *)
Fixpoint digits (acc : Z) (l : list Z) : Z :=
  match l with [] => acc | ch :: l => digits (10 * acc + (ch - 48)) l end.

(** [s.parse::<i64>()] of a non-empty string of digits. *)
Definition parse_i64 (s : list Z) : option Z :=
  if decide (s <> [] /\ forallb is_ascii_digit s = true /\ digits 0 s < 2 ^ 63)
  then Some (digits 0 s) else None.

(** [s.parse::<f64>()] of digits, a dot and digits: the quotient of two integers,
    rounded once. *)
Fixpoint split_dot (l : list Z) : list Z * list Z :=
  match l with
  | [] => ([], [])
  | ch :: l => if ch =? c_dot then ([], l) else let '(a, b) := split_dot l in (ch :: a, b)
  end.

Definition quotient64 (n d : Z) : Z :=
  match n, d with
  | Zpos n, Zpos d =>
      Ieee.encode Ieee.f64
        (SpecFloat.SFdiv (Ieee.prec Ieee.f64) (Ieee.emax Ieee.f64)
           (SpecFloat.S754_finite false n 0) (SpecFloat.S754_finite false d 0))
  | _, _ => 0
  end.

Definition parse_f64 (s : list Z) : option Z :=
  let '(a, b) := split_dot s in
  if forallb is_ascii_digit (a ++ b)
  then Some (quotient64 (digits 0 (a ++ b)) (10 ^ Z.of_nat (length b))) else None.

(** The loop of [lex_number]: the text without underscores, whether it has a dot. *)
Fixpoint take_number (is_float : bool) (l : list Z) (c : Cursor) : list Z * bool * lexer :=
  match l with
  | [] => ([], is_float, (l, c))
  | ch :: l' =>
      if is_ascii_digit ch || (ch =? c_underscore) then
        let '(s, fl, lx) := take_number is_float l' (past ch c) in
        (if ch =? c_underscore then s else ch :: s, fl, lx)
      else if (ch =? c_dot) && negb is_float then
        match l' with
        | d :: _ =>
            if is_ascii_digit d then
              let '(s, fl, lx) := take_number true l' (past ch c) in (ch :: s, fl, lx)
            else ([], is_float, (l, c))
        | [] => ([], is_float, (l, c))
        end
      else ([], is_float, (l, c))
  end.

Definition lex_number (lx : lexer) : outcome (Token * lexer) :=
  let start := lx.2 in
  let '(s, is_float, lx) := take_number false lx.1 lx.2 in
  let span := span_from start lx in
  if is_float then
    match parse_f64 s with
    | Some val => Done (mkToken (TkFloatLiteral val) span, lx)
    | None => Fail (LexerError "invalid float" (line start) (col start))
    end
  else
    match parse_i64 s with
    | Some val => Done (mkToken (TkIntLiteral val) span, lx)
    | None => Fail (LexerError "invalid integer" (line start) (col start))
    end.

(** The character an escape stands for. *)
Definition escape (ch : Z) : option Z :=
  if ch =? 110 then Some 10 else if ch =? 116 then Some 9
  else if ch =? c_backslash then Some c_backslash
  else if ch =? c_quote then Some c_quote else None.

Fixpoint take_string (start : Cursor) (l : list Z) (c : Cursor) : outcome (list Z * lexer) :=
  match l with
  | [] => Fail (LexerError "unterminated string" (line start) (col start))
  | ch :: l =>
      let c := past ch c in
      if ch =? c_quote then Done ([], (l, c))
      else if ch =? c_backslash then
        match l with
        | [] => Fail (LexerError "unterminated escape" (line start) (col start))
        | ch :: l =>
            let c := past ch c in
            match escape ch with
            | Some e => let! (s, lx) := take_string start l c in Done (e :: s, lx)
            | None =>
                Fail (LexerError ("invalid escape: " +:+ to_string [c_backslash; ch]) (line c) (col c))
            end
        end
      else let! (s, lx) := take_string start l c in Done (ch :: s, lx)
  end.

Definition lex_string (lx : lexer) : outcome (Token * lexer) :=
  let start := lx.2 in
  let lx := skip1 lx in
  let! (s, lx) := take_string start lx.1 lx.2 in
  Done (mkToken (TkStringLiteral (to_string s)) (span_from start lx), lx).

Definition lex_ident (lx : lexer) : outcome (Token * lexer) :=
  let start := lx.2 in
  let '(w, lx) := take_word lx.1 lx.2 in
  let s := to_string w in
  Done (mkToken (default (TkIdent s) (keyword s)) (span_from start lx), lx).

(** An operator of one character, or of two when the next one is in [seconds]. *)
Fixpoint longer (seconds : list (Z * TokenKind)) (one : TokenKind) (lx : lexer)
  : TokenKind * lexer :=
  match seconds with
  | [] => (one, lx)
  | (c2, two) :: seconds =>
      if bool_decide (peek lx = Some c2) then (two, skip1 lx) else longer seconds one lx
  end.

Definition operator (ch : Z) : option (list (Z * TokenKind) * TokenKind) :=
  match ch with
  | 43 (* + *) => Some ([], TkPlus)
  | 45 (* - *) => Some ([], TkMinus)
  | 42 (* * *) => Some ([], TkStar)
  | 47 (* / *) => Some ([], TkSlash)
  | 37 (* % *) => Some ([], TkPercent)
  | 40 => Some ([], TkLParen)
  | 41 => Some ([], TkRParen)
  | 123 => Some ([], TkLBrace)
  | 125 => Some ([], TkRBrace)
  | 91 => Some ([], TkLBracket)
  | 93 => Some ([], TkRBracket)
  | 44 (* , *) => Some ([], TkComma)
  | 58 (* : *) => Some ([], TkColon)
  | 59 (* ; *) => Some ([], TkSemicolon)
  | 46 (* . *) => Some ([], TkDot)
  | 61 (* = *) => Some ([(61, TkEq); (62, TkArrow)], TkAssign)
  | 33 (* ! *) => Some ([(61, TkNotEq)], TkNot)
  | 60 (* < *) => Some ([(61, TkLtEq)], TkLt)
  | 62 (* > *) => Some ([(61, TkGtEq)], TkGt)
  | 38 (* & *) => Some ([(38, TkAnd)], TkBitAnd)
  | 124 (* | *) => Some ([(124, TkOr)], TkBitOr)
  | 94 (* ^ *) => Some ([], TkBitXor)
  | _ => None
  end.

(** [None] for [self.advance().unwrap()] at the end of the source. *)
Definition lex_operator (lx : lexer) : outcome (Token * lexer) :=
  let start := lx.2 in
  match advance lx with
  | None => Panicked
  | Some (ch, lx) =>
      match operator ch with
      | Some (seconds, one) =>
          let '(k, lx) := longer seconds one lx in
          Done (mkToken k (span_from start lx), lx)
      | None =>
          Fail (LexerError ("unexpected character: '" +:+ to_string [ch] +:+ "'")
                  (line start) (col start))
      end
  end.

(** What [next_token] does at a character that does not start a comment. *)
Definition lex_at (ch : Z) (lx : lexer) : outcome (Token * lexer) :=
  if ch =? c_at then lex_at_builtin lx
  else if is_ascii_digit ch then lex_number lx
  else if ch =? c_quote then lex_string lx
  else if is_ascii_alphabetic ch || (ch =? c_underscore) then lex_ident lx
  else lex_operator lx.

(** Each round of the loop skips a comment. *)
Fixpoint next_token_loop (fuel : nat) (lx : lexer) : outcome (Token * lexer) :=
  match fuel with
  | O => NoFuel
  | S fuel =>
      let lx := skip_whitespace lx in
      match peek lx with
      | None =>
          Done (mkToken TkEof (mkSpan (pos lx.2) (pos lx.2) (line lx.2) (col lx.2)), lx)
      | Some ch =>
          if (ch =? c_slash) && bool_decide (peek_ahead 1 lx = Some c_slash) then
            next_token_loop fuel (skip_line_comment (skip1 (skip1 lx)))
          else if (ch =? c_slash) && bool_decide (peek_ahead 1 lx = Some c_star) then
            let! lx := skip_block_comment (skip1 (skip1 lx)) in next_token_loop fuel lx
          else lex_at ch lx
      end
  end.

Definition next_token (lx : lexer) : outcome (Token * lexer) :=
  next_token_loop (S (length lx.1)) lx.

Fixpoint tokenize_loop (fuel : nat) (lx : lexer) : outcome (list Token) :=
  match fuel with
  | O => NoFuel
  | S fuel =>
      let! (tok, lx) := next_token lx in
      if bool_decide (tk_kind tok = TkEof) then Done [tok]
      else let! toks := tokenize_loop fuel lx in Done (tok :: toks)
  end.

Definition tokenize (source : list Z) : outcome (list Token) :=
  tokenize_loop (S (length source)) (new source).

Definition kinds (o : outcome (list Token)) : list TokenKind :=
  match o with Done l => map tk_kind l | _ => [] end.

Example lex_sample :
  kinds (tokenize (chars "let x: i32 = 10_0; // n
 x >= 1.5 && @store.read(k)")) =
  [TkLet; TkIdent "x"; TkColon; TkTypeI32; TkAssign; TkIntLiteral 100; TkSemicolon;
   TkIdent "x"; TkGtEq; TkFloatLiteral (Ieee.flit Ieee.f64 3 2); TkAnd; TkAtStoreRead;
   TkLParen; TkIdent "k"; TkRParen; TkEof].
Proof. vm_compute. reflexivity. Qed.

End Lexer.
