(* ===== verification/GsParser.v ===== *)
(** * gratiascript: the parser

    [crates/gratiascript/src/parser.rs], a recursive descent parser.  The tokens do not
    change while it runs, so a parsing function maps the position to its result and the
    new position.  A function that calls itself on the rest of the input takes the number
    of nested calls it may make; [GsFrontend] shows that the number of tokens is enough. *)

From stdpp Require Import base strings list pretty.
From Stdlib Require Import ZArith Lia.
From S2P Require Import Prelude CoreTypes GsSyntax.
Import Gs.

Module Parser.
Section parser.
Context `{!DebugText} (tokens : list Token).

Definition parser (A : Type) : Type := nat -> outcome (A * nat).

Definition pret {A} (a : A) : parser A := fun p => Done (a, p).
Definition pbind {A B} (m : parser A) (k : A -> parser B) : parser B :=
  fun p => let! (a, p) := m p in k a p.
Definition pfail {A} (e : CompileError) : parser A := fun _ => Fail e.

Notation "'do' x <- m 'in' k" := (pbind m (fun x => k))
  (at level 10, x pattern, m at level 100, k at level 200).
Notation "'run' m 'in' k" := (pbind m (fun _ => k))
  (at level 10, m at level 100, k at level 200).

(** ** Token helpers *)

(** [self.tokens[self.pos.min(self.tokens.len() - 1)]], a panic on no tokens. *)
Definition current : parser Token := fun p =>
  match tokens !! Nat.min p (length tokens - 1) with
  | Some t => Done (t, p)
  | None => Panicked
  end.

Definition current_kind : parser TokenKind := do t <- current in pret (tk_kind t).
Definition current_span : parser Span := do t <- current in pret (tk_span t).

Definition peek_kind : parser (option TokenKind) := fun p =>
  Done (tk_kind <$> tokens !! S p, p).

Definition advance : parser unit := fun p =>
  Done ((), if decide (p < length tokens - 1)%nat then S p else p).

Definition check (k : TokenKind) : parser bool :=
  do c <- current_kind in pret (bool_decide (discriminant c = discriminant k)).

Definition try_consume (k : TokenKind) : parser bool :=
  do b <- check k in
  if b then run advance in pret true else pret false.

Definition expect (k : TokenKind) : parser unit :=
  do b <- check k in
  if b then advance
  else
    do c <- current_kind in
    do sp <- current_span in
    pfail (parse_err ("expected " +:+ debug_kind k +:+ ", got " +:+ debug_kind c) sp).

Definition expect_ident : parser string :=
  do c <- current_kind in
  match c with
  | TkIdent name => run advance in pret name
  | _ =>
      do sp <- current_span in
      pfail (parse_err ("expected identifier, got " +:+ debug_kind c) sp)
  end.

Definition type_of_token (k : TokenKind) : option GsType :=
  match k with
  | TkTypeI32 => Some TyI32 | TkTypeI64 => Some TyI64 | TkTypeF32 => Some TyF32
  | TkTypeF64 => Some TyF64 | TkTypeBool => Some TyBool | TkTypeString => Some TyString
  | TkTypeBytes => Some TyBytes | TkTypeVoid => Some TyVoid | TkTypeAddress => Some TyAddress
  | _ => None
  end.

Definition parse_type : parser GsType :=
  do c <- current_kind in
  match type_of_token c with
  | Some t => run advance in pret t
  | None =>
      do sp <- current_span in
      pfail (parse_err ("expected type, got " +:+ debug_kind c) sp)
  end.

(** ** Expressions *)

Definition builtin_of_token (k : TokenKind) : option Builtin :=
  match k with
  | TkAtLocation => Some Location | TkAtProximity => Some Proximity
  | TkAtPresence => Some Presence | TkAtSensor => Some Sensor
  | TkAtBlockHeight => Some BlockHeight | TkAtBlockTime => Some BlockTime
  | TkAtCaller => Some Caller | TkAtBalance => Some Balance | TkAtStoreRead => Some StoreRead
  | _ => None
  end.

Section expr.
Variable parse_expr : parser Expr.

(** [while !self.check(RParen) { if !args.is_empty() { expect(Comma)? } args.push(..) }] *)
Fixpoint parse_args (fuel : nat) (args : list Expr) : parser (list Expr) :=
  match fuel with
  | O => fun _ => NoFuel
  | S fuel =>
      do closed <- check TkRParen in
      if closed then pret args
      else
        run (match args with [] => pret () | _ => expect TkComma end) in
        do e <- parse_expr in
        parse_args fuel (args ++ [e])
  end.

Definition parse_builtin_call (fuel : nat) (b : Builtin) (span : Span) : parser Expr :=
  run expect TkLParen in
  do args <- parse_args fuel [] in
  run expect TkRParen in
  pret (EBuiltinCall b args span).

Definition parse_primary (fuel : nat) : parser Expr :=
  do span <- current_span in
  do k <- current_kind in
  match k with
  | TkIntLiteral v => run advance in pret (IntLit v span)
  | TkFloatLiteral v => run advance in pret (FloatLit v span)
  | TkStringLiteral s => run advance in pret (StringLit s span)
  | TkBoolLiteral b => run advance in pret (BoolLit b span)
  | TkIdent name =>
      run advance in
      do call <- check TkLParen in
      if call then
        run advance in
        do args <- parse_args fuel [] in
        run expect TkRParen in
        pret (ECall name args span)
      else pret (Ident name span)
  | TkLParen =>
      run advance in
      do e <- parse_expr in
      run expect TkRParen in
      pret e
  | k =>
      match builtin_of_token k with
      | Some b => run advance in parse_builtin_call fuel b span
      | None => pfail (parse_err ("unexpected token: " +:+ debug_kind k) span)
      end
  end.

Fixpoint field_loop (fuel : nat) (e : Expr) : parser Expr :=
  match fuel with
  | O => fun _ => NoFuel
  | S fuel =>
      do dot <- try_consume TkDot in
      if dot then
        do span <- current_span in
        do field <- expect_ident in
        field_loop fuel (EFieldAccess e field span)
      else pret e
  end.

Definition parse_postfix (fuel : nat) : parser Expr :=
  do e <- parse_primary fuel in
  field_loop fuel e.

Fixpoint parse_unary (fuel : nat) : parser Expr :=
  match fuel with
  | O => fun _ => NoFuel
  | S n =>
      do not <- try_consume TkNot in
      if not then
        do span <- current_span in
        do operand <- parse_unary n in
        pret (EUnaryOp Not operand span)
      else
        do minus <- try_consume TkMinus in
        if minus then
          do span <- current_span in
          do operand <- parse_unary n in
          pret (EUnaryOp Neg operand span)
        else parse_postfix fuel
  end.

(** The operator of the first token of [ops] that can be consumed. *)
Fixpoint consume_op (ops : list (TokenKind * BinOp)) : parser (option BinOp) :=
  match ops with
  | [] => pret None
  | (k, op) :: ops =>
      do b <- try_consume k in
      if b then pret (Some op) else consume_op ops
  end.

(** The loop of a level of binary operators, left associative. *)
Fixpoint binary_loop (ops : list (TokenKind * BinOp)) (operand : parser Expr) (fuel : nat)
    (left : Expr) : parser Expr :=
  match fuel with
  | O => fun _ => NoFuel
  | S fuel =>
      do op <- consume_op ops in
      match op with
      | Some op =>
          do r <- operand in
          binary_loop ops operand fuel (EBinOp op left r (expr_span left))
      | None => pret left
      end
  end.

Definition parse_multiplicative (fuel : nat) : parser Expr :=
  do l <- parse_unary fuel in
  binary_loop [(TkStar, Mul); (TkSlash, Div); (TkPercent, Mod)] (parse_unary fuel) fuel l.

Definition parse_additive (fuel : nat) : parser Expr :=
  do l <- parse_multiplicative fuel in
  binary_loop [(TkPlus, Add); (TkMinus, Sub)] (parse_multiplicative fuel) fuel l.

Definition parse_comparison (fuel : nat) : parser Expr :=
  do l <- parse_additive fuel in
  binary_loop [(TkLt, Lt); (TkGt, Gt); (TkLtEq, LtEq); (TkGtEq, GtEq)]
    (parse_additive fuel) fuel l.

Definition parse_equality (fuel : nat) : parser Expr :=
  do l <- parse_comparison fuel in
  binary_loop [(TkEq, Eq); (TkNotEq, NotEq)] (parse_comparison fuel) fuel l.

Definition parse_and (fuel : nat) : parser Expr :=
  do l <- parse_equality fuel in
  binary_loop [(TkAnd, And)] (parse_equality fuel) fuel l.

Definition parse_or (fuel : nat) : parser Expr :=
  do l <- parse_and fuel in
  binary_loop [(TkOr, Or)] (parse_and fuel) fuel l.
End expr.

Fixpoint parse_expr (fuel : nat) : parser Expr :=
  match fuel with
  | O => fun _ => NoFuel
  | S n => parse_or (parse_expr n) fuel
  end.

(** ** Statements *)

Section stmt.
Variable pexpr : parser Expr.
Variable pstmt : parser Stmt.

Fixpoint parse_block (fuel : nat) : parser (list Stmt) :=
  match fuel with
  | O => fun _ => NoFuel
  | S fuel =>
      do closed <- check TkRBrace in
      do eof <- check TkEof in
      if closed || eof then pret []
      else
        do s <- pstmt in
        do l <- parse_block fuel in
        pret (s :: l)
  end.

Definition parse_var_decl : parser Stmt :=
  do span <- current_span in
  do mutable <- check TkLet in
  run advance in
  do name <- expect_ident in
  do colon <- try_consume TkColon in
  do ty <- (if colon then do t <- parse_type in pret (Some t) else pret None) in
  run expect TkAssign in
  do initializer <- pexpr in
  run expect TkSemicolon in
  pret (VarDecl name ty mutable initializer span).

Definition parse_return : parser Stmt :=
  do span <- current_span in
  run advance in
  do semi <- check TkSemicolon in
  do value <- (if semi then pret None else do e <- pexpr in pret (Some e)) in
  run expect TkSemicolon in
  pret (Return value span).

(** [{ block }] *)
Definition braced_block (fuel : nat) : parser (list Stmt) :=
  run expect TkLBrace in
  do body <- parse_block fuel in
  run expect TkRBrace in
  pret body.

Fixpoint parse_if (fuel : nat) : parser Stmt :=
  match fuel with
  | O => fun _ => NoFuel
  | S n =>
      do span <- current_span in
      run advance in
      run expect TkLParen in
      do condition <- pexpr in
      run expect TkRParen in
      do then_body <- braced_block fuel in
      do has_else <- try_consume TkElse in
      do else_body <-
        (if has_else then
           do elif <- check TkIf in
           if elif then do s <- parse_if n in pret [s] else braced_block fuel
         else pret []) in
      pret (If condition then_body else_body span)
  end.

Definition parse_while (fuel : nat) : parser Stmt :=
  do span <- current_span in
  run advance in
  run expect TkLParen in
  do condition <- pexpr in
  run expect TkRParen in
  do body <- braced_block fuel in
  pret (While condition body span).

(** [(first, second);] after [emit] and [@store.write]. *)
Definition parse_pair : parser (Expr * Expr) :=
  run advance in
  run expect TkLParen in
  do a <- pexpr in
  run expect TkComma in
  do b <- pexpr in
  run expect TkRParen in
  run expect TkSemicolon in
  pret (a, b).

Definition parse_emit : parser Stmt :=
  do span <- current_span in
  do (topic, data) <- parse_pair in
  pret (Emit topic data span).

Definition parse_store_write : parser Stmt :=
  do span <- current_span in
  do (key, value) <- parse_pair in
  pret (StoreWrite key value span).

Definition is_assignment : parser bool :=
  do k <- current_kind in
  do next <- peek_kind in
  pret (match k with TkIdent _ => bool_decide (next = Some TkAssign) | _ => false end).

Definition parse_assignment : parser Stmt :=
  do span <- current_span in
  do target <- expect_ident in
  run expect TkAssign in
  do value <- pexpr in
  run expect TkSemicolon in
  pret (Assign target value span).

(** The [match] of [parse_stmt]. *)
Definition parse_stmt_with (fuel : nat) : parser Stmt :=
  do k <- current_kind in
  match k with
  | TkLet | TkConst => parse_var_decl
  | TkReturn => parse_return
  | TkIf => parse_if fuel
  | TkWhile => parse_while fuel
  | TkEmit => parse_emit
  | TkAtStoreWrite => parse_store_write
  | _ =>
      do assign <- is_assignment in
      if assign then parse_assignment
      else
        do e <- pexpr in
        run expect TkSemicolon in
        pret (SExpr e)
  end.
End stmt.

Fixpoint parse_stmt (fuel : nat) : parser Stmt :=
  match fuel with
  | O => fun _ => NoFuel
  | S n => parse_stmt_with (parse_expr fuel) (parse_stmt n) fuel
  end.

(** ** Contracts *)

Definition parse_field (fuel : nat) : parser Field :=
  do span <- current_span in
  do mutable <- check TkLet in
  run advance in
  do name <- expect_ident in
  run expect TkColon in
  do ty <- parse_type in
  do assign <- try_consume TkAssign in
  do initializer <- (if assign then do e <- parse_expr fuel in pret (Some e) else pret None) in
  run expect TkSemicolon in
  pret (mkField name ty mutable initializer span).

Fixpoint parse_params (fuel : nat) (params : list Param) : parser (list Param) :=
  match fuel with
  | O => fun _ => NoFuel
  | S fuel =>
      do closed <- check TkRParen in
      if closed then pret params
      else
        run (match params with [] => pret () | _ => expect TkComma end) in
        do pspan <- current_span in
        do pname <- expect_ident in
        run expect TkColon in
        do pty <- parse_type in
        parse_params fuel (params ++ [mkParam pname pty pspan])
  end.

Definition parse_function (fuel : nat) : parser Function :=
  do span <- current_span in
  run expect TkFunction in
  do name <- expect_ident in
  run expect TkLParen in
  do params <- parse_params fuel [] in
  run expect TkRParen in
  do colon <- try_consume TkColon in
  do return_type <- (if colon then parse_type else pret TyVoid) in
  do body <- braced_block (parse_stmt fuel) fuel in
  pret (mkFunction name params return_type body span).

(** The [while] of [parse_contract]: the fields and functions read so far. *)
Fixpoint parse_members (depth fuel : nat) (fields : list Field) (functions : list Function)
  : parser (list Field * list Function) :=
  match fuel with
  | O => fun _ => NoFuel
  | S fuel =>
      do closed <- check TkRBrace in
      do eof <- check TkEof in
      if closed || eof then pret (fields, functions)
      else
        do is_fun <- check TkFunction in
        if is_fun then
          do f <- parse_function depth in
          parse_members depth fuel fields (functions ++ [f])
        else
          do is_let <- check TkLet in
          do is_const <- check TkConst in
          if is_let || is_const then
            do f <- parse_field depth in
            parse_members depth fuel (fields ++ [f]) functions
          else
            do sp <- current_span in
            pfail (parse_err "expected 'function', 'let', or 'const'" sp)
  end.

Definition contract_parser (fuel : nat) : parser Contract :=
  do span <- current_span in
  run expect TkContract in
  do name <- expect_ident in
  run expect TkLBrace in
  do (fields, functions) <- parse_members fuel fuel [] [] in
  run expect TkRBrace in
  pret (mkContract name fields functions span).
End parser.

(** [Parser::new(tokens).parse_contract()] *)
Definition parse_contract `{!DebugText} (tokens : list Token) : outcome Contract :=
  let! (c, _) := contract_parser tokens (length tokens) 0%nat in Done c.

End Parser.
