(* ===== verification/GsTypes.v ===== *)
(** * gratiascript: the type checker

    [crates/gratiascript/src/typechecker.rs].  The checker walks the syntax tree and
    records the type of every expression under its span. *)

From stdpp Require Import base gmap strings list pretty.
From Stdlib Require Import ZArith Lia.
From S2P Require Import Prelude CoreTypes GsSyntax.
Import Gs.
Local Open Scope Z_scope.

Module Checker.

(** ** Types *)

Definition types_compatible (expected actual : GsType) : bool :=
  bool_decide (expected = actual)
  || (bool_decide (expected = TyBool) && bool_decide (actual = TyI32))
  || (bool_decide (expected = TyI32) && bool_decide (actual = TyBool))
  || (bool_decide (expected = TyI64) && bool_decide (actual = TyI32))
  || (bool_decide (expected = TyF64) && bool_decide (actual = TyF32)).

Definition is_condition_type (t : GsType) : bool :=
  match t with TyBool | TyI32 => true | _ => false end.

(** ** State *)

Record SymbolInfo := mkSymbolInfo { sy_ty : GsType; sy_mutable : bool }.

(** [scopes] has the innermost scope first. *)
Definition SymbolTable : Type := list (gmap string SymbolInfo).

Record FunctionInfo := mkFunctionInfo {
  fi_params : list (string * GsType); fi_return_type : GsType }.

(** [SpanKey]: start and end. *)
Definition SpanKey : Type := nat * nat.
Definition span_key (sp : Span) : SpanKey := (sp_start sp, sp_end sp).

Record TypeChecker := mkTypeChecker {
  expr_types : gmap SpanKey GsType;
  symbols : SymbolTable;
  functions : gmap string FunctionInfo;
  current_return_type : GsType
}.

Definition new : TypeChecker := mkTypeChecker ∅ [∅] ∅ TyVoid.

Record TypedContract := mkTypedContract {
  tc_contract : Contract;
  tc_expr_types : gmap SpanKey GsType;
  tc_function_return_types : gmap string GsType
}.

Definition push_scope (s : SymbolTable) : SymbolTable := ∅ :: s.
Definition pop_scope (s : SymbolTable) : SymbolTable := tail s.

Definition define (name : string) (t : GsType) (mutable : bool) (s : SymbolTable) : SymbolTable :=
  match s with
  | scope :: s => <[name := mkSymbolInfo t mutable]> scope :: s
  | [] => []
  end.

Fixpoint lookup (name : string) (s : SymbolTable) : option SymbolInfo :=
  match s with
  | [] => None
  | scope :: s => match scope !! name with Some i => Some i | None => lookup name s end
  end.

(** ** Effects

    A check threads the checker and may fail; [?] keeps the state reached. *)

Definition M (A : Type) : Type := TypeChecker -> TypeChecker * result CompileError A.

Definition mret {A} (a : A) : M A := fun s => (s, Ok a).
Definition mfail {A} (e : CompileError) : M A := fun s => (s, Err e).
Definition mbind {A B} (m : M A) (k : A -> M B) : M B := fun s =>
  match m s with (s, Ok a) => k a s | (s, Err e) => (s, Err e) end.
Definition on_symbols (f : SymbolTable -> SymbolTable) : M unit := fun s =>
  (mkTypeChecker (expr_types s) (f (symbols s)) (functions s) (current_return_type s), Ok ()).
Definition gets {A} (f : TypeChecker -> A) : M A := fun s => (s, Ok (f s)).

Notation "'do' x <- m 'in' k" := (mbind m (fun x => k))
  (at level 10, x pattern, m at level 100, k at level 200).
Notation "'run' m 'in' k" := (mbind m (fun _ => k))
  (at level 10, m at level 100, k at level 200).

(** [if !b { return Err(..) }] *)
Definition guard_ (b : bool) (msg : string) (sp : Span) : M unit :=
  if b then mret () else mfail (type_err msg sp).

(** [for x in l { f(x)? }] *)
Fixpoint for_each {A} (f : A -> M unit) (l : list A) : M unit :=
  match l with
  | [] => mret ()
  | x :: l => run f x in for_each f l
  end.

(** ** Operators *)

Definition got (l r : GsType) : string := show_type l +:+ " and " +:+ show_type r.

Definition check_binop (op : BinOp) (l r : GsType) (sp : Span) : M GsType :=
  match op with
  | Add | Sub | Mul | Div =>
      run guard_ (is_numeric l)
        ("operator " +:+ debug_binop op +:+ " requires numeric operands, got " +:+ got l r) sp in
      run guard_ (types_compatible l r)
        ("operator " +:+ debug_binop op +:+ ": incompatible types " +:+ got l r) sp in
      mret l
  | Mod =>
      run guard_ (is_integer l)
        ("operator % requires integer operands, got " +:+ got l r) sp in
      run guard_ (types_compatible l r) ("operator %: incompatible types " +:+ got l r) sp in
      mret l
  | Eq | NotEq | Lt | Gt | LtEq | GtEq =>
      run guard_ (types_compatible l r)
        ("comparison " +:+ debug_binop op +:+ ": incompatible types " +:+ got l r) sp in
      mret TyBool
  | And | Or =>
      run guard_ (is_condition_type l && is_condition_type r)
        ("logical " +:+ debug_binop op +:+ ": operands must be bool or i32, got " +:+ got l r) sp in
      mret TyI32
  | BitAnd | BitOr | BitXor =>
      run guard_ (is_integer l)
        ("bitwise " +:+ debug_binop op +:+ ": requires integer operands, got " +:+ got l r) sp in
      run guard_ (types_compatible l r)
        ("bitwise " +:+ debug_binop op +:+ ": incompatible types " +:+ got l r) sp in
      mret l
  end.

Definition check_unaryop (op : UnaryOp) (t : GsType) (sp : Span) : M GsType :=
  match op with
  | Neg =>
      run guard_ (is_numeric t) ("unary '-' requires numeric operand, got " +:+ show_type t) sp in
      mret t
  | Not =>
      run guard_ (is_condition_type t) ("unary '!' requires bool or i32, got " +:+ show_type t) sp in
      mret TyI32
  end.

Definition check_field_access (t : GsType) (field : string) (sp : Span) : M GsType :=
  match t with
  | TyLocation =>
      run guard_ (bool_decide (field = "lat") || bool_decide (field = "lon"))
        ("Location has no field '" +:+ field +:+ "'") sp in
      mret TyF32
  | _ => mfail (type_err ("type " +:+ show_type t +:+ " has no fields") sp)
  end.

Definition check_cast (source target : GsType) (sp : Span) : M unit :=
  guard_ ((is_numeric source && is_numeric target)
          || (bool_decide (source = TyBool) && bool_decide (target = TyI32))
          || (bool_decide (source = TyI32) && bool_decide (target = TyBool)))
    ("cannot cast " +:+ show_type source +:+ " to " +:+ show_type target) sp.

(** ** Expressions *)

(** [symbols.lookup(name).ok_or_else(..)?] *)
Definition lookup_or_fail (name : string) (sp : Span) : M SymbolInfo :=
  do o <- gets (fun s => lookup name (symbols s)) in
  match o with
  | Some i => mret i
  | None => mfail (type_err ("undefined variable: '" +:+ name +:+ "'") sp)
  end.

Section calls.
Variable check_expr : Expr -> M GsType.

(** The argument loop of [check_call]: [func_info.params[i]] exists, the counts agree. *)
Fixpoint check_args (name : string) (params : list (string * GsType)) (args : list Expr)
  {struct args} : M unit :=
  match args with
  | [] => mret ()
  | arg :: args =>
      do arg_type <- check_expr arg in
      match params with
      | (param_name, param_type) :: params =>
          run guard_ (types_compatible param_type arg_type)
            ("argument '" +:+ param_name +:+ "' of function '" +:+ name +:+ "' expects "
               +:+ show_type param_type +:+ ", got " +:+ show_type arg_type) (expr_span arg) in
          check_args name params args
      | [] => mret ()
      end
  end.

Definition check_call (name : string) (args : list Expr) (sp : Span) : M GsType :=
  do o <- gets (fun s => functions s !! name) in
  match o with
  | None => mfail (type_err ("undefined function: '" +:+ name +:+ "'") sp)
  | Some func_info =>
      run guard_ (length args =? length (fi_params func_info))%nat
        ("function '" +:+ name +:+ "' expects " +:+ pretty (length (fi_params func_info))
           +:+ " arguments, got " +:+ pretty (length args)) sp in
      run check_args name (fi_params func_info) args in
      mret (fi_return_type func_info)
  end.

(** [args[0]], after the test that there is one argument. *)
Definition check_first (args : list Expr) : M GsType :=
  match args with
  | arg :: _ => check_expr arg
  | [] => mret TyVoid
  end.

Definition no_args (name : string) (args : list Expr) (t : GsType) (sp : Span) : M GsType :=
  run guard_ (match args with [] => true | _ => false end)
    (name +:+ "() takes no arguments") sp in
  mret t.

Definition check_builtin_call (b : Builtin) (args : list Expr) (sp : Span) : M GsType :=
  match b with
  | Location => no_args "@location" args TyLocation sp
  | Proximity => no_args "@proximity" args TyI32 sp
  | Presence => no_args "@presence" args TyI32 sp
  | Sensor =>
      run guard_ (length args =? 1)%nat "@sensor() takes exactly 1 argument (sensor type)" sp in
      do arg_type <- check_first args in
      run guard_ (types_compatible TyI32 arg_type)
        ("@sensor() argument must be i32, got " +:+ show_type arg_type) sp in
      mret TyF64
  | BlockHeight => no_args "@blockHeight" args TyI64 sp
  | BlockTime => no_args "@blockTime" args TyI64 sp
  | Caller => no_args "@caller" args TyAddress sp
  | Balance => no_args "@balance" args TyI64 sp
  | StoreRead =>
      run guard_ (length args =? 1)%nat "@store.read() takes exactly 1 argument" sp in
      do arg_type <- check_first args in
      run guard_ (bool_decide (arg_type = TyString) || bool_decide (arg_type = TyBytes))
        ("@store.read() key must be string or bytes, got " +:+ show_type arg_type) sp in
      mret TyBytes
  end.
End calls.

Definition i32_lit (v : Z) : bool := (- 2 ^ 31 <=? v) && (v <=? 2 ^ 31 - 1).

(** [self.expr_types.insert(SpanKey::from(expr.span()), resolved_type)] *)
Definition record_type (e : Expr) (t : GsType) : M GsType := fun s =>
  (mkTypeChecker (<[span_key (expr_span e) := t]> (expr_types s)) (symbols s)
     (functions s) (current_return_type s), Ok t).

Fixpoint check_expr (e : Expr) : M GsType :=
  do t <-
    match e with
    | IntLit v _ => mret (if i32_lit v then TyI32 else TyI64)
    | FloatLit _ _ => mret TyF32
    | StringLit _ _ => mret TyString
    | BoolLit _ _ => mret TyBool
    | Ident name sp => do i <- lookup_or_fail name sp in mret (sy_ty i)
    | EBinOp op l r sp =>
        do lt <- check_expr l in
        do rt <- check_expr r in
        check_binop op lt rt sp
    | EUnaryOp op x sp => do t <- check_expr x in check_unaryop op t sp
    | ECall name args sp => check_call check_expr name args sp
    | EBuiltinCall b args sp => check_builtin_call check_expr b args sp
    | EFieldAccess x field sp => do t <- check_expr x in check_field_access t field sp
    | ECast x target sp =>
        do t <- check_expr x in
        run check_cast t target sp in
        mret target
    end in
  record_type e t.

(** ** Statements *)

Definition check_condition (what : string) (e : Expr) (sp : Span) : M unit :=
  do t <- check_expr e in
  guard_ (is_condition_type t)
    (what +:+ " condition must be bool or i32, got " +:+ show_type t) sp.

Fixpoint check_stmt (x : Stmt) : M unit :=
  let block (l : list Stmt) : M unit :=
    run on_symbols push_scope in
    run for_each check_stmt l in
    on_symbols pop_scope in
  match x with
  | VarDecl name ty mutable initializer sp =>
      do init_type <- check_expr initializer in
      do declared_type <-
        (match ty with
         | Some t =>
             run guard_ (types_compatible t init_type)
               ("variable '" +:+ name +:+ "' declared as " +:+ show_type t
                  +:+ " but initializer has type " +:+ show_type init_type) sp in
             mret t
         | None => mret init_type
         end) in
      on_symbols (define name declared_type mutable)
  | Assign target value sp =>
      do i <- lookup_or_fail target sp in
      run guard_ (sy_mutable i)
        ("cannot assign to immutable variable '" +:+ target +:+ "'") sp in
      do value_type <- check_expr value in
      guard_ (types_compatible (sy_ty i) value_type)
        ("cannot assign " +:+ show_type value_type +:+ " to variable '" +:+ target
           +:+ "' of type " +:+ show_type (sy_ty i)) sp
  | Return value sp =>
      do return_type <- (match value with Some e => check_expr e | None => mret TyVoid end) in
      do expected <- gets current_return_type in
      guard_ (types_compatible expected return_type)
        ("return type mismatch: function expects " +:+ show_type expected +:+ ", got "
           +:+ show_type return_type) sp
  | If condition then_body else_body sp =>
      run check_condition "if" condition sp in
      run block then_body in
      block else_body
  | While condition body sp =>
      run check_condition "while" condition sp in
      block body
  | SExpr e => run check_expr e in mret ()
  | Emit topic data sp =>
      do topic_type <- check_expr topic in
      run check_expr data in
      guard_ (bool_decide (topic_type = TyString))
        ("emit topic must be string, got " +:+ show_type topic_type) sp
  | StoreWrite key value sp =>
      do key_type <- check_expr key in
      run check_expr value in
      guard_ (bool_decide (key_type = TyString) || bool_decide (key_type = TyBytes))
        ("storage key must be string or bytes, got " +:+ show_type key_type) sp
  end.

(** ** Contracts *)

Definition check_function (f : Function) : M unit :=
  run (fun s => (mkTypeChecker (expr_types s) (symbols s) (functions s) (fun_return_type f), Ok ())) in
  run on_symbols push_scope in
  run for_each (fun p => on_symbols (define (par_name p) (par_ty p) false)) (fun_params f) in
  run for_each check_stmt (fun_body f) in
  on_symbols pop_scope.

Definition register_function (f : Function) : M unit := fun s =>
  (mkTypeChecker (expr_types s) (symbols s)
     (<[fun_name f := mkFunctionInfo (map (fun p => (par_name p, par_ty p)) (fun_params f))
                        (fun_return_type f)]> (functions s))
     (current_return_type s), Ok ()).

Definition check_field (f : Field) : M unit :=
  match fld_initializer f with
  | Some init =>
      do init_type <- check_expr init in
      guard_ (types_compatible (fld_ty f) init_type)
        ("field '" +:+ fld_name f +:+ "' declared as " +:+ show_type (fld_ty f)
           +:+ " but initializer has type " +:+ show_type init_type) (fld_span f)
  | None => mret ()
  end.

Definition check (c : Contract) : M TypedContract :=
  run for_each (fun f => on_symbols (define (fld_name f) (fld_ty f) (fld_mutable f)))
    (con_fields c) in
  run for_each register_function (con_functions c) in
  run for_each check_field (con_fields c) in
  run for_each check_function (con_functions c) in
  do types <- gets expr_types in
  mret (mkTypedContract c types
          (foldl (fun m f => <[fun_name f := fun_return_type f]> m) ∅ (con_functions c))).

End Checker.
