(* ===== verification/GsCodegen.v ===== *)
(** * gratiascript: the code generator

    [crates/gratiascript/src/codegen.rs].  A function of
    the source that appends to [code], [body] or [out] returns the bytes it appends; the
    generator's state is threaded explicitly, also past an error. *)

From stdpp Require Import base strings list pretty.
From Stdlib Require Import ZArith Lia.
From S2P Require Import Prelude CoreTypes Ieee WasmModule GsSyntax GsTypes.
Import Gs.
Local Open Scope Z_scope.

Module CodeGen.

(** ** Constants *)

Definition WASM_MAGIC : bytes := [0x00; 0x61; 0x73; 0x6D].
Definition WASM_VERSION : bytes := [0x01; 0x00; 0x00; 0x00].

Definition SECTION_TYPE : Z := 1.
Definition SECTION_IMPORT : Z := 2.
Definition SECTION_FUNCTION : Z := 3.
Definition SECTION_MEMORY : Z := 5.
Definition SECTION_GLOBAL : Z := 6.
Definition SECTION_EXPORT : Z := 7.
Definition SECTION_CODE : Z := 10.
Definition SECTION_DATA : Z := 11.

Definition VALTYPE_I32 : Z := 0x7F.
Definition VALTYPE_I64 : Z := 0x7E.
Definition VALTYPE_F32 : Z := 0x7D.
Definition VALTYPE_F64 : Z := 0x7C.

Definition OP_BLOCK : Z := 0x02.
Definition OP_LOOP : Z := 0x03.
Definition OP_IF : Z := 0x04.
Definition OP_ELSE : Z := 0x05.
Definition OP_END : Z := 0x0B.
Definition OP_BR : Z := 0x0C.
Definition OP_BR_IF : Z := 0x0D.
Definition OP_RETURN : Z := 0x0F.
Definition OP_CALL : Z := 0x10.
Definition OP_DROP : Z := 0x1A.
Definition OP_LOCAL_GET : Z := 0x20.
Definition OP_LOCAL_SET : Z := 0x21.
Definition OP_GLOBAL_GET : Z := 0x23.
Definition OP_GLOBAL_SET : Z := 0x24.
Definition OP_I32_CONST : Z := 0x41.
Definition OP_I64_CONST : Z := 0x42.
Definition OP_F32_CONST : Z := 0x43.
Definition OP_F64_CONST : Z := 0x44.
Definition OP_I32_EQZ : Z := 0x45.
Definition OP_I32_EQ : Z := 0x46.
Definition OP_I32_NE : Z := 0x47.
Definition OP_I32_LT_S : Z := 0x48.
Definition OP_I32_GT_S : Z := 0x4A.
Definition OP_I32_LE_S : Z := 0x4C.
Definition OP_I32_GE_S : Z := 0x4E.
Definition OP_F32_EQ : Z := 0x5B.
Definition OP_F32_NE : Z := 0x5C.
Definition OP_F32_LT : Z := 0x5D.
Definition OP_F32_GT : Z := 0x5E.
Definition OP_F32_LE : Z := 0x5F.
Definition OP_F32_GE : Z := 0x60.
Definition OP_I32_ADD : Z := 0x6A.
Definition OP_I32_SUB : Z := 0x6B.
Definition OP_I32_MUL : Z := 0x6C.
Definition OP_I32_DIV_S : Z := 0x6D.
Definition OP_I32_REM_S : Z := 0x6F.
Definition OP_I32_AND : Z := 0x71.
Definition OP_I32_OR : Z := 0x72.
Definition OP_I32_XOR : Z := 0x73.
Definition OP_F32_ADD : Z := 0x92.
Definition OP_F32_SUB : Z := 0x93.
Definition OP_F32_MUL : Z := 0x94.
Definition OP_F32_DIV : Z := 0x95.
Definition OP_F32_NEG : Z := 0x8C.
Definition OP_I32_WRAP_I64 : Z := 0xA7.
Definition OP_I32_TRUNC_F32_S : Z := 0xA8.
Definition OP_I64_EXTEND_I32_S : Z := 0xAC.
Definition OP_F32_CONVERT_I32_S : Z := 0xB2.
Definition OP_F32_DEMOTE_F64 : Z := 0xB6.
Definition OP_F64_CONVERT_I32_S : Z := 0xB7.
Definition OP_F64_PROMOTE_F32 : Z := 0xBB.
Definition BLOCK_VOID : Z := 0x40.

(** ** Encodings *)

(** LEB128 of an unsigned integer: [val >>= 7] is zero after five rounds on 32 bits. *)
Fixpoint encode_uleb (n : nat) (val : Z) : bytes :=
  match n with
  | O => []
  | S n =>
      let byte := Z.land val 0x7F in
      let val := Z.shiftr val 7 in
      if val =? 0 then [byte] else Z.lor byte 0x80 :: encode_uleb n val
  end.

Definition encode_u32 : Z -> bytes := encode_uleb 5.

(** LEB128 of a signed integer: the shift is arithmetic, so a value of 32 bits is 0 or -1
    after five rounds, one of 64 bits after ten. *)
Fixpoint encode_sleb (n : nat) (val : Z) : bytes :=
  match n with
  | O => []
  | S n =>
      let byte := Z.land val 0x7F in
      let val := Z.shiftr val 7 in
      let done := ((val =? 0) && (Z.land byte 0x40 =? 0))
                  || ((val =? -1) && negb (Z.land byte 0x40 =? 0)) in
      if done then [byte] else Z.lor byte 0x80 :: encode_sleb n val
  end.

Definition encode_i32 : Z -> bytes := encode_sleb 5.
Definition encode_i64 : Z -> bytes := encode_sleb 10.

#[global] Arguments encode_u32 : simpl never.
#[global] Arguments encode_i32 : simpl never.
#[global] Arguments encode_i64 : simpl never.

(** [s.as_bytes()] *)
Definition as_bytes (s : string) : bytes :=
  map (fun a => Z.of_N (Ascii.N_of_ascii a)) (String.list_ascii_of_string s).

(** [x.len() as u32] *)
Definition len32 {A} (l : list A) : Z := wrap 32 (Z.of_nat (length l)).

Definition encode_str (s : string) : bytes := encode_u32 (len32 (as_bytes s)) ++ as_bytes s.

Definition emit_section (id : Z) (body : bytes) : bytes :=
  id :: encode_u32 (len32 body) ++ body.

Definition type_to_valtype (t : GsType) : Z :=
  match t with
  | TyI32 | TyBool => VALTYPE_I32
  | TyI64 => VALTYPE_I64
  | TyF32 => VALTYPE_F32
  | TyF64 => VALTYPE_F64
  | TyString | TyBytes | TyAddress | TyLocation => VALTYPE_I32
  | TyVoid => VALTYPE_I32
  end.

Definition encode_vec_types (l : list GsType) : bytes :=
  encode_u32 (len32 l) ++ map type_to_valtype l.

(** [(v as f32).to_le_bytes()] of an [f64]. *)
Definition f32_bytes (v : Z) : bytes := le_bytes 4 (Ieee.convert Ieee.f64 Ieee.f32 v).

Definition emit_zero_const (t : GsType) : bytes :=
  match t with
  | TyI32 | TyBool | TyString | TyBytes | TyAddress | TyLocation | TyVoid =>
      OP_I32_CONST :: encode_i32 0
  | TyI64 => OP_I64_CONST :: encode_i64 0
  | TyF32 => OP_F32_CONST :: le_bytes 4 0
  | TyF64 => OP_F64_CONST :: le_bytes 8 0
  end.

Definition emit_const_expr (e : Expr) (t : GsType) : bytes :=
  match e, t with
  | IntLit v _, TyI32 => OP_I32_CONST :: encode_i32 (Wasm.signed 32 v)
  | IntLit v _, TyI64 => OP_I64_CONST :: encode_i64 v
  | FloatLit v _, TyF32 => OP_F32_CONST :: f32_bytes v
  | FloatLit v _, TyF64 => OP_F64_CONST :: le_bytes 8 v
  | BoolLit b _, _ => OP_I32_CONST :: encode_i32 (if b then 1 else 0)
  | _, _ => emit_zero_const t
  end.

(** ** State *)

Record Local := mkLocal { loc_name : string; loc_ty : GsType; loc_index : Z }.
Record ImportedFunc := mkImportedFunc { if_name : string; if_type_idx : Z; if_func_idx : Z }.
Record StringData := mkStringData { sd_offset : Z; sd_len : Z }.

(** The field [output] of the source is never used. *)
Record CodeGen := mkCodeGen {
  types : list bytes;
  imports : list ImportedFunc;
  import_count : Z;
  globals : list (string * GsType);
  string_data : list (string * StringData);
  next_data_offset : Z
}.

Definition new : CodeGen := mkCodeGen [] [] 0 [] [] 2048.

Definition set_types (l : list bytes) (s : CodeGen) : CodeGen :=
  mkCodeGen l (imports s) (import_count s) (globals s) (string_data s) (next_data_offset s).
Definition set_globals (l : list (string * GsType)) (s : CodeGen) : CodeGen :=
  mkCodeGen (types s) (imports s) (import_count s) l (string_data s) (next_data_offset s).

Definition find_string (s : string) (l : list (string * StringData)) : option StringData :=
  snd <$> List.find (fun p => bool_decide (p.1 = s)) l.

Definition allocate_string (str : string) (s : CodeGen) : CodeGen * (Z * Z) :=
  match find_string str (string_data s) with
  | Some d => (s, (sd_offset d, sd_len d))
  | None =>
      let offset := next_data_offset s in
      let len := len32 (as_bytes str) in
      (mkCodeGen (types s) (imports s) (import_count s) (globals s)
         (string_data s ++ [(str, mkStringData offset len)])
         (wadd 32 (wadd 32 offset len) ((4 - len mod 4) mod 4)),
       (offset, len))
  end.

(** The first index whose element satisfies [p]. *)
Fixpoint position {A} (p : A -> bool) (l : list A) : option nat :=
  match l with
  | [] => None
  | x :: l => if p x then Some O else S <$> position p l
  end.

Definition register_type (params results : list GsType) (s : CodeGen) : CodeGen * Z :=
  let sig := 0x60 :: encode_vec_types params ++ encode_vec_types results in
  match position (fun existing => bool_decide (existing = sig)) (types s) with
  | Some i => (s, wrap 32 (Z.of_nat i))
  | None => (set_types (types s ++ [sig]) s, len32 (types s))
  end.

Definition register_func_type (params : list Param) (return_type : GsType) (s : CodeGen)
  : CodeGen * Z :=
  register_type (map par_ty params)
    (if decide (return_type = TyVoid) then [] else [return_type]) s.

Definition add_import (name : string) (params results : list GsType) (s : CodeGen) : CodeGen :=
  let '(s, type_idx) := register_type params results s in
  mkCodeGen (types s) (imports s ++ [mkImportedFunc name type_idx (import_count s)])
    (wadd 32 (import_count s) 1) (globals s) (string_data s) (next_data_offset s).

Definition register_host_imports (s : CodeGen) : CodeGen :=
  let s := add_import "get_location_lat" [] [TyF32] s in
  let s := add_import "get_location_lon" [] [TyF32] s in
  let s := add_import "get_nearby_peers" [] [TyI32] s in
  let s := add_import "get_presence_score" [] [TyI32] s in
  let s := add_import "get_sensor_data" [TyI32] [TyF64] s in
  let s := add_import "get_block_height" [] [TyI64] s in
  let s := add_import "get_block_timestamp" [] [TyI64] s in
  let s := add_import "get_caller_address" [] [TyI32] s in
  let s := add_import "get_caller_balance" [] [TyI64] s in
  let s := add_import "storage_read" [TyI32; TyI32] [TyI32] s in
  let s := add_import "storage_write" [TyI32; TyI32; TyI32; TyI32] [] s in
  add_import "emit_event" [TyI32; TyI32; TyI32; TyI32] [] s.

Definition find_global (name : string) (s : CodeGen) : option Z :=
  (fun i => wrap 32 (Z.of_nat i)) <$> position (fun g => bool_decide (g.1 = name)) (globals s).

Definition find_import (name : string) (s : CodeGen) : option Z :=
  if_func_idx <$> List.find (fun i => bool_decide (if_name i = name)) (imports s).

Definition find_local (locals : list Local) (name : string) : result CompileError Local :=
  ok_or (List.find (fun l => bool_decide (loc_name l = name)) locals)
    (CodegenError ("undefined variable: " +:+ name)).

(** ** Effects *)

Definition M (A : Type) : Type := CodeGen -> CodeGen * result CompileError A.

Definition mret {A} (a : A) : M A := fun s => (s, Ok a).
Definition mbind {A B} (m : M A) (k : A -> M B) : M B := fun s =>
  match m s with (s, Ok a) => k a s | (s, Err e) => (s, Err e) end.
Definition lift {A} (r : result CompileError A) : M A := fun s => (s, r).
Definition gets {A} (f : CodeGen -> A) : M A := fun s => (s, Ok (f s)).
Definition alloc (str : string) : M (Z * Z) := fun s =>
  let '(s, p) := allocate_string str s in (s, Ok p).

Notation "'do' x <- m 'in' k" := (mbind m (fun x => k))
  (at level 10, x pattern, m at level 100, k at level 200).

(** [for x in l { f(code, x)? }] *)
Fixpoint emit_each {A} (f : A -> M bytes) (l : list A) : M bytes :=
  match l with
  | [] => mret []
  | x :: l => do c <- f x in do c' <- emit_each f l in mret (c ++ c')
  end.

(** ** Expressions *)

(** Whether the generator takes an expression for a float. *)
Fixpoint expr_is_float (s : CodeGen) (locals : list Local) (e : Expr) : bool :=
  match e with
  | FloatLit _ _ => true
  | IntLit _ _ | BoolLit _ _ | StringLit _ _ => false
  | Ident name _ =>
      match find_global name s with
      | Some idx => from_option (fun g => is_float g.2) false (globals s !! Z.to_nat idx)
      | None =>
          from_option (fun l => is_float (loc_ty l)) false
            (List.find (fun l => bool_decide (loc_name l = name)) locals)
      end
  | EBinOp _ l _ _ => expr_is_float s locals l
  | EUnaryOp _ x _ => expr_is_float s locals x
  | EFieldAccess _ field _ => bool_decide (field = "lat") || bool_decide (field = "lon")
  | EBuiltinCall b _ _ => bool_decide (b = Location) || bool_decide (b = Sensor)
  | ECall _ _ _ => false
  | ECast _ t _ => is_float t
  end.

Definition binop_code (op : BinOp) (is_float : bool) : Z :=
  match op with
  | Add => if is_float then OP_F32_ADD else OP_I32_ADD
  | Sub => if is_float then OP_F32_SUB else OP_I32_SUB
  | Mul => if is_float then OP_F32_MUL else OP_I32_MUL
  | Div => if is_float then OP_F32_DIV else OP_I32_DIV_S
  | Mod => OP_I32_REM_S
  | Eq => if is_float then OP_F32_EQ else OP_I32_EQ
  | NotEq => if is_float then OP_F32_NE else OP_I32_NE
  | Lt => if is_float then OP_F32_LT else OP_I32_LT_S
  | Gt => if is_float then OP_F32_GT else OP_I32_GT_S
  | LtEq => if is_float then OP_F32_LE else OP_I32_LE_S
  | GtEq => if is_float then OP_F32_GE else OP_I32_GE_S
  | And | BitAnd => OP_I32_AND
  | Or | BitOr => OP_I32_OR
  | BitXor => OP_I32_XOR
  end.

Definition cast_code (t : GsType) (source_is_float : bool) : bytes :=
  match t, source_is_float with
  | TyI32, true => [OP_I32_TRUNC_F32_S]
  | TyI64, true => [OP_I32_TRUNC_F32_S; OP_I64_EXTEND_I32_S]
  | TyF32, false => [OP_F32_CONVERT_I32_S]
  | TyF64, false => [OP_F64_CONVERT_I32_S]
  | TyF64, true => [OP_F64_PROMOTE_F32]
  | TyF32, true => [OP_F32_DEMOTE_F64]
  | TyI64, false => [OP_I64_EXTEND_I32_S]
  | TyI32, false => [OP_I32_WRAP_I64]
  | _, _ => []
  end.

Definition import_name (b : Builtin) : string :=
  match b with
  | Location => "get_location_lat"
  | Proximity => "get_nearby_peers"
  | Presence => "get_presence_score"
  | Sensor => "get_sensor_data"
  | BlockHeight => "get_block_height"
  | BlockTime => "get_block_timestamp"
  | Caller => "get_caller_address"
  | Balance => "get_caller_balance"
  | StoreRead => "storage_read"
  end.

(** [self.find_import(name).ok_or_else(..)?], then the call. *)
Definition call_import (name err : string) : M bytes :=
  do o <- gets (find_import name) in
  do idx <- lift (ok_or o (CodegenError err)) in
  mret (OP_CALL :: encode_u32 idx).

Definition i32_const (v : Z) : bytes := OP_I32_CONST :: encode_i32 v.

(** [i32.const offset] and [i32.const len] of a literal, or two zeros. *)
Definition string_pair (e : option Expr) : M bytes :=
  match e with
  | Some (StringLit str _) =>
      do (offset, len) <- alloc str in
      mret (i32_const (Wasm.signed 32 offset) ++ i32_const (Wasm.signed 32 len))
  | _ => mret (i32_const 0 ++ i32_const 0)
  end.

Definition get_variable (locals : list Local) (name : string) : M bytes :=
  do g <- gets (find_global name) in
  match g with
  | Some idx => mret (OP_GLOBAL_GET :: encode_u32 idx)
  | None =>
      do l <- lift (find_local locals name) in
      mret (OP_LOCAL_GET :: encode_u32 (loc_index l))
  end.

Definition compile_builtin (locals : list Local) (b : Builtin) (args : list Expr) (arg_code : bytes)
  : M bytes :=
  match b with
  | StoreRead =>
      do o <- gets (find_import "storage_read") in
      do idx <- lift (ok_or o (CodegenError "storage_read import not found")) in
      do kp <- string_pair (head args) in
      mret (arg_code ++ OP_DROP :: kp ++ OP_CALL :: encode_u32 idx)
  | b =>
      do call <- call_import (import_name b) ("unknown builtin: " +:+ import_name b) in
      mret (arg_code ++ call)
  end.

Fixpoint compile_expr (locals : list Local) (e : Expr) : M bytes :=
  match e with
  | IntLit v _ =>
      mret (if Checker.i32_lit v then i32_const v else OP_I64_CONST :: encode_i64 v)
  | FloatLit v _ => mret (OP_F32_CONST :: f32_bytes v)
  | BoolLit b _ => mret (i32_const (if b then 1 else 0))
  | StringLit str _ =>
      do (offset, _) <- alloc str in mret (i32_const (Wasm.signed 32 offset))
  | Ident name _ => get_variable locals name
  | EBinOp op l r _ =>
      do cl <- compile_expr locals l in
      do cr <- compile_expr locals r in
      do fl <- gets (fun s => expr_is_float s locals l) in
      mret (cl ++ cr ++ [binop_code op fl])
  | EUnaryOp op x _ =>
      do c <- compile_expr locals x in
      do fl <- gets (fun s => expr_is_float s locals x) in
      mret (c ++ match op with
                 | Neg => if fl then [OP_F32_NEG] else i32_const (-1) ++ [OP_I32_MUL]
                 | Not => [OP_I32_EQZ]
                 end)
  | ECall _ args _ =>
      do c <- emit_each (compile_expr locals) args in
      do idx <- gets import_count in
      mret (c ++ OP_CALL :: encode_u32 idx)
  | EBuiltinCall b args _ =>
      do c <- emit_each (compile_expr locals) args in
      compile_builtin locals b args c
  | EFieldAccess x field _ =>
      if bool_decide (field = "lat") then
        call_import "get_location_lat" "host function get_location_lat not found in imports"
      else if bool_decide (field = "lon") then
        call_import "get_location_lon" "host function get_location_lon not found in imports"
      else compile_expr locals x
  | ECast x t _ =>
      do c <- compile_expr locals x in
      do fl <- gets (fun s => expr_is_float s locals x) in
      mret (c ++ cast_code t fl)
  end.

(** ** Statements *)

Definition compile_string_arg (locals : list Local) (e : Expr) : M bytes :=
  match e with
  | StringLit _ _ => string_pair (Some e)
  | _ =>
      do c <- compile_expr locals e in
      mret (c ++ i32_const 1536 ++ [OP_DROP] ++ i32_const 0 ++ i32_const 0)
  end.

(** The two string arguments and the call of [emit_event] or [storage_write]. *)
Definition compile_host_pair (locals : list Local) (name : string) (a b : Expr) : M bytes :=
  do ca <- compile_string_arg locals a in
  do cb <- compile_string_arg locals b in
  do call <- call_import name (name +:+ " import not found") in
  mret (ca ++ cb ++ call).

Fixpoint compile_stmt (locals : list Local) (x : Stmt) : M bytes :=
  match x with
  | VarDecl name _ _ initializer _ =>
      do c <- compile_expr locals initializer in
      do l <- lift (find_local locals name) in
      mret (c ++ OP_LOCAL_SET :: encode_u32 (loc_index l))
  | Assign target value _ =>
      do c <- compile_expr locals value in
      do g <- gets (find_global target) in
      match g with
      | Some idx => mret (c ++ OP_GLOBAL_SET :: encode_u32 idx)
      | None =>
          do l <- lift (find_local locals target) in
          mret (c ++ OP_LOCAL_SET :: encode_u32 (loc_index l))
      end
  | Return value _ =>
      do c <- (match value with Some e => compile_expr locals e | None => mret [] end) in
      mret (c ++ [OP_RETURN])
  | If condition then_body else_body _ =>
      do c <- compile_expr locals condition in
      do ct <- emit_each (compile_stmt locals) then_body in
      do ce <-
        (match else_body with
         | [] => mret []
         | _ => do ce <- emit_each (compile_stmt locals) else_body in mret (OP_ELSE :: ce)
         end) in
      mret (c ++ [OP_IF; BLOCK_VOID] ++ ct ++ ce ++ [OP_END])
  | While condition body _ =>
      do c <- compile_expr locals condition in
      do cb <- emit_each (compile_stmt locals) body in
      mret ([OP_BLOCK; BLOCK_VOID; OP_LOOP; BLOCK_VOID] ++ c ++ [OP_I32_EQZ; OP_BR_IF]
              ++ encode_u32 1 ++ cb ++ OP_BR :: encode_u32 0 ++ [OP_END; OP_END])
  | SExpr e =>
      do c <- compile_expr locals e in
      mret (c ++ [OP_DROP])
  | Emit topic data _ => compile_host_pair locals "emit_event" topic data
  | StoreWrite key value _ => compile_host_pair locals "storage_write" key value
  end.

(** ** Functions *)

(** The vectors [locals] and [extra]. *)
Definition frame : Type := list Local * list GsType.

Section collect.
Variable collect : Stmt -> frame -> Z -> frame * Z.

Fixpoint collect_block (l : list Stmt) (a : frame) (idx : Z) : frame :=
  match l with
  | [] => a
  | x :: l => let '(a, idx) := collect x a idx in collect_block l a idx
  end.
End collect.

(** One round of the loop of [collect_locals]; blocks get the index by value. *)
Fixpoint collect_stmt (x : Stmt) (a : frame) (idx : Z) : frame * Z :=
  match x with
  | VarDecl name ty _ _ _ =>
      let resolved_ty := default TyI32 ty in
      ((a.1 ++ [mkLocal name resolved_ty idx], a.2 ++ [resolved_ty]), wadd 32 idx 1)
  | If _ then_body else_body _ =>
      let a := collect_block collect_stmt then_body a idx in
      (collect_block collect_stmt else_body a idx, idx)
  | While _ body _ => (collect_block collect_stmt body a idx, idx)
  | _ => (a, idx)
  end.

Definition collect_locals (l : list Stmt) (a : frame) (next_idx : Z) : frame :=
  collect_block collect_stmt l a next_idx.

(** How many of the next locals have the value type [vt]. *)
Fixpoint same_run (vt : Z) (l : list GsType) : nat :=
  match l with
  | t :: l => if type_to_valtype t =? vt then S (same_run vt l) else O
  | [] => O
  end.

(** The [while i < extra_locals.len()] loop; every round consumes a local. *)
Fixpoint local_decls (n : nat) (l : list GsType) : list (nat * Z) :=
  match n, l with
  | S n, t :: l =>
      let vt := type_to_valtype t in
      let more := same_run vt l in
      (S more, vt) :: local_decls n (drop more l)
  | _, _ => []
  end.

Definition encode_locals (extra : list GsType) : bytes :=
  let decls := local_decls (length extra) extra in
  encode_u32 (len32 decls)
    ++ (decls ≫= fun d => encode_u32 (wrap 32 (Z.of_nat d.1)) ++ [d.2]).

Definition param_locals (l : list Param) : list Local :=
  imap (fun i p => mkLocal (par_name p) (par_ty p) (wrap 32 (Z.of_nat i))) l.

(** The tables [locals] and [extra_locals] of a function. *)
Definition function_frame (f : Function) : frame :=
  collect_locals (fun_body f) (param_locals (fun_params f), []) (len32 (fun_params f)).

Definition compile_function (f : Function) : M bytes :=
  let '(locals, extra) := function_frame f in
  do c <- emit_each (compile_stmt locals) (fun_body f) in
  mret (encode_locals extra ++ c ++ [OP_END]).

(** ** Sections *)

Definition emit_type_section (s : CodeGen) : bytes :=
  emit_section SECTION_TYPE (encode_u32 (len32 (types s)) ++ concat (types s)).

Definition emit_import_section (s : CodeGen) : bytes :=
  match imports s with
  | [] => []
  | l =>
      emit_section SECTION_IMPORT
        (encode_u32 (len32 l)
           ++ (l ≫= fun i => encode_str "env" ++ encode_str (if_name i) ++ 0x00
                              :: encode_u32 (if_type_idx i)))
  end.

Definition emit_function_section (type_indices : list Z) : bytes :=
  emit_section SECTION_FUNCTION (encode_u32 (len32 type_indices) ++ (type_indices ≫= encode_u32)).

Definition emit_memory_section : bytes :=
  emit_section SECTION_MEMORY (encode_u32 1 ++ 0x00 :: encode_u32 1).

(** The entry of global [i]; its initializer is that of the field [i]. *)
Definition emit_global (fields : list Field) (i : nat) (g : string * GsType) : bytes :=
  type_to_valtype g.2 :: 0x01 ::
    match fields !! i with
    | Some f =>
        match fld_initializer f with
        | Some init => emit_const_expr init g.2
        | None => emit_zero_const g.2
        end
    | None => emit_zero_const g.2
    end ++ [OP_END].

Definition emit_global_section (s : CodeGen) (c : Contract) : bytes :=
  match globals s with
  | [] => []
  | l =>
      emit_section SECTION_GLOBAL
        (encode_u32 (len32 l) ++ concat (imap (emit_global (con_fields c)) l))
  end.

Definition emit_export_section (s : CodeGen) (c : Contract) : bytes :=
  emit_section SECTION_EXPORT
    (encode_u32 (wrap 32 (Z.of_nat (length (con_functions c)) + 1))
       ++ encode_str "memory" ++ 0x02 :: encode_u32 0
       ++ concat (imap (fun i f => encode_str (fun_name f) ++ 0x00
                          :: encode_u32 (wadd 32 (import_count s) (wrap 32 (Z.of_nat i))))
                    (con_functions c))).

Definition emit_code_section (c : Contract) : M bytes :=
  do bodies <- emit_each (fun f => do b <- compile_function f in
                                   mret (encode_u32 (len32 b) ++ b)) (con_functions c) in
  mret (emit_section SECTION_CODE (encode_u32 (len32 (con_functions c)) ++ bodies)).

Definition emit_data (d : string * StringData) : bytes :=
  encode_u32 0 ++ OP_I32_CONST :: encode_i32 (Wasm.signed 32 (sd_offset d.2)) ++ OP_END
    :: encode_u32 (sd_len d.2) ++ as_bytes d.1.

Definition emit_data_section (s : CodeGen) : bytes :=
  match string_data s with
  | [] => []
  | l => emit_section SECTION_DATA (encode_u32 (len32 l) ++ (l ≫= emit_data))
  end.

(** ** The compiler *)

Fixpoint register_functions (l : list Function) (s : CodeGen) : CodeGen * list Z :=
  match l with
  | [] => (s, [])
  | f :: l =>
      let '(s, i) := register_func_type (fun_params f) (fun_return_type f) s in
      let '(s, ids) := register_functions l s in
      (s, i :: ids)
  end.

Definition compile (c : Contract) : M bytes := fun s =>
  let s := set_globals (globals s ++ map (fun f => (fld_name f, fld_ty f)) (con_fields c)) s in
  let s := register_host_imports s in
  let '(s, func_type_indices) := register_functions (con_functions c) s in
  let head :=
    WASM_MAGIC ++ WASM_VERSION ++ emit_type_section s ++ emit_import_section s
      ++ emit_function_section func_type_indices ++ emit_memory_section
      ++ emit_global_section s c ++ emit_export_section s c in
  (do code <- emit_code_section c in
   do data <- gets emit_data_section in
   mret (head ++ code ++ data)) s.
End CodeGen.
