(* ===== verification/GsFrontend.v ===== *)
(** * gratiascript: the compiler always answers

    Module [Compiler] holds the entry points of [crates/gratiascript/src/lib.rs].  The
    loops of the lexer and of the parser consume input in every round, so the number of
    characters and of tokens bounds them: the compiler returns code or an error for every
    source text. *)

From stdpp Require Import base strings list pretty.
From Stdlib Require Import ZArith Lia.
From S2P Require Import Prelude CoreTypes WasmModule GsSyntax GsLexer GsParser GsTypes GsCodegen.
Import Gs.

(** ** The entry points *)

Module Compiler.

Definition of_result {A} (r : result CompileError A) : outcome A :=
  match r with Ok a => Done a | Err e => Fail e end.

Definition compile `{!DebugText} (source : list Z) : outcome bytes :=
  let! tokens := Lexer.tokenize source in
  let! contract := Parser.parse_contract tokens in
  let! _ := of_result (Checker.check contract Checker.new).2 in
  of_result (CodeGen.compile contract CodeGen.new).2.

Definition compile_named `{!DebugText} (source : list Z) : outcome (string * bytes) :=
  let! tokens := Lexer.tokenize source in
  let! contract := Parser.parse_contract tokens in
  let! wasm := of_result (CodeGen.compile contract CodeGen.new).2 in
  Done (con_name contract, wasm).

End Compiler.

Module Frontend.

(** ** The lexer *)

Module Lex.
Import Lexer.

Definition size (lx : lexer) : nat := length lx.1.

(** A token other than the end, read from a text of [n] characters. *)
Definition lexes (n : nat) (o : outcome (Token * lexer)) : Prop :=
  match o with
  | Done (t, lx) => tk_kind t <> TkEof /\ (size lx < n)%nat
  | Fail _ => True
  | Panicked | NoFuel => False
  end.

Lemma skip_whitespace_size lx : (size (skip_whitespace lx) <= size lx)%nat.
Proof.
  destruct lx as [l c]. unfold skip_whitespace, size. cbn. revert c.
  induction l as [|ch l IH]; intros c; cbn; [lia|].
  destruct (is_whitespace ch); [|cbn; lia]. specialize (IH (past ch c)). lia.
Qed.

Lemma skip_line_comment_size lx : (size (skip_line_comment lx) <= size lx)%nat.
Proof.
  destruct lx as [l c]. unfold skip_line_comment, size. cbn. revert c.
  induction l as [|ch l IH]; intros c; cbn; [lia|].
  destruct (ch =? c_newline)%Z; cbn; [lia|]. specialize (IH (past ch c)). lia.
Qed.

Lemma skip_block_comment_size lx :
  match skip_block_comment lx with
  | Done lx' => (size lx' <= size lx)%nat
  | Fail _ => True
  | _ => False
  end.
Proof.
  destruct lx as [l c]. unfold skip_block_comment, size. cbn [fst snd].
  generalize (LexerError "unterminated block comment" (line c) (col c)). intros err. revert c.
  induction l as [|ch l IH]; intros c; cbn; [done|].
  destruct l as [|ch' l]; [done|].
  destruct ((ch =? c_star) && (ch' =? c_slash))%Z; [cbn; lia|].
  specialize (IH (past ch c)). destruct skip_block_comment_in; [cbn in *; lia|done..].
Qed.

Lemma take_word_size l c : (size (take_word l c).2 <= length l)%nat.
Proof.
  unfold size. revert c. induction l as [|ch l IH]; intros c; cbn; [lia|].
  destruct (is_word ch); [|cbn; lia]. specialize (IH (past ch c)).
  destruct (take_word l (past ch c)) as [w lx]. cbn in *. lia.
Qed.

Lemma take_number_size fl l c : (size (take_number fl l c).2 <= length l)%nat.
Proof.
  unfold size. revert fl c. induction l as [|ch l IH]; intros fl c; cbn; [lia|].
  destruct (is_ascii_digit ch || (ch =? c_underscore)%Z).
  { specialize (IH fl (past ch c)). destruct (take_number fl l (past ch c)) as [[s f] lx]. cbn in *. lia. }
  destruct ((ch =? c_dot)%Z && negb fl); [|cbn; lia].
  destruct l as [|d l]; [cbn; lia|]. destruct (is_ascii_digit d); [|cbn; lia].
  specialize (IH true (past ch c)). destruct (take_number true _ (past ch c)) as [[s f] lx]. cbn in *. lia.
Qed.

Lemma take_string_size start l c :
  match take_string start l c with
  | Done (_, lx) => (size lx <= length l)%nat
  | Fail _ => True
  | _ => False
  end.
Proof.
  unfold size. assert (Hn : (length l <= length l)%nat) by lia. revert Hn.
  generalize (length l) at 2 3. intros n. revert l c.
  induction n as [|n IH]; intros [|ch l] c Hn; cbn in Hn; [done|lia|done|]. cbn.
  destruct (ch =? c_quote)%Z; [cbn; lia|]. destruct (ch =? c_backslash)%Z.
  - destruct l as [|e l]; [done|]. destruct (escape e); [|done].
    specialize (IH l (past e (past ch c))). cbn in Hn.
    destruct (take_string start l _) as [[s lx]| | |]; cbn; [|done|apply IH; lia..].
    specialize (IH ltac:(lia)). lia.
  - specialize (IH l (past ch c)).
    destruct (take_string start l _) as [[s lx]| | |]; cbn; [|done|apply IH; lia..].
    specialize (IH ltac:(lia)). lia.
Qed.

(** Every entry of the keyword, builtin and operator tables is a token of its own. *)
Lemma assoc_Forall {A} (P : A -> Prop) s l v :
  Forall (fun p => P p.2) l -> assoc s l = Some v -> P v.
Proof.
  induction 1 as [|[k w] l Hw _ IH]; cbn; [done|]. case_bool_decide; [|done]. by intros [= <-].
Qed.

Lemma keyword_not_eof s k : keyword s = Some k -> k <> TkEof.
Proof. apply (assoc_Forall (fun k => k <> TkEof)). repeat constructor; done. Qed.

Lemma builtin_not_eof s k : builtin s = Some k -> k <> TkEof.
Proof. apply (assoc_Forall (fun k => k <> TkEof)). repeat constructor; done. Qed.

Lemma operator_not_eof ch seconds one :
  operator ch = Some (seconds, one) ->
  one <> TkEof /\ Forall (fun p => p.2 <> TkEof) seconds.
Proof.
  unfold operator. intros H.
  repeat match type of H with
  | match ?x with _ => _ end = _ => destruct x; try discriminate H
  end; injection H as <- <-; (split; [done|repeat constructor; done]).
Qed.

Lemma longer_spec seconds one lx :
  one <> TkEof -> Forall (fun p => p.2 <> TkEof) seconds ->
  (longer seconds one lx).1 <> TkEof /\ (size (longer seconds one lx).2 <= size lx)%nat.
Proof.
  intros H1. induction 1 as [|[c2 two] seconds H2 _ IH]; cbn; [done|].
  case_bool_decide; [|done]. cbn. split; [done|].
  destruct lx as [[|ch l] c]; unfold skip1, size; cbn; lia.
Qed.

Lemma lex_at_builtin_spec ch l c : lexes (S (length l)) (lex_at_builtin (ch :: l, c)).
Proof.
  unfold lex_at_builtin. cbn [skip1 advance from_option snd fst].
  pose proof (take_word_size l (past ch c)) as H1.
  destruct (take_word l (past ch c)) as [w [l1 c1]]. unfold size in H1. cbn [fst snd] in *.
  case_match eqn:E. assert (size l2 <= length l)%nat as H2.
  { destruct (_ && _); [|by simplify_eq].
    assert (length (skip1 (l1, c1)).1 <= length l1)%nat as H3 by (destruct l1; cbn; lia).
    pose proof (take_word_size (skip1 (l1, c1)).1 (skip1 (l1, c1)).2) as H4.
    destruct (take_word _ _) as [w' lx']. simplify_eq. cbn in *. lia. }
  destruct (builtin _) eqn:Eb; cbn; [|done]. split; [by eapply builtin_not_eof|lia].
Qed.

Lemma lex_number_spec ch l c : is_ascii_digit ch = true -> lexes (S (length l)) (lex_number (ch :: l, c)).
Proof.
  intros Hd. unfold lex_number. cbn [fst snd take_number]. rewrite Hd. cbn [orb].
  pose proof (take_number_size false l (past ch c)) as H1.
  destruct (take_number false l (past ch c)) as [[s f] lx]. cbn in H1.
  destruct f; (case_match; cbn; [|done]); (split; [done|lia]).
Qed.

Lemma lex_string_spec ch l c : lexes (S (length l)) (lex_string (ch :: l, c)).
Proof.
  unfold lex_string. cbn [skip1 advance from_option snd fst].
  pose proof (take_string_size c l (past ch c)) as H1.
  destruct (take_string c l (past ch c)) as [[s lx]| | |]; cbn; [|done..]. split; [done|lia].
Qed.

Lemma lex_ident_spec ch l c : is_word ch = true -> lexes (S (length l)) (lex_ident (ch :: l, c)).
Proof.
  intros Hw. unfold lex_ident. cbn [fst snd take_word]. rewrite Hw.
  pose proof (take_word_size l (past ch c)) as H1.
  destruct (take_word l (past ch c)) as [w lx]. cbn [lexes tk_kind snd] in *. split; [|lia].
  destruct (keyword _) eqn:E; [by eapply keyword_not_eof|done].
Qed.

Lemma lex_operator_spec ch l c : lexes (S (length l)) (lex_operator (ch :: l, c)).
Proof.
  unfold lex_operator. cbn [advance fst snd]. destruct (operator ch) as [[seconds one]|] eqn:E; [|done].
  apply operator_not_eof in E as [H1 H2].
  pose proof (longer_spec seconds one (l, past ch c) H1 H2) as [H3 H4].
  destruct (longer _ _ _) as [k lx]. unfold lexes, size in *. cbn [fst snd tk_kind] in *. split; [done|lia].
Qed.

Lemma lex_at_spec ch l c : lexes (S (length l)) (lex_at ch (ch :: l, c)).
Proof.
  unfold lex_at. destruct (ch =? c_at)%Z; [apply lex_at_builtin_spec|].
  destruct (is_ascii_digit ch) eqn:Ed; [by apply lex_number_spec|].
  destruct (ch =? c_quote)%Z; [apply lex_string_spec|].
  destruct (is_ascii_alphabetic ch || (ch =? c_underscore)%Z) eqn:Ew; [|apply lex_operator_spec].
  apply lex_ident_spec. unfold is_word, is_ascii_alphanumeric. rewrite Ed, orb_false_r. done.
Qed.

(** The next token, or the end of the text. *)
Definition nexts (n : nat) (o : outcome (Token * lexer)) : Prop :=
  match o with
  | Done (t, lx) => tk_kind t = TkEof \/ (size lx < n)%nat
  | Fail _ => True
  | Panicked | NoFuel => False
  end.

Lemma next_token_loop_spec fuel lx n :
  (size lx < fuel)%nat -> (size lx <= n)%nat -> nexts n (next_token_loop fuel lx).
Proof.
  revert lx. induction fuel as [|fuel IH]; intros lx Hf Hn; [lia|]. cbn [next_token_loop].
  pose proof (skip_whitespace_size lx) as Hw. destruct (skip_whitespace lx) as [l c]. unfold size in *.
  cbn [fst] in Hw. destruct l as [|ch l]; cbn [peek head fst]; [by left|]. cbn in Hw.
  assert (Hs : (length (skip1 (skip1 (ch :: l, c))).1 <= length l)%nat) by (destruct l; cbn; lia).
  destruct (_ && _).
  { pose proof (skip_line_comment_size (skip1 (skip1 (ch :: l, c)))) as Hc. unfold size in Hc.
    apply IH; unfold size; lia. }
  destruct (_ && _).
  { pose proof (skip_block_comment_size (skip1 (skip1 (ch :: l, c)))) as Hc. unfold size in Hc.
    destruct (skip_block_comment _); cbn; [apply IH; unfold size; lia|done..]. }
  pose proof (lex_at_spec ch l c) as Hl. destruct (lex_at _ _) as [[t lx']| | |]; [|done..].
  right. destruct Hl as [_ Hl]. unfold size in *. lia.
Qed.

Lemma next_token_spec lx : nexts (size lx) (next_token lx).
Proof. apply next_token_loop_spec; unfold size; lia. Qed.

(** A token list as the parser needs it: it ends with the end of the text, and nothing
    before that is one. *)
Definition ends_with_eof (toks : list Token) : Prop :=
  exists l t, toks = l ++ [t] /\ tk_kind t = TkEof /\ Forall (fun t => tk_kind t <> TkEof) l.

Lemma tokenize_loop_spec fuel lx :
  (size lx < fuel)%nat ->
  match tokenize_loop fuel lx with
  | Done toks => ends_with_eof toks
  | Fail _ => True
  | _ => False
  end.
Proof.
  revert lx. induction fuel as [|fuel IH]; intros lx Hf; [lia|]. cbn [tokenize_loop].
  pose proof (next_token_spec lx) as Hs. destruct (next_token lx) as [[t lx']| | |]; cbn; [|done..].
  case_bool_decide as Ht; [by exists [], t|]. destruct Hs as [?|Hs]; [done|].
  specialize (IH lx' ltac:(lia)). destruct (tokenize_loop fuel lx'); cbn; [|done..].
  destruct IH as (l & e & -> & He & Hl). exists (t :: l), e. repeat split; [done|by constructor].
Qed.

Lemma tokenize_spec source :
  match tokenize source with
  | Done toks => ends_with_eof toks
  | Fail _ => True
  | _ => False
  end.
Proof. apply tokenize_loop_spec. unfold size. cbn. lia. Qed.
End Lex.

(** ** The parser *)

Module Parse.
Section parser.
Import Parser.
Context {dbg : DebugText} (tokens : list Token).
Abbreviation last := (length tokens - 1)%nat.
Hypothesis last_eof : exists t, tokens !! last = Some t /\ tk_kind t = TkEof.

(** A step from position [p]: it ends at most at the last token, behind [p] if [strict]. *)
Definition within {A} (strict : bool) (p : nat) (o : outcome (A * nat)) : Prop :=
  match o with
  | Done (_, q) => (if strict then p < q else p <= q)%nat /\ (q <= last)%nat
  | Fail _ => True
  | Panicked | NoFuel => False
  end.

(** [m] answers wherever fewer than [n] tokens are left before the last one; [inner] is
    the same before the end of the text. *)
Definition total {A} (n : nat) (strict : bool) (m : parser A) : Prop :=
  forall p, (p <= last)%nat -> (last - p < n)%nat -> within strict p (m p).
Definition inner {A} (n : nat) (strict : bool) (m : parser A) : Prop :=
  forall p, (p < last)%nat -> (last - p < n)%nat -> within strict p (m p).

Lemma total_weaken {A} n n' s (m : parser A) : total n s m -> (n' <= n)%nat -> total n' s m.
Proof. intros H Hn p Hp Hl. apply H; lia. Qed.

Lemma total_inner {A} n s (m : parser A) : total n s m -> inner n s m.
Proof. intros H p Hp Hl. apply H; lia. Qed.

Lemma total_lax {A} n (m : parser A) : total n true m -> total n false m.
Proof. intros H p Hp Hl. specialize (H p Hp Hl). destruct (m p) as [[]| | |]; cbn in *; [lia|done..]. Qed.

Lemma total_ret {A} n (a : A) : total n false (pret a).
Proof. intros p Hp _. cbn. lia. Qed.

Lemma total_fail {A} n s e : total n s (@pfail A e).
Proof. done. Qed.

(** Sequencing: behind a strict step one token less is left. *)
Lemma total_bind {A B} n s (m : parser A) (k : A -> parser B) :
  total n false m -> (forall a, total n s (k a)) -> total n s (pbind m k).
Proof.
  intros Hm Hk p Hp Hl. unfold pbind. specialize (Hm p Hp Hl).
  destruct (m p) as [[a q]| | |]; cbn in *; [|done..].
  specialize (Hk a q ltac:(lia) ltac:(lia)). destruct (k a q) as [[b r]| | |]; cbn in *; [|done..].
  destruct s; lia.
Qed.

Lemma total_strict {A B} n s (m : parser A) (k : A -> parser B) :
  total (S n) true m -> (forall a, total n false (k a)) -> total (S n) s (pbind m k).
Proof.
  intros Hm Hk p Hp Hl. unfold pbind. specialize (Hm p Hp Hl).
  destruct (m p) as [[a q]| | |]; cbn in *; [|done..].
  specialize (Hk a q ltac:(lia) ltac:(lia)). destruct (k a q) as [[b r]| | |]; cbn in *; [|done..].
  destruct s; lia.
Qed.

Lemma inner_strict {A B} n s (m : parser A) (k : A -> parser B) :
  inner (S n) true m -> (forall a, total n false (k a)) -> inner (S n) s (pbind m k).
Proof.
  intros Hm Hk p Hp Hl. unfold pbind. specialize (Hm p Hp Hl).
  destruct (m p) as [[a q]| | |]; cbn in *; [|done..].
  specialize (Hk a q ltac:(lia) ltac:(lia)). destruct (k a q) as [[b r]| | |]; cbn in *; [|done..].
  destruct s; lia.
Qed.

(** Looking at the current token. *)
Lemma current_at p : (p <= last)%nat ->
  exists t, current tokens p = Done (t, p) /\ tokens !! p = Some t.
Proof.
  intros Hp. unfold current. destruct last_eof as (e & He & _).
  apply lookup_lt_Some in He as Hl. replace (Nat.min p last) with p by lia.
  destruct (lookup_lt_is_Some_2 tokens p ltac:(lia)) as [t Ht]. exists t. by rewrite Ht.
Qed.

Lemma current_kind_at p : (p <= last)%nat ->
  exists k, current_kind tokens p = Done (k, p) /\ (k <> TkEof -> p < last)%nat.
Proof.
  intros Hp. destruct (current_at p Hp) as (t & Ht & Hl). exists (tk_kind t).
  unfold current_kind, pbind. rewrite Ht. split; [done|]. intros Hk.
  destruct last_eof as (e & He & Hk'). destruct (decide (p = last)) as [->|]; [|lia]. congruence.
Qed.

Lemma current_span_at p : (p <= last)%nat -> exists sp, current_span tokens p = Done (sp, p).
Proof.
  intros Hp. destruct (current_at p Hp) as (t & Ht & _). exists (tk_span t).
  unfold current_span, pbind. by rewrite Ht.
Qed.

Lemma total_span {A} n s (k : Span -> parser A) :
  (forall sp, total n s (k sp)) -> total n s (pbind (current_span tokens) k).
Proof.
  intros Hk p Hp Hl. destruct (current_span_at p Hp) as [sp Hs]. unfold pbind. rewrite Hs. by apply Hk.
Qed.

Lemma inner_span {A} n s (k : Span -> parser A) :
  (forall sp, inner n s (k sp)) -> inner n s (pbind (current_span tokens) k).
Proof.
  intros Hk p Hp Hl. destruct (current_span_at p ltac:(lia)) as [sp Hs]. unfold pbind.
  rewrite Hs. by apply Hk.
Qed.

Lemma total_kind {A} n s (k : TokenKind -> parser A) :
  (forall c, c <> TkEof -> inner n s (k c)) -> total n s (k TkEof) ->
  total n s (pbind (current_kind tokens) k).
Proof.
  intros Hk He p Hp Hl. destruct (current_kind_at p Hp) as (c & Hc & Hlt). unfold pbind.
  rewrite Hc. cbn. destruct (decide (c = TkEof)) as [->|Hne]; [by apply He|]. apply Hk; auto.
Qed.

Lemma total_kind_any {A} n s (k : TokenKind -> parser A) :
  (forall c, total n s (k c)) -> total n s (pbind (current_kind tokens) k).
Proof. intros Hk. apply total_kind; [|done]. intros c _. by apply total_inner. Qed.

(** Taking a token. *)
Lemma inner_advance n : inner n true (advance tokens).
Proof. intros p Hp _. cbn. rewrite decide_True by done. lia. Qed.

Lemma discriminant_eof k : discriminant k = TkEof -> k = TkEof.
Proof. by destruct k. Qed.

Lemma check_at k p : (p <= last)%nat ->
  exists b, check tokens k p = Done (b, p)
    /\ (b = true -> discriminant k <> TkEof -> (p < last)%nat).
Proof.
  intros Hp. destruct (current_kind_at p Hp) as (c & Hc & Hlt).
  unfold check, pbind. rewrite Hc. cbn. eexists. split; [done|]. rewrite bool_decide_eq_true.
  intros Hd Hk. apply Hlt. intros ->. by rewrite <- Hd in Hk.
Qed.

Lemma total_check {A} n s k (f : bool -> parser A) :
  (forall b, total n s (f b)) -> total n s (pbind (check tokens k) f).
Proof.
  intros Hf p Hp Hl. destruct (check_at k p Hp) as (b & Hb & _). unfold pbind. rewrite Hb. by apply Hf.
Qed.

(** A branch taken because of the token [k] is not at the end of the text. *)
Lemma total_check_in {A} n s k (f : bool -> parser A) :
  discriminant k <> TkEof -> inner n s (f true) -> total n s (f false) ->
  total n s (pbind (check tokens k) f).
Proof.
  intros Hk Ht Hf p Hp Hl. destruct (check_at k p Hp) as ([] & Hb & Hlt); unfold pbind; rewrite Hb.
  - apply Ht; auto.
  - by apply Hf.
Qed.

Lemma inner_check {A} n s k (f : bool -> parser A) :
  (forall b, inner n s (f b)) -> inner n s (pbind (check tokens k) f).
Proof.
  intros Hf p Hp Hl. destruct (check_at k p ltac:(lia)) as (b & Hb & _). unfold pbind.
  rewrite Hb. by apply Hf.
Qed.

Lemma try_consume_at k p : (p <= last)%nat -> discriminant k <> TkEof ->
  try_consume tokens k p = Done (false, p)
  \/ try_consume tokens k p = Done (true, S p) /\ (p < last)%nat.
Proof.
  intros Hp Hk. unfold try_consume, pbind. destruct (check_at k p Hp) as ([] & -> & Hlt); cbn.
  - right. specialize (Hlt eq_refl Hk). by rewrite decide_True.
  - by left.
Qed.

Lemma total_try {A} n s k (f : bool -> parser A) :
  discriminant k <> TkEof -> total n false (f true) -> total (S n) s (f false) ->
  total (S n) s (pbind (try_consume tokens k) f).
Proof.
  intros Hk Ht Hf p Hp Hl. unfold pbind.
  destruct (try_consume_at k p Hp Hk) as [->|[-> Hlt]]; cbn; [by apply Hf|].
  specialize (Ht (S p) ltac:(lia) ltac:(lia)). destruct (f true (S p)) as [[a q]| | |]; cbn in *; [|done..].
  destruct s; lia.
Qed.

Lemma total_expect n k : discriminant k <> TkEof -> total n true (expect tokens k).
Proof.
  intros Hk. apply total_check_in; [done|apply inner_advance|].
  apply total_kind_any. intros c. by apply total_span.
Qed.

Lemma inner_take {A} n (a : A) : inner n true (pbind (advance tokens) (fun _ => pret a)).
Proof. intros p Hp Hl. cbn. rewrite decide_True by done. lia. Qed.

Lemma total_expect_ident n : total n true (expect_ident tokens).
Proof.
  apply total_kind; [|by apply total_span]. intros c Hc.
  destruct c; [..|done]; try (apply total_inner; by apply total_span). apply inner_take.
Qed.

Lemma total_parse_type n : total n true (parse_type tokens).
Proof.
  apply total_kind; [|by apply total_span]. intros c Hc.
  destruct (type_of_token c); [apply inner_take|apply total_inner; by apply total_span].
Qed.

Lemma total_zero {A} s (m : parser A) : total 0 s m.
Proof. intros p _ Hl. lia. Qed.

Hint Resolve total_ret total_fail total_zero total_expect_ident total_parse_type : core.

(** Consume the current token. *)
Ltac advancing := apply inner_strict; [apply inner_advance|intros _].

(** [expect] as the next step. *)
Lemma total_expecting {A} n s k (m : parser A) :
  discriminant k <> TkEof -> total n false m ->
  total (S n) s (pbind (expect tokens k) (fun _ => m)).
Proof. intros Hk Hm. apply total_strict; [by apply total_expect|done]. Qed.

Lemma total_closing {A} n k (a : A) :
  discriminant k <> TkEof -> total n false (pbind (expect tokens k) (fun _ => pret a)).
Proof. intros Hk. destruct n; [done|]. by apply total_expecting. Qed.

(** *** Expressions *)

Section expr.
Variable pe : parser Expr.
Variable m : nat.
Hypothesis Hpe : total m true pe.

Lemma total_pe n : (n <= m)%nat -> total n true pe.
Proof using Hpe. by apply total_weaken. Qed.

Lemma total_parse_args n fuel args :
  (n <= m)%nat -> (n <= fuel)%nat -> total n false (parse_args tokens pe fuel args).
Proof using Hpe last_eof.
  revert n args. induction fuel as [|fuel IH]; intros [|n] args Hm Hn; [done|lia|done|].
  cbn [parse_args]. apply total_check. intros [|]; [done|]. apply total_bind.
  - destruct args; [done|]. by apply total_lax, total_expect.
  - intros _. apply total_strict; [by apply total_pe|]. intros e. apply IH; lia.
Qed.

Lemma total_builtin_call n fuel b sp :
  (n <= S m)%nat -> (n <= S fuel)%nat -> total n true (parse_builtin_call tokens pe fuel b sp).
Proof using Hpe last_eof.
  intros Hm Hn. destruct n as [|n]; [done|]. apply total_expecting; [done|]. apply total_bind.
  - apply total_parse_args; lia.
  - intros args. by apply total_closing.
Qed.

Lemma total_primary n fuel :
  (n <= S m)%nat -> (n <= fuel)%nat -> total n true (parse_primary tokens pe fuel).
Proof using Hpe last_eof.
  intros Hm Hn. destruct n as [|n]; [done|]. apply total_span. intros sp.
  apply total_kind; [|done]. intros c Hc.
  destruct c; first [apply inner_take | done | advancing; apply total_lax, total_builtin_call; lia | idtac].
  - advancing. destruct n as [|n]; [done|].
    apply total_check_in; [done| |done]. advancing.
    apply total_bind; [apply total_parse_args; lia|]. intros args. by apply total_closing.
  - advancing. destruct n as [|n]; [done|].
    apply total_strict; [apply total_pe; lia|]. intros e. by apply total_closing.
Qed.

Lemma total_field_loop n fuel e : (n <= fuel)%nat -> total n false (field_loop tokens fuel e).
Proof using last_eof.
  revert n e. induction fuel as [|fuel IH]; intros [|n] e Hn; [done|lia|done|].
  cbn [field_loop]. apply total_try; [done| |done]. apply total_span. intros sp.
  destruct n as [|n]; [done|]. apply total_strict; [done|]. intros f. apply IH. lia.
Qed.

Lemma total_unary n fuel :
  (n <= S m)%nat -> (n <= fuel)%nat -> total n true (parse_unary tokens pe fuel).
Proof using Hpe last_eof.
  revert n. induction fuel as [|fuel IH]; intros [|n] Hm Hn; [done|lia|done|].
  cbn [parse_unary].
  assert (Hop : forall op, total n false (pbind (current_span tokens) (fun sp =>
            pbind (parse_unary tokens pe fuel) (fun x => pret (EUnaryOp op x sp))))).
  { intros op. apply total_span. intros sp. apply total_bind; [|done]. apply total_lax, IH; lia. }
  apply total_try; [done|apply Hop|]. apply total_try; [done|apply Hop|].
  unfold parse_postfix. apply total_strict; [apply total_primary; lia|]. intros e.
  apply total_field_loop. lia.
Qed.

Lemma total_consume_op n ops (f : option BinOp -> parser Expr) s :
  Forall (fun p => discriminant p.1 <> TkEof) ops ->
  (forall op, total n false (f (Some op))) -> total (S n) s (f None) ->
  total (S n) s (pbind (consume_op tokens ops) f).
Proof using last_eof.
  intros Hops Hs Hf. induction Hops as [|[k op] ops Hk _ IH]; [done|]. cbn [consume_op].
  intros p Hp Hl. unfold pbind at 1 2. destruct (try_consume_at k p Hp Hk) as [->|[-> Hlt]]; cbn.
  - by apply IH.
  - specialize (Hs op (S p) ltac:(lia) ltac:(lia)).
    destruct (f (Some op) (S p)) as [[a q]| | |]; cbn in *; [|done..]. destruct s; lia.
Qed.

Lemma total_binary_loop n ops operand fuel l :
  Forall (fun p => discriminant p.1 <> TkEof) ops ->
  total n true operand -> (n <= fuel)%nat -> total n false (binary_loop tokens ops operand fuel l).
Proof using last_eof.
  intros Hops. revert n l. induction fuel as [|fuel IH]; intros [|n] l Ho Hn; [done|lia|done|].
  cbn [binary_loop]. apply total_consume_op; [done| |done]. intros op.
  destruct n as [|n]; [done|]. apply total_strict; [by apply (total_weaken _ _ _ _ Ho); lia|].
  intros r. apply IH; [|lia]. apply (total_weaken _ _ _ _ Ho). lia.
Qed.

(** A level of binary operators over a level of operands. *)
Lemma total_level n ops operand fuel :
  Forall (fun p => discriminant p.1 <> TkEof) ops -> total n true operand -> (n <= fuel)%nat ->
  total n true (pbind operand (binary_loop tokens ops operand fuel)).
Proof using last_eof.
  intros Hops Ho Hn. destruct n as [|n]; [done|]. apply total_strict; [done|]. intros l.
  apply total_binary_loop; [done|apply (total_weaken _ _ _ _ Ho); lia|lia].
Qed.

Lemma total_or n fuel :
  (n <= S m)%nat -> (n <= fuel)%nat -> total n true (parse_or tokens pe fuel).
Proof using Hpe last_eof.
  intros Hm Hn. unfold parse_or, parse_and, parse_equality, parse_comparison, parse_additive,
    parse_multiplicative.
  repeat (apply total_level; [by repeat constructor| |done]). by apply total_unary.
Qed.
End expr.

Lemma total_parse_expr n fuel : (n <= fuel)%nat -> total n true (parse_expr tokens fuel).
Proof using last_eof.
  revert n. induction fuel as [|fuel IH]; intros n Hn; [by replace n with 0%nat by lia|].
  cbn [parse_expr]. apply (total_or _ fuel); [by apply IH|done..].
Qed.

(** *** Statements and contracts *)

Section stmt.
Variable pe : parser Expr.
Variable ps : parser Stmt.
Variable m : nat.
Hypothesis Hpe : total (S m) true pe.
Hypothesis Hps : total m true ps.

Lemma total_pexpr n : (n <= S m)%nat -> total n true pe.
Proof using Hpe. by apply total_weaken. Qed.

Lemma total_block n fuel :
  (n <= m)%nat -> (n <= fuel)%nat -> total n false (parse_block tokens ps fuel).
Proof using Hps last_eof.
  revert n. induction fuel as [|fuel IH]; intros [|n] Hm Hn; [done|lia|done|].
  cbn [parse_block]. apply total_check. intros b1. apply total_check. intros b2.
  destruct (b1 || b2); [done|]. apply total_strict; [by apply (total_weaken _ _ _ _ Hps)|].
  intros s. apply total_bind; [apply IH; lia|done].
Qed.

Lemma total_braced n fuel :
  (n <= S m)%nat -> (n <= S fuel)%nat -> total n true (braced_block tokens ps fuel).
Proof using Hps last_eof.
  intros Hm Hn. destruct n as [|n]; [done|]. apply total_expecting; [done|].
  apply total_bind; [apply total_block; lia|]. intros l. by apply total_closing.
Qed.

(** [expr] followed by the rest of a statement. *)
Lemma total_expr_then {A} n (k : Expr -> parser A) :
  (n <= S m)%nat -> (forall e, total n false (k e)) -> total n false (pbind pe k).
Proof using Hpe. intros Hn Hk. apply total_bind; [by apply total_lax, total_pexpr|done]. Qed.

Lemma total_expect_then {A} n k (q : parser A) :
  discriminant k <> TkEof -> total n false q ->
  total n false (pbind (expect tokens k) (fun _ => q)).
Proof using last_eof. intros Hk Hq. apply total_bind; [by apply total_lax, total_expect|done]. Qed.

Lemma total_condition {A} n (k : Expr -> parser A) :
  (n <= S m)%nat -> (forall e, total n false (k e)) ->
  total n false (pbind (expect tokens TkLParen) (fun _ =>
    pbind pe (fun e => pbind (expect tokens TkRParen) (fun _ => k e)))).
Proof using Hpe last_eof.
  intros Hn Hk. apply total_expect_then; [done|]. apply total_expr_then; [done|]. intros e.
  by apply total_expect_then.
Qed.

Lemma inner_var_decl n : (n <= S m)%nat -> inner n true (parse_var_decl tokens pe).
Proof using Hpe last_eof.
  intros Hn. destruct n as [|n]; [by intros p _ Hl; lia|].
  apply inner_span. intros sp. apply inner_check. intros b. advancing.
  apply total_bind; [by apply total_lax|]. intros name. destruct n as [|n]; [done|].
  assert (Hrest : forall n' ty, (n' <= S n)%nat -> total n' false
            (pbind (expect tokens TkAssign) (fun _ => pbind pe (fun e =>
               pbind (expect tokens TkSemicolon) (fun _ => pret (VarDecl name ty b e sp)))))).
  { intros n' ty Hn'. apply total_expect_then; [done|]. apply total_expr_then; [lia|]. intros e.
    by apply total_closing. }
  apply total_try; [done| |].
  - apply total_bind; [apply total_bind; [by apply total_lax|done]|]. intros ty. apply Hrest. lia.
  - apply total_bind; [done|]. intros ty. by apply Hrest.
Qed.

Lemma inner_return n : (n <= S m)%nat -> inner n true (parse_return tokens pe).
Proof using Hpe last_eof.
  intros Hn. destruct n as [|n]; [by intros p _ Hl; lia|].
  apply inner_span. intros sp. advancing. apply total_check. intros b.
  apply total_bind; [|by intros v; apply total_closing].
  destruct b; [done|]. apply total_expr_then; [lia|done].
Qed.

Lemma inner_if n fuel : (n <= S m)%nat -> (n <= fuel)%nat -> inner n true (parse_if tokens pe ps fuel).
Proof using Hpe Hps last_eof.
  revert n. induction fuel as [|fuel IH]; intros [|n] Hm Hn;
    [by intros p _ Hl; lia|lia|by intros p _ Hl; lia|].
  cbn [parse_if]. apply inner_span. intros sp. advancing.
  apply total_condition; [lia|]. intros e.
  apply total_bind; [apply total_lax, total_braced; lia|]. intros l. destruct n as [|n]; [done|].
  apply total_try; [done| |by apply total_bind].
  apply total_bind; [|done]. apply total_check_in; [done| |apply total_lax, total_braced; lia].
  destruct n as [|n]; [by intros p _ Hl; lia|].
  apply inner_strict; [|done]. apply IH; lia.
Qed.

Lemma inner_while n fuel : (n <= S m)%nat -> (n <= fuel)%nat -> inner n true (parse_while tokens pe ps fuel).
Proof using Hpe Hps last_eof.
  intros Hm Hn. destruct n as [|n]; [by intros p _ Hl; lia|].
  apply inner_span. intros sp. advancing. apply total_condition; [lia|].
  intros e. apply total_bind; [apply total_lax, total_braced; lia|done].
Qed.

Lemma inner_pair n : (n <= S m)%nat -> inner n true (parse_pair tokens pe).
Proof using Hpe last_eof.
  intros Hn. destruct n as [|n]; [by intros p _ Hl; lia|].
  advancing. apply total_expect_then; [done|].
  apply total_expr_then; [lia|]. intros a. apply total_expect_then; [done|].
  apply total_expr_then; [lia|]. intros b. apply total_expect_then; [done|]. by apply total_closing.
Qed.

Lemma inner_pair_stmt n (f : Expr -> Expr -> Span -> Stmt) :
  (n <= S m)%nat ->
  inner n true (pbind (current_span tokens) (fun sp => pbind (parse_pair tokens pe)
    (fun '(a, b) => pret (f a b sp)))).
Proof using Hpe last_eof.
  intros Hn. destruct n as [|n]; [by intros p _ Hl; lia|].
  apply inner_span. intros sp. apply inner_strict; [by apply inner_pair|]. intros [a b]. done.
Qed.

Lemma total_assignment n : (n <= S m)%nat -> total n true (parse_assignment tokens pe).
Proof using Hpe last_eof.
  intros Hn. destruct n as [|n]; [done|]. apply total_span. intros sp.
  apply total_strict; [done|]. intros x. apply total_expect_then; [done|].
  apply total_expr_then; [lia|]. intros e. by apply total_closing.
Qed.

Lemma total_other n :
  (n <= S m)%nat ->
  total n true (pbind (is_assignment tokens) (fun assign =>
    if assign then parse_assignment tokens pe
    else pbind pe (fun e => pbind (expect tokens TkSemicolon) (fun _ => pret (SExpr e))))).
Proof using Hpe last_eof.
  intros Hn. apply total_bind.
  - apply total_kind_any. intros c p Hp Hl. cbn. lia.
  - intros [|]; [by apply total_assignment|]. destruct n as [|n]; [done|].
    apply total_strict; [by apply total_pexpr|]. intros e. by apply total_closing.
Qed.

Lemma total_stmt_with n fuel :
  (n <= S m)%nat -> (n <= fuel)%nat -> total n true (parse_stmt_with tokens pe ps fuel).
Proof using Hpe Hps last_eof.
  intros Hm Hn. apply total_kind; [|by apply total_other]. intros c Hc.
  destruct c; try (apply total_inner; by apply total_other);
    [by apply inner_var_decl..|by apply inner_if|by apply inner_while|by apply inner_return
    |by apply (inner_pair_stmt _ Emit)|by apply (inner_pair_stmt _ StoreWrite)].
Qed.
End stmt.

Lemma total_parse_stmt n fuel : (n <= fuel)%nat -> total n true (parse_stmt tokens fuel).
Proof using last_eof.
  revert n. induction fuel as [|fuel IH]; intros n Hn; [by replace n with 0%nat by lia|].
  cbn [parse_stmt]. apply (total_stmt_with _ _ fuel); [by apply total_parse_expr|by apply IH|done..].
Qed.

Lemma inner_field n fuel : (n <= fuel)%nat -> inner n true (parse_field tokens fuel).
Proof using last_eof.
  intros Hn. destruct n as [|n]; [by intros p _ Hl; lia|].
  apply inner_span. intros sp. apply inner_check. intros b. advancing.
  apply total_bind; [by apply total_lax|]. intros name. apply total_expect_then; [done|].
  apply total_bind; [by apply total_lax|]. intros ty. destruct n as [|n]; [done|].
  apply total_try; [done| |].
  - apply total_bind; [|by intros v; apply total_closing].
    apply total_bind; [|done]. apply total_lax, total_parse_expr. lia.
  - apply total_bind; [done|]. intros v. by apply total_closing.
Qed.

Lemma total_params n fuel l : (n <= fuel)%nat -> total n false (parse_params tokens fuel l).
Proof using last_eof.
  revert n l. induction fuel as [|fuel IH]; intros [|n] l Hn; [done|lia|done|].
  cbn [parse_params]. apply total_check. intros [|]; [done|]. apply total_bind.
  { destruct l; [done|]. by apply total_lax, total_expect. }
  intros _. apply total_span. intros sp. apply total_strict; [done|]. intros name.
  apply total_expect_then; [done|]. apply total_bind; [by apply total_lax|]. intros ty. apply IH. lia.
Qed.

Lemma total_function n fuel : (n <= fuel)%nat -> total n true (parse_function tokens fuel).
Proof using last_eof.
  intros Hn. destruct n as [|n]; [done|]. apply total_span. intros sp.
  apply total_expecting; [done|]. apply total_bind; [by apply total_lax|]. intros name.
  apply total_expect_then; [done|]. apply total_bind; [apply total_params; lia|]. intros ps.
  apply total_expect_then; [done|]. destruct n as [|n]; [done|].
  assert (Hrest : forall n' (t : parser GsType), (n' <= S n)%nat -> total n' false t -> total n' false
            (pbind t (fun ty => pbind (braced_block tokens (parse_stmt tokens fuel) fuel)
               (fun l => pret (mkFunction name ps ty l sp))))).
  { intros n' t Hn' Ht. apply total_bind; [done|]. intros ty. apply total_bind; [|done].
    apply total_lax, (total_braced _ fuel); [by apply total_parse_stmt|lia..]. }
  apply total_try; [done|apply Hrest; [lia|by apply total_lax]|by apply Hrest].
Qed.

Lemma total_members n depth fuel fl fu :
  (n <= depth)%nat -> (n <= fuel)%nat -> total n false (parse_members tokens depth fuel fl fu).
Proof using last_eof.
  revert n fl fu. induction fuel as [|fuel IH]; intros [|n] fl fu Hd Hn; [done|lia|done|].
  cbn [parse_members]. apply total_check. intros b1. apply total_check. intros b2.
  destruct (b1 || b2); [done|]. apply total_check. intros [|].
  - apply total_strict; [by apply total_function|]. intros f. apply IH; lia.
  - assert (Hf : inner (S n) false (pbind (parse_field tokens depth) (fun f =>
              parse_members tokens depth fuel (fl ++ [f]) fu))).
    { apply inner_strict; [by apply inner_field|]. intros f. apply IH; lia. }
    apply total_check_in; [done| |].
    + apply inner_check. intros b. by destruct b.
    + apply total_check_in; [done|done|]. by apply total_span.
Qed.

Lemma parse_contract_answers :
  (exists c, parse_contract tokens = Done c) \/ (exists e, parse_contract tokens = Fail e).
Proof using last_eof.
  assert (Hl : (0 < length tokens)%nat).
  { destruct last_eof as (t & Ht & _). apply lookup_lt_Some in Ht. lia. }
  assert (total (length tokens) false (contract_parser tokens (length tokens))) as Ht.
  { apply total_span. intros sp. apply total_expect_then; [done|].
    apply total_bind; [by apply total_lax|]. intros name. apply total_expect_then; [done|].
    apply total_bind; [by apply total_members|]. intros [fl fu]. by apply total_closing. }
  specialize (Ht 0%nat ltac:(lia) ltac:(lia)). unfold parse_contract.
  destruct (contract_parser _ _ _) as [[c p]| | |]; cbn in *; eauto; done.
Qed.
End parser.
End Parse.

(** C39: for every source text the compiler returns code or an error: neither the lexer nor
    the parser loops forever or indexes outside its input. *)
Theorem compiler_answers `{!DebugText} (source : list Z) :
  (exists wasm, Compiler.compile source = Done wasm)
  \/ (exists e, Compiler.compile source = Fail e).
Proof.
  unfold Compiler.compile. pose proof (Lex.tokenize_spec source) as Ht.
  destruct (Lexer.tokenize source) as [toks| | |]; cbn; [|by eauto|done..].
  destruct Ht as (l & t & -> & He & _).
  destruct (Parse.parse_contract_answers (l ++ [t])) as [[c Hc]|[e Hc]].
  - exists t. rewrite length_app, Nat.add_sub. by rewrite list_lookup_middle.
  - rewrite Hc. cbn. destruct (Checker.check c Checker.new) as [s [tc|e]]; cbn; [|by eauto].
    destruct (CodeGen.compile c CodeGen.new) as [s' [w|e]]; cbn; eauto.
  - rewrite Hc. eauto.
Qed.

End Frontend.
