(* ===== verification/GsScope.v ===== *)
(** * gratiascript: checked contracts compile

    The type checker resolves names in nested scopes, the code generator in one flat table
    per function.  Whatever the checker accepts the generator compiles. *)

From stdpp Require Import base gmap strings list pretty.
From Stdlib Require Import ZArith Lia.
From S2P Require Import Prelude CoreTypes WasmModule GsSyntax GsTypes GsCodegen.
Import Gs.

Module Scope.
Import CodeGen.

(** ** What the generator needs *)

(** The part of the generator's state that compiling code leaves alone. *)
Definition env (g : CodeGen) := (imports g, import_count g, globals g).

Definition host_names : list string :=
  ["get_location_lat"; "get_location_lon"; "get_nearby_peers"; "get_presence_score";
   "get_sensor_data"; "get_block_height"; "get_block_timestamp"; "get_caller_address";
   "get_caller_balance"; "storage_read"; "storage_write"; "emit_event"].

Definition hosts (g : CodeGen) : Prop := Forall (fun n => is_Some (find_import n g)) host_names.

Definition is_local (locals : list Local) (n : string) : Prop := n ∈ map loc_name locals.

(** Every visible name is a contract field or in the table of locals. *)
Definition covers (sy : Checker.SymbolTable) (g : CodeGen) (locals : list Local) : Prop :=
  forall n, is_Some (Checker.lookup n sy) -> is_Some (find_global n g) \/ is_local locals n.

Definition ready (sy : Checker.SymbolTable) (g : CodeGen) (locals : list Local) : Prop :=
  covers sy g locals /\ hosts g.

(** [m] produces code and keeps the environment. *)
Definition succeeds {A} (m : M A) (g : CodeGen) : Prop :=
  exists g' a, m g = (g', Ok a) /\ env g' = env g.

Lemma env_ready sy g g' locals : env g' = env g -> ready sy g locals -> ready sy g' locals.
Proof.
  unfold env. intros [= Hi _ Hg] [Hc Hh]. split.
  - intros n Hn. unfold find_global. rewrite Hg. by apply Hc.
  - unfold hosts, find_import. by rewrite Hi.
Qed.

Lemma succeeds_ret {A} (a : A) g : succeeds (mret a) g.
Proof. by exists g, a. Qed.

Lemma succeeds_gets {A} (f : CodeGen -> A) g : succeeds (gets f) g.
Proof. by exists g, (f g). Qed.

Lemma succeeds_alloc str g : succeeds (alloc str) g.
Proof.
  unfold succeeds, alloc, allocate_string. destruct (find_string _ _); cbn; eauto.
Qed.

Lemma succeeds_bind {A B} (m : M A) (k : A -> M B) g :
  succeeds m g -> (forall g' a, env g' = env g -> succeeds (k a) g') -> succeeds (mbind m k) g.
Proof.
  intros (g1 & a & Hm & He) Hk. unfold mbind. destruct (Hk g1 a He) as (g2 & b & Hb & He2).
  exists g2, b. rewrite Hm. split; [done|congruence].
Qed.

(** A step whose result is known. *)
Lemma succeeds_step {A B} (m : M A) (k : A -> M B) g a :
  m g = (g, Ok a) -> succeeds (k a) g -> succeeds (mbind m k) g.
Proof. intros Hm Hk. unfold mbind, succeeds. by rewrite Hm. Qed.

(** Close a step that only returns, reads or allocates. *)
Ltac fine :=
  intros; repeat match goal with |- context [let '(_, _) := ?p in _] => destruct p end;
  first [apply succeeds_ret | apply succeeds_gets | apply succeeds_alloc].

Lemma succeeds_each {A} (f : A -> M bytes) l g g0 :
  Forall (fun x => forall g', env g' = env g0 -> succeeds (f x) g') l -> env g = env g0 ->
  succeeds (emit_each f l) g.
Proof.
  intros Hl. revert g. induction Hl as [|x l Hx _ IH]; intros g Hg; cbn; [apply succeeds_ret|].
  apply succeeds_bind; [by apply Hx|]. intros g1 c H1.
  apply succeeds_bind; [apply IH; congruence|]. intros. apply succeeds_ret.
Qed.

Lemma succeeds_import name err g :
  hosts g -> name ∈ host_names -> succeeds (call_import name err) g.
Proof.
  intros Hh Hn. unfold hosts in Hh. rewrite Forall_forall in Hh. destruct (Hh name Hn) as [i Hi].
  apply (succeeds_step _ _ _ (Some i)); [by unfold gets; rewrite Hi|].
  apply (succeeds_step _ _ _ i); [done|fine].
Qed.

Lemma succeeds_pair e g : succeeds (string_pair e) g.
Proof.
  destruct e as [[]|]; try fine. apply succeeds_bind; fine.
Qed.

Lemma find_local_some locals n : is_local locals n -> exists l, find_local locals n = Ok l.
Proof.
  unfold is_local, find_local. induction locals as [|l ls IH]; cbn; [by rewrite elem_of_nil|].
  rewrite elem_of_cons. case_bool_decide; cbn; [by eauto|]. intros [->|Hin]; [done|by apply IH].
Qed.

Lemma succeeds_variable sy g locals n :
  ready sy g locals -> is_Some (Checker.lookup n sy) -> succeeds (get_variable locals n) g.
Proof.
  intros [Hc _] Hn. unfold get_variable. apply (succeeds_step _ _ _ (find_global n g)); [done|].
  destruct (Hc n Hn) as [[i ->]|Hl]; [fine|]. destruct (find_global n g); [fine|].
  destruct (find_local_some _ _ Hl) as [l Hf]. apply (succeeds_step _ _ _ l); [by rewrite Hf|fine].
Qed.

(** ** Runs of the checker *)

Section checker.
Import Checker.

Lemma bind_ok {A B} (m : Checker.M A) (k : A -> Checker.M B) s s' b :
  Checker.mbind m k s = (s', Ok b) -> exists s1 a, m s = (s1, Ok a) /\ k a s1 = (s', Ok b).
Proof. unfold Checker.mbind. destruct (m s) as [s1 [a|e]]; [by eauto|done]. Qed.

Lemma guard_ok b msg sp s s' u : guard_ b msg sp s = (s', Ok u) -> b = true /\ s' = s.
Proof. destruct b; [|done]. cbn. by intros [= <- <-]. Qed.

End checker.

(** Open a successful run into its steps. *)
Ltac steps :=
  repeat match goal with
  | H : Checker.mbind _ _ _ = (_, Ok _) |- _ => apply bind_ok in H as (? & ? & ? & ?)
  | H : Checker.guard_ _ _ _ _ = (_, Ok _) |- _ => apply guard_ok in H as [? ->]
  | H : Checker.mret _ _ = (_, Ok _) |- _ => unfold Checker.mret in H; simplify_eq
  | H : Checker.mfail _ _ = (_, Ok _) |- _ => discriminate H
  | H : Checker.gets _ _ = (_, Ok _) |- _ => unfold Checker.gets in H; simplify_eq
  end.

(** ** Expressions *)

Definition expr_ok (e : Expr) : Prop := forall s s' t,
  Checker.check_expr e s = (s', Ok t) ->
  Checker.symbols s' = Checker.symbols s
  /\ forall locals g, ready (Checker.symbols s) g locals -> succeeds (compile_expr locals e) g.

Lemma binop_symbols op l r sp s s' t :
  Checker.check_binop op l r sp s = (s', Ok t) -> s' = s.
Proof. intros Hc. destruct op; cbn in Hc; steps; done. Qed.

Lemma unaryop_symbols op x sp s s' t : Checker.check_unaryop op x sp s = (s', Ok t) -> s' = s.
Proof. intros Hc. destruct op; cbn in Hc; steps; done. Qed.

Lemma check_args_ok name ps args s s' u :
  Forall expr_ok args -> length args = length ps ->
  Checker.check_args Checker.check_expr name ps args s = (s', Ok u) ->
  Checker.symbols s' = Checker.symbols s
  /\ forall locals g, ready (Checker.symbols s) g locals ->
       Forall (fun x => succeeds (compile_expr locals x) g) args.
Proof.
  intros Hargs. revert ps s. induction Hargs as [|x args Hx _ IH]; intros [|[pn pt] ps] s Hl Hc;
    try done; cbn in Hc; steps; [done|].
  destruct (Hx _ _ _ H) as [H2 H3]. destruct (IH ps x0 ltac:(cbn in Hl; lia) H1) as [H4 H5].
  split; [congruence|]. intros locals g Hr. constructor; [by apply H3|]. apply H5. by rewrite H2.
Qed.

Lemma emit_args locals args sy g :
  (forall g', ready sy g' locals -> Forall (fun x => succeeds (compile_expr locals x) g') args) ->
  ready sy g locals -> succeeds (emit_each (compile_expr locals) args) g.
Proof.
  intros Ha Hr. apply (succeeds_each _ _ _ g); [|done]. apply Forall_forall. intros x Hx g' He.
  specialize (Ha g' (env_ready _ _ _ _ He Hr)). rewrite Forall_forall in Ha. by apply Ha.
Qed.

Lemma check_first_ok args s s' t :
  Forall expr_ok args -> length args = 1%nat ->
  Checker.check_first Checker.check_expr args s = (s', Ok t) ->
  Checker.symbols s' = Checker.symbols s
  /\ forall locals g, ready (Checker.symbols s) g locals ->
       Forall (fun x => succeeds (compile_expr locals x) g) args.
Proof.
  destruct args as [|x [|y args]]; intros Hx Hl Hc; try done. apply Forall_cons in Hx as [Hx _].
  destruct (Hx _ _ _ Hc) as [H1 H2]. split; [done|]. intros locals g Hr. constructor; [by apply H2|done].
Qed.

Lemma check_builtin_ok b args sp s s' t :
  Forall expr_ok args ->
  Checker.check_builtin_call Checker.check_expr b args sp s = (s', Ok t) ->
  Checker.symbols s' = Checker.symbols s
  /\ forall locals g, ready (Checker.symbols s) g locals ->
       Forall (fun x => succeeds (compile_expr locals x) g) args.
Proof.
  intros Hargs Hc.
  destruct b; cbn in Hc; unfold Checker.no_args in Hc; steps;
    try (destruct args; [split; [done|]; intros; constructor|done]);
    match goal with Hn : (_ =? _)%nat = true |- _ => apply Nat.eqb_eq in Hn end;
    by eapply check_first_ok.
Qed.

Lemma succeeds_builtin locals b args c g : hosts g -> succeeds (compile_builtin locals b args c) g.
Proof.
  intros Hh.
  assert (Hi : forall name err, name ∈ host_names ->
    succeeds (do call <- call_import name err in mret (c ++ call)) g)
    by (intros; apply succeeds_bind; [by apply succeeds_import|fine]).
  destruct b; cbn [compile_builtin import_name]; try (apply Hi; set_solver).
  unfold hosts in Hh. rewrite Forall_forall in Hh.
  destruct (Hh "storage_read") as [i Hs]; [set_solver|].
  apply (succeeds_step _ _ _ (Some i)); [by unfold gets; rewrite Hs|].
  apply (succeeds_step _ _ _ i); [done|]. apply succeeds_bind; [apply succeeds_pair|fine].
Qed.

Lemma check_expr_ok e : expr_ok e.
Proof.
  induction e as [v sp|v sp|str sp|b sp|n sp|op l r sp IHl IHr|op x sp IH|n args sp IH|b args sp IH
    |x f sp IH|x ty sp IH] using Expr_nested; intros s s' t Hc; cbn [Checker.check_expr] in Hc;
    apply bind_ok in Hc as (s1 & t1 & Hc & Hr); unfold Checker.record_type in Hr; simplify_eq; cbn [Checker.symbols compile_expr].
  - steps. split; [done|fine].
  - steps. split; [done|fine].
  - steps. split; [done|]. intros. apply succeeds_bind; fine.
  - steps. split; [done|fine].
  - unfold Checker.lookup_or_fail in Hc. steps. case_match eqn:E; steps. split; [done|].
    intros locals g Hr. eapply succeeds_variable; [done|]. by rewrite E.
  - steps. apply binop_symbols in H1 as ->. destruct (IHl _ _ _ H) as [E1 S1], (IHr _ _ _ H0) as [E2 S2].
    split; [congruence|]. intros locals g Hr.
    apply succeeds_bind; [by apply S1|]. intros g1 c1 He1.
    apply succeeds_bind; [apply S2; rewrite E1; by eapply env_ready|]. intros g2 c2 He2.
    apply succeeds_bind; fine.
  - steps. apply unaryop_symbols in H0 as ->. destruct (IH _ _ _ H) as [E1 S1]. split; [done|].
    intros locals g Hr. apply succeeds_bind; [by apply S1|]. intros g1 c1 He1. apply succeeds_bind; fine.
  - unfold Checker.check_call in Hc. steps. case_match; steps.
    match goal with Hn : (_ =? _)%nat = true |- _ => apply Nat.eqb_eq in Hn end.
    edestruct check_args_ok as [E1 S1]; [exact IH|done|done|]. split; [done|].
    intros locals g Hr. apply succeeds_bind; [by apply (emit_args _ _ _ _ (S1 locals))|]. intros g1 c1 He1. apply succeeds_bind; fine.
  - destruct (check_builtin_ok _ _ _ _ _ _ IH Hc) as [E1 S1]. split; [done|]. intros locals g Hr.
    apply succeeds_bind; [by apply (emit_args _ _ _ _ (S1 locals))|]. intros g1 c1 He1. apply succeeds_builtin.
    by eapply env_ready.
  - steps. destruct (IH _ _ _ H) as [E1 S1].
    assert (s1 = x0) as -> by (destruct x1; cbn in H0; steps; done). split; [done|].
    intros locals g [Hcov Hh]. case_bool_decide; [apply succeeds_import; [done|set_solver]|].
    case_bool_decide; [apply succeeds_import; [done|set_solver]|]. by apply S1.
  - unfold Checker.check_cast in Hc. steps. destruct (IH _ _ _ H) as [E1 S1]. split; [done|].
    intros locals g Hr. apply succeeds_bind; [by apply S1|]. intros g1 c1 He1. apply succeeds_bind; fine.
Qed.

(** ** Statements *)

(** The names a statement declares, in nested blocks too. *)
Fixpoint declared (x : Stmt) : list string :=
  match x with
  | VarDecl n _ _ _ _ => [n]
  | If _ l1 l2 _ => concat (map declared l1) ++ concat (map declared l2)
  | While _ l _ => concat (map declared l)
  | _ => []
  end.

Definition all_local (locals : list Local) (names : list string) : Prop :=
  Forall (is_local locals) names.

Definition visible (s : Checker.TypeChecker) (n : string) : Prop :=
  is_Some (Checker.lookup n (Checker.symbols s)).

(** A checked part of a body: it changes the innermost scope only, makes visible only what
    it declares, and compiles with a table that has its declarations. *)
Definition body_ok {A} (check : Checker.M unit) (names : list string)
    (compile : list Local -> M A) : Prop := forall s s' u,
  check s = (s', Ok u) ->
  tail (Checker.symbols s') = tail (Checker.symbols s)
  /\ (forall n, visible s' n -> visible s n \/ n ∈ names)
  /\ forall locals g, ready (Checker.symbols s) g locals -> all_local locals names ->
       succeeds (compile locals) g.

Definition stmt_ok (x : Stmt) : Prop :=
  body_ok (Checker.check_stmt x) (declared x) (fun locals => compile_stmt locals x).

Definition stmts_ok (l : list Stmt) : Prop :=
  body_ok (Checker.for_each Checker.check_stmt l) (concat (map declared l))
    (fun locals => emit_each (compile_stmt locals) l).

Lemma ready_after s s' names g locals :
  (forall n, visible s' n -> visible s n \/ n ∈ names) -> all_local locals names ->
  ready (Checker.symbols s) g locals -> ready (Checker.symbols s') g locals.
Proof.
  intros Hv Hl [Hc Hh]. split; [|done]. intros n Hn. destruct (Hv n Hn) as [?|Hin]; [by apply Hc|].
  right. unfold all_local in Hl. rewrite Forall_forall in Hl. by apply Hl.
Qed.

Lemma stmts_ok_of l : Forall stmt_ok l -> stmts_ok l.
Proof.
  induction 1 as [|x l Hx _ IH]; intros s s' u Hc; cbn in Hc; steps.
  { repeat split; [by left|]. fine. }
  destruct (Hx _ _ _ H) as (T1 & V1 & S1), (IH _ _ _ H0) as (T2 & V2 & S2).
  split; [congruence|]. split.
  - intros n Hn. cbn. rewrite elem_of_app. destruct (V2 n Hn) as [Hn1|]; [|by auto].
    destruct (V1 n Hn1); auto.
  - intros locals g Hr Hl. cbn in Hl. unfold all_local in Hl. apply Forall_app in Hl as [L1 L2].
    cbn [emit_each]. apply succeeds_bind; [by apply S1|]. intros g1 c1 He1.
    apply succeeds_bind; [|fine]. apply S2; [|done].
    eapply ready_after; [exact V1|done|]. by eapply env_ready.
Qed.

(** A block restores the scopes it was entered with. *)
Definition scoped (l : list Stmt) : Checker.M unit :=
  Checker.mbind (Checker.on_symbols Checker.push_scope) (fun _ =>
  Checker.mbind (Checker.for_each Checker.check_stmt l) (fun _ =>
  Checker.on_symbols Checker.pop_scope)).

Lemma scoped_ok l s s' u :
  stmts_ok l -> scoped l s = (s', Ok u) ->
  Checker.symbols s' = Checker.symbols s
  /\ forall locals g, ready (Checker.symbols s) g locals ->
       all_local locals (concat (map declared l)) -> succeeds (emit_each (compile_stmt locals) l) g.
Proof.
  intros Hl Hc. unfold scoped in Hc. steps. unfold Checker.on_symbols in *. simplify_eq. cbn.
  destruct (Hl _ _ _ H0) as (T1 & _ & S1). split; [exact T1|].
  intros locals g [Hcov Hh] Ha. apply S1; [|done]. split; [|done].
  intros n. cbn. rewrite lookup_empty. apply Hcov.
Qed.

Lemma check_condition_ok what e sp s s' u :
  Checker.check_condition what e sp s = (s', Ok u) ->
  Checker.symbols s' = Checker.symbols s
  /\ forall locals g, ready (Checker.symbols s) g locals -> succeeds (compile_expr locals e) g.
Proof. unfold Checker.check_condition. intros Hc. steps. by apply (check_expr_ok e) in H. Qed.

Lemma lookup_define n m t b sy :
  is_Some (Checker.lookup n (Checker.define m t b sy)) ->
  is_Some (Checker.lookup n sy) \/ n = m.
Proof.
  destruct sy as [|sc sy]; cbn; [by left|]. destruct (decide (n = m)) as [->|Hn]; [by right|].
  rewrite lookup_insert_ne by done. by left.
Qed.

(** A statement that leaves the scopes alone. *)
Lemma body_ok_same {A} check (comp : list Local -> M A) names :
  (forall s s' u, check s = (s', Ok u) -> Checker.symbols s' = Checker.symbols s
     /\ forall locals g, ready (Checker.symbols s) g locals -> all_local locals names ->
          succeeds (comp locals) g) ->
  body_ok check names comp.
Proof.
  intros Hc s s' u H. destruct (Hc _ _ _ H) as [E S1]. unfold visible. rewrite E.
  repeat split; auto.
Qed.

Lemma string_arg_ok e s s' t :
  Checker.check_expr e s = (s', Ok t) -> Checker.symbols s' = Checker.symbols s
  /\ forall locals g, ready (Checker.symbols s) g locals -> succeeds (compile_string_arg locals e) g.
Proof.
  intros Hc. destruct (check_expr_ok e _ _ _ Hc) as [E S1]. split; [done|]. intros locals g Hr.
  destruct e; cbn [compile_string_arg];
    try (apply succeeds_bind; [by apply S1|fine]). apply succeeds_pair.
Qed.

Lemma host_pair_ok name a b s s1 s' ta tb :
  name ∈ host_names -> Checker.check_expr a s = (s1, Ok ta) -> Checker.check_expr b s1 = (s', Ok tb) ->
  Checker.symbols s' = Checker.symbols s
  /\ forall locals g, ready (Checker.symbols s) g locals ->
       succeeds (compile_host_pair locals name a b) g.
Proof.
  intros Hn Ha Hb. destruct (string_arg_ok _ _ _ _ Ha) as [E1 S1], (string_arg_ok _ _ _ _ Hb) as [E2 S2].
  split; [congruence|]. intros locals g Hr.
  apply succeeds_bind; [by apply S1|]. intros g1 c1 He1.
  apply succeeds_bind; [apply S2; rewrite E1; by eapply env_ready|]. intros g2 c2 He2.
  apply succeeds_bind; [|fine]. apply succeeds_import; [|done].
  destruct (env_ready _ _ _ _ He2 (env_ready _ _ _ _ He1 Hr)) as [_ Hh]. done.
Qed.

Lemma var_decl_ok n ty m e sp : stmt_ok (VarDecl n ty m e sp).
Proof.
  intros s s' u Hc. cbn in Hc. steps. destruct (check_expr_ok e _ _ _ H) as [E1 S1].
  assert (x1 = x) as -> by (destruct ty; steps; done).
  unfold Checker.on_symbols in *. simplify_eq. unfold visible. cbn. rewrite E1. repeat split.
  - by destruct (Checker.symbols s).
  - intros k Hk. rewrite list_elem_of_singleton. by apply lookup_define in Hk.
  - intros locals g Hr Hl. apply succeeds_bind; [by apply S1|]. intros g1 c1 _.
    apply Forall_cons in Hl as [Hl _]. destruct (find_local_some _ _ Hl) as [l Hf].
    apply (succeeds_step _ _ _ l); [by rewrite Hf|fine].
Qed.

Lemma assign_ok n e sp : stmt_ok (Assign n e sp).
Proof.
  apply body_ok_same. intros s s' u Hc. cbn in Hc. unfold Checker.lookup_or_fail in Hc. steps.
  case_match eqn:E; steps. destruct (check_expr_ok e _ _ _ H1) as [E1 S1]. split; [done|].
  intros locals g Hr _. cbn [compile_stmt]. apply succeeds_bind; [by apply S1|]. intros g1 c1 He1.
  destruct (env_ready _ _ _ _ He1 Hr) as [Hcov _].
  apply (succeeds_step _ _ _ (find_global n g1)); [done|].
  destruct (Hcov n) as [[i ->]|Hl]; [by rewrite E|fine|]. destruct (find_global n g1); [fine|].
  destruct (find_local_some _ _ Hl) as [l Hf]. apply (succeeds_step _ _ _ l); [by rewrite Hf|fine].
Qed.

Lemma check_stmt_ok x : stmt_ok x.
Proof.
  induction x as [n ty m e sp|n e sp|v sp|c l1 l2 sp IH1 IH2|c l sp IH|e|a b sp|a b sp]
    using Stmt_nested; [apply var_decl_ok|apply assign_ok|apply body_ok_same..];
    intros s s' u Hc; cbn [Checker.check_stmt] in Hc.
  - steps. destruct v as [e|]; steps; cbn [compile_stmt].
    + destruct (check_expr_ok e _ _ _ H) as [E1 S1]. split; [done|]. intros locals g Hr _.
      apply succeeds_bind; [by apply S1|fine].
    + split; [done|]. intros. apply succeeds_bind; fine.
  - apply bind_ok in Hc as (s1 & ? & Hcond & Hc). apply bind_ok in Hc as (s2 & ? & Hb1 & Hb2).
    apply check_condition_ok in Hcond as [E0 S0].
    destruct (scoped_ok _ _ _ _ (stmts_ok_of _ IH1) Hb1) as [E1 S1].
    destruct (scoped_ok _ _ _ _ (stmts_ok_of _ IH2) Hb2) as [E2 S2].
    split; [congruence|]. intros locals g Hr Hl. cbn [declared] in Hl. unfold all_local in Hl.
    apply Forall_app in Hl as [L1 L2]. cbn [compile_stmt].
    apply succeeds_bind; [by apply S0|]. intros g1 c1 He1.
    assert (ready (Checker.symbols s1) g1 locals) as R1 by (rewrite E0; by eapply env_ready).
    apply succeeds_bind; [by apply S1|]. intros g2 c2 He2. apply succeeds_bind; [|fine].
    destruct l2 as [|y l2]; [fine|]. apply succeeds_bind; [|fine].
    apply S2; [|done]. rewrite E1. by eapply env_ready.
  - apply bind_ok in Hc as (s1 & ? & Hcond & Hb). apply check_condition_ok in Hcond as [E0 S0].
    destruct (scoped_ok _ _ _ _ (stmts_ok_of _ IH) Hb) as [E1 S1].
    split; [congruence|]. intros locals g Hr Hl. cbn [compile_stmt].
    apply succeeds_bind; [by apply S0|]. intros g1 c1 He1.
    apply succeeds_bind; [|fine]. apply S1; [|done]. rewrite E0. by eapply env_ready.
  - steps. destruct (check_expr_ok e _ _ _ H) as [E1 S1]. split; [done|]. intros locals g Hr _.
    apply succeeds_bind; [by apply S1|fine].
  - steps. destruct (host_pair_ok "emit_event" a b _ _ _ _ _ ltac:(set_solver) H H0) as [E S1].
    split; [done|]. intros. by apply S1.
  - steps. destruct (host_pair_ok "storage_write" a b _ _ _ _ _ ltac:(set_solver) H H0) as [E S1].
    split; [done|]. intros. by apply S1.
Qed.

(** ** The table of locals *)

Definition collects (a : frame) (names : list string) (a' : frame) : Prop :=
  (forall n, is_local a.1 n -> is_local a'.1 n) /\ all_local a'.1 names.

Lemma collects_seq a b c n1 n2 : collects a n1 b -> collects b n2 c -> collects a (n1 ++ n2) c.
Proof.
  intros [I1 A1] [I2 A2]. split; [auto|]. unfold all_local. rewrite Forall_app. split; [|done].
  eapply Forall_impl; [exact A1|]. auto.
Qed.

Lemma collect_block_ok l :
  Forall (fun x => forall a idx, collects a (declared x) (collect_stmt x a idx).1) l ->
  forall a idx, collects a (concat (map declared l)) (collect_block collect_stmt l a idx).
Proof.
  induction 1 as [|x l Hx _ IH]; intros a idx; cbn; [split; [done|constructor]|].
  specialize (Hx a idx). destruct (collect_stmt x a idx) as [a1 idx1].
  eapply collects_seq; [exact Hx|apply IH].
Qed.

Lemma collect_stmt_ok x : forall a idx, collects a (declared x) (collect_stmt x a idx).1.
Proof.
  induction x as [n ty m e sp|n e sp|v sp|c l1 l2 sp IH1 IH2|c l sp IH|e|a0 b sp|a0 b sp]
    using Stmt_nested; intros a idx; cbn; try (split; [done|constructor]).
  - unfold collects, all_local, is_local. cbn. rewrite Forall_singleton, map_app. split.
    + intros k Hk. apply elem_of_app. by left.
    + apply elem_of_app. right. cbn. by apply list_elem_of_singleton.
  - eapply collects_seq; [by apply collect_block_ok|by apply collect_block_ok].
  - by apply collect_block_ok.
Qed.

(** ** Contracts *)

Lemma params_visible l s s' u n :
  Checker.for_each (fun p => Checker.on_symbols (Checker.define (par_name p) (par_ty p) false)) l s
    = (s', Ok u) ->
  tail (Checker.symbols s') = tail (Checker.symbols s)
  /\ (visible s' n -> visible s n \/ n ∈ map par_name l).
Proof.
  revert s. induction l as [|p l IH]; intros s Hc; cbn [Checker.for_each] in Hc; steps; [by auto|].
  unfold Checker.on_symbols in H. simplify_eq. destruct (IH _ H0) as [T V].
  split; [rewrite T; cbn; by destruct (Checker.symbols s)|]. intros Hn. cbn. rewrite elem_of_cons.
  destruct (V Hn) as [Hv|]; [|by auto]. apply lookup_define in Hv as [?| ->]; auto.
Qed.

Lemma param_locals_ok l n : n ∈ map par_name l -> is_local (param_locals l) n.
Proof.
  unfold is_local, param_locals. intros Hn. apply list_elem_of_fmap in Hn as (p & -> & Hp).
  apply list_elem_of_lookup in Hp as [i Hi]. apply list_elem_of_fmap.
  exists (mkLocal (par_name p) (par_ty p) (wrap 32 (Z.of_nat i))). split; [done|].
  apply list_elem_of_lookup. exists i. by rewrite list_lookup_imap, Hi.
Qed.

Lemma check_function_ok f s s' u :
  Checker.check_function f s = (s', Ok u) ->
  Checker.symbols s' = Checker.symbols s
  /\ forall g, ready (Checker.symbols s) g [] -> succeeds (compile_function f) g.
Proof.
  intros Hc. unfold Checker.check_function in Hc. steps. unfold Checker.on_symbols in H0, H3. simplify_eq.
  assert (Hb : stmts_ok (fun_body f)) by (apply stmts_ok_of, Forall_forall; intros; apply check_stmt_ok).
  destruct (Hb _ _ _ H2) as (T2 & _ & S2).
  assert (T1 := fun n => params_visible _ _ _ _ n H1).
  split; [destruct (T1 "") as [T3 _]; exact (eq_trans T2 T3)|]. intros g [Hcov Hh].
  unfold compile_function, function_frame, collect_locals.
  destruct (collect_block_ok (fun_body f) ltac:(apply Forall_forall; intros; apply collect_stmt_ok)
    (param_locals (fun_params f), []) (len32 (fun_params f))) as [I A].
  destruct (collect_block _ _ _ _) as [locals extra]. cbn in I, A.
  apply succeeds_bind; [|fine]. apply S2; [|done]. split; [|done]. intros n Hn.
  destruct (T1 n) as [_ V]. destruct (V Hn) as [Hv|Hp].
  - unfold visible in Hv. cbn in Hv. rewrite lookup_empty in Hv.
    destruct (Hcov n Hv) as [?|Hnil]; [by left|]. by apply elem_of_nil in Hnil.
  - right. by apply I, param_locals_ok.
Qed.

Lemma functions_ok l s s' u :
  Checker.for_each Checker.check_function l s = (s', Ok u) ->
  forall g, ready (Checker.symbols s) g [] ->
  succeeds (emit_each (fun f => do b <- compile_function f in
                                mret (encode_u32 (len32 b) ++ b)) l) g.
Proof.
  revert s. induction l as [|f l IH]; intros s Hc g Hr; cbn [Checker.for_each] in Hc; steps; [fine|].
  destruct (check_function_ok _ _ _ _ H) as [E S1]. cbn [emit_each].
  apply succeeds_bind; [apply succeeds_bind; [by apply S1|fine]|]. intros g1 c1 He1.
  apply succeeds_bind; [|fine]. apply (IH _ H0). rewrite E. by eapply env_ready.
Qed.

Lemma fields_visible l s s' u n :
  Checker.for_each (fun f => Checker.on_symbols
    (Checker.define (fld_name f) (fld_ty f) (fld_mutable f))) l s = (s', Ok u) ->
  visible s' n -> visible s n \/ n ∈ map fld_name l.
Proof.
  revert s. induction l as [|f l IH]; intros s Hc; cbn [Checker.for_each] in Hc; steps; [by auto|].
  unfold Checker.on_symbols in H. simplify_eq. intros Hn. cbn. rewrite elem_of_cons.
  destruct (IH _ H0 Hn) as [Hv|]; [|by auto]. apply lookup_define in Hv as [?| ->]; auto.
Qed.

Lemma register_symbols l s s' u :
  Checker.for_each Checker.register_function l s = (s', Ok u) ->
  Checker.symbols s' = Checker.symbols s.
Proof.
  revert s. induction l as [|f l IH]; intros s Hc; cbn [Checker.for_each] in Hc; steps; [done|].
  unfold Checker.register_function in H. simplify_eq. by rewrite (IH _ H0).
Qed.

Lemma check_fields_symbols l s s' u :
  Checker.for_each Checker.check_field l s = (s', Ok u) ->
  Checker.symbols s' = Checker.symbols s.
Proof.
  revert s. induction l as [|f l IH]; intros s Hc; cbn [Checker.for_each] in Hc; steps; [done|].
  rewrite (IH _ H0). unfold Checker.check_field in H. destruct (fld_initializer f) as [e|]; steps; [|done].
  by destruct (check_expr_ok e _ _ _ H) as [-> _].
Qed.

Lemma find_global_field c g n :
  globals g = map (fun f => (fld_name f, fld_ty f)) (con_fields c) ->
  n ∈ map fld_name (con_fields c) -> is_Some (find_global n g).
Proof.
  unfold find_global. intros ->. induction (con_fields c) as [|f l IH]; cbn; [by rewrite elem_of_nil|].
  rewrite elem_of_cons. case_bool_decide; [by eauto|]. intros [->|Hn]; [done|].
  destruct (IH Hn) as [i Hi]. destruct (position _ _); [|done]. by eexists.
Qed.

Lemma register_functions_env l g : env (register_functions l g).1 = env g.
Proof.
  revert g. induction l as [|f l IH]; intros g; cbn; [done|].
  unfold register_func_type, register_type.
  destruct (position _ _); cbn;
    match goal with |- context [register_functions l ?g'] => specialize (IH g') end;
    destruct (register_functions l _) as [g1 ids]; cbn in *; by rewrite IH.
Qed.

Lemma host_imports_ok gl :
  hosts (register_host_imports (set_globals gl new))
  /\ globals (register_host_imports (set_globals gl new)) = gl.
Proof. split; [repeat constructor; vm_compute; eauto|by vm_compute]. Qed.

(** C38: a contract the type checker accepts always compiles: the code generator resolves
    every name the checker resolved. *)
Theorem checked_contract_compiles (c : Contract) s tc :
  Checker.check c Checker.new = (s, Ok tc) ->
  exists g wasm, CodeGen.compile c new = (g, Ok wasm).
Proof.
  intros Hc. unfold Checker.check in Hc. steps.
  apply register_symbols in H0. apply check_fields_symbols in H1.
  unfold CodeGen.compile. cbn [globals new app].
  set (gl := map (fun f => (fld_name f, fld_ty f)) (con_fields c)).
  destruct (host_imports_ok gl) as [Hh Hg]. set (g0 := register_host_imports _) in *.
  pose proof (register_functions_env (con_functions c) g0) as He.
  destruct (register_functions (con_functions c) g0) as [g1 ids]. cbn [fst] in He.
  assert (Hr : ready (Checker.symbols x3) g1 []).
  { eapply env_ready; [exact He|]. split; [|done]. rewrite H1, H0. intros n Hn. left.
    apply (find_global_field c); [done|]. destruct (fields_visible _ _ _ _ n H Hn) as [Hv|]; [|done].
    unfold visible in Hv. cbn in Hv. rewrite lookup_empty in Hv. by destruct Hv. }
  match goal with |- exists g wasm, ?m g1 = _ => assert (succeeds m g1) as (g2 & w & Hw & _) end.
  { apply succeeds_bind; [apply succeeds_bind; [by apply (functions_ok _ _ _ _ H2)|fine]|].
    intros g' code _. apply succeeds_bind; fine. }
  eauto.
Qed.

End Scope.
