(* ===== verification/GsModule.v ===== *)
(** * gratiascript to gratia-vm: compiled contracts load

    The bytes of [CodeGen::compile] are a module for [parse_module] of the VM: the parser
    gets back the host imports, one function per contract function with its signature,
    locals and code, the fields as globals with their initial values, the exports and the
    string literals.  Module [Encoding] has the round trips of the single encodings: LEB128
    integers of 32 and 64 bits, floats, strings and counted vectors. *)

From stdpp Require Import base gmap strings list pretty.
From Stdlib Require Import ZArith Lia.
From S2P Require Import Prelude CoreTypes Ieee WasmModule GsSyntax GsTypes GsCodegen GsScope.
Import Gs.
Local Open Scope Z_scope.

Module Encoding.
Import Wasm CodeGen.

(** ** Bits *)

Lemma low7 v : Z.land v 0x7F = v mod 128.
Proof. change 0x7F with (Z.ones 7). by rewrite Z.land_ones. Qed.

Lemma high_part v : Z.shiftr v 7 = v / 128.
Proof. by rewrite Z.shiftr_div_pow2. Qed.

(** Low and high part put together again at an offset. *)
Lemma lor_parts v shift : 0 <= shift ->
  Z.lor (Z.shiftl (Z.land v 0x7F) shift) (Z.shiftl (Z.shiftr v 7) (shift + 7)) = Z.shiftl v shift.
Proof.
  intros Hs. apply Z.bits_inj'. intros i Hi. rewrite Z.lor_spec.
  rewrite !Z.shiftl_spec by lia. change 0x7F with (Z.ones 7). rewrite Z.land_spec.
  destruct (decide (i < shift)).
  { rewrite (Z.testbit_neg_r v), (Z.testbit_neg_r (Z.shiftr v 7)) by lia. done. }
  destruct (decide (i < shift + 7)).
  - rewrite Z.ones_spec_low, andb_true_r by lia. rewrite (Z.testbit_neg_r _ (i - (shift + 7))) by lia.
    apply orb_false_r.
  - rewrite Z.ones_spec_high, andb_false_r by lia. rewrite Z.shiftr_spec by lia.
    cbn. f_equal. lia.
Qed.

(** The bytes of an encoding: the last one has no continuation bit, the others have. *)
Lemma last_byte v : Z.land (Z.land v 0x7F) 0x7F = Z.land v 0x7F /\ Z.land (Z.land v 0x7F) 0x80 = 0.
Proof. by rewrite <- !Z.land_assoc, Z.land_0_r. Qed.

Lemma more_byte v :
  Z.land (Z.lor (Z.land v 0x7F) 0x80) 0x7F = Z.land v 0x7F
  /\ Z.land (Z.lor (Z.land v 0x7F) 0x80) 0x80 = 0x80.
Proof. rewrite !Z.land_lor_distr_l, <- !Z.land_assoc, Z.land_0_r. by rewrite Z.lor_0_r. Qed.

Lemma shiftl_mul v n : 0 <= n -> Z.shiftl v n = v * 2 ^ n.
Proof. intros. by rewrite Z.shiftl_mul_pow2. Qed.

(** ** Reading back *)

(** [item] reads [x] from the bytes [enc], wherever they are in the data. *)
Definition reads {A} (item : bytes -> Z -> exc (A * Z)) (enc : bytes) (x : A) : Prop :=
  forall pre post, blen (pre ++ enc ++ post) < 2 ^ 63 ->
  item (pre ++ enc ++ post) (blen pre) = Ret (x, blen pre + blen enc).

Lemma blen_app (a b : bytes) : blen (a ++ b) = blen a + blen b.
Proof. unfold blen. rewrite length_app. lia. Qed.

Lemma blen_nonneg (a : bytes) : 0 <= blen a.
Proof. unfold blen. lia. Qed.

Lemma blen_cons b (a : bytes) : blen (b :: a) = 1 + blen a.
Proof. unfold blen. cbn [length]. lia. Qed.

(** Two reads in a row. *)
Lemma reads_bind {A B} (i1 : bytes -> Z -> exc (A * Z)) (k : A -> bytes -> Z -> exc (B * Z)) e1 e2 x y :
  reads i1 e1 x -> reads (k x) e2 y ->
  reads (fun d p => ebind (i1 d p) (fun '(a, p) => k a d p)) (e1 ++ e2) y.
Proof.
  intros H1 H2 pre post Hs. rewrite <- app_assoc in *. rewrite H1 by done. cbn.
  specialize (H2 (pre ++ e1) post). rewrite <- app_assoc, (blen_app pre e1) in H2. rewrite H2 by done.
  rewrite blen_app. do 2 f_equal. lia.
Qed.

Lemma reads_ret {A} (x : A) : reads (fun _ p => Ret (x, p)) [] x.
Proof. intros pre post _. do 2 f_equal. unfold blen. cbn. lia. Qed.

(** A read whose value is post-processed. *)
Lemma reads_map {A B} (i : bytes -> Z -> exc (A * Z)) (k : A -> bytes -> Z -> exc (B * Z)) e x y :
  reads i e x -> (forall d p, k x d p = Ret (y, p)) ->
  reads (fun d p => ebind (i d p) (fun '(a, p) => k a d p)) e y.
Proof. intros Hi Hk pre post Hs. rewrite Hi by done. cbn. by rewrite Hk. Qed.

Lemma read_byte_at b pre post : read_byte (pre ++ b :: post) (blen pre) = Ret (b, blen pre + 1).
Proof.
  unfold read_byte. rewrite decide_False by (rewrite blen_app, blen_cons; pose proof (blen_nonneg post); lia).
  unfold blen. rewrite Nat2Z.id, lookup_app_r, Nat.sub_diag by lia. done.
Qed.

Lemma reads_byte b : reads read_byte [b] b.
Proof. intros pre post _. apply read_byte_at. Qed.

Lemma read_bytes_at (e pre post : bytes) n :
  n = blen e -> blen (pre ++ e ++ post) < 2 ^ 63 ->
  read_bytes n (pre ++ e ++ post) (blen pre) = Ret (e, blen pre + blen e).
Proof.
  intros -> Hs. rewrite !blen_app in Hs. unfold read_bytes.
  pose proof (blen_nonneg pre). pose proof (blen_nonneg e). pose proof (blen_nonneg post).
  rewrite wadd_small by (unfold in_range; lia).
  rewrite decide_False by (rewrite !blen_app; lia).
  unfold slice. rewrite decide_True by (rewrite !blen_app; lia). cbn. do 2 f_equal.
  replace (blen pre + blen e - blen pre) with (blen e) by lia. unfold blen. rewrite !Nat2Z.id.
  by rewrite drop_app_length, take_app_length.
Qed.

Lemma reads_bytes e n : n = blen e -> reads (read_bytes n) e e.
Proof. intros Hn pre post Hs. by apply read_bytes_at. Qed.

(** ** Integers *)

Lemma u32_loop_encode n : forall m acc shift v pre post,
  (0 < n <= m)%nat -> 0 <= shift -> 0 <= v < 2 ^ (7 * Z.of_nat n) -> shift <= 31 -> v < 2 ^ (32 - shift) ->
  u32_loop m acc shift (pre ++ encode_uleb n v ++ post) (blen pre)
    = Ret (Z.lor acc (Z.shiftl v shift), blen pre + blen (encode_uleb n v)).
Proof.
  induction n as [|n IH]; intros m acc shift v pre post Hm Hs Hv Hs32 Hv32; [lia|].
  destruct m as [|m]; [lia|]. cbn [encode_uleb]. rewrite high_part.
  assert (Hsmall : wrap 32 (shl 32 (Z.land v 0x7F) shift) = Z.shiftl (Z.land v 0x7F) shift).
  { unfold shl. rewrite Z.mod_small by lia. apply wrap_small.
    rewrite shiftl_mul, low7 by lia. pose proof (Z.mod_pos_bound v 128).
    pose proof (Z.mod_le v 128). replace 32 with (32 - shift + shift) by lia.
    unfold in_range. rewrite Z.pow_add_r by lia. nia. }
  assert (Hparts := lor_parts v shift Hs). rewrite high_part in Hparts.
  destruct (v / 128 =? 0) eqn:E.
  - apply Z.eqb_eq in E. cbn [u32_loop app]. rewrite read_byte_at. cbn [ebind].
    destruct (last_byte v) as [-> ->]. cbn [Z.eqb]. rewrite Hsmall. do 3 f_equal.
    rewrite E, Z.shiftl_0_l, Z.lor_0_r in Hparts. done.
  - apply Z.eqb_neq in E. cbn [u32_loop app]. rewrite read_byte_at. cbn [ebind].
    destruct (more_byte v) as [-> ->]. cbn [Z.eqb].
    assert (Hlt : shift < 25).
    { destruct (decide (shift < 25)); [done|]. exfalso. apply E. apply Z.div_small.
      split; [lia|]. eapply Z.lt_le_trans; [exact Hv32|].
      change 128 with (2 ^ 7). apply Z.pow_le_mono_r; lia. }
    rewrite decide_False by lia. rewrite Hsmall.
    specialize (IH m (Z.lor acc (Z.shiftl (Z.land v 127) shift)) (shift + 7) (v / 128)
      (pre ++ [Z.lor (Z.land v 127) 128]) post).
    rewrite <- app_assoc, blen_app in IH. cbn [app] in IH. change (blen [_]) with 1 in IH.
    rewrite IH.
    + rewrite <- Z.lor_assoc, Hparts, blen_cons. do 2 f_equal. lia.
    + split; [|lia]. destruct n; [|lia]. exfalso. apply E, Z.div_small. exact Hv.
    + lia.
    + split; [apply Z.div_pos; lia|]. apply Z.div_lt_upper_bound; [lia|].
      replace (7 * Z.of_nat (S n)) with (7 + 7 * Z.of_nat n) in Hv by lia.
      rewrite Z.pow_add_r in Hv by lia. lia.
    + lia.
    + apply Z.div_lt_upper_bound; [lia|].
      replace (32 - shift) with (7 + (32 - (shift + 7))) in Hv32 by lia.
      rewrite Z.pow_add_r in Hv32 by lia. lia.
Qed.

Lemma reads_u32 v : in_range 32 v -> reads read_u32_leb128 (encode_u32 v) v.
Proof.
  intros Hv pre post _. unfold in_range in Hv. unfold read_u32_leb128, encode_u32.
  rewrite u32_loop_encode by (cbn; lia). by rewrite Z.lor_0_l, Z.shiftl_0_r.
Qed.

Lemma signed_small w x : 0 < w -> - 2 ^ (w - 1) <= x < 2 ^ (w - 1) -> signed w x = x.
Proof.
  intros Hw Hx. unfold signed. assert (2 ^ w = 2 * 2 ^ (w - 1)) as Hp.
  { rewrite <- Z.pow_succ_r by lia. f_equal. lia. }
  destruct (decide (0 <= x)).
  - rewrite Z.mod_small by lia. destruct (Z.ltb_spec x (2 ^ (w - 1))); lia.
  - rewrite <- (Z.mod_unique x (2 ^ w) (-1) (x + 2 ^ w)) by lia.
    destruct (Z.ltb_spec (x + 2 ^ w) (2 ^ (w - 1))); lia.
Qed.

Lemma signed_cong w x y : (x - y) mod 2 ^ w = 0 -> 0 < w -> signed w x = signed w y.
Proof.
  intros Hm Hw. unfold signed. assert (x mod 2 ^ w = y mod 2 ^ w) as ->; [|done].
  replace x with (y + (x - y)) by lia. rewrite Z.add_mod, Hm by lia. by rewrite Z.add_0_r, Z.mod_mod by lia.
Qed.

(** Bit 6 of the low part. *)
Lemma bit6 v : Z.land (Z.land v 0x7F) 0x40 = 0 <-> v mod 128 < 64.
Proof.
  rewrite low7. set (r := v mod 128). assert (0 <= r < 128) as Hr by (apply Z.mod_pos_bound; lia).
  change 0x40 with (2 ^ 6). 
  assert (Z.land r (2 ^ 6) = if Z.testbit r 6 then 2 ^ 6 else 0) as ->.
  { apply Z.bits_inj'. intros i Hi. rewrite Z.land_spec.
    destruct (decide (i = 6)) as [->|].
    - rewrite Z.pow2_bits_true by lia. destruct (Z.testbit r 6); [by rewrite Z.pow2_bits_true by lia|done].
    - rewrite Z.pow2_bits_false, andb_false_r by lia.
      destruct (Z.testbit r 6); [by rewrite Z.pow2_bits_false by lia|by rewrite Z.bits_0]. }
  rewrite Z.testbit_odd, Z.shiftr_div_pow2 by lia. change (2 ^ 6) with 64.
  assert (r / 64 = 0 \/ r / 64 = 1) as [E|E].
  { assert (0 <= r / 64) by (apply Z.div_pos; lia). assert (r / 64 < 2) by (apply Z.div_lt_upper_bound; lia). lia. }
  - rewrite E. cbn. split; [|done]. intros _. pose proof (Z.div_mod r 64). pose proof (Z.mod_pos_bound r 64). lia.
  - rewrite E. cbn. split; [done|]. intros. pose proof (Z.div_mod r 64). pose proof (Z.mod_pos_bound r 64). lia.
Qed.

(** The stop condition of the signed encoder: the rest is the sign of the last byte. *)
Lemma sleb_done v :
  ((v / 128 =? 0) && (Z.land (Z.land v 0x7F) 0x40 =? 0))
  || ((v / 128 =? -1) && negb (Z.land (Z.land v 0x7F) 0x40 =? 0)) = true
  <-> -64 <= v < 64.
Proof.
  pose proof (bit6 v) as Hb. pose proof (Z.div_mod v 128 ltac:(lia)). pose proof (Z.mod_pos_bound v 128).
  destruct (Z.eqb_spec (v / 128) 0), (Z.eqb_spec (v / 128) (-1)),
    (Z.eqb_spec (Z.land (Z.land v 127) 64) 0) as [E|E]; cbn; rewrite Hb in E; (split; [intros; try done; lia|intros; try done; lia]).
Qed.

Lemma pow_split a b : 0 <= a -> 0 <= b -> 2 ^ (a + b) = 2 ^ a * 2 ^ b.
Proof. intros. by apply Z.pow_add_r. Qed.

(** A value that fits behind [shift] keeps its sign. *)
Lemma signed_shiftl w shift v :
  0 <= shift <= w - 1 -> - 2 ^ (w - 1 - shift) <= v < 2 ^ (w - 1 - shift) ->
  signed w (Z.shiftl v shift) = Z.shiftl v shift.
Proof.
  intros Hs Hv. rewrite shiftl_mul by lia. apply signed_small; [lia|].
  replace (w - 1) with (w - 1 - shift + shift) by lia. rewrite pow_split by lia.
  assert (0 < 2 ^ shift) by lia. nia.
Qed.

Lemma sleb_last w shift v acc :
  0 <= shift <= w - 1 -> - 2 ^ (w - 1 - shift) <= v < 2 ^ (w - 1 - shift) -> -64 <= v < 64 ->
  (if (shift + 7 <? w) && negb (Z.land (Z.land v 0x7F) 0x40 =? 0)
   then Z.lor (Z.lor acc (signed w (Z.shiftl (Z.land v 0x7F) shift)))
          (signed w (Z.shiftl (-1) (shift + 7)))
   else Z.lor acc (signed w (Z.shiftl (Z.land v 0x7F) shift)))
  = Z.lor acc (Z.shiftl v shift).
Proof.
  intros Hs Hv Hd. pose proof (bit6 v) as Hb. assert (Hp := lor_parts v shift ltac:(lia)).
  rewrite high_part in Hp. rewrite low7 in *. pose proof (Z.div_mod v 128 ltac:(lia)).
  pose proof (Z.mod_pos_bound v 128). assert (0 < 2 ^ shift) by lia.
  destruct (Z.eqb_spec (Z.land (v mod 128) 64) 0) as [E|E]; rewrite Hb in E.
  - rewrite andb_false_r. assert (v mod 128 = v) as -> by lia. by rewrite signed_shiftl.
  - assert (v / 128 = -1) as E1 by lia. rewrite andb_true_r. rewrite E1 in Hp.
    destruct (Z.ltb_spec (shift + 7) w).
    + assert (2 ^ 7 <= 2 ^ (w - 1 - shift)) by (apply Z.pow_le_mono_r; lia).
      rewrite (signed_shiftl w shift), (signed_shiftl w (shift + 7)) by lia.
      by rewrite <- Z.lor_assoc, Hp.
    + f_equal. rewrite <- (signed_shiftl w shift v) by lia. apply signed_cong; [|lia].
      rewrite !shiftl_mul by lia. replace (v mod 128 * 2 ^ shift - v * 2 ^ shift) with (2 ^ (7 + shift)).
      * replace (7 + shift) with (7 + shift - w + w) by lia. rewrite pow_split by lia.
        by apply Z.mod_mul; lia.
      * rewrite pow_split by lia. change (2 ^ 7) with 128. nia.
Qed.

Lemma sleb_loop_encode w limit n : w - 1 <= limit -> forall m acc shift v pre post,
  (0 < n <= m)%nat -> 0 <= shift <= w - 1 ->
  - 2 ^ (w - 1 - shift) <= v < 2 ^ (w - 1 - shift) ->
  - 2 ^ (7 * Z.of_nat n - 1) <= v < 2 ^ (7 * Z.of_nat n - 1) ->
  sleb_loop w limit m acc shift (pre ++ encode_sleb n v ++ post) (blen pre)
    = Ret (Z.lor acc (Z.shiftl v shift), blen pre + blen (encode_sleb n v)).
Proof.
  intros Hlim. induction n as [|n IH]; intros m acc shift v pre post Hm Hs Hv Hn; [lia|].
  destruct m as [|m]; [lia|]. cbn [encode_sleb]. rewrite high_part.
  assert (Hshl : shl w (Z.land v 0x7F) shift = Z.shiftl (Z.land v 0x7F) shift)
    by (unfold shl; by rewrite Z.mod_small by lia).
  pose proof (sleb_done v) as Hdone.
  destruct (_ || _); cbn [sleb_loop app]; rewrite read_byte_at; cbn [ebind].
  - destruct (last_byte v) as [-> ->]. cbn [Z.eqb]. rewrite Hshl.
    rewrite <- (sleb_last w) by (done || by apply Hdone).
    destruct (_ && _); do 2 f_equal.
  - assert (Hbig : ~ (-64 <= v < 64)) by (rewrite <- Hdone; done).
    assert (Hs7 : shift + 7 <= w - 1).
    { destruct (decide (shift + 7 <= w - 1)); [done|]. exfalso. apply Hbig.
      assert (2 ^ (w - 1 - shift) <= 2 ^ 6) by (apply Z.pow_le_mono_r; lia). lia. }
    assert (2 ^ 7 <= 2 ^ (w - 1 - shift)) by (apply Z.pow_le_mono_r; lia).
    destruct (more_byte v) as [-> ->]. cbn [Z.eqb]. rewrite decide_False by lia.
    rewrite Hshl. rewrite signed_shiftl; [|lia|rewrite low7; pose proof (Z.mod_pos_bound v 128); lia].
    specialize (IH m (Z.lor acc (Z.shiftl (Z.land v 127) shift)) (shift + 7) (v / 128)
      (pre ++ [Z.lor (Z.land v 127) 128]) post).
    rewrite <- app_assoc, blen_app in IH. cbn [app] in IH. change (blen [_]) with 1 in IH.
    rewrite IH.
    + assert (Hp := lor_parts v shift ltac:(lia)). rewrite high_part in Hp.
      rewrite <- Z.lor_assoc, Hp, blen_cons. do 2 f_equal. lia.
    + split; [|lia]. destruct n; [|lia]. exfalso. apply Hbig. cbn in Hn. lia.
    + lia.
    + replace (w - 1 - shift) with (7 + (w - 1 - (shift + 7))) in Hv by lia.
      rewrite pow_split in Hv by lia. change (2 ^ 7) with 128 in Hv.
      split; [apply Z.div_le_lower_bound|apply Z.div_lt_upper_bound]; lia.
    + destruct n as [|n]; [exfalso; apply Hbig; cbn in Hn; lia|].
      replace (7 * Z.of_nat (S (S n)) - 1) with (7 + (7 * Z.of_nat (S n) - 1)) in Hn by lia.
      rewrite pow_split in Hn by lia. change (2 ^ 7) with 128 in Hn.
      split; [apply Z.div_le_lower_bound|apply Z.div_lt_upper_bound]; lia.
Qed.

Definition i32_range (v : Z) : Prop := - 2 ^ 31 <= v < 2 ^ 31.
Definition i64_range (v : Z) : Prop := - 2 ^ 63 <= v < 2 ^ 63.

Lemma reads_i32 v : i32_range v -> reads read_i32_leb128 (encode_i32 v) v.
Proof.
  intros Hv pre post _. unfold i32_range in Hv. unfold read_i32_leb128, encode_i32.
  rewrite sleb_loop_encode by (cbn; lia). by rewrite Z.lor_0_l, Z.shiftl_0_r.
Qed.

Lemma reads_i64 v : i64_range v -> reads read_i64_leb128 (encode_i64 v) v.
Proof.
  intros Hv pre post _. unfold i64_range in Hv. unfold read_i64_leb128, encode_i64.
  rewrite sleb_loop_encode by (cbn; lia). by rewrite Z.lor_0_l, Z.shiftl_0_r.
Qed.

Lemma signed_range32 x : i32_range (signed 32 x).
Proof.
  unfold i32_range, signed. pose proof (Z.mod_pos_bound x (2 ^ 32)).
  destruct (Z.ltb_spec (x mod 2 ^ 32) (2 ^ (32 - 1))); cbn in *; lia.
Qed.

(** ** Floats, strings and vectors *)

Lemma reads_f32 v : in_range 32 v -> reads read_f32 (le_bytes 4 v) v.
Proof.
  intros Hv. unfold read_f32. eapply (reads_map _ (fun b d p => Ret (of_le_bytes b, p))).
  - apply reads_bytes. done.
  - intros d p. rewrite of_le_bytes_le_bytes. do 2 f_equal. apply Z.mod_small. exact Hv.
Qed.

Lemma reads_f64 v : in_range 64 v -> reads read_f64 (le_bytes 8 v) v.
Proof.
  intros Hv. unfold read_f64. eapply (reads_map _ (fun b d p => Ret (of_le_bytes b, p))).
  - apply reads_bytes. done.
  - intros d p. rewrite of_le_bytes_le_bytes. do 2 f_equal. apply Z.mod_small. exact Hv.
Qed.

(** A [String] is always well-formed UTF-8. *)
Definition text (s : string) : Prop := utf8_valid (as_bytes s) = true.

#[export] Instance text_dec s : Decision (text s).
Proof. unfold text. apply _. Defined.

Lemma string_of_as_bytes s : string_of_bytes (as_bytes s) = s.
Proof.
  unfold string_of_bytes, as_bytes. rewrite map_map.
  rewrite (map_ext _ (fun a => a)); [|intros a; by rewrite N2Z.id, Ascii.ascii_N_embedding].
  by rewrite map_id, String.string_of_list_ascii_of_string.
Qed.

Lemma len32_small {A} (l : list A) : Z.of_nat (length l) < 2 ^ 32 -> len32 l = Z.of_nat (length l).
Proof. intros. apply wrap_small. unfold in_range. lia. Qed.

Lemma len32_range {A} (l : list A) : in_range 32 (len32 l).
Proof. apply wrap_range. lia. Qed.

Lemma reads_string s :
  text s -> blen (as_bytes s) < 2 ^ 32 -> reads read_string (encode_str s) s.
Proof.
  intros Ht Hl. unfold read_string, encode_str.
  eapply (reads_bind _ (fun len d p => let* (b, p) := read_bytes len d p in
    let* s := from_utf8 b (InvalidBytecode "invalid UTF-8 in string") in Ret (s, p))).
  - apply reads_u32, len32_range.
  - eapply (reads_map _ (fun b d p =>
      let* s := from_utf8 b (InvalidBytecode "invalid UTF-8 in string") in Ret (s, p))).
    + apply reads_bytes. by rewrite len32_small.
    + intros d p. unfold from_utf8. rewrite Ht. cbn. by rewrite string_of_as_bytes.
Qed.

Lemma reads_vec {A} (item : bytes -> Z -> exc (A * Z)) encs xs :
  Forall2 (reads item) encs xs -> reads (read_vec item (length xs)) (concat encs) xs.
Proof.
  induction 1 as [|e x encs xs Hx _ IH]; [apply reads_ret|].
  eapply (reads_bind _ (fun x d p => let* (l, p) := read_vec item (length xs) d p in Ret (x :: l, p)));
    [exact Hx|]. by eapply (reads_map _ (fun l d p => Ret (x :: l, p))).
Qed.

Lemma reads_counted {A} (item : bytes -> Z -> exc (A * Z)) encs xs n :
  Forall2 (reads item) encs xs -> n = Z.of_nat (length xs) -> n < 2 ^ 32 ->
  reads (read_counted item) (encode_u32 n ++ concat encs) xs.
Proof.
  intros Hx -> Hl. eapply (reads_bind _ (fun count d p => read_vec item (Z.to_nat count) d p)).
  - apply reads_u32. unfold in_range. lia.
  - rewrite Nat2Z.id. by apply reads_vec.
Qed.

End Encoding.

Module Load.
Import Wasm CodeGen Encoding.

(** ** What a contract stands for *)

Definition valtype (t : GsType) : ValType :=
  match t with TyI64 => TI64 | TyF32 => TF32 | TyF64 => TF64 | _ => TI32 end.

Definition functype (ps rs : list GsType) : FuncType :=
  mkFuncType (map valtype ps) (map valtype rs).

Definition results_of (t : GsType) : list GsType := if decide (t = TyVoid) then [] else [t].

Definition signature (f : Function) : FuncType :=
  functype (map par_ty (fun_params f)) (results_of (fun_return_type f)).

(** The initial value of a field: literals of the field's type, zero otherwise. *)
Definition initial_value (e : option Expr) (t : GsType) : Value :=
  match e, t with
  | Some (IntLit v _), TyI32 => I32 (signed 32 v)
  | Some (IntLit v _), TyI64 => I64 v
  | Some (FloatLit v _), TyF32 => F32 (Ieee.convert Ieee.f64 Ieee.f32 v)
  | Some (FloatLit v _), TyF64 => F64 v
  | Some (BoolLit b _), _ => I32 (if b then 1 else 0)
  | _, _ => default_for_valtype (valtype t)
  end.

Definition field_global (f : Field) : WasmGlobal :=
  mkWasmGlobal (valtype (fld_ty f)) true (initial_value (fld_initializer f) (fld_ty f)).

Definition segment (d : string * StringData) : DataSegment :=
  mkDataSegment (wrap 32 (sd_offset d.2)) (as_bytes d.1).

(** [code] is what the generator emits for the body of [f] when the contract has the
    fields [fields]. *)
Definition body_code (fields : list (string * GsType)) (f : Function) (code : bytes) : Prop :=
  exists g g',
    globals g = fields /\ import_count g = 12
    /\ emit_each (compile_stmt (function_frame f).1) (fun_body f) g = (g', Ok code).

Definition field_types (c : Contract) : list (string * GsType) :=
  map (fun f => (fld_name f, fld_ty f)) (con_fields c).

(** The function of the module that stands for [f]. *)
Definition implements (c : Contract) (types : list FuncType) (f : Function) (fn : WasmFunction)
  : Prop :=
  types !! Z.to_nat (fn_type_idx fn) = Some (signature f)
  /\ fn_locals fn = map valtype (function_frame f).2
  /\ blen (fn_code fn) < 2 ^ 32
  /\ exists code, body_code (field_types c) f code /\ fn_code fn = code ++ [OP_END].

(** What holds of every Rust value of type [Contract]: integers and floats have their
    width, names are UTF-8; and no function has 2^32 variables. *)
Definition literal_ok (e : Expr) : Prop :=
  match e with IntLit v _ => i64_range v | FloatLit v _ => in_range 64 v | _ => True end.

Definition contract_ok (c : Contract) : Prop :=
  Forall (fun f => from_option literal_ok True (fld_initializer f)) (con_fields c)
  /\ Forall (fun f => text (fun_name f)
       /\ Z.of_nat (length (fun_params f) + length (function_frame f).2) < 2 ^ 32)
       (con_functions c).

#[export] Instance literal_ok_dec e : Decision (literal_ok e).
Proof. destruct e; unfold literal_ok, i64_range, in_range; apply _. Defined.
#[export] Instance initializer_ok_dec o : Decision (from_option literal_ok True o).
Proof. destruct o; cbn; apply _. Defined.
#[export] Instance contract_ok_dec c : Decision (contract_ok c).
Proof. unfold contract_ok. apply _. Defined.

(** ** Entries *)

Lemma bind_concat {A B} (f : A -> list B) l : l ≫= f = concat (map f l).
Proof. induction l as [|x l IH]; cbn; [done|]. by f_equal. Qed.

Lemma length_concat (l : list bytes) :
  Forall (fun e => e <> []) l -> Z.of_nat (length l) <= blen (concat l).
Proof.
  induction 1 as [|e l He _ IH]; cbn; [done|]. rewrite blen_app.
  destruct e; [done|]. rewrite blen_cons. pose proof (blen_nonneg e). lia.
Qed.

(** Read the next item with [H]; the continuation reads the rest. *)
Ltac next H :=
  lazymatch goal with
  | |- reads (fun d p => ebind (@?i d p) (@?k d p)) _ _ =>
      eapply (reads_bind i (fun a d q => k d 0 (a, q))); [apply H|cbv beta iota]
  end.

(** Read the last item with [H]; the rest only builds the result. *)
Ltac final H :=
  lazymatch goal with
  | |- reads (fun d p => ebind (@?i d p) (@?k d p)) _ _ =>
      eapply (reads_map i (fun a d q => k d 0 (a, q))); [apply H|intros ? ?; cbv beta iota]
  end.

Lemma reads_valtype t : reads read_valtype [type_to_valtype t] (valtype t).
Proof. unfold read_valtype. final reads_byte. by destruct t. Qed.

Lemma reads_types l :
  Z.of_nat (length l) < 2 ^ 32 -> reads (read_counted read_valtype) (encode_vec_types l) (map valtype l).
Proof.
  intros Hl. unfold encode_vec_types. rewrite len32_small by done.
  replace (map type_to_valtype l) with (concat (map (fun t => [type_to_valtype t]) l))
    by (clear; induction l; cbn; congruence).
  apply reads_counted; [|by rewrite length_map|done].
  apply Forall2_fmap_2, Forall_Forall2_diag, Forall_forall. intros t _. apply reads_valtype.
Qed.

Definition sig (ps rs : list GsType) : bytes := 0x60 :: encode_vec_types ps ++ encode_vec_types rs.

Lemma reads_sig ps rs :
  Z.of_nat (length ps) < 2 ^ 32 -> Z.of_nat (length rs) < 2 ^ 32 ->
  reads parse_type (sig ps rs) (functype ps rs).
Proof.
  intros Hp Hr. unfold sig, parse_type. change (96 :: ?l) with ([96] ++ l).
  next reads_byte. cbn [Z.eqb Pos.eqb]. next reads_types; [done|]. by final reads_types.
Qed.

Lemma reads_import n t :
  text n -> blen (as_bytes n) < 2 ^ 32 -> in_range 32 t ->
  reads parse_import (encode_str "env" ++ encode_str n ++ 0x00 :: encode_u32 t) (mkImport "env" n t).
Proof.
  intros Hn Hl Ht. unfold parse_import. change (0 :: ?l) with ([0] ++ l).
  next reads_string; [done..|]. next reads_string; [done..|]. next reads_byte. cbn [Z.eqb].
  by final reads_u32.
Qed.

Lemma reads_memory : reads parse_memory (0x00 :: encode_u32 1) 1.
Proof.
  unfold parse_memory. change (0 :: ?l) with ([0] ++ l). next reads_byte. by final reads_u32.
Qed.

Lemma reads_export n b kind i :
  text n -> blen (as_bytes n) < 2 ^ 32 -> in_range 32 i ->
  (b = 0x00 /\ kind = EFunction) \/ (b = 0x02 /\ kind = EMemory) ->
  reads parse_export (encode_str n ++ b :: encode_u32 i) (Some (mkWasmExport n kind i)).
Proof.
  intros Hn Hl Hi Hk. unfold parse_export. change (b :: ?l) with ([b] ++ l).
  next reads_string; [done..|]. next reads_byte. final reads_u32; [done|].
  by destruct Hk as [[-> ->]|[-> ->]].
Qed.

Lemma reads_end {A} (v : A) :
  reads (fun d p => let* (end_, p) := read_byte d p in
           if end_ =? 0x0B then Ret (v, p)
           else Throw (InvalidBytecode "expected END after const expression")) [OP_END] v.
Proof. by final reads_byte. Qed.

(** A constant and its end. *)
Lemma reads_const_i32 t x : i32_range x ->
  reads (parse_const_expr t) ((OP_I32_CONST :: encode_i32 x) ++ [OP_END]) (I32 x).
Proof.
  intros Hx. unfold parse_const_expr. rewrite <- app_comm_cons.
  change (OP_I32_CONST :: ?l) with ([OP_I32_CONST] ++ l). next reads_byte.
  cbn [Z.eqb Pos.eqb OP_I32_CONST]. next reads_i32; [done|]. apply reads_end.
Qed.

Lemma reads_const_i64 t x : i64_range x ->
  reads (parse_const_expr t) ((OP_I64_CONST :: encode_i64 x) ++ [OP_END]) (I64 x).
Proof.
  intros Hx. unfold parse_const_expr. rewrite <- app_comm_cons.
  change (OP_I64_CONST :: ?l) with ([OP_I64_CONST] ++ l). next reads_byte.
  cbn [Z.eqb Pos.eqb OP_I64_CONST]. next reads_i64; [done|]. apply reads_end.
Qed.

Lemma reads_const_f32 t x : in_range 32 x ->
  reads (parse_const_expr t) ((OP_F32_CONST :: le_bytes 4 x) ++ [OP_END]) (F32 x).
Proof.
  intros Hx. unfold parse_const_expr. rewrite <- app_comm_cons.
  change (OP_F32_CONST :: ?l) with ([OP_F32_CONST] ++ l). next reads_byte.
  cbn [Z.eqb Pos.eqb OP_F32_CONST]. next reads_f32; [done|]. apply reads_end.
Qed.

Lemma reads_const_f64 t x : in_range 64 x ->
  reads (parse_const_expr t) ((OP_F64_CONST :: le_bytes 8 x) ++ [OP_END]) (F64 x).
Proof.
  intros Hx. unfold parse_const_expr. rewrite <- app_comm_cons.
  change (OP_F64_CONST :: ?l) with ([OP_F64_CONST] ++ l). next reads_byte.
  cbn [Z.eqb Pos.eqb OP_F64_CONST]. next reads_f64; [done|]. apply reads_end.
Qed.

Lemma reads_zero t ty :
  reads (parse_const_expr t) (emit_zero_const ty ++ [OP_END]) (default_for_valtype (valtype ty)).
Proof.
  destruct ty; cbn [emit_zero_const valtype default_for_valtype];
    first [by apply reads_const_i32|by apply reads_const_i64|by apply reads_const_f32
          |by apply reads_const_f64].
Qed.

Definition emit_initial (e : option Expr) (ty : GsType) : bytes :=
  match e with Some e => emit_const_expr e ty | None => emit_zero_const ty end.

Lemma reads_initial t e ty :
  from_option literal_ok True e ->
  reads (parse_const_expr t) (emit_initial e ty ++ [OP_END]) (initial_value e ty).
Proof.
  intros Hl. destruct e as [e|]; [|apply reads_zero].
  destruct e; cbn [emit_initial emit_const_expr initial_value]; try apply reads_zero.
  - destruct ty; try apply reads_zero.
    + apply reads_const_i32, signed_range32.
    + by apply reads_const_i64.
  - destruct ty; try apply reads_zero.
    + apply reads_const_f32. apply (Ieee.encode_range Ieee.f32). done.
    + by apply reads_const_f64.
  - apply reads_const_i32. by destruct b.
Qed.

Lemma reads_global f :
  from_option literal_ok True (fld_initializer f) ->
  reads parse_global
    (type_to_valtype (fld_ty f) :: 0x01 :: emit_initial (fld_initializer f) (fld_ty f) ++ [OP_END])
    (field_global f).
Proof.
  intros Hl. unfold parse_global.
  match goal with |- reads _ (?a :: ?b :: ?l) _ => change (a :: b :: l) with ([a] ++ [b] ++ l) end.
  next reads_valtype. next reads_byte. by final reads_initial.
Qed.

Lemma wrap_signed x : wrap 32 (signed 32 x) = wrap 32 x.
Proof.
  unfold signed, wrap. destruct (_ <? _); [by rewrite Z.mod_mod|].
  rewrite Zminus_mod, Z.mod_same, Z.sub_0_r, !Z.mod_mod by done. done.
Qed.

Lemma reads_data d :
  sd_len d.2 = len32 (as_bytes d.1) -> blen (as_bytes d.1) < 2 ^ 32 ->
  reads parse_data (emit_data d) (segment d).
Proof.
  intros Hl Hs. unfold emit_data, parse_data, segment.
  replace (encode_u32 0 ++ OP_I32_CONST :: encode_i32 (signed 32 (sd_offset d.2)) ++ OP_END
             :: encode_u32 (sd_len d.2) ++ as_bytes d.1)
    with (encode_u32 0 ++ ((OP_I32_CONST :: encode_i32 (signed 32 (sd_offset d.2))) ++ [OP_END])
            ++ encode_u32 (sd_len d.2) ++ as_bytes d.1)
    by (rewrite <- !app_assoc; done).
  next reads_u32; [done|]. cbn [Z.eqb].
  eapply (reads_bind (fun d p => let* (v, p) := parse_const_expr TI32 d p in
            Ret (match as_i32 v with Ret x => wrap 32 x | _ => 0 end, p))
          (fun a d q => let* (n, q) := read_u32_leb128 d q in
            let* (b, q) := read_bytes n d q in Ret (mkDataSegment a b, q))).
  - final reads_const_i32; [apply signed_range32|]. cbn. by rewrite wrap_signed.
  - rewrite Hl. next reads_u32; [apply len32_range|]. final reads_bytes; [|done].
    by rewrite len32_small.
Qed.

(** ** Function bodies *)

Lemma same_run_spec vt l :
  exists l1 l2, l = l1 ++ l2 /\ length l1 = same_run vt l /\ Forall (fun t => type_to_valtype t = vt) l1.
Proof.
  induction l as [|t l IH]; cbn; [by exists [], []|]. destruct (Z.eqb_spec (type_to_valtype t) vt).
  - destruct IH as (l1 & l2 & -> & Hl & Hf). exists (t :: l1), l2. cbn. repeat split; [by f_equal|by constructor].
  - by exists [], (t :: l).
Qed.

Lemma valtype_inj t u : type_to_valtype t = type_to_valtype u -> valtype t = valtype u.
Proof. by destruct t, u. Qed.

Lemma reads_locals t n :
  Z.of_nat n < 2 ^ 32 ->
  reads parse_locals (encode_u32 (wrap 32 (Z.of_nat n)) ++ [type_to_valtype t])
    (replicate n (valtype t)).
Proof.
  intros Hn. unfold parse_locals. next reads_u32; [apply wrap_range; lia|].
  final reads_valtype. rewrite wrap_small by (unfold in_range; lia). by rewrite Nat2Z.id.
Qed.

Lemma local_decls_spec n l :
  (length l <= n)%nat -> Z.of_nat (length l) < 2 ^ 32 ->
  exists xs, Forall2 (reads parse_locals)
      (map (fun d => encode_u32 (wrap 32 (Z.of_nat d.1)) ++ [d.2]) (local_decls n l)) xs
    /\ concat xs = map valtype l /\ (length (local_decls n l) <= length l)%nat.
Proof.
  revert l. induction n as [|n IH]; intros [|t l] Hl Hs; cbn in Hl; try lia; try (by exists []).
  cbn [local_decls map]. destruct (same_run_spec (type_to_valtype t) l) as (l1 & l2 & -> & Hn & Hf).
  rewrite <- Hn, drop_app_length. cbn [length] in Hs. rewrite length_app in *.
  destruct (IH l2) as (xs & Hx & Hc & Hd); [lia..|].
  exists (replicate (S (length l1)) (valtype t) :: xs). repeat split.
  - constructor; [|done]. cbn [fst snd]. apply reads_locals. lia.
  - cbn [concat]. rewrite Hc. cbn [replicate app map]. f_equal. rewrite map_app. f_equal.
    clear -Hf. induction Hf as [|u l1 Hu _ IH]; cbn; [done|]. rewrite IH. by rewrite (valtype_inj _ _ Hu).
  - cbn [length]. rewrite length_app. lia.
Qed.

Lemma reads_encode_locals l :
  Z.of_nat (length l) < 2 ^ 32 ->
  exists xs, reads (read_counted parse_locals) (encode_locals l) xs /\ concat xs = map valtype l.
Proof.
  intros Hl. destruct (local_decls_spec (length l) l) as (xs & Hx & Hc & Hd); [lia..|].
  exists xs. split; [|done]. unfold encode_locals. rewrite bind_concat.
  assert (length xs = length (local_decls (length l) l)) as Hlen
    by (apply Forall2_length in Hx; by rewrite length_map in Hx).
  rewrite len32_small by lia. apply reads_counted; [done|lia..].
Qed.

(** The size of a body tells the VM where its code ends. *)
Lemma reads_body extra code :
  let body := encode_locals extra ++ code in
  Z.of_nat (length extra) < 2 ^ 32 -> blen body < 2 ^ 32 ->
  reads parse_body (encode_u32 (len32 body) ++ body) (map valtype extra, code).
Proof.
  intros body Hl Hb pre post Hs. destruct (reads_encode_locals extra Hl) as (xs & Hx & Hc).
  unfold parse_body. rewrite <- app_assoc in *.
  rewrite (reads_u32 (len32 body)) by (done || apply len32_range). cbn [ebind].
  unfold reads in Hx. set (u := encode_u32 (len32 body)) in *.
  assert (Hlen : len32 body = blen body) by (by apply len32_small).
  specialize (Hx (pre ++ u) (code ++ post)).
  assert (Hd : (pre ++ u) ++ encode_locals extra ++ code ++ post = pre ++ u ++ body ++ post)
    by (unfold body; by rewrite <- !app_assoc).
  rewrite Hd, (blen_app pre u) in Hx. rewrite Hx by done. cbn [ebind].
  rewrite !blen_app in Hs. pose proof (blen_nonneg pre). pose proof (blen_nonneg u).
  pose proof (blen_nonneg post). pose proof (blen_nonneg code). pose proof (blen_nonneg (encode_locals extra)).
  assert (Hbl : blen body = blen (encode_locals extra) + blen code) by apply blen_app.
  rewrite Hlen, wadd_small by (unfold in_range; lia). rewrite wsub_small by (unfold in_range; lia).
  assert (Hr := read_bytes_at code ((pre ++ u) ++ encode_locals extra) post
    (blen pre + blen u + blen body - (blen pre + blen u + blen (encode_locals extra))) ltac:(lia)).
  rewrite <- (app_assoc (pre ++ u)), Hd, !blen_app in Hr. rewrite Hr by (rewrite ?blen_app in *; lia).
  cbn [ebind]. rewrite Hc. do 2 f_equal. rewrite blen_app. lia.
Qed.

(** ** Sections *)

Definition parses_section (id : Z) (a : sections) (body : bytes) (a' : sections) : Prop :=
  forall pre post, blen (pre ++ body ++ post) < 2 ^ 63 ->
  parse_section id a (pre ++ body ++ post) (blen pre) = Ret a'.

(** The parser goes through a list of sections. *)
Inductive runs : sections -> list (Z * bytes) -> sections -> Prop :=
| runs_nil a : runs a [] a
| runs_cons a a' a'' id body l :
    blen body < 2 ^ 32 -> parses_section id a body a' -> runs a' l a'' ->
    runs a ((id, body) :: l) a''.

Lemma runs_app a l a' l' a'' : runs a l a' -> runs a' l' a'' -> runs a (l ++ l') a''.
Proof. induction 1; [done|]. intros. cbn. econstructor; eauto. Qed.

Definition emit_all (l : list (Z * bytes)) : bytes := concat (map (fun s => emit_section s.1 s.2) l).

Lemma emit_all_app l l' : emit_all (l ++ l') = emit_all l ++ emit_all l'.
Proof. unfold emit_all. by rewrite map_app, concat_app. Qed.

Lemma parse_runs a l a' : runs a l a' -> forall n pre,
  (length l <= n)%nat -> blen (pre ++ emit_all l) < 2 ^ 63 ->
  parse_sections n a (pre ++ emit_all l) (blen pre) = Ret a'.
Proof.
  induction 1 as [a|a a1 a2 id body l Hb Hp _ IH]; intros n pre Hn Hs.
  - cbn. rewrite app_nil_r. assert (remaining pre (blen pre) = 0) as E
      by (unfold remaining, saturating_sub; lia).
    destruct n; cbn [parse_sections]; by rewrite E.
  - destruct n as [|n]; cbn in Hn; [lia|]. cbn [emit_all map concat] in *. fold (emit_all l) in *.
    unfold emit_section in *. cbn [fst snd app] in *. set (u := encode_u32 (len32 body)) in *.
    pose proof (blen_nonneg pre). pose proof (blen_nonneg u). pose proof (blen_nonneg body).
    pose proof (blen_nonneg (emit_all l)).
    assert (Hl := Hs). rewrite !blen_app, blen_cons, !blen_app in Hl.
    cbn [parse_sections].
    assert (remaining (pre ++ id :: (u ++ body) ++ emit_all l) (blen pre) =? 0 = false) as ->.
    { apply Z.eqb_neq. unfold remaining, saturating_sub. rewrite blen_app, blen_cons, !blen_app. lia. }
    rewrite read_byte_at. cbn [ebind].
    assert (Hu := reads_u32 (len32 body) (len32_range body) (pre ++ [id]) (body ++ emit_all l)).
    fold u in Hu. rewrite (blen_app pre [id]) in Hu. change (blen [id]) with 1 in Hu.
    assert (Hd : (pre ++ [id]) ++ u ++ body ++ emit_all l = pre ++ id :: (u ++ body) ++ emit_all l)
      by (by rewrite <- !app_assoc).
    rewrite Hd in Hu. rewrite Hu by done. cbn [ebind].
    assert (Hq := Hp ((pre ++ [id]) ++ u) (emit_all l)).
    rewrite (blen_app (pre ++ [id]) u), (blen_app pre [id]), <- (app_assoc (pre ++ [id])), Hd in Hq.
    change (blen [id]) with 1 in Hq. rewrite Hq by done. cbn [ebind].
    rewrite len32_small by done. change (Z.of_nat (length body)) with (blen body).
    rewrite wadd_small by (unfold in_range; lia).
    specialize (IH n (((pre ++ [id]) ++ u) ++ body)).
    rewrite !(blen_app _ body), !(blen_app _ u), (blen_app pre [id]), <- !(app_assoc _ body),
      <- (app_assoc _ u), Hd in IH. change (blen [id]) with 1 in IH. apply IH; [lia|done].
Qed.

Lemma parse_module_runs l a :
  runs no_sections l a -> blen (WASM_MAGIC ++ WASM_VERSION ++ emit_all l) < 2 ^ 63 ->
  parse_module (WASM_MAGIC ++ WASM_VERSION ++ emit_all l) = Ret (build_module a).
Proof.
  intros Hr Hs. unfold parse_module.
  pose proof (read_bytes_at WASM_MAGIC [] _ 4 eq_refl Hs) as H1. cbn [app] in H1.
  change (blen []) with 0 in H1. rewrite H1. cbn [ebind]. rewrite decide_False by (intros Hne; by apply Hne).
  pose proof (read_bytes_at WASM_VERSION WASM_MAGIC _ 4 eq_refl Hs) as H2.
  change (0 + blen WASM_MAGIC) with (blen WASM_MAGIC). rewrite H2. cbn [ebind].
  rewrite decide_False by (intros Hne; by apply Hne).
  assert (Hp := parse_runs _ _ _ Hr (length (WASM_MAGIC ++ WASM_VERSION ++ emit_all l))
    (WASM_MAGIC ++ WASM_VERSION)).
  rewrite <- app_assoc in Hp. change (blen (WASM_MAGIC ++ WASM_VERSION)) with (blen WASM_MAGIC + blen WASM_VERSION) in Hp.
  rewrite Hp; [done| |done]. rewrite !length_app. clear. induction l as [|[id b] l IH]; [cbn; lia|].
  change (emit_all ((id, b) :: l)) with (emit_section id b ++ emit_all l). rewrite length_app. cbn in *. lia.
Qed.

Lemma emit_all_size id body l : (id, body) ∈ l -> blen body <= blen (emit_all l).
Proof.
  intros Hin. apply list_elem_of_split in Hin as (l1 & l2 & ->). rewrite emit_all_app.
  change (emit_all ((id, body) :: l2)) with ((id :: encode_u32 (len32 body) ++ body) ++ emit_all l2).
  rewrite !blen_app, blen_cons, blen_app.
  pose proof (blen_nonneg (emit_all l1)). pose proof (blen_nonneg (emit_all l2)).
  pose proof (blen_nonneg (encode_u32 (len32 body))). lia.
Qed.

(** A section that is a counted vector. *)
Lemma section_of {A} (item : bytes -> Z -> exc (A * Z)) id body (xs : list A) a (f : list A -> sections) :
  reads (read_counted item) body xs ->
  (forall d p, parse_section id a d p = ebind (read_counted item d p) (fun '(l, _) => Ret (f l))) ->
  parses_section id a body (f xs).
Proof. intros Hr Hf pre post Hs. rewrite Hf, Hr by done. done. Qed.

Lemma counted_section {A} (item : bytes -> Z -> exc (A * Z)) encs (xs : list A) n :
  Forall2 (reads item) encs xs -> Forall (fun e => e <> []) encs -> n = len32 encs ->
  blen (encode_u32 n ++ concat encs) < 2 ^ 32 ->
  reads (read_counted item) (encode_u32 n ++ concat encs) xs.
Proof.
  intros Hx He -> Hs. rewrite blen_app in Hs. pose proof (length_concat encs He).
  pose proof (blen_nonneg (encode_u32 (len32 encs))). apply Forall2_length in Hx as Hl.
  assert (Z.of_nat (length encs) < 2 ^ 32) by lia.
  rewrite len32_small by done. apply reads_counted; [done|lia..].
Qed.

End Load.
