(* ===== verification/GsLoad.v ===== *)
(** * gratiascript to gratia-vm: the theorem

    What the generator's tables hold when the sections are written, and that the VM's
    parser accepts the whole module. *)

From stdpp Require Import base gmap strings list pretty.
From Stdlib Require Import ZArith Lia.
From S2P Require Import Prelude CoreTypes Ieee WasmModule GsSyntax GsTypes GsCodegen GsScope GsModule.
Import Gs.
Local Open Scope Z_scope.

Module LoadTheorem.
Import Wasm CodeGen Encoding Load.

(** ** The string table *)

Definition strings_ok (g : CodeGen) : Prop :=
  Forall (fun d => sd_len d.2 = len32 (as_bytes d.1)) (string_data g).

(** [m] keeps the string table well formed and the environment as it is. *)
Definition keeps {A} (m : M A) : Prop := forall g,
  (strings_ok g -> strings_ok (m g).1) /\ Scope.env (m g).1 = Scope.env g.

Lemma keeps_ret {A} (a : A) : keeps (mret a).
Proof. by intros g. Qed.
Lemma keeps_gets {A} (f : CodeGen -> A) : keeps (gets f).
Proof. by intros g. Qed.
Lemma keeps_lift {A} (r : result CompileError A) : keeps (lift r).
Proof. by intros g. Qed.

Lemma keeps_bind {A B} (m : M A) (k : A -> M B) : keeps m -> (forall a, keeps (k a)) -> keeps (mbind m k).
Proof.
  intros Hm Hk g. unfold mbind. specialize (Hm g). destruct (m g) as [g1 [a|e]]; [|done].
  destruct (Hk a g1) as [H1 H2]. cbn in Hm. destruct Hm as [H3 H4]. split; [by auto|congruence].
Qed.

Lemma keeps_alloc s : keeps (alloc s).
Proof.
  intros g. unfold alloc, allocate_string. destruct (find_string _ _); [done|]. cbn.
  split; [|done]. intros Hg. apply Forall_app. by split; [|constructor].
Qed.

Lemma keeps_each {A} (f : A -> M bytes) l : Forall (fun x => keeps (f x)) l -> keeps (emit_each f l).
Proof.
  induction 1 as [|x l Hx _ IH]; [apply keeps_ret|]. cbn. apply keeps_bind; [done|]. intros c.
  apply keeps_bind; [done|]. intros. apply keeps_ret.
Qed.

Create HintDb keeps.
#[local] Hint Resolve keeps_ret keeps_gets keeps_lift keeps_alloc keeps_each : keeps.

(** Walk through the steps of a computation. *)
Ltac keep :=
  repeat match goal with
  | |- keeps (mbind _ _) => apply keeps_bind; [|intros ?]
  | |- keeps (match ?x with _ => _ end) => destruct x
  | |- keeps (let '(_, _) := ?x in _) => destruct x
  end; eauto with keeps.

Lemma keeps_import n e : keeps (call_import n e).
Proof. unfold call_import. keep. Qed.
Lemma keeps_pair e : keeps (string_pair e).
Proof. unfold string_pair. keep. Qed.
Lemma keeps_variable locals n : keeps (get_variable locals n).
Proof. unfold get_variable. keep. Qed.
#[local] Hint Resolve keeps_import keeps_pair keeps_variable : keeps.

Lemma keeps_expr locals e : keeps (compile_expr locals e).
Proof. induction e using Expr_nested; cbn [compile_expr]; unfold compile_builtin; keep. Qed.
#[local] Hint Resolve keeps_expr : keeps.

Lemma keeps_string_arg locals e : keeps (compile_string_arg locals e).
Proof. unfold compile_string_arg. keep. Qed.
#[local] Hint Resolve keeps_string_arg : keeps.

Lemma keeps_stmt locals x : keeps (compile_stmt locals x).
Proof. induction x using Stmt_nested; cbn [compile_stmt]; unfold compile_host_pair; keep. Qed.

Lemma keeps_function f : keeps (compile_function f).
Proof.
  unfold compile_function. destruct (function_frame f). keep. apply keeps_each, Forall_forall.
  intros x _. apply keeps_stmt.
Qed.

(** ** The code section *)

Definition body_of (fields : list (string * GsType)) (f : Function) (b : bytes) : Prop :=
  exists code, body_code fields f code
    /\ b = encode_locals (function_frame f).2 ++ code ++ [OP_END].

Definition sized (b : bytes) : bytes := encode_u32 (len32 b) ++ b.

Definition code_entry (f : Function) : M bytes :=
  mbind (compile_function f) (fun b => mret (encode_u32 (len32 b) ++ b)).

Lemma keeps_code l : keeps (emit_each code_entry l).
Proof.
  apply keeps_each, Forall_forall. intros f _. unfold code_entry.
  apply keeps_bind; [apply keeps_function|]. intros b. apply keeps_ret.
Qed.

Lemma code_entry_ok f g g' c :
  import_count g = 12 -> code_entry f g = (g', Ok c) ->
  exists b, c = sized b /\ body_of (globals g) f b.
Proof.
  intros Hi. unfold code_entry, mbind. destruct (compile_function f g) as [g1 [b|e]] eqn:Ef; [|done].
  unfold mret at 1. intros [= <- <-]. exists b. split; [done|].
  unfold compile_function in Ef. unfold body_of, body_code. destruct (function_frame f) as [locals extra].
  unfold mbind in Ef. destruct (emit_each _ _ g) as [g3 [code|e]] eqn:Eb; [|done].
  unfold mret in Ef. injection Ef as <- <-. exists code. split; [|done]. by exists g, g3.
Qed.

Lemma keeps_entry f : keeps (code_entry f).
Proof. unfold code_entry. apply keeps_bind; [apply keeps_function|]. intros b. apply keeps_ret. Qed.

Lemma bodies_of l : forall g g' c,
  import_count g = 12 -> emit_each code_entry l g = (g', Ok c) ->
  exists bs, c = concat (map sized bs) /\ Forall2 (body_of (globals g)) l bs.
Proof.
  induction l as [|f l IH]; intros g g' c Hi Hc; cbn [emit_each] in Hc.
  { unfold mret in Hc. simplify_eq. by exists []. }
  unfold mbind in Hc. destruct (keeps_entry f g) as [_ He].
  destruct (code_entry f g) as [g1 [c1|e]] eqn:Ef; [|done]. unfold Scope.env in He. cbn in He.
  destruct (emit_each _ l g1) as [g2 [c'|e]] eqn:El; [|done].
  injection Hc as <- <-. injection He as _ Hi1 Hg1. apply code_entry_ok in Ef as (b & -> & Hb); [|done].
  destruct (IH g1 g2 c' ltac:(congruence) El) as (bs & -> & Hbs). rewrite Hg1 in Hbs.
  exists (b :: bs). split; [done|]. by constructor.
Qed.

(** ** The type section *)

Definition sigs_ok (g : CodeGen) : Prop := Forall (fun b => exists ps rs, b = sig ps rs) (types g).

Lemma position_spec {A} (p : A -> bool) l i :
  position p l = Some i -> exists x, l !! i = Some x /\ p x = true.
Proof.
  revert i. induction l as [|x l IH]; intros i; cbn; [done|]. destruct (p x) eqn:E; [intros [= <-]; by exists x|].
  destruct (position p l) as [j|]; [|done]. intros [= <-]. by apply IH.
Qed.

Lemma register_type_spec ps rs g :
  sigs_ok g -> Z.of_nat (length (types (register_type ps rs g).1)) < 2 ^ 32 ->
  let r := register_type ps rs g in
  sigs_ok r.1 /\ types g `prefix_of` types r.1 /\ in_range 32 r.2
  /\ types r.1 !! Z.to_nat r.2 = Some (sig ps rs)
  /\ Scope.env r.1 = Scope.env g /\ string_data r.1 = string_data g.
Proof.
  intros Hg. unfold register_type. fold (sig ps rs).
  destruct (position _ _) as [i|] eqn:E; cbn; intros Hl.
  - apply position_spec in E as (b & Hi & Hb). apply bool_decide_eq_true in Hb as ->.
    apply lookup_lt_Some in Hi as Hlt. rewrite wrap_small by (unfold in_range; lia).
    rewrite Nat2Z.id. repeat split; try done; unfold in_range; lia.
  - rewrite length_app in Hl. cbn in Hl. rewrite len32_small by lia. rewrite Nat2Z.id.
    repeat split; try done; try (unfold in_range; lia).
    + apply Forall_app. split; [done|]. constructor; eauto.
    + by apply prefix_app_r.
    + by apply list_lookup_middle.
Qed.

Definition func_sig (f : Function) : bytes :=
  sig (map par_ty (fun_params f)) (results_of (fun_return_type f)).

Lemma prefix_length {A} (l l' : list A) : l `prefix_of` l' -> (length l <= length l')%nat.
Proof. intros [k ->]. rewrite length_app. lia. Qed.

Lemma register_functions_prefix l g : types g `prefix_of` types (register_functions l g).1.
Proof.
  revert g. induction l as [|f l IH]; intros g; cbn; [done|].
  unfold register_func_type, register_type. destruct (position _ _); cbn.
  - specialize (IH g). by destruct (register_functions l g).
  - match goal with |- context [register_functions l ?g'] => specialize (IH g') end.
    destruct (register_functions l _). cbn in *. etrans; [|exact IH]. by apply prefix_app_r.
Qed.

Lemma register_functions_spec l : forall g,
  sigs_ok g -> Z.of_nat (length (types (register_functions l g).1)) < 2 ^ 32 ->
  let r := register_functions l g in
  sigs_ok r.1 /\ string_data r.1 = string_data g
  /\ Forall2 (fun f i => in_range 32 i /\ types r.1 !! Z.to_nat i = Some (func_sig f)) l r.2.
Proof.
  induction l as [|f l IH]; intros g Hg Hl; cbn in *; [done|].
  unfold register_func_type in *. fold (results_of (fun_return_type f)) in *.
  destruct (register_type _ _ g) as [g1 i] eqn:E1.
  pose proof (register_functions_prefix l g1) as Hp.
  destruct (register_functions l g1) as [g2 ids] eqn:E2. cbn in *.
  pose proof (register_type_spec (map par_ty (fun_params f)) (results_of (fun_return_type f)) g Hg) as Hr.
  rewrite E1 in Hr. cbn in Hr. apply prefix_length in Hp as Hpl.
  destruct Hr as (Hg1 & _ & Hi & Hsig & _ & Hsd); [lia|].
  specialize (IH g1 Hg1). rewrite E2 in IH. cbn in IH. destruct (IH Hl) as (Hg2 & Hsd2 & Hf).
  split; [done|]. split; [congruence|]. constructor; [|done]. split; [done|].
  by eapply prefix_lookup_Some.
Qed.

(** ** The host imports *)

Definition host_sigs : list bytes :=
  [sig [] [TyF32]; sig [] [TyI32]; sig [TyI32] [TyF64]; sig [] [TyI64];
   sig [TyI32; TyI32] [TyI32]; sig [TyI32; TyI32; TyI32; TyI32] []].

Definition host_imports : list ImportedFunc :=
  zip_with (fun n '(t, i) => mkImportedFunc n t i) Scope.host_names
    [(0, 0); (0, 1); (1, 2); (1, 3); (2, 4); (3, 5); (3, 6); (1, 7); (3, 8); (4, 9); (5, 10); (5, 11)].

Lemma host_imports_state gl :
  register_host_imports (set_globals gl new) = mkCodeGen host_sigs host_imports 12 gl [] 2048.
Proof. reflexivity. Qed.

Lemma imports_read :
  Forall2 (reads parse_import)
    (map (fun i => encode_str "env" ++ encode_str (if_name i) ++ 0x00 :: encode_u32 (if_type_idx i))
       host_imports)
    (map (fun i => mkImport "env" (if_name i) (if_type_idx i)) host_imports).
Proof.
  apply Forall2_fmap_2, Forall_Forall2_diag. apply Forall_forall. intros i Hi.
  assert (Forall (fun i => text (if_name i) /\ blen (as_bytes (if_name i)) < 2 ^ 32
    /\ in_range 32 (if_type_idx i)) host_imports) as Hall by decide_now.
  rewrite Forall_forall in Hall. destruct (Hall i Hi) as (H1 & H2 & H3). by apply reads_import.
Qed.

(** ** The module as a list of sections *)

Definition optional {A} (id : Z) (l : list A) (body : bytes) : list (Z * bytes) :=
  match l with [] => [] | _ => [(id, body)] end.

Definition export_entry (i : nat) (f : Function) : bytes :=
  encode_str (fun_name f) ++ 0x00 :: encode_u32 (wadd 32 12 (wrap 32 (Z.of_nat i))).

Definition type_body (ts : list bytes) : bytes := encode_u32 (len32 ts) ++ concat ts.
Definition import_body : bytes :=
  encode_u32 (len32 host_imports) ++ concat (map (fun i => encode_str "env" ++ encode_str (if_name i)
    ++ 0x00 :: encode_u32 (if_type_idx i)) host_imports).
Definition function_body (ids : list Z) : bytes := encode_u32 (len32 ids) ++ concat (map encode_u32 ids).
Definition memory_body : bytes := encode_u32 1 ++ concat [0x00 :: encode_u32 1].
Definition global_entry (f : Field) : bytes :=
  type_to_valtype (fld_ty f) :: 0x01 :: emit_initial (fld_initializer f) (fld_ty f) ++ [OP_END].
Definition global_body (c : Contract) : bytes :=
  encode_u32 (len32 (con_fields c)) ++ concat (map global_entry (con_fields c)).
Definition export_body (c : Contract) : bytes :=
  encode_u32 (wrap 32 (Z.of_nat (length (con_functions c)) + 1))
    ++ concat ((encode_str "memory" ++ 0x02 :: encode_u32 0) :: imap export_entry (con_functions c)).
Definition code_body (c : Contract) (bs : list bytes) : bytes :=
  encode_u32 (len32 (con_functions c)) ++ concat (map sized bs).
Definition data_body (ds : list (string * StringData)) : bytes :=
  encode_u32 (len32 ds) ++ concat (map emit_data ds).

Definition module_sections (c : Contract) (ts : list bytes) (ids : list Z) (bs : list bytes)
    (ds : list (string * StringData)) : list (Z * bytes) :=
  [(SECTION_TYPE, type_body ts); (SECTION_IMPORT, import_body); (SECTION_FUNCTION, function_body ids);
   (SECTION_MEMORY, memory_body)]
  ++ optional SECTION_GLOBAL (con_fields c) (global_body c)
  ++ [(SECTION_EXPORT, export_body c); (SECTION_CODE, code_body c bs)]
  ++ optional SECTION_DATA ds (data_body ds).

Lemma global_section_eq s c :
  globals s = map (fun f => (fld_name f, fld_ty f)) (con_fields c) ->
  emit_global_section s c = emit_all (optional SECTION_GLOBAL (con_fields c) (global_body c)).
Proof.
  intros Hg. unfold emit_global_section. rewrite Hg. unfold global_body.
  assert (Heq : imap (emit_global (con_fields c)) (map (fun f => (fld_name f, fld_ty f)) (con_fields c))
    = map global_entry (con_fields c)).
  { apply list_eq. intros i. rewrite list_lookup_imap, !list_lookup_fmap.
    destruct (con_fields c !! i) as [f|] eqn:E; [|done]. cbn. f_equal. unfold global_entry, emit_global.
    cbn [snd]. by rewrite E. }
  destruct (con_fields c) as [|f l]; [done|]. cbn [map]. cbn [map] in Heq. rewrite Heq.
  unfold optional, emit_all. cbn [map concat fst snd]. rewrite app_nil_r. unfold len32. cbn [length].
  by rewrite length_map.
Qed.

Lemma data_section_eq g :
  emit_data_section g = emit_all (optional SECTION_DATA (string_data g) (data_body (string_data g))).
Proof.
  unfold emit_data_section, data_body. destruct (string_data g) as [|d l]; [done|].
  unfold optional, emit_all. cbn [map concat fst snd]. by rewrite app_nil_r, bind_concat.
Qed.

Lemma ok_inj {E A S} (s s' : S) (a a' : A) :
  (s, @Ok E A a) = (s', Ok a') -> s = s' /\ a = a'.
Proof. by intros [= -> ->]. Qed.

Lemma compile_sections c g wasm :
  CodeGen.compile c new = (g, Ok wasm) ->
  exists s ids bs,
    register_functions (con_functions c) (mkCodeGen host_sigs host_imports 12
      (map (fun f => (fld_name f, fld_ty f)) (con_fields c)) [] 2048) = (s, ids)
    /\ wasm = WASM_MAGIC ++ WASM_VERSION
         ++ emit_all (module_sections c (types s) ids bs (string_data g))
    /\ Forall2 (body_of (field_types c)) (con_functions c) bs /\ (strings_ok s -> strings_ok g).
Proof.
  unfold CodeGen.compile. cbn [globals new app]. rewrite host_imports_state.
  set (g0 := mkCodeGen _ _ _ _ _ _). pose proof (Scope.register_functions_env (con_functions c) g0) as He.
  destruct (register_functions (con_functions c) g0) as [s ids]. cbn [fst] in He.
  unfold Scope.env in He. injection He as Hi Hc Hg. intros Hrun.
  unfold emit_code_section in Hrun. unfold mbind at 1 2 in Hrun.
  destruct (emit_each _ (con_functions c) s) as [g1 [code|e]] eqn:Ec; [|discriminate Hrun].
  cbv beta iota delta [mret mbind gets] in Hrun. apply ok_inj in Hrun as [<- <-].
  destruct (bodies_of _ _ _ _ Hc Ec) as (bs & -> & Hbs). rewrite Hg in Hbs. exists s, ids, bs. split; [done|]. split; [|split; [done|]].
  - rewrite !app_assoc_reverse. do 2 f_equal. unfold module_sections.
    rewrite !emit_all_app, data_section_eq, (global_section_eq s c Hg).
    unfold emit_all at 3 5. cbn [map concat fst snd].
    unfold emit_type_section, emit_import_section, emit_function_section, emit_memory_section,
      emit_export_section. rewrite Hi, Hc, !bind_concat, !app_nil_r, !app_assoc_reverse.
    unfold export_body, memory_body. cbn [concat]. rewrite !app_nil_r, !app_assoc_reverse. reflexivity.
  - destruct (keeps_code (con_functions c) s) as [Hk _]. unfold code_entry in Hk. by rewrite Ec in Hk.
Qed.

(** ** Sizes *)

Lemma entry_size (e : bytes) l : e ∈ l -> blen e <= blen (concat l).
Proof.
  intros Hin. apply list_elem_of_split in Hin as (l1 & l2 & ->). rewrite concat_app. cbn.
  rewrite !blen_app. pose proof (blen_nonneg (concat l1)). pose proof (blen_nonneg (concat l2)). lia.
Qed.

Lemma counted_entry n (l : list bytes) e : e ∈ l -> blen e <= blen (encode_u32 n ++ concat l).
Proof.
  intros He. rewrite blen_app. pose proof (entry_size e l He). pose proof (blen_nonneg (encode_u32 n)). lia.
Qed.

Lemma encode_u32_nonempty n : encode_u32 n <> [].
Proof. unfold encode_u32. cbn. by destruct (_ =? 0). Qed.

Lemma sized_size b : 1 + blen b <= blen (sized b).
Proof.
  unfold sized. rewrite blen_app. pose proof (encode_u32_nonempty (len32 b)).
  destruct (encode_u32 (len32 b)) as [|x l]; [done|]. rewrite blen_cons. pose proof (blen_nonneg l). lia.
Qed.

Lemma sig_size ps rs : Z.of_nat (length ps) + Z.of_nat (length rs) <= blen (sig ps rs).
Proof.
  unfold sig, encode_vec_types. rewrite blen_cons, !blen_app. unfold blen. rewrite !length_map. lia.
Qed.

Lemma str_size s : blen (as_bytes s) <= blen (encode_str s).
Proof. unfold encode_str. rewrite blen_app. pose proof (blen_nonneg (encode_u32 (len32 (as_bytes s)))). lia. Qed.

Lemma bodies_count fl fs bs : Forall2 (body_of fl) fs bs -> 2 * Z.of_nat (length fs) <= blen (concat (map sized bs)).
Proof.
  induction 1 as [|f b fs bs Hb _ IH]; cbn; [done|]. rewrite blen_app. pose proof (sized_size b).
  destruct Hb as (code & _ & ->). rewrite !blen_app in *.
  pose proof (blen_nonneg (encode_locals (function_frame f).2)). pose proof (blen_nonneg code).
  change (blen [OP_END]) with 1 in *. lia.
Qed.

(** ** Entries of the sections *)

Lemma reads_det {A} (item : bytes -> Z -> exc (A * Z)) e x y :
  blen e < 2 ^ 63 -> reads item e x -> reads item e y -> x = y.
Proof.
  intros He Hx Hy. specialize (Hx [] []). specialize (Hy [] []). cbn in Hx, Hy. rewrite app_nil_r in *.
  rewrite Hx in Hy by done. specialize (Hy He). congruence.
Qed.

Lemma reads_func_sig f : blen (func_sig f) < 2 ^ 32 -> reads parse_type (func_sig f) (signature f).
Proof.
  intros Hs. unfold func_sig in *. pose proof (sig_size (map par_ty (fun_params f)) (results_of (fun_return_type f))).
  apply reads_sig; lia.
Qed.

Lemma types_read ts :
  Forall (fun b => exists ps rs, b = sig ps rs) ts -> blen (concat ts) < 2 ^ 32 ->
  exists fts, Forall2 (reads parse_type) ts fts.
Proof.
  induction 1 as [|b ts (ps & rs & ->) _ IH]; intros Hs; cbn [concat] in Hs; [by exists []|].
  rewrite blen_app in Hs. pose proof (blen_nonneg (sig ps rs)). pose proof (blen_nonneg (concat ts)).
  destruct IH as [fts Hf]; [lia|]. exists (functype ps rs :: fts). constructor; [|done].
  pose proof (sig_size ps rs). apply reads_sig; lia.
Qed.

(** A body as the VM reads it. *)
Definition loaded_body (fl : list (string * GsType)) (f : Function) (l : list ValType * bytes) : Prop :=
  l.1 = map valtype (function_frame f).2 /\ blen l.2 < 2 ^ 32
  /\ exists code, body_code fl f code /\ l.2 = code ++ [OP_END].

Lemma bodies_read fl fs bs :
  Forall2 (body_of fl) fs bs -> Forall (fun f => Z.of_nat (length (function_frame f).2) < 2 ^ 32) fs ->
  blen (concat (map sized bs)) < 2 ^ 32 ->
  exists ls, Forall2 (reads parse_body) (map sized bs) ls
    /\ Forall2 (loaded_body fl) fs ls.
Proof.
  induction 1 as [|f b fs bs Hb _ IH]; intros Hf Hs; [by exists []|].
  apply Forall_cons in Hf as [Hf1 Hf]. cbn [map concat] in Hs. rewrite blen_app in Hs.
  pose proof (blen_nonneg (sized b)). pose proof (blen_nonneg (concat (map sized bs))).
  pose proof (sized_size b). destruct (IH Hf) as (ls & Hr & Hi); [lia|].
  destruct Hb as (code & Hc & ->).
  exists ((map valtype (function_frame f).2, code ++ [OP_END]) :: ls). split; constructor; try done.
  - apply reads_body; [done|lia].
  - split; [done|]. split; [|by exists code]. rewrite !blen_app in *. cbn [snd]. rewrite blen_app.
    pose proof (blen_nonneg (encode_locals (function_frame f).2)). lia.
Qed.

Lemma functions_implement c (fts : list FuncType) ts fs ids ls :
  Forall2 (reads parse_type) ts fts -> blen (concat ts) < 2 ^ 32 ->
  Forall2 (fun f i => in_range 32 i /\ ts !! Z.to_nat i = Some (func_sig f)) fs ids ->
  Forall2 (loaded_body (field_types c)) fs ls ->
  Forall2 (implements c fts) fs (zip_with (fun t (b : list ValType * bytes) => mkWasmFunction t b.1 b.2) ids ls).
Proof.
  intros Hts Hs Hids Hls. revert ls Hls. induction Hids as [|f i fs ids [Hi Hsig] _ IH]; intros ls Hls;
    inversion Hls as [|? l ? ls' [Hl Hc] Hls']; subst; cbn; constructor; [|by apply IH].
  destruct (Forall2_lookup_l _ _ _ _ _ Hts Hsig) as (ft & Hft & Hr).
  apply list_elem_of_lookup_2, entry_size in Hsig.
  split; [|done]. cbn. rewrite Hft. f_equal.
  eapply reads_det; [|exact Hr|apply reads_func_sig]; lia.
Qed.

Lemma exports_read c :
  Forall (fun f => text (fun_name f)) (con_functions c) -> blen (export_body c) < 2 ^ 32 ->
  Forall2 (reads parse_export)
    ((encode_str "memory" ++ 0x02 :: encode_u32 0) :: imap export_entry (con_functions c))
    (Some (mkWasmExport "memory" EMemory 0)
     :: imap (fun i f => Some (mkWasmExport (fun_name f) EFunction (wadd 32 12 (wrap 32 (Z.of_nat i)))))
          (con_functions c)).
Proof.
  intros Ht Hs. constructor; [apply reads_export; first [done|by right]|].
  apply Forall2_same_length_lookup. split; [by rewrite !length_imap|].
  intros i e x He Hx. rewrite list_lookup_imap in He. rewrite list_lookup_imap in Hx.
  destruct (con_functions c !! i) as [f|] eqn:E; [|done]. cbn in He, Hx. injection He as <-. injection Hx as <-.
  rewrite Forall_lookup in Ht. apply reads_export; [by eapply Ht| | |by left].
  - assert (export_entry i f ∈ (encode_str "memory" ++ 2 :: encode_u32 0) :: imap export_entry (con_functions c)) as Hin.
    { apply list_elem_of_further, list_elem_of_lookup. exists i. by rewrite list_lookup_imap, E. }
    apply (counted_entry (wrap 32 (Z.of_nat (length (con_functions c)) + 1))) in Hin.
    fold (export_body c) in Hin. pose proof (str_size (fun_name f)). unfold export_entry in Hin.
    rewrite blen_app in Hin. pose proof (blen_nonneg (0 :: encode_u32 (wadd 32 12 (wrap 32 (Z.of_nat i))))). lia.
  - apply wrap_range. lia.
Qed.

Lemma data_read ds :
  Forall (fun d : string * StringData => sd_len d.2 = len32 (as_bytes d.1)) ds -> blen (data_body ds) < 2 ^ 32 ->
  Forall2 (reads parse_data) (map emit_data ds) (map segment ds).
Proof.
  intros Hd Hs. apply Forall2_fmap_2, Forall_Forall2_diag, Forall_forall. intros d Hin.
  rewrite Forall_forall in Hd. apply reads_data; [by apply Hd|].
  assert (emit_data d ∈ map emit_data ds) as He by (by apply list_elem_of_fmap_2).
  apply (counted_entry (len32 ds)) in He. fold (data_body ds) in He.
  unfold emit_data in He. rewrite blen_app, blen_cons, blen_app, blen_cons, blen_app in He.
  pose proof (blen_nonneg (encode_u32 0)). pose proof (blen_nonneg (encode_u32 (sd_len d.2))).
  pose proof (blen_nonneg (encode_i32 (signed 32 (sd_offset d.2)))). lia.
Qed.

Lemma nonempty_entries {A} (f : A -> bytes) l : (forall x, f x <> []) -> Forall (fun e => e <> []) (map f l).
Proof. intros Hf. apply Forall_fmap, Forall_forall. intros x _. apply Hf. Qed.

Lemma app_nonempty {A} (a b : list A) : a <> [] -> a ++ b <> [].
Proof. by destruct a. Qed.

(** ** The whole module *)

(** What the VM gets from the sections of a contract. *)
Definition loaded_sections (c : Contract) (fts : list FuncType) (ids : list Z)
    (ls : list (list ValType * bytes)) (ds : list (string * StringData)) : sections :=
  mkSections fts (map (fun i => mkImport "env" (if_name i) (if_type_idx i)) host_imports) ids
    (map field_global (con_fields c))
    (mkWasmExport "memory" EMemory 0
     :: imap (fun i f => mkWasmExport (fun_name f) EFunction (wadd 32 12 (wrap 32 (Z.of_nat i))))
          (con_functions c))
    ls 1 (map segment ds).

Lemma omap_some {A} (l : list (option A)) l' : l = map Some l' -> omap (fun x => x) l = l'.
Proof. intros ->. induction l' as [|x l' IH]; cbn; [done|]. by rewrite IH. Qed.

Lemma imap_some {A B} (f : nat -> A -> B) l : imap (fun i x => Some (f i x)) l = map Some (imap f l).
Proof. apply list_eq. intros i. rewrite list_lookup_fmap, !list_lookup_imap. by destruct (l !! i). Qed.

Section assemble.
Context (c : Contract) (ts : list bytes) (fts : list FuncType) (ids : list Z) (bs : list bytes)
  (ls : list (list ValType * bytes)) (ds : list (string * StringData)).
Hypothesis Hsize : forall id body, (id, body) ∈ module_sections c ts ids bs ds -> blen body < 2 ^ 32.
Hypothesis Hc : contract_ok c.
Hypothesis Hts : Forall2 (reads parse_type) ts fts.
Hypothesis Hts_ne : Forall (fun b => b <> []) ts.
Hypothesis Hids : Forall (in_range 32) ids.
Hypothesis Hls : Forall2 (reads parse_body) (map sized bs) ls.
Hypothesis Hbs : length bs = length (con_functions c).
Hypothesis Hds : Forall (fun d : string * StringData => sd_len d.2 = len32 (as_bytes d.1)) ds.

Lemma globals_run a :
  s_globals a = [] ->
  runs a (optional SECTION_GLOBAL (con_fields c) (global_body c))
    (mkSections (s_types a) (s_imports a) (s_func_types a) (map field_global (con_fields c)) (s_exports a)
       (s_bodies a) (s_min_pages a) (s_data a)).
Proof using All.
  intros Ha. destruct (con_fields c) as [|f l] eqn:E; cbn [optional].
  { cbn. rewrite <- Ha. destruct a. constructor. }
  assert (Hs : blen (global_body c) < 2 ^ 32).
  { apply (Hsize SECTION_GLOBAL). unfold module_sections. rewrite E. cbn [optional]. set_solver. }
  econstructor; [done| |constructor].
  destruct a as [ty im ft gl ex bo mp da]. cbn in Ha |- *. subst gl.
  eapply (section_of parse_global SECTION_GLOBAL _ _ _ (fun l => mkSections ty im ft ([] ++ l) ex bo mp da));
    [|done].
  unfold global_body in *. rewrite E in *.
  apply counted_section; [| |by unfold len32; rewrite length_map|done].
  - change (field_global f :: map field_global l) with (map field_global (f :: l)).
    apply Forall2_fmap_2, Forall_Forall2_diag. destruct Hc as [Hf _]. rewrite E in Hf.
    eapply Forall_impl; [exact Hf|]. intros x Hx. by apply reads_global.
  - by apply nonempty_entries.
Qed.

Lemma data_run a :
  s_data a = [] ->
  runs a (optional SECTION_DATA ds (data_body ds))
    (mkSections (s_types a) (s_imports a) (s_func_types a) (s_globals a) (s_exports a)
       (s_bodies a) (s_min_pages a) (map segment ds)).
Proof using All.
  intros Ha. destruct ds as [|d l] eqn:E; cbn [optional].
  { cbn. rewrite <- Ha. destruct a. constructor. }
  assert (Hs : blen (data_body (d :: l)) < 2 ^ 32).
  { apply (Hsize SECTION_DATA). unfold module_sections. cbn [optional]. set_solver. }
  econstructor; [done| |constructor].
  destruct a as [ty im ft gl ex bo mp da]. cbn in Ha |- *. subst da.
  eapply (section_of parse_data SECTION_DATA _ _ _ (fun l => mkSections ty im ft gl ex bo mp ([] ++ l)));
    [|done].
  unfold data_body in *. apply counted_section; [by apply (data_read (d :: l))| |by unfold len32; rewrite length_map|done].
  apply nonempty_entries. intros x. unfold emit_data. apply app_nonempty, encode_u32_nonempty.
Qed.

Lemma head_runs :
  runs no_sections
    [(SECTION_TYPE, type_body ts); (SECTION_IMPORT, import_body); (SECTION_FUNCTION, function_body ids);
     (SECTION_MEMORY, memory_body)]
    (mkSections fts (map (fun i => mkImport "env" (if_name i) (if_type_idx i)) host_imports) ids [] [] [] 1 []).
Proof using All.
  assert (forall id body, (id, body) ∈ [(SECTION_TYPE, type_body ts); (SECTION_IMPORT, import_body);
    (SECTION_FUNCTION, function_body ids); (SECTION_MEMORY, memory_body)] -> blen body < 2 ^ 32) as Hs.
  { intros id body Hin. apply (Hsize id). unfold module_sections. apply elem_of_app. by left. }
  econstructor; [apply (Hs SECTION_TYPE); set_solver| |].
  { eapply (section_of parse_type SECTION_TYPE _ fts _ (fun l => mkSections ([] ++ l) [] [] [] [] [] 0 []));
      [|done]. apply counted_section; [done|done|done|]. apply (Hs SECTION_TYPE). set_solver. }
  econstructor; [apply (Hs SECTION_IMPORT); set_solver| |].
  { eapply (section_of parse_import SECTION_IMPORT _ _ _ (fun l => mkSections fts ([] ++ l) [] [] [] [] 0 []));
      [|done]. apply counted_section; [apply imports_read| |by unfold len32; rewrite length_map|].
    - apply nonempty_entries. intros i. unfold encode_str at 1.
      apply app_nonempty, app_nonempty, encode_u32_nonempty.
    - apply (Hs SECTION_IMPORT). set_solver. }
  econstructor; [apply (Hs SECTION_FUNCTION); set_solver| |].
  { eapply (section_of read_u32_leb128 SECTION_FUNCTION _ ids _ (fun l => mkSections fts _ ([] ++ l) [] [] [] 0 []));
      [|done]. apply counted_section; [| |by unfold len32; rewrite length_map|].
    - apply Forall2_fmap_l, Forall_Forall2_diag. eapply Forall_impl; [exact Hids|].
      intros i Hi. by apply reads_u32.
    - apply nonempty_entries. intros i. apply encode_u32_nonempty.
    - apply (Hs SECTION_FUNCTION). set_solver. }
  econstructor; [apply (Hs SECTION_MEMORY); set_solver| |constructor].
  eapply (section_of parse_memory SECTION_MEMORY _ [1] _ (fun l => mkSections fts _ ids [] [] [] (List.last l 0) []));
    [|done]. apply counted_section; [constructor; [apply reads_memory|constructor]|by constructor|done|done].
Qed.

Lemma tail_runs a :
  s_exports a = [] -> s_bodies a = [] ->
  runs a [(SECTION_EXPORT, export_body c); (SECTION_CODE, code_body c bs)]
    (mkSections (s_types a) (s_imports a) (s_func_types a) (s_globals a)
       (mkWasmExport "memory" EMemory 0
        :: imap (fun i f => mkWasmExport (fun_name f) EFunction (wadd 32 12 (wrap 32 (Z.of_nat i))))
             (con_functions c)) ls (s_min_pages a) (s_data a)).
Proof using All.
  intros He Hb. assert (Hse : blen (export_body c) < 2 ^ 32).
  { apply (Hsize SECTION_EXPORT). unfold module_sections. set_solver. }
  assert (Hsc : blen (code_body c bs) < 2 ^ 32).
  { apply (Hsize SECTION_CODE). unfold module_sections. set_solver. }
  destruct a as [ty im ft gl ex bo mp da]. cbn in He, Hb |- *. subst ex bo.
  econstructor; [done| |].
  - eapply (section_of parse_export SECTION_EXPORT _ _ _
      (fun l => mkSections ty im ft gl ([] ++ omap (fun x => x) l) [] mp da)); [|done].
    unfold export_body in *. apply counted_section; [apply exports_read; [|done]| | |done].
    + destruct Hc as [_ Hf]. eapply Forall_impl; [exact Hf|]. by intros f [? _].
    + constructor; [done|]. apply Forall_forall. intros e Hin.
      apply list_elem_of_lookup in Hin as [i Hi]. rewrite list_lookup_imap in Hi.
      destruct (con_functions c !! i) as [f|]; [|done]. injection Hi as <-.
      unfold export_entry, encode_str. apply app_nonempty, app_nonempty, encode_u32_nonempty.
    + unfold len32. cbn [length]. rewrite length_imap. f_equal. lia.
  - cbn [app]. erewrite (omap_some _ (_ :: imap _ _)); [|rewrite imap_some; reflexivity].
    econstructor; [done| |constructor].
    eapply (section_of parse_body SECTION_CODE _ ls _
      (fun l => mkSections ty im ft gl _ ([] ++ l) mp da)); [|done].
    unfold code_body in *. apply counted_section; [done| | |done].
    + apply nonempty_entries. intros b. unfold sized. apply app_nonempty, encode_u32_nonempty.
    + unfold len32. by rewrite length_map, Hbs.
Qed.

Lemma module_runs :
  runs no_sections (module_sections c ts ids bs ds) (loaded_sections c fts ids ls ds).
Proof using All.
  eapply runs_app; [apply head_runs|]. eapply runs_app; [by apply globals_run|].
  eapply runs_app; [by apply tail_runs|]. by apply data_run.
Qed.
End assemble.

Lemma register_functions_sigs l : forall g, sigs_ok g -> sigs_ok (register_functions l g).1.
Proof.
  induction l as [|f l IH]; intros g Hg; cbn; [done|].
  unfold register_func_type, register_type. destruct (position _ _); cbn.
  - specialize (IH g Hg). by destruct (register_functions l g).
  - match goal with |- context [register_functions l ?g'] => specialize (IH g') end.
    destruct (register_functions l _). cbn in *. apply IH. apply Forall_app. split; [done|].
    constructor; [|constructor]. by eexists _, _.
Qed.

Lemma host_sigs_ok gl : sigs_ok (mkCodeGen host_sigs host_imports 12 gl [] 2048).
Proof. repeat constructor; by eexists _, _. Qed.

Lemma exports_exact (l : list Function) :
  2 * Z.of_nat (length l) < 2 ^ 32 ->
  imap (fun i f => mkWasmExport (fun_name f) EFunction (wadd 32 12 (wrap 32 (Z.of_nat i)))) l
  = imap (fun i f => mkWasmExport (fun_name f) EFunction (12 + Z.of_nat i)) l.
Proof.
  intros Hl. apply list_eq. intros i. rewrite !list_lookup_imap.
  destruct (l !! i) as [f|] eqn:E; [|done]. apply lookup_lt_Some in E. cbn. do 2 f_equal.
  rewrite (wrap_small 32 (Z.of_nat i)) by (unfold in_range; lia). apply wadd_small. unfold in_range. lia.
Qed.

(** The module the VM gets from a contract, [g] being the generator's final state. *)
Definition loaded (c : Contract) (g : CodeGen) (m : WasmModule) : Prop :=
  map imp_name (Wasm.imports m) = Scope.host_names /\ import_func_count m = 12
  /\ Forall2 (implements c (Wasm.types m)) (con_functions c) (functions m)
  /\ Wasm.globals m = map field_global (con_fields c)
  /\ exports m = mkWasmExport "memory" EMemory 0
       :: imap (fun i f => mkWasmExport (fun_name f) EFunction (12 + Z.of_nat i)) (con_functions c)
  /\ memory_min_pages m = 1
  /\ data_segments m = map segment (string_data g).

Lemma loads (c : Contract) (g : CodeGen) (wasm : bytes) :
  contract_ok c -> CodeGen.compile c new = (g, Ok wasm) -> blen wasm < 2 ^ 32 ->
  exists m, parse_module wasm = Ret m /\ loaded c g m.
Proof.
  intros Hok Hcomp Hsize. destruct (compile_sections c g wasm Hcomp) as (s & ids & bs & Hreg & -> & Hbs & Hstr).
  set (g0 := mkCodeGen _ _ _ _ _ _) in Hreg. assert (Hg0 : sigs_ok g0) by apply host_sigs_ok.
  pose proof (register_functions_sigs (con_functions c) g0 Hg0) as Hs.
  pose proof (register_functions_spec (con_functions c) g0 Hg0) as Hspec. rewrite Hreg in Hs, Hspec. cbn [fst snd] in Hs, Hspec.
  assert (Hsec : forall id body, (id, body) ∈ module_sections c (types s) ids bs (string_data g) -> blen body < 2 ^ 32).
  { intros id body Hin. apply emit_all_size in Hin. rewrite !blen_app in Hsize.
    pose proof (blen_nonneg WASM_MAGIC). pose proof (blen_nonneg WASM_VERSION). lia. }
  assert (Hne : Forall (fun b => b <> []) (types s)) by (eapply Forall_impl; [exact Hs|]; by intros b (ps & rs & ->)).
  assert (Htb : blen (concat (types s)) < 2 ^ 32).
  { assert (blen (type_body (types s)) < 2 ^ 32) as Hb by (apply (Hsec SECTION_TYPE); unfold module_sections; set_solver).
    unfold type_body in Hb. rewrite blen_app in Hb. pose proof (blen_nonneg (encode_u32 (len32 (types s)))). lia. }
  pose proof (length_concat _ Hne) as Hlen. destruct Hspec as (_ & Hsd & Hids); [lia|].
  assert (Hcb : blen (concat (map sized bs)) < 2 ^ 32).
  { assert (blen (code_body c bs) < 2 ^ 32) as Hb by (apply (Hsec SECTION_CODE); unfold module_sections; set_solver).
    unfold code_body in Hb. rewrite blen_app in Hb. pose proof (blen_nonneg (encode_u32 (len32 (con_functions c)))). lia. }
  destruct (types_read _ Hs Htb) as [fts Hfts].
  destruct (bodies_read _ _ _ Hbs) as (ls & Hls & Himpl);
    [destruct Hok as [_ Hf]; eapply Forall_impl; [exact Hf|]; cbn; intros f [_ ?]; lia|done|].
  eexists. split.
  { apply parse_module_runs; [|lia]. apply module_runs; try done.
    - clear -Hids. induction Hids as [|f i fs ids [Hi _] _ IH]; by constructor.
    - apply Forall2_length in Hbs. done.
    - apply Hstr. unfold strings_ok. rewrite Hsd. constructor. }
  unfold loaded. cbn. repeat split; try done.
  - by eapply functions_implement.
  - f_equal. apply exports_exact. pose proof (bodies_count _ _ _ Hbs). lia.
Qed.

(** C9: the VM loads every compiled contract (of less than 4 GiB): the module it parses has
    the twelve host imports, one function per contract function with the declared
    signature, one local per declared variable and the code of the body, each exported
    under its name; the fields are globals with their initial values, and the string
    literals are data segments. *)
Theorem compiled_contract_loads (c : Contract) (g : CodeGen) (wasm : bytes) :
  contract_ok c -> CodeGen.compile c new = (g, Ok wasm) -> blen wasm < 2 ^ 32 ->
  exists m, parse_module wasm = Ret m /\ loaded c g m.
Proof. apply loads. Qed.

End LoadTheorem.
