(* ===== verification/GsRun.v ===== *)
(** * gratiascript on gratia-vm: compiled expressions compute their value

    A reference semantics for integer and boolean expressions of the language, and that
    the interpreter of the VM computes exactly it on the code the compiler emits, with the
    gas the operators cost.  For a contract function that returns such an expression this
    gives the result of a call, from the source tree to the value; a function that returns
    the call of another one runs the first function of the contract. *)

From stdpp Require Import base gmap strings list pretty.
From Stdlib Require Import ZArith Lia.
From S2P Require Import Prelude CoreTypes Ieee Gas Sandbox HostFunctions WasmModule Interp GsSyntax GsTypes GsCodegen GsScope GsModule GsLoad.
Import Gs.
Local Open Scope Z_scope.

Module Run.
Import Wasm Encoding.

(** ** Reference semantics *)

Definition truth (b : bool) : Z := if b then 1 else 0.

(** The value of an operator; [None] for a division by zero. *)
Definition binop_value (op : BinOp) (a b : Z) : option Z :=
  match op with
  | Add => Some (signed 32 (a + b))
  | Sub => Some (signed 32 (a - b))
  | Mul => Some (signed 32 (a * b))
  | Div => if b =? 0 then None else Some (signed 32 (Z.quot a b))
  | Mod => if b =? 0 then None else Some (signed 32 (Z.rem a b))
  | Eq => Some (truth (a =? b))
  | NotEq => Some (truth (negb (a =? b)))
  | Lt => Some (truth (a <? b))
  | Gt => Some (truth (b <? a))
  | LtEq => Some (truth (a <=? b))
  | GtEq => Some (truth (b <=? a))
  | And => Some (truth (negb (a =? 0) && negb (b =? 0)))
  | Or => Some (truth (negb (a =? 0) || negb (b =? 0)))
  | BitAnd => Some (signed 32 (Z.land a b))
  | BitOr => Some (signed 32 (Z.lor a b))
  | BitXor => Some (signed 32 (Z.lxor a b))
  end.

Fixpoint eval (vars : string -> option Z) (e : Expr) : option Z :=
  match e with
  | IntLit v _ => Some v
  | BoolLit b _ => Some (truth b)
  | Ident n _ => vars n
  | EBinOp op l r _ =>
      match eval vars l, eval vars r with Some a, Some b => binop_value op a b | _, _ => None end
  | EUnaryOp Neg x _ => (fun a => signed 32 (- a)) <$> eval vars x
  | EUnaryOp Not x _ => (fun a => truth (a =? 0)) <$> eval vars x
  | _ => None
  end.

(** The expressions covered: integers of 32 bits and booleans.  [&&] and [||] are compiled
    to bitwise instructions, so their operands have to be booleans. *)
Definition is_bool (e : Expr) : bool :=
  match e with
  | BoolLit _ _ => true
  | EBinOp op _ _ _ =>
      match op with Eq | NotEq | Lt | Gt | LtEq | GtEq | And | Or => true | _ => false end
  | EUnaryOp Not _ _ => true
  | _ => false
  end.

Fixpoint word_expr (e : Expr) : bool :=
  match e with
  | IntLit v _ => Checker.i32_lit v
  | BoolLit _ _ | Ident _ _ => true
  | EBinOp op l r _ =>
      word_expr l && word_expr r
      && match op with And | Or => is_bool l && is_bool r | _ => true end
  | EUnaryOp _ x _ => word_expr x
  | _ => false
  end.

(** The instructions of an expression and what they cost. *)
Fixpoint instructions (e : Expr) : nat :=
  match e with
  | EBinOp _ l r _ => instructions l + instructions r + 1
  | EUnaryOp Neg x _ => instructions x + 2
  | EUnaryOp Not x _ => instructions x + 1
  | _ => 1
  end.

Definition op_cost (c : Gas.GasCosts) (op : BinOp) : Z :=
  match op with Div | Mod => Gas.division c | _ => Gas.arithmetic c end.

Fixpoint cost (c : Gas.GasCosts) (e : Expr) : Z :=
  match e with
  | EBinOp op l r _ => cost c l + cost c r + op_cost c op
  | EUnaryOp Neg x _ => cost c x + 2 * Gas.arithmetic c
  | EUnaryOp Not x _ => cost c x + Gas.arithmetic c
  | _ => Gas.arithmetic c
  end.

(** ** One instruction *)

(** [s] after [n] bytes of code, with stack [st] and [gas] more gas used. *)
Definition after (s : Interp.St) (n : Z) (st : list Value) (gas : Z) : Interp.St :=
  let g := Interp.gas_meter (Interp.shared s) in
  Interp.mkSt (Interp.pos s + n) st (Interp.locals s)
    (Interp.set_gas (Interp.shared s) (Gas.mkGasMeter (Gas.limit g) (Gas.used g + gas) (Gas.costs g))).

Lemma after_after s n1 st1 k1 n2 st2 k2 :
  after (after s n1 st1 k1) n2 st2 k2 = after s (n1 + n2) st2 (k1 + k2).
Proof. unfold after, Interp.set_gas. cbn. by rewrite !Z.add_assoc. Qed.

(** [gas] more can be charged. *)
Definition room (s : Interp.St) (gas : Z) : Prop :=
  let g := Interp.gas_meter (Interp.shared s) in
  Gas.used g + gas <= Gas.limit g < 2 ^ 64.

Lemma charge_room s k :
  room s k -> Gas.charge (Interp.gas_meter (Interp.shared s)) k
    = (Interp.gas_meter (Interp.shared (after s 0 [] k)), Ok tt).
Proof.
  unfold room, Gas.charge, after. cbn. intros Hr.
  assert (saturating_add 64 (Gas.used (Interp.gas_meter (Interp.shared s))) k
    = Gas.used (Interp.gas_meter (Interp.shared s)) + k) as -> by ulia.
  by rewrite decide_False by lia.
Qed.

Definition gas_of (c : Gas.GasCosts) (op : Z) : Z :=
  match Interp.class_of op with
  | Interp.GDivision => Gas.division c
  | Interp.GBranch => Gas.branch c
  | Interp.GFree => 0
  | Interp.GMemory | Interp.GArithmetic => Gas.arithmetic c
  end.

Abbreviation costs_of s := (Gas.costs (Interp.gas_meter (Interp.shared s))).

(** The opcodes that [execute_block] does not treat itself. *)
Definition control (op : Z) : bool :=
  bool_decide (op ∈ [0x00; 0x02; 0x03; 0x04; 0x05; 0x0B; 0x0C; 0x0D; 0x0F; 0x10]).

Section exec.
Context (m : WasmModule) (perms : Sandbox.ContractPermissions) (depth : Z).
Abbreviation block fuel code := (Interp.execute_block fuel m perms depth code).

(** [n] instructions of [code] lead from [s] to [s']. *)
Definition steps (n : nat) (code : bytes) (s s' : Interp.St) : Prop :=
  forall fuel, block (n + fuel) code s = block fuel code s'.

Lemma steps_trans n1 n2 code s1 s2 s3 :
  steps n1 code s1 s2 -> steps n2 code s2 s3 -> steps (n1 + n2) code s1 s3.
Proof. intros H1 H2 fuel. rewrite <- Nat.add_assoc, H1. apply H2. Qed.

(** The state in which an instruction's own work starts: its opcode read and paid. *)
Definition fetched (s : Interp.St) (k : Z) : Interp.St := after s 1 (Interp.stack s) k.

Lemma charge_opcode_room s op :
  room s (gas_of (costs_of s) op) -> Interp.charge_opcode op s
    = (after s 0 (Interp.stack s) (gas_of (costs_of s) op), Ret tt).
Proof.
  intros Hr. unfold Interp.charge_opcode, gas_of in *.
  assert (Hc : forall k, room s k ->
    Interp.in_shared (Interp.charge (fun g => Gas.charge g k)) s = (after s 0 (Interp.stack s) k, Ret tt)).
  { intros k Hk. unfold Interp.in_shared, Interp.charge. rewrite (charge_room s k Hk).
    destruct s as [p st l h]. cbn. unfold after, Interp.set_shared. cbn. by rewrite Z.add_0_r. }
  destruct (Interp.class_of op); try exact (Hc _ Hr).
  unfold Interp.ret, after. destruct s as [p st l [gl me [li us co] he]]. cbn. by rewrite !Z.add_0_r.
Qed.

Lemma plain_step op pre rest s s' :
  control op = false -> Interp.pos s = blen pre -> room s (gas_of (costs_of s) op) ->
  Interp.exec_plain (pre ++ op :: rest) op (fetched s (gas_of (costs_of s) op)) = (s', Ret tt) ->
  steps 1 (pre ++ op :: rest) s s'.
Proof.
  intros Hop Hpos Hr Hexec fuel. cbn [Nat.add Interp.execute_block].
  assert (remaining (pre ++ op :: rest) (Interp.pos s) =? 0 = false) as ->.
  { apply Z.eqb_neq. unfold remaining, saturating_sub. rewrite Hpos, blen_app, blen_cons.
    pose proof (blen_nonneg rest). lia. }
  unfold Interp.bind at 1. unfold Interp.rd at 1. rewrite Hpos, read_byte_at.
  set (s1 := Interp.set_pos s (blen pre + 1)).
  assert (Hs1 : room s1 (gas_of (costs_of s1) op)) by exact Hr.
  unfold Interp.bind at 1. rewrite (charge_opcode_room s1 op Hs1).
  assert (after s1 0 (Interp.stack s1) (gas_of (costs_of s1) op) = fetched s (gas_of (costs_of s) op)) as ->.
  { unfold s1, fetched, after. cbn. f_equal. lia. }
  unfold control in Hop. apply bool_decide_eq_false in Hop.
  repeat match goal with |- context [op =? ?k] =>
    destruct (Z.eqb_spec op k) as [->|]; [exfalso; apply Hop; set_solver|] end.
  unfold Interp.bind at 1. by rewrite Hexec.
Qed.

(** ** The instructions of expressions *)

Abbreviation arith s := (Gas.arithmetic (costs_of s)).

(** An instruction with an immediate operand that pushes a value. *)
Lemma immediate_step {A} op (item : bytes -> Z -> exc (A * Z)) enc x v pre post s :
  reads item enc x -> control op = false -> gas_of (costs_of s) op = arith s ->
  Interp.pos s = blen pre -> room s (arith s) -> blen (pre ++ (op :: enc) ++ post) < 2 ^ 63 ->
  (forall code t, Interp.exec_plain code op t
     = Interp.bind (Interp.rd code item) (fun x' => v x') t) ->
  forall w, v x (after s (1 + blen enc) (Interp.stack s) (arith s))
    = (after s (1 + blen enc) (w :: Interp.stack s) (arith s), Ret tt) ->
  steps 1 (pre ++ (op :: enc) ++ post) s
    (after s (blen (op :: enc)) (w :: Interp.stack s) (arith s)).
Proof.
  intros Hr Hc Hg Hp Hroom Hs Hex w Hv. cbn [app]. apply plain_step; [done|done|by rewrite Hg|].
  rewrite Hg, Hex. unfold Interp.bind, Interp.rd.
  specialize (Hr (pre ++ [op]) post). rewrite <- app_assoc, (blen_app pre [op]) in Hr. cbn [app] in Hr.
  change (blen [op]) with 1 in Hr. cbn [app] in Hs. rewrite <- Hp in Hr.
  change (Interp.pos (fetched s (arith s))) with (Interp.pos s + 1). rewrite Hr by done.
  rewrite blen_cons. rewrite <- Hv. f_equal. unfold fetched, after, Interp.set_pos. cbn. f_equal. lia.
Qed.

Lemma const_step v pre post s :
  i32_range v -> Interp.pos s = blen pre -> room s (arith s) ->
  blen (pre ++ CodeGen.i32_const v ++ post) < 2 ^ 63 ->
  steps 1 (pre ++ CodeGen.i32_const v ++ post) s
    (after s (blen (CodeGen.i32_const v)) (I32 v :: Interp.stack s) (arith s)).
Proof.
  intros Hv Hp Hr Hs.
  by apply (immediate_step CodeGen.OP_I32_CONST read_i32_leb128 _ v (fun x => Interp.push (I32 x)));
    [apply reads_i32|..].
Qed.

Lemma local_step idx v pre post s :
  in_range 32 idx -> Interp.locals s !! Z.to_nat idx = Some v ->
  Interp.pos s = blen pre -> room s (arith s) ->
  let c := CodeGen.OP_LOCAL_GET :: CodeGen.encode_u32 idx in
  blen (pre ++ c ++ post) < 2 ^ 63 ->
  steps 1 (pre ++ c ++ post) s (after s (blen c) (v :: Interp.stack s) (arith s)).
Proof.
  intros Hi Hl Hp Hr c Hs.
  apply (immediate_step CodeGen.OP_LOCAL_GET read_u32_leb128 _ idx
    (fun idx s => match Interp.locals s !! Z.to_nat idx with
                  | Some v => Interp.push v s | None => Interp.throw (UndefinedLocal idx) s end));
    [by apply reads_u32|done..|]. cbn. by rewrite Hl.
Qed.

Lemma global_step idx v pre post s :
  in_range 32 idx -> Interp.globals (Interp.shared s) !! Z.to_nat idx = Some v ->
  Interp.pos s = blen pre -> room s (arith s) ->
  let c := CodeGen.OP_GLOBAL_GET :: CodeGen.encode_u32 idx in
  blen (pre ++ c ++ post) < 2 ^ 63 ->
  steps 1 (pre ++ c ++ post) s (after s (blen c) (v :: Interp.stack s) (arith s)).
Proof.
  intros Hi Hl Hp Hr c Hs.
  apply (immediate_step CodeGen.OP_GLOBAL_GET read_u32_leb128 _ idx
    (fun idx s => match Interp.globals (Interp.shared s) !! Z.to_nat idx with
                  | Some v => Interp.push v s | None => Interp.throw (UndefinedGlobal idx) s end));
    [by apply reads_u32|done..|]. cbn. by rewrite Hl.
Qed.

(** What the instruction of an operator computes. *)
Definition raw_value (op : BinOp) (a b : Z) : option Z :=
  match op with
  | And => Some (signed 32 (Z.land a b))
  | Or => Some (signed 32 (Z.lor a b))
  | op => binop_value op a b
  end.

Lemma binop_step op a b v st pre post s :
  raw_value op a b = Some v -> Interp.stack s = I32 b :: I32 a :: st ->
  Interp.pos s = blen pre -> room s (op_cost (costs_of s) op) ->
  steps 1 (pre ++ [CodeGen.binop_code op false] ++ post) s
    (after s 1 (I32 v :: st) (op_cost (costs_of s) op)).
Proof.
  intros Hv Hst Hp Hr. assert (Hg : gas_of (costs_of s) (CodeGen.binop_code op false) = op_cost (costs_of s) op)
    by (by destruct op).
  cbn [app]. apply plain_step; [by destruct op|done|by rewrite Hg|]. rewrite Hg.
  destruct s as [p st' l h]. cbn in Hst. subst st'.
  destruct op; cbn in Hv;
    try (destruct (Z.eqb_spec b 0) as [|Hb]; [done|]);
    injection Hv as <-; unfold Interp.exec_plain; cbn -[signed Z.quot Z.rem];
    rewrite ?(proj2 (Z.eqb_neq b 0)) by done; unfold Interp.rel; rewrite ?Z.gtb_ltb, ?Z.geb_leb;
    reflexivity.
Qed.

Lemma not_step a st pre post s :
  Interp.stack s = I32 a :: st -> Interp.pos s = blen pre -> room s (arith s) ->
  steps 1 (pre ++ [CodeGen.OP_I32_EQZ] ++ post) s (after s 1 (I32 (truth (a =? 0)) :: st) (arith s)).
Proof.
  intros Hst Hp Hr. cbn [app]. apply plain_step; [done|done|done|].
  destruct s as [p st' l h]. cbn in Hst. by subst st'.
Qed.

(** ** Expressions *)

(** The variables of an expression as the compiled code finds them. *)
Definition vars_ok (tbl : list CodeGen.Local) (g : CodeGen.CodeGen) (vars : string -> option Z)
    (s : Interp.St) : Prop := forall n v, vars n = Some v ->
  i32_range v /\ (forall sp, CodeGen.expr_is_float g tbl (Ident n sp) = false)
  /\ match CodeGen.find_global n g with
     | Some idx => in_range 32 idx /\ Interp.globals (Interp.shared s) !! Z.to_nat idx = Some (I32 v)
     | None => exists l, CodeGen.find_local tbl n = Ok l /\ in_range 32 (CodeGen.loc_index l)
         /\ Interp.locals s !! Z.to_nat (CodeGen.loc_index l) = Some (I32 v)
     end.

Lemma vars_after tbl g vars s n st k : vars_ok tbl g vars s -> vars_ok tbl g vars (after s n st k).
Proof. done. Qed.

Lemma truth_range b : i32_range (truth b).
Proof. by destruct b. Qed.

Lemma eval_range vars e v :
  (forall n v, vars n = Some v -> i32_range v) -> word_expr e = true -> eval vars e = Some v -> i32_range v.
Proof.
  intros Hvars. destruct e as [i sp| |str sp|b sp|n sp|op l r sp|op x sp| | | |]; cbn; intros Hw Hv; try done.
  - injection Hv as <-. unfold Checker.i32_lit in Hw. apply andb_true_iff in Hw as [H1 H2].
    apply Z.leb_le in H1, H2. unfold i32_range. lia.
  - injection Hv as <-. apply truth_range.
  - by eapply Hvars.
  - destruct (eval vars l) as [a|], (eval vars r) as [b|]; try done.
    destruct op; cbn in Hv; try (destruct (b =? 0); [done|]); injection Hv as <-;
      first [apply signed_range32|apply truth_range].
  - destruct op, (eval vars x); try done; injection Hv as <-; [apply signed_range32|apply truth_range].
Qed.

Lemma not_float tbl g vars s e v :
  vars_ok tbl g vars s -> word_expr e = true -> eval vars e = Some v ->
  CodeGen.expr_is_float g tbl e = false.
Proof.
  intros Hvars. revert v.
  induction e as [i sp|i sp|str sp|b sp|n sp|op l r sp IHl IHr|op x sp IH|n args sp IH|b args sp IH
    |x f sp IH|x ty sp IH] using Expr_nested; intros v Hw Hv; try done.
  - by destruct (Hvars n v Hv) as (_ & -> & _).
  - cbn in Hw, Hv. apply andb_true_iff in Hw as [Hw _]. apply andb_true_iff in Hw as [Hw _].
    destruct (eval vars l) as [a|]; [|done]. by apply (IHl a).
  - cbn in Hw, Hv. destruct op, (eval vars x) as [a|]; try done; by apply (IH a).
Qed.

Lemma bool_value vars e v : is_bool e = true -> eval vars e = Some v -> v = 0 \/ v = 1.
Proof.
  assert (forall b, truth b = 0 \/ truth b = 1) as Ht by (by intros []; [right|left]).
  destruct e as [| | |b sp| |op l r sp|op x sp| | | |]; cbn; intros Hb Hv; try done.
  - by injection Hv as <-.
  - destruct (eval vars l), (eval vars r); try done. destruct op; try done; by injection Hv as <-.
  - destruct op, (eval vars x); try done. by injection Hv as <-.
Qed.

(** On booleans the bitwise instructions are the logical operators. *)
Lemma raw_value_word vars op l r sp a b v :
  word_expr (EBinOp op l r sp) = true -> eval vars l = Some a -> eval vars r = Some b ->
  binop_value op a b = Some v -> raw_value op a b = Some v.
Proof.
  cbn. intros Hw Ha Hb Hv. apply andb_true_iff in Hw as [_ Hw].
  destruct op; try done; apply andb_true_iff in Hw as [H1 H2];
    destruct (bool_value vars l a H1 Ha) as [->| ->], (bool_value vars r b H2 Hb) as [->| ->];
    cbn in Hv |- *; exact Hv.
Qed.

Lemma cost_nonneg c e : 0 <= Gas.arithmetic c -> 0 <= Gas.division c -> 0 <= cost c e.
Proof.
  intros Ha Hd. induction e as [i sp|i sp|str sp|b sp|n sp|op l r sp IHl IHr|op x sp IH|n args sp IH
    |b args sp IH|x f sp IH|x ty sp IH] using Expr_nested; cbn; try done.
  - destruct op; cbn; lia.
  - destruct op; lia.
Qed.

(** The generator's code for [e] computes [v], wherever it stands. *)
Definition computes (tbl : list CodeGen.Local) (g : CodeGen.CodeGen) (vars : string -> option Z)
    (e : Expr) (v : Z) (c : bytes) : Prop := forall pre post s,
  Interp.pos s = blen pre -> blen (pre ++ c ++ post) < 2 ^ 63 -> vars_ok tbl g vars s ->
  0 <= arith s -> 0 <= Gas.division (costs_of s) -> room s (cost (costs_of s) e) ->
  steps (instructions e) (pre ++ c ++ post) s
    (after s (blen c) (I32 v :: Interp.stack s) (cost (costs_of s) e)).

Lemma room_less s k k' : room s k -> k' <= k -> room s k'.
Proof. unfold room. lia. Qed.

Lemma room_after s n st k k' : room s (k + k') -> room (after s n st k) k'.
Proof. unfold room, after. cbn. lia. Qed.

Lemma computes_binop tbl g vars op l r sp a b v cl cr :
  word_expr (EBinOp op l r sp) = true -> eval vars l = Some a -> eval vars r = Some b ->
  binop_value op a b = Some v ->
  computes tbl g vars l a cl -> computes tbl g vars r b cr ->
  computes tbl g vars (EBinOp op l r sp) v (cl ++ cr ++ [CodeGen.binop_code op false]).
Proof.
  intros Hw Ha Hb Hv Hl Hr pre post s Hp Hs Hvars Har Hdi Hroom. cbn [cost instructions] in *.
  assert (Hv' := raw_value_word _ _ _ _ _ _ _ _ Hw Ha Hb Hv).
  pose proof (cost_nonneg (costs_of s) l Har Hdi). pose proof (cost_nonneg (costs_of s) r Har Hdi).
  assert (0 <= op_cost (costs_of s) op) by (by destruct op).
  rewrite <- !app_assoc in *. rewrite (app_assoc pre), (app_assoc (pre ++ cl)).
  eapply steps_trans; [eapply steps_trans|].
  - rewrite <- !app_assoc. apply Hl; try done. eapply room_less; [exact Hroom|lia].
  - rewrite <- (app_assoc (pre ++ cl)). apply Hr; try done.
    + rewrite blen_app. cbn. by rewrite Hp.
    + by rewrite <- app_assoc.
    + eapply room_after, room_less; [exact Hroom|]. cbn. lia.
  - cbn. rewrite after_after.
    assert (after s (blen (cl ++ cr ++ [CodeGen.binop_code op false])) (I32 v :: Interp.stack s)
        (cost (costs_of s) l + cost (costs_of s) r + op_cost (costs_of s) op)
      = after (after s (blen cl + blen cr) (I32 b :: I32 a :: Interp.stack s)
          (cost (costs_of s) l + cost (costs_of s) r)) 1 (I32 v :: Interp.stack s) (op_cost (costs_of s) op)) as ->.
    { rewrite after_after, !blen_app. change (blen [_]) with 1. f_equal. lia. }
    refine (binop_step op a b v (Interp.stack s) _ post (after s (blen cl + blen cr)
      (I32 b :: I32 a :: Interp.stack s) (cost (costs_of s) l + cost (costs_of s) r)) _ _ _ _); [done|done| |].
    + rewrite !blen_app. cbn. lia.
    + apply room_after. eapply room_less; [exact Hroom|]. cbn. lia.
Qed.

Lemma computes_not tbl g vars x sp a cx :
  computes tbl g vars x a cx ->
  computes tbl g vars (EUnaryOp Not x sp) (truth (a =? 0)) (cx ++ [CodeGen.OP_I32_EQZ]).
Proof.
  intros Hx pre post s Hp Hs Hvars Har Hdi Hroom. cbn [cost instructions] in *.
  pose proof (cost_nonneg (costs_of s) x Har Hdi).
  rewrite <- !app_assoc in *. rewrite (app_assoc pre).
  eapply steps_trans.
  - rewrite <- !app_assoc. apply Hx; try done. eapply room_less; [exact Hroom|lia].
  - assert (after s (blen (cx ++ [CodeGen.OP_I32_EQZ])) (I32 (truth (a =? 0)) :: Interp.stack s)
        (cost (costs_of s) x + arith s)
      = after (after s (blen cx) (I32 a :: Interp.stack s) (cost (costs_of s) x)) 1
          (I32 (truth (a =? 0)) :: Interp.stack s) (arith s)) as ->.
    { rewrite after_after, !blen_app. by change (blen [_]) with 1. }
    refine (not_step a (Interp.stack s) _ post (after s (blen cx) (I32 a :: Interp.stack s)
      (cost (costs_of s) x)) _ _ _); [done| |].
    + rewrite !blen_app. cbn. lia.
    + by apply room_after.
Qed.

Lemma computes_neg tbl g vars x sp a cx :
  computes tbl g vars x a cx ->
  computes tbl g vars (EUnaryOp Neg x sp) (signed 32 (- a))
    (cx ++ CodeGen.i32_const (-1) ++ [CodeGen.OP_I32_MUL]).
Proof.
  intros Hx pre post s Hp Hs Hvars Har Hdi Hroom. cbn [cost instructions] in *.
  pose proof (cost_nonneg (costs_of s) x Har Hdi). set (k := CodeGen.i32_const (-1)) in *.
  set (s1 := after s (blen cx) (I32 a :: Interp.stack s) (cost (costs_of s) x)).
  set (s2 := after s1 (blen k) (I32 (-1) :: I32 a :: Interp.stack s) (arith s)).
  rewrite <- !app_assoc in *. change (instructions x + 2)%nat with (instructions x + (1 + 1))%nat.
  eapply (steps_trans _ _ _ _ s1); [|apply (steps_trans _ _ _ _ s2)].
  - apply Hx; try done. eapply room_less; [exact Hroom|lia].
  - rewrite (app_assoc pre). refine (const_step (-1) (pre ++ cx) _ s1 _ _ _ _); [done| | |].
    + rewrite blen_app. cbn. by rewrite Hp.
    + apply room_after. eapply room_less; [exact Hroom|]. cbn. lia.
    + by rewrite <- app_assoc.
  - assert (after s (blen (cx ++ k ++ [CodeGen.OP_I32_MUL])) (I32 (signed 32 (- a)) :: Interp.stack s)
        (cost (costs_of s) x + 2 * arith s)
      = after s2 1 (I32 (signed 32 (a * -1)) :: Interp.stack s) (arith s)) as ->.
    { unfold s2, s1. rewrite !after_after, !blen_app. change (blen [_]) with 1.
      replace (a * -1) with (- a) by lia. f_equal; lia. }
    rewrite (app_assoc pre), (app_assoc (pre ++ cx)).
    refine (binop_step Mul a (-1) _ (Interp.stack s) _ post s2 _ _ _ _); [done|done| |].
    + rewrite !blen_app. cbn. lia.
    + unfold s2. apply room_after. unfold s1. apply room_after. eapply room_less; [exact Hroom|]. cbn. lia.
Qed.

Lemma computes_ident tbl g vars n sp v s0 :
  vars_ok tbl g vars s0 -> vars n = Some v ->
  exists c, CodeGen.get_variable tbl n g = (g, Ok c) /\ computes tbl g vars (Ident n sp) v c.
Proof.
  intros H0 Hn. unfold CodeGen.get_variable, CodeGen.mbind, CodeGen.gets, CodeGen.lift, CodeGen.mret.
  destruct (H0 n v Hn) as (_ & _ & Hc).
  destruct (CodeGen.find_global n g) as [idx|] eqn:E.
  - eexists. split; [done|]. intros pre post s Hp Hs Hvars _ _ Hroom.
    destruct (Hvars n v Hn) as (_ & _ & Hv). rewrite E in Hv. destruct Hv. by apply global_step.
  - destruct Hc as (l & Hl & _). rewrite Hl. eexists. split; [done|].
    intros pre post s Hp Hs Hvars _ _ Hroom. destruct (Hvars n v Hn) as (_ & _ & Hv). rewrite E in Hv.
    destruct Hv as (l' & Hl' & Hi & Hv). assert (l' = l) as -> by congruence. by apply local_step.
Qed.

(** The compiler is correct on these expressions. *)
Lemma compile_computes tbl g vars s0 e v :
  vars_ok tbl g vars s0 -> word_expr e = true -> eval vars e = Some v ->
  exists c, CodeGen.compile_expr tbl e g = (g, Ok c) /\ computes tbl g vars e v c.
Proof.
  intros H0. revert v.
  induction e as [i sp|i sp|str sp|b sp|n sp|op l r sp IHl IHr|op x sp IH|n args sp IH|b args sp IH
    |x f sp IH|x ty sp IH] using Expr_nested; intros v Hw Hv; try done; cbn [CodeGen.compile_expr].
  - assert (Hi : i32_range v)
      by (apply (eval_range vars (IntLit i sp)); [intros n w Hn; apply (H0 n w Hn)|done..]).
    injection Hv as <-. cbn in Hw. rewrite Hw. eexists. split; [done|].
    intros pre post s Hp Hs _ _ _ Hroom. by apply const_step.
  - injection Hv as <-. eexists. split; [done|]. intros pre post s Hp Hs _ _ _ Hroom.
    apply const_step; [apply truth_range|done..].
  - by eapply computes_ident.
  - assert (Hw' := Hw). cbn in Hw, Hv. apply andb_true_iff in Hw as [Hw _]. apply andb_true_iff in Hw as [Hwl Hwr].
    destruct (eval vars l) as [a|] eqn:El, (eval vars r) as [b|] eqn:Er; try done.
    destruct (IHl a Hwl eq_refl) as (cl & Cl & Rl), (IHr b Hwr eq_refl) as (cr & Cr & Rr).
    unfold CodeGen.mbind, CodeGen.gets, CodeGen.mret. rewrite Cl, Cr, (not_float _ _ _ _ _ _ H0 Hwl El).
    eexists. split; [done|]. by eapply computes_binop.
  - cbn in Hw, Hv. destruct (eval vars x) as [a|] eqn:Ex; [|by destruct op].
    destruct (IH a Hw eq_refl) as (cx & Cx & Rx). unfold CodeGen.mbind, CodeGen.gets, CodeGen.mret.
    rewrite Cx, (not_float _ _ _ _ _ _ H0 Hw Ex).
    destruct op; injection Hv as <-; (eexists; split; [done|]); [by apply computes_neg|by apply computes_not].
Qed.

Lemma return_step pre rest s fuel :
  Interp.pos s = blen pre -> room s (arith s) ->
  block (S fuel) (pre ++ CodeGen.OP_RETURN :: rest) s = (fetched s (arith s), Throw FunctionReturn).
Proof.
  intros Hpos Hr. cbn [Interp.execute_block].
  assert (remaining (pre ++ CodeGen.OP_RETURN :: rest) (Interp.pos s) =? 0 = false) as ->.
  { apply Z.eqb_neq. unfold remaining, saturating_sub. rewrite Hpos, blen_app, blen_cons.
    pose proof (blen_nonneg rest). lia. }
  unfold Interp.bind at 1. unfold Interp.rd at 1. rewrite Hpos, read_byte_at.
  set (s1 := Interp.set_pos s (blen pre + 1)).
  assert (Hs1 : room s1 (gas_of (costs_of s1) CodeGen.OP_RETURN)) by exact Hr.
  unfold Interp.bind at 1. rewrite (charge_opcode_room s1 _ Hs1). cbn. unfold Interp.throw.
  f_equal. unfold s1, fetched, after. cbn. f_equal. lia.
Qed.

(** ** Calls *)

Definition args_instructions (args : list Expr) : nat := foldr (fun e n => instructions e + n)%nat 0%nat args.
Definition args_cost (c : Gas.GasCosts) (args : list Expr) : Z := foldr (fun e k => cost c e + k) 0 args.

(** The values of the arguments of a call. *)
Definition evaluate (vars : string -> option Z) (args : list Expr) (ws : list Z) : Prop :=
  Forall2 (fun e w => word_expr e = true /\ eval vars e = Some w) args ws.

Lemma args_cost_nonneg c args : 0 <= Gas.arithmetic c -> 0 <= Gas.division c -> 0 <= args_cost c args.
Proof. intros Ha Hd. unfold args_cost. induction args as [|e l IH]; cbn; [done|]. pose proof (cost_nonneg c e Ha Hd). lia. Qed.

Definition computes_args (tbl : list CodeGen.Local) (g : CodeGen.CodeGen) (vars : string -> option Z)
    (args : list Expr) (ws : list Z) (c : bytes) : Prop := forall pre post s,
  Interp.pos s = blen pre -> blen (pre ++ c ++ post) < 2 ^ 63 -> vars_ok tbl g vars s ->
  0 <= arith s -> 0 <= Gas.division (costs_of s) -> room s (args_cost (costs_of s) args) ->
  steps (args_instructions args) (pre ++ c ++ post) s
    (after s (blen c) (rev (map I32 ws) ++ Interp.stack s) (args_cost (costs_of s) args)).

(** The arguments of a call are left on the stack, the last one on top. *)
Lemma compile_args tbl g vars s0 args ws :
  vars_ok tbl g vars s0 -> evaluate vars args ws ->
  exists c, CodeGen.emit_each (CodeGen.compile_expr tbl) args g = (g, Ok c)
    /\ computes_args tbl g vars args ws c.
Proof.
  intros H0. induction 1 as [|e w args ws [Hw Hv] _ (cs & Hcs & IH)]; cbn [CodeGen.emit_each].
  { exists []. split; [done|]. intros pre post s _ _ _ _ _ _ fuel. cbn. f_equal.
    destruct s as [p st l [gl me [li us co] he]]. unfold after. cbn. by rewrite !Z.add_0_r. }
  destruct (compile_computes tbl g vars s0 e w H0 Hw Hv) as (c & Hc & Hrun).
  unfold CodeGen.mbind, CodeGen.mret. rewrite Hc, Hcs. exists (c ++ cs). split; [done|].
  intros pre post s Hp Hs Hvars Har Hdi Hroom. cbn [args_cost args_instructions foldr] in *.
  fold (args_cost (costs_of s) args) in *. fold (args_instructions args).
  pose proof (args_cost_nonneg (costs_of s) args Har Hdi). rewrite <- !app_assoc in *.
  eapply steps_trans.
  { apply Hrun; try done. eapply room_less; [exact Hroom|]. lia. }
  assert (after s (blen (c ++ cs)) (rev (map I32 (w :: ws)) ++ Interp.stack s)
      (cost (costs_of s) e + args_cost (costs_of s) args)
    = after (after s (blen c) (I32 w :: Interp.stack s) (cost (costs_of s) e)) (blen cs)
        (rev (map I32 ws) ++ I32 w :: Interp.stack s) (args_cost (costs_of s) args)) as ->.
  { rewrite after_after, blen_app. cbn [map rev]. by rewrite <- app_assoc. }
  rewrite (app_assoc pre). refine (IH (pre ++ c) post (after s (blen c) (I32 w :: Interp.stack s) _) _ _ _ _ _ _);
    [|by rewrite <- app_assoc|done..|by apply room_after].
  rewrite blen_app. cbn. by rewrite Hp.
Qed.

(** The state after a call of which [h] and the value [o] came back. *)
Definition returned (s : Interp.St) (n : Z) (st : list Value) (h : Interp.Shared) (o : option Value) : Interp.St :=
  Interp.mkSt (Interp.pos s + n) (option_list o ++ st) (Interp.locals s) h.

Lemma call_step idx t args st pre post s fuel :
  in_range 32 idx -> Interp.pos s = blen pre -> room s (arith s) ->
  Interp.callee_type m idx = Ret t -> length args = length (params t) -> Interp.stack s = rev args ++ st ->
  let c := CodeGen.OP_CALL :: CodeGen.encode_u32 idx in
  blen (pre ++ c ++ post) < 2 ^ 63 ->
  block (S fuel) (pre ++ c ++ post) s
  = (let '(h, r) := Interp.execute_function fuel m perms idx args (wadd 32 depth 1)
                      (Interp.shared (fetched s (arith s))) in
     match r with
     | Ret o => block fuel (pre ++ c ++ post) (returned s (blen c) st h o)
     | Throw e => (returned s (blen c) st h None, Throw e)
     | Panic => (returned s (blen c) st h None, Panic)
     | Diverge => (returned s (blen c) st h None, Diverge)
     end).
Proof.
  intros Hi Hpos Hr Ht Hlen Hst c Hs. unfold c in *. cbn [app Interp.execute_block] in *.
  assert (remaining (pre ++ CodeGen.OP_CALL :: CodeGen.encode_u32 idx ++ post) (Interp.pos s) =? 0 = false) as ->.
  { apply Z.eqb_neq. unfold remaining, saturating_sub. rewrite Hpos, blen_app, blen_cons.
    pose proof (blen_nonneg (CodeGen.encode_u32 idx ++ post)). lia. }
  unfold Interp.bind at 1. unfold Interp.rd at 1. rewrite Hpos, read_byte_at.
  set (s1 := Interp.set_pos s (blen pre + 1)).
  assert (Hs1 : room s1 (gas_of (costs_of s1) CodeGen.OP_CALL)) by exact Hr.
  unfold Interp.bind at 1. rewrite (charge_opcode_room s1 _ Hs1).
  assert (after s1 0 (Interp.stack s1) (gas_of (costs_of s1) CodeGen.OP_CALL) = fetched s (arith s)) as ->.
  { unfold s1, fetched, after. cbn. f_equal. lia. }
  change (CodeGen.OP_CALL =? 0x10) with true.
  repeat match goal with |- context [CodeGen.OP_CALL =? ?k] => change (CodeGen.OP_CALL =? k) with false end.
  cbv iota. unfold Interp.bind at 1. unfold Interp.rd at 1.
  pose proof (reads_u32 idx Hi (pre ++ [CodeGen.OP_CALL]) post) as Hrd.
  rewrite <- app_assoc, (blen_app pre [_]) in Hrd. cbn [app] in Hrd. change (blen [_]) with 1 in Hrd.
  change (Interp.pos (fetched s (arith s))) with (Interp.pos s + 1). rewrite Hpos, Hrd by done.
  unfold Interp.bind at 1, Interp.lift at 1. rewrite Ht.
  unfold Interp.bind at 1, Interp.split_args.
  change (Interp.stack (Interp.set_pos (fetched s (arith s)) (blen pre + 1 + blen (CodeGen.encode_u32 idx))))
    with (Interp.stack s).
  rewrite Hst, decide_False by (rewrite length_app, length_rev; lia).
  rewrite take_app_length', drop_app_length', rev_involutive by (by rewrite length_rev).
  unfold Interp.bind at 1, Interp.in_shared.
  change (Interp.shared (Interp.set_stack (Interp.set_pos (fetched s (arith s))
    (blen pre + 1 + blen (CodeGen.encode_u32 idx))) st)) with (Interp.shared (fetched s (arith s))).
  unfold Interp.execute_function. destruct (Interp.function_with _ _ _ _ _ _ _) as [h r].
  assert (blen pre + 1 + blen (CodeGen.encode_u32 idx)
    = Interp.pos s + blen (CodeGen.OP_CALL :: CodeGen.encode_u32 idx)) as -> by (rewrite blen_cons; lia).
  destruct r as [[v|]| | |]; reflexivity.
Qed.

(** Code that pushes [args], calls and returns. *)
Lemma call_then_return idx t args cs s n :
  in_range 32 idx -> Interp.pos s = blen cs -> room s (arith s) ->
  Interp.callee_type m idx = Ret t -> length args = length (params t) -> Interp.stack s = rev args ->
  let c := CodeGen.OP_CALL :: CodeGen.encode_u32 idx in
  let code := cs ++ c ++ [CodeGen.OP_RETURN; CodeGen.OP_END] in
  blen code < 2 ^ 63 ->
  let first := Interp.execute_function (S n) m perms idx args (wadd 32 depth 1)
    (Interp.shared (fetched s (arith s))) in
  (forall h o, first = (h, Ret o) ->
     let s' := returned s (blen c) [] h o in
     room s' (arith s') -> block (S (S n)) code s = (fetched s' (arith s'), Throw FunctionReturn))
  /\ (forall h e, first = (h, Throw e) -> block (S (S n)) code s = (returned s (blen c) [] h None, Throw e)).
Proof.
  intros Hi Hpos Hr Ht Hlen Hst c code Hs first.
  assert (Hstep := call_step idx t args [] cs [CodeGen.OP_RETURN; CodeGen.OP_END] s (S n) Hi Hpos Hr Ht Hlen).
  rewrite app_nil_r in Hstep. specialize (Hstep Hst Hs). fold first c code in Hstep. split.
  - intros h o Hf s' Hr'. rewrite Hstep, Hf. fold s'. unfold code. rewrite app_assoc.
    rewrite return_step; [done| |done]. cbn. by rewrite Hpos, blen_app.
  - intros h e Hf. by rewrite Hstep, Hf.
Qed.
End exec.

(** ** Functions *)

(** The value of a parameter. *)
Definition arguments (ps : list Param) (vals : list Z) (n : string) : option Z :=
  match CodeGen.position (fun p => bool_decide (par_name p = n)) ps with
  | Some i => vals !! i
  | None => None
  end.

Lemma find_param n ps i :
  CodeGen.position (fun p => bool_decide (par_name p = n)) ps = Some i ->
  exists p, ps !! i = Some p /\ par_name p = n
    /\ List.find (fun l => bool_decide (CodeGen.loc_name l = n)) (CodeGen.param_locals ps)
       = Some (CodeGen.mkLocal n (par_ty p) (wrap 32 (Z.of_nat i))).
Proof.
  unfold CodeGen.param_locals. change i with (0 + i)%nat at 3.
  change (fun (i : nat) p => CodeGen.mkLocal (par_name p) (par_ty p) (wrap 32 (Z.of_nat i)))
    with (fun (i : nat) p => CodeGen.mkLocal (par_name p) (par_ty p) (wrap 32 (Z.of_nat (0 + i)))).
  generalize 0%nat. intros k Hp. revert k i Hp. induction ps as [|p ps IH]; intros k i; cbn; [done|].
  case_bool_decide as E; cbn.
  - intros [= <-]. exists p. by rewrite E, Nat.add_0_r.
  - destruct (CodeGen.position _ ps) as [j|] eqn:Ej; [|done]. intros [= <-].
    destruct (IH (S k) j eq_refl) as (q & Hq & Hn & Hf). exists q. split; [done|]. split; [done|].
    rewrite <- Nat.add_succ_comm. etrans; [|exact Hf]. f_equal. apply imap_ext. intros x y _. cbn.
    by rewrite Nat.add_succ_r.
Qed.

Lemma not_a_field c g n :
  CodeGen.globals g = Load.field_types c -> n ∉ map fld_name (con_fields c) -> CodeGen.find_global n g = None.
Proof.
  unfold CodeGen.find_global, Load.field_types. intros -> Hn.
  induction (con_fields c) as [|f l IH]; cbn; [done|]. cbn in Hn. rewrite elem_of_cons in Hn.
  rewrite bool_decide_false by (cbn; intros <-; apply Hn; by left).
  assert (n ∉ map fld_name l) as Hn' by tauto. specialize (IH Hn').
  by destruct (CodeGen.position _ _).
Qed.

(** The parameters of 32 bits, none of which has the name of a field. *)
Definition word_params (c : Contract) (ps : list Param) : Prop :=
  Forall (fun p => (par_ty p = TyI32 \/ par_ty p = TyBool) /\ par_name p ∉ map fld_name (con_fields c)) ps.

Lemma params_vars_ok c g f vals fn h p st :
  CodeGen.globals g = Load.field_types c -> word_params c (fun_params f) ->
  Z.of_nat (length (fun_params f)) < 2 ^ 32 ->
  length vals = length (fun_params f) -> Forall i32_range vals ->
  vars_ok (CodeGen.param_locals (fun_params f)) g (arguments (fun_params f) vals)
    (Interp.mkSt p st (Interp.initial_locals (Load.signature f) fn (map I32 vals)) h).
Proof.
  intros Hg Hw Hps Hlen Hr n v Hn. unfold arguments in Hn.
  destruct (CodeGen.position _ _) as [i|] eqn:E; [|done].
  destruct (find_param _ _ _ E) as (q & Hq & Hqn & Hf).
  unfold word_params in Hw. rewrite Forall_lookup in Hw. rewrite Forall_lookup in Hr. destruct (Hw i q Hq) as [Hty Hfld].
  subst n. assert (Hng := not_a_field _ _ _ Hg Hfld). apply lookup_lt_Some in Hq as Hi.
  split; [by eapply Hr|]. split.
  - intros sp. cbn. rewrite Hng, Hf. cbn. by destruct Hty as [-> | ->].
  - rewrite Hng. unfold CodeGen.find_local. rewrite Hf. eexists. split; [done|]. cbn [CodeGen.loc_index].
    split; [apply wrap_range; lia|]. rewrite wrap_small, Nat2Z.id by (unfold in_range; lia).
    cbn [Interp.locals]. unfold Interp.initial_locals. rewrite lookup_app_l.
    + rewrite list_lookup_imap. cbn [params Load.signature Load.functype].
      rewrite !list_lookup_fmap, Hq. cbn. by rewrite Hn.
    + rewrite length_imap. cbn. by rewrite !length_map.
Qed.

(** C5: a call of a compiled function that returns an expression over its parameters
    (integers of 32 bits and booleans) returns the value of the expression in the source
    semantics, and uses the gas of its operators. *)
Theorem compiled_function_correct (c : Contract) g wasm m i f e sp vals v perms h fuel :
  Load.contract_ok c -> CodeGen.compile c CodeGen.new = (g, Ok wasm) -> blen wasm < 2 ^ 32 ->
  parse_module wasm = Ret m -> con_functions c !! i = Some f ->
  fun_body f = [Return (Some e) sp] -> fun_return_type f <> TyVoid ->
  word_params c (fun_params f) -> length vals = length (fun_params f) -> Forall i32_range vals ->
  word_expr e = true -> eval (arguments (fun_params f) vals) e = Some v ->
  let meter := Interp.gas_meter h in
  let k := cost (Gas.costs meter) e + Gas.arithmetic (Gas.costs meter) in
  0 <= Gas.arithmetic (Gas.costs meter) -> 0 <= Gas.division (Gas.costs meter) ->
  Gas.used meter + k <= Gas.limit meter < 2 ^ 64 -> (instructions e < fuel)%nat ->
  Interp.execute_function fuel m perms (12 + Z.of_nat i) (map I32 vals) 0 h
  = (Interp.set_gas h (Gas.mkGasMeter (Gas.limit meter) (Gas.used meter + k) (Gas.costs meter)),
     Ret (Some (I32 v))).
Proof.
  intros Hok Hcomp Hsize Hparse Hf Hbody Hret Hw Hlen Hvals He Hv meter k Har Hdi Hgas Hfuel.
  destruct (LoadTheorem.loads c g wasm Hok Hcomp Hsize) as (m' & Hm' & _ & Hcount & Himpl & _).
  assert (m' = m) as -> by congruence.
  destruct (Forall2_lookup_l _ _ _ _ _ Himpl Hf) as (fn & Hfn & Hty & _ & Hsz & code & (g1 & g2 & Hg1 & _ & Hc) & Hcode).
  assert (Hps : Z.of_nat (length (fun_params f)) < 2 ^ 32).
  { destruct Hok as [_ Hfs]. rewrite Forall_lookup in Hfs. destruct (Hfs i f Hf) as [_ ?]. lia. }
  assert (Hvars : forall s, vars_ok (CodeGen.param_locals (fun_params f)) g1 (arguments (fun_params f) vals)
    (Interp.mkSt 0 [] (Interp.initial_locals (Load.signature f) fn (map I32 vals)) s))
    by (intros s; by eapply params_vars_ok).
  destruct (compile_computes m perms 0 _ _ _ _ _ _ (Hvars h) He Hv) as (cx & Hcx & Hrun).
  assert (Hcode' : code = cx ++ [CodeGen.OP_RETURN]).
  { unfold CodeGen.function_frame in Hc. rewrite Hbody in Hc. cbn in Hc. unfold CodeGen.mbind in Hc.
    rewrite Hcx in Hc. injection Hc as _ <-. apply app_nil_r. }
  unfold Interp.execute_function, Interp.function_with.
  rewrite decide_False by (unfold Interp.MAX_CALL_DEPTH; lia). rewrite Hcount, decide_False by lia.
  replace (12 + Z.of_nat i - 12) with (Z.of_nat i) by lia. rewrite Nat2Z.id, Hfn, Hty.
  set (s := Interp.mkSt 0 [] _ h). rewrite Hcode, Hcode', <- app_assoc in *.
  destruct (Nat.le_exists_sub (S (instructions e)) fuel Hfuel) as (n & Hn & _). 
  replace fuel with (instructions e + S n)%nat by lia.
  assert (room s (cost (costs_of s) e)) as Hroom by (unfold room; cbn; unfold k, meter in *; lia).
  specialize (Hrun [] ([CodeGen.OP_RETURN] ++ [CodeGen.OP_END]) s eq_refl). cbn [app] in Hrun, Hsz |- *.
  rewrite (Hrun ltac:(lia) (Hvars h) Har Hdi Hroom (S n)). clear Hrun.
  rewrite return_step; [| |unfold room; cbn; unfold k, meter in *; lia].
  - cbn. unfold Load.results_of. rewrite decide_False by done. cbn. unfold fetched, after, Interp.set_gas. cbn.
    unfold k, meter. by rewrite Z.add_assoc.
  - cbn. lia.
Qed.

(** ** Calls of functions of the contract *)

(** A function of the module runs the code of its body. *)
Lemma run_function c m i f fn fuel perms args depth h :
  import_func_count m = 12 -> functions m !! i = Some fn ->
  Load.implements c (types m) f fn -> depth <= Interp.MAX_CALL_DEPTH ->
  Interp.callee_type m (12 + Z.of_nat i) = Ret (Load.signature f)
  /\ Interp.execute_function fuel m perms (12 + Z.of_nat i) args depth h
     = (let '(s, r) := Interp.execute_block fuel m perms depth (fn_code fn)
          (Interp.mkSt 0 [] (Interp.initial_locals (Load.signature f) fn args) h) in
        (Interp.shared s, Interp.function_result (Load.signature f) (Interp.stack s) r)).
Proof.
  intros Hcount Hfn (Hty & _) Hd.
  unfold Interp.callee_type, Interp.execute_function, Interp.function_with.
  rewrite Hcount, !decide_False by lia. replace (12 + Z.of_nat i - 12) with (Z.of_nat i) by lia.
  rewrite Nat2Z.id, Hfn. cbn [Wasm.ebind]. by rewrite Hty.
Qed.

(** A function lets through the errors that another function returned. *)
Lemma function_result_throw t t' st st' r e :
  Interp.function_result t st r = Throw e -> Interp.function_result t' st' (Throw e) = Throw e.
Proof.
  destruct r as [[]|x| |]; cbn; try done; [by destruct (results t)|].
  destruct x; try done; try (intros [= <-]; done); by destruct (results t).
Qed.

(** The code of a function that returns the value of a call: the name is not looked at. *)
Lemma call_code c m f fn vals name args ws sp sp' perms depth h :
  Load.implements c (types m) f fn -> Z.of_nat (length (fun_params f)) < 2 ^ 32 ->
  fun_body f = [Return (Some (ECall name args sp)) sp'] -> word_params c (fun_params f) ->
  length vals = length (fun_params f) -> Forall i32_range vals ->
  evaluate (arguments (fun_params f) vals) args ws ->
  exists cs tbl g1, fn_code fn = cs ++ (CodeGen.OP_CALL :: CodeGen.encode_u32 12) ++ [CodeGen.OP_RETURN; CodeGen.OP_END]
    /\ vars_ok tbl g1 (arguments (fun_params f) vals)
         (Interp.mkSt 0 [] (Interp.initial_locals (Load.signature f) fn (map I32 vals)) h)
    /\ computes_args m perms depth tbl g1 (arguments (fun_params f) vals) args ws cs.
Proof.
  intros (_ & _ & _ & code & (g1 & g2 & Hg1 & Hi & Hc) & Hcode) Hps Hbody Hw Hlen Hvals Hargs.
  assert (Hvars : vars_ok (CodeGen.param_locals (fun_params f)) g1 (arguments (fun_params f) vals)
    (Interp.mkSt 0 [] (Interp.initial_locals (Load.signature f) fn (map I32 vals)) h))
    by (by eapply params_vars_ok).
  destruct (compile_args m perms depth _ _ _ _ _ _ Hvars Hargs) as (cs & Hcs & Hrun).
  exists cs. do 2 eexists. split; [|by split; [exact Hvars|exact Hrun]].
  unfold CodeGen.function_frame in Hc. rewrite Hbody in Hc. cbn in Hc. unfold CodeGen.mbind, CodeGen.gets in Hc.
  rewrite Hcs, Hi in Hc. injection Hc as _ <-. rewrite Hcode. by rewrite <- !app_assoc.
Qed.

(** C40: calls between the functions of a contract are compiled to a call of the first
    one, whatever name the source gives.  In any compiled contract, a function that returns
    [name(args)] runs the first function of the contract on the values of [args]: it
    returns its result (the default value if it has none) after its effects, or fails with
    its error. *)
Theorem internal_calls_run_first_function (c : Contract) g wasm m i f0 f name args sp sp' vals ws perms h n :
  Load.contract_ok c -> CodeGen.compile c CodeGen.new = (g, Ok wasm) -> blen wasm < 2 ^ 32 ->
  parse_module wasm = Ret m -> con_functions c !! 0%nat = Some f0 -> con_functions c !! i = Some f ->
  fun_body f = [Return (Some (ECall name args sp)) sp'] -> fun_return_type f <> TyVoid ->
  word_params c (fun_params f) -> length vals = length (fun_params f) -> Forall i32_range vals ->
  evaluate (arguments (fun_params f) vals) args ws -> length args = length (fun_params f0) ->
  let meter := Interp.gas_meter h in
  let k := args_cost (Gas.costs meter) args + Gas.arithmetic (Gas.costs meter) in
  0 <= Gas.arithmetic (Gas.costs meter) -> 0 <= Gas.division (Gas.costs meter) ->
  Gas.used meter + k <= Gas.limit meter < 2 ^ 64 ->
  let caller := Interp.execute_function (args_instructions args + S (S n)) m perms (12 + Z.of_nat i)
    (map I32 vals) 0 h in
  let first := Interp.execute_function (S n) m perms 12 (map I32 ws) 1
    (Interp.set_gas h (Gas.mkGasMeter (Gas.limit meter) (Gas.used meter + k) (Gas.costs meter))) in
  exports m !! 1%nat = Some (mkWasmExport (fun_name f0) EFunction 12)
  /\ (forall h' o, first = (h', Ret o) ->
       let meter' := Interp.gas_meter h' in
       let k' := Gas.arithmetic (Gas.costs meter') in
       Gas.used meter' + k' <= Gas.limit meter' < 2 ^ 64 ->
       caller = (Interp.set_gas h' (Gas.mkGasMeter (Gas.limit meter') (Gas.used meter' + k') (Gas.costs meter')),
                 Ret (Some (default (default_for_valtype (Load.valtype (fun_return_type f))) o))))
  /\ (forall h' e, first = (h', Throw e) -> caller = (h', Throw e)).
Proof.
  intros Hok Hcomp Hsize Hparse Hf0 Hf Hbody Hret Hw Hlen Hvals Hargs Harity meter k Har Hdi Hgas caller first.
  destruct (LoadTheorem.loads c g wasm Hok Hcomp Hsize) as (m' & Hm' & _ & Hcount & Himpl & _ & Hexp & _).
  assert (m' = m) as -> by congruence.
  destruct (Forall2_lookup_l _ _ _ _ _ Himpl Hf) as (fn & Hfn & Hfi), (Forall2_lookup_l _ _ _ _ _ Himpl Hf0) as (fn0 & Hfn0 & Hfi0).
  assert (Hps : Z.of_nat (length (fun_params f)) < 2 ^ 32).
  { destruct Hok as [_ Hfs]. rewrite Forall_lookup in Hfs. destruct (Hfs i f Hf) as [_ ?]. lia. }
  split. { rewrite Hexp. destruct (con_functions c); [done|]. by injection Hf0 as ->. }
  destruct (call_code c m f fn vals name args ws sp sp' perms 0 h) as (cs & tbl & g1 & Hcode & Hvars & Hrun); try done.
  destruct (run_function c m 0 f0 fn0 (S n) perms (map I32 ws) 1
    (Interp.set_gas h (Gas.mkGasMeter (Gas.limit meter) (Gas.used meter + k) (Gas.costs meter)))) as [Ht Hfirst]; try done.
  assert (Hcaller : caller = _) by (by apply (run_function c m i f fn)).
  assert (Hsz : blen (fn_code fn) < 2 ^ 32) by apply Hfi.
  set (s := Interp.mkSt 0 [] _ h) in Hcaller, Hvars.
  assert (room s (args_cost (costs_of s) args)) as Hroom by (unfold room; cbn; unfold k, meter in *; lia).
  rewrite Hcode in Hcaller, Hsz.
  assert (Hsz' := Z.lt_trans _ _ (2 ^ 63) Hsz eq_refl).
  pose proof (Hrun [] _ s eq_refl Hsz' Hvars Har Hdi Hroom (S (S n))) as Hpush. rewrite app_nil_l in Hpush.
  rewrite Hpush in Hcaller. clear Hpush Hrun.
  set (s1 := after s _ _ _) in Hcaller. change (12 + Z.of_nat 0) with 12 in Ht, Hfirst.
  destruct (call_then_return m perms 0 12 (Load.signature f0) (map I32 ws) cs s1 n) as [Hret1 Hthrow]; try done.
  { unfold s1. apply room_after. unfold room. cbn. unfold k, meter in *. lia. }
  { apply Forall2_length in Hargs. cbn. rewrite !length_map. congruence. }
  { apply app_nil_r. }
  assert (Hs1 : Interp.shared (fetched s1 (Gas.arithmetic (costs_of s1)))
    = Interp.set_gas h (Gas.mkGasMeter (Gas.limit meter) (Gas.used meter + k) (Gas.costs meter)))
    by (unfold fetched, s1; by rewrite after_after).
  rewrite Hs1 in Hret1, Hthrow. split.
  - intros h' o Ho meter' k' Hr'. rewrite Hcaller, (Hret1 h' o Ho Hr'). cbn.
    unfold Load.results_of. rewrite decide_False by done. cbn. by destruct o.
  - intros h' e He. rewrite Hcaller, (Hthrow h' e He). cbn [Interp.shared Interp.stack returned]. f_equal.
    assert (He' := He). fold first in He'. unfold first in He'. rewrite Hfirst in He'. destruct (Interp.execute_block _ _ _ _ _ _) as [s' r].
    injection He' as _ Hx. by eapply function_result_throw.
Qed.

End Run.
