(* ===== verification/GsSamples.v ===== *)
(** * gratiascript: contracts from source text to execution

    Small contracts compiled from their text and run on the interpreter of the VM: the
    inputs at which the theorems about the compiler apply, and programs whose compiled
    code does not do what their source says. *)

From stdpp Require Import base gmap strings list pretty.
From Stdlib Require Import ZArith Lia.
From S2P Require Import Prelude CoreTypes Gas Sandbox HostFunctions WasmModule Interp VmRuntime GsSyntax GsLexer GsParser GsTypes GsCodegen GsFrontend GsScope GsModule GsLoad GsRun.
Import Gs.
Local Open Scope Z_scope.

Module GsSamples.
Import Wasm.

#[local] Instance debug : DebugText := {| debug_f64 := fun _ => "0.0"; debug_str := fun s => s |}.

(** ** Running a source text *)

Definition contract_of (source : list Z) : option Contract :=
  match Lexer.tokenize source with
  | Done toks => match Parser.parse_contract toks with Done c => Some c | _ => None end
  | _ => None
  end.

Definition module_of (source : list Z) : option WasmModule :=
  match Compiler.compile source with
  | Done wasm => match parse_module wasm with Ret m => Some m | _ => None end
  | _ => None
  end.

(** Call the function [name] of the contract with text [source]: its result and the
    events it emits. *)
Definition call (source : list Z) (name : string) (args : list Value)
  : option (exc (option Value) * list Host.ContractEvent) :=
  match module_of source with
  | None => None
  | Some m =>
      match VmRuntime.find_export m name with
      | None => None
      | Some ex =>
          let h := Interp.mkShared (map init_value (globals m)) (VmRuntime.initial_memory m)
                     (Gas.new 100000) (Host.new 10 20 (replicate 32 7) 1000) in
          let '(h', r) := Interp.execute_function 1000 m Sandbox.all (exp_index ex) args 0 h in
          Some (r, Host.events (Interp.host_env h'))
      end
  end.

Definition result_of (o : option (exc (option Value) * list Host.ContractEvent)) : option (exc (option Value)) :=
  fst <$> o.

(** ** A contract for the theorems *)

Definition gate_source : list Z := Lexer.chars
  "contract Gate { let limit: i32 = 3; function open(peers: i32, n: i32): bool { return peers * 2 >= n && n != 0; } }".

Definition no_span : Span := mkSpan 0 0 0 0.
Definition gate : Contract := default (mkContract "" [] [] no_span) (contract_of gate_source).

Example gate_runs :
  result_of (call gate_source "open" [I32 4; I32 7]) = Some (Ret (Some (I32 1)))
  /\ result_of (call gate_source "open" [I32 3; I32 7]) = Some (Ret (Some (I32 0))).
Proof. split; vm_compute; reflexivity. Qed.

Definition gate_code : CodeGen.CodeGen * bytes :=
  match CodeGen.compile gate CodeGen.new with (g, Ok w) => (g, w) | (g, Err _) => (g, []) end.

Lemma gate_compiles : CodeGen.compile gate CodeGen.new = (gate_code.1, Ok gate_code.2).
Proof. vm_compute. reflexivity. Qed.

#[local] Existing Instance Load.contract_ok_dec.

Lemma gate_ok : Load.contract_ok gate.
Proof. decide_now. Qed.

Lemma checked_contract_compiles_witness :
  exists g wasm, CodeGen.compile gate CodeGen.new = (g, Ok wasm).
Proof.
  destruct (Checker.check gate Checker.new) as [s [tc|e]] eqn:E.
  - exact (Scope.checked_contract_compiles gate s tc E).
  - exfalso. assert (is_ok (Checker.check gate Checker.new).2 = true) as H by (vm_compute; reflexivity).
    rewrite E in H. discriminate H.
Defined.

Lemma compiled_contract_loads_witness :
  exists m, parse_module gate_code.2 = Ret m /\ LoadTheorem.loaded gate gate_code.1 m.
Proof.
  exact (LoadTheorem.compiled_contract_loads gate gate_code.1 gate_code.2 gate_ok gate_compiles
    ltac:(vm_compute; reflexivity)).
Defined.

Definition gate_module : WasmModule :=
  match parse_module gate_code.2 with Ret m => m | _ => mkWasmModule [] [] [] [] [] 0 0 [] end.

Definition gate_function : Function := default (mkFunction "" [] TyVoid [] no_span) (con_functions gate !! 0%nat).

Definition gate_body : Expr :=
  match fun_body gate_function with [Return (Some e) _] => e | _ => BoolLit false no_span end.
Definition gate_span : Span :=
  match fun_body gate_function with [Return _ sp] => sp | _ => no_span end.

Definition idle : Interp.Shared := Interp.mkShared [I32 3] [] (Gas.new 1000) (Host.new 10 20 (replicate 32 7) 1000).

Lemma gate_params : Run.word_params gate (fun_params gate_function).
Proof. unfold Run.word_params. decide_now. Qed.

Lemma gate_parses : parse_module gate_code.2 = Ret gate_module.
Proof. vm_compute. reflexivity. Qed.

Lemma gate_body_is : fun_body gate_function = [Return (Some gate_body) gate_span].
Proof. vm_compute. reflexivity. Qed.

Lemma gate_eval : Run.eval (Run.arguments (fun_params gate_function) [4; 7]) gate_body = Some 1.
Proof. vm_compute. reflexivity. Qed.

Lemma gate_facts :
  Wasm.blen gate_code.2 < 2 ^ 32 /\ con_functions gate !! 0%nat = Some gate_function
  /\ fun_return_type gate_function <> TyVoid /\ length [4; 7] = length (fun_params gate_function)
  /\ Run.word_expr gate_body = true /\ (Run.instructions gate_body < 20)%nat.
Proof. split_and!; vm_compute; try reflexivity; [discriminate|lia]. Qed.

Lemma values_ok : Forall Encoding.i32_range [4; 7].
Proof. repeat constructor; vm_compute; congruence. Qed.

Lemma idle_gas :
  let meter := Interp.gas_meter idle in
  let k := Run.cost (Gas.costs meter) gate_body + Gas.arithmetic (Gas.costs meter) in
  0 <= Gas.arithmetic (Gas.costs meter) /\ 0 <= Gas.division (Gas.costs meter)
  /\ Gas.used meter + k <= Gas.limit meter < 2 ^ 64.
Proof. vm_compute. repeat split; discriminate. Qed.

Lemma compiled_function_correct_witness :
  (Interp.execute_function 20 gate_module Sandbox.all (12 + Z.of_nat 0) (map I32 [4; 7]) 0 idle).2
  = Ret (Some (I32 1)).
Proof.
  destruct gate_facts as (Hsize & Hf & Hret & Hlen & Hword & Hfuel), idle_gas as (Ha & Hd & Hg).
  exact (f_equal snd (Run.compiled_function_correct gate gate_code.1 gate_code.2 gate_module 0
    gate_function gate_body gate_span [4; 7] 1 Sandbox.all idle 20 gate_ok gate_compiles Hsize gate_parses
    Hf gate_body_is Hret gate_params Hlen values_ok Hword gate_eval Ha Hd Hg Hfuel)).
Defined.

(** ** What goes wrong *)

Definition calls_source : list Z := Lexer.chars
  "contract C { function id(x: i32): i32 { return x; } function double(x: i32): i32 { return x * 2; } function main(a: i32): i32 { return double(a + 1); } }".

(** [main(4)] is [double(5)] in the source, and 5 when it is run. *)
Example calls_run :
  result_of (call calls_source "double" [I32 5]) = Some (Ret (Some (I32 10)))
  /\ result_of (call calls_source "main" [I32 4]) = Some (Ret (Some (I32 5))).
Proof. split; vm_compute; reflexivity. Qed.

Definition calls : Contract := default (mkContract "" [] [] no_span) (contract_of calls_source).
Definition calls_code : CodeGen.CodeGen * bytes :=
  match CodeGen.compile calls CodeGen.new with (g, Ok w) => (g, w) | (g, Err _) => (g, []) end.
Definition calls_module : WasmModule :=
  match parse_module calls_code.2 with Ret m => m | _ => mkWasmModule [] [] [] [] [] 0 0 [] end.
Definition calls_function (i : nat) : Function :=
  default (mkFunction "" [] TyVoid [] no_span) (con_functions calls !! i).

(** The arguments of the call in [main], and the places of the call and of the statement. *)
Definition main_call : list Expr * Span * Span :=
  match fun_body (calls_function 2) with
  | [Return (Some (ECall _ args sp)) sp'] => (args, sp, sp')
  | _ => ([], no_span, no_span)
  end.

Lemma calls_ok : Load.contract_ok calls.
Proof. decide_now. Qed.

Lemma calls_compiles :
  CodeGen.compile calls CodeGen.new = (calls_code.1, Ok calls_code.2) /\ blen calls_code.2 < 2 ^ 32
  /\ parse_module calls_code.2 = Ret calls_module.
Proof. split_and!; vm_compute; reflexivity. Qed.

Lemma calls_params : Run.word_params calls (fun_params (calls_function 2)).
Proof. unfold Run.word_params. decide_now. Qed.

Lemma calls_functions :
  con_functions calls !! 0%nat = Some (calls_function 0) /\ con_functions calls !! 2%nat = Some (calls_function 2)
  /\ fun_body (calls_function 2) = [Return (Some (ECall "double" main_call.1.1 main_call.1.2)) main_call.2]
  /\ fun_return_type (calls_function 2) <> TyVoid
  /\ length [4] = length (fun_params (calls_function 2))
  /\ length main_call.1.1 = length (fun_params (calls_function 0)).
Proof. split_and!; vm_compute; (reflexivity || discriminate). Qed.

Lemma calls_evaluate :
  Forall Encoding.i32_range [4] /\ Run.evaluate (Run.arguments (fun_params (calls_function 2)) [4]) main_call.1.1 [5].
Proof.
  split; [repeat constructor; vm_compute; congruence|].
  let e := eval vm_compute in main_call.1.1 in
  assert (main_call.1.1 = e) as -> by (vm_compute; reflexivity).
  constructor; [|constructor]. split; vm_compute; reflexivity.
Qed.

Lemma idle_gas_calls :
  let meter := Interp.gas_meter idle in
  let k := Run.args_cost (Gas.costs meter) main_call.1.1 + Gas.arithmetic (Gas.costs meter) in
  0 <= Gas.arithmetic (Gas.costs meter) /\ 0 <= Gas.division (Gas.costs meter)
  /\ Gas.used meter + k <= Gas.limit meter < 2 ^ 64.
Proof. vm_compute. repeat split; discriminate. Qed.

Lemma internal_calls_run_first_function_witness :
  (Interp.execute_function (Run.args_instructions main_call.1.1 + 11) calls_module Sandbox.all
     (12 + Z.of_nat 2) (map I32 [4]) 0 idle).2 = Ret (Some (I32 5)).
Proof.
  destruct calls_compiles as (Hc & Hs & Hp), calls_functions as (H0 & H2 & Hb & Hr & Hl & Ha),
    calls_evaluate as [Hv He], idle_gas_calls as (Hg1 & Hg2 & Hg3).
  destruct (Run.internal_calls_run_first_function calls calls_code.1 calls_code.2 calls_module 2
    (calls_function 0) (calls_function 2) "double" main_call.1.1 main_call.1.2 main_call.2 [4] [5]
    Sandbox.all idle 9 calls_ok Hc Hs Hp H0 H2 Hb Hr calls_params Hl Hv He Ha Hg1 Hg2 Hg3) as (_ & Hret & _).
  rewrite (Hret _ (Some (I32 5)) ltac:(vm_compute; reflexivity) ltac:(vm_compute; split; congruence)).
  reflexivity.
Defined.

Definition emit_source : list Z :=
  Lexer.chars "contract C { function f(x: i32): void { emit(" ++ [34] ++ Lexer.chars "topic" ++ [34]
  ++ Lexer.chars ", x); } }".

(** A value that is no string literal stays under the arguments of the event: the length of
    the topic is taken for its address and the value for its length. *)
Lemma emitted_value_mangles_event :
  map Host.topic (from_option snd [] (call emit_source "f" [I32 3])) = [string_of_bytes [0; 0; 0]].
Proof. vm_compute. reflexivity. Qed.

Definition shadow_source : list Z := Lexer.chars
  "contract C { let x: i32 = 7; function f(x: i32): i32 { return x; } function g(): i32 { let y: i32 = 1; if (true) { let y: i32 = 2; } return y; } }".

(** The checker resolves a name to the innermost declaration; the generator takes the field
    before the parameter, and the first variable of that name in the function. *)
Lemma shadowing_resolved_differently :
  result_of (call shadow_source "f" [I32 5]) = Some (Ret (Some (I32 7))).
Proof. vm_compute. reflexivity. Qed.

Lemma inner_variable_overwrites_outer :
  result_of (call shadow_source "g" []) = Some (Ret (Some (I32 2))).
Proof. vm_compute. reflexivity. Qed.

Definition wide_source : list Z := Lexer.chars
  "contract C { let a: i32 = -5; function add(x: i64, y: i64): i64 { return x + y; } function both(x: i32, y: i32): bool { return x && y; } function get(): i32 { return a; } function side(): void { return; } function drop(): void { side(); } }".

(** Sums of [i64] values are compiled to [i32.add] and trap. *)
Lemma i64_arithmetic_traps :
  result_of (call wide_source "add" [I64 1; I64 2]) = Some (Throw (TypeMismatch "i32" "i64")).
Proof. vm_compute. reflexivity. Qed.

(** [2 && 1] is false. *)
Lemma logical_and_is_bitwise :
  result_of (call wide_source "both" [I32 2; I32 1]) = Some (Ret (Some (I32 0))).
Proof. vm_compute. reflexivity. Qed.

(** A negative initializer is compiled to zero. *)
Lemma negative_initializer_is_zero :
  result_of (call wide_source "get" []) = Some (Ret (Some (I32 0))).
Proof. vm_compute. reflexivity. Qed.

End GsSamples.
